(* ===== verification/_CoqProject ===== *)
-Q . S2P
Prelude.v
SortedList.v
Helpers.v
External.v
ValidatorSet.v
ValidatorSetFacts.v
ValidatorSetCorrect.v
VoteTypes.v
StakeKeeper.v
StakeHandlers.v
StakeCorrect.v
Milestone.v
MilestoneVotes.v
MilestoneCollect.v
MilestoneCorrect.v
MilestoneFinality.v
MilestoneProposal.v
MilestoneProps.v
VoteExt.v
VoteExtCorrect.v
Numerals.v
Dividend.v
Topup.v
TopupCorrect.v
Clerk.v
ClerkCorrect.v
Checkpoint.v
CheckpointHandlers.v
CheckpointCorrect.v
NonRp.v
NonRpCorrect.v
BorTypes.v
Selection.v
BorKeeper.v
BorHandlers.v
StakePromise.v
BorVotes.v
BorCorrect.v
Rotation.v
RotationCorrect.v
ChainManager.v
App.v
Proposal.v
ProposalCorrect.v
ExtendVote.v
Wire.v
VoteCodec.v
VoteCodecCorrect.v
Formats.v
Stored.v
StoredCorrect.v
Messages.v
MessagesCorrect.v
AppDemo.v
ExtendVoteCorrect.v
Receipts.v
ReceiptsCorrect.v
PreBlock.v
PreBlockCorrect.v
Failover.v
FailoverCorrect.v
Parity.v
Listener.v
ListenerCorrect.v
BorClient.v
BorClientCorrect.v
NodeService.v
SelfHeal.v
SelfHealCorrect.v
Bridge.v
BridgeCorrect.v
Queries.v
Processor.v
ProcessorCorrect.v
RootTx.v
RootTxCorrect.v
Block.v
BlockCorrect.v
Genesis.v
GenesisCorrect.v
