(* ===== verification/Prelude.v ===== *)
(** * heimdall-v2: a verified model

    Heimdall is the consensus layer of Polygon PoS: a chain of validators (CometBFT with the
    cosmos-sdk) that watches a root chain (Ethereum) and an execution chain (Bor).  It keeps
    the validator set that the staking contract defines, finalises Bor blocks (milestones),
    proves Bor's blocks to the root chain (checkpoints), carries events to Bor (state sync)
    and decides who produces Bor's blocks (spans).  The sources are in [src/]; this library
    translates the hand-written code of that program and proves what makes it correct.

    ** How the parts interact

    A message that repeats an event of the root chain, or proposes something to it, goes
    through three phases: its message server when the block that holds it is executed, its
    side handler when each validator answers with a vote, and its post-handler in the next
    block when more than two thirds of the power answered yes.  The votes travel as vote
    extensions, which the next proposer puts first in its block.  Around this, every
    height:

    - [PrepareProposal] filters the votes of the previous height and fills the block,
      [ProcessProposal] checks it ([Proposal], [src/app/abci.go]);
    - [ExtendVote] answers the block's transactions, proposes a milestone and the bytes of a
      checkpoint, [VerifyVoteExtension] checks the others' ([ExtendVote]);
    - [PreBlocker] tallies the votes: it finalises a milestone or rotates the span, takes
      the signatures of a checkpoint and runs the post-handlers ([PreBlock]);
    - the transactions run and [EndBlock] synchronises the validator set ([Block]).

    Beside every validator a bridge listens to both chains ([Listener], [SelfHeal], run
    together in [Bridge]), turns what it sees into messages ([Processor]) and broadcasts
    them; requests to Bor fall over between several endpoints ([Failover]).

    ** The files and the code they model

    Shared: this file (machine integers, options, tactics); [SortedList] (lists sorted by a
    key, Go's [sort.Search]); [Helpers] ([src/helper]: sequences, validation, hard forks by
    height; [src/common/hex]); [External] (interfaces of the libraries); [Numerals] (decimal
    text, words of 32 bytes, float64); [VoteTypes] ([src/sidetxs/vote_ext.pb.go]); [Wire],
    [VoteCodec] and [VoteCodecCorrect] (the encoding of vote extensions in the
    same generated file).

    Validators: [ValidatorSet], [ValidatorSetFacts], [ValidatorSetCorrect]
    ([src/x/stake/types]); [StakeKeeper], [StakeHandlers], [StakeCorrect], [StakePromise]
    ([src/x/stake/keeper]).

    Milestones: [Milestone], [MilestoneVotes] ([src/x/milestone/keeper], [abci]);
    [MilestoneCollect], [MilestoneCorrect], [MilestoneFinality],
    [MilestoneProposal], [MilestoneProps] (their theorems).

    Vote extensions: [VoteExt], [NonRp] ([src/app/vote_ext_utils.go]); [VoteExtCorrect],
    [NonRpCorrect].

    Modules: [Dividend], [Topup], [TopupCorrect] ([src/x/topup], [src/types]); [Clerk],
    [ClerkCorrect] ([src/x/clerk]); [Checkpoint], [CheckpointHandlers], [CheckpointCorrect]
    ([src/x/checkpoint]); [ChainManager] ([src/x/chainmanager]); [BorTypes], [Selection],
    [BorKeeper], [BorHandlers], [BorVotes], [BorCorrect] ([src/x/bor]).

    Application: [Rotation], [RotationCorrect] (the spans in the pre-blocker); [App] (the
    state: the stores side by side; the dispatch of messages); [Proposal], [ExtendVote],
    [PreBlock], [Block] with their theorems in [ProposalCorrect], [ExtendVoteCorrect],
    [PreBlockCorrect], [BlockCorrect]; [AppDemo] (a concrete application for the witnesses);
    [Genesis], [GenesisCorrect] (export and restart); [Queries] (the query servers).

    Stored messages: [Formats] (the scheme of the generated codecs),
    [Stored], [StoredCorrect] (the message types of the collections, [*.pb.go]); [Messages],
    [MessagesCorrect] (the messages of transactions, [tx.pb.go]).

    Bridge: [Failover], [FailoverCorrect]; [Parity] (the comparison of Bor's
    transports, [src/helper/config.go]); [BorClient], [BorClientCorrect] (the
    client of Bor over HTTP and gRPC, [src/helper/call.go], [src/x/bor/grpc/query.go], as an
    implementation of the interface [BorChain] of [External]); [RootTx], [RootTxCorrect]
    (transactions to the root chain, [src/helper/tx.go]); [Listener], [ListenerCorrect];
    [SelfHeal], [SelfHealCorrect]; [Bridge], [BridgeCorrect] (the running bridge: tasks, the
    worker of the queue, the root chain listener with its polling and its self-healing,
    shutdown; [src/bridge/queue], [service], [listener/base.go], [rootchain.go]); [Processor], [ProcessorCorrect] ([src/bridge]); [Receipts],
    [ReceiptsCorrect] (the receipts behind the side handlers, [src/helper/call.go]);
    [NodeService] (health and lookups, [src/app/util.go], [src/helper/query.go]).

    A store of collections is a record of finite maps ([gmap]) and values, one field per
    collection; a handler takes the store and answers [Ok] with the new one, or an error.  A
    Go function that returns an error has the result type [outcome]; where the code ignores an
    error the model does too.  Definitions keep the names of the code, as far as they are
    unique and legal.

    ** What the theorems show

    - Composition: [BlockCorrect] proves that every state the chain of blocks reaches, from
      a sound one and whatever the transactions and the votes, satisfies the invariants of
      all modules together; that the fees of a block go to its proposer and the block ends
      with the bank this leaves; that in any run of blocks each event of the root chain is
      applied at most once, and from Zurich on a validator that left has no power.
      [PreBlockCorrect]: exactly the approved transactions execute, from a state that is
      determined, and a failing handler leaves no trace.  [GenesisCorrect]: what of an exported
      chain a restart keeps, and what it forgets.
    - Refinement: the batch update of the validator set is the update of a map from
      addresses to powers, and the end of a block makes that map the one of the active
      stored validators; stored checkpoints are a gapless chain that agrees with the root
      chain, however late approved messages are applied; the stake module keeps what the bor
      module relies on ([StakePromise]).
    - Finality: who stands behind a milestone, a checkpoint's signatures and an elected
      producer; when an honest proposition, extension or proposal is accepted by the others,
      and when their own Bor node makes them refuse it.
    - Events: each is as the root chain has it, and a validator votes yes only on a final
      one; the root chain listener loses none of them as long as it can ask its database where
      it stands; what it queues is of a settled block, or sent by the self-healing for an old
      event or a buffered checkpoint, however its goroutines interleave; what the bridge
      sends is what the validators accept; its shutdown ends, and stops the services that had
      begun when it passed them.
    - Spans: the chain of spans is contiguous, the loops that choose a span end and a span
      is always found, a failed producer is replaced without losing a block, and a planned
      downtime hands over exactly when a span overlaps it.
    - Codecs: an encoded vote extension decodes to itself, the decoder ends on all input;
      what the modules store, and the messages of transactions, are read back (an empty
      public key as nil).
    - The node itself: it offers bounded fees to the root chain, it reads the same chain of
      Bor over either transport, and it is halted for disagreeing transports exactly when
      they disagree three times in a row.

    Each theorem that is claimed has an identifier [C<n>] in its comment, and a witness that
    applies it at a concrete input.  Where the code does not do what it means to, a theorem
    states what it does and hypotheses exclude the case; such theorems are named in the
    comments as findings.

    ** Integers, fuel and loops

    [uint64] and [int64] are integers with their wrap-around written out ([u64], [i64]);
    where the code checks an overflow the model does.  Loops over data are structural.  Loops
    with another measure take fuel, and a theorem shows that the fuel given is enough: the
    ones that choose the end of a span ([RotationCorrect.span_rotation_terminates]), the
    backfill of spans ([BorTypes]), the walk of a proposition over Bor blocks (as many steps
    as blocks), the fields of an encoded message (as many steps as bytes).  The rejection
    sampling of [Selection] has no bound in the code: there [None] is running out of fuel
    and every theorem on it is for any fuel.

    ** Parameters

    Code outside the repository is an argument of the definitions that use it: keys and
    addresses, hashes and Merkle trees, signatures, the bank and the decorators of the SDK,
    transaction encodings, the Bor node and the contracts of the root chain, Go's seeded
    generator, and the order in which Go iterates over a map.  A theorem that needs a law of
    one of them states it as a hypothesis (for example: the supply of the bank changes by
    what is minted and burnt), and its witness instantiates it.

    ** Not modelled

    - Generated code: [src/api], [src/contracts], the [*.pb.go] and [*.pb.gw.go] files, except
      the data they declare, the getters used, and the codecs of vote extensions, of the
      stored messages and of the messages of transactions; the encodings of times and of the
      numbers of the SDK inside them are parameters.
    - The wiring of the application (the constructor of [src/app/app.go], the modules'
      [module.go], [depinject], [autocli], interfaces and codecs) and its servers.
    - The command line ([src/cmd], [src/x/*/client]), the migration of the genesis file from
      heimdall v1 ([src/cmd/heimdalld/cmd/migrate.go] and [migration]: JSON rewriting done
      once), testnets, pruning.
    - Connections and encodings of requests: the library of the task queue and its retries,
      the databases, the dialling of Bor ([src/x/bor/grpc/client.go]), the ABI packing of
      transactions and [src/helper/unpack.go]; metrics, traces, logs, versions, simulations,
      mocks and test helpers. *)
From Stdlib Require Export ZArith Lia String Ascii List Bool.
From stdpp Require Export prelude gmap strings sorting.

#[global] Open Scope Z_scope.

(** ** Machine integers *)

Definition MaxInt64 : Z := 2 ^ 63 - 1.
Definition MinInt64 : Z := - 2 ^ 63.
Definition MaxUint64 : Z := 2 ^ 64 - 1.

(** The value a Go [uint64] (resp. [int64]) holds after an operation whose
    mathematical result is [z]. *)
Definition u64 (z : Z) : Z := z mod 2 ^ 64.
Definition i64 (z : Z) : Z := (z + 2 ^ 63) mod 2 ^ 64 - 2 ^ 63.

Definition in_u64 (z : Z) : Prop := 0 <= z <= MaxUint64.
Definition in_i64 (z : Z) : Prop := MinInt64 <= z <= MaxInt64.

Lemma u64_id z : in_u64 z -> u64 z = z.
Proof. unfold in_u64, u64, MaxUint64. intros. apply Z.mod_small. lia. Qed.

Lemma i64_id z : in_i64 z -> i64 z = z.
Proof.
  unfold in_i64, i64, MaxInt64, MinInt64. intros.
  rewrite Z.mod_small; lia.
Qed.
Lemma u64_range z : in_u64 (u64 z).
Proof.
  unfold in_u64, u64, MaxUint64. pose proof (Z.mod_pos_bound z (2^64)). lia.
Qed.

Lemma i64_range z : in_i64 (i64 z).
Proof.
  unfold in_i64, i64, MaxInt64, MinInt64.
  pose proof (Z.mod_pos_bound (z + 2^63) (2^64)). lia.
Qed.

Create HintDb width.
Create Rewrite HintDb width.
#[export] Hint Resolve u64_range i64_range : width.
#[export] Hint Rewrite u64_id i64_id using (unfold in_u64, in_i64, MaxInt64, MinInt64, MaxUint64 in *; lia) : width.

(** Go's [big.Int.Div] is Euclidean: the remainder is never negative. *)
Definition big_div (a b : Z) : Z := if 0 <? b then a / b else - (a / - b).

Lemma big_div_spec a b : b <> 0 -> exists r, a = b * big_div a b + r /\ 0 <= r < Z.abs b.
Proof.
  intros Hb. unfold big_div. destruct (Z.ltb_spec 0 b) as [Hp|Hp].
  - exists (a mod b). pose proof (Z.div_mod a b ltac:(lia)).
    pose proof (Z.mod_pos_bound a b Hp). lia.
  - exists (a mod - b). pose proof (Z.div_mod a (- b) ltac:(lia)).
    pose proof (Z.mod_pos_bound a (- b) ltac:(lia)). lia.
Qed.

(** ** Outcomes

    A Go function that can fail returns a value, an error, or panics.  A
    handler returns the state only on success: the caller (the message router
    and the pre-blocker) discards the writes of a handler that failed. *)

(** The error values the modelled code returns, by their Go names; [ErrText]
    stands for the errors built in place, named after the check that fails. *)
Inductive error :=
| ErrNotFound
| ErrInvalidMsg
| ErrText (reason : string).

#[export] Instance error_eq_dec : EqDecision error.
Proof. solve_decision. Defined.

Inductive outcome (A : Type) :=
| Ok (a : A)
| Err (e : error)
| Panic.
Arguments Ok {A} a.
Arguments Err {A} e.
Arguments Panic {A}.

#[export] Instance outcome_ret : MRet outcome := fun _ a => Ok a.
#[export] Instance outcome_bind : MBind outcome := fun _ _ f m =>
  match m with Ok a => f a | Err e => Err e | Panic => Panic end.
#[export] Instance outcome_fmap : FMap outcome := fun _ _ f m =>
  match m with Ok a => Ok (f a) | Err e => Err e | Panic => Panic end.

Definition is_ok {A} (m : outcome A) : bool :=
  match m with Ok _ => true | _ => false end.

(** [of_option e o] is a lookup whose absence is the error [e]. *)
Definition of_option {A} (e : error) (o : option A) : outcome A :=
  match o with Some a => Ok a | None => Err e end.

(** [or_err m e] replaces the error of [m] by the error [e] the caller reports. *)
Definition or_err {A} (m : outcome A) (e : error) : outcome A :=
  match m with Err _ => Err e | _ => m end.

(** [fail_if b e k]: Go's [if b { return e }] followed by [k]. *)
Definition fail_if {A} (b : bool) (e : error) (k : outcome A) : outcome A :=
  if b then Err e else k.
Definition panic_if {A} (b : bool) (k : outcome A) : outcome A :=
  if b then Panic else k.

Declare Scope outcome_scope.
Delimit Scope outcome_scope with outcome.
Notation "'return_if' b 'with' e ';;' k" := (fail_if b e k)
  (at level 100, b at level 99, e at level 99, k at level 200, right associativity) : outcome_scope.
Notation "'panic_when' b ';;' k" := (panic_if b k)
  (at level 100, b at level 99, k at level 200, right associativity) : outcome_scope.
#[global] Open Scope outcome_scope.

Lemma bind_ok {A B} (m : outcome A) (f : A -> outcome B) b :
  mbind f m = Ok b -> exists a, m = Ok a /\ f a = Ok b.
Proof. destruct m; simpl; intros H; try discriminate; eauto. Qed.

Lemma fail_if_ok {A} b e (k : outcome A) a : fail_if b e k = Ok a -> b = false /\ k = Ok a.
Proof. destruct b; simpl; [discriminate | auto]. Qed.

Lemma panic_if_ok {A} b (k : outcome A) a : panic_if b k = Ok a -> b = false /\ k = Ok a.
Proof. destruct b; simpl; [discriminate | auto]. Qed.

Lemma of_option_ok {A} e (o : option A) a : of_option e o = Ok a -> o = Some a.
Proof. destruct o; simpl; intros H; [by injection H as -> | discriminate]. Qed.

Lemma or_err_ok {A} (m : outcome A) e a : or_err m e = Ok a -> m = Ok a.
Proof. by destruct m. Qed.

(** ** Automation *)

(** Take one step in a hypothesis that says a computation in the outcome monad
    succeeded. *)
Ltac ok_step H :=
  lazymatch type of H with
  | mbind _ _ = Ok _ =>
      let a := fresh "a" in let Ha := fresh "Ha" in
      apply bind_ok in H; destruct H as (a & Ha & H); cbn beta iota in H
  | fail_if _ _ _ = Ok _ =>
      let Hg := fresh "Hg" in apply fail_if_ok in H; destruct H as [Hg H]
  | panic_if _ _ = Ok _ =>
      let Hg := fresh "Hg" in apply panic_if_ok in H; destruct H as [Hg H]
  | of_option _ _ = Ok _ => apply of_option_ok in H
  | Err _ = Ok _ => discriminate H
  | Panic = Ok _ => discriminate H
  | Ok _ = Ok _ => injection H as H
  | (match ?x with _ => _ end) = Ok _ =>
      let Hx := fresh "Hx" in destruct x eqn:Hx
  end.
Ltac ok_inv H := repeat (progress (ok_step H)).

Ltac bool_hyps :=
  repeat match goal with
  | H : (_ || _)%bool = false |- _ => apply orb_false_iff in H; destruct H
  | H : (_ && _)%bool = true |- _ => apply andb_true_iff in H; destruct H
  | H : negb _ = false |- _ => apply negb_false_iff in H
  | H : negb _ = true |- _ => apply negb_true_iff in H
  | H : (_ =? _) = true |- _ => apply Z.eqb_eq in H
  | H : (_ =? _) = false |- _ => apply Z.eqb_neq in H
  | H : (_ <? _) = true |- _ => apply Z.ltb_lt in H
  | H : (_ <? _) = false |- _ => apply Z.ltb_ge in H
  | H : (_ <=? _) = true |- _ => apply Z.leb_le in H
  | H : (_ <=? _) = false |- _ => apply Z.leb_gt in H
  | H : bool_decide _ = true |- _ => apply bool_decide_eq_true in H
  | H : bool_decide _ = false |- _ => apply bool_decide_eq_false in H
  end.

(** ** Lists of integers *)

Definition Zsum (l : list Z) : Z := foldr Z.add 0 l.

Lemma Zsum_cons z l : Zsum (z :: l) = z + Zsum l.
Proof. done. Qed.

Lemma Zsum_app l k : Zsum (l ++ k) = Zsum l + Zsum k.
Proof. induction l; simpl; lia. Qed.

Lemma Zsum_nonneg l : Forall (fun z => 0 <= z) l -> 0 <= Zsum l.
Proof. induction 1; simpl; lia. Qed.

Lemma Zsum_perm l k : l ≡ₚ k -> Zsum l = Zsum k.
Proof. induction 1; simpl; lia. Qed.

Lemma Zsum_bounds lo hi l : Forall (fun z => lo <= z <= hi) l ->
  lo * Z.of_nat (length l) <= Zsum l <= hi * Z.of_nat (length l).
Proof. induction 1; simpl; lia. Qed.

(** ** Filters *)

Lemma filter_submseteq {A} (f : A -> bool) l : List.filter f l ⊆+ l.
Proof. induction l as [|x l IH]; cbn; [done|]. destruct (f x); [by apply submseteq_skip|by apply submseteq_cons]. Qed.

Lemma list_filter_elem {A} (f : A -> bool) l x : x ∈ List.filter f l <-> x ∈ l /\ f x = true.
Proof. by rewrite !list_elem_of_In, filter_In. Qed.

(** ** Counts *)

(** Replacing an element changes a sum by the difference of the two. *)
Lemma Zsum_insert {A} (f : A -> Z) l i x y : l !! i = Some x ->
  Zsum (map f (<[i := y]> l)) = Zsum (map f l) - f x + f y.
Proof.
  revert i. induction l as [|z l IH]; intros [|i] H; cbn in H; try done.
  - injection H as ->. change (<[0%nat := y]> (x :: l)) with (y :: l). cbn [map]. rewrite !Zsum_cons. lia.
  - change (<[S i := y]> (z :: l)) with (z :: <[i := y]> l). cbn [map]. rewrite !Zsum_cons, IH by done. lia.
Qed.
