(* ===== verification/SortedList.v ===== *)
(** * Lists sorted by a key

    Strictly sorted lists, insertion sort, merging, removal and Go's
    [sort.Search], over any key with a strict total order.  The validator set
    (keys are formatted addresses), the span lists and the producer lists (keys
    are integers) are instances. *)
From S2P Require Import Prelude.

(** A decidable strict total order. *)
Class KeyOrder (K : Type) := {
  kltb : K -> K -> bool;
  kltb_irrefl a : kltb a a = false;
  kltb_trans a b c : kltb a b = true -> kltb b c = true -> kltb a c = true;
  kltb_total a b : kltb a b = false -> kltb b a = false -> a = b;
}.

#[export] Program Instance Z_key_order : KeyOrder Z := {| kltb := Z.ltb |}.
Solve All Obligations with (intros; lia).

(** Go's [strings.Compare], which is lexical on bytes. *)
Definition str_ltb (a b : string) : bool :=
  match String.compare a b with Lt => true | _ => false end.

From Stdlib Require OrderedTypeEx.

Lemma str_ltb_lt a b : str_ltb a b = true <-> OrderedTypeEx.String_as_OT.lt a b.
Proof.
  rewrite <- OrderedTypeEx.String_as_OT.cmp_lt. unfold str_ltb.
  change (OrderedTypeEx.String_as_OT.cmp a b) with (String.compare a b).
  destruct (String.compare a b); split; congruence.
Qed.

#[export] Program Instance string_key_order : KeyOrder string := {| kltb := str_ltb |}.
Next Obligation.
  intros a. apply not_true_iff_false. rewrite str_ltb_lt. intros H.
  by apply OrderedTypeEx.String_as_OT.lt_not_eq in H.
Qed.
Next Obligation.
  intros a b c. rewrite !str_ltb_lt. apply OrderedTypeEx.String_as_OT.lt_trans.
Qed.
Next Obligation.
  intros a b. unfold str_ltb. rewrite (String.compare_antisym b a).
  destruct (String.compare a b) eqn:E; simpl; try discriminate.
  intros _ _. by apply String.compare_eq_iff.
Qed.

Section keyed.
Context {K : Type} `{!EqDecision K} {KO : KeyOrder K} {A : Type} (key : A -> K).

Definition key_lt (x y : A) : Prop := kltb (key x) (key y) = true.
Definition key_le (x y : A) : Prop := kltb (key y) (key x) = false.

(** Strictly increasing keys: sorted and without duplicates. *)
Definition ssorted (l : list A) : Prop := StronglySorted key_lt l.

Fixpoint ssortedb (l : list A) : bool :=
  match l with
  | [] => true
  | x :: l' => forallb (fun y => kltb (key x) (key y)) l' && ssortedb l'
  end.

Lemma ssortedb_sound l : ssortedb l = true -> ssorted l.
Proof.
  induction l as [|x l IH]; cbn; [constructor|]. intros [HF HS]%andb_true_iff.
  constructor; [by apply IH|]. rewrite forallb_forall in HF. apply Forall_forall.
  intros y Hy. apply HF. by apply list_elem_of_In.
Qed.

Fixpoint insert_by (x : A) (l : list A) : list A :=
  match l with
  | [] => [x]
  | y :: l' => if kltb (key y) (key x) then y :: insert_by x l' else x :: l
  end.
(** Go's [sort.Sort]/[sort.Slice] by the key (stable here; Go leaves the
    order of equal keys open). *)
Definition sort_by (l : list A) : list A := foldr insert_by [] l.

(** The first element with key [k]. *)
Fixpoint find_by (k : K) (l : list A) : option A :=
  match l with
  | [] => None
  | x :: l' => if decide (key x = k) then Some x else find_by k l'
  end.

(** Merge of two strictly sorted lists; on equal keys the element of the
    second list is taken. *)
Fixpoint merge_by (l : list A) : list A -> list A :=
  fix merge_u (u : list A) : list A :=
    match l, u with
    | [], _ => u
    | _, [] => l
    | x :: l', y :: u' =>
        if kltb (key x) (key y) then x :: merge_by l' u
        else if decide (key x = key y) then y :: merge_by l' u'
        else y :: merge_u u'
    end.

(** Removal of the elements of [l] whose keys are, in order, those of [d];
    [None] when [l] is exhausted first. *)
Fixpoint remove_by (l d : list A) : option (list A) :=
  match d with
  | [] => Some l
  | y :: d' =>
      match l with
      | [] => None
      | x :: l' =>
          if decide (key x = key y) then remove_by l' d'
          else option_map (cons x) (remove_by l' d)
      end
  end.

Lemma key_lt_trans x y z : key_lt x y -> key_lt y z -> key_lt x z.
Proof. apply kltb_trans. Qed.
Lemma key_lt_irrefl x y : key_lt x y -> key x <> key y.
Proof. unfold key_lt. intros H E. rewrite E, kltb_irrefl in H. discriminate. Qed.
Lemma key_lt_asym x y : kltb (key x) (key y) = true -> kltb (key y) (key x) = false.
Proof.
  intros H. apply not_true_iff_false. intros H'.
  pose proof (kltb_trans _ _ _ H H'). by rewrite kltb_irrefl in *.
Qed.
Lemma key_trichotomy x y : key_lt x y \/ key x = key y \/ key_lt y x.
Proof.
  unfold key_lt. destruct (kltb (key x) (key y)) eqn:E1; [auto|].
  destruct (kltb (key y) (key x)) eqn:E2; [auto|]. right; left. by apply kltb_total.
Qed.

(** *** Lookup *)

Lemma find_by_None k l : find_by k l = None <-> k ∉ map key l.
Proof.
  induction l as [|x l IH]; simpl.
  - split; [intros _; apply not_elem_of_nil | done].
  - rewrite not_elem_of_cons, <- IH. case_decide as E; split; [done|by intros []|by intros; split; [congruence|]|by intros []].
Qed.

Lemma find_by_Some k l x : find_by k l = Some x -> x ∈ l /\ key x = k.
Proof.
  induction l as [|y l IH]; simpl; [done|]. case_decide as E; intros H.
  - injection H as ->. split; [left | done].
  - destruct (IH H). split; [by right | done].
Qed.

Lemma find_by_elem l x : NoDup (map key l) -> x ∈ l -> find_by (key x) l = Some x.
Proof.
  induction l as [|y l IH]; simpl; intros ND Hx; [by apply not_elem_of_nil in Hx|].
  apply NoDup_cons in ND as [Hn ND]. apply elem_of_cons in Hx as [->|Hx].
  - by rewrite decide_True.
  - rewrite decide_False; [by apply IH|]. intros E. apply Hn. rewrite E.
    by apply (list_elem_of_fmap_2 key).
Qed.

Lemma find_by_app k l1 l2 :
  find_by k (l1 ++ l2) = match find_by k l1 with Some x => Some x | None => find_by k l2 end.
Proof. induction l1; simpl; [done|]. by case_decide. Qed.

Lemma ssorted_NoDup l : ssorted l -> NoDup (map key l).
Proof.
  induction 1 as [|x l HS IH HF]; simpl; constructor; [|done].
  intros (y & E & Hy)%list_elem_of_fmap. rewrite Forall_forall in HF.
  by eapply key_lt_irrefl; [apply HF|].
Qed.

Lemma ssorted_find_lt x l : Forall (key_lt x) l -> find_by (key x) l = None.
Proof.
  intros HF. apply find_by_None. intros (y & E & Hy)%list_elem_of_fmap.
  rewrite Forall_forall in HF. by eapply key_lt_irrefl; [apply HF|].
Qed.

Lemma ssorted_find_below k l :
  Forall (fun y => kltb k (key y) = true) l -> find_by k l = None.
Proof.
  intros HF. apply find_by_None. intros (y & E & Hy)%list_elem_of_fmap.
  rewrite Forall_forall in HF. specialize (HF _ Hy). by rewrite E, kltb_irrefl in HF.
Qed.

(** *** Sorting *)

Lemma insert_by_perm x l : insert_by x l ≡ₚ x :: l.
Proof.
  induction l as [|y l IH]; simpl; [done|]. destruct (kltb _ _); [|done].
  rewrite IH. apply Permutation_swap.
Qed.
Lemma sort_by_perm l : sort_by l ≡ₚ l.
Proof. induction l as [|x l IH]; simpl; [done|]. by rewrite insert_by_perm, IH. Qed.

Lemma insert_by_ssorted x l :
  ssorted l -> key x ∉ map key l -> ssorted (insert_by x l).
Proof.
  induction 1 as [|y l HS IH HF]; simpl; intros Hn; [repeat constructor|].
  apply not_elem_of_cons in Hn as [Hne Hn]. destruct (kltb (key y) (key x)) eqn:E.
  - constructor; [by apply IH|]. rewrite insert_by_perm. by constructor.
  - assert (key_lt x y) as Hlt.
    { destruct (key_trichotomy x y) as [?|[?|H]]; [done|done|].
      unfold key_lt in H; congruence. }
    constructor; [by constructor|]. constructor; [done|].
    eapply Forall_impl; [exact HF|]. intros z. by apply key_lt_trans.
Qed.

Lemma sort_by_ssorted l : NoDup (map key l) -> ssorted (sort_by l).
Proof.
  induction l as [|x l IH]; simpl; intros ND; [constructor|].
  apply NoDup_cons in ND as [Hn ND]. apply insert_by_ssorted; [by apply IH|].
  by rewrite (fmap_Permutation key (sort_by l) l (sort_by_perm l)).
Qed.

Lemma key_le_trans x y z : key_le x y -> key_le y z -> key_le x z.
Proof.
  unfold key_le. intros Hxy Hyz. apply not_true_iff_false. intros Hzx.
  destruct (key_trichotomy x y) as [H|[H|H]]; unfold key_lt in *; try congruence.
  - rewrite (kltb_trans _ _ _ Hzx H) in Hyz. discriminate.
Qed.

Lemma insert_by_sorted x l :
  StronglySorted key_le l -> StronglySorted key_le (insert_by x l).
Proof.
  induction 1 as [|y l HS IH HF]; simpl; [repeat constructor|].
  destruct (kltb (key y) (key x)) eqn:E.
  - constructor; [done|]. rewrite insert_by_perm. constructor; [|done].
    by apply key_lt_asym.
  - constructor; [by constructor|]. constructor; [done|].
    eapply Forall_impl; [exact HF|]. intros z. by apply key_le_trans.
Qed.

Lemma sort_by_sorted l : StronglySorted key_le (sort_by l).
Proof. induction l; simpl; [constructor | by apply insert_by_sorted]. Qed.

Lemma ssorted_unique l k : ssorted l -> ssorted k -> l ≡ₚ k -> l = k.
Proof.
  intros Hl. revert k. induction Hl as [|x l HS IH HF]; intros k Hk HP.
  - by apply Permutation_nil_l in HP.
  - destruct Hk as [|y k HS' HF']; [by apply Permutation_nil_r in HP|].
    assert (x = y) as ->.
    { assert (x ∈ y :: k) as Hx by (rewrite <- HP; left).
      assert (y ∈ x :: l) as Hy by (rewrite HP; left).
      apply elem_of_cons in Hx as [->|Hx]; [done|].
      apply elem_of_cons in Hy as [->|Hy]; [done|].
      rewrite Forall_forall in HF, HF'. specialize (HF _ Hy). specialize (HF' _ Hx).
      unfold key_lt in *. apply key_lt_asym in HF. congruence. }
    f_equal. apply IH; [done|]. by eapply Permutation_cons_inv.
Qed.

(** *** Merging *)

Lemma merge_by_nil_r l : merge_by l [] = l.
Proof. by destruct l. Qed.
Lemma merge_by_nil_l u : merge_by [] u = u.
Proof. by destruct u. Qed.
Lemma merge_by_cons x l y u :
  merge_by (x :: l) (y :: u) =
    if kltb (key x) (key y) then x :: merge_by l (y :: u)
    else if decide (key x = key y) then y :: merge_by l u
    else y :: merge_by (x :: l) u.
Proof. done. Qed.

(** Induction along a merge of two strictly sorted lists. *)
Lemma merge_ind (P : list A -> list A -> Prop) :
  (forall u, ssorted u -> P [] u) ->
  (forall l, ssorted l -> P l []) ->
  (forall x l y u, ssorted (x :: l) -> ssorted (y :: u) -> key_lt x y ->
     P l (y :: u) -> P (x :: l) (y :: u)) ->
  (forall x l y u, ssorted (x :: l) -> ssorted (y :: u) -> key x = key y ->
     P l u -> P (x :: l) (y :: u)) ->
  (forall x l y u, ssorted (x :: l) -> ssorted (y :: u) -> key_lt y x ->
     P (x :: l) u -> P (x :: l) (y :: u)) ->
  forall l u, ssorted l -> ssorted u -> P l u.
Proof.
  intros Hn Hl Hlt Heq Hgt l. induction l as [|x l IHl]; intros u SL SU; [by apply Hn|].
  induction u as [|y u IHu]; [by apply Hl|].
  inversion SL as [|?? SL' _]; inversion SU as [|?? SU' _]; subst.
  destruct (key_trichotomy x y) as [H|[H|H]].
  - apply Hlt; try done. by apply IHl.
  - apply Heq; try done. by apply IHl.
  - apply Hgt; try done. by apply IHu.
Qed.

Lemma merge_by_lt x l y u : key_lt x y ->
  merge_by (x :: l) (y :: u) = x :: merge_by l (y :: u).
Proof. intros H. rewrite merge_by_cons. unfold key_lt in H. by rewrite H. Qed.
Lemma merge_by_eq x l y u : key x = key y ->
  merge_by (x :: l) (y :: u) = y :: merge_by l u.
Proof. intros H. rewrite merge_by_cons, H, kltb_irrefl. by rewrite decide_True. Qed.
Lemma merge_by_gt x l y u : key_lt y x ->
  merge_by (x :: l) (y :: u) = y :: merge_by (x :: l) u.
Proof.
  intros H. rewrite merge_by_cons, (key_lt_asym _ _ H). rewrite decide_False; [done|].
  intros E. by apply key_lt_irrefl in H.
Qed.

Lemma Forall_merge_by (P : A -> Prop) l u :
  ssorted l -> ssorted u -> Forall P l -> Forall P u -> Forall P (merge_by l u).
Proof.
  intros SL SU. pattern l, u. apply merge_ind; [..|exact SL|exact SU].
  - intros; by rewrite merge_by_nil_l.
  - intros; by rewrite merge_by_nil_r.
  - intros x l' y u' _ _ H IH HL HU. rewrite merge_by_lt by done.
    inversion HL; subst. constructor; auto.
  - intros x l' y u' _ _ H IH HL HU. rewrite merge_by_eq by done.
    inversion HL; inversion HU; subst. constructor; auto.
  - intros x l' y u' _ _ H IH HL HU. rewrite merge_by_gt by done.
    inversion HU; subst. constructor; auto.
Qed.

Lemma ssorted_cons_lt x y l : ssorted (y :: l) -> key_lt x y -> Forall (key_lt x) (y :: l).
Proof.
  inversion 1; subst. intros Hxy. constructor; [done|].
  eapply Forall_impl; [done|]. intros z. by apply key_lt_trans.
Qed.

Lemma ssorted_merge_by l u : ssorted l -> ssorted u -> ssorted (merge_by l u).
Proof.
  intros SL SU. pattern l, u. apply merge_ind; [..|exact SL|exact SU].
  - intros; by rewrite merge_by_nil_l.
  - intros; by rewrite merge_by_nil_r.
  - intros x l' y u' HL HU H IH. rewrite merge_by_lt by done.
    inversion HL; subst. constructor; [done|].
    apply Forall_merge_by; try done. by apply ssorted_cons_lt.
  - intros x l' y u' HL HU H IH. rewrite merge_by_eq by done.
    inversion HL; inversion HU; subst. constructor; [done|].
    apply Forall_merge_by; try done.
    eapply Forall_impl; [done|]. intros z. unfold key_lt. by rewrite H.
  - intros x l' y u' HL HU H IH. rewrite merge_by_gt by done.
    inversion HU; subst. constructor; [done|].
    apply Forall_merge_by; try done. by apply ssorted_cons_lt.
Qed.

Lemma find_merge_by k l u : ssorted l -> ssorted u ->
  find_by k (merge_by l u) =
    match find_by k u with Some y => Some y | None => find_by k l end.
Proof.
  intros SL SU. pattern l, u. apply merge_ind; [..|exact SL|exact SU].
  - intros u' _. rewrite merge_by_nil_l. simpl. by destruct (find_by k u').
  - intros l' _. by rewrite merge_by_nil_r.
  - intros x l' y u' HL HU H IH. rewrite merge_by_lt by done.
    change (find_by k (x :: l')) with (if decide (key x = k) then Some x else find_by k l').
    cbn [find_by] in IH |- *. rewrite IH. destruct (decide (key x = k)) as [<-|]; [|done].
    rewrite decide_False by (intros E; by apply key_lt_irrefl in H).
    rewrite ssorted_find_lt; [done|]. inversion HU; subst.
    eapply Forall_impl; [done|]. intros z. by apply key_lt_trans.
  - intros x l' y u' HL HU H IH. rewrite merge_by_eq by done.
    cbn [find_by]. rewrite IH, H. by destruct (decide (key y = k)).
  - intros x l' y u' HL HU H IH. rewrite merge_by_gt by done.
    cbn [find_by] in *. rewrite IH. by destruct (decide (key y = k)).
Qed.

(** *** Removal *)

Lemma remove_by_sublist l d r : remove_by l d = Some r -> r `sublist_of` l.
Proof.
  revert d r. induction l as [|x l IH]; intros [|y d] r; simpl; try by (intros [= <-]).
  case_decide.
  - intros H'. constructor. by eapply IH.
  - destruct (remove_by l (y :: d)) eqn:E; simpl; intros [= <-]. constructor. by eapply IH.
Qed.

Lemma ssorted_sublist l r : r `sublist_of` l -> ssorted l -> ssorted r.
Proof.
  induction 1 as [|x r l Hs IH|x r l Hs IH]; intros HS; [done|..];
    inversion HS as [|?? HS' HF]; subst; [|by apply IH].
  constructor; [by apply IH|]. rewrite Forall_forall in HF |- *.
  intros z Hz. apply HF. by eapply elem_of_sublist.
Qed.

Lemma ssorted_filter f l : ssorted l -> ssorted (List.filter f l).
Proof.
  intros H. apply (ssorted_sublist l); [|done]. clear H.
  induction l as [|x l IH]; cbn; [constructor|]. destruct (f x); by constructor.
Qed.

Lemma remove_by_total l d : ssorted l -> ssorted d ->
  (forall y, y ∈ d -> is_Some (find_by (key y) l)) -> exists r, remove_by l d = Some r.
Proof.
  intros HL. revert d. induction HL as [|x l HS IH HF]; intros [|y d] HD Hin; simpl; eauto.
  - destruct (Hin y) as [? [=]]. left.
  - inversion HD as [|?? HD' HFd]; subst. case_decide as E.
    + apply IH; [done|]. intros z Hz. destruct (Hin z) as [w Hw]; [by right|].
      simpl in Hw. case_decide as E2; [|eauto]. exfalso.
      rewrite Forall_forall in HFd. specialize (HFd _ Hz).
      unfold key_lt in HFd. by rewrite <- E2, E, kltb_irrefl in HFd.
    + destruct (IH (y :: d)) as [r Hr]; [done|..|rewrite Hr; simpl; eauto].
      intros z Hz. destruct (Hin z) as [w Hw]; [done|]. simpl in Hw.
      case_decide as E2; [|eauto]. exfalso.
      apply elem_of_cons in Hz as [->|Hz]; [done|].
      destruct (Hin y) as [v Hv]; [by left|]. simpl in Hv. rewrite decide_False in Hv by done.
      apply find_by_Some in Hv as [Hv Ey].
      rewrite Forall_forall in HF, HFd. specialize (HF _ Hv). specialize (HFd _ Hz).
      unfold key_lt in *. rewrite Ey in HF. apply key_lt_asym in HFd. congruence.
Qed.

Lemma remove_by_head_in l y d r :
  remove_by l (y :: d) = Some r -> exists v, v ∈ l /\ key v = key y.
Proof.
  revert r. induction l as [|x l IH]; simpl; intros r; [done|]. case_decide as E.
  - intros _. exists x. split; [left | done].
  - destruct (remove_by l (y :: d)) eqn:Er; simpl; [|done]. intros _.
    destruct (IH _ eq_refl) as (v & Hv & Ev). exists v. split; [by right | done].
Qed.

Lemma find_remove_by k l d r : ssorted l -> ssorted d -> remove_by l d = Some r ->
  find_by k r = if decide (k ∈ map key d) then None else find_by k l.
Proof.
  intros HL. revert d r. induction HL as [|x l HS IH HF]; intros [|y d] r HD;
    cbn [remove_by find_by map].
  - intros [= <-]. by case_decide.
  - done.
  - intros [= <-]. rewrite decide_False by apply not_elem_of_nil. done.
  - inversion HD as [|?? HD' HFd]; subst. case_decide as E; intros H.
    + rewrite (IH _ _ HD' H). destruct (decide (key x = k)) as [<-|Hn].
      * rewrite ssorted_find_lt by done.
        destruct (decide (key x ∈ key y :: map key d)) as [|E2]; [by case_decide|].
        exfalso. apply E2. rewrite E. left.
      * apply decide_ext. rewrite elem_of_cons, <- E.
        split; [by right | by intros [?|?]; [congruence|]].
    + destruct (remove_by l (y :: d)) as [r'|] eqn:Er; simpl in H; [injection H as <-|done].
      simpl. rewrite (IH _ _ HD Er). simpl. destruct (decide (key x = k)) as [<-|Hn].
      * rewrite decide_False; [done|]. intros [E2|Hin]%elem_of_cons; [done|].
        apply list_elem_of_fmap in Hin as (z & Ez & Hz).
        destruct (remove_by_head_in _ _ _ _ Er) as (v & Hv & Ev).
        rewrite Forall_forall in HF, HFd. specialize (HF _ Hv). specialize (HFd _ Hz).
        unfold key_lt in *. rewrite Ez, Ev in HF. apply key_lt_asym in HFd. congruence.
      * done.
Qed.
End keyed.

(** ** Go's [sort.Search]

    Binary search for the least index of [0..n) at which [f] holds; [n] when
    there is none.  The interval loses an element in every turn, so [n] turns
    are enough. *)
Fixpoint search_loop (fuel : nat) (f : nat -> bool) (i j : nat) : nat :=
  match fuel with
  | O => i
  | S fuel' =>
      if (i <? j)%nat then
        let h := Nat.div2 (i + j) in
        if f h then search_loop fuel' f i h else search_loop fuel' f (S h) j
      else i
  end.
Definition sort_search (n : nat) (f : nat -> bool) : nat := search_loop n f 0 n.

Lemma div2_between i j : (i < j)%nat -> (i <= Nat.div2 (i + j) < j)%nat.
Proof.
  intros H. rewrite Nat.div2_div. pose proof (Nat.div_mod (i + j) 2 ltac:(lia)).
  pose proof (Nat.mod_upper_bound (i + j) 2 ltac:(lia)). lia.
Qed.

Section search.
Context (n : nat) (f : nat -> bool).
Hypothesis mono : forall i j, (i <= j < n)%nat -> f i = true -> f j = true.

Lemma search_loop_spec fuel i j :
  (i <= j <= n)%nat -> (j - i <= fuel)%nat ->
  (forall k, (k < i)%nat -> f k = false) -> (j < n -> f j = true)%nat ->
  let r := search_loop fuel f i j in
  (r <= n)%nat /\ (forall k, (k < r)%nat -> f k = false) /\ (r < n -> f r = true)%nat.
Proof.
  revert i j. induction fuel as [|fuel IH]; intros i j Hij Hf Hlo Hhi; simpl.
  - assert (i = j) as -> by lia. auto with lia.
  - destruct (Nat.ltb_spec i j) as [Hlt|Hge].
    + pose proof (div2_between i j Hlt). destruct (f (Nat.div2 (i + j))) eqn:E.
      * apply IH; [lia..|done|done].
      * apply IH; [lia..| |done]. intros k Hk. destruct (f k) eqn:Ek; [|done].
        rewrite (mono k (Nat.div2 (i + j))) in E; [done|lia|done].
    + assert (i = j) as -> by lia. auto with lia.
Qed.

Lemma sort_search_spec :
  let r := sort_search n f in
  (r <= n)%nat /\ (forall k, (k < r)%nat -> f k = false) /\ (r < n -> f r = true)%nat.
Proof. apply search_loop_spec; lia. Qed.
End search.

Section search_key.
Context {K : Type} `{!EqDecision K} {KO : KeyOrder K} {A : Type} (key : A -> K).

(** Binary search of a sorted list for the key [k], with the index found. *)
Definition search_by (k : K) (l : list A) : option (nat * A) :=
  let idx := sort_search (length l) (fun i =>
    match l !! i with Some x => negb (kltb (key x) k) | None => false end) in
  match l !! idx with
  | Some x => if decide (key x = k) then Some (idx, x) else None
  | None => None
  end.

Lemma ssorted_lookup_lt (l : list A) i j x y : ssorted key l ->
  l !! i = Some x -> l !! j = Some y -> (i < j)%nat -> key_lt key x y.
Proof.
  intros HS. revert i j. induction HS as [|z l HS IH HF]; intros i j Hi Hj Hij; [done|].
  destruct j as [|j]; [lia|]. simpl in Hj. destruct i as [|i]; simpl in Hi.
  - injection Hi as ->. rewrite Forall_forall in HF. apply HF. by eapply list_elem_of_lookup_2.
  - apply (IH i j); auto with lia.
Qed.

Lemma find_by_lookup (l : list A) i x : ssorted key l -> l !! i = Some x ->
  find_by key (key x) l = Some x.
Proof.
  intros HS Hi. apply find_by_elem; [by eapply ssorted_NoDup|].
  by eapply list_elem_of_lookup_2.
Qed.

(** On a strictly sorted list the binary search finds what a scan finds. *)
Lemma search_by_find (k : K) (l : list A) : ssorted key l ->
  match search_by k l with
  | Some (i, x) => l !! i = Some x /\ find_by key k l = Some x
  | None => find_by key k l = None
  end.
Proof.
  intros HS. unfold search_by.
  set (f := fun i => match l !! i with Some x => negb (kltb (key x) k) | None => false end).
  destruct (sort_search_spec (length l) f) as (Hr & Hlo & Hhi).
  { intros i j Hij. unfold f. destruct (l !! i) as [x|] eqn:Ei; [|done].
    destruct (lookup_lt_is_Some_2 l j ltac:(lia)) as [y Ej]. rewrite Ej.
    rewrite !negb_true_iff. intros Hx. destruct (decide (i = j)) as [->|]; [congruence|].
    pose proof (ssorted_lookup_lt l i j x y HS Ei Ej ltac:(lia)) as Hlt.
    apply not_true_iff_false. intros Hy. unfold key_lt in Hlt.
    rewrite (kltb_trans _ _ _ Hlt Hy) in Hx. done. }
  set (r := sort_search (length l) f) in *.
  assert (forall x, find_by key k l = Some x -> l !! r = Some x) as Hfind.
  { intros x Hx. apply find_by_Some in Hx as [Hx <-].
    apply list_elem_of_lookup in Hx as [i Hi].
    destruct (Nat.lt_trichotomy i r) as [Hlt|[->|Hgt]]; [|done|].
    - specialize (Hlo i Hlt). unfold f in Hlo. rewrite Hi, kltb_irrefl in Hlo. done.
    - pose proof (lookup_lt_Some _ _ _ Hi). specialize (Hhi ltac:(lia)). unfold f in Hhi.
      destruct (l !! r) as [y|] eqn:Ey; [|done]. apply negb_true_iff in Hhi.
      pose proof (ssorted_lookup_lt l r i y x HS Ey Hi Hgt) as H'.
      unfold key_lt in H'. congruence. }
  destruct (l !! r) as [x|] eqn:Ex.
  - case_decide as E.
    + split; [done|]. rewrite <- E. by eapply find_by_lookup.
    + destruct (find_by key k l) as [y|] eqn:Ey; [|done].
      specialize (Hfind y eq_refl). injection Hfind as ->.
      by apply find_by_Some in Ey as [_ ?].
  - destruct (find_by key k l) as [y|] eqn:Ey; [|done]. by specialize (Hfind y eq_refl).
Qed.

Lemma search_by_find_snd (k : K) (l : list A) : ssorted key l ->
  option_map snd (search_by k l) = find_by key k l.
Proof.
  intros HS. pose proof (search_by_find k l HS) as H.
  destruct (search_by k l) as [[i x]|]; simpl; [by destruct H | done].
Qed.
End search_key.

(** Pairs in lexical order. *)
#[export] Program Instance prod_key_order {A B : Type} {KA : KeyOrder A} {KB : KeyOrder B} : KeyOrder (A * B) :=
  {| kltb x y := kltb x.1 y.1 || (negb (kltb y.1 x.1) && kltb x.2 y.2) |}.
Next Obligation. intros A B KA KB [a b]. cbn. by rewrite !kltb_irrefl. Qed.
Next Obligation.
  intros A B KA KB [a1 b1] [a2 b2] [a3 b3]. cbn. rewrite !orb_true_iff, !andb_true_iff, !negb_true_iff.
  intros [H12|[E12 L12]] [H23|[E23 L23]].
  - left. by eapply kltb_trans.
  - left. destruct (kltb a1 a3) eqn:E; [done|]. destruct (kltb a3 a1) eqn:E'.
    + by rewrite (kltb_trans _ _ _ E' H12) in E23.
    + assert (a1 = a3) as -> by (by apply kltb_total). congruence.
  - left. destruct (kltb a1 a3) eqn:E; [done|]. destruct (kltb a3 a1) eqn:E'.
    + by rewrite (kltb_trans _ _ _ H23 E') in E12.
    + assert (a1 = a3) as -> by (by apply kltb_total). congruence.
  - destruct (kltb a1 a3) eqn:E; [by left|]. right. split; [|by eapply kltb_trans].
    destruct (kltb a3 a1) eqn:E'; [|done]. destruct (kltb a1 a2) eqn:E12'.
    + by rewrite (kltb_trans _ _ _ E' E12') in E23.
    + assert (a1 = a2) as -> by (by apply kltb_total). congruence.
Qed.
Next Obligation.
  intros A B KA KB [a1 b1] [a2 b2]. cbn. rewrite !orb_false_iff, !andb_false_iff, !negb_false_iff.
  intros [H1 H1'] [H2 H2']. assert (a1 = a2) as -> by (by apply kltb_total).
  rewrite kltb_irrefl in *. f_equal. destruct H1', H2'; try discriminate. by apply kltb_total.
Qed.

(** ** Iteration of a store

    The entries of a map in the order of their keys, as the iterators of the
    store visit them. *)
Section iteration.
Context {K : Type} `{Countable K} {KO : KeyOrder K} {A : Type}.

Definition entries (m : gmap K A) : list (K * A) := sort_by fst (map_to_list m).

Lemma entries_perm m : entries m ≡ₚ map_to_list m.
Proof. apply sort_by_perm. Qed.
Lemma elem_of_entries m k a : (k, a) ∈ entries m <-> m !! k = Some a.
Proof. by rewrite entries_perm, elem_of_map_to_list. Qed.
Lemma entries_ssorted m : ssorted fst (entries m).
Proof. apply sort_by_ssorted. apply NoDup_fst_map_to_list. Qed.

(** Two stores in which two filters keep the same entries. *)
Lemma filter_entries_eq (P P' : K * A -> bool) m m' :
  (forall k a, m !! k = Some a /\ P (k, a) = true <-> m' !! k = Some a /\ P' (k, a) = true) ->
  List.filter P (entries m) = List.filter P' (entries m').
Proof.
  intros Hm. apply (ssorted_unique fst); [apply ssorted_filter, entries_ssorted..|].
  apply NoDup_Permutation.
  - apply NoDup_ListNoDup, List.NoDup_filter, NoDup_ListNoDup. rewrite entries_perm. apply NoDup_map_to_list.
  - apply NoDup_ListNoDup, List.NoDup_filter, NoDup_ListNoDup. rewrite entries_perm. apply NoDup_map_to_list.
  - intros [k a]. rewrite !list_elem_of_In, !filter_In, <- !list_elem_of_In, !elem_of_entries. apply Hm.
Qed.

(** The last entry that a filter keeps has the greatest of the keys. *)
Lemma last_filter_entries (P : K * A -> bool) m k a :
  last (List.filter P (entries m)) = Some (k, a) ->
  m !! k = Some a /\ P (k, a) = true /\ forall k' a', m !! k' = Some a' -> P (k', a') = true -> kltb k k' = false.
Proof.
  intros Hl. pose proof (ssorted_filter fst P _ (entries_ssorted m)) as HS.
  assert (forall x, x ∈ List.filter P (entries m) <-> m !! x.1 = Some x.2 /\ P x = true) as He.
  { intros [k' a']. by rewrite list_elem_of_In, filter_In, <- list_elem_of_In, elem_of_entries. }
  set (l := List.filter P (entries m)) in *. clearbody l.
  assert ((k, a) ∈ l) as Hin by (apply last_Some in Hl as [l' ->]; set_solver).
  destruct (proj1 (He _) Hin) as [Hm HP]. cbn in Hm. split; [done|]. split; [done|]. intros k' a' Hm' HP'.
  assert ((k', a') ∈ l) as Hin' by (by apply He). apply last_Some in Hl as [l' ->].
  apply elem_of_app in Hin' as [Hin'|Hin'%list_elem_of_singleton]; [|injection Hin' as -> ->; apply kltb_irrefl].
  apply key_lt_asym with (key := fun x : K => x). clear -HS Hin'. induction l' as [|x l' IH]; [by apply not_elem_of_nil in Hin'|].
  inversion HS as [|?? HS' HF]; subst. apply elem_of_cons in Hin' as [<-|Hin']; [|by apply IH].
  rewrite Forall_forall in HF. apply (HF (k, a)). set_solver.
Qed.
End iteration.
