(* ===== verification/Helpers.v ===== *)
(** * Shared helpers: address format, event sequences, votes, hard-fork gates

    Models [common/hex/util.go] and the parts of [helper/] that the modules
    call: [sequence.go], [validation.go], [receipt.go], [util.go] and the
    height gates of [config.go]. *)
From S2P Require Import Prelude SortedList.
From stdpp Require Import pretty.
#[local] Open Scope Z_scope.

(** Byte strings. *)
Abbreviation bytes := (list Byte.byte).
#[export] Instance byte_eq_dec : EqDecision Byte.byte := Byte.byte_eq_dec.

(** ** Addresses (common/hex/util.go)

    Strings are byte strings; [strings.ToLower] and [strings.TrimSpace] are
    modelled on ASCII, which is what hex addresses are. *)

Definition ascii_to_lower (c : ascii) : ascii :=
  let n := nat_of_ascii c in
  if ((65 <=? n) && (n <=? 90))%nat then ascii_of_nat (n + 32) else c.
Definition ascii_is_space (c : ascii) : bool :=
  let n := nat_of_ascii c in ((9 <=? n) && (n <=? 13) || (n =? 32))%nat.

Fixpoint drop_spaces (l : list ascii) : list ascii :=
  match l with
  | c :: l' => if ascii_is_space c then drop_spaces l' else l
  | [] => []
  end.
Definition trim_space (l : list ascii) : list ascii := rev (drop_spaces (rev (drop_spaces l))).

Definition trim_0x (l : list ascii) : list ascii :=
  match l with
  | a :: b :: l' => if Ascii.eqb a "0"%char && Ascii.eqb b "x"%char then l' else l
  | _ => l
  end.

Definition FormatAddress (hexAddr : string) : string :=
  let l := trim_space (map ascii_to_lower (list_ascii_of_string hexAddr)) in
  string_of_list_ascii ("0"%char :: "x"%char :: trim_0x l).

Lemma ascii_to_lower_idem c : ascii_to_lower (ascii_to_lower c) = ascii_to_lower c.
Proof. destruct c as [[] [] [] [] [] [] [] []]; reflexivity. Qed.

Definition lowered (l : list ascii) : Prop := map ascii_to_lower l = l.

Lemma lowered_drop l : lowered l -> lowered (drop_spaces l).
Proof.
  unfold lowered. induction l as [|c l IH]; [done|]. cbn [map drop_spaces].
  intros [= Hc Hl]. destruct (ascii_is_space c); [by apply IH|]. cbn. by rewrite Hc, Hl.
Qed.
Lemma lowered_rev l : lowered l -> lowered (rev l).
Proof. unfold lowered. intros H. by rewrite map_rev, H. Qed.
Lemma lowered_trim l : lowered l -> lowered (trim_space l).
Proof. unfold trim_space. auto using lowered_drop, lowered_rev. Qed.
Lemma lowered_trim_0x l : lowered l -> lowered (trim_0x l).
Proof.
  unfold lowered, trim_0x. destruct l as [|a [|b l]]; [done..|]. cbn [map].
  intros [= Ha Hb Hl]. destruct (_ && _); cbn [map]; congruence.
Qed.

Definition space_free_head (l : list ascii) : Prop :=
  match l with [] => True | c :: _ => ascii_is_space c = false end.

Lemma drop_spaces_head l : space_free_head (drop_spaces l).
Proof. induction l as [|c l IH]; simpl; [done|]. by destruct (ascii_is_space c) eqn:E. Qed.
Lemma drop_spaces_id l : space_free_head l -> drop_spaces l = l.
Proof. destruct l; simpl; [done|]. by intros ->. Qed.

Lemma space_free_head_app l k : l <> [] -> space_free_head (l ++ k) <-> space_free_head l.
Proof. by destruct l. Qed.

Lemma trim_space_last l : space_free_head (rev (trim_space l)).
Proof. unfold trim_space. rewrite rev_involutive. apply drop_spaces_head. Qed.

(** The ["0x"] prefix followed by a list that ends without space is a fixpoint
    of trimming and of removing and adding the prefix. *)
Lemma trim_prefixed l : space_free_head (rev l) ->
  trim_space ("0"%char :: "x"%char :: l) = "0"%char :: "x"%char :: l.
Proof.
  intros H. unfold trim_space. rewrite (drop_spaces_id ("0"%char :: "x"%char :: l)) by done.
  rewrite drop_spaces_id; [by rewrite rev_involutive|]. cbn [rev]. rewrite <- app_assoc.
  destruct (rev l) as [|c r] eqn:E; [done|]. by cbn.
Qed.

Lemma trim_0x_last l : space_free_head (rev l) -> space_free_head (rev (trim_0x l)).
Proof.
  unfold trim_0x. destruct l as [|a [|b l]]; [done..|]. destruct (_ && _); [|done].
  cbn [rev]. rewrite <- app_assoc. destruct (rev l) as [|c r]; [done|]. by cbn.
Qed.

Lemma list_ascii_of_string_of_list l : list_ascii_of_string (string_of_list_ascii l) = l.
Proof. apply list_ascii_of_string_of_list_ascii. Qed.

Lemma format_address_idem s : FormatAddress (FormatAddress s) = FormatAddress s.
Proof.
  unfold FormatAddress at 1. unfold FormatAddress at 1.
  rewrite list_ascii_of_string_of_list.
  set (t := trim_space (map ascii_to_lower (list_ascii_of_string s))).
  assert (lowered t) as Ht.
  { apply lowered_trim. unfold lowered. rewrite map_map.
    apply map_ext. intros. apply ascii_to_lower_idem. }
  assert (map ascii_to_lower ("0"%char :: "x"%char :: trim_0x t)
          = "0"%char :: "x"%char :: trim_0x t) as ->.
  { cbn [map]. f_equal. f_equal. by apply lowered_trim_0x. }
  rewrite trim_prefixed; [done|]. apply trim_0x_last, trim_space_last.
Qed.

#[global] Arguments FormatAddress : simpl never.

(** ** Public keys (helper/util.go) *)

(** [IsPubKeyFirstByteValid]: the prefix of an uncompressed key. *)
Definition IsPubKeyFirstByteValid (pubKey : bytes) : bool :=
  match pubKey with
  | [] => false
  | b :: _ => Byte.eqb b Byte.x04
  end.

(** ** Voting power of an amount (helper/util.go) *)

Definition decimals18 : Z := 10 ^ 18.

(** [GetPowerFromAmount]; the amount is a [big.Int]. *)
Definition GetPowerFromAmount (amount : Z) : outcome Z :=
  return_if amount <? decimals18 with ErrText "amount must be more than 1 token" ;;
  Ok (big_div amount decimals18).

Definition ValidateVotingPower (amount : Z) : bool := is_ok (GetPowerFromAmount amount).

(** ** Event sequences (helper/sequence.go, types/keys.go) *)

Definition DefaultLogIndexUnit : Z := 100000.

(** [CalculateSequence]: the decimal text of [blockNumber * unit + logIndex]. *)
Definition CalculateSequence (blockNumber logIndex : Z) : string :=
  pretty (blockNumber * DefaultLogIndexUnit + logIndex).

(** The interface through which a module's store answers whether a sequence
    was already recorded. *)
Class SequenceChecker (C : Type) := HasSequence : C -> string -> bool.

Definition CheckEventAlreadyProcessed {C : Type} `{SequenceChecker C}
    (checker : C) (blockNumber logIndex : Z) : bool :=
  HasSequence checker (CalculateSequence blockNumber logIndex).

(** Two events with the same sequence are at the same place of the chain, as
    long as their log indexes are below the unit. *)
Lemma calculate_sequence_inj b1 l1 b2 l2 :
  0 <= l1 < DefaultLogIndexUnit -> 0 <= l2 < DefaultLogIndexUnit ->
  CalculateSequence b1 l1 = CalculateSequence b2 l2 -> b1 = b2 /\ l1 = l2.
Proof.
  unfold CalculateSequence, DefaultLogIndexUnit. intros H1 H2 E.
  apply (inj pretty) in E. lia.
Qed.

(** ** Side transaction votes (sidetxs, helper/validation.go) *)

Inductive Vote := UNSPECIFIED | VOTE_YES | VOTE_NO.
#[export] Instance vote_eq_dec : EqDecision Vote.
Proof. solve_decision. Defined.

Definition IsSideTxApproved (sideTxResult : Vote) : bool := bool_decide (sideTxResult = VOTE_YES).

Definition ValidateChainID (msgChainID expectedChainID : string) : bool :=
  String.eqb expectedChainID msgChainID.

(** ** Heights at which behaviour changes (helper/config.go)

    The node's configuration is read only; the model carries it as a record. *)
Record Config := {
  rioHeight : Z;
  tallyFixHeight : Z;
  disableVPCheckHeight : Z;
  disableValSetCheckHeight : Z;
  initialHeight : Z;
  producerDowntimeHeight : Z;
  phuketHardforkHeight : Z;
  feeWithdrawValidatorGateHeight : Z;
  zurichHardforkHeight : Z;
  ithacaHeight : Z;
  fallbackProducerVotes : list Z;
}.

Section gates.
Context (cfg : Config).

Definition IsRio (blockNum : Z) : bool := u64 (rioHeight cfg) <=? blockNum.
Definition IsPhuketHardfork (height : Z) : bool :=
  (0 <? phuketHardforkHeight cfg) && (phuketHardforkHeight cfg <=? height).
Definition IsFeeWithdrawValidatorGate (height : Z) : bool :=
  (0 <? feeWithdrawValidatorGateHeight cfg) && (feeWithdrawValidatorGateHeight cfg <=? height).
Definition IsZurichHardfork (height : Z) : bool :=
  (0 <? zurichHardforkHeight cfg) && (zurichHardforkHeight cfg <=? height).
Definition IsIthaca (height : Z) : bool :=
  (0 <? ithacaHeight cfg) && (ithacaHeight cfg <=? height).

Definition GetProducerSetLimit (height : Z) : Z :=
  if producerDowntimeHeight cfg <=? height then 4 else 3.
Definition GetChangeProducerThreshold (height : Z) : Z :=
  if producerDowntimeHeight cfg <=? height then 10 else 5.
Definition GetSpanRotationBuffer (height : Z) : Z :=
  if producerDowntimeHeight cfg <=? height then 20 else 10.
End gates.
