(* ===== verification/External.v ===== *)
(** * Code outside the repository

    Interfaces of the libraries and services the handlers call: key and address
    codecs (cosmos-sdk, secp256k1), main-chain receipts (go-ethereum), the bank
    keeper.  Nothing is assumed of them here; a theorem that needs a law of one
    of them takes it as a hypothesis.  The side-handler notations and
    [helper/receipt.go], which is written against the receipt interface, are
    here too. *)
From S2P Require Import Prelude SortedList Helpers.
#[local] Open Scope Z_scope.

(** Keys and addresses.  [PubKeyAddress] panics where it answers [None] (a key of
    a wrong size); the codec functions may fail. *)
Class AddressCodec := {
  PubKeyAddress : bytes -> option bytes;       (* secp256k1.PubKey.Address *)
  AddressString : bytes -> string;             (* crypto.Address.String *)
  BytesToString : bytes -> outcome string;     (* HexCodec.BytesToString *)
  StringToBytes : string -> outcome bytes;     (* HexCodec.StringToBytes *)
}.

(** A call that panics where the library answers [None]. *)
Definition must {A} (o : option A) : outcome A :=
  match o with Some a => Ok a | None => Panic end.

(** Address parsing of the sdk ([ValAddressFromHex], [AccAddressFromHex] and the
    text of the result); parsing may fail. *)
Class SdkAddress := {
  ValAddressFromHex : string -> outcome bytes;
  AccAddressFromHex : string -> outcome bytes;
  AccAddressString : bytes -> string;
}.

(** [secp256k1.PubKeySize], the size of an uncompressed key. *)
Definition PubKeySize : nat := 65.
(** [common.HashLength] *)
Definition HashLength : nat := 32.

(** The main chain as the contract caller shows it: the confirmed receipt of a
    transaction hash, and the block it is in (a big integer). *)
Class ReceiptSource := {
  Receipt : Type;
  ReceiptBlockNumber : Receipt -> Z;
  GetConfirmedTxReceipt : bytes -> Z -> option Receipt;  (* None: error or no receipt *)
}.

(** The Bor chain as the contract caller shows it.  [None] is an error (or a
    block that does not exist).  [GetBorChainBlock None] is the latest header;
    numbers are big integers.  [BorBatch] is the answer to the batch request for
    the blocks of a range: for each block the header with its total difficulty,
    and the author. *)
Record Header := { Number : Z; HeaderHash : bytes; HeaderParentHash : bytes }.
Class BorChain := {
  GetBorChainBlock : option Z -> option Header;
  GetBorChainBlockAuthor : Z -> option bytes;
  BorBatch : Z -> Z -> option (Z -> option (Header * Z) * option bytes);
}.

(** [collateBorBatchResults] (helper/call.go): the contiguous prefix of the
    blocks that were answered, with the number asked for and, but for block 0,
    with an author. *)
Definition zero_address : bytes := repeat Byte.x00 20.
Fixpoint collateBorBatchResults (slot : Z -> option (Header * Z) * option bytes) (blockNum : Z) (n : nat)
    : list (Header * Z * bytes) :=
  match n with
  | O => []
  | S n =>
      match (slot blockNum).1 with
      | None => []
      | Some (h, td) =>
          if negb (u64 (Number h) =? u64 blockNum) then []
          else match (if 0 <? blockNum then (slot blockNum).2 else Some zero_address) with
               | None => []
               | Some author => (h, td, author) :: collateBorBatchResults slot (blockNum + 1) n
               end
      end
  end.
(** [GetBorChainBlockInfoInBatch]: headers, total difficulties and authors. *)
Definition BorBatchSizeCap : Z := 256.
Definition GetBorChainBlockInfoInBatch {BC : BorChain} (first last : Z)
    : option (list Header * list Z * list bytes) :=
  if (first <? 0) || (last <? 0) || (last <? first) then None
  else if BorBatchSizeCap - 1 <? last - first then None
  else match BorBatch first last with
       | None => None
       | Some slot =>
           let l := collateBorBatchResults slot first (Z.to_nat (last - first + 1)) in
           Some (map (fun x => x.1.1) l, map (fun x => x.1.2) l, map snd l)
       end.

(** [crypto.Keccak256] of the concatenation of its arguments. *)
Class HashFunction := { Keccak256 : bytes -> bytes }.

(** Balances of the fee token. *)
Class BankKeeper (B : Type) := {
  GetBalance : B -> bytes -> Z;
  SendCoins : B -> bytes -> bytes -> Z -> outcome B;
}.

(** [helper.FetchAndValidateReceipt] *)
Definition FetchAndValidateReceipt {RS : ReceiptSource}
    (txHash : bytes) (msgBlockNumber confirmations : Z) : option Receipt :=
  match GetConfirmedTxReceipt txHash confirmations with
  | None => None
  | Some r => if u64 (ReceiptBlockNumber r) =? msgBlockNumber then Some r else None
  end.

(** The part of the chain-manager parameters the handlers read. *)
Record ChainManagerParams := {
  MainChainTxConfirmations : Z;
  BorChainTxConfirmations : Z;
  BorChainId : string;
  StakingInfoAddress : string;
  StateSenderAddress : string;
  RootChainAddress : string;
}.

(** The execution context of a handler. *)
Record Ctx := {
  BlockHeight : Z;   (* int64 *)
  BlockTime : Z;     (* unix seconds, int64 *)
}.

(** ** Side handlers

    A side handler answers a vote; every failed check answers [VOTE_NO]. *)
Definition no_if (b : bool) (k : outcome Vote) : outcome Vote :=
  if b then Ok VOTE_NO else k.
Definition or_no {A} (m : outcome A) (k : A -> outcome Vote) : outcome Vote :=
  match m with Ok a => k a | Err _ => Ok VOTE_NO | Panic => Panic end.
Definition some_or_no {A} (o : option A) (k : A -> outcome Vote) : outcome Vote :=
  match o with Some a => k a | None => Ok VOTE_NO end.

Notation "'vote_no_if' b ';;' k" := (no_if b k)
  (at level 100, b at level 99, k at level 200, right associativity) : outcome_scope.
Notation "x '<-no' m ';;' k" := (or_no m (fun x => k))
  (at level 100, m at level 99, k at level 200, right associativity) : outcome_scope.
Notation "x '<-some' m ';;' k" := (some_or_no m (fun x => k))
  (at level 100, m at level 99, k at level 200, right associativity) : outcome_scope.

Lemma no_if_yes b k : no_if b k = Ok VOTE_YES -> b = false /\ k = Ok VOTE_YES.
Proof. destruct b; simpl; [discriminate | auto]. Qed.
Lemma or_no_yes {A} (m : outcome A) k :
  or_no m k = Ok VOTE_YES -> exists a, m = Ok a /\ k a = Ok VOTE_YES.
Proof. destruct m; simpl; intros H; try discriminate; eauto. Qed.
Lemma some_or_no_yes {A} (o : option A) k :
  some_or_no o k = Ok VOTE_YES -> exists a, o = Some a /\ k a = Ok VOTE_YES.
Proof. destruct o; simpl; intros H; try discriminate; eauto. Qed.

(** Invert a side handler that voted yes. *)
Ltac yes_step H :=
  lazymatch type of H with
  | no_if _ _ = Ok VOTE_YES =>
      let Hg := fresh "Hg" in apply no_if_yes in H; destruct H as [Hg H]
  | or_no _ _ = Ok VOTE_YES =>
      let a := fresh "a" in let Ha := fresh "Ha" in
      apply or_no_yes in H; destruct H as (a & Ha & H); cbn beta iota in H
  | some_or_no _ _ = Ok VOTE_YES =>
      let a := fresh "a" in let Ha := fresh "Ha" in
      apply some_or_no_yes in H; destruct H as (a & Ha & H); cbn beta iota in H
  end.
Ltac yes_inv H := repeat (yes_step H).
