(* ===== verification/ValidatorSet.v ===== *)
(** * The validator set

    Models [x/stake/types/validator.go] and [x/stake/types/validator_set.go]:
    the validators sorted by formatted address, their voting powers and
    proposer priorities, the rotation of the proposer and the batch update of
    the set.  All integers are 64-bit and signed unless said otherwise.

    Pointers: the code shares one [*Validator] between the list and
    [Proposer].  Every function that writes [Proposer] does it last, and the
    set is copied or goes through the store before it changes again, so the
    model keeps a value in [Proposer].  A function that returns an error leaves
    its caller without a set: the callers panic or return the error. *)
From S2P Require Import Prelude SortedList Helpers.
#[local] Open Scope Z_scope.

Definition MaxTotalVotingPower : Z := Z.quot MaxInt64 8.
Definition PriorityWindowSizeFactor : Z := 2.

Record Validator := {
  ValId : Z;             (* uint64 *)
  StartEpoch : Z;        (* uint64 *)
  EndEpoch : Z;          (* uint64 *)
  Nonce : Z;             (* uint64 *)
  VotingPower : Z;       (* int64 *)
  PubKey : bytes;
  Signer : string;
  LastUpdated : string;
  Jailed : bool;
  ProposerPriority : Z;  (* int64 *)
}.

Record ValidatorSet := {
  Validators : list Validator;
  Proposer : option Validator;
  TotalVotingPower : Z;
}.

Definition with_priority (v : Validator) (p : Z) : Validator :=
  {| ValId := ValId v; StartEpoch := StartEpoch v; EndEpoch := EndEpoch v; Nonce := Nonce v;
     VotingPower := VotingPower v; PubKey := PubKey v; Signer := Signer v;
     LastUpdated := LastUpdated v; Jailed := Jailed v; ProposerPriority := p |}.
Definition with_power (v : Validator) (p : Z) : Validator :=
  {| ValId := ValId v; StartEpoch := StartEpoch v; EndEpoch := EndEpoch v; Nonce := Nonce v;
     VotingPower := p; PubKey := PubKey v; Signer := Signer v;
     LastUpdated := LastUpdated v; Jailed := Jailed v; ProposerPriority := ProposerPriority v |}.
Definition with_validators (vals : ValidatorSet) (l : list Validator) : ValidatorSet :=
  {| Validators := l; Proposer := Proposer vals; TotalVotingPower := TotalVotingPower vals |}.
Definition with_total (vals : ValidatorSet) (t : Z) : ValidatorSet :=
  {| Validators := Validators vals; Proposer := Proposer vals; TotalVotingPower := t |}.
Definition with_proposer (vals : ValidatorSet) (p : option Validator) : ValidatorSet :=
  {| Validators := Validators vals; Proposer := p; TotalVotingPower := TotalVotingPower vals |}.

(** The key the set is sorted by. *)
Definition vaddr (v : Validator) : string := FormatAddress (Signer v).

(** ** validator.go *)

(** [NewValidator] *)
Definition NewValidator (id startEpoch endEpoch nonce power : Z) (pubKey : bytes)
    (signer : string) : Validator :=
  {| ValId := id; StartEpoch := startEpoch; EndEpoch := endEpoch; Nonce := nonce;
     VotingPower := power; PubKey := pubKey; Signer := signer;
     LastUpdated := ""%string; Jailed := false; ProposerPriority := 0 |}.

(** [SortValidatorByAddress] *)
Definition SortValidatorByAddress (a : list Validator) : list Validator := sort_by vaddr a.

(** [IsCurrentValidator]: the current epoch is the acknowledgement count plus 1. *)
Definition IsCurrentValidator (v : Validator) (ackCount : Z) : bool :=
  let currentEpoch := u64 (ackCount + 1) in
  negb (Jailed v) && (StartEpoch v <=? currentEpoch)
  && ((EndEpoch v =? 0) || (currentEpoch <? EndEpoch v)) && (0 <? VotingPower v).

(** [ValidateBasic]; [pub_key_address] is the address derived by the
    secp256k1 library, and an empty key is 65 zero bytes. *)
Definition EmptyPubKey : bytes := repeat Byte.x00 65.
Definition ValidateBasic (pub_key_address : bytes -> string) (v : Validator) : outcome unit :=
  return_if bool_decide (PubKey v = EmptyPubKey) with ErrInvalidMsg ;;
  return_if negb (String.eqb (FormatAddress (Signer v)) (FormatAddress (pub_key_address (PubKey v))))
    with ErrInvalidMsg ;;
  Ok tt.

(** Whether [CompareProposerPriority] answers its receiver [v]: the higher
    priority wins, then the smaller address; equal validators are a panic. *)
Definition beats (v other : Validator) : outcome bool :=
  if ProposerPriority other <? ProposerPriority v then Ok true
  else if ProposerPriority v <? ProposerPriority other then Ok false
  else match String.compare (vaddr v) (vaddr other) with
       | Lt => Ok true
       | Gt => Ok false
       | Eq => Panic
       end.
Definition CompareProposerPriority (v other : Validator) : outcome Validator :=
  b ← beats v other; Ok (if b : bool then v else other).

(** [MinimalVal]: the power is converted to an unsigned integer; the address is
    parsed by the Ethereum library. *)
Definition MinimalVal (hex_to_address : string -> bytes) (v : Validator) : Z * Z * bytes :=
  (ValId v, u64 (VotingPower v), hex_to_address (Signer v)).

(** ** Safe arithmetic *)

(** [safeAdd], [safeSub]: the boolean says the sum left the int64 range. *)
Definition safeAdd (a b : Z) : Z * bool :=
  if (0 <? b) && (i64 (MaxInt64 - b) <? a) then (-1, true)
  else if (b <? 0) && (a <? i64 (MinInt64 - b)) then (-1, true)
  else (i64 (a + b), false).
Definition safeSub (a b : Z) : Z * bool :=
  if (0 <? b) && (a <? i64 (MinInt64 + b)) then (-1, true)
  else if (b <? 0) && (i64 (MaxInt64 + b) <? a) then (-1, true)
  else (i64 (a - b), false).
Definition safeAddClip (a b : Z) : Z :=
  let '(c, overflow) := safeAdd a b in
  if overflow then (if b <? 0 then MinInt64 else MaxInt64) else c.
Definition safeSubClip (a b : Z) : Z :=
  let '(c, overflow) := safeSub a b in
  if overflow then (if 0 <? b then MinInt64 else MaxInt64) else c.

(** ** Total voting power *)

Definition IsNilOrEmpty (vals : ValidatorSet) : bool :=
  match Validators vals with [] => true | _ => false end.

Fixpoint sum_power (sum : Z) (l : list Validator) : outcome Z :=
  match l with
  | [] => Ok sum
  | v :: l' =>
      let sum' := safeAddClip sum (VotingPower v) in
      panic_when MaxTotalVotingPower <? sum' ;;
      sum_power sum' l'
  end.
Definition updateTotalVotingPower (vals : ValidatorSet) : outcome ValidatorSet :=
  sum ← sum_power 0 (Validators vals); Ok (with_total vals sum).

(** [GetTotalVotingPower] caches the sum it computes. *)
Definition GetTotalVotingPower (vals : ValidatorSet) : outcome (Z * ValidatorSet) :=
  vals' ← (if TotalVotingPower vals =? 0 then updateTotalVotingPower vals else Ok vals);
  Ok (TotalVotingPower vals', vals').

(** ** Proposer priorities *)

(** [computeMaxMinPriorityDiff] *)
Fixpoint max_min_priority (maxP minP : Z) (l : list Validator) : Z * Z :=
  match l with
  | [] => (maxP, minP)
  | v :: l' =>
      max_min_priority (if maxP <? ProposerPriority v then ProposerPriority v else maxP)
                       (if ProposerPriority v <? minP then ProposerPriority v else minP) l'
  end.
Definition computeMaxMinPriorityDiff (vals : ValidatorSet) : outcome Z :=
  panic_when IsNilOrEmpty vals ;;
  let '(maxP, minP) := max_min_priority MinInt64 MaxInt64 (Validators vals) in
  let diff := i64 (maxP - minP) in
  Ok (if diff <? 0 then i64 (-1 * diff) else diff).

(** [RescalePriorities] *)
Definition RescalePriorities (vals : ValidatorSet) (diffMax : Z) : outcome ValidatorSet :=
  panic_when IsNilOrEmpty vals ;;
  if diffMax <=? 0 then Ok vals
  else
    diff ← computeMaxMinPriorityDiff vals;
    let ratio := i64 (Z.quot (i64 (i64 (diff + diffMax) - 1)) diffMax) in
    if diffMax <? diff then
      panic_when ratio =? 0 ;;
      Ok (with_validators vals
            (map (fun v => with_priority v (i64 (Z.quot (ProposerPriority v) ratio)))
                 (Validators vals)))
    else Ok vals.

(** [computeAvgProposerPriority]: big integers, Euclidean division. *)
Definition computeAvgProposerPriority (vals : ValidatorSet) : outcome Z :=
  let n := Z.of_nat (length (Validators vals)) in
  let sum := foldl (fun s v => s + ProposerPriority v) 0 (Validators vals) in
  panic_when n =? 0 ;;
  let avg := big_div sum n in
  panic_when negb ((MinInt64 <=? avg) && (avg <=? MaxInt64)) ;;
  Ok avg.

(** [shiftByAvgProposerPriority] *)
Definition shiftByAvgProposerPriority (vals : ValidatorSet) : outcome ValidatorSet :=
  panic_when IsNilOrEmpty vals ;;
  avg ← computeAvgProposerPriority vals;
  Ok (with_validators vals
        (map (fun v => with_priority v (safeSubClip (ProposerPriority v) avg)) (Validators vals))).

(** [getValWithMostPriority], with the index of the validator it answers, since
    the caller writes through the pointer. *)
Fixpoint most_priority (i : nat) (l : list Validator) (res : nat * Validator)
    : outcome (nat * Validator) :=
  match l with
  | [] => Ok res
  | v :: l' => b ← beats res.2 v; most_priority (S i) l' (if b : bool then res else (i, v))
  end.
Definition getValWithMostPriority (l : list Validator) : outcome (option (nat * Validator)) :=
  match l with
  | [] => Ok None
  | v :: l' => r ← most_priority 1 l' (0%nat, v); Ok (Some r)
  end.

(** [incrementProposerPriority]: one round. *)
Definition incrementProposerPriority (vals : ValidatorSet)
    : outcome (option Validator * ValidatorSet) :=
  if IsNilOrEmpty vals then Ok (None, vals)
  else
    let added := map (fun v => with_priority v (safeAddClip (ProposerPriority v) (VotingPower v)))
                     (Validators vals) in
    mostest ← getValWithMostPriority added;
    match mostest with
    | None => Ok (None, with_validators vals added)
    | Some (i, v) =>
        '(total, vals') ← GetTotalVotingPower (with_validators vals added);
        let v' := with_priority v (safeSubClip (ProposerPriority v) total) in
        Ok (Some v', with_validators vals' (<[i := v']> added))
    end.

Fixpoint increment_rounds (times : nat) (proposer : option Validator) (vals : ValidatorSet)
    : outcome (option Validator * ValidatorSet) :=
  match times with
  | O => Ok (proposer, vals)
  | S n => '(p, vals') ← incrementProposerPriority vals; increment_rounds n p vals'
  end.

(** [IncrementProposerPriority] *)
Definition IncrementProposerPriority (vals : ValidatorSet) (times : Z) : outcome ValidatorSet :=
  panic_when IsNilOrEmpty vals ;;
  panic_when times <=? 0 ;;
  '(total, vals) ← GetTotalVotingPower vals;
  vals ← RescalePriorities vals (i64 (PriorityWindowSizeFactor * total));
  vals ← shiftByAvgProposerPriority vals;
  '(proposer, vals) ← increment_rounds (Z.to_nat times) None vals;
  Ok (with_proposer vals proposer).

(** [CopyIncrementProposerPriority] works on a copy, which is a value here. *)
Definition CopyIncrementProposerPriority (vals : ValidatorSet) (times : Z) : outcome ValidatorSet :=
  IncrementProposerPriority vals times.

(** [findProposer] and [GetProposer], which caches the proposer. *)
Fixpoint find_proposer_from (proposer : Validator) (l : list Validator) : outcome Validator :=
  match l with
  | [] => Ok proposer
  | v :: l' =>
      p ← (if String.eqb (vaddr v) (vaddr proposer) then Ok proposer
           else CompareProposerPriority proposer v);
      find_proposer_from p l'
  end.
Definition findProposer (vals : ValidatorSet) : outcome (option Validator) :=
  match Validators vals with
  | [] => Ok None
  | v :: l => p ← find_proposer_from v l; Ok (Some p)
  end.
Definition GetProposer (vals : ValidatorSet) : outcome (option Validator * ValidatorSet) :=
  if IsNilOrEmpty vals then Ok (None, vals)
  else match Proposer vals with
       | Some p => Ok (Some p, vals)
       | None =>
           p ← findProposer vals;
           match p with
           | Some v => Ok (Some v, with_proposer vals (Some v))
           | None => Panic
           end
       end.

(** ** Lookups *)

(** [GetByAddress], by binary search. *)
Definition GetByAddress (vals : ValidatorSet) (address : string) : option (nat * Validator) :=
  search_by vaddr (FormatAddress address) (Validators vals).
Definition get_val (vals : ValidatorSet) (address : string) : option Validator :=
  option_map snd (GetByAddress vals address).

(** [HasAddress]: the same search, then [strings.EqualFold] of the raw
    addresses. *)
Definition equal_fold (a b : string) : bool :=
  bool_decide (map ascii_to_lower (list_ascii_of_string a) = map ascii_to_lower (list_ascii_of_string b)).
Definition HasAddress (vals : ValidatorSet) (address : string) : bool :=
  let l := Validators vals in
  let idx := sort_search (length l) (fun i =>
    match l !! i with
    | Some v => negb (kltb (vaddr v) (FormatAddress address))
    | None => false
    end) in
  match l !! idx with Some v => equal_fold (Signer v) address | None => false end.

(** [GetByIndex]; [zero_address] is the text of the empty address. *)
Definition GetByIndex (zero_address : string) (vals : ValidatorSet) (index : Z)
    : string * option Validator :=
  if (index <? 0) || (Z.of_nat (length (Validators vals)) <=? index) then (zero_address, None)
  else match Validators vals !! Z.to_nat index with
       | Some v => (Signer v, Some v)
       | None => (zero_address, None)
       end.
Definition Len (vals : ValidatorSet) : Z := Z.of_nat (length (Validators vals)).

(** ** Batch updates *)

(** [processChanges]: sort, reject duplicates (the scan starts from the empty
    address) and out-of-range powers, split by power. *)
Fixpoint scan_changes (prevAddr : string) (changes : list Validator)
    : outcome (list Validator * list Validator) :=
  match changes with
  | [] => Ok ([], [])
  | v :: rest =>
      return_if String.eqb (vaddr v) (FormatAddress prevAddr) with ErrText "duplicate entry" ;;
      return_if VotingPower v <? 0 with ErrText "voting power can't be negative" ;;
      return_if MaxTotalVotingPower <? VotingPower v with ErrText "voting power too high" ;;
      '(updates, removals) ← scan_changes (Signer v) rest;
      if VotingPower v =? 0 then Ok (updates, v :: removals) else Ok (v :: updates, removals)
  end.
Definition processChanges (origChanges : list Validator)
    : outcome (list Validator * list Validator) :=
  scan_changes ""%string (sort_by vaddr origChanges).

(** [verifyUpdates]: the running total after each update, and the number of
    validators that are new. *)
Fixpoint verify_updates_from (vals : ValidatorSet) (total : Z) (numNew : Z)
    (updates : list Validator) : outcome (Z * Z) :=
  match updates with
  | [] => Ok (total, numNew)
  | u :: rest =>
      let '(total', numNew') :=
        match get_val vals (FormatAddress (Signer u)) with
        | None => (i64 (total + VotingPower u), numNew + 1)
        | Some val => (i64 (total + i64 (VotingPower u - VotingPower val)), numNew)
        end in
      return_if MaxTotalVotingPower <? total' with ErrText "total voting power exceeded" ;;
      verify_updates_from vals total' numNew' rest
  end.
Definition verifyUpdates (updates : list Validator) (vals : ValidatorSet)
    : outcome (Z * Z * ValidatorSet) :=
  '(total, vals) ← GetTotalVotingPower vals;
  '(total', numNew) ← verify_updates_from vals total 0 updates;
  Ok (total', numNew, vals).

(** [computeNewPriorities]: -1.125 times the new total for a new validator. *)
Definition computeNewPriorities (updates : list Validator) (vals : ValidatorSet)
    (updatedTotalVotingPower : Z) : list Validator :=
  map (fun u =>
    match get_val vals (Signer u) with
    | None => with_priority u
        (i64 (- i64 (updatedTotalVotingPower + Z.shiftr updatedTotalVotingPower 3)))
    | Some val => with_priority u (ProposerPriority val)
    end) updates.

(** [applyUpdates] *)
Definition applyUpdates (vals : ValidatorSet) (updates : list Validator) : ValidatorSet :=
  with_validators vals (merge_by vaddr (Validators vals) updates).

(** [verifyRemovals] *)
Fixpoint verify_removals_from (vals : ValidatorSet) (deletes : list Validator) : outcome unit :=
  match deletes with
  | [] => Ok tt
  | d :: rest =>
      match get_val vals (FormatAddress (Signer d)) with
      | None => Err (ErrText "failed to find validator to remove")
      | Some _ => verify_removals_from vals rest
      end
  end.
Definition verifyRemovals (deletes : list Validator) (vals : ValidatorSet) : outcome unit :=
  verify_removals_from vals deletes ≫= fun _ =>
  panic_when (length (Validators vals) <? length deletes)%nat ;;
  Ok tt.

(** [applyRemovals]; reading past the end of the list is a panic. *)
Definition applyRemovals (vals : ValidatorSet) (deletes : list Validator) : outcome ValidatorSet :=
  panic_when (length (Validators vals) <? length deletes)%nat ;;
  match remove_by vaddr (Validators vals) deletes with
  | Some l => Ok (with_validators vals l)
  | None => Panic
  end.

(** [updateWithChangeSet] *)
Definition updateWithChangeSet (vals : ValidatorSet) (changes : list Validator)
    (allowDeletes : bool) : outcome ValidatorSet :=
  match changes with
  | [] => Ok vals
  | _ =>
    '(updates, deletes) ← processChanges changes;
    return_if negb allowDeletes && negb (length deletes =? 0)%nat
      with ErrText "cannot process validators with voting power 0" ;;
    verifyRemovals deletes vals ≫= fun _ =>
    '(updatedTotal, numNew, vals) ← verifyUpdates updates vals;
    return_if (numNew =? 0) && (length (Validators vals) =? length deletes)%nat
      with ErrText "applying the validator changes would result in empty set" ;;
    let updates := computeNewPriorities updates vals updatedTotal in
    let vals := applyUpdates vals updates in
    vals ← applyRemovals vals deletes;
    vals ← updateTotalVotingPower vals;
    '(total, vals) ← GetTotalVotingPower vals;
    vals ← RescalePriorities vals (i64 (PriorityWindowSizeFactor * total));
    shiftByAvgProposerPriority vals
  end.
Definition UpdateWithChangeSet (vals : ValidatorSet) (changes : list Validator)
    : outcome ValidatorSet := updateWithChangeSet vals changes true.

(** [NewValidatorSet]; an error is a panic. *)
Definition NewValidatorSet (validators : list Validator) : outcome ValidatorSet :=
  let empty := {| Validators := []; Proposer := None; TotalVotingPower := 0 |} in
  match updateWithChangeSet empty validators false with
  | Err _ | Panic => Panic
  | Ok vals =>
      match validators with
      | [] => Ok vals
      | _ => IncrementProposerPriority vals 1
      end
  end.

(** [GetUpdatedValidators]: what changed between the set and the store. *)
Definition updated_validator (currentSet : ValidatorSet) (ackCount : Z) (v : Validator)
    : list Validator :=
  match get_val currentSet (FormatAddress (Signer v)) with
  | Some val =>
      if negb (IsCurrentValidator v ackCount) then [with_power v 0]
      else if negb (VotingPower v =? VotingPower val) then [v] else []
  | None => if IsCurrentValidator v ackCount then [v] else []
  end.
Definition GetUpdatedValidators (currentSet : ValidatorSet) (validators : list Validator)
    (ackCount : Z) : list Validator :=
  flat_map (updated_validator currentSet ackCount) validators.
