(* ===== verification/ValidatorSetFacts.v ===== *)
(** * Facts about the validator set

    The well-formedness invariant, the arithmetic of voting powers, and the
    lemmas about the steps of a batch update. *)
From S2P Require Import Prelude SortedList Helpers ValidatorSet.
#[local] Open Scope Z_scope.

(** ** Saturating arithmetic *)

Definition clamp (z : Z) : Z := Z.max MinInt64 (Z.min MaxInt64 z).

Ltac i64_solve := unfold in_i64, in_u64, MaxInt64, MinInt64, MaxUint64 in *; lia.

Lemma safeAddClip_clamp a b : in_i64 a -> in_i64 b -> safeAddClip a b = clamp (a + b).
Proof.
  intros Ha Hb. unfold safeAddClip, safeAdd, clamp.
  destruct (Z.ltb_spec 0 b); [rewrite (i64_id (MaxInt64 - b)) by i64_solve|];
    destruct (Z.ltb_spec b 0); try lia;
    [..|rewrite (i64_id (MinInt64 - b)) by i64_solve|]; cbn [andb].
  - destruct (Z.ltb_spec (MaxInt64 - b) a); [i64_solve|].
    rewrite i64_id by i64_solve. i64_solve.
  - destruct (Z.ltb_spec a (MinInt64 - b)); [i64_solve|].
    rewrite i64_id by i64_solve. i64_solve.
  - rewrite i64_id by i64_solve. i64_solve.
Qed.

Lemma safeSubClip_clamp a b : in_i64 a -> in_i64 b -> safeSubClip a b = clamp (a - b).
Proof.
  intros Ha Hb. unfold safeSubClip, safeSub, clamp.
  destruct (Z.ltb_spec 0 b); [rewrite (i64_id (MinInt64 + b)) by i64_solve|];
    destruct (Z.ltb_spec b 0); try lia;
    [..|rewrite (i64_id (MaxInt64 + b)) by i64_solve|]; cbn [andb].
  - destruct (Z.ltb_spec a (MinInt64 + b)); [i64_solve|].
    rewrite i64_id by i64_solve. i64_solve.
  - destruct (Z.ltb_spec (MaxInt64 + b) a); [i64_solve|].
    rewrite i64_id by i64_solve. i64_solve.
  - rewrite i64_id by i64_solve. i64_solve.
Qed.

Lemma clamp_id z : in_i64 z -> clamp z = z.
Proof. unfold clamp. i64_solve. Qed.

Lemma MaxTotalVotingPower_eq : MaxTotalVotingPower = 2 ^ 60 - 1.
Proof. reflexivity. Qed.

(** ** Voting powers *)

Definition powers (l : list Validator) : Z := Zsum (map VotingPower l).

(** The power a list of validators gives to the address [k]; 0 when absent. *)
Definition opower (o : option Validator) : Z :=
  match o with Some v => VotingPower v | None => 0 end.
Definition power_at (k : string) (l : list Validator) : Z := opower (find_by vaddr k l).

Lemma powers_nonneg l : Forall (fun v => 0 <= VotingPower v) l -> 0 <= powers l.
Proof. intros H. apply Zsum_nonneg. by apply Forall_map. Qed.

Lemma powers_perm l k : l ≡ₚ k -> powers l = powers k.
Proof. intros H. apply Zsum_perm. by apply Permutation_map. Qed.

Lemma sum_power_ok acc l :
  Forall (fun v => 0 <= VotingPower v) l -> 0 <= acc -> acc + powers l <= MaxTotalVotingPower ->
  sum_power acc l = Ok (acc + powers l).
Proof.
  intros HF. revert acc. induction HF as [|v l Hv HF IH]; intros acc Ha Hs; cbn.
  - f_equal. unfold powers. cbn. lia.
  - pose proof (powers_nonneg l HF). unfold powers in *. cbn [map Zsum foldr] in Hs.
    fold (Zsum (map VotingPower l)) in Hs.
    pose proof MaxTotalVotingPower_eq.
    rewrite safeAddClip_clamp, clamp_id by i64_solve.
    destruct (Z.ltb_spec MaxTotalVotingPower (acc + VotingPower v)); [lia|]. cbn.
    rewrite IH by lia. f_equal. unfold Zsum. cbn. lia.
Qed.

(** ** The invariant *)

Definition MaxPriority : Z := 3 * MaxTotalVotingPower.
Definition prio_bound (b : Z) (l : list Validator) : Prop :=
  Forall (fun v => - b <= ProposerPriority v <= b) l.

(** A well-formed set: strictly sorted by formatted address, positive powers
    whose sum stays below the maximum, a cache that is empty or right, and
    priorities far from the int64 bounds. *)
Record wf (vals : ValidatorSet) : Prop := {
  wf_sorted : ssorted vaddr (Validators vals);
  wf_power : Forall (fun v => 0 < VotingPower v) (Validators vals);
  wf_sum : powers (Validators vals) <= MaxTotalVotingPower;
  wf_cache : TotalVotingPower vals = 0 \/ TotalVotingPower vals = powers (Validators vals);
  wf_prio : prio_bound MaxPriority (Validators vals);
}.

Lemma wf_power_nonneg vals : wf vals -> Forall (fun v => 0 <= VotingPower v) (Validators vals).
Proof. intros H. eapply Forall_impl; [apply wf_power, H|]. cbn. lia. Qed.
Create HintDb valset.
#[export] Hint Resolve wf_sorted wf_power wf_sum wf_power_nonneg wf_prio : valset.

(** An executable check of the invariant. *)
Definition wf_check (vals : ValidatorSet) : bool :=
  ssortedb vaddr (Validators vals)
  && forallb (fun v => 0 <? VotingPower v) (Validators vals)
  && (powers (Validators vals) <=? MaxTotalVotingPower)
  && ((TotalVotingPower vals =? 0) || (TotalVotingPower vals =? powers (Validators vals)))
  && forallb (fun v => (- MaxPriority <=? ProposerPriority v) && (ProposerPriority v <=? MaxPriority))
       (Validators vals).

Lemma Forall_forallb {A} (f : A -> bool) (P : A -> Prop) l :
  (forall x, f x = true -> P x) -> forallb f l = true -> Forall P l.
Proof.
  intros H. rewrite forallb_forall. intros HF. apply Forall_forall. intros x Hx.
  apply H, HF. by apply list_elem_of_In.
Qed.

Lemma wf_check_sound vals : wf_check vals = true -> wf vals.
Proof.
  unfold wf_check. rewrite !andb_true_iff. intros [[[[H1 H2] H3] H4] H5].
  split.
  - by apply ssortedb_sound.
  - eapply Forall_forallb; [|exact H2]. cbn. intros. lia.
  - lia.
  - apply orb_true_iff in H4. lia.
  - eapply Forall_forallb; [|exact H5]. cbn. intros. lia.
Qed.

Lemma GetTotalVotingPower_wf vals : wf vals ->
  GetTotalVotingPower vals =
    Ok (powers (Validators vals), with_total vals (powers (Validators vals))).
Proof.
  intros H. unfold GetTotalVotingPower.
  destruct (Z.eqb_spec (TotalVotingPower vals) 0) as [E|E].
  - unfold updateTotalVotingPower. rewrite sum_power_ok; [done|..]; auto with valset lia.
    pose proof (wf_sum _ H). lia.
  - destruct (wf_cache _ H) as [|Hc]; [done|]. rewrite <- Hc. cbn. by destruct vals.
Qed.

Lemma wf_with_total vals : wf vals -> wf (with_total vals (powers (Validators vals))).
Proof. intros []. split; cbn; auto. Qed.

Lemma get_val_find vals a : ssorted vaddr (Validators vals) ->
  get_val vals a = find_by vaddr (FormatAddress a) (Validators vals).
Proof. apply search_by_find_snd. Qed.

(** ** Changing priorities only *)

Definition same_but_prio (l l' : list Validator) : Prop :=
  Forall2 (fun v v' => exists p, v' = with_priority v p) l l'.

Lemma same_but_prio_map (f : Validator -> Z) l :
  same_but_prio l (map (fun v => with_priority v (f v)) l).
Proof. induction l; constructor; eauto. Qed.
Lemma same_but_prio_refl l : same_but_prio l l.
Proof. induction l as [|v l]; constructor; [|done]. exists (ProposerPriority v). by destruct v. Qed.
Lemma same_but_prio_trans l1 l2 l3 :
  same_but_prio l1 l2 -> same_but_prio l2 l3 -> same_but_prio l1 l3.
Proof.
  intros H. revert l3. induction H as [|v v' l l' [p ->] H IH]; intros l3 H';
    inversion H' as [|? v'' ? l'' [q ->]]; subst; constructor; [by exists q | by apply IH].
Qed.

Lemma same_but_prio_vaddr l l' : same_but_prio l l' -> map vaddr l' = map vaddr l.
Proof. induction 1 as [|v v' l l' [p ->] _ IH]; cbn [map]; [done|]. by rewrite IH. Qed.
Lemma same_but_prio_power l l' : same_but_prio l l' -> map VotingPower l' = map VotingPower l.
Proof. induction 1 as [|v v' l l' [p ->] _ IH]; cbn [map]; [done|]. by rewrite IH. Qed.
Lemma same_but_prio_powers l l' : same_but_prio l l' -> powers l' = powers l.
Proof. intros H. unfold powers. by rewrite (same_but_prio_power _ _ H). Qed.
Lemma same_but_prio_length l l' : same_but_prio l l' -> length l' = length l.
Proof. intros H. symmetry. by eapply Forall2_length. Qed.

Lemma same_but_prio_Forall (P : Validator -> Prop) l l' :
  (forall v p, P v -> P (with_priority v p)) -> same_but_prio l l' -> Forall P l -> Forall P l'.
Proof.
  intros HP H. induction H as [|v v' l l' [p ->] _ IH]; intros HF; [constructor|].
  inversion HF; subst. constructor; auto.
Qed.

Lemma ssorted_vaddr_iff l : ssorted vaddr l <-> ssorted id (map vaddr l).
Proof.
  unfold ssorted. induction l as [|v l IH]; cbn; [split; constructor|].
  split; inversion 1; subst; constructor; try (by apply IH).
  - rewrite Forall_map. done.
  - by rewrite Forall_map in *.
Qed.

Lemma same_but_prio_ssorted l l' : same_but_prio l l' -> ssorted vaddr l -> ssorted vaddr l'.
Proof. intros H. by rewrite !ssorted_vaddr_iff, (same_but_prio_vaddr _ _ H). Qed.

Lemma same_but_prio_power_at k l l' : same_but_prio l l' -> power_at k l' = power_at k l.
Proof.
  unfold power_at. induction 1 as [|v v' l l' [p ->] _ IH]; [done|].
  cbn [find_by]. change (vaddr (with_priority v p)) with (vaddr v).
  destruct (decide (vaddr v = k)); [done|exact IH].
Qed.

Lemma same_but_prio_find k l l' : same_but_prio l l' ->
  is_Some (find_by vaddr k l') <-> is_Some (find_by vaddr k l).
Proof.
  intros H. rewrite <- !not_eq_None_Some, !find_by_None.
  by rewrite (same_but_prio_vaddr _ _ H).
Qed.

(** ** Powers and batch operations *)

Definition old_powers (l u : list Validator) : Z := Zsum (map (fun v => power_at (vaddr v) l) u).

Lemma powers_cons v l : powers (v :: l) = VotingPower v + powers l.
Proof. done. Qed.
Lemma old_powers_cons l v u : old_powers l (v :: u) = power_at (vaddr v) l + old_powers l u.
Proof. done. Qed.

Lemma old_powers_skip x l u : Forall (fun v => vaddr v <> vaddr x) u ->
  old_powers (x :: l) u = old_powers l u.
Proof.
  induction 1 as [|v u Hv HF IH]; [done|]. rewrite !old_powers_cons, IH. f_equal.
  unfold power_at. cbn. by rewrite decide_False.
Qed.

Lemma ssorted_head_ne x y u : ssorted vaddr (y :: u) -> key_lt vaddr x y ->
  Forall (fun v => vaddr v <> vaddr x) (y :: u).
Proof.
  intros H Hlt. eapply Forall_impl; [by eapply ssorted_cons_lt|]. intros v Hv E.
  by eapply key_lt_irrefl.
Qed.
Lemma ssorted_tail_ne x y u : ssorted vaddr (y :: u) -> vaddr x = vaddr y ->
  Forall (fun v => vaddr v <> vaddr x) u.
Proof.
  inversion 1 as [|?? HS HF]; subst. intros E. eapply Forall_impl; [exact HF|].
  intros v Hv E'. unfold key_lt in Hv. by rewrite E', E, kltb_irrefl in Hv.
Qed.

(** The total of a merge: the powers of the updates replace the old ones. *)
Lemma powers_merge l u : ssorted vaddr l -> ssorted vaddr u ->
  powers (merge_by vaddr l u) = powers l + powers u - old_powers l u.
Proof.
  intros SL SU. pattern l, u. apply (merge_ind vaddr); [..|exact SL|exact SU].
  - intros u' _. rewrite merge_by_nil_l. assert (old_powers [] u' = 0) as ->; [|cbn; lia].
    induction u' as [|v u' IH]; [done|]. rewrite old_powers_cons, IH. done.
  - intros l' _. rewrite merge_by_nil_r. cbn. lia.
  - intros x l' y u' HL HU H IH. rewrite merge_by_lt, !powers_cons, IH by done.
    rewrite (old_powers_skip x l') by by apply ssorted_head_ne. rewrite powers_cons. lia.
  - intros x l' y u' HL HU H IH. rewrite merge_by_eq, !powers_cons, IH by done.
    rewrite old_powers_cons, (old_powers_skip x l') by by eapply ssorted_tail_ne.
    unfold power_at. cbn. rewrite decide_True by done. cbn. lia.
  - intros x l' y u' HL HU H IH. rewrite merge_by_gt, !powers_cons, IH by done.
    rewrite old_powers_cons, powers_cons. unfold power_at at 1.
    assert (find_by vaddr (vaddr y) (x :: l') = None) as ->; [|cbn; lia].
    apply ssorted_find_lt. by apply ssorted_cons_lt.
Qed.

Lemma old_powers_le l u : ssorted vaddr l -> ssorted vaddr u ->
  Forall (fun v => 0 <= VotingPower v) l -> old_powers l u <= powers l.
Proof.
  intros SL SU. pattern l, u. apply (merge_ind vaddr); [..|exact SL|exact SU].
  - intros u' _ _. induction u' as [|v u' IH]; [done|]. rewrite old_powers_cons.
    unfold power_at. cbn. exact IH.
  - intros l' _ HF. apply powers_nonneg in HF. cbn. lia.
  - intros x l' y u' HL HU H IH HF. inversion HF; subst.
    rewrite (old_powers_skip x l') by by apply ssorted_head_ne. rewrite powers_cons.
    specialize (IH ltac:(done)). lia.
  - intros x l' y u' HL HU H IH HF. inversion HF; subst.
    rewrite powers_cons, old_powers_cons, (old_powers_skip x l') by by eapply ssorted_tail_ne.
    unfold power_at. cbn. rewrite decide_True by done. cbn.
    specialize (IH ltac:(done)). lia.
  - intros x l' y u' HL HU H IH HF. rewrite old_powers_cons. unfold power_at at 1.
    assert (find_by vaddr (vaddr y) (x :: l') = None) as ->; [|cbn; by apply IH].
    apply ssorted_find_lt. by apply ssorted_cons_lt.
Qed.

Lemma powers_sublist r l : r `sublist_of` l -> Forall (fun v => 0 <= VotingPower v) l ->
  0 <= powers r <= powers l.
Proof.
  induction 1 as [|v r l Hs IH|v r l Hs IH]; intros HF; [cbn; lia|..];
    inversion HF; subst; rewrite !powers_cons; specialize (IH ltac:(done)); lia.
Qed.

Lemma remove_by_length l d r : remove_by vaddr l d = Some r -> length l = (length r + length d)%nat.
Proof.
  revert d r. induction l as [|x l IH]; intros [|y d] r; cbn; try by intros [= <-]; cbn; lia.
  case_decide.
  - intros H'. apply IH in H'. lia.
  - destruct (remove_by vaddr l (y :: d)) eqn:E; cbn; intros [= <-]. apply IH in E. cbn in *. lia.
Qed.

Definition count_new (l u : list Validator) : Z :=
  Zsum (map (fun v => match find_by vaddr (vaddr v) l with Some _ => 0 | None => 1 end) u).

(** *** processChanges *)

(** What a batch of changes must satisfy. *)
Definition changes_ok (changes : list Validator) : Prop :=
  NoDup (map vaddr changes) /\
  Forall (fun v => vaddr v <> FormatAddress "" /\ 0 <= VotingPower v <= MaxTotalVotingPower) changes.

Definition is_update (v : Validator) : bool := negb (VotingPower v =? 0).

Lemma scan_changes_ok prev l u d :
  scan_changes prev l = Ok (u, d) ->
  u = List.filter is_update l /\ d = List.filter (fun v => negb (is_update v)) l /\
  Forall (fun v => 0 <= VotingPower v <= MaxTotalVotingPower) l /\
  (StronglySorted (key_le vaddr) l -> ssorted vaddr l) /\
  match l with v :: _ => vaddr v <> FormatAddress prev | [] => True end.
Proof.
  revert prev u d. induction l as [|v l IH]; intros prev u d; cbn [scan_changes]; intros H.
  { injection H as <- <-. repeat split; constructor. }
  ok_step H. ok_step H. ok_step H. ok_step H. destruct a as [u' d'].
  destruct (IH _ _ _ Ha) as (-> & -> & HF & HS & Hhd). clear IH Ha. bool_hyps.
  apply String.eqb_neq in Hg.
  assert (StronglySorted (key_le vaddr) (v :: l) -> ssorted vaddr (v :: l)) as Hsorted.
  { inversion 1 as [|?? HS' HF']; subst. specialize (HS HS'). constructor; [done|].
    destruct l as [|w l]; [constructor|]. inversion HF' as [|?? Hvw _]; subst.
    assert (key_lt vaddr v w) as Hlt.
    { destruct (key_trichotomy vaddr v w) as [?|[E|Hgt]]; [done|exfalso; apply Hhd; symmetry; exact E|].
      unfold key_le, key_lt in *; congruence. }
    by apply ssorted_cons_lt. }
  assert (Forall (fun w => 0 <= VotingPower w <= MaxTotalVotingPower) (v :: l)) by (constructor; done).
  cbn [List.filter]. unfold is_update at 1 4. destruct (VotingPower v =? 0); cbn [negb];
    injection H as <- <-; done.
Qed.

Lemma processChanges_ok changes u d :
  processChanges changes = Ok (u, d) ->
  let l := sort_by vaddr changes in
  u = List.filter is_update l /\ d = List.filter (fun v => negb (is_update v)) l /\
  ssorted vaddr l /\ ssorted vaddr u /\ ssorted vaddr d /\
  Forall (fun v => 0 <= VotingPower v <= MaxTotalVotingPower) l.
Proof.
  unfold processChanges. intros H. apply scan_changes_ok in H as (-> & -> & HF & HS & _).
  specialize (HS (sort_by_sorted _ _)). cbn. repeat split; auto using ssorted_filter.
Qed.

Lemma NoDup_keys_ssorted_sort (l : list Validator) :
  ssorted vaddr (sort_by vaddr l) -> NoDup (map vaddr l).
Proof.
  intros H. apply ssorted_NoDup in H.
  by rewrite (fmap_Permutation vaddr _ _ (sort_by_perm vaddr l)) in H.
Qed.

Lemma find_by_perm l l' k : NoDup (map vaddr l) -> l ≡ₚ l' ->
  find_by vaddr k l = find_by vaddr k l'.
Proof.
  intros ND HP. destruct (find_by vaddr k l) as [v|] eqn:E.
  - apply find_by_Some in E as [Hv <-]. symmetry. apply find_by_elem.
    + by rewrite <- (fmap_Permutation vaddr _ _ HP).
    + by rewrite <- HP.
  - symmetry. apply find_by_None. apply find_by_None in E.
    by rewrite <- (fmap_Permutation vaddr _ _ HP).
Qed.

Lemma find_by_filter (f : Validator -> bool) l k : NoDup (map vaddr l) ->
  find_by vaddr k (List.filter f l) =
    match find_by vaddr k l with Some v => if f v then Some v else None | None => None end.
Proof.
  induction l as [|v l IH]; cbn; intros ND; [done|].
  apply NoDup_cons in ND as [Hn ND]. specialize (IH ND).
  destruct (f v) eqn:Ef; cbn.
  - case_decide; [by rewrite Ef | done].
  - case_decide as E; [|done]. rewrite Ef, IH. subst k.
    apply (find_by_None vaddr) in Hn. by rewrite Hn.
Qed.

(** *** verifyUpdates, verifyRemovals *)

Lemma power_at_nonneg k l : Forall (fun v => 0 <= VotingPower v) l -> 0 <= power_at k l.
Proof.
  intros HF. unfold power_at, opower. destruct (find_by vaddr k l) eqn:E; [|lia].
  apply find_by_Some in E as [Hv _]. rewrite Forall_forall in HF. by apply HF.
Qed.
Lemma old_powers_nonneg l u : Forall (fun v => 0 <= VotingPower v) l -> 0 <= old_powers l u.
Proof.
  intros HF. apply Zsum_nonneg, Forall_map, Forall_forall. intros. by apply power_at_nonneg.
Qed.

Lemma verify_updates_from_ok vals total n u T' n' :
  ssorted vaddr (Validators vals) -> Forall (fun v => 0 <= VotingPower v) (Validators vals) ->
  Forall (fun v => 0 <= VotingPower v <= MaxTotalVotingPower) u ->
  old_powers (Validators vals) u <= total <= MaxTotalVotingPower ->
  verify_updates_from vals total n u = Ok (T', n') ->
  T' = total + powers u - old_powers (Validators vals) u /\
  n' = n + count_new (Validators vals) u /\ T' <= MaxTotalVotingPower.
Proof.
  intros HS HP. revert total n. induction u as [|x u IH]; intros total n HU Ht H.
  { injection H as <- <-. cbn. lia. }
  inversion HU as [|?? Hx HU']; subst. cbn [verify_updates_from] in H.
  rewrite get_val_find, format_address_idem in H by done. fold (vaddr x) in H.
  rewrite old_powers_cons in Ht |- *. rewrite powers_cons. cbn [count_new map Zsum foldr].
  fold (count_new (Validators vals) u). change (foldr Z.add 0) with Zsum.
  fold (count_new (Validators vals) u).
  pose proof (old_powers_nonneg (Validators vals) u HP).
  pose proof (power_at_nonneg (vaddr x) _ HP).
  unfold power_at, opower in *. pose proof MaxTotalVotingPower_eq.
  destruct (find_by vaddr (vaddr x) (Validators vals)) as [w|] eqn:Ew.
  - rewrite (i64_id (VotingPower x - VotingPower w)), i64_id in H by i64_solve.
    ok_step H. bool_hyps. apply IH in H; [lia|done|lia].
  - rewrite i64_id in H by i64_solve.
    ok_step H. bool_hyps. apply IH in H; [lia|done|lia].
Qed.

Lemma verify_updates_from_no_panic vals total n u :
  verify_updates_from vals total n u <> Panic.
Proof.
  revert total n. induction u as [|x u IH]; intros total n; cbn [verify_updates_from]; [done|].
  destruct (get_val _ _); destruct (MaxTotalVotingPower <? _); cbn [fail_if]; done || apply IH.
Qed.

Lemma verify_removals_from_ok vals d u :
  ssorted vaddr (Validators vals) -> verify_removals_from vals d = Ok u ->
  forall y, y ∈ d -> is_Some (find_by vaddr (vaddr y) (Validators vals)).
Proof.
  intros HS. induction d as [|x d IH]; cbn [verify_removals_from]; intros H y Hy.
  { by apply not_elem_of_nil in Hy. }
  rewrite get_val_find, format_address_idem in H by done. fold (vaddr x) in H.
  destruct (find_by vaddr (vaddr x) (Validators vals)) eqn:E; [|done].
  apply elem_of_cons in Hy as [->|Hy]; [by rewrite E | by apply IH].
Qed.
Lemma verify_removals_from_no_panic vals d : verify_removals_from vals d <> Panic.
Proof. induction d; cbn; [done|]. by destruct (get_val _ _). Qed.

Lemma length_merge l u : ssorted vaddr l -> ssorted vaddr u ->
  Z.of_nat (length (merge_by vaddr l u)) = Z.of_nat (length l) + count_new l u.
Proof.
  intros SL SU. pattern l, u. apply (merge_ind vaddr); [..|exact SL|exact SU]; unfold count_new.
  - intros u' _. rewrite merge_by_nil_l. induction u' as [|v u' IH]; [done|].
    cbn [length map find_by Zsum foldr] in *. unfold Zsum in *. lia.
  - intros l' _. rewrite merge_by_nil_r. cbn. lia.
  - intros x l' y u' HL HU H IH. rewrite merge_by_lt by done. cbn [length].
    rewrite Nat2Z.inj_succ, IH. cbn [length]. rewrite Nat2Z.inj_succ.
    assert (forall k, Forall (fun v => vaddr v <> vaddr x) k ->
      map (fun v => match find_by vaddr (vaddr v) (x :: l') with Some _ => 0 | None => 1 end) k
      = map (fun v => match find_by vaddr (vaddr v) l' with Some _ => 0 | None => 1 end) k) as Hm.
    { induction 1 as [|v k Hv _ IHk]; [done|]. cbn [map find_by].
      rewrite decide_False by congruence. f_equal. exact IHk. }
    rewrite Hm by by apply ssorted_head_ne. lia.
  - intros x l' y u' HL HU H IH. rewrite merge_by_eq by done. cbn [length].
    rewrite !Nat2Z.inj_succ, IH. cbn [map Zsum foldr find_by]. rewrite decide_True by done.
    assert (forall k, Forall (fun v => vaddr v <> vaddr x) k ->
      map (fun v => match (if decide (vaddr x = vaddr v) then Some x else find_by vaddr (vaddr v) l')
                    with Some _ => 0 | None => 1 end) k
      = map (fun v => match find_by vaddr (vaddr v) l' with Some _ => 0 | None => 1 end) k) as Hm.
    { induction 1 as [|v k Hv _ IHk]; [done|]. cbn [map find_by].
      rewrite decide_False by congruence. f_equal. exact IHk. }
    rewrite Hm by by eapply ssorted_tail_ne. unfold Zsum. lia.
  - intros x l' y u' HL HU H IH. rewrite merge_by_gt by done. cbn [length].
    rewrite Nat2Z.inj_succ, IH. cbn [map Zsum foldr].
    rewrite (ssorted_find_lt vaddr y (x :: l')) by by apply ssorted_cons_lt. cbv iota. unfold Zsum. cbn [length]. lia.
Qed.

(** *** computeNewPriorities *)

Lemma same_but_prio_computeNew u vals T : same_but_prio u (computeNewPriorities u vals T).
Proof.
  unfold computeNewPriorities. induction u as [|x u IH]; constructor; [|done].
  destruct (get_val _ _); eauto.
Qed.

Lemma find_same_but_prio_powers l l' u : same_but_prio u l' ->
  old_powers l l' = old_powers l u /\ count_new l l' = count_new l u.
Proof.
  unfold old_powers, count_new.
  induction 1 as [|v v' ?? [p ->] _ [IH1 IH2]]; [done|]. cbn [map Zsum foldr].
  change (vaddr (with_priority v p)) with (vaddr v). split; f_equal; [exact IH1 | exact IH2].
Qed.

Lemma shiftr_3_bound T : 0 <= T -> 0 <= Z.shiftr T 3 <= T.
Proof.
  intros H. rewrite Z.shiftr_div_pow2 by lia. change (2 ^ 3) with 8.
  split; [apply Z.div_pos; lia | apply Z.div_le_upper_bound; lia].
Qed.

Lemma computeNewPriorities_bound u vals T :
  ssorted vaddr (Validators vals) -> prio_bound MaxPriority (Validators vals) ->
  0 <= T <= MaxTotalVotingPower -> prio_bound MaxPriority (computeNewPriorities u vals T).
Proof.
  intros HS HB HT. unfold computeNewPriorities, prio_bound. rewrite Forall_map.
  apply Forall_forall. intros v _. rewrite get_val_find by done.
  pose proof (shiftr_3_bound T ltac:(lia)). pose proof MaxTotalVotingPower_eq.
  unfold MaxPriority in *.
  destruct (find_by _ _ _) eqn:E; cbn.
  - apply find_by_Some in E as [Hv _]. unfold prio_bound in HB. rewrite Forall_forall in HB. by apply HB.
  - rewrite (i64_id (T + _)), i64_id by i64_solve. lia.
Qed.

(** ** Rescaling and centring *)

Definition spread_le (d : Z) (l : list Validator) : Prop :=
  forall v w, v ∈ l -> w ∈ l -> ProposerPriority v - ProposerPriority w <= d.

Definition priorities (l : list Validator) : Z := Zsum (map ProposerPriority l).

Lemma max_min_priority_spec M m l M' m' :
  max_min_priority M m l = (M', m') ->
  M <= M' /\ m' <= m /\
  Forall (fun v => m' <= ProposerPriority v <= M') l /\
  (M' = M \/ exists v, v ∈ l /\ ProposerPriority v = M') /\
  (m' = m \/ exists v, v ∈ l /\ ProposerPriority v = m').
Proof.
  revert M m. induction l as [|v l IH]; intros M m H; cbn [max_min_priority] in H.
  { injection H as <- <-. repeat split; auto; lia. }
  apply IH in H as (H1 & H2 & H3 & H4 & H5). clear IH.
  assert (forall z, (exists w, w ∈ l /\ ProposerPriority w = z) ->
          exists w, w ∈ v :: l /\ ProposerPriority w = z) as Hlift.
  { intros z (w & Hw & E). exists w. split; [by right | done]. }
  assert (exists w, w ∈ v :: l /\ ProposerPriority w = ProposerPriority v) as Hv
    by (exists v; split; [left | done]).
  destruct (Z.ltb_spec M (ProposerPriority v)); destruct (Z.ltb_spec (ProposerPriority v) m);
    split_and!; try lia; try (constructor; [lia | done]);
    destruct H4 as [->|H4]; destruct H5 as [->|H5]; auto.
Qed.

Lemma quot_spread a b r d : 0 < r -> 0 <= d -> a - b <= r * d -> Z.quot a r - Z.quot b r <= d.
Proof.
  intros Hr Hd H. pose proof (Z.quot_rem' a r). pose proof (Z.quot_rem' b r).
  pose proof (Z.rem_bound_abs a r ltac:(lia)). pose proof (Z.rem_bound_abs b r ltac:(lia)).
  destruct (Z_le_dec 0 a) as [Ha|Ha].
  - pose proof (Z.rem_nonneg a r ltac:(lia) Ha). nia.
  - pose proof (Z.rem_nonpos a r ltac:(lia) ltac:(lia)).
    destruct (Z_le_dec b 0) as [Hb|Hb].
    + pose proof (Z.rem_nonpos b r ltac:(lia) Hb). nia.
    + pose proof (Z.rem_nonneg b r ltac:(lia) ltac:(lia)).
      assert (Z.quot a r <= 0) by nia. assert (0 <= Z.quot b r) by nia. lia.
Qed.

Lemma quot_bound a r b : 0 < r -> - b <= a <= b -> - b <= Z.quot a r <= b.
Proof.
  intros Hr H. pose proof (Z.quot_rem' a r). pose proof (Z.rem_bound_abs a r ltac:(lia)).
  destruct (Z_le_dec 0 a) as [Ha|Ha].
  - pose proof (Z.rem_nonneg a r ltac:(lia) Ha). nia.
  - pose proof (Z.rem_nonpos a r ltac:(lia) ltac:(lia)). nia.
Qed.

Lemma ceil_quot diff d : 0 <= diff -> 0 < d ->
  diff <= Z.quot (diff + d - 1) d * d /\ (d < diff -> 1 <= Z.quot (diff + d - 1) d).
Proof.
  intros H1 H2. pose proof (Z.quot_rem' (diff + d - 1) d).
  pose proof (Z.rem_bound_pos (diff + d - 1) d ltac:(lia) ltac:(lia)). split; nia.
Qed.

(** The largest difference of two priorities. *)
Definition priority_gap (l : list Validator) : Z :=
  foldr Z.max 0 (flat_map (fun v => map (fun w => ProposerPriority v - ProposerPriority w) l) l).
Lemma foldr_max_eq d l : 0 <= d -> Forall (fun z => z <= d) l -> d ∈ l -> foldr Z.max 0 l = d.
Proof.
  intros Hd HF Hin. assert (foldr Z.max 0 l <= d) as H1 by (clear Hin; induction HF; cbn; lia).
  assert (d <= foldr Z.max 0 l) as H2; [|lia]. clear HF H1. induction Hin; cbn; lia.
Qed.
Lemma priority_gap_eq l v w d : 0 <= d -> spread_le d l -> v ∈ l -> w ∈ l -> ProposerPriority v - ProposerPriority w = d -> priority_gap l = d.
Proof.
  intros Hd Hs Hv Hw E. apply foldr_max_eq; [done| |].
  - apply Forall_forall. intros z Hz%list_elem_of_In%in_flat_map. destruct Hz as (x & Hx & (y & <- & Hy)%in_map_iff).
    apply Hs; by apply list_elem_of_In.
  - apply list_elem_of_In, in_flat_map. exists v. split; [by apply list_elem_of_In|]. apply in_map_iff. exists w. split; [done|by apply list_elem_of_In].
Qed.

Lemma computeMaxMinPriorityDiff_ok vals b :
  Validators vals <> [] -> prio_bound b (Validators vals) -> b <= MaxPriority ->
  exists diff, computeMaxMinPriorityDiff vals = Ok diff /\ 0 <= diff <= 2 * b /\
               spread_le diff (Validators vals) /\ diff = priority_gap (Validators vals).
Proof.
  intros Hne HB Hb. unfold computeMaxMinPriorityDiff, IsNilOrEmpty.
  destruct (Validators vals) as [|v l] eqn:El; [done|]. cbn [panic_if].
  destruct (max_min_priority MinInt64 MaxInt64 (v :: l)) as [M m] eqn:E.
  apply max_min_priority_spec in E as (_ & _ & HF & HM & Hm).
  unfold prio_bound in HB. pose proof MaxTotalVotingPower_eq. unfold MaxPriority in Hb.
  assert (- b <= ProposerPriority v <= b) as Hv by (inversion HB; done).
  assert (m <= ProposerPriority v <= M) as Hvm by (inversion HF; done).
  assert (- b <= M <= b) as HMb.
  { destruct HM as [->|(w & Hw & <-)]; [i64_solve|]. rewrite Forall_forall in HB. by apply HB. }
  assert (- b <= m <= b) as Hmb.
  { destruct Hm as [->|(w & Hw & <-)]; [i64_solve|]. rewrite Forall_forall in HB. by apply HB. }
  rewrite (i64_id (M - m)) by i64_solve.
  destruct (Z.ltb_spec (M - m) 0); [lia|].
  assert (spread_le (M - m) (v :: l)) as Hs.
  { intros x y Hx Hy. rewrite Forall_forall in HF. pose proof (HF _ Hx). pose proof (HF _ Hy). lia. }
  eexists. split_and!; [done|lia..|exact Hs|]. symmetry.
  destruct HM as [->|(x & Hx & <-)]; [i64_solve|]. destruct Hm as [->|(y & Hy & <-)]; [i64_solve|].
  by apply (priority_gap_eq _ x y); [lia|..].
Qed.

(** The priorities divided by the smallest whole number that brings the gap below [d], and
    the priorities around their mean. *)
Definition rescaled (d : Z) (l : list Validator) : list Validator :=
  if d <? priority_gap l
  then map (fun v => with_priority v (Z.quot (ProposerPriority v) (Z.quot (priority_gap l + d - 1) d))) l else l.
Definition around_mean (l : list Validator) : list Validator :=
  map (fun v => with_priority v (ProposerPriority v - priorities l / Z.of_nat (length l))) l.

Lemma RescalePriorities_ok vals b d :
  Validators vals <> [] -> prio_bound b (Validators vals) -> b <= MaxPriority ->
  0 < d <= 2 * MaxTotalVotingPower ->
  exists l, RescalePriorities vals d = Ok (with_validators vals l) /\ l = rescaled d (Validators vals) /\
    same_but_prio (Validators vals) l /\ prio_bound b l /\ spread_le d l.
Proof.
  intros Hne HB Hb Hd.
  destruct (computeMaxMinPriorityDiff_ok vals b Hne HB Hb) as (diff & E & Hdiff & Hsp & Hgap).
  unfold RescalePriorities, rescaled. rewrite <- Hgap. assert (IsNilOrEmpty vals = false) as ->.
  { unfold IsNilOrEmpty. by destruct (Validators vals). }
  cbn [panic_if]. destruct (Z.leb_spec d 0); [lia|]. rewrite E. cbn.
  pose proof MaxTotalVotingPower_eq. unfold MaxPriority in Hb.
  rewrite (i64_id (diff + d)), (i64_id (diff + d - 1)) by i64_solve.
  destruct (ceil_quot diff d ltac:(lia) ltac:(lia)) as [Hc1 Hc2].
  rewrite i64_id; last first.
  { pose proof (Z.quot_rem' (diff + d - 1) d).
    pose proof (Z.rem_bound_pos (diff + d - 1) d ltac:(lia) ltac:(lia)). i64_solve || nia. }
  destruct (Z.ltb_spec d diff) as [Hlt|Hge].
  - specialize (Hc2 Hlt). set (r := Z.quot (diff + d - 1) d) in *.
    destruct (Z.eqb_spec r 0); [lia|]. cbn [panic_if].
    assert (forall v, v ∈ Validators vals -> i64 (Z.quot (ProposerPriority v) r) = Z.quot (ProposerPriority v) r) as Hid.
    { intros v Hv. unfold prio_bound in HB. rewrite Forall_forall in HB. pose proof (quot_bound _ r _ ltac:(lia) (HB _ Hv)). apply i64_id. i64_solve. }
    eexists. split_and!; [done|..].
    + apply map_ext_in. intros v Hv%list_elem_of_In. by rewrite Hid.
    + apply same_but_prio_map.
    + unfold prio_bound in *. rewrite Forall_map. eapply Forall_impl; [exact HB|].
      cbn. intros v Hv. pose proof (quot_bound _ r _ ltac:(lia) Hv). rewrite i64_id by i64_solve. done.
    + intros v' w' Hv' Hw'.
      apply list_elem_of_fmap in Hv' as (v & -> & Hv).
      apply list_elem_of_fmap in Hw' as (w & -> & Hw). cbn.
      unfold prio_bound in HB. rewrite Forall_forall in HB.
      pose proof (quot_bound _ r _ ltac:(lia) (HB _ Hv)).
      pose proof (quot_bound _ r _ ltac:(lia) (HB _ Hw)).
      rewrite !i64_id by i64_solve. apply quot_spread; [lia..|].
      specialize (Hsp v w Hv Hw). lia.
  - exists (Validators vals). split_and!; [by destruct vals|done|apply same_but_prio_refl|done|].
    intros v w Hv Hw. specialize (Hsp v w Hv Hw). lia.
Qed.

Lemma foldl_priorities acc l :
  foldl (fun s v => s + ProposerPriority v) acc l = acc + priorities l.
Proof.
  revert acc. induction l as [|v l IH]; intros acc; cbn; [lia|].
  rewrite IH. unfold priorities, Zsum. cbn. lia.
Qed.

Lemma priorities_map (f : Z -> Z) l :
  priorities (map (fun v => with_priority v (f (ProposerPriority v))) l)
  = Zsum (map (fun v => f (ProposerPriority v)) l).
Proof. unfold priorities. by rewrite map_map. Qed.

Lemma priorities_shift c l :
  Zsum (map (fun v => ProposerPriority v - c) l) = priorities l - c * Z.of_nat (length l).
Proof. induction l as [|v l IH]; [cbn; lia|]. cbn [map Zsum foldr length priorities] in *.
  unfold priorities, Zsum in *. cbn [map foldr]. lia. Qed.

(** The average lies within any bounds of the priorities. *)
Lemma avg_between lo hi l : l <> [] ->
  Forall (fun v => lo <= ProposerPriority v <= hi) l ->
  lo <= priorities l / Z.of_nat (length l) <= hi.
Proof.
  intros Hne HF. assert (0 < Z.of_nat (length l)) by (destruct l; [done | cbn; lia]).
  pose proof (Zsum_bounds lo hi (map ProposerPriority l)) as Hb.
  rewrite length_map in Hb. specialize (Hb ltac:(by apply Forall_map)). fold (priorities l) in Hb.
  split; [apply Z.div_le_lower_bound; lia | apply Z.div_le_upper_bound; lia].
Qed.

Lemma shiftByAvg_ok vals b d :
  Validators vals <> [] -> prio_bound b (Validators vals) -> b <= MaxPriority ->
  spread_le d (Validators vals) ->
  exists l, shiftByAvgProposerPriority vals = Ok (with_validators vals l) /\ l = around_mean (Validators vals) /\
    same_but_prio (Validators vals) l /\ prio_bound d l /\ spread_le d l /\
    0 <= priorities l < Z.of_nat (length l).
Proof.
  intros Hne HB Hb Hs. unfold shiftByAvgProposerPriority, computeAvgProposerPriority.
  assert (IsNilOrEmpty vals = false) as ->.
  { unfold IsNilOrEmpty. by destruct (Validators vals). }
  cbn [panic_if]. rewrite foldl_priorities, Z.add_0_l.
  set (n := Z.of_nat (length (Validators vals))).
  assert (0 < n) by (unfold n; destruct (Validators vals); [done | cbn; lia]).
  destruct (Z.eqb_spec n 0); [lia|]. cbn [panic_if].
  unfold big_div. destruct (Z.ltb_spec 0 n); [|lia].
  set (avg := priorities (Validators vals) / n).
  assert (- b <= avg <= b) as Havg by (apply avg_between; done).
  assert (Forall (fun v => - d <= ProposerPriority v - avg <= d) (Validators vals)) as Hd.
  { apply Forall_forall. intros v Hv.
    assert (ProposerPriority v - d <= avg <= ProposerPriority v + d); [|lia].
    apply avg_between; [done|]. apply Forall_forall. intros w Hw.
    pose proof (Hs v w Hv Hw). pose proof (Hs w v Hw Hv). lia. }
  pose proof MaxTotalVotingPower_eq. unfold MaxPriority in Hb.
  assert ((MinInt64 <=? avg) && (avg <=? MaxInt64) = true) as ->.
  { apply andb_true_intro. split; apply Z.leb_le; i64_solve. }
  cbn. assert (map (fun v => with_priority v (safeSubClip (ProposerPriority v) avg)) (Validators vals)
             = map (fun v => with_priority v (ProposerPriority v - avg)) (Validators vals)) as ->.
  { apply map_ext_in. intros v Hv%list_elem_of_In. f_equal. unfold prio_bound in HB.
    rewrite Forall_forall in HB. specialize (HB _ Hv).
    rewrite safeSubClip_clamp, clamp_id by i64_solve. done. }
  eexists. split_and!; [done|done|apply same_but_prio_map|..].
  - unfold prio_bound. rewrite Forall_map. done.
  - intros v' w' Hv' Hw'.
    apply list_elem_of_fmap in Hv' as (v & -> & Hv).
    apply list_elem_of_fmap in Hw' as (w & -> & Hw). cbn. specialize (Hs v w Hv Hw). lia.
  - rewrite (priorities_map (fun p => p - avg)), priorities_shift. fold n.
    pose proof (Z.mod_pos_bound (priorities (Validators vals)) n ltac:(lia)).
    pose proof (Z.div_mod (priorities (Validators vals)) n ltac:(lia)). unfold avg. lia.
  - rewrite length_map, (priorities_map (fun p => p - avg)), priorities_shift. fold n.
    pose proof (Z.mod_pos_bound (priorities (Validators vals)) n ltac:(lia)).
    pose proof (Z.div_mod (priorities (Validators vals)) n ltac:(lia)). unfold avg. lia.
Qed.
