(* ===== verification/ValidatorSetCorrect.v ===== *)
(** * Correctness of the validator set

    The theorems of [ValidatorSet.v]: the batch update as an update of a map
    from addresses to powers, the invariant it keeps, the rotation of the
    proposer. *)
From S2P Require Import Prelude SortedList Helpers ValidatorSet ValidatorSetFacts.
#[local] Open Scope Z_scope.

(** The last steps of an update, on a list of positive powers that add up to at
    most the maximum. *)
Definition rescale_and_center (vals : ValidatorSet) : outcome ValidatorSet :=
  vals ← updateTotalVotingPower vals;
  '(total, vals) ← GetTotalVotingPower vals;
  vals ← RescalePriorities vals (i64 (PriorityWindowSizeFactor * total));
  shiftByAvgProposerPriority vals.

Lemma powers_pos l : l <> [] -> Forall (fun v => 0 < VotingPower v) l -> 0 < powers l.
Proof.
  intros Hne HF. destruct HF as [|v l Hv HF]; [done|]. rewrite powers_cons.
  pose proof (powers_nonneg l). enough (0 <= powers l) by lia. apply H.
  eapply Forall_impl; [exact HF|]. cbn. lia.
Qed.

Lemma IsNilOrEmpty_false vals : Validators vals <> [] -> IsNilOrEmpty vals = false.
Proof. unfold IsNilOrEmpty. by destruct (Validators vals). Qed.

Lemma diffMax_eq l : powers l <= MaxTotalVotingPower -> 0 <= powers l ->
  i64 (PriorityWindowSizeFactor * powers l) = 2 * powers l.
Proof.
  intros. pose proof MaxTotalVotingPower_eq. unfold PriorityWindowSizeFactor.
  apply i64_id. i64_solve.
Qed.

(** What rescaling and centring leave: the same validators with priorities that
    are centred and within twice the total of each other. *)
Definition centred (l : list Validator) : Prop :=
  prio_bound (2 * powers l) l /\ spread_le (2 * powers l) l /\
  0 <= priorities l < Z.of_nat (length l).

Lemma rescale_shift_ok vals b :
  Validators vals <> [] -> Forall (fun v => 0 < VotingPower v) (Validators vals) ->
  powers (Validators vals) <= MaxTotalVotingPower ->
  prio_bound b (Validators vals) -> b <= MaxPriority ->
  exists l, (v ← RescalePriorities vals (2 * powers (Validators vals));
             shiftByAvgProposerPriority v) = Ok (with_validators vals l) /\
    l = around_mean (rescaled (2 * powers (Validators vals)) (Validators vals)) /\
    same_but_prio (Validators vals) l /\ centred l.
Proof.
  intros Hne HP Hsum HB Hb. pose proof (powers_pos _ Hne HP).
  set (d := 2 * powers (Validators vals)) in *.
  destruct (RescalePriorities_ok vals b d) as (l1 & E1 & D1 & S1 & B1 & Sp1); [done..|unfold d; lia|].
  rewrite E1. cbn [mbind outcome_bind].
  assert (l1 <> []) by (intros ->; by apply same_but_prio_length in S1; destruct (Validators vals)).
  destruct (shiftByAvg_ok (with_validators vals l1) b d) as (l2 & E2 & D2 & S2 & B2 & Sp2 & Hc); [done..|].
  rewrite E2. exists l2. cbn [Validators with_validators] in S2.
  split_and!; [done|by rewrite D2; cbn [Validators with_validators]; rewrite D1|by eapply same_but_prio_trans|].
  assert (powers l2 = powers (Validators vals)) as Hpw.
  { rewrite (same_but_prio_powers _ _ S2). by apply same_but_prio_powers. }
  unfold centred. rewrite Hpw. done.
Qed.

Lemma centred_wf l l' vals :
  ssorted vaddr l -> Forall (fun v => 0 < VotingPower v) l -> powers l <= MaxTotalVotingPower ->
  same_but_prio l l' -> centred l' -> Validators vals = l' ->
  (TotalVotingPower vals = 0 \/ TotalVotingPower vals = powers l) -> wf vals.
Proof.
  intros HS HP Hsum Hsame [HB _] <- Hc.
  pose proof (same_but_prio_powers _ _ Hsame) as Hpw.
  assert (0 <= powers l).
  { apply powers_nonneg. eapply Forall_impl; [exact HP|]. cbn. lia. }
  split.
  - by eapply same_but_prio_ssorted.
  - eapply same_but_prio_Forall; [|exact Hsame|exact HP]. done.
  - lia.
  - by rewrite Hpw.
  - unfold prio_bound, MaxPriority in *. eapply Forall_impl; [exact HB|]. cbn. lia.
Qed.

Lemma rescale_and_center_ok vals :
  Validators vals <> [] -> ssorted vaddr (Validators vals) ->
  Forall (fun v => 0 < VotingPower v) (Validators vals) ->
  powers (Validators vals) <= MaxTotalVotingPower ->
  prio_bound MaxPriority (Validators vals) ->
  exists vals', rescale_and_center vals = Ok vals' /\
    same_but_prio (Validators vals) (Validators vals') /\ centred (Validators vals') /\
    TotalVotingPower vals' = powers (Validators vals) /\ Proposer vals' = Proposer vals /\ wf vals'.
Proof.
  intros Hne HS HP Hsum HB. pose proof (powers_pos _ Hne HP).
  unfold rescale_and_center, updateTotalVotingPower.
  rewrite sum_power_ok; [|eapply Forall_impl; [exact HP|cbn; lia]|lia|lia].
  cbn [mbind outcome_bind]. rewrite Z.add_0_l. unfold GetTotalVotingPower.
  cbn [TotalVotingPower with_total]. destruct (Z.eqb_spec (powers (Validators vals)) 0); [lia|].
  cbn [mbind outcome_bind TotalVotingPower with_total]. rewrite diffMax_eq by lia.
  destruct (rescale_shift_ok (with_total vals (powers (Validators vals))) MaxPriority)
    as (l & E & _ & Sm & Hc); [done..|].
  cbn [with_total Validators mbind outcome_bind] in E. rewrite E. eexists. split_and!; [done..|].
  eapply (centred_wf (Validators vals)); [done..|by right].
Qed.

(** ** The batch update *)

(** The map a batch of changes makes of the powers. *)
Definition updated_power (changes l : list Validator) (k : string) : Z :=
  match find_by vaddr k changes with
  | Some c => VotingPower c
  | None => power_at k l
  end.

Record update_spec (vals : ValidatorSet) (changes : list Validator) (vals' : ValidatorSet) : Prop := {
  us_wf : wf vals';
  us_nonempty : Validators vals' <> [];
  us_power k : power_at k (Validators vals') = updated_power changes (Validators vals) k;
  us_distinct : NoDup (map vaddr changes);
  us_range : Forall (fun c => 0 <= VotingPower c <= MaxTotalVotingPower) changes;
  us_removed c : c ∈ changes -> VotingPower c = 0 ->
    is_Some (find_by vaddr (vaddr c) (Validators vals));
  us_total : TotalVotingPower vals' = powers (Validators vals');
  us_proposer : Proposer vals' = Proposer vals;
  us_centred : centred (Validators vals');
}.

Lemma scan_changes_no_panic prev l : scan_changes prev l <> Panic.
Proof.
  revert prev. induction l as [|v l IH]; intros prev; cbn [scan_changes]; [done|].
  destruct (String.eqb _ _); cbn [fail_if]; [done|].
  destruct (_ <? 0); cbn [fail_if]; [done|]. destruct (_ <? _); cbn [fail_if]; [done|].
  specialize (IH (Signer v)). destruct (scan_changes (Signer v) l) as [[u d]|e|]; cbn; [|done..].
  by destruct (_ =? 0).
Qed.

Lemma Forall_filter (P : Validator -> Prop) f l : Forall P l -> Forall P (List.filter f l).
Proof. induction 1; cbn; [constructor|]. destruct (f x); auto. Qed.

Lemma power_at_find k l : Forall (fun v => 0 < VotingPower v) l ->
  is_Some (find_by vaddr k l) <-> 0 < power_at k l.
Proof.
  intros HF. unfold power_at, opower. destruct (find_by vaddr k l) as [v|] eqn:E.
  - apply find_by_Some in E as [Hv _]. rewrite Forall_forall in HF.
    split; [intros _; by apply HF | eauto].
  - split; [intros []; done | lia].
Qed.

(** The list after merging the updates and taking out the removals. *)
(** The power at an address after the changes were merged and the removals taken out. *)
Lemma merged_removed_power vals changes u d u' l k :
  wf vals -> processChanges changes = Ok (u, d) -> same_but_prio u u' ->
  remove_by vaddr (merge_by vaddr (Validators vals) u') d = Some l ->
  power_at k l = updated_power changes (Validators vals) k.
Proof.
  intros Hwf Hpc Hsame Hrem. unfold updated_power, power_at.
  destruct (processChanges_ok _ _ _ Hpc) as (Eu & Ed & HSl & HSu & HSd & HR).
  set (cl := sort_by vaddr changes) in *.
  assert (ssorted vaddr u') as HSu' by by eapply same_but_prio_ssorted.
  assert (ssorted vaddr (merge_by vaddr (Validators vals) u')) as HSm
    by (apply ssorted_merge_by; auto with valset).
  pose proof (NoDup_keys_ssorted_sort _ HSl) as ND.
  rewrite (find_by_perm changes cl k ND) by (symmetry; apply sort_by_perm).
  assert (NoDup (map vaddr cl)) as NDl by by apply ssorted_NoDup.
  rewrite (find_remove_by vaddr k _ _ _ HSm HSd Hrem), find_merge_by by auto with valset.
  assert (opower (find_by vaddr k u') = opower (find_by vaddr k u)) as Epow
    by (apply (same_but_prio_power_at k _ _ Hsame)).
  pose proof (same_but_prio_find k _ _ Hsame) as Efind.
  assert (k ∈ map vaddr d <-> is_Some (find_by vaddr k d)) as Hkd.
  { rewrite <- not_eq_None_Some, find_by_None. destruct (decide (k ∈ map vaddr d)); tauto. }
  rewrite Ed in Hkd. rewrite find_by_filter in Hkd by done.
  rewrite Eu in Epow, Efind. rewrite find_by_filter in Epow, Efind by done.
  rewrite Ed. destruct (find_by vaddr k cl) as [c|].
  - unfold is_update in *. destruct (Z.eqb_spec (VotingPower c) 0) as [E0|E0]; cbn [negb] in *.
    + rewrite decide_True by (apply Hkd; eauto). cbn. lia.
    + rewrite decide_False by (rewrite Hkd; by intros []).
      destruct (find_by vaddr k u') as [w|] eqn:Ew; [done|].
      destruct (proj2 Efind ltac:(eauto)). done.
  - rewrite decide_False by (rewrite Hkd; by intros []).
    destruct (find_by vaddr k u') as [w|] eqn:Ew; [|done].
    destruct (proj1 Efind ltac:(eauto)). done.
Qed.

Lemma merged_removed_spec vals changes u d u' l :
  wf vals -> processChanges changes = Ok (u, d) -> same_but_prio u u' ->
  powers (Validators vals) + powers u - old_powers (Validators vals) u <= MaxTotalVotingPower ->
  remove_by vaddr (merge_by vaddr (Validators vals) u') d = Some l ->
  ssorted vaddr l /\ Forall (fun v => 0 < VotingPower v) l /\ powers l <= MaxTotalVotingPower /\
  (forall k, power_at k l = updated_power changes (Validators vals) k) /\
  Z.of_nat (length l) = Z.of_nat (length (Validators vals)) + count_new (Validators vals) u
                        - Z.of_nat (length d).
Proof.
  intros Hwf Hpc Hsame Hsum Hrem.
  destruct (processChanges_ok _ _ _ Hpc) as (Eu & Ed & HSl & HSu & HSd & HR).
  set (cl := sort_by vaddr changes) in *.
  assert (ssorted vaddr u') as HSu' by by eapply same_but_prio_ssorted.
  assert (Forall (fun v => 0 < VotingPower v) u') as Hu'.
  { eapply same_but_prio_Forall; [|exact Hsame|]; [done|]. subst u. apply Forall_forall.
    intros v [Hv Hf]%list_elem_of_In%filter_In. apply list_elem_of_In in Hv.
    rewrite Forall_forall in HR. specialize (HR _ Hv). cbn in Hf. unfold is_update in Hf. bool_hyps. lia. }
  assert (ssorted vaddr (merge_by vaddr (Validators vals) u')) as HSm
    by (apply ssorted_merge_by; auto with valset).
  assert (Forall (fun v => 0 < VotingPower v) (merge_by vaddr (Validators vals) u')) as Hm
    by (apply (Forall_merge_by vaddr); auto with valset).
  assert (powers (merge_by vaddr (Validators vals) u') <= MaxTotalVotingPower) as Hpm.
  { rewrite powers_merge by auto with valset. rewrite (same_but_prio_powers _ _ Hsame).
    by rewrite (proj1 (find_same_but_prio_powers _ _ _ Hsame)). }
  pose proof (remove_by_sublist _ _ _ _ Hrem) as Hsub.
  split_and!.
  - by eapply ssorted_sublist.
  - apply Forall_forall. intros v Hv. rewrite Forall_forall in Hm. apply Hm. by eapply elem_of_sublist.
  - pose proof (powers_sublist _ _ Hsub ltac:(eapply Forall_impl; [exact Hm|cbn; lia])). lia.
  - intros k. by eapply merged_removed_power.
  - apply remove_by_length in Hrem. pose proof (length_merge (Validators vals) u'
      ltac:(auto with valset) HSu') as Hlen.
    rewrite (proj2 (find_same_but_prio_powers _ _ _ Hsame)) in Hlen. lia.
Qed.

Lemma updateWithChangeSet_unfold vals changes ad u d :
  changes <> [] -> processChanges changes = Ok (u, d) ->
  updateWithChangeSet vals changes ad =
    (return_if negb ad && negb (length d =? 0)%nat
       with ErrText "cannot process validators with voting power 0" ;;
     verifyRemovals d vals ≫= fun _ =>
     '(T, n, vals) ← verifyUpdates u vals;
     return_if (n =? 0) && (length (Validators vals) =? length d)%nat
       with ErrText "applying the validator changes would result in empty set" ;;
     vals ← applyRemovals (applyUpdates vals (computeNewPriorities u vals T)) d;
     rescale_and_center vals).
Proof. intros Hne Hpc. destruct changes; [done|]. unfold updateWithChangeSet. rewrite Hpc. done. Qed.

Lemma count_new_nonneg l u : 0 <= count_new l u.
Proof. apply Zsum_nonneg, Forall_map, Forall_forall. intros v _. by destruct (find_by _ _ _). Qed.

Lemma verifyUpdates_no_panic vals u : wf vals -> verifyUpdates u vals <> Panic.
Proof.
  intros Hwf. unfold verifyUpdates. rewrite (GetTotalVotingPower_wf vals Hwf). cbn [mbind outcome_bind].
  pose proof (verify_updates_from_no_panic (with_total vals (powers (Validators vals)))
                (powers (Validators vals)) 0 u) as H.
  by destruct (verify_updates_from _ _ _ _) as [[]| |].
Qed.

Lemma verifyUpdates_ok vals u T n vals1 :
  wf vals -> ssorted vaddr u -> Forall (fun v => 0 <= VotingPower v <= MaxTotalVotingPower) u ->
  verifyUpdates u vals = Ok (T, n, vals1) ->
  vals1 = with_total vals (powers (Validators vals)) /\
  T = powers (Validators vals) + powers u - old_powers (Validators vals) u /\
  n = count_new (Validators vals) u /\ 0 <= T <= MaxTotalVotingPower.
Proof.
  intros Hwf HS HR. unfold verifyUpdates. rewrite (GetTotalVotingPower_wf vals Hwf).
  cbn [mbind outcome_bind]. intros H.
  destruct (verify_updates_from _ _ _ _) as [[T' n']| |] eqn:Hvu; cbn in H; [|done..].
  injection H as <- <- <-.
  assert (old_powers (Validators vals) u <= powers (Validators vals)) as Hold
    by (apply old_powers_le; auto with valset).
  assert (0 <= powers u) by (apply powers_nonneg; eapply Forall_impl; [exact HR | cbn; lia]).
  assert (powers (Validators vals) <= MaxTotalVotingPower) by by apply wf_sum.
  apply verify_updates_from_ok in Hvu; cbn [Validators with_total] in *; auto with valset.
  destruct Hvu as (-> & -> & HT). split_and!; [done|done|lia|lia|lia].
Qed.

(** Applying the verified changes succeeds, to the list the batch describes. *)
Lemma apply_changes_ok vals changes u d T :
  wf vals -> processChanges changes = Ok (u, d) ->
  (forall y, y ∈ d -> is_Some (find_by vaddr (vaddr y) (Validators vals))) ->
  T = powers (Validators vals) + powers u - old_powers (Validators vals) u ->
  0 <= T <= MaxTotalVotingPower ->
  exists l, applyRemovals (applyUpdates vals (computeNewPriorities u vals T)) d
            = Ok (with_validators vals l) /\
    ssorted vaddr l /\ Forall (fun v => 0 < VotingPower v) l /\
    powers l <= MaxTotalVotingPower /\ prio_bound MaxPriority l /\
    (forall k, power_at k l = updated_power changes (Validators vals) k) /\
    Z.of_nat (length l) = Z.of_nat (length (Validators vals)) + count_new (Validators vals) u
                          - Z.of_nat (length d).
Proof.
  intros Hwf Hpc Hin ET HT.
  destruct (processChanges_ok _ _ _ Hpc) as (Eu & Ed & HSl & HSu & HSd & HR).
  set (u' := computeNewPriorities u vals T).
  assert (same_but_prio u u') as Hsame by apply same_but_prio_computeNew.
  assert (ssorted vaddr u') as HSu' by by eapply same_but_prio_ssorted.
  assert (ssorted vaddr (merge_by vaddr (Validators vals) u')) as HSm
    by (apply ssorted_merge_by; auto with valset).
  destruct (remove_by_total vaddr (merge_by vaddr (Validators vals) u') d HSm HSd) as [l Hl].
  { intros y Hy. rewrite find_merge_by by auto with valset.
    destruct (find_by vaddr (vaddr y) u'); [eauto | by apply Hin]. }
  destruct (merged_removed_spec vals changes u d u' l) as (HSl' & HPl & Hpl & Hpow & Hcnt);
    [done|done|done|lia|done|].
  pose proof (remove_by_length _ _ _ Hl) as Hlen.
  unfold applyRemovals, applyUpdates. cbn [Validators with_validators].
  destruct (Nat.ltb_spec (length (merge_by vaddr (Validators vals) u')) (length d)); [lia|].
  cbn [panic_if]. rewrite Hl. exists l. split_and!; try done.
  apply Forall_forall. intros v Hv.
  assert (prio_bound MaxPriority (merge_by vaddr (Validators vals) u')) as HBm.
  { apply (Forall_merge_by vaddr); [auto with valset..| |].
    - exact (wf_prio _ Hwf).
    - apply computeNewPriorities_bound; auto with valset. }
  unfold prio_bound in HBm. rewrite Forall_forall in HBm. apply HBm.
  eapply elem_of_sublist; [exact Hv | by eapply remove_by_sublist].
Qed.

(** On a well-formed set a batch update either reports an error, or applies the
    batch; it never panics. *)
Lemma update_cases vals changes ad :
  wf vals -> changes <> [] ->
  (exists e, updateWithChangeSet vals changes ad = Err e) \/
  (exists vals', updateWithChangeSet vals changes ad = Ok vals' /\ update_spec vals changes vals').
Proof.
  intros Hwf Hne. destruct (processChanges changes) as [[u d]|e|] eqn:Hpc.
  2: { left. exists e. unfold updateWithChangeSet. destruct changes; [done|]. by rewrite Hpc. }
  2: { by apply scan_changes_no_panic in Hpc. }
  rewrite (updateWithChangeSet_unfold _ _ _ u d) by done.
  destruct (processChanges_ok _ _ _ Hpc) as (Eu & Ed & HSl & HSu & HSd & HR).
  destruct (negb ad && _); cbn [fail_if]; [eauto|].
  unfold verifyRemovals. destruct (verify_removals_from vals d) as [x|e|] eqn:Hvr; cbn [mbind outcome_bind];
    [|eauto|by apply verify_removals_from_no_panic in Hvr].
  pose proof (verify_removals_from_ok _ _ _ (wf_sorted _ Hwf) Hvr) as Hin.
  destruct (remove_by_total vaddr (Validators vals) d (wf_sorted _ Hwf) HSd Hin) as [r0 Hr0].
  pose proof (remove_by_length _ _ _ Hr0) as Hlen0.
  destruct (Nat.ltb_spec (length (Validators vals)) (length d)); [lia|]. cbn [panic_if mbind outcome_bind].
  destruct (verifyUpdates u vals) as [[[T n] vals1]|e|] eqn:Hvu; cbn [mbind outcome_bind];
    [|eauto|by apply verifyUpdates_no_panic in Hvu].
  apply verifyUpdates_ok in Hvu as (-> & ET & -> & HT); [|done|done|subst u; by apply Forall_filter].
  destruct ((count_new _ u =? 0) && _) eqn:Hemp; cbn [fail_if]; [eauto|]. right.
  destruct (apply_changes_ok (with_total vals (powers (Validators vals))) changes u d T)
    as (l & El & HSl' & HPl & Hpl & HBl & Hpow & Hcnt); [by apply wf_with_total|done..|].
  rewrite El. cbn [mbind outcome_bind]. cbn [Validators with_total] in *.
  assert (l <> []) as Hnl.
  { intros ->. pose proof (count_new_nonneg (Validators vals) u). cbn [length] in Hcnt.
    apply andb_false_iff in Hemp as [He|He]; [apply Z.eqb_neq in He|apply Nat.eqb_neq in He]; lia. }
  destruct (rescale_and_center_ok (with_validators (with_total vals (powers (Validators vals))) l))
    as (vals' & E & Sm & Hcen & Ht & Hp & Hwf'); [done..|].
  cbn [with_validators Validators] in *. exists vals'. split; [exact E|].
  split; try done.
  - intros E0. rewrite E0 in Sm. apply same_but_prio_length in Sm. by destruct l.
  - intros k. by rewrite (same_but_prio_power_at k _ _ Sm).
  - by apply NoDup_keys_ssorted_sort.
  - by rewrite <- (sort_by_perm vaddr changes).
  - intros c Hc E0. apply Hin. rewrite Ed. apply list_elem_of_In, filter_In.
    split; [|unfold is_update; by rewrite E0]. apply list_elem_of_In. by rewrite sort_by_perm.
  - by rewrite (same_but_prio_powers _ _ Sm).
Qed.

(** ** The rotation of the proposer *)

(** [v] comes first in [l]: a higher priority, or the same and a smaller address. *)
Definition first_in (v : Validator) (l : list Validator) : Prop :=
  forall w, w ∈ l -> w = v \/ ProposerPriority w < ProposerPriority v \/
    (ProposerPriority w = ProposerPriority v /\ key_lt vaddr v w).

Lemma beats_ok v w : vaddr v <> vaddr w ->
  exists b, beats v w = Ok b /\
    (if b : bool then ProposerPriority w < ProposerPriority v \/
            (ProposerPriority w = ProposerPriority v /\ key_lt vaddr v w)
     else ProposerPriority v < ProposerPriority w \/
            (ProposerPriority w = ProposerPriority v /\ key_lt vaddr w v)).
Proof.
  intros Hne. unfold beats.
  destruct (Z.ltb_spec (ProposerPriority w) (ProposerPriority v)); [exists true; auto|].
  destruct (Z.ltb_spec (ProposerPriority v) (ProposerPriority w)); [exists false; auto|].
  assert (ProposerPriority w = ProposerPriority v) by lia.
  unfold key_lt, kltb, string_key_order, str_ltb. rewrite (String.compare_antisym (vaddr w) (vaddr v)).
  destruct (String.compare (vaddr v) (vaddr w)) eqn:E; cbn.
  - by apply String.compare_eq_iff in E.
  - exists true. auto.
  - exists false. auto.
Qed.

Lemma first_in_step v w l b : first_in v l -> beats v w = Ok b -> vaddr v <> vaddr w ->
  first_in (if b : bool then v else w) (l ++ [w]).
Proof.
  intros HF Hb Hne u Hu. destruct (beats_ok v w Hne) as (b' & Hb' & Hspec).
  rewrite Hb in Hb'. injection Hb' as <-.
  rewrite elem_of_app, list_elem_of_singleton in Hu. destruct b.
  - destruct Hu as [Hu| ->]; [by apply HF | by right].
  - destruct Hu as [Hu| ->]; [|by left]. right.
    destruct (HF u Hu) as [->|[H|[H1 H2]]]; destruct Hspec as [H'|[H' H'']]; auto with lia.
    right. split; [lia|]. by eapply key_lt_trans.
Qed.

Lemma most_priority_ok l : forall pre res,
  NoDup (map vaddr (pre ++ l)) -> pre !! res.1 = Some res.2 -> first_in res.2 pre ->
  exists r, most_priority (length pre) l res = Ok r /\
    (pre ++ l) !! r.1 = Some r.2 /\ first_in r.2 (pre ++ l).
Proof.
  induction l as [|v l IH]; intros pre res ND Hres HF; cbn [most_priority].
  { exists res. by rewrite app_nil_r. }
  assert (vaddr res.2 <> vaddr v) as Hne.
  { intros E. rewrite map_app, NoDup_app in ND. destruct ND as (_ & Hd & _).
    apply (Hd (vaddr res.2)); [|rewrite E; left].
    apply (list_elem_of_fmap_2 vaddr). by eapply list_elem_of_lookup_2. }
  destruct (beats_ok _ _ Hne) as (b & Hb & _). rewrite Hb. cbn [mbind outcome_bind].
  pose proof (first_in_step _ _ _ _ HF Hb Hne) as HF'.
  rewrite (cons_middle v pre l), app_assoc in ND |- *.
  replace (S (length pre)) with (length (pre ++ [v])) by (rewrite length_app; cbn; lia).
  apply IH; [done| |].
  - destruct b; cbn.
    + rewrite lookup_app_l; [done|]. by eapply lookup_lt_Some.
    + by rewrite lookup_app_r, Nat.sub_diag by lia.
  - by destruct b.
Qed.

Lemma getValWithMostPriority_ok l : l <> [] -> NoDup (map vaddr l) ->
  exists i v, getValWithMostPriority l = Ok (Some (i, v)) /\ l !! i = Some v /\ first_in v l.
Proof.
  intros Hne ND. destruct l as [|v l]; [done|]. unfold getValWithMostPriority.
  destruct (most_priority_ok l [v] (0%nat, v) ND) as ([i w] & E & Hi & HF); [done|..].
  - intros u Hu. apply list_elem_of_singleton in Hu. auto.
  - cbn in E. rewrite E. exists i, w. done.
Qed.

(** The priorities before the winner pays. *)
Definition credited (l : list Validator) : list Validator :=
  map (fun v => with_priority v (ProposerPriority v + VotingPower v)) l.

Lemma same_but_prio_insert l i v p : l !! i = Some v ->
  same_but_prio l (<[i := with_priority v p]> l).
Proof.
  revert i. induction l as [|w l IH]; intros [|i] H; cbn in *; [done|done|..].
  - injection H as ->. constructor; [eauto|apply same_but_prio_refl].
  - constructor; [exists (ProposerPriority w); by destruct w|by apply IH].
Qed.

Lemma priorities_insert l i v p : l !! i = Some v ->
  priorities (<[i := with_priority v p]> l) = priorities l - ProposerPriority v + p.
Proof.
  revert i. induction l as [|w l IH]; intros [|i] H; cbn in *; [done|done|..].
  - injection H as ->. unfold priorities, Zsum. cbn. lia.
  - specialize (IH i H). unfold priorities, Zsum in *. cbn in *.
    etransitivity; [exact (f_equal (Z.add (ProposerPriority w)) IH) | lia].
Qed.

Lemma priorities_credited l : priorities (credited l) = priorities l + powers l.
Proof.
  induction l as [|v l IH]; [done|]. unfold priorities, powers, credited, Zsum in *. cbn in *. lia.
Qed.

Lemma VotingPower_le_powers l v : Forall (fun v => 0 < VotingPower v) l -> v ∈ l ->
  0 < VotingPower v <= powers l.
Proof.
  induction 1 as [|w l Hw HF IH]; intros Hv; [by apply not_elem_of_nil in Hv|].
  rewrite powers_cons. apply elem_of_cons in Hv as [->|Hv].
  - assert (0 <= powers l); [|lia]. apply powers_nonneg. eapply Forall_impl; [exact HF|cbn; lia].
  - specialize (IH Hv). lia.
Qed.

Lemma credited_clip l b :
  Forall (fun v => 0 < VotingPower v) l -> powers l <= MaxTotalVotingPower ->
  prio_bound b l -> b <= 2 * MaxTotalVotingPower ->
  map (fun v => with_priority v (safeAddClip (ProposerPriority v) (VotingPower v))) l = credited l.
Proof.
  intros HP Hs HB Hb. apply map_ext_in. intros v Hv%list_elem_of_In.
  pose proof (VotingPower_le_powers l v HP Hv). unfold prio_bound in HB. rewrite Forall_forall in HB.
  specialize (HB _ Hv). pose proof MaxTotalVotingPower_eq.
  rewrite safeAddClip_clamp, clamp_id by i64_solve. done.
Qed.

(** One round: every validator is credited with its power, and the one that
    comes first pays the total. *)
Definition round_result (l : list Validator) (p : Validator) (l' : list Validator) : Prop :=
  exists i v, l !! i = Some v /\
    first_in (with_priority v (ProposerPriority v + VotingPower v)) (credited l) /\
    p = with_priority v (ProposerPriority v + VotingPower v - powers l) /\
    l' = <[i := p]> (credited l).

Lemma round_ok vals :
  Validators vals <> [] -> ssorted vaddr (Validators vals) ->
  Forall (fun v => 0 < VotingPower v) (Validators vals) ->
  powers (Validators vals) <= MaxTotalVotingPower ->
  prio_bound (2 * powers (Validators vals)) (Validators vals) ->
  TotalVotingPower vals = powers (Validators vals) ->
  exists p vals', incrementProposerPriority vals = Ok (Some p, vals') /\
    round_result (Validators vals) p (Validators vals') /\
    TotalVotingPower vals' = powers (Validators vals).
Proof.
  intros Hne HS HP Hs HB Ht. pose proof (powers_pos _ Hne HP). pose proof MaxTotalVotingPower_eq.
  unfold incrementProposerPriority. rewrite IsNilOrEmpty_false by done.
  rewrite (credited_clip _ (2 * powers (Validators vals))) by (done || lia).
  assert (credited (Validators vals) <> []) by (unfold credited; by destruct (Validators vals)).
  destruct (getValWithMostPriority_ok (credited (Validators vals))) as (i & v' & E & Hi & HF);
    [done|unfold credited; rewrite map_map; apply (ssorted_NoDup vaddr), HS|].
  rewrite E. cbn [mbind outcome_bind]. unfold GetTotalVotingPower. cbn [TotalVotingPower with_validators].
  rewrite Ht. destruct (Z.eqb_spec (powers (Validators vals)) 0); [lia|].
  cbn [mbind outcome_bind TotalVotingPower with_validators].
  rewrite Ht. unfold credited in Hi. change (map ?f ?l) with (f <$> l) in Hi.
  rewrite list_lookup_fmap in Hi.
  destruct (Validators vals !! i) as [v|] eqn:Ev; [|done]. injection Hi as <-.
  assert (v ∈ Validators vals) as Hv by by eapply list_elem_of_lookup_2.
  pose proof (VotingPower_le_powers _ _ HP Hv).
  unfold prio_bound in HB. rewrite Forall_forall in HB. specialize (HB _ Hv).
  cbn [ProposerPriority with_priority]. rewrite safeSubClip_clamp, clamp_id by i64_solve.
  eexists _, _. split; [done|]. split; [|done]. exists i, v. done.
Qed.

(** The rotation by one: the priorities are rescaled to within twice the total power of each
    other, centred, and one round is played on them. *)
Definition balanced (l : list Validator) : list Validator := around_mean (rescaled (2 * powers l) l).
Record increment_spec (vals vals' : ValidatorSet) : Prop := {
  is_wf : wf vals';
  is_same : same_but_prio (Validators vals) (Validators vals');
  is_sum : 0 <= priorities (Validators vals') < Z.of_nat (length (Validators vals'));
  is_balanced : centred (balanced (Validators vals));
  is_round : exists p, round_result (balanced (Validators vals)) p (Validators vals') /\ Proposer vals' = Some p;
}.

Lemma round_same_but_prio l p l' : round_result l p l' -> same_but_prio l l'.
Proof.
  intros (i & v & Hi & _ & -> & ->). eapply same_but_prio_trans; [apply same_but_prio_map|].
  assert (credited l !! i = Some (with_priority v (ProposerPriority v + VotingPower v))) as Hc.
  { unfold credited. change (map ?f ?l) with (f <$> l). by rewrite list_lookup_fmap, Hi. }
  exact (same_but_prio_insert _ i _ (ProposerPriority v + VotingPower v - powers l) Hc).
Qed.

Lemma round_priorities l p l' : round_result l p l' -> priorities l' = priorities l.
Proof.
  intros (i & v & Hi & _ & -> & ->).
  assert (credited l !! i = Some (with_priority v (ProposerPriority v + VotingPower v))) as Hc.
  { unfold credited. change (map ?f ?l) with (f <$> l). by rewrite list_lookup_fmap, Hi. }
  pose proof (priorities_insert _ i _ (ProposerPriority v + VotingPower v - powers l) Hc) as E.
  etransitivity; [exact E|]. rewrite priorities_credited. cbn. lia.
Qed.

Lemma round_prio_bound l p l' : Forall (fun v => 0 < VotingPower v) l ->
  round_result l p l' -> prio_bound (2 * powers l) l -> prio_bound (3 * powers l) l'.
Proof.
  intros HP (i & v & Hi & _ & -> & ->) HB. unfold prio_bound in *. rewrite Forall_forall in HB.
  assert (Forall (fun v => - (3 * powers l) <= ProposerPriority v <= 3 * powers l) (credited l)).
  { apply Forall_map, Forall_forall. intros w Hw. specialize (HB _ Hw).
    pose proof (VotingPower_le_powers _ _ HP Hw). cbn. lia. }
  apply Forall_insert; [done|]. assert (v ∈ l) as Hv by by eapply list_elem_of_lookup_2.
  pose proof (VotingPower_le_powers _ _ HP Hv). specialize (HB _ Hv). cbn. lia.
Qed.

Lemma increment_ok vals : wf vals -> Validators vals <> [] ->
  exists vals', IncrementProposerPriority vals 1 = Ok vals' /\ increment_spec vals vals'.
Proof.
  intros Hwf Hne. unfold IncrementProposerPriority. rewrite IsNilOrEmpty_false by done.
  cbn [panic_if Z.leb Z.compare]. rewrite (GetTotalVotingPower_wf vals Hwf). cbn [mbind outcome_bind].
  pose proof (powers_pos _ Hne (wf_power _ Hwf)). pose proof (wf_sum _ Hwf).
  rewrite diffMax_eq by lia.
  destruct (rescale_shift_ok (with_total vals (powers (Validators vals))) MaxPriority)
    as (l & E & El & Sm & Hc); cbn [Validators with_total]; auto with valset; [done|].
  cbn [Validators with_total] in *.
  destruct (RescalePriorities _ _) as [v1| |]; cbn [mbind outcome_bind] in E |- *; [|done..].
  rewrite E. cbn [mbind outcome_bind].
  pose proof (same_but_prio_powers _ _ Sm) as Hpw.
  assert (l <> []) by (intros ->; apply same_but_prio_length in Sm; by destruct (Validators vals)).
  assert (Forall (fun v => 0 < VotingPower v) l) as HPl
    by (eapply same_but_prio_Forall; [|exact Sm|apply wf_power, Hwf]; done).
  assert (ssorted vaddr l) by (eapply same_but_prio_ssorted; [exact Sm|apply wf_sorted, Hwf]).
  destruct (round_ok (with_validators (with_total vals (powers (Validators vals))) l))
    as (p & vals' & E' & Hr & Ht); cbn [Validators with_validators TotalVotingPower with_total] in *;
    try done; [lia|by destruct Hc|].
  change (Z.to_nat 1) with 1%nat. cbn [increment_rounds].
  rewrite E'. cbn [mbind outcome_bind]. eexists. split; [done|].
  pose proof (round_same_but_prio _ _ _ Hr) as Sm'.
  assert (same_but_prio (Validators vals) (Validators vals')) as Sm2 by by eapply same_but_prio_trans.
  pose proof (same_but_prio_powers _ _ Sm2) as Hpw2.
  split; cbn [Validators with_proposer TotalVotingPower Proposer].
  - split; cbn [Validators with_proposer TotalVotingPower].
    + eapply same_but_prio_ssorted; [exact Sm2|apply wf_sorted, Hwf].
    + eapply same_but_prio_Forall; [|exact Sm2|apply wf_power, Hwf]; done.
    + lia.
    + right. lia.
    + destruct Hc as [HB _]. pose proof (round_prio_bound _ _ _ HPl Hr HB) as HB'.
      unfold prio_bound, MaxPriority in *. eapply Forall_impl; [exact HB'|]. cbn. lia.
  - done.
  - destruct Hc as (_ & _ & Hc). rewrite (round_priorities _ _ _ Hr).
    by rewrite (same_but_prio_length _ _ Sm').
  - rewrite El in Hc. exact Hc.
  - exists p. split; [|done]. rewrite El in Hr. exact Hr.
Qed.

(** ** Synchronising the set with the stored validators *)

Lemma updated_validator_vaddr cur ack v : Forall (fun u => vaddr u = vaddr v) (updated_validator cur ack v).
Proof.
  unfold updated_validator. destruct (get_val _ _); repeat case_match; repeat constructor.
Qed.

Lemma find_GetUpdated cur ack vs k : NoDup (map vaddr vs) ->
  find_by vaddr k (GetUpdatedValidators cur vs ack) =
    match find_by vaddr k vs with Some v => head (updated_validator cur ack v) | None => None end.
Proof.
  unfold GetUpdatedValidators. induction vs as [|v vs IH]; intros ND; [done|].
  cbn [flat_map]. apply NoDup_cons in ND as [Hn ND]. rewrite find_by_app, (IH ND). cbn [find_by].
  pose proof (updated_validator_vaddr cur ack v) as HF. case_decide as E.
  - destruct (updated_validator cur ack v) as [|u l]; cbn [find_by head].
    + subst k. apply (find_by_None vaddr) in Hn. by rewrite Hn.
    + inversion HF; subst. by rewrite decide_True by congruence.
  - assert (find_by vaddr k (updated_validator cur ack v) = None) as ->; [|done].
    apply find_by_None. intros (u & -> & Hu)%list_elem_of_fmap. rewrite Forall_forall in HF.
    by rewrite (HF _ Hu) in E.
Qed.

(** The power the stored validators give to an address: that of an active one. *)
Definition active_power (ack : Z) (vs : list Validator) (k : string) : Z :=
  match find_by vaddr k vs with
  | Some v => if IsCurrentValidator v ack then VotingPower v else 0
  | None => 0
  end.

Lemma updated_power_sync cur vs ack k : wf cur -> NoDup (map vaddr vs) ->
  (forall v, v ∈ Validators cur -> vaddr v ∈ map vaddr vs) ->
  updated_power (GetUpdatedValidators cur vs ack) (Validators cur) k = active_power ack vs k.
Proof.
  intros Hwf ND Hsub. unfold updated_power, active_power. rewrite find_GetUpdated by done.
  destruct (find_by vaddr k vs) as [v|] eqn:Ev.
  - apply find_by_Some in Ev as [_ <-]. unfold updated_validator, power_at.
    rewrite get_val_find, format_address_idem by apply wf_sorted, Hwf. fold (vaddr v).
    destruct (find_by vaddr (vaddr v) (Validators cur)) as [w|] eqn:Ew;
      destruct (IsCurrentValidator v ack); cbn; try done.
    destruct (Z.eqb_spec (VotingPower v) (VotingPower w)); cbn; congruence.
  - unfold power_at. destruct (find_by vaddr k (Validators cur)) as [w|] eqn:Ew; [|done].
    apply find_by_Some in Ew as [Hw <-]. apply find_by_None in Ev. by apply Hsub in Hw.
Qed.

(** ** When an update succeeds *)

Lemma scan_changes_succeeds prev l :
  ssorted vaddr l ->
  Forall (fun v => vaddr v <> FormatAddress prev) l ->
  Forall (fun v => 0 <= VotingPower v <= MaxTotalVotingPower) l ->
  exists u d, scan_changes prev l = Ok (u, d).
Proof.
  intros HS. revert prev. induction HS as [|v l HS IH HF]; intros prev Hp HR; cbn [scan_changes]; [eauto|].
  inversion Hp as [|?? Hv _]; inversion HR as [|?? Hr HR']; subst.
  apply String.eqb_neq in Hv. rewrite Hv. cbn [fail_if].
  destruct (Z.ltb_spec (VotingPower v) 0); [lia|]. cbn [fail_if].
  destruct (Z.ltb_spec MaxTotalVotingPower (VotingPower v)); [lia|]. cbn [fail_if].
  destruct (IH (Signer v)) as (u & d & ->); [|done|].
  - eapply Forall_impl; [exact HF|]. intros w Hw E. by eapply key_lt_irrefl.
  - cbn. destruct (_ =? 0); eauto.
Qed.

Lemma verify_updates_succeeds vals total n u :
  ssorted vaddr (Validators vals) -> Forall (fun v => 0 <= VotingPower v) (Validators vals) ->
  Forall (fun v => 0 <= VotingPower v <= MaxTotalVotingPower) u ->
  old_powers (Validators vals) u <= total -> total + powers u <= MaxTotalVotingPower ->
  exists T n', verify_updates_from vals total n u = Ok (T, n').
Proof.
  intros HS HP. revert total n. induction u as [|x u IH]; intros total n HU Ht Hs; [cbn; eauto|].
  inversion HU as [|?? Hx HU']; subst. cbn [verify_updates_from].
  rewrite get_val_find, format_address_idem by done. fold (vaddr x).
  rewrite old_powers_cons in Ht. rewrite powers_cons in Hs.
  pose proof (old_powers_nonneg (Validators vals) u HP).
  pose proof (power_at_nonneg (vaddr x) _ HP).
  assert (0 <= powers u) by (apply powers_nonneg; eapply Forall_impl; [exact HU'|cbn; lia]).
  unfold power_at, opower in *. pose proof MaxTotalVotingPower_eq.
  destruct (find_by vaddr (vaddr x) (Validators vals)) as [w|] eqn:Ew.
  - rewrite (i64_id (VotingPower x - VotingPower w)), i64_id by i64_solve.
    destruct (Z.ltb_spec MaxTotalVotingPower (total + (VotingPower x - VotingPower w))); [lia|].
    apply IH; [done|lia|lia].
  - rewrite i64_id by i64_solve.
    destruct (Z.ltb_spec MaxTotalVotingPower (total + VotingPower x)); [lia|].
    apply IH; [done|lia|lia].
Qed.

Lemma verify_removals_succeeds vals d :
  ssorted vaddr (Validators vals) ->
  (forall y, y ∈ d -> is_Some (find_by vaddr (vaddr y) (Validators vals))) ->
  verify_removals_from vals d = Ok tt.
Proof.
  intros HS. induction d as [|x d IH]; intros Hin; cbn [verify_removals_from]; [done|].
  rewrite get_val_find, format_address_idem by done. fold (vaddr x).
  destruct (Hin x ltac:(left)) as [w ->]. apply IH. intros y Hy. apply Hin. by right.
Qed.

Lemma powers_filter_le f l : Forall (fun v => 0 <= VotingPower v) l ->
  powers (List.filter f l) <= powers l.
Proof.
  intros HF. apply powers_sublist; [|done].
  clear HF. induction l as [|v l IH]; cbn; [constructor|]. destruct (f v); by constructor.
Qed.

(** A batch is applicable: distinct non-empty addresses, powers in range, the
    removed validators present, room for the new powers, and a survivor. *)
Record applicable (vals : ValidatorSet) (changes : list Validator) : Prop := {
  ap_distinct : NoDup (map vaddr changes);
  ap_address : Forall (fun c => vaddr c <> FormatAddress "") changes;
  ap_range : Forall (fun c => 0 <= VotingPower c) changes;
  ap_room : powers (Validators vals) + powers changes <= MaxTotalVotingPower;
  ap_removed c : c ∈ changes -> VotingPower c = 0 ->
    is_Some (find_by vaddr (vaddr c) (Validators vals));
  ap_survivor : exists k, 0 < updated_power changes (Validators vals) k;
}.

Lemma applicable_processChanges vals changes : wf vals -> applicable vals changes ->
  exists u d, processChanges changes = Ok (u, d).
Proof.
  intros Hwf [ND Hne HR Hroom _ _]. apply scan_changes_succeeds.
  - by apply sort_by_ssorted.
  - by rewrite (sort_by_perm vaddr changes).
  - rewrite (sort_by_perm vaddr changes). apply Forall_forall. intros c Hc.
    rewrite Forall_forall in HR. split; [by apply HR|].
    pose proof (powers_nonneg _ (wf_power_nonneg _ Hwf)).
    apply elem_of_Permutation in Hc as [l Hl].
    rewrite (powers_perm _ _ Hl), powers_cons in Hroom.
    assert (0 <= powers l); [|lia].
    apply powers_nonneg, Forall_forall. intros w Hw. apply HR. rewrite Hl. by right.
Qed.

Lemma update_succeeds vals changes : wf vals -> changes <> [] -> applicable vals changes ->
  exists vals', UpdateWithChangeSet vals changes = Ok vals'.
Proof.
  intros Hwf Hne Hap. destruct (applicable_processChanges _ _ Hwf Hap) as (u & d & Hpc).
  destruct Hap as [ND _ HR Hroom Hrem [k Hk]].
  destruct (processChanges_ok _ _ _ Hpc) as (Eu & Ed & HSl & HSu & HSd & HRl).
  assert (forall y, y ∈ d -> is_Some (find_by vaddr (vaddr y) (Validators vals))) as Hin.
  { intros y Hy. rewrite Ed in Hy. apply list_elem_of_In, filter_In in Hy as [Hy Hz].
    unfold is_update in Hz. bool_hyps. apply list_elem_of_In in Hy. apply Hrem; [|done].
    by rewrite <- (sort_by_perm vaddr changes). }
  assert (powers u <= powers changes) as Hpu.
  { rewrite Eu. etransitivity; [apply powers_filter_le; by rewrite (sort_by_perm vaddr changes)|].
    by rewrite (powers_perm _ _ (sort_by_perm vaddr changes)). }
  assert (Forall (fun v => 0 <= VotingPower v <= MaxTotalVotingPower) u) as HuR
    by (subst u; by apply Forall_filter).
  unfold UpdateWithChangeSet. rewrite (updateWithChangeSet_unfold _ _ _ u d) by done.
  cbn [negb andb fail_if]. unfold verifyRemovals.
  rewrite verify_removals_succeeds by auto with valset. cbn [mbind outcome_bind].
  destruct (remove_by_total vaddr (Validators vals) d (wf_sorted _ Hwf) HSd Hin) as [r0 Hr0].
  pose proof (remove_by_length _ _ _ Hr0) as Hlen0.
  destruct (Nat.ltb_spec (length (Validators vals)) (length d)); [lia|]. cbn [panic_if mbind outcome_bind].
  destruct (verifyUpdates u vals) as [[[T n] v1]|e|] eqn:Hvu; cbn [mbind outcome_bind].
  2-3: exfalso; unfold verifyUpdates in Hvu; rewrite (GetTotalVotingPower_wf _ Hwf) in Hvu;
    cbn [mbind outcome_bind] in Hvu;
    destruct (verify_updates_succeeds (with_total vals (powers (Validators vals)))
      (powers (Validators vals)) 0 u) as (T & n & E); cbn [Validators with_total]; auto with valset;
    [apply old_powers_le; auto with valset | lia | by rewrite E in Hvu].
  apply verifyUpdates_ok in Hvu as (-> & ET & -> & HT); [|done..].
  destruct (apply_changes_ok (with_total vals (powers (Validators vals))) changes u d T)
    as (l & El & HSl' & HPl & Hpl & HBl & Hpow & Hcnt); [by apply wf_with_total|done..|].
  cbn [Validators with_total] in *.
  assert (l <> []) as Hnl by (intros ->; specialize (Hpow k); cbn in Hpow; lia).
  destruct ((count_new _ u =? 0) && _) eqn:Hemp; cbn [fail_if].
  { exfalso. apply andb_true_iff in Hemp as [H1 H2]. apply Z.eqb_eq in H1. apply Nat.eqb_eq in H2.
    destruct l; [done|]. cbn [length] in Hcnt. lia. }
  rewrite El. cbn [mbind outcome_bind].
  destruct (rescale_and_center_ok (with_validators (with_total vals (powers (Validators vals))) l))
    as (vals' & E & _); [done..|]. eauto.
Qed.

(** ** The properties *)

(** C3: refinement.  Seen as a map from formatted addresses to voting powers, a
    successful batch update overwrites exactly the addresses of the batch (a
    power of 0 removes the validator), and the set stays well-formed: strictly
    sorted, positive powers, total below the maximum, priorities in bounds. *)
Theorem update_refines_power_map (vals : ValidatorSet) (changes : list Validator)
    (allowDeletes : bool) (vals' : ValidatorSet) :
  wf vals -> updateWithChangeSet vals changes allowDeletes = Ok vals' ->
  wf vals' /\ forall k, power_at k (Validators vals') = updated_power changes (Validators vals) k.
Proof.
  intros Hwf H. destruct changes as [|c changes]; [by injection H as <-|].
  destruct (update_cases vals (c :: changes) allowDeletes Hwf) as [[e E]|(v & E & [])];
    [done|congruence|]. rewrite E in H. by injection H as <-.
Qed.

(** C22: a batch of distinct addresses that removes only members, leaves room
    below the maximum total and leaves somebody in the set is applied. *)
Theorem update_applicable_succeeds (vals : ValidatorSet) (changes : list Validator) :
  wf vals -> applicable vals changes -> is_ok (UpdateWithChangeSet vals changes) = true.
Proof.
  intros Hwf Hap. destruct changes as [|c changes]; [done|].
  by destruct (update_succeeds vals (c :: changes) Hwf) as [v ->].
Qed.

(** Whatever the batch, an update of a well-formed set does not panic: no
    index is out of range, no total exceeds the bound it is checked against, no
    division by zero happens. *)
Theorem update_never_panics (vals : ValidatorSet) (changes : list Validator) (allowDeletes : bool) :
  wf vals -> updateWithChangeSet vals changes allowDeletes <> Panic.
Proof.
  intros Hwf. destruct changes as [|c changes]; [done|].
  destruct (update_cases vals (c :: changes) allowDeletes Hwf) as [[e E]|(v & E & _)];
    [done|by rewrite E..].
Qed.

(** C23: the rotation by one round succeeds on a non-empty well-formed set and
    keeps it well-formed; only priorities change, their sum stays in [0, n), and
    the new priorities are those of a reference: the old ones, divided by the same
    number when two of them are further apart than twice the total power, less their
    mean, plus the power of each validator; and the new proposer is the validator
    with the highest of these (smallest address on a tie), which pays the total. *)
Theorem rotation_elects_first (vals : ValidatorSet) :
  wf vals -> Validators vals <> [] ->
  exists vals', IncrementProposerPriority vals 1 = Ok vals' /\ increment_spec vals vals'.
Proof. apply increment_ok. Qed.

(** The binary search by address finds what a scan of the sorted list finds,
    at the index where it is. *)
Theorem GetByAddress_is_scan (vals : ValidatorSet) (a : string) :
  wf vals ->
  match GetByAddress vals a with
  | Some (i, v) => Validators vals !! i = Some v /\ vaddr v = FormatAddress a
  | None => forall v, v ∈ Validators vals -> vaddr v <> FormatAddress a
  end.
Proof.
  intros Hwf. pose proof (search_by_find vaddr (FormatAddress a) _ (wf_sorted _ Hwf)) as H.
  unfold GetByAddress. destruct (search_by _ _ _) as [[i v]|].
  - destruct H as [Hi H]. by apply find_by_Some in H as [_ ?].
  - intros v Hv E. apply find_by_None in H. apply H. rewrite <- E. by apply (list_elem_of_fmap_2 vaddr).
Qed.

(** The clipping operations are addition and subtraction saturated at the
    int64 bounds. *)
Theorem safe_arithmetic_saturates (a b : Z) :
  in_i64 a -> in_i64 b ->
  safeAddClip a b = Z.max MinInt64 (Z.min MaxInt64 (a + b)) /\
  safeSubClip a b = Z.max MinInt64 (Z.min MaxInt64 (a - b)).
Proof. intros. split; [by apply safeAddClip_clamp | by apply safeSubClip_clamp]. Qed.

(** ** Witnesses *)

Definition demo_validator (a : string) (power : Z) : Validator :=
  NewValidator 1 0 0 0 power [] a.
Definition demo_set : ValidatorSet :=
  {| Validators := [demo_validator "0xaa" 7; demo_validator "0xBB" 10; demo_validator "0xcc" 3];
     Proposer := None; TotalVotingPower := 0 |}.
Definition demo_changes : list Validator :=
  [demo_validator "0xcc" 0; demo_validator "0xab" 5; demo_validator "0xbb" 12].

Lemma demo_set_wf : wf demo_set.
Proof. apply wf_check_sound. reflexivity. Qed.

Lemma update_refines_power_map_witness :
  exists vals', updateWithChangeSet demo_set demo_changes true = Ok vals' /\
    power_at "0xbb" (Validators vals') = 12.
Proof.
  destruct (updateWithChangeSet demo_set demo_changes true) as [v|e|] eqn:E;
    [|vm_compute in E; discriminate E..].
  exists v. split; [reflexivity|].
  rewrite (proj2 (update_refines_power_map demo_set demo_changes true v demo_set_wf E)). reflexivity.
Defined.

Lemma demo_applicable : applicable demo_set demo_changes.
Proof.
  split.
  - apply (bool_decide_unpack _). vm_compute. exact I.
  - apply (bool_decide_unpack _). vm_compute. exact I.
  - apply (bool_decide_unpack _). vm_compute. exact I.
  - vm_compute. discriminate.
  - intros c Hc E0. apply list_elem_of_In in Hc. cbn in Hc.
    destruct Hc as [<-|[<-|[<-|[]]]]; cbn in E0; try discriminate E0. vm_compute. eauto.
  - exists "0xab"%string. vm_compute. reflexivity.
Qed.

Lemma update_applicable_succeeds_witness : is_ok (UpdateWithChangeSet demo_set demo_changes) = true.
Proof. exact (update_applicable_succeeds demo_set demo_changes demo_set_wf demo_applicable). Defined.

Lemma update_never_panics_witness : updateWithChangeSet demo_set demo_changes false <> Panic.
Proof. exact (update_never_panics demo_set demo_changes false demo_set_wf). Defined.

Lemma rotation_elects_first_witness :
  exists vals', IncrementProposerPriority demo_set 1 = Ok vals' /\ increment_spec demo_set vals'.
Proof. apply (rotation_elects_first demo_set demo_set_wf). discriminate. Defined.

Lemma GetByAddress_is_scan_witness :
  match GetByAddress demo_set "0XbB" with
  | Some (i, v) => Validators demo_set !! i = Some v /\ vaddr v = FormatAddress "0XbB"
  | None => forall v, v ∈ Validators demo_set -> vaddr v <> FormatAddress "0XbB"
  end.
Proof. exact (GetByAddress_is_scan demo_set "0XbB" demo_set_wf). Defined.

Lemma safe_arithmetic_saturates_witness :
  safeAddClip MaxInt64 1 = MaxInt64 /\ safeSubClip MinInt64 1 = MinInt64.
Proof.
  split.
  - rewrite (proj1 (safe_arithmetic_saturates MaxInt64 1 ltac:(i64_solve) ltac:(i64_solve))). reflexivity.
  - rewrite (proj2 (safe_arithmetic_saturates MinInt64 1 ltac:(i64_solve) ltac:(i64_solve))). reflexivity.
Defined.
