(* ===== verification/VoteTypes.v ===== *)
(** * Vote extensions

    The data of [sidetxs/vote_ext.pb.go] and of the consensus engine's vote
    infos, and the text and number encodings used as map keys.  Unmarshalling is
    an interface, which the generated code modelled in [VoteCodec.v] implements. *)
From S2P Require Import Prelude SortedList Helpers External.
#[local] Open Scope Z_scope.

(** ** Encodings *)

(** [common.Bytes2Hex] *)
Definition hex_digit (n : N) : ascii :=
  ascii_of_N (if (n <? 10)%N then 48 + n else 87 + n).
Fixpoint Bytes2Hex (b : bytes) : string :=
  match b with
  | [] => ""
  | x :: b' => String (hex_digit (Byte.to_N x / 16)) (String (hex_digit (Byte.to_N x mod 16)) (Bytes2Hex b'))
  end.

(** [common.FromHex]: an optional prefix, a missing digit, and the digits up to the
    first one that is not a hex digit ([hex.DecodeString]). *)
Definition hex_value (a : ascii) : option N :=
  let n := N_of_ascii a in
  if (48 <=? n)%N && (n <=? 57)%N then Some (n - 48)%N
  else if (97 <=? n)%N && (n <=? 102)%N then Some (n - 87)%N
  else if (65 <=? n)%N && (n <=? 70)%N then Some (n - 55)%N else None.
Fixpoint Hex2Bytes (s : string) : bytes :=
  match s with
  | String a (String b s') =>
      match hex_value a, hex_value b with
      | Some x, Some y =>
          match Byte.of_N (16 * x + y) with Some c => c :: Hex2Bytes s' | None => [] end
      | _, _ => []
      end
  | _ => []
  end.
Definition FromHex (s : string) : bytes :=
  let s := match s with
           | String a (String b s') => if Ascii.eqb a "0" && (Ascii.eqb b "x" || Ascii.eqb b "X") then s' else s
           | _ => s
           end in
  Hex2Bytes (if Nat.odd (String.length s) then String "0" s else s).

(** [common.BytesToHash]: cropped from the left or padded. *)
Definition BytesToHash (b : bytes) : bytes :=
  if (HashLength <? length b)%nat then drop (length b - HashLength) b
  else repeat Byte.x00 (HashLength - length b) ++ b.
Definition HexToHash (s : string) : bytes := BytesToHash (FromHex s).

#[export] Program Instance byte_countable : Countable Byte.byte :=
  inj_countable Byte.to_N Byte.of_N _.
Next Obligation. apply Byte.of_to_N. Qed.

(** A little-endian uint64 (encoding/binary). *)
Definition byte_of_Z (z : Z) : Byte.byte :=
  match Byte.of_N (Z.to_N (z mod 256)) with Some b => b | None => Byte.x00 end.
Fixpoint le_encode (n : nat) (z : Z) : bytes :=
  match n with O => [] | S n => byte_of_Z z :: le_encode n (z / 256) end.
Fixpoint le_decode (b : bytes) : Z :=
  match b with [] => 0 | x :: b' => Z.of_N (Byte.to_N x) + 256 * le_decode b' end.
Definition le64 (z : Z) : bytes := le_encode 8 z.

(** ** Data *)

Record MilestoneProposition := {
  BlockHashes : list bytes;
  StartBlockNumber : Z;      (* uint64 *)
  ParentHash : bytes;
  BlockTds : list Z;         (* uint64 *)
  LatestBlockNumber : Z;     (* uint64 *)
  LatestBlockHash : bytes;
}.
(** [Result] is the number of a [Vote]; the decoder accepts any int32. *)
Record SideTxResponse := { TxHash : bytes; Result : Z }.
Record VoteExtension := {
  vx_BlockHash : option bytes;   (* None: nil *)
  vx_Height : Z;             (* int64 *)
  SideTxResponses : list SideTxResponse;
  vx_MilestoneProposition : option MilestoneProposition;
}.

Inductive BlockIDFlag := BlockIDFlagUnknown | BlockIDFlagAbsent | BlockIDFlagCommit | BlockIDFlagNil.
#[export] Instance flag_eq_dec : EqDecision BlockIDFlag.
Proof. solve_decision. Defined.

Record ExtendedVoteInfo := {
  vi_Address : bytes;
  vi_Power : Z;              (* int64 *)
  vi_Flag : BlockIDFlag;
  vi_VoteExtension : bytes;
  vi_ExtensionSignature : bytes;
  vi_NonRpVoteExtension : bytes;
  vi_NonRpExtensionSignature : bytes;
}.

(** The generated decoder, and the strict check for unknown fields
    ([unknownproto.RejectUnknownFieldsStrict], behind [rejectUnknownVoteExtFields]). *)
Class VoteCodec := {
  unmarshal_ve : bytes -> option VoteExtension;
  has_unknown_fields : bytes -> bool;
}.

(** ** Facts about the encodings *)

Lemma hex_digit_inj a b : (a < 16)%N -> (b < 16)%N -> hex_digit a = hex_digit b -> a = b.
Proof.
  intros Ha Hb. unfold hex_digit. intros E%(f_equal N_of_ascii).
  rewrite !N_ascii_embedding in E by (repeat case_match; lia).
  repeat case_match; lia.
Qed.

Lemma byte_lt_256 x : (Byte.to_N x < 256)%N.
Proof. destruct x; vm_compute; reflexivity. Qed.

Lemma Bytes2Hex_inj a b : Bytes2Hex a = Bytes2Hex b -> a = b.
Proof.
  revert b. induction a as [|x a IH]; intros [|y b]; cbn; try done. intros [= H1 H2 H3].
  pose proof (byte_lt_256 x). pose proof (byte_lt_256 y).
  apply hex_digit_inj in H1; [|apply N.Div0.div_lt_upper_bound; lia..].
  apply hex_digit_inj in H2; [|by apply N.mod_upper_bound..].
  assert (x = y) as ->.
  { assert (Byte.to_N x = Byte.to_N y) as E.
    { rewrite (N.div_mod (Byte.to_N x) 16), (N.div_mod (Byte.to_N y) 16) by done. congruence. }
    pose proof (Byte.of_to_N x) as Ex. rewrite E, Byte.of_to_N in Ex. by injection Ex. }
  f_equal. by apply IH.
Qed.

Lemma to_N_byte_of_Z z : Z.of_N (Byte.to_N (byte_of_Z z)) = z mod 256.
Proof.
  unfold byte_of_Z. pose proof (Z.mod_pos_bound z 256 ltac:(lia)).
  destruct (Byte.of_N (Z.to_N (z mod 256))) as [b|] eqn:E.
  - apply Byte.to_of_N in E. rewrite E. lia.
  - apply Byte.of_N_None_iff in E. lia.
Qed.

Lemma length_le_encode n z : length (le_encode n z) = n.
Proof. revert z. induction n; intros z; cbn; [done|]. by f_equal. Qed.

Lemma le_decode_encode n z : 0 <= z < 256 ^ Z.of_nat n -> le_decode (le_encode n z) = z.
Proof.
  revert z. induction n as [|n IH]; intros z Hz; cbn [le_encode le_decode]; [cbn in Hz; lia|].
  rewrite to_N_byte_of_Z, IH.
  - pose proof (Z.div_mod z 256). lia.
  - rewrite Nat2Z.inj_succ, Z.pow_succ_r in Hz by lia.
    split; [apply Z.div_pos; lia | apply Z.div_lt_upper_bound; lia].
Qed.

Lemma le64_decode z : in_u64 z -> le_decode (le64 z) = z.
Proof. unfold in_u64, MaxUint64. intros. apply le_decode_encode. cbn. lia. Qed.

Lemma le64_inj a b : in_u64 a -> in_u64 b -> le64 a = le64 b -> a = b.
Proof. intros Ha Hb E. rewrite <- (le64_decode a Ha), <- (le64_decode b Hb). by rewrite E. Qed.

Lemma hex_value_digit n : (n < 16)%N -> hex_value (hex_digit n) = Some n.
Proof.
  intros Hn. rewrite <- (N2Nat.id n) in *. destruct (N.to_nat n) as [|k]; [done|].
  do 15 (destruct k as [|k]; [done|]). lia.
Qed.

Lemma Hex2Bytes_Bytes2Hex b : Hex2Bytes (Bytes2Hex b) = b.
Proof.
  induction b as [|x b IH]; [done|]. cbn [Bytes2Hex Hex2Bytes]. pose proof (byte_lt_256 x).
  rewrite !hex_value_digit by (try apply N.Div0.div_lt_upper_bound; try apply N.mod_upper_bound; lia).
  replace (16 * (Byte.to_N x / 16) + Byte.to_N x mod 16)%N with (Byte.to_N x) by (apply N.div_mod; lia).
  by rewrite Byte.of_to_N, IH.
Qed.

Lemma length_Bytes2Hex b : String.length (Bytes2Hex b) = (2 * length b)%nat.
Proof. induction b as [|x b IH]; cbn; [done|]. rewrite IH. lia. Qed.

Lemma hex_digit_no_x n : (n < 16)%N -> hex_digit n <> "x"%char /\ hex_digit n <> "X"%char.
Proof.
  intros Hn. pose proof (hex_value_digit n Hn) as E. split; intros E'; rewrite E' in E; discriminate E.
Qed.

Lemma FromHex_Bytes2Hex b : FromHex (Bytes2Hex b) = b.
Proof.
  unfold FromHex.
  assert (match Bytes2Hex b with
          | String x (String y s') => if Ascii.eqb x "0" && (Ascii.eqb y "x" || Ascii.eqb y "X") then s' else Bytes2Hex b
          | _ => Bytes2Hex b
          end = Bytes2Hex b) as ->.
  { destruct b as [|x b]; [done|]. cbn [Bytes2Hex].
    destruct (hex_digit_no_x (Byte.to_N x mod 16)) as [H1 H2]; [by apply N.mod_upper_bound|].
    rewrite (proj2 (Ascii.eqb_neq _ _) H1), (proj2 (Ascii.eqb_neq _ _) H2). by rewrite andb_false_r. }
  rewrite length_Bytes2Hex. replace (Nat.odd (2 * length b)) with false; [apply Hex2Bytes_Bytes2Hex|].
  symmetry. rewrite <- Nat.negb_even. by rewrite Nat.even_mul.
Qed.
