(* ===== verification/StakeKeeper.v ===== *)
(** * The stake module's keeper

    Models [x/stake/keeper/validator.go] and the last-block part of
    [keeper.go].  The store is finite maps; reading and writing it does not
    fail except that a missing key is an error.  The acknowledgement count
    comes from the checkpoint keeper and is an argument. *)
From S2P Require Import Prelude SortedList Helpers External ValidatorSet.
#[local] Open Scope Z_scope.

Record StakeState := {
  validators : gmap string Validator;     (* ValidatorsKey: by formatted signer *)
  signer : gmap Z string;                 (* SignerKey: validator id to signer *)
  sequences : gset string;                (* StakeSequenceKey *)
  validatorSet : option ValidatorSet;     (* CurrentValidatorSetKey *)
  previousSet : option ValidatorSet;      (* PreviousBlockValidatorSetKey *)
  penultimateSet : option ValidatorSet;   (* PenultimateBlockValidatorSetKey *)
  lastBlockTxs : option (list bytes);     (* LastBlockTxsKey *)
}.

Definition set_validators (s : StakeState) m : StakeState :=
  {| validators := m; signer := signer s; sequences := sequences s;
     validatorSet := validatorSet s; previousSet := previousSet s;
     penultimateSet := penultimateSet s; lastBlockTxs := lastBlockTxs s |}.
Definition set_signer (s : StakeState) m : StakeState :=
  {| validators := validators s; signer := m; sequences := sequences s;
     validatorSet := validatorSet s; previousSet := previousSet s;
     penultimateSet := penultimateSet s; lastBlockTxs := lastBlockTxs s |}.
Definition set_sequences (s : StakeState) m : StakeState :=
  {| validators := validators s; signer := signer s; sequences := m;
     validatorSet := validatorSet s; previousSet := previousSet s;
     penultimateSet := penultimateSet s; lastBlockTxs := lastBlockTxs s |}.
Definition set_sets (s : StakeState) cur prev pen : StakeState :=
  {| validators := validators s; signer := signer s; sequences := sequences s;
     validatorSet := cur; previousSet := prev;
     penultimateSet := pen; lastBlockTxs := lastBlockTxs s |}.
Definition SetLastBlockTxs (s : StakeState) (txs : list bytes) : StakeState :=
  {| validators := validators s; signer := signer s; sequences := sequences s;
     validatorSet := validatorSet s; previousSet := previousSet s;
     penultimateSet := penultimateSet s; lastBlockTxs := Some txs |}.
Definition GetLastBlockTxs (s : StakeState) : outcome (list bytes) :=
  of_option ErrNotFound (lastBlockTxs s).

(** ** Validators *)

Definition SetValidatorIDToSignerAddr (s : StakeState) (valID : Z) (signerAddr : string) : StakeState :=
  set_signer s (<[valID := FormatAddress signerAddr]> (signer s)).

Definition AddValidator (s : StakeState) (validator : Validator) : StakeState :=
  let s := set_validators s (<[FormatAddress (Signer validator) := validator]> (validators s)) in
  SetValidatorIDToSignerAddr s (ValId validator) (Signer validator).

Definition GetValidatorInfo (s : StakeState) (address : string) : outcome Validator :=
  of_option ErrNotFound (validators s !! FormatAddress address).

Definition IsCurrentValidatorByAddress (s : StakeState) (ackCount : Z) (address : string) : outcome bool :=
  validator ← GetValidatorInfo s (FormatAddress address);
  Ok (IsCurrentValidator validator ackCount).

Definition GetActiveValidatorInfo (s : StakeState) (ackCount : Z) (address : string) : outcome Validator :=
  validator ← GetValidatorInfo s (FormatAddress address);
  return_if negb (IsCurrentValidator validator ackCount) with ErrText "validator is not active" ;;
  Ok validator.

(** The iterator of the store visits the validators in the order of their keys. *)
Definition GetAllValidators (s : StakeState) : list Validator :=
  map snd (sort_by fst (map_to_list (validators s))).
Definition GetCurrentValidators (s : StakeState) (ackCount : Z) : list Validator :=
  List.filter (fun v => IsCurrentValidator v ackCount) (GetAllValidators s).
Definition GetSpanEligibleValidators (s : StakeState) (ackCount : Z) : list Validator :=
  List.filter (fun v => (EndEpoch v =? 0) && IsCurrentValidator v ackCount) (GetAllValidators s).

(** [UpdateSigner] *)
Definition UpdateSigner (s : StakeState) (newSigner : string) (newPubKey : bytes)
    (prevSigner : string) : outcome StakeState :=
  validator ← GetValidatorInfo s (FormatAddress prevSigner);
  let validatorPower := VotingPower validator in
  let validator := with_power validator 0 in
  let s := AddValidator s validator in
  let validator :=
    {| ValId := ValId validator; StartEpoch := StartEpoch validator; EndEpoch := EndEpoch validator;
       Nonce := Nonce validator; VotingPower := validatorPower; PubKey := newPubKey;
       Signer := newSigner; LastUpdated := LastUpdated validator; Jailed := Jailed validator;
       ProposerPriority := ProposerPriority validator |} in
  Ok (AddValidator s validator).

Definition GetSignerFromValidatorID (s : StakeState) (valID : Z) : outcome string :=
  of_option ErrNotFound (signer s !! valID).
Definition DoesValIdExist (s : StakeState) (valID : Z) : bool :=
  bool_decide (is_Some (signer s !! valID)).
Definition GetValidatorFromValID (s : StakeState) (valID : Z) : outcome Validator :=
  signerAddr ← GetSignerFromValidatorID s valID;
  GetValidatorInfo s signerAddr.
Definition GetLastUpdated (s : StakeState) (valID : Z) : outcome string :=
  validator ← GetValidatorFromValID s valID; Ok (LastUpdated validator).

Definition GetValIdFromAddress (s : StakeState) (ackCount : Z) (address : string) : outcome Z :=
  validator ← GetValidatorInfo s (FormatAddress address);
  return_if negb (IsCurrentValidator validator ackCount)
    with ErrText "address not found in current validator set" ;;
  Ok (ValId validator).

(** ** Staking sequences *)

Definition SetStakingSequence (s : StakeState) (sequence : string) : StakeState :=
  set_sequences s ({[sequence]} ∪ sequences s).
Definition HasStakingSequence (s : StakeState) (sequence : string) : bool :=
  bool_decide (sequence ∈ sequences s).
#[export] Instance stake_sequence_checker : SequenceChecker StakeState := HasStakingSequence.
Definition GetStakingSequences (s : StakeState) : list string :=
  sort_by id (elements (sequences s)).

(** ** Validator sets *)

Definition UpdateValidatorSetInStore (s : StakeState) (vs : ValidatorSet) : StakeState :=
  set_sets s (Some vs) (previousSet s) (penultimateSet s).
Definition GetValidatorSet (s : StakeState) : outcome ValidatorSet :=
  of_option ErrNotFound (validatorSet s).
Definition UpdatePreviousBlockValidatorSetInStore (s : StakeState) (vs : ValidatorSet) : StakeState :=
  set_sets s (validatorSet s) (Some vs) (penultimateSet s).
Definition GetPreviousBlockValidatorSet (s : StakeState) : outcome ValidatorSet :=
  of_option ErrNotFound (previousSet s).
Definition UpdatePenultimateBlockValidatorSetInStore (s : StakeState) (vs : ValidatorSet) : StakeState :=
  set_sets s (validatorSet s) (previousSet s) (Some vs).
Definition GetPenultimateBlockValidatorSet (s : StakeState) : outcome ValidatorSet :=
  of_option ErrNotFound (penultimateSet s).

(** [IncrementAccum] *)
Definition IncrementAccum (s : StakeState) (times : Z) : outcome StakeState :=
  vs ← GetValidatorSet s;
  vs ← IncrementProposerPriority vs times;
  Ok (UpdateValidatorSetInStore s vs).

(** [GetNextProposer], [GetCurrentProposer]: [None] when the set is not stored. *)
Definition GetNextProposer (s : StakeState) : outcome (option Validator) :=
  match GetValidatorSet s with
  | Ok vs => vs ← CopyIncrementProposerPriority vs 1; r ← GetProposer vs; Ok r.1
  | Err _ => Ok None
  | Panic => Panic
  end.
Definition GetCurrentProposer (s : StakeState) : outcome (option Validator) :=
  match GetValidatorSet s with
  | Ok vs => r ← GetProposer vs; Ok r.1
  | Err _ => Ok None
  | Panic => Panic
  end.

(** [IterateCurrentValidatorsAndApplyFn] with the function [GetTotalPower] gives it. *)
Definition GetTotalPower (s : StakeState) : outcome Z :=
  vs ← GetValidatorSet s;
  Ok (foldl (fun total v => i64 (total + VotingPower v)) 0 (Validators vs)).

(** [ApplyAndReturnValidatorSetUpdates]: the end-of-block update.  A validator
    whose key the consensus library rejects ([cmt_pub_key]) is left out of the
    answer.  The code rotates the updated set after storing it; the rotated
    value is not stored. *)
Definition ApplyAndReturnValidatorSetUpdates {PK : Type} (cmt_pub_key : bytes -> option PK)
    (cfg : Config) (ctx : Ctx) (ackCount : Z) (s : StakeState)
    : outcome (list (Z * PK) * StakeState) :=
  currentValidatorSet ← GetValidatorSet s;
  s ← (if i64 (tallyFixHeight cfg - 1) <=? BlockHeight ctx then
         previousValidatorSet ← GetPreviousBlockValidatorSet s;
         Ok (UpdatePenultimateBlockValidatorSetInStore s previousValidatorSet)
       else Ok s);
  let s := UpdatePreviousBlockValidatorSetInStore s currentValidatorSet in
  let setUpdates := GetUpdatedValidators currentValidatorSet (GetAllValidators s) ackCount in
  match setUpdates with
  | [] => Ok ([], s)
  | _ =>
      newSet ← UpdateWithChangeSet currentValidatorSet setUpdates;
      let s := UpdateValidatorSetInStore s newSet in
      IncrementProposerPriority newSet 1 ≫= fun _ =>
      Ok (flat_map (fun v => match cmt_pub_key (PubKey v) with
                             | Some pk => [(VotingPower v, pk)]
                             | None => []
                             end) setUpdates, s)
  end.
