(* ===== verification/StakeHandlers.v ===== *)
(** * The stake module's messages

    Models [x/stake/types/msg.go] (basic validation), [x/stake/keeper/msg_server.go]
    and [x/stake/keeper/side_msg_server.go].  A message goes through three
    phases: the message server checks it when its block is executed, the side
    handler of each validator compares it with the event on the main chain and
    votes, and the post-handler applies it when the votes approved it.  Logging,
    metrics and events are left out; a type mismatch of the message cannot be
    expressed. *)
From S2P Require Import Prelude SortedList Helpers External ValidatorSet StakeKeeper.
#[local] Open Scope Z_scope.

Record MsgValidatorJoin := {
  vj_From : string;
  vj_ValId : Z;
  vj_ActivationEpoch : Z;
  vj_Amount : Z;                       (* math.Int *)
  vj_SignerPubKey : option bytes;      (* None: nil *)
  vj_TxHash : bytes;
  vj_LogIndex : Z;
  vj_BlockNumber : Z;
  vj_Nonce : Z;
}.
Record MsgStakeUpdate := {
  su_From : string;
  su_ValId : Z;
  su_NewAmount : Z;
  su_TxHash : bytes;
  su_LogIndex : Z;
  su_BlockNumber : Z;
  su_Nonce : Z;
}.
Record MsgSignerUpdate := {
  sg_From : string;
  sg_ValId : Z;
  sg_NewSignerPubKey : option bytes;
  sg_TxHash : bytes;
  sg_LogIndex : Z;
  sg_BlockNumber : Z;
  sg_Nonce : Z;
}.
Record MsgValidatorExit := {
  ve_From : string;
  ve_ValId : Z;
  ve_DeactivationEpoch : Z;
  ve_TxHash : bytes;
  ve_LogIndex : Z;
  ve_BlockNumber : Z;
  ve_Nonce : Z;
}.

(** The events of the staking contract, as the contract caller decodes them; the
    numbers are big integers and the signer is the text of the address. *)
Record StakingInfoStaked := {
  st_ValidatorId : Z; st_ActivationEpoch : Z; st_Amount : Z;
  st_Signer : string; st_SignerPubkey : bytes; st_Nonce : Z;
}.
Record StakingInfoStakeUpdate := { sue_ValidatorId : Z; sue_NewAmount : Z; sue_Nonce : Z }.
Record StakingInfoSignerChange := {
  sc_ValidatorId : Z; sc_NewSigner : string; sc_SignerPubkey : bytes; sc_Nonce : Z;
}.
Record StakingInfoUnstakeInit := { ui_ValidatorId : Z; ui_DeactivationEpoch : Z; ui_Nonce : Z }.

(** The decoders of the contract caller ([None]: an error or no event). *)
Class StakeEvents {RS : ReceiptSource} := {
  DecodeValidatorJoinEvent : string -> Receipt -> Z -> option StakingInfoStaked;
  DecodeValidatorStakeUpdateEvent : string -> Receipt -> Z -> option StakingInfoStakeUpdate;
  DecodeSignerUpdateEvent : string -> Receipt -> Z -> option StakingInfoSignerChange;
  DecodeValidatorExitEvent : string -> Receipt -> Z -> option StakingInfoUnstakeInit;
}.

Section handlers.
Context {AC : AddressCodec}.

(** ** Basic validation *)

(** The sender check the four messages share. *)
Definition valid_from (from : string) : outcome unit :=
  match StringToBytes from with
  | Ok addr => return_if bool_decide (addr = []) with ErrInvalidMsg ;; Ok tt
  | Err _ => Err ErrInvalidMsg
  | Panic => Panic
  end.

Definition ValidateBasic_ValidatorJoin (msg : MsgValidatorJoin) : outcome unit :=
  return_if vj_ValId msg =? 0 with ErrInvalidMsg ;;
  valid_from (vj_From msg) ≫= fun _ =>
  return_if bool_decide (vj_SignerPubKey msg = None) with ErrInvalidMsg ;;
  return_if bool_decide (vj_SignerPubKey msg = Some EmptyPubKey) with ErrInvalidMsg ;;
  return_if vj_Amount msg <=? 0 with ErrInvalidMsg ;;
  return_if negb (length (vj_TxHash msg) =? HashLength)%nat with ErrInvalidMsg ;;
  Ok tt.

Definition ValidateBasic_StakeUpdate (msg : MsgStakeUpdate) : outcome unit :=
  return_if su_ValId msg =? 0 with ErrInvalidMsg ;;
  valid_from (su_From msg) ≫= fun _ =>
  return_if su_NewAmount msg <=? 0 with ErrInvalidMsg ;;
  return_if negb (length (su_TxHash msg) =? HashLength)%nat with ErrInvalidMsg ;;
  Ok tt.

Definition ValidateBasic_SignerUpdate (msg : MsgSignerUpdate) : outcome unit :=
  return_if sg_ValId msg =? 0 with ErrInvalidMsg ;;
  valid_from (sg_From msg) ≫= fun _ =>
  return_if bool_decide (sg_NewSignerPubKey msg = None) with ErrInvalidMsg ;;
  return_if bool_decide (sg_NewSignerPubKey msg = Some EmptyPubKey) with ErrInvalidMsg ;;
  return_if negb (length (sg_TxHash msg) =? HashLength)%nat with ErrInvalidMsg ;;
  Ok tt.

Definition ValidateBasic_ValidatorExit (msg : MsgValidatorExit) : outcome unit :=
  return_if ve_ValId msg =? 0 with ErrInvalidMsg ;;
  valid_from (ve_From msg) ≫= fun _ =>
  return_if negb (length (ve_TxHash msg) =? HashLength)%nat with ErrInvalidMsg ;;
  Ok tt.

(** Bytes of a key field; a nil slice has none. *)
Definition key_bytes (o : option bytes) : bytes := match o with Some k => k | None => [] end.


(** ** The message server

    The type of a secp256k1 key is a constant, so the check of it never
    fails. *)

Definition ErrOldEvents : error := ErrText "old events are not allowed".

Definition ValidatorJoin (s : StakeState) (msg : MsgValidatorJoin) : outcome unit :=
  or_err (ValidateBasic_ValidatorJoin msg) ErrInvalidMsg ≫= fun _ =>
  addr ← must (PubKeyAddress (key_bytes (vj_SignerPubKey msg)));
  signer ← or_err (BytesToString addr) ErrInvalidMsg;
  return_if DoesValIdExist s (vj_ValId msg) with ErrText "val id already exists" ;;
  let signer := FormatAddress signer in
  return_if match GetValidatorInfo s signer with
            | Ok checkVal => String.eqb (FormatAddress (Signer checkVal)) signer
            | _ => false
            end with ErrText "validator already exists" ;;
  or_err (GetPowerFromAmount (vj_Amount msg)) ErrInvalidMsg ≫= fun _ =>
  return_if HasStakingSequence s (CalculateSequence (vj_BlockNumber msg) (vj_LogIndex msg))
    with ErrOldEvents ;;
  Ok tt.

Definition StakeUpdate (s : StakeState) (msg : MsgStakeUpdate) : outcome unit :=
  or_err (ValidateBasic_StakeUpdate msg) ErrInvalidMsg ≫= fun _ =>
  or_err (GetValidatorFromValID s (su_ValId msg)) (ErrText "no validator") ≫= fun _ =>
  return_if HasStakingSequence s (CalculateSequence (su_BlockNumber msg) (su_LogIndex msg))
    with ErrOldEvents ;;
  or_err (GetPowerFromAmount (su_NewAmount msg)) ErrInvalidMsg ≫= fun _ =>
  Ok tt.

Definition SignerUpdate (s : StakeState) (msg : MsgSignerUpdate) : outcome unit :=
  or_err (ValidateBasic_SignerUpdate msg) ErrInvalidMsg ≫= fun _ =>
  addr ← must (PubKeyAddress (key_bytes (sg_NewSignerPubKey msg)));
  newSigner ← or_err (BytesToString addr) ErrInvalidMsg;
  validator ← or_err (GetValidatorFromValID s (sg_ValId msg)) (ErrText "no validator");
  let oldSigner := FormatAddress (Signer validator) in
  return_if HasStakingSequence s (CalculateSequence (sg_BlockNumber msg) (sg_LogIndex msg))
    with ErrOldEvents ;;
  return_if String.eqb newSigner oldSigner with ErrText "no signer change" ;;
  Ok tt.

Definition ValidatorExit (s : StakeState) (msg : MsgValidatorExit) : outcome unit :=
  or_err (ValidateBasic_ValidatorExit msg) ErrInvalidMsg ≫= fun _ =>
  validator ← or_err (GetValidatorFromValID s (ve_ValId msg)) (ErrText "no validator");
  return_if negb (EndEpoch validator =? 0) with ErrText "validator already unBonded" ;;
  return_if HasStakingSequence s (CalculateSequence (ve_BlockNumber msg) (ve_LogIndex msg))
    with ErrOldEvents ;;
  Ok tt.

(** ** The side handlers

    [params] is what the chain-manager keeper answers; [None] is its error. *)
Context {RS : ReceiptSource} {SE : StakeEvents}.

Definition SideHandleMsgValidatorJoin (s : StakeState) (params : option ChainManagerParams)
    (msg : MsgValidatorJoin) : outcome Vote :=
  _ <-no ValidateBasic_ValidatorJoin msg ;;
  vote_no_if DoesValIdExist s (vj_ValId msg) ;;
  vote_no_if negb (ValidateVotingPower (vj_Amount msg)) ;;
  vote_no_if HasStakingSequence s (CalculateSequence (vj_BlockNumber msg) (vj_LogIndex msg)) ;;
  params <-some params ;;
  receipt <-some FetchAndValidateReceipt (vj_TxHash msg) (vj_BlockNumber msg)
                   (MainChainTxConfirmations params) ;;
  eventLog <-some DecodeValidatorJoinEvent (StakingInfoAddress params) receipt (vj_LogIndex msg) ;;
  let pk := key_bytes (vj_SignerPubKey msg) in
  vote_no_if negb (length pk =? PubKeySize)%nat ;;
  addr <-no must (PubKeyAddress pk) ;;
  signerBytes <-no StringToBytes (AddressString addr) ;;
  eventLogSignerBytes <-no StringToBytes (st_Signer eventLog) ;;
  vote_no_if negb (bool_decide (signerBytes = eventLogSignerBytes)) ;;
  vote_no_if negb (IsPubKeyFirstByteValid (take 1 pk)) ;;
  vote_no_if negb (bool_decide (drop 1 pk = st_SignerPubkey eventLog)) ;;
  vote_no_if negb (u64 (st_ValidatorId eventLog) =? vj_ValId msg) ;;
  vote_no_if negb (u64 (st_ActivationEpoch eventLog) =? vj_ActivationEpoch msg) ;;
  vote_no_if negb (st_Amount eventLog =? vj_Amount msg) ;;
  vote_no_if negb (u64 (ReceiptBlockNumber receipt) =? vj_BlockNumber msg) ;;
  vote_no_if negb (u64 (st_Nonce eventLog) =? vj_Nonce msg) ;;
  Ok VOTE_YES.

Definition SideHandleMsgStakeUpdate (s : StakeState) (params : option ChainManagerParams)
    (msg : MsgStakeUpdate) : outcome Vote :=
  _ <-no ValidateBasic_StakeUpdate msg ;;
  _ <-no GetValidatorFromValID s (su_ValId msg) ;;
  vote_no_if HasStakingSequence s (CalculateSequence (su_BlockNumber msg) (su_LogIndex msg)) ;;
  vote_no_if negb (ValidateVotingPower (su_NewAmount msg)) ;;
  params <-some params ;;
  receipt <-some FetchAndValidateReceipt (su_TxHash msg) (su_BlockNumber msg)
                   (MainChainTxConfirmations params) ;;
  eventLog <-some DecodeValidatorStakeUpdateEvent (StakingInfoAddress params) receipt
                    (su_LogIndex msg) ;;
  vote_no_if negb (u64 (sue_ValidatorId eventLog) =? su_ValId msg) ;;
  vote_no_if negb (sue_NewAmount eventLog =? su_NewAmount msg) ;;
  vote_no_if negb (u64 (sue_Nonce eventLog) =? su_Nonce msg) ;;
  Ok VOTE_YES.

Definition SideHandleMsgSignerUpdate (s : StakeState) (params : option ChainManagerParams)
    (msg : MsgSignerUpdate) : outcome Vote :=
  _ <-no ValidateBasic_SignerUpdate msg ;;
  params <-some params ;;
  validator <-no GetValidatorFromValID s (sg_ValId msg) ;;
  let oldSigner := FormatAddress (Signer validator) in
  vote_no_if HasStakingSequence s (CalculateSequence (sg_BlockNumber msg) (sg_LogIndex msg)) ;;
  receipt <-some FetchAndValidateReceipt (sg_TxHash msg) (sg_BlockNumber msg)
                   (MainChainTxConfirmations params) ;;
  eventLog <-some DecodeSignerUpdateEvent (StakingInfoAddress params) receipt (sg_LogIndex msg) ;;
  vote_no_if negb (u64 (sc_ValidatorId eventLog) =? sg_ValId msg) ;;
  let pk := key_bytes (sg_NewSignerPubKey msg) in
  vote_no_if negb (length pk =? PubKeySize)%nat ;;
  vote_no_if negb (IsPubKeyFirstByteValid (take 1 pk)) ;;
  vote_no_if negb (bool_decide (sc_SignerPubkey eventLog = drop 1 pk)) ;;
  newSigner <-no must (PubKeyAddress pk) ;;
  signerBytes <-no StringToBytes (AddressString newSigner) ;;
  vote_no_if String.eqb (AddressString newSigner) oldSigner ;;
  eventLogSignerBytes <-no StringToBytes (sc_NewSigner eventLog) ;;
  vote_no_if negb (bool_decide (signerBytes = eventLogSignerBytes)) ;;
  vote_no_if negb (u64 (sc_Nonce eventLog) =? sg_Nonce msg) ;;
  Ok VOTE_YES.

Definition SideHandleMsgValidatorExit (s : StakeState) (params : option ChainManagerParams)
    (msg : MsgValidatorExit) : outcome Vote :=
  _ <-no ValidateBasic_ValidatorExit msg ;;
  validator <-no GetValidatorFromValID s (ve_ValId msg) ;;
  vote_no_if negb (EndEpoch validator =? 0) ;;
  vote_no_if HasStakingSequence s (CalculateSequence (ve_BlockNumber msg) (ve_LogIndex msg)) ;;
  params <-some params ;;
  receipt <-some FetchAndValidateReceipt (ve_TxHash msg) (ve_BlockNumber msg)
                   (MainChainTxConfirmations params) ;;
  eventLog <-some DecodeValidatorExitEvent (StakingInfoAddress params) receipt (ve_LogIndex msg) ;;
  vote_no_if negb (u64 (ui_ValidatorId eventLog) =? ve_ValId msg) ;;
  vote_no_if negb (u64 (ui_DeactivationEpoch eventLog) =? ve_DeactivationEpoch msg) ;;
  vote_no_if negb (u64 (ui_Nonce eventLog) =? ve_Nonce msg) ;;
  Ok VOTE_YES.

(** ** The post-handlers *)

Definition ErrSideTxRejected : error := ErrText "side-tx was not approved".
Definition ErrInvalidSideTxMsg : error := ErrText "invalid side-tx message".
Definition ErrIncorrectNonce : error := ErrText "incorrect nonce".

(** [pk.Address().String()] of the signer in a message. *)
Definition signer_of_key (pk : bytes) : outcome string :=
  addr ← must (PubKeyAddress pk); Ok (FormatAddress (AddressString addr)).

Definition PostHandleMsgValidatorJoin (s : StakeState) (msg : MsgValidatorJoin)
    (sideTxResult : Vote) : outcome StakeState :=
  return_if negb (IsSideTxApproved sideTxResult) with ErrSideTxRejected ;;
  or_err (ValidateBasic_ValidatorJoin msg) ErrInvalidSideTxMsg ≫= fun _ =>
  let sequence := CalculateSequence (vj_BlockNumber msg) (vj_LogIndex msg) in
  return_if HasStakingSequence s sequence with ErrOldEvents ;;
  signer ← signer_of_key (key_bytes (vj_SignerPubKey msg));
  votingPower ← GetPowerFromAmount (vj_Amount msg);
  let newValidator :=
    {| ValId := vj_ValId msg; StartEpoch := vj_ActivationEpoch msg; EndEpoch := 0;
       Nonce := vj_Nonce msg; VotingPower := i64 votingPower;
       PubKey := key_bytes (vj_SignerPubKey msg); Signer := signer; LastUpdated := sequence;
       Jailed := false; ProposerPriority := 0 |} in
  let s := AddValidator s newValidator in
  Ok (SetStakingSequence s sequence).

Definition PostHandleMsgStakeUpdate (cfg : Config) (ctx : Ctx) (s : StakeState)
    (msg : MsgStakeUpdate) (sideTxResult : Vote) : outcome StakeState :=
  return_if negb (IsSideTxApproved sideTxResult) with ErrSideTxRejected ;;
  or_err (ValidateBasic_StakeUpdate msg) ErrInvalidSideTxMsg ≫= fun _ =>
  let sequence := CalculateSequence (su_BlockNumber msg) (su_LogIndex msg) in
  return_if HasStakingSequence s sequence with ErrOldEvents ;;
  validator ← GetValidatorFromValID s (su_ValId msg);
  return_if negb (su_Nonce msg =? u64 (Nonce validator + 1)) with ErrIncorrectNonce ;;
  power ← (if IsZurichHardfork cfg (BlockHeight ctx) && negb (EndEpoch validator =? 0) then Ok 0
           else p ← GetPowerFromAmount (su_NewAmount msg); Ok (i64 p));
  let validator :=
    {| ValId := ValId validator; StartEpoch := StartEpoch validator; EndEpoch := EndEpoch validator;
       Nonce := su_Nonce msg; VotingPower := power; PubKey := PubKey validator;
       Signer := Signer validator; LastUpdated := sequence; Jailed := Jailed validator;
       ProposerPriority := ProposerPriority validator |} in
  let s := AddValidator s validator in
  Ok (SetStakingSequence s sequence).

(** The fee balance of the old signer goes to the new one (before Phuket). *)
Definition move_fee {B : Type} {BK : BankKeeper B} (bank : B) (oldSigner newSigner : string)
    : outcome B :=
  oldAccAddress ← StringToBytes oldSigner;
  newAccAddress ← StringToBytes newSigner;
  let coins := GetBalance bank oldAccAddress in
  return_if coins <? 0 with ErrText "negative balance for fee token" ;;
  if Z.abs coins =? 0 then Ok bank
  else SendCoins bank oldAccAddress newAccAddress coins.

Definition PostHandleMsgSignerUpdate {B : Type} {BK : BankKeeper B} (cfg : Config) (ctx : Ctx)
    (ackCount : Z) (s : StakeState) (bank : B) (msg : MsgSignerUpdate) (sideTxResult : Vote)
    : outcome (StakeState * B) :=
  return_if negb (IsSideTxApproved sideTxResult) with ErrSideTxRejected ;;
  or_err (ValidateBasic_SignerUpdate msg) ErrInvalidSideTxMsg ≫= fun _ =>
  let sequence := CalculateSequence (sg_BlockNumber msg) (sg_LogIndex msg) in
  return_if HasStakingSequence s sequence with ErrOldEvents ;;
  newSigner ← signer_of_key (key_bytes (sg_NewSignerPubKey msg));
  validator ← GetValidatorFromValID s (sg_ValId msg);
  return_if negb (sg_Nonce msg =? u64 (Nonce validator + 1)) with ErrIncorrectNonce ;;
  return_if String.eqb newSigner (Signer validator) with ErrText "no signer change" ;;
  let newValidator :=
    {| ValId := ValId validator; StartEpoch := StartEpoch validator; EndEpoch := EndEpoch validator;
       Nonce := sg_Nonce msg; VotingPower := VotingPower validator;
       PubKey := key_bytes (sg_NewSignerPubKey msg); Signer := newSigner; LastUpdated := sequence;
       Jailed := Jailed validator; ProposerPriority := ProposerPriority validator |} in
  let oldValidator :=
    {| ValId := ValId validator; StartEpoch := StartEpoch validator; EndEpoch := ackCount;
       Nonce := sg_Nonce msg; VotingPower := 0; PubKey := PubKey validator;
       Signer := Signer validator; LastUpdated := sequence; Jailed := Jailed validator;
       ProposerPriority := ProposerPriority validator |} in
  let s := AddValidator s oldValidator in
  let s := AddValidator s newValidator in
  let s := SetStakingSequence s sequence in
  bank ← (if IsPhuketHardfork cfg (BlockHeight ctx) then Ok bank
          else move_fee bank (Signer oldValidator) (Signer newValidator));
  Ok (s, bank).

Definition PostHandleMsgValidatorExit (s : StakeState) (msg : MsgValidatorExit)
    (sideTxResult : Vote) : outcome StakeState :=
  return_if negb (IsSideTxApproved sideTxResult) with ErrSideTxRejected ;;
  or_err (ValidateBasic_ValidatorExit msg) ErrInvalidSideTxMsg ≫= fun _ =>
  let sequence := CalculateSequence (ve_BlockNumber msg) (ve_LogIndex msg) in
  return_if HasStakingSequence s sequence with ErrOldEvents ;;
  validator ← GetValidatorFromValID s (ve_ValId msg);
  return_if negb (ve_Nonce msg =? u64 (Nonce validator + 1)) with ErrIncorrectNonce ;;
  let validator :=
    {| ValId := ValId validator; StartEpoch := StartEpoch validator;
       EndEpoch := ve_DeactivationEpoch msg; Nonce := ve_Nonce msg; VotingPower := 0;
       PubKey := PubKey validator; Signer := Signer validator; LastUpdated := sequence;
       Jailed := Jailed validator; ProposerPriority := ProposerPriority validator |} in
  let s := AddValidator s validator in
  Ok (SetStakingSequence s sequence).

(** ** Dispatch (SideTxHandler, PostTxHandler)

    The method names of the four messages; another name has no handler. *)
Inductive StakeMsg :=
| MValidatorJoin (msg : MsgValidatorJoin)
| MStakeUpdate (msg : MsgStakeUpdate)
| MSignerUpdate (msg : MsgSignerUpdate)
| MValidatorExit (msg : MsgValidatorExit).

Definition SideTxHandler (s : StakeState) (params : option ChainManagerParams) (msg : StakeMsg)
    : outcome Vote :=
  match msg with
  | MValidatorJoin m => SideHandleMsgValidatorJoin s params m
  | MStakeUpdate m => SideHandleMsgStakeUpdate s params m
  | MSignerUpdate m => SideHandleMsgSignerUpdate s params m
  | MValidatorExit m => SideHandleMsgValidatorExit s params m
  end.

Definition PostTxHandler {B : Type} {BK : BankKeeper B} (cfg : Config) (ctx : Ctx) (ackCount : Z)
    (st : StakeState * B) (msg : StakeMsg) (v : Vote) : outcome (StakeState * B) :=
  let '(s, bank) := st in
  match msg with
  | MValidatorJoin m => s ← PostHandleMsgValidatorJoin s m v; Ok (s, bank)
  | MStakeUpdate m => s ← PostHandleMsgStakeUpdate cfg ctx s m v; Ok (s, bank)
  | MSignerUpdate m => PostHandleMsgSignerUpdate cfg ctx ackCount s bank m v
  | MValidatorExit m => s ← PostHandleMsgValidatorExit s m v; Ok (s, bank)
  end.
End handlers.
