(* ===== verification/StakeCorrect.v ===== *)
(** * Correctness of the stake module

    The sequences and the store's invariants under the post-handlers, what a
    yes vote of a side handler means, and the end-of-block synchronisation of
    the validator set with the store. *)
From S2P Require Import Prelude SortedList Helpers External ValidatorSet ValidatorSetFacts.
From S2P Require Import ValidatorSetCorrect StakeKeeper StakeHandlers.
#[local] Open Scope Z_scope.

Definition msg_sequence (m : StakeMsg) : string :=
  match m with
  | MValidatorJoin m => CalculateSequence (vj_BlockNumber m) (vj_LogIndex m)
  | MStakeUpdate m => CalculateSequence (su_BlockNumber m) (su_LogIndex m)
  | MSignerUpdate m => CalculateSequence (sg_BlockNumber m) (sg_LogIndex m)
  | MValidatorExit m => CalculateSequence (ve_BlockNumber m) (ve_LogIndex m)
  end.

Section stake.
Context {AC : AddressCodec} {B : Type} {BK : BankKeeper B}.
Context (cfg : Config) (ackCount : Z).

(** The stake module with the balances. *)
Abbreviation state := (StakeState * B)%type.

Lemma IsSideTxApproved_yes v : negb (IsSideTxApproved v) = false -> v = VOTE_YES.
Proof. unfold IsSideTxApproved. rewrite negb_false_iff. apply bool_decide_eq_true. Qed.

(** A post-handler that succeeds was approved, consumes a sequence that was not
    recorded, and records it. *)
Lemma post_sequence ctx (st st' : state) m v :
  PostTxHandler cfg ctx ackCount st m v = Ok st' ->
  v = VOTE_YES /\ msg_sequence m ∉ sequences st.1 /\
  sequences st'.1 = {[msg_sequence m]} ∪ sequences st.1.
Proof.
  destruct st as [s bank]. destruct m as [m|m|m|m]; cbn [PostTxHandler msg_sequence]; intros H;
    try ok_step H;
    [unfold PostHandleMsgValidatorJoin in Ha; ok_inv Ha
    |unfold PostHandleMsgStakeUpdate in Ha; ok_inv Ha
    |unfold PostHandleMsgSignerUpdate in H; ok_inv H
    |unfold PostHandleMsgValidatorExit in Ha; ok_inv Ha]; ok_inv H; subst;
    (split; [by apply IsSideTxApproved_yes|]);
    (split; [unfold HasStakingSequence in *; by bool_hyps | done]).
Qed.

(** ** Invariants of the store *)

(** A validator is stored under its formatted signer, and every validator id
    points to a stored validator. *)
Record store_ok (s : StakeState) : Prop := {
  so_key a v : validators s !! a = Some v -> vaddr v = a;
  so_signer i a : signer s !! i = Some a -> is_Some (validators s !! a) /\ FormatAddress a = a;
}.

Lemma AddValidator_store_ok s v : store_ok s -> store_ok (AddValidator s v).
Proof.
  intros [Hk Hs]. split; cbn; intros i x.
  - destruct (decide (FormatAddress (Signer v) = i)) as [<-|].
    + rewrite lookup_insert_eq. by intros [= <-].
    + rewrite lookup_insert_ne by done. apply Hk.
  - destruct (decide (ValId v = i)) as [<-|].
    + rewrite lookup_insert_eq. intros [= <-]. rewrite format_address_idem, lookup_insert_eq. eauto.
    + rewrite lookup_insert_ne by done. intros [Hv Hf]%Hs. split; [|done].
      destruct (decide (FormatAddress (Signer v) = x)) as [<-|].
      * rewrite lookup_insert_eq. eauto.
      * by rewrite lookup_insert_ne.
Qed.

Lemma SetStakingSequence_store_ok s q : store_ok s -> store_ok (SetStakingSequence s q).
Proof. by intros []. Qed.

Lemma GetValidatorFromValID_stored s i v :
  GetValidatorFromValID s i = Ok v -> exists a, validators s !! a = Some v.
Proof. unfold GetValidatorFromValID, GetValidatorInfo. intros H. ok_inv H. eauto. Qed.

Lemma AddValidator_by_id s v : GetValidatorFromValID (AddValidator s v) (ValId v) = Ok v.
Proof.
  unfold GetValidatorFromValID, GetSignerFromValidatorID, GetValidatorInfo. cbn.
  rewrite lookup_insert_eq. cbn. by rewrite format_address_idem, lookup_insert_eq.
Qed.

Lemma post_store_ok ctx (st st' : state) m v :
  store_ok st.1 -> PostTxHandler cfg ctx ackCount st m v = Ok st' -> store_ok st'.1.
Proof.
  destruct st as [s bank]. intros HS. destruct m as [m|m|m|m]; cbn [PostTxHandler]; intros H;
    try ok_step H;
    [unfold PostHandleMsgValidatorJoin in Ha; ok_inv Ha
    |unfold PostHandleMsgStakeUpdate in Ha; ok_inv Ha
    |unfold PostHandleMsgSignerUpdate in H; ok_inv H
    |unfold PostHandleMsgValidatorExit in Ha; ok_inv Ha]; ok_inv H; subst;
    repeat (apply SetStakingSequence_store_ok || apply AddValidator_store_ok); done.
Qed.

(** ** Nonces *)

Definition msg_val_id (m : StakeMsg) : Z :=
  match m with
  | MValidatorJoin m => vj_ValId m
  | MStakeUpdate m => su_ValId m
  | MSignerUpdate m => sg_ValId m
  | MValidatorExit m => ve_ValId m
  end.
Definition msg_nonce (m : StakeMsg) : Z :=
  match m with
  | MValidatorJoin m => vj_Nonce m
  | MStakeUpdate m => su_Nonce m
  | MSignerUpdate m => sg_Nonce m
  | MValidatorExit m => ve_Nonce m
  end.
Definition is_join (m : StakeMsg) : bool :=
  match m with MValidatorJoin _ => true | _ => false end.

(** The id under which a stored validator is found is its own. *)
Definition ids_ok (s : StakeState) : Prop :=
  forall i v, GetValidatorFromValID s i = Ok v -> ValId v = i.

Lemma by_id_after s v q i : ValId v = i ->
  GetValidatorFromValID (SetStakingSequence (AddValidator s v) q) i = Ok v.
Proof.
  intros <-. change (GetValidatorFromValID (AddValidator s v) (ValId v) = Ok v).
  apply AddValidator_by_id.
Qed.

Lemma post_nonce ctx (st st' : state) m v :
  ids_ok st.1 -> PostTxHandler cfg ctx ackCount st m v = Ok st' ->
  exists v', GetValidatorFromValID st'.1 (msg_val_id m) = Ok v' /\ Nonce v' = msg_nonce m /\
    LastUpdated v' = msg_sequence m /\
    (is_join m = false -> exists v0, GetValidatorFromValID st.1 (msg_val_id m) = Ok v0 /\
       msg_nonce m = u64 (Nonce v0 + 1) /\ StartEpoch v' = StartEpoch v0).
Proof.
  destruct st as [s bank]. intros HI. destruct m as [m|m|m|m]; cbn [PostTxHandler msg_val_id msg_nonce]; intros H;
    try ok_step H;
    [unfold PostHandleMsgValidatorJoin in Ha; ok_inv Ha
    |unfold PostHandleMsgStakeUpdate in Ha; ok_inv Ha
    |unfold PostHandleMsgSignerUpdate in H; ok_inv H
    |unfold PostHandleMsgValidatorExit in Ha; ok_inv Ha]; ok_inv H; subst; cbn [fst];
    eexists; (split; [apply by_id_after; cbn [ValId]; try done; by apply HI|]);
    cbn [Nonce LastUpdated StartEpoch]; do 2 (split; [done|]);
    intros Hj; try discriminate Hj; bool_hyps; eexists; (split; [eassumption|]); done.
Qed.

(** ** Votes of the side handlers *)

Context {RS : ReceiptSource} {SE : StakeEvents}.

(** The event on the main chain that a message claims. *)
Definition join_event (params : ChainManagerParams) (msg : MsgValidatorJoin) : Prop :=
  exists receipt ev addr b,
    GetConfirmedTxReceipt (vj_TxHash msg) (MainChainTxConfirmations params) = Some receipt /\
    u64 (ReceiptBlockNumber receipt) = vj_BlockNumber msg /\
    DecodeValidatorJoinEvent (StakingInfoAddress params) receipt (vj_LogIndex msg) = Some ev /\
    u64 (st_ValidatorId ev) = vj_ValId msg /\ u64 (st_ActivationEpoch ev) = vj_ActivationEpoch msg /\
    st_Amount ev = vj_Amount msg /\ u64 (st_Nonce ev) = vj_Nonce msg /\
    vj_SignerPubKey msg = Some (Byte.x04 :: st_SignerPubkey ev) /\
    PubKeyAddress (Byte.x04 :: st_SignerPubkey ev) = Some addr /\
    StringToBytes (AddressString addr) = Ok b /\ StringToBytes (st_Signer ev) = Ok b.

Lemma FetchAndValidateReceipt_some h n c r : FetchAndValidateReceipt h n c = Some r ->
  GetConfirmedTxReceipt h c = Some r /\ u64 (ReceiptBlockNumber r) = n.
Proof.
  unfold FetchAndValidateReceipt. destruct (GetConfirmedTxReceipt h c) as [r'|]; [|done].
  destruct (Z.eqb_spec (u64 (ReceiptBlockNumber r')) n); [|done]. by intros [= <-].
Qed.

Lemma first_byte_split pk ev : IsPubKeyFirstByteValid (take 1 pk) = true -> drop 1 pk = ev ->
  pk = Byte.x04 :: ev.
Proof.
  destruct pk as [|b pk]; cbn; [done|]. intros H E. rewrite skipn_O in E. subst.
  f_equal. by apply Byte.byte_dec_bl.
Qed.

Lemma must_ok {A} (o : option A) a : must o = Ok a -> o = Some a.
Proof. destruct o; cbn; [by intros [= ->]|done]. Qed.

Lemma side_join_yes s params msg :
  SideHandleMsgValidatorJoin s params msg = Ok VOTE_YES ->
  ValidateBasic_ValidatorJoin msg = Ok tt /\ DoesValIdExist s (vj_ValId msg) = false /\
  ValidateVotingPower (vj_Amount msg) = true /\
  HasStakingSequence s (CalculateSequence (vj_BlockNumber msg) (vj_LogIndex msg)) = false /\
  exists p, params = Some p /\ join_event p msg.
Proof.
  unfold SideHandleMsgValidatorJoin. intros H. yes_inv H. bool_hyps. destruct a.
  apply FetchAndValidateReceipt_some in Ha1 as [Hr Hn].
  apply must_ok in Ha3. pose proof (first_byte_split _ _ Hg4 Hg5) as Epk. rewrite Epk in Ha3.
  split_and!; [done..|]. exists a0. split; [done|]. exists a1, a2, a3, a4.
  split_and!; try done; [|congruence].
  destruct (vj_SignerPubKey msg) as [pk|]; cbn in Epk; [by rewrite Epk | done].
Qed.

Definition stake_update_event (params : ChainManagerParams) (msg : MsgStakeUpdate) : Prop :=
  exists receipt ev,
    GetConfirmedTxReceipt (su_TxHash msg) (MainChainTxConfirmations params) = Some receipt /\
    u64 (ReceiptBlockNumber receipt) = su_BlockNumber msg /\
    DecodeValidatorStakeUpdateEvent (StakingInfoAddress params) receipt (su_LogIndex msg) = Some ev /\
    u64 (sue_ValidatorId ev) = su_ValId msg /\ sue_NewAmount ev = su_NewAmount msg /\
    u64 (sue_Nonce ev) = su_Nonce msg.

Definition signer_update_event (params : ChainManagerParams) (msg : MsgSignerUpdate) : Prop :=
  exists receipt ev addr b,
    GetConfirmedTxReceipt (sg_TxHash msg) (MainChainTxConfirmations params) = Some receipt /\
    u64 (ReceiptBlockNumber receipt) = sg_BlockNumber msg /\
    DecodeSignerUpdateEvent (StakingInfoAddress params) receipt (sg_LogIndex msg) = Some ev /\
    u64 (sc_ValidatorId ev) = sg_ValId msg /\ u64 (sc_Nonce ev) = sg_Nonce msg /\
    sg_NewSignerPubKey msg = Some (Byte.x04 :: sc_SignerPubkey ev) /\
    PubKeyAddress (Byte.x04 :: sc_SignerPubkey ev) = Some addr /\
    StringToBytes (AddressString addr) = Ok b /\ StringToBytes (sc_NewSigner ev) = Ok b.

Definition exit_event (params : ChainManagerParams) (msg : MsgValidatorExit) : Prop :=
  exists receipt ev,
    GetConfirmedTxReceipt (ve_TxHash msg) (MainChainTxConfirmations params) = Some receipt /\
    u64 (ReceiptBlockNumber receipt) = ve_BlockNumber msg /\
    DecodeValidatorExitEvent (StakingInfoAddress params) receipt (ve_LogIndex msg) = Some ev /\
    u64 (ui_ValidatorId ev) = ve_ValId msg /\
    u64 (ui_DeactivationEpoch ev) = ve_DeactivationEpoch msg /\ u64 (ui_Nonce ev) = ve_Nonce msg.

(** The message repeats an event of the main chain. *)
Definition event_matches (params : ChainManagerParams) (m : StakeMsg) : Prop :=
  match m with
  | MValidatorJoin m => join_event params m
  | MStakeUpdate m => stake_update_event params m
  | MSignerUpdate m => signer_update_event params m
  | MValidatorExit m => exit_event params m
  end.

Lemma side_stake_update_yes s params msg :
  SideHandleMsgStakeUpdate s params msg = Ok VOTE_YES ->
  HasStakingSequence s (CalculateSequence (su_BlockNumber msg) (su_LogIndex msg)) = false /\
  exists p, params = Some p /\ stake_update_event p msg.
Proof.
  unfold SideHandleMsgStakeUpdate. intros H. yes_inv H. bool_hyps.
  apply FetchAndValidateReceipt_some in Ha2 as [Hr Hn].
  split; [done|]. exists a1. split; [done|]. exists a2, a3. done.
Qed.

Lemma side_exit_yes s params msg :
  SideHandleMsgValidatorExit s params msg = Ok VOTE_YES ->
  HasStakingSequence s (CalculateSequence (ve_BlockNumber msg) (ve_LogIndex msg)) = false /\
  exists p, params = Some p /\ exit_event p msg.
Proof.
  unfold SideHandleMsgValidatorExit. intros H. yes_inv H. bool_hyps.
  apply FetchAndValidateReceipt_some in Ha2 as [Hr Hn].
  split; [done|]. exists a1. split; [done|]. exists a2, a3. done.
Qed.

Lemma side_signer_update_yes s params msg :
  SideHandleMsgSignerUpdate s params msg = Ok VOTE_YES ->
  HasStakingSequence s (CalculateSequence (sg_BlockNumber msg) (sg_LogIndex msg)) = false /\
  exists p, params = Some p /\ signer_update_event p msg.
Proof.
  unfold SideHandleMsgSignerUpdate. intros H. yes_inv H. bool_hyps.
  apply FetchAndValidateReceipt_some in Ha2 as [Hr Hn].
  pose proof (first_byte_split _ _ Hg2 (eq_sym Hg3)) as Epk.
  apply must_ok in Ha4. rewrite Epk in Ha4.
  split; [done|]. exists a0. split; [done|]. exists a2, a3, a4, a5.
  split_and!; try done; [|congruence].
  destruct (sg_NewSignerPubKey msg) as [pk|]; cbn in Epk; [by rewrite Epk | done].
Qed.

(** ** The end of a block *)

Lemma GetAllValidators_perm s : GetAllValidators s ≡ₚ map snd (map_to_list (validators s)).
Proof. unfold GetAllValidators. by rewrite (sort_by_perm fst). Qed.

Lemma GetAllValidators_elem s v : store_ok s ->
  v ∈ GetAllValidators s <-> validators s !! vaddr v = Some v.
Proof.
  intros HS. rewrite GetAllValidators_perm, list_elem_of_fmap. split.
  - intros ([a w] & -> & Hw). apply elem_of_map_to_list in Hw. cbn.
    by rewrite (so_key _ HS _ _ Hw).
  - intros Hv. exists (vaddr v, v). split; [done|]. by apply elem_of_map_to_list.
Qed.

Lemma GetAllValidators_NoDup s : store_ok s -> NoDup (map vaddr (GetAllValidators s)).
Proof.
  intros HS. rewrite (fmap_Permutation vaddr _ _ (GetAllValidators_perm s)).
  assert (vaddr <$> map snd (map_to_list (validators s)) = map fst (map_to_list (validators s))) as ->.
  { change (?f <$> ?l) with (map f l). rewrite map_map. apply map_ext_in. intros [a v] Hv.
    apply list_elem_of_In, elem_of_map_to_list in Hv. exact (so_key _ HS _ _ Hv). }
  apply NoDup_fst_map_to_list.
Qed.

Lemma find_GetAllValidators s k : store_ok s ->
  find_by vaddr k (GetAllValidators s) = validators s !! k.
Proof.
  intros HS. destruct (validators s !! k) as [v|] eqn:E.
  - pose proof (so_key _ HS _ _ E) as <-. apply find_by_elem; [by apply GetAllValidators_NoDup|].
    by apply GetAllValidators_elem.
  - apply find_by_None. intros (v & -> & Hv)%list_elem_of_fmap.
    apply GetAllValidators_elem in Hv; [|done]. congruence.
Qed.

(** The power of an address in the stored validators: that of an active one. *)
Definition stored_power (s : StakeState) (k : string) : Z :=
  match validators s !! k with
  | Some v => if IsCurrentValidator v ackCount then VotingPower v else 0
  | None => 0
  end.

(** What the end of a block needs of the state: well-formed sets whose members
    are stored. *)
Record end_block_ready (s : StakeState) (vs : ValidatorSet) : Prop := {
  eb_store : store_ok s;
  eb_set : validatorSet s = Some vs;
  eb_wf : wf vs;
  eb_members v : v ∈ Validators vs -> is_Some (validators s !! vaddr v);
}.

Lemma end_block_ok {PK} (pk : bytes -> option PK) ctx s vs ups s' :
  end_block_ready s vs ->
  ApplyAndReturnValidatorSetUpdates pk cfg ctx ackCount s = Ok (ups, s') ->
  exists vs', validatorSet s' = Some vs' /\ previousSet s' = Some vs /\ wf vs' /\
    validators s' = validators s /\
    (tallyFixHeight cfg - 1 <= BlockHeight ctx -> in_i64 (tallyFixHeight cfg - 1) ->
       penultimateSet s' = previousSet s) /\
    forall k, power_at k (Validators vs') = stored_power s k.
Proof.
  intros [HS Hset Hwf Hmem]. unfold ApplyAndReturnValidatorSetUpdates.
  unfold GetValidatorSet. rewrite Hset. cbn [of_option mbind outcome_bind].
  set (pre := if i64 _ <=? _ then _ else _). intros H.
  destruct pre as [s1| |] eqn:Epre; cbn [mbind outcome_bind] in H; [|done..].
  assert (validators s1 = validators s /\ validatorSet s1 = Some vs /\
    (tallyFixHeight cfg - 1 <= BlockHeight ctx -> in_i64 (tallyFixHeight cfg - 1) ->
       penultimateSet s1 = previousSet s)) as (Ev & Ec & Ep).
  { unfold pre in Epre. destruct (Z.leb_spec (i64 (tallyFixHeight cfg - 1)) (BlockHeight ctx)).
    - ok_inv Epre. unfold GetPreviousBlockValidatorSet in *. ok_inv Ha. subst s1. cbn. by rewrite Ha.
    - injection Epre as <-. split_and!; [done|done|]. intros Hle Hi. rewrite i64_id in *; [lia|done]. }
  assert (GetAllValidators (UpdatePreviousBlockValidatorSetInStore s1 vs) = GetAllValidators s) as Eall.
  { unfold GetAllValidators. cbn. by rewrite Ev. }
  rewrite Eall in H.
  assert (forall k, updated_power (GetUpdatedValidators vs (GetAllValidators s) ackCount)
                      (Validators vs) k = stored_power s k) as Hsync.
  { intros k. rewrite updated_power_sync; [|done|by apply GetAllValidators_NoDup|].
    - unfold active_power, stored_power. by rewrite find_GetAllValidators.
    - intros v Hv. destruct (Hmem v Hv) as [w Hw]. apply list_elem_of_fmap. exists w.
      pose proof (so_key _ HS _ _ Hw) as E. split; [done|]. apply GetAllValidators_elem; [done|].
      by rewrite E. }
  destruct (GetUpdatedValidators vs (GetAllValidators s) ackCount) as [|u us] eqn:Eu.
  - injection H as <- <-. exists vs. split_and!; try done.
  - destruct (UpdateWithChangeSet vs (u :: us)) as [vs'| |] eqn:Eup; cbn [mbind outcome_bind] in H; [|done..].
    destruct (IncrementProposerPriority vs' 1); cbn [mbind outcome_bind] in H; [|done..].
    injection H as _ <-. exists vs'.
    destruct (update_cases vs (u :: us) true Hwf) as [[e E]|(v & E & Hspec)]; [done|unfold UpdateWithChangeSet in Eup; congruence|].
    unfold UpdateWithChangeSet in Eup. rewrite E in Eup. injection Eup as ->.
    split_and!; try done; [apply Hspec|]. intros k. rewrite (us_power _ _ _ Hspec). apply Hsync.
Qed.
End stake.

(** ** The properties *)

(** A post-handler that succeeds on a message for a known validator finds the
    nonce right after the stored one (modulo 2^64), stores it with the event's
    sequence, and keeps every stored validator under its formatted signer and
    every id pointing to a stored validator. *)
Theorem stake_nonce_advances {AC : AddressCodec} {B : Type} {BK : BankKeeper B}
    (cfg : Config) (ctx : Ctx) (ackCount : Z) (st st' : StakeState * B) (m : StakeMsg) (v : Vote) :
  store_ok st.1 -> ids_ok st.1 -> PostTxHandler cfg ctx ackCount st m v = Ok st' ->
  store_ok st'.1 /\
  exists v', GetValidatorFromValID st'.1 (msg_val_id m) = Ok v' /\ Nonce v' = msg_nonce m /\
    LastUpdated v' = msg_sequence m /\
    (is_join m = false -> exists v0, GetValidatorFromValID st.1 (msg_val_id m) = Ok v0 /\
       msg_nonce m = u64 (Nonce v0 + 1) /\ StartEpoch v' = StartEpoch v0).
Proof. intros HS HI H. split; [by eapply post_store_ok | by eapply post_nonce]. Qed.

(** C24: a side handler votes yes only for a message that repeats, field by
    field, an event of the staking contract in a confirmed receipt of the claimed
    transaction and block, and whose sequence is not recorded yet. *)
Theorem stake_yes_vote_matches_event {AC : AddressCodec} {RS : ReceiptSource} {SE : StakeEvents}
    (s : StakeState) (params : option ChainManagerParams) (m : StakeMsg) :
  SideTxHandler s params m = Ok VOTE_YES ->
  HasStakingSequence s (msg_sequence m) = false /\
  exists p, params = Some p /\ event_matches p m.
Proof.
  destruct m as [m|m|m|m]; cbn [SideTxHandler msg_sequence event_matches]; intros H.
  - apply side_join_yes in H as (_ & _ & _ & ? & ?). done.
  - by apply side_stake_update_yes.
  - by apply side_signer_update_yes.
  - by apply side_exit_yes.
Qed.

(** A join that a side handler approves is applied by the post-handler on
    the same state: it does not fail, and the new validator has the power of the
    staked amount, no end epoch, and its event is recorded. *)
Theorem approved_join_applies {AC : AddressCodec} {RS : ReceiptSource} {SE : StakeEvents}
    (s : StakeState) (params : option ChainManagerParams) (msg : MsgValidatorJoin) :
  SideHandleMsgValidatorJoin s params msg = Ok VOTE_YES ->
  exists s' v, PostHandleMsgValidatorJoin s msg VOTE_YES = Ok s' /\
    GetValidatorFromValID s' (vj_ValId msg) = Ok v /\
    VotingPower v = i64 (vj_Amount msg / 10 ^ 18) /\ StartEpoch v = vj_ActivationEpoch msg /\
    EndEpoch v = 0 /\
    HasStakingSequence s' (CalculateSequence (vj_BlockNumber msg) (vj_LogIndex msg)) = true.
Proof.
  intros H. apply side_join_yes in H as (HB & _ & HP & Hseq & p & _ & Hev).
  destruct Hev as (r & ev & addr & b & _ & _ & _ & _ & _ & _ & _ & Hk & Ha & _).
  unfold PostHandleMsgValidatorJoin. cbn [IsSideTxApproved bool_decide decide decide_rel].
  change (negb (IsSideTxApproved VOTE_YES)) with false. cbn [fail_if].
  rewrite HB. cbn [or_err mbind outcome_bind]. rewrite Hseq. cbn [fail_if].
  unfold signer_of_key. rewrite Hk. cbn [key_bytes]. rewrite Ha. cbn [must mbind outcome_bind].
  unfold ValidateVotingPower, GetPowerFromAmount in *.
  destruct (vj_Amount msg <? decimals18); [done|]. cbn [fail_if mbind outcome_bind].
  eexists _, _. split; [done|]. split; [by apply by_id_after|]. cbn.
  split_and!; try done. unfold HasStakingSequence. apply bool_decide_eq_true. cbn. set_solver.
Qed.

(** C7: at the end of a block the stored validator set is synchronised with the
    stored validators: seen as a map from addresses to powers it is exactly the
    active validators, it is well-formed, and the set of the block is kept as the
    previous one (and the previous as the penultimate one, from the tally fix
    on). *)
Theorem end_block_synchronises {PK : Type} (pk : bytes -> option PK) (cfg : Config)
    (ctx : Ctx) (ackCount : Z) (s s' : StakeState) (vs : ValidatorSet) (ups : list (Z * PK)) :
  end_block_ready s vs ->
  ApplyAndReturnValidatorSetUpdates pk cfg ctx ackCount s = Ok (ups, s') ->
  exists vs', validatorSet s' = Some vs' /\ previousSet s' = Some vs /\ wf vs' /\
    validators s' = validators s /\
    (tallyFixHeight cfg - 1 <= BlockHeight ctx -> in_i64 (tallyFixHeight cfg - 1) ->
       penultimateSet s' = previousSet s) /\
    forall k, power_at k (Validators vs') = stored_power ackCount s k.
Proof. apply end_block_ok. Qed.

(** ** Witnesses: a small instance of the external code and a short history *)

Module StakeDemo.

#[export] Instance demo_codec : AddressCodec := {|
  PubKeyAddress pk := if (length pk =? PubKeySize)%nat then Some (take 4 (drop 1 pk)) else None;
  AddressString bs := string_of_list_byte bs;
  BytesToString bs := Ok (string_of_list_byte bs);
  StringToBytes s := Ok (list_byte_of_string s);
|}.

(** A bank in which nobody has fees. *)
#[export] Instance demo_bank : BankKeeper unit := {|
  GetBalance _ _ := 0;
  SendCoins b _ _ _ := Ok b;
|}.

#[export] Instance demo_receipts : ReceiptSource := {|
  Receipt := Z;
  ReceiptBlockNumber r := r;
  GetConfirmedTxReceipt h _ := if (length h =? HashLength)%nat then Some 100 else None;
|}.

Definition demo_key : bytes := repeat Byte.x61 64.
Definition demo_hash : bytes := repeat Byte.x01 32.

#[export] Instance demo_events : StakeEvents := {|
  DecodeValidatorJoinEvent _ _ i := if i =? 0 then
    Some {| st_ValidatorId := 1; st_ActivationEpoch := 2; st_Amount := 5 * 10 ^ 18;
            st_Signer := "aaaa"; st_SignerPubkey := demo_key; st_Nonce := 1 |} else None;
  DecodeValidatorStakeUpdateEvent _ _ _ := None;
  DecodeSignerUpdateEvent _ _ _ := None;
  DecodeValidatorExitEvent _ _ _ := None;
|}.

Definition demo_params : ChainManagerParams :=
  {| MainChainTxConfirmations := 6; BorChainTxConfirmations := 10; BorChainId := "137";
     StakingInfoAddress := "0x51"; StateSenderAddress := "0x52"; RootChainAddress := "0x53" |}.
Definition demo_config : Config :=
  {| rioHeight := 0; tallyFixHeight := 0; disableVPCheckHeight := 0; disableValSetCheckHeight := 0;
     initialHeight := 0; producerDowntimeHeight := 0; phuketHardforkHeight := 1;
     feeWithdrawValidatorGateHeight := 1; zurichHardforkHeight := 1; ithacaHeight := 1;
     fallbackProducerVotes := [] |}.
Definition demo_ctx : Ctx := {| BlockHeight := 50; BlockTime := 1000 |}.

Definition empty_state : StakeState :=
  {| validators := ∅; signer := ∅; sequences := ∅; validatorSet := Some demo_set;
     previousSet := Some demo_set; penultimateSet := None; lastBlockTxs := None |}.

Definition demo_join : MsgValidatorJoin :=
  {| vj_From := "0x1"; vj_ValId := 1; vj_ActivationEpoch := 2; vj_Amount := 5 * 10 ^ 18;
     vj_SignerPubKey := Some (Byte.x04 :: demo_key); vj_TxHash := demo_hash; vj_LogIndex := 0;
     vj_BlockNumber := 100; vj_Nonce := 1 |}.
Lemma store_ok_empty (s : StakeState) : validators s = ∅ -> signer s = ∅ -> store_ok s.
Proof. intros E1 E2. split; intros i x; rewrite ?E1, ?E2, lookup_empty; done. Qed.

Lemma stake_nonce_advances_witness :
  exists st', PostTxHandler demo_config demo_ctx 0 (empty_state, tt) (MValidatorJoin demo_join) VOTE_YES
              = Ok st' /\ store_ok st'.1.
Proof.
  destruct (PostTxHandler demo_config demo_ctx 0 (empty_state, tt) (MValidatorJoin demo_join) VOTE_YES)
    as [st'|e|] eqn:E; [|vm_compute in E; discriminate E..].
  exists st'. split; [reflexivity|].
  refine (proj1 (stake_nonce_advances _ _ _ _ _ _ _ _ _ E)).
  - by apply store_ok_empty.
  - intros i v H. vm_compute in H. discriminate H.
Defined.

Lemma stake_yes_vote_matches_event_witness :
  SideTxHandler empty_state (Some demo_params) (MValidatorJoin demo_join) = Ok VOTE_YES /\
  HasStakingSequence empty_state (msg_sequence (MValidatorJoin demo_join)) = false.
Proof.
  assert (SideTxHandler empty_state (Some demo_params) (MValidatorJoin demo_join) = Ok VOTE_YES) as E
    by (vm_compute; reflexivity).
  split; [exact E|]. exact (proj1 (stake_yes_vote_matches_event _ _ _ E)).
Defined.

Lemma approved_join_applies_witness :
  exists s' v, PostHandleMsgValidatorJoin empty_state demo_join VOTE_YES = Ok s' /\
    GetValidatorFromValID s' 1 = Ok v /\ VotingPower v = 5.
Proof.
  destruct (approved_join_applies empty_state (Some demo_params) demo_join) as (s' & v & H1 & H2 & H3 & _);
    [vm_compute; reflexivity|].
  exists s', v. split; [exact H1|]. split; [exact H2|]. rewrite H3. reflexivity.
Defined.

(** The stored validators: a member that left, one whose stake changed, a new one. *)
Definition stored_validator (i : Z) (a : string) (stop power : Z) : Validator :=
  NewValidator i 0 stop 0 power [] a.
Definition stored_state : StakeState :=
  fold_left AddValidator
    [stored_validator 1 "0xaa" 0 9; stored_validator 2 "0xBB" 3 10; stored_validator 3 "0xcc" 0 3;
     stored_validator 4 "0xdd" 0 4] empty_state.

Lemma stored_state_ready : end_block_ready stored_state demo_set.
Proof.
  split.
  - unfold stored_state. cbn [fold_left].
    repeat apply AddValidator_store_ok. by apply store_ok_empty.
  - reflexivity.
  - apply demo_set_wf.
  - intros v Hv. apply list_elem_of_In in Hv. cbn in Hv.
    destruct Hv as [<-|[<-|[<-|[]]]]; vm_compute; eauto.
Qed.

Lemma end_block_synchronises_witness :
  exists ups s' vs',
    ApplyAndReturnValidatorSetUpdates (fun k => Some k) demo_config demo_ctx 5 stored_state
      = Ok (ups, s') /\ validatorSet s' = Some vs' /\ power_at "0xdd" (Validators vs') = 4.
Proof.
  destruct (ApplyAndReturnValidatorSetUpdates (fun k => Some k) demo_config demo_ctx 5 stored_state)
    as [[ups s']|e|] eqn:E; [|vm_compute in E; discriminate E..].
  destruct (end_block_synchronises _ _ _ _ _ _ _ _ stored_state_ready E)
    as (vs' & H1 & _ & _ & _ & _ & H2).
  exists ups, s', vs'. split; [reflexivity|]. split; [exact H1|]. rewrite H2. reflexivity.
Defined.
End StakeDemo.
