(* ===== verification/Milestone.v ===== *)
(** * Milestones

    Models [x/milestone/keeper/keeper.go], [x/milestone/types/params.go] and
    [x/milestone/abci/abci.go]: the stored milestones, the proposition a
    validator makes from its view of the Bor chain, its validation, and the
    aggregation of the propositions in the votes of a block. *)
From S2P Require Import Prelude SortedList Helpers External VoteTypes ValidatorSet.
#[local] Open Scope Z_scope.

(** ** State and keeper *)

Record MilestoneRecord := {
  mi_Proposer : string; mi_StartBlock : Z; mi_EndBlock : Z; mi_Hash : bytes;
  mi_BorChainId : string; mi_MilestoneId : string; mi_Timestamp : Z; mi_TotalDifficulty : Z;
}.
Record MilestoneParams := {
  MaxMilestonePropositionLength : Z; FfMilestoneThreshold : Z; FfMilestoneBlockInterval : Z;
}.
Record MilestoneState := {
  milestone : gmap Z MilestoneRecord;
  milestone_params : option MilestoneParams;
  milestone_count : option Z;
  lastMilestoneBlock : option Z;
  lastPendingBorBlock : option Z;
  lastPendingBorBlockId : option bytes;
  lastPendingBorBlockHeight : option Z;
}.

Definition ErrNoMilestoneFound : error := ErrText "milestone not found".

Definition set_milestones (s : MilestoneState) m c b : MilestoneState :=
  {| milestone := m; milestone_params := milestone_params s; milestone_count := c; lastMilestoneBlock := b;
     lastPendingBorBlock := lastPendingBorBlock s; lastPendingBorBlockId := lastPendingBorBlockId s;
     lastPendingBorBlockHeight := lastPendingBorBlockHeight s |}.
Definition SetLastMilestoneBlock (s : MilestoneState) (block : Z) : MilestoneState :=
  set_milestones s (milestone s) (milestone_count s) (Some block).
Definition GetLastMilestoneBlock (s : MilestoneState) : Z :=
  match lastMilestoneBlock s with Some b => b | None => 0 end.

(** [itemOrDefault] at the three items. *)
Definition item_or {A} (zero : A) (item : option A) : A := match item with Some a => a | None => zero end.
Definition GetPendingBorBlockTracking (s : MilestoneState) : Z * bytes * Z :=
  (item_or 0 (lastPendingBorBlock s), item_or [] (lastPendingBorBlockId s),
   item_or 0 (lastPendingBorBlockHeight s)).
Definition SetPendingBorBlockTracking (s : MilestoneState) (block : Z) (id : bytes) (height : Z)
    : MilestoneState :=
  {| milestone := milestone s; milestone_params := milestone_params s;
     milestone_count := milestone_count s; lastMilestoneBlock := lastMilestoneBlock s;
     lastPendingBorBlock := Some block; lastPendingBorBlockId := Some id;
     lastPendingBorBlockHeight := Some height |}.

Definition ValidateBasic_MilestoneParams (p : MilestoneParams) : outcome unit :=
  return_if MaxMilestonePropositionLength p =? 0 with ErrText "length zero" ;;
  return_if BorBatchSizeCap <? MaxMilestonePropositionLength p with ErrText "exceeds batch size cap" ;;
  return_if FfMilestoneThreshold p =? 0 with ErrText "threshold zero" ;;
  return_if FfMilestoneBlockInterval p =? 0 with ErrText "interval zero" ;;
  return_if FfMilestoneThreshold p <=? FfMilestoneBlockInterval p with ErrText "interval not below threshold" ;;
  return_if negb (FfMilestoneThreshold p mod FfMilestoneBlockInterval p =? 0)
    with ErrText "threshold not divisible by interval" ;;
  Ok tt.
Definition SetMilestoneParams (s : MilestoneState) (p : MilestoneParams) : outcome MilestoneState :=
  ValidateBasic_MilestoneParams p ≫= fun _ =>
  Ok {| milestone := milestone s; milestone_params := Some p; milestone_count := milestone_count s;
        lastMilestoneBlock := lastMilestoneBlock s; lastPendingBorBlock := lastPendingBorBlock s;
        lastPendingBorBlockId := lastPendingBorBlockId s;
        lastPendingBorBlockHeight := lastPendingBorBlockHeight s |}.
Definition GetMilestoneParams (s : MilestoneState) : outcome MilestoneParams :=
  of_option ErrNotFound (milestone_params s).
Definition UpdateMilestoneParams (authority : string) (s : MilestoneState) (msgAuthority : string)
    (p : MilestoneParams) : outcome MilestoneState :=
  return_if negb (String.eqb authority msgAuthority) with ErrText "invalid authority" ;;
  ValidateBasic_MilestoneParams p ≫= fun _ => SetMilestoneParams s p.

Definition SetMilestoneCount (s : MilestoneState) (number : Z) : MilestoneState :=
  set_milestones s (milestone s) (Some number) (lastMilestoneBlock s).
Definition GetMilestoneCount (s : MilestoneState) : Z := item_or 0 (milestone_count s).

Definition with_mi_proposer (m : MilestoneRecord) (p : string) : MilestoneRecord :=
  {| mi_Proposer := p; mi_StartBlock := mi_StartBlock m; mi_EndBlock := mi_EndBlock m;
     mi_Hash := mi_Hash m; mi_BorChainId := mi_BorChainId m; mi_MilestoneId := mi_MilestoneId m;
     mi_Timestamp := mi_Timestamp m; mi_TotalDifficulty := mi_TotalDifficulty m |}.
Definition AddMilestone (s : MilestoneState) (m : MilestoneRecord) : MilestoneState :=
  let milestoneNumber := u64 (GetMilestoneCount s + 1) in
  let m := with_mi_proposer m (FormatAddress (mi_Proposer m)) in
  let s := set_milestones s (<[milestoneNumber := m]> (milestone s)) (milestone_count s) (lastMilestoneBlock s) in
  SetMilestoneCount s milestoneNumber.

Definition GetMilestoneByNumber (s : MilestoneState) (number : Z) : outcome MilestoneRecord :=
  of_option ErrNotFound (milestone s !! number).
Definition HasMilestone (s : MilestoneState) : bool := negb (GetMilestoneCount s =? 0).
Definition GetLastMilestone (s : MilestoneState) : outcome MilestoneRecord :=
  return_if GetMilestoneCount s =? 0 with ErrNoMilestoneFound ;;
  GetMilestoneByNumber s (GetMilestoneCount s).
Definition GetMilestones (s : MilestoneState) : list MilestoneRecord :=
  map snd (sort_by fst (map_to_list (milestone s))).

(** The pre-blocker goes on after an error, so the writes before it stay. *)
Definition DeleteMilestone (s : MilestoneState) (number : Z) : MilestoneState * outcome unit :=
  if negb (bool_decide (is_Some (milestone s !! number))) then (s, Err ErrNoMilestoneFound)
  else
    let s := set_milestones s (delete number (milestone s)) (milestone_count s) (lastMilestoneBlock s) in
    let count := GetMilestoneCount s in
    if (number =? count) && (0 <? count) then
      let newCount := count - 1 in
      let s := SetMilestoneCount s newCount in
      match GetMilestoneByNumber s newCount with
      | Ok newLatestMilestone => (SetLastMilestoneBlock s (mi_EndBlock newLatestMilestone), Ok tt)
      | Err e => (s, Err e)
      | Panic => (s, Panic)
      end
    else (s, Ok tt).

(** [IsFaultyMilestone]: the one milestone that a migration removes. *)
Definition faulty_hash : bytes := map byte_of_Z
  [121; 16; 162; 9; 24; 85; 134; 116; 237; 184; 119; 89; 162; 187; 8; 179;
   26; 240; 222; 14; 78; 239; 13; 137; 9; 190; 117; 175; 53; 145; 116; 143].
Definition IsFaultyMilestone (m : MilestoneRecord) : bool :=
  bool_decide (mi_Hash m = faulty_hash)
  && String.eqb (mi_MilestoneId m) "809387e7dae84cce485d95f1fce3f2ac1d2b9979d1c0989df2d4309b30ef6aa6"
  && String.eqb (mi_BorChainId m) "137" && (mi_StartBlock m =? 76273070) && (mi_EndBlock m =? 76273070).

(** ** Validation of a proposition *)

Definition validateMilestonePropositionFork (parentHash lastMilestoneHash : bytes) : outcome unit :=
  if (0 <? length parentHash)%nat && (0 <? length lastMilestoneHash)%nat then
    return_if negb (bool_decide (parentHash = lastMilestoneHash))
      with ErrText "first block parent hash does not match last milestone hash" ;; Ok tt
  else Ok tt.

Definition validateLatestHead (prop : MilestoneProposition) : outcome unit :=
  if (length (LatestBlockHash prop) =? 0)%nat then
    return_if negb (LatestBlockNumber prop =? 0) with ErrText "latest block number without hash" ;; Ok tt
  else
    return_if negb (length (LatestBlockHash prop) =? HashLength)%nat with ErrText "invalid latest block hash length" ;;
    let offset := u64 (Z.of_nat (length (BlockHashes prop)) - 1) in
    return_if u64 (MaxUint64 - offset) <? StartBlockNumber prop with ErrText "proposition start block overflow" ;;
    let propEnd := u64 (StartBlockNumber prop + offset) in
    return_if LatestBlockNumber prop <? propEnd with ErrText "latest block number behind proposition end" ;;
    return_if (LatestBlockNumber prop =? propEnd)
              && negb (bool_decide (Some (LatestBlockHash prop) = last (BlockHashes prop)))
      with ErrText "latest block hash does not match proposition tail" ;;
    Ok tt.

Definition ValidateMilestoneProposition (s : MilestoneState) (milestoneProp : option MilestoneProposition)
    : outcome unit :=
  match milestoneProp with
  | None => Ok tt
  | Some prop =>
      params ← GetMilestoneParams s;
      let hashes := BlockHashes prop in
      return_if i64 (MaxMilestonePropositionLength params) <? Z.of_nat (length hashes)
        with ErrText "too many blocks in proposition" ;;
      return_if (length hashes =? 0)%nat with ErrText "no blocks in proposition" ;;
      return_if negb (length hashes =? length (BlockTds prop))%nat with ErrText "len mismatch" ;;
      return_if existsb (fun h => negb (length h =? HashLength)%nat) hashes
        with ErrText "invalid block hash length" ;;
      return_if negb (length (remove_dups hashes) =? length hashes)%nat
        with ErrText "duplicate block hashes found" ;;
      validateLatestHead prop
  end.

(** ** The proposition of a validator *)

Section propose.
Context {BC : BorChain} (cfg : Config).

(** [getBlockInfo], first part: the latest header (fetched again when it is
    behind the start), and how many blocks to fetch. *)
Definition usable_header (latestHeader : option Header) (startBlockNum : Z) : outcome Header :=
  h ← (match latestHeader with
       | Some h => Ok h
       | None => of_option (ErrText "failed to get the latest header") (GetBorChainBlock None)
       end);
  if u64 (Number h) <? startBlockNum then
    h ← of_option (ErrText "failed to refresh the latest header") (GetBorChainBlock None);
    return_if u64 (Number h) <? startBlockNum with ErrText "no new headers found" ;;
    Ok h
  else Ok h.

(** [getBlockInfo]: parent hash, hashes, difficulties, authors, header used. *)
Definition getBlockInfo (startBlockNum maxBlocksInProposition : Z) (latestHeader : option Header)
    (lastMilestoneHash : bytes) (lastMilestoneBlock : Z)
    : outcome (bytes * list bytes * list Z * list bytes * Header) :=
  header ← usable_header latestHeader startBlockNum;
  let availableBlocks := u64 (u64 (u64 (Number header) - startBlockNum) + 1) in
  let blocksToFetch := Z.min availableBlocks maxBlocksInProposition in
  let milestoneEnd := u64 (u64 (startBlockNum + blocksToFetch) - 1) in
  '(headers, tds, authors) ← of_option (ErrText "failed to get block batch info")
    (GetBorChainBlockInfoInBatch (i64 startBlockNum) (i64 milestoneEnd));
  match headers with
  | [] => Err (ErrText "no new headers found")
  | h0 :: _ =>
      parentHash ←
        (if (0 <? length lastMilestoneHash)%nat then
           if 1 <? u64 (startBlockNum - lastMilestoneBlock) then
             h ← of_option (ErrText "failed to get header for parent hash")
                   (GetBorChainBlock (Some (i64 (u64 (lastMilestoneBlock + 1)))));
             Ok (HeaderParentHash h)
           else Ok (HeaderParentHash h0)
         else Ok []);
      Ok (parentHash, map HeaderHash headers, tds, authors, header)
  end.

Definition actualHeadFields (ctx : Ctx) (latestHeader : Header) : Z * bytes :=
  if IsIthaca cfg (BlockHeight ctx) then (u64 (Number latestHeader), HeaderHash latestHeader) else (0, []).

Definition isFastForwardMilestone (latestHeaderNumber latestMilestoneEndBlock ffMilestoneThreshold : Z) : bool :=
  (latestMilestoneEndBlock <? latestHeaderNumber)
  && (ffMilestoneThreshold <? u64 (latestHeaderNumber - latestMilestoneEndBlock)).
Definition getFastForwardMilestoneStartBlock (latestMilestoneEndBlock ffMilestoneBlockInterval : Z) : Z :=
  u64 (latestMilestoneEndBlock + ffMilestoneBlockInterval).

(** How many of the authors, from the start, may produce their block; block 0 has
    no author to check. *)
Fixpoint valid_authors (getBlockAuthor : Z -> outcome (list bytes)) (block : Z) (authors : list bytes)
    : outcome nat :=
  match authors with
  | [] => Ok 0%nat
  | a :: rest =>
      allowedAuthors ← getBlockAuthor block;
      if bool_decide (a ∈ allowedAuthors) || (block =? 0) then
        n ← valid_authors getBlockAuthor (u64 (block + 1)) rest; Ok (S n)
      else Ok 0%nat
  end.

(** [GenMilestoneProposition]; [canVoteProducers] is the answer of the bor
    keeper's [CanVoteProducers]. *)
Definition GenMilestoneProposition (ctx : Ctx) (s : MilestoneState) (canVoteProducers : bool)
    (getBlockAuthor : Z -> outcome (list bytes)) : outcome MilestoneProposition :=
  last ← (match GetLastMilestone s with
          | Ok m => Ok (Some m)
          | Err e => if decide (e = ErrNoMilestoneFound) then Ok None else Err e
          | Panic => Panic
          end);
  '(propStartBlock, latestHeader, lastHash, lastBlock) ←
    (match last with
     | None => Ok (0, None, [], 0)
     | Some m =>
         h ← of_option (ErrText "failed to get the latest header") (GetBorChainBlock None);
         params ← GetMilestoneParams s;
         let start := if isFastForwardMilestone (u64 (Number h)) (mi_EndBlock m) (FfMilestoneThreshold params)
                      then getFastForwardMilestoneStartBlock (mi_EndBlock m) (FfMilestoneBlockInterval params)
                      else u64 (mi_EndBlock m + 1) in
         Ok (start, Some h, mi_Hash m, mi_EndBlock m)
     end);
  params ← GetMilestoneParams s;
  '(parentHash, blockHashes, tds, authors, header) ←
    getBlockInfo propStartBlock (MaxMilestonePropositionLength params) latestHeader lastHash lastBlock;
  validateMilestonePropositionFork parentHash lastHash ≫= fun _ =>
  let '(latestNumber, latestHash) := actualHeadFields ctx header in
  let proposition hashes tds :=
    {| BlockHashes := hashes; StartBlockNumber := propStartBlock; ParentHash := parentHash;
       BlockTds := tds; LatestBlockNumber := latestNumber; LatestBlockHash := latestHash |} in
  if canVoteProducers then
    validIndex ← valid_authors getBlockAuthor propStartBlock authors;
    return_if (validIndex =? 0)%nat with ErrText "no valid block author found" ;;
    panic_when (length blockHashes <? validIndex)%nat || (length tds <? validIndex)%nat ;;
    Ok (proposition (take validIndex blockHashes) (take validIndex tds))
  else Ok (proposition blockHashes tds).
End propose.
