(* ===== verification/MilestoneVotes.v ===== *)
(** * Aggregation of the milestone propositions in the votes of a block

    Models [GetMajorityMilestoneProposition] and [GetMajorityActualHead] of
    [x/milestone/abci/abci.go].  The maps of the code are finite maps; the one
    iteration over a map whose order matters (the tournament over parents before
    Zurich) takes the runtime's order as a parameter. *)
From S2P Require Import Prelude SortedList Helpers External VoteTypes ValidatorSet.
#[local] Open Scope Z_scope.

Section aggregate.
Context {AC : AddressCodec} {VC : VoteCodec} {HF : HashFunction}.
Context (cfg : Config).

Definition ShouldErrorOnValidatorNotFound (height : Z) : bool :=
  (tallyFixHeight cfg <=? height) || (height <? disableValSetCheckHeight cfg).

Definition getParentChildKey (parent child : string) : string := parent ++ "-" ++ child.

(** ** Collecting the votes *)

Record Collected := {
  blockVotingPower : gmap Z Z;
  blockHashVotes : gmap Z (gmap string Z);
  blockToHashAndTd : gmap Z bytes;
  validatorVotes : gmap string (gmap Z bytes);
  validatorAddresses : gmap string bytes;
  valAddressToVotingPower : gmap string Z;
  parentHashes : gset string;
  parentHashToVotingPower : gmap string Z;
  processedValidators : gset string;
}.
Definition empty_collected : Collected :=
  {| blockVotingPower := ∅; blockHashVotes := ∅; blockToHashAndTd := ∅; validatorVotes := ∅;
     validatorAddresses := ∅; valAddressToVotingPower := ∅; parentHashes := ∅;
     parentHashToVotingPower := ∅; processedValidators := ∅ |}.

(** Reading a Go map: the zero value when the key is absent. *)
Definition map_get {K} `{Countable K} {A} (zero : A) (m : gmap K A) (k : K) : A :=
  match m !! k with Some a => a | None => zero end.

(** The vote of a validator for one block. *)
Definition collect_block (c : Collected) (valAddr : string) (power : Z) (parent : string)
    (blockNum : Z) (blockHashAndTd : bytes) : Collected :=
  let hashStr := Bytes2Hex blockHashAndTd in
  let votes := map_get ∅ (blockHashVotes c) blockNum in
  let hashPower := i64 (map_get 0 votes hashStr + power) in
  let best := map_get 0 (blockVotingPower c) blockNum in
  let takes_over := (best <? hashPower)
    || ((hashPower =? best) && str_ltb hashStr (Bytes2Hex (map_get [] (blockToHashAndTd c) blockNum))) in
  let key := getParentChildKey parent hashStr in
  {| blockVotingPower := <[blockNum := if takes_over then hashPower else best]> (blockVotingPower c);
     blockHashVotes := <[blockNum := <[hashStr := hashPower]> votes]> (blockHashVotes c);
     blockToHashAndTd := if takes_over then <[blockNum := blockHashAndTd]> (blockToHashAndTd c)
                         else blockToHashAndTd c;
     validatorVotes := <[valAddr := <[blockNum := blockHashAndTd]> (map_get ∅ (validatorVotes c) valAddr)]>
                         (validatorVotes c);
     validatorAddresses := validatorAddresses c;
     valAddressToVotingPower := valAddressToVotingPower c;
     parentHashes := parentHashes c;
     parentHashToVotingPower := <[key := i64 (map_get 0 (parentHashToVotingPower c) key + power)]>
                                  (parentHashToVotingPower c);
     processedValidators := processedValidators c |}.

(** The blocks of a proposition; a missing difficulty is an index out of range. *)
Fixpoint collect_blocks (c : Collected) (valAddr : string) (power : Z) (parent : string)
    (blockNum : Z) (hashes : list bytes) (tds : list Z) : outcome Collected :=
  match hashes, tds with
  | [], _ => Ok c
  | _ :: _, [] => Panic
  | blockHash :: hashes, blockTd :: tds =>
      collect_blocks (collect_block c valAddr power parent blockNum (blockHash ++ le64 blockTd))
        valAddr power parent (u64 (blockNum + 1)) hashes tds
  end.

Definition mark_processed (c : Collected) (valAddr : string) : Collected :=
  {| blockVotingPower := blockVotingPower c; blockHashVotes := blockHashVotes c;
     blockToHashAndTd := blockToHashAndTd c; validatorVotes := validatorVotes c;
     validatorAddresses := validatorAddresses c;
     valAddressToVotingPower := valAddressToVotingPower c; parentHashes := parentHashes c;
     parentHashToVotingPower := parentHashToVotingPower c;
     processedValidators := {[valAddr]} ∪ processedValidators c |}.
Definition register_validator (c : Collected) (valAddr : string) (addr : bytes) (power : Z) : Collected :=
  {| blockVotingPower := blockVotingPower c; blockHashVotes := blockHashVotes c;
     blockToHashAndTd := blockToHashAndTd c; validatorVotes := <[valAddr := ∅]> (validatorVotes c);
     validatorAddresses := <[valAddr := addr]> (validatorAddresses c);
     valAddressToVotingPower := <[valAddr := power]> (valAddressToVotingPower c);
     parentHashes := parentHashes c; parentHashToVotingPower := parentHashToVotingPower c;
     processedValidators := processedValidators c |}.
Definition add_parent (c : Collected) (parent : string) : Collected :=
  {| blockVotingPower := blockVotingPower c; blockHashVotes := blockHashVotes c;
     blockToHashAndTd := blockToHashAndTd c; validatorVotes := validatorVotes c;
     validatorAddresses := validatorAddresses c;
     valAddressToVotingPower := valAddressToVotingPower c;
     parentHashes := {[parent]} ∪ parentHashes c;
     parentHashToVotingPower := parentHashToVotingPower c;
     processedValidators := processedValidators c |}.

Definition collect_vote (ctx : Ctx) (validatorSet : ValidatorSet) (c : Collected) (vote : ExtendedVoteInfo)
    : outcome Collected :=
  if negb (bool_decide (vi_Flag vote = BlockIDFlagCommit)) then Ok c
  else
    voteExtension ← of_option (ErrText "error while unmarshalling vote extension")
                      (unmarshal_ve (vi_VoteExtension vote));
    match vx_MilestoneProposition voteExtension with
    | None => Ok c
    | Some prop =>
        valAddr ← BytesToString (vi_Address vote);
        if bool_decide (valAddr ∈ processedValidators c) then Ok c
        else
          let c := mark_processed c valAddr in
          match get_val validatorSet valAddr with
          | None =>
              return_if ShouldErrorOnValidatorNotFound (BlockHeight ctx) with ErrText "failed to get validator" ;;
              Ok c
          | Some validator =>
              let power := VotingPower validator in
              let parent := Bytes2Hex (ParentHash prop) in
              c ← collect_blocks (register_validator c valAddr (vi_Address vote) power) valAddr power parent
                    (StartBlockNumber prop) (BlockHashes prop) (BlockTds prop);
              Ok (add_parent c parent)
          end
    end.
Fixpoint collect_votes (ctx : Ctx) (validatorSet : ValidatorSet) (c : Collected)
    (votes : list ExtendedVoteInfo) : outcome Collected :=
  match votes with
  | [] => Ok c
  | v :: rest => c ← collect_vote ctx validatorSet c v; collect_votes ctx validatorSet c rest
  end.

(** ** The winning range *)

Definition majority_blocks (c : Collected) (majorityVP : Z) : list Z :=
  map fst (List.filter (fun b => majorityVP <=? b.2) (sort_by fst (map_to_list (blockVotingPower c)))).

(** The check of the parent against the hash of the last milestone. *)
Definition parent_supported (ctx : Ctx) (iteration_order : gset string -> list string) (c : Collected)
    (majorityVP : Z) (firstMajority startBlock : Z) (lastEndBlockHash : bytes) : bool :=
  let lastHex := Bytes2Hex lastEndBlockHash in
  let supported parent block :=
    majorityVP <=? map_get 0 (parentHashToVotingPower c)
      (getParentChildKey parent (Bytes2Hex (map_get [] (blockToHashAndTd c) block))) in
  if IsIthaca cfg (BlockHeight ctx) then supported lastHex startBlock
  else if IsZurichHardfork cfg (BlockHeight ctx) then supported lastHex firstMajority
  else
    match List.find (fun parent => supported parent firstMajority) (iteration_order (parentHashes c)) with
    | Some majorityParentHash => String.eqb majorityParentHash lastHex
    | None => false
    end.

(** The end of the first contiguous range from [startBlock]. *)
Fixpoint extend_range (endBlock : Z) (blocks : list Z) : Z :=
  match blocks with
  | [] => endBlock
  | b :: rest => if b =? u64 (endBlock + 1) then extend_range b rest else endBlock
  end.
Fixpoint range_end (startBlock : Z) (blocks : list Z) : Z :=
  match blocks with
  | [] => startBlock
  | b :: rest => if b =? startBlock then extend_range startBlock rest else range_end startBlock rest
  end.

(** [for i := startBlock; i <= endBlock; i++]: [None] when the counter wraps, in
    which case the loop does not end. *)
Fixpoint blocks_between (n : nat) (i endBlock : Z) : option (list Z) :=
  if i <=? endBlock then
    match n with
    | O => None
    | S n => option_map (cons i) (blocks_between n (u64 (i + 1)) endBlock)
    end
  else Some [].

Definition supports_range (c : Collected) (blocks : list Z) (votes : gmap Z bytes) : bool :=
  forallb (fun b => match votes !! b with
                    | Some hash => bool_decide (hash = map_get [] (blockToHashAndTd c) b)
                    | None => false
                    end) blocks.

(** The aggregated hash of the supporting validators. *)
Definition bar : bytes := [Byte.x7c].
Definition aggregate_hash (c : Collected) (supporters : list string) : bytes :=
  fold_left (fun h a => Keccak256 (h ++ bar ++ map_get [] (validatorAddresses c) a)) supporters [].

(** Splitting a hash and its difficulty again; shorter than 8 bytes panics. *)
Definition split_hash_td (b : bytes) : outcome (bytes * Z) :=
  panic_when (length b <? 8)%nat ;;
  Ok (take (length b - 8) b, le_decode (drop (length b - 8) b)).
Fixpoint split_all (l : list bytes) : outcome (list bytes * list Z) :=
  match l with
  | [] => Ok ([], [])
  | b :: rest =>
      '(hash, td) ← split_hash_td b; '(hashes, tds) ← split_all rest; Ok (hash :: hashes, td :: tds)
  end.

(** The result: the proposition (no parent, no head), the aggregated hash, the
    proposer and the ids of the supporters. *)
Definition MajorityResult : Type := MilestoneProposition * bytes * string * gset Z.

Definition GetMajorityMilestoneProposition (iteration_order : gset string -> list string) (ctx : Ctx)
    (validatorSet : ValidatorSet) (extVoteInfo : list ExtendedVoteInfo) (majorityVP : Z)
    (lastEndBlock : option Z) (lastEndBlockHash : bytes) : outcome (option MajorityResult) :=
  c ← collect_votes ctx validatorSet empty_collected extVoteInfo;
  let majorityBlocks := majority_blocks c majorityVP in
  match majorityBlocks with
  | [] => Ok None
  | firstMajority :: _ =>
      let startBlock := match lastEndBlock with
                        | Some e => if u64 (e + 1) <? firstMajority then firstMajority else u64 (e + 1)
                        | None => 0
                        end in
      if negb (bool_decide (startBlock ∈ majorityBlocks)) then Ok None
      else if negb (parent_supported ctx iteration_order c majorityVP firstMajority startBlock lastEndBlockHash)
      then Ok None
      else
        let endBlock := range_end startBlock majorityBlocks in
        match blocks_between (Z.to_nat (endBlock - startBlock + 1)) startBlock endBlock with
        | None => Panic
        | Some blocks =>
            let blockHashesAndTds := map (map_get [] (blockToHashAndTd c)) blocks in
            let supportingValidatorList := sort_by id
              (map fst (List.filter (fun v => supports_range c blocks v.2) (map_to_list (validatorVotes c)))) in
            let supportingValidatorIDs := list_to_set (flat_map
              (fun a => match get_val validatorSet a with Some v => [ValId v] | None => [] end)
              supportingValidatorList) in
            let totalSupportingPower := foldl
              (fun t a => i64 (t + map_get 0 (valAddressToVotingPower c) a)) 0 supportingValidatorList in
            if totalSupportingPower <? majorityVP then Ok None
            else
              let ranked := sort_by (fun a => - map_get 0 (valAddressToVotingPower c) a) supportingValidatorList in
              match ranked with
              | [] => Err (ErrText "no validators support the winning range")
              | proposer :: _ =>
                  '(blockHashes, blockTds) ← split_all blockHashesAndTds;
                  Ok (Some ({| BlockHashes := blockHashes; StartBlockNumber := startBlock; ParentHash := [];
                               BlockTds := blockTds; LatestBlockNumber := 0; LatestBlockHash := [] |},
                            aggregate_hash c ranked, proposer, supportingValidatorIDs))
              end
        end
  end.

(** ** The actual head *)

Record actualHeadTally := {
  power : gmap string Z;
  number : gmap string Z;
  hash : gmap string bytes;
}.
Definition head_key (number : Z) (hash : bytes) : string := Bytes2Hex (le64 number ++ hash).
Definition tally_add (t : actualHeadTally) (n : Z) (h : bytes) (vp : Z) : actualHeadTally :=
  let key := head_key n h in
  {| power := <[key := i64 (map_get 0 (power t) key + vp)]> (power t);
     number := <[key := n]> (number t); hash := <[key := h]> (hash t) |}.

(** The keys in order; [best] is the key and power found so far. *)
Fixpoint best_key (minMajorityVP : Z) (keys : list (string * Z)) (best : option (string * Z))
    : option (string * Z) :=
  match keys with
  | [] => best
  | (k, p) :: rest =>
      if p <? minMajorityVP then best_key minMajorityVP rest best
      else match best with
           | Some (_, bestPower) =>
               best_key minMajorityVP rest (if bestPower <? p then Some (k, p) else best)
           | None => best_key minMajorityVP rest (Some (k, p))
           end
  end.
Definition majority (t : actualHeadTally) (minMajorityVP : Z) : Z * bytes * bool :=
  match best_key minMajorityVP (sort_by fst (map_to_list (power t))) None with
  | Some (k, _) => (map_get 0 (number t) k, map_get [] (hash t) k, true)
  | None => (0, [], false)
  end.

Definition decodeActualHeadVote (vote : ExtendedVoteInfo) : outcome (option (Z * bytes)) :=
  if negb (bool_decide (vi_Flag vote = BlockIDFlagCommit)) then Ok None
  else
    ve ← of_option (ErrText "error while unmarshalling vote extension") (unmarshal_ve (vi_VoteExtension vote));
    match vx_MilestoneProposition ve with
    | None => Ok None
    | Some prop =>
        if (length (LatestBlockHash prop) =? 0)%nat then Ok None
        else Ok (Some (LatestBlockNumber prop, LatestBlockHash prop))
    end.

(** [resolveVoterPower]: the power, if the vote counts, and the processed
    validators. *)
Definition resolveVoterPower (ctx : Ctx) (validatorSet : ValidatorSet) (vote : ExtendedVoteInfo)
    (processed : gset string) : outcome (option Z * gset string) :=
  valAddr ← BytesToString (vi_Address vote);
  if bool_decide (valAddr ∈ processed) then Ok (None, processed)
  else
    let processed := {[valAddr]} ∪ processed in
    match get_val validatorSet valAddr with
    | None =>
        return_if ShouldErrorOnValidatorNotFound (BlockHeight ctx) with ErrText "failed to get validator" ;;
        Ok (None, processed)
    | Some v => Ok (Some (VotingPower v), processed)
    end.

Fixpoint tally_heads (ctx : Ctx) (validatorSet : ValidatorSet) (maxBlock : Z) (votes : list ExtendedVoteInfo)
    (t : actualHeadTally) (processed : gset string) : outcome actualHeadTally :=
  match votes with
  | [] => Ok t
  | vote :: rest =>
      head ← decodeActualHeadVote vote;
      match head with
      | None => tally_heads ctx validatorSet maxBlock rest t processed
      | Some (n, h) =>
          if maxBlock <? n then tally_heads ctx validatorSet maxBlock rest t processed
          else
            '(vp, processed) ← resolveVoterPower ctx validatorSet vote processed;
            tally_heads ctx validatorSet maxBlock rest
              (match vp with Some vp => tally_add t n h vp | None => t end) processed
      end
  end.
Definition tallyActualHeads (ctx : Ctx) (validatorSet : ValidatorSet) (extVoteInfo : list ExtendedVoteInfo)
    (maxBlock : Z) : outcome actualHeadTally :=
  tally_heads ctx validatorSet maxBlock extVoteInfo {| power := ∅; number := ∅; hash := ∅ |} ∅.

Definition GetMajorityActualHead (ctx : Ctx) (validatorSet : ValidatorSet)
    (extVoteInfo : list ExtendedVoteInfo) (minMajorityVP maxBlock : Z) : outcome (Z * bytes * bool) :=
  tally ← tallyActualHeads ctx validatorSet extVoteInfo maxBlock;
  Ok (majority tally minMajorityVP).
End aggregate.
