(* ===== verification/MilestoneCollect.v ===== *)
(** * What the votes of a block say about milestones

    The votes that count ([ballots_of]), the entries they make, and what the maps
    filled by [collect_votes] hold: exact sums of voting power per block and
    hash, the leading hash of each block, and the votes of every validator. *)
From S2P Require Import Prelude SortedList Helpers External VoteTypes ValidatorSet ValidatorSetFacts MilestoneVotes.
#[local] Open Scope Z_scope.

(** ** Entries and ballots *)

Record Entry := { e_addr : string; e_power : Z; e_parent : bytes; e_block : Z; e_data : bytes }.
Record Ballot := { b_addr : string; b_raw : bytes; b_power : Z; b_prop : MilestoneProposition }.

Fixpoint entries_from (addr : string) (power : Z) (parent : bytes) (block : Z)
    (hashes : list bytes) (tds : list Z) : list Entry :=
  match hashes, tds with
  | h :: hashes, td :: tds =>
      {| e_addr := addr; e_power := power; e_parent := parent; e_block := block; e_data := h ++ le64 td |}
      :: entries_from addr power parent (u64 (block + 1)) hashes tds
  | _, _ => []
  end.
Definition ballot_entries (b : Ballot) : list Entry :=
  entries_from (b_addr b) (b_power b) (ParentHash (b_prop b)) (StartBlockNumber (b_prop b))
    (BlockHashes (b_prop b)) (BlockTds (b_prop b)).
(** What a ballot says about a block: its last entry for it. *)
Definition votes_map (b : Ballot) : gmap Z bytes :=
  fold_left (fun m e => <[e_block e := e_data e]> m) (ballot_entries b) ∅.

Definition collect_entry (c : Collected) (e : Entry) : Collected :=
  collect_block c (e_addr e) (e_power e) (Bytes2Hex (e_parent e)) (e_block e) (e_data e).

Section ballots.
Context {AC : AddressCodec} {VC : VoteCodec} (cfg : Config).

(** The votes that count: committed, with a proposition, the first of their
    validator, by a validator of the set. *)
Fixpoint ballots_of (ctx : Ctx) (vs : ValidatorSet) (processed : gset string)
    (votes : list ExtendedVoteInfo) : outcome (list Ballot) :=
  match votes with
  | [] => Ok []
  | vote :: rest =>
      if negb (bool_decide (vi_Flag vote = BlockIDFlagCommit)) then ballots_of ctx vs processed rest
      else
        ve ← of_option (ErrText "error while unmarshalling vote extension") (unmarshal_ve (vi_VoteExtension vote));
        match vx_MilestoneProposition ve with
        | None => ballots_of ctx vs processed rest
        | Some prop =>
            valAddr ← BytesToString (vi_Address vote);
            if bool_decide (valAddr ∈ processed) then ballots_of ctx vs processed rest
            else
              match get_val vs valAddr with
              | None =>
                  return_if ShouldErrorOnValidatorNotFound cfg (BlockHeight ctx)
                    with ErrText "failed to get validator" ;;
                  ballots_of ctx vs ({[valAddr]} ∪ processed) rest
              | Some v =>
                  bs ← ballots_of ctx vs ({[valAddr]} ∪ processed) rest;
                  Ok ({| b_addr := valAddr; b_raw := vi_Address vote; b_power := VotingPower v; b_prop := prop |} :: bs)
              end
        end
  end.

Definition collect_ballot (c : Collected) (b : Ballot) : Collected :=
  add_parent (fold_left collect_entry (ballot_entries b)
                (register_validator (mark_processed c (b_addr b)) (b_addr b) (b_raw b) (b_power b)))
    (Bytes2Hex (ParentHash (b_prop b))).

Lemma collect_blocks_entries c addr power parent block hashes tds :
  (length hashes <= length tds)%nat ->
  collect_blocks c addr power (Bytes2Hex parent) block hashes tds
  = Ok (fold_left collect_entry (entries_from addr power parent block hashes tds) c).
Proof.
  revert c block tds. induction hashes as [|h hashes IH]; intros c block [|td tds] Hl; cbn in *; try done; try lia.
  rewrite IH by lia. done.
Qed.
Lemma collect_blocks_ok c addr power parent block hashes tds c' :
  collect_blocks c addr power parent block hashes tds = Ok c' -> (length hashes <= length tds)%nat.
Proof.
  revert c block tds. induction hashes as [|h hashes IH]; intros c block [|td tds]; cbn; try done; try lia.
  intros H%IH. lia.
Qed.

Definition complete (b : Ballot) : Prop :=
  (length (BlockHashes (b_prop b)) <= length (BlockTds (b_prop b)))%nat.

Lemma processed_fold es : forall c, processedValidators (fold_left collect_entry es c) = processedValidators c.
Proof. induction es as [|e es IH]; intros c; cbn; [done|]. by rewrite IH. Qed.

(** A validator that is not in the set is marked, nothing else: the collected
    maps are those of the ballots, up to the marks. *)
Definition same_maps (c c' : Collected) : Prop :=
  blockVotingPower c = blockVotingPower c' /\ blockHashVotes c = blockHashVotes c' /\
  blockToHashAndTd c = blockToHashAndTd c' /\ validatorVotes c = validatorVotes c' /\
  validatorAddresses c = validatorAddresses c' /\ valAddressToVotingPower c = valAddressToVotingPower c' /\
  parentHashes c = parentHashes c' /\ parentHashToVotingPower c = parentHashToVotingPower c'.

Lemma same_maps_entries es : forall c c', same_maps c c' ->
  same_maps (fold_left collect_entry es c) (fold_left collect_entry es c').
Proof.
  induction es as [|e es IH]; intros c c' H; cbn [fold_left]; [done|]. apply IH.
  destruct c, c'. unfold same_maps in H. cbn in H. destruct H as (-> & -> & -> & -> & -> & -> & -> & ->). done.
Qed.

Lemma same_maps_ballots bs : forall c c', same_maps c c' ->
  same_maps (fold_left collect_ballot bs c) (fold_left collect_ballot bs c').
Proof.
  induction bs as [|b bs IH]; intros c c' H; cbn [fold_left]; [done|]. apply IH.
  unfold collect_ballot. 
  assert (same_maps (fold_left collect_entry (ballot_entries b)
            (register_validator (mark_processed c (b_addr b)) (b_addr b) (b_raw b) (b_power b)))
          (fold_left collect_entry (ballot_entries b)
            (register_validator (mark_processed c' (b_addr b)) (b_addr b) (b_raw b) (b_power b)))) as H1.
  { apply same_maps_entries. destruct H as (? & ? & ? & ? & ? & ? & ? & ?).
    unfold same_maps. cbn. split_and!; congruence. }
  destruct H1 as (? & ? & ? & ? & ? & ? & ? & ?). unfold same_maps. cbn. split_and!; congruence.
Qed.

Lemma collect_votes_ballots ctx vs votes : forall c c',
  collect_votes cfg ctx vs c votes = Ok c' ->
  exists bs, ballots_of ctx vs (processedValidators c) votes = Ok bs /\ Forall complete bs /\
    same_maps c' (fold_left collect_ballot bs c).
Proof.
  induction votes as [|vote votes IH]; intros c c' H; cbn [collect_votes ballots_of] in *.
  { injection H as <-. exists []. split_and!; done. }
  ok_step H. unfold collect_vote in Ha. destruct (negb _).
  { injection Ha as <-. by apply IH. }
  ok_step Ha. rewrite Ha0. cbn [mbind outcome_bind of_option].
  destruct (vx_MilestoneProposition a0) as [prop|]; [|injection Ha as <-; by apply IH].
  ok_step Ha. rewrite Ha1. cbn [mbind outcome_bind].
  destruct (bool_decide _); [injection Ha as <-; by apply IH|].
  destruct (get_val vs a1) as [v|].
  - ok_step Ha. injection Ha as <-. pose proof (collect_blocks_ok _ _ _ _ _ _ _ _ Ha2) as Hl.
    rewrite collect_blocks_entries in Ha2 by done. injection Ha2 as <-.
    destruct (IH _ _ H) as (bs & Eb & Hc & Hs). cbn [add_parent processedValidators] in Eb.
    rewrite processed_fold in Eb. cbn [register_validator mark_processed processedValidators] in Eb.
    rewrite Eb. cbn [mbind outcome_bind]. eexists. split; [done|]. split; [by constructor|]. exact Hs.
  - ok_step Ha. injection Ha as <-. rewrite Hg. cbn [fail_if].
    destruct (IH _ _ H) as (bs & Eb & Hc & Hs). exists bs. split; [exact Eb|]. split; [done|].
    destruct (same_maps_ballots bs (mark_processed c a1) c) as (? & ? & ? & ? & ? & ? & ? & ?); [done|].
    destruct Hs as (? & ? & ? & ? & ? & ? & ? & ?). unfold same_maps. split_and!; congruence.
Qed.

(** Conversely, complete ballots are collected. *)
Lemma ballots_collect_votes ctx vs votes : forall c bs,
  ballots_of ctx vs (processedValidators c) votes = Ok bs -> Forall complete bs ->
  exists c', collect_votes cfg ctx vs c votes = Ok c'.
Proof.
  induction votes as [|vote votes IH]; intros c bs H HF; cbn [collect_votes ballots_of] in *; [eauto|].
  unfold collect_vote. destruct (negb _); [by eapply IH|]. ok_step H. rewrite Ha. cbn [mbind outcome_bind of_option].
  destruct (vx_MilestoneProposition a) as [prop|]; [|by eapply IH].
  ok_step H. rewrite Ha0. cbn [mbind outcome_bind]. destruct (bool_decide _); [by eapply IH|].
  destruct (get_val vs a0) as [v|].
  - ok_step H. injection H as <-. apply Forall_cons in HF as [Hc HF].
    rewrite collect_blocks_entries by exact Hc. cbn [mbind outcome_bind]. eapply IH; [|exact HF].
    cbn [add_parent processedValidators]. rewrite processed_fold. exact Ha1.
  - ok_step H. rewrite Hg. cbn [fail_if mbind outcome_bind]. by eapply IH.
Qed.
End ballots.

(** ** Sums of voting power *)

Definition esum (E : list Entry) (b : Z) (h : bytes) : Z :=
  Zsum (map (fun e => if bool_decide (e_block e = b /\ e_data e = h) then e_power e else 0) E).
Definition psum (E : list Entry) (p h : bytes) : Z :=
  Zsum (map (fun e => if bool_decide (e_parent e = p /\ e_data e = h) then e_power e else 0) E).

Lemma esum_app E E' b h : esum (E ++ E') b h = esum E b h + esum E' b h.
Proof. unfold esum. by rewrite map_app, Zsum_app. Qed.
Lemma psum_app E E' p h : psum (E ++ E') p h = psum E p h + psum E' p h.
Proof. unfold psum. by rewrite map_app, Zsum_app. Qed.
Lemma esum_one e b h : esum [e] b h = if bool_decide (e_block e = b /\ e_data e = h) then e_power e else 0.
Proof. unfold esum. cbn. lia. Qed.
Lemma psum_one e p h : psum [e] p h = if bool_decide (e_parent e = p /\ e_data e = h) then e_power e else 0.
Proof. unfold psum. cbn. lia. Qed.
Lemma esum_nonneg E b h : Forall (fun e => 0 < e_power e) E -> 0 <= esum E b h.
Proof.
  intros HF. apply Zsum_nonneg, Forall_map. eapply Forall_impl; [exact HF|]. cbn. intros e He.
  case_bool_decide; lia.
Qed.
Lemma psum_nonneg E p h : Forall (fun e => 0 < e_power e) E -> 0 <= psum E p h.
Proof.
  intros HF. apply Zsum_nonneg, Forall_map. eapply Forall_impl; [exact HF|]. cbn. intros e He.
  case_bool_decide; lia.
Qed.

Definition best (c : Collected) (b : Z) : Z := map_get 0 (blockVotingPower c) b.
Definition lead (c : Collected) (b : Z) : bytes := map_get [] (blockToHashAndTd c) b.

(** The maps hold exact sums; the leader of a block has the most power and, of
    those, the smallest text. *)
Record entries_ok (c : Collected) (E : list Entry) : Prop := {
  eo_hash b h : map_get 0 (map_get ∅ (blockHashVotes c) b) (Bytes2Hex h) = esum E b h;
  eo_parent p h : map_get 0 (parentHashToVotingPower c) (getParentChildKey (Bytes2Hex p) (Bytes2Hex h)) = psum E p h;
  eo_lead b : best c b = esum E b (lead c b);
  eo_max b h : esum E b h <= best c b;
  eo_tie b h : esum E b h = best c b -> 0 < best c b -> str_ltb (Bytes2Hex h) (Bytes2Hex (lead c b)) = false;
  eo_keys b : is_Some (blockVotingPower c !! b) <-> exists e, e ∈ E /\ e_block e = b;
}.

Lemma map_get_insert_eq {K} `{Countable K} {A} (z : A) (m : gmap K A) k a : map_get z (<[k := a]> m) k = a.
Proof. unfold map_get. by rewrite lookup_insert_eq. Qed.
Lemma map_get_insert_ne {K} `{Countable K} {A} (z : A) (m : gmap K A) k k' a : k <> k' ->
  map_get z (<[k := a]> m) k' = map_get z m k'.
Proof. intros Hk. unfold map_get. by rewrite lookup_insert_ne. Qed.

Lemma str_ltb_trans a b c : str_ltb a b = true -> str_ltb b c = true -> str_ltb a c = true.
Proof. exact (@kltb_trans string string_key_order a b c). Qed.
Lemma str_ltb_irrefl a : str_ltb a a = false.
Proof. exact (@kltb_irrefl string string_key_order a). Qed.

Lemma hex_digit_no_dash n : (n < 16)%N -> hex_digit n <> "-"%char.
Proof.
  intros Hn. unfold hex_digit. intros E%(f_equal N_of_ascii).
  rewrite N_ascii_embedding in E by (case_match; lia). change (N_of_ascii "-"%char) with 45%N in E.
  case_match; lia.
Qed.

(** The keys of parent and child determine both. *)
Lemma parent_child_key_inj p h p' h' :
  getParentChildKey (Bytes2Hex p) (Bytes2Hex h) = getParentChildKey (Bytes2Hex p') (Bytes2Hex h') ->
  p = p' /\ h = h'.
Proof.
  unfold getParentChildKey. revert p'. induction p as [|x p IH]; intros [|y p'] E; cbn in E.
  - injection E as E. split; [done|]. by apply Bytes2Hex_inj.
  - exfalso. injection E as E _. symmetry in E. revert E. apply hex_digit_no_dash.
    pose proof (byte_lt_256 y). apply N.Div0.div_lt_upper_bound. lia.
  - exfalso. injection E as E _. revert E. apply hex_digit_no_dash.
    pose proof (byte_lt_256 x). apply N.Div0.div_lt_upper_bound. lia.
  - injection E as E1 E2 E3. apply IH in E3 as [-> ->]. split; [|done].
    assert (Bytes2Hex (x :: p') = Bytes2Hex (y :: p')) as E4 by (cbn; congruence).
    by apply Bytes2Hex_inj in E4.
Qed.

Lemma entries_ok_nil : entries_ok empty_collected [].
Proof.
  split; intros *; unfold best, lead; cbn; unfold map_get; rewrite ?lookup_empty; try done.
  split; [by intros []|]. intros (e & He & _). by apply not_elem_of_nil in He.
Qed.

Lemma hashVotes_step c e b h :
  map_get 0 (map_get ∅ (blockHashVotes (collect_entry c e)) b) (Bytes2Hex h)
  = if bool_decide (e_block e = b /\ e_data e = h)
    then i64 (map_get 0 (map_get ∅ (blockHashVotes c) b) (Bytes2Hex h) + e_power e)
    else map_get 0 (map_get ∅ (blockHashVotes c) b) (Bytes2Hex h).
Proof.
  cbn. destruct (decide (e_block e = b)) as [<-|Hb].
  - rewrite map_get_insert_eq. destruct (decide (e_data e = h)) as [<-|Hh].
    + rewrite map_get_insert_eq. by rewrite bool_decide_true.
    + rewrite map_get_insert_ne by (by intros E%Bytes2Hex_inj). by rewrite bool_decide_false by tauto.
  - rewrite map_get_insert_ne by done. by rewrite bool_decide_false by tauto.
Qed.

Lemma parentVotes_step c e p h :
  map_get 0 (parentHashToVotingPower (collect_entry c e)) (getParentChildKey (Bytes2Hex p) (Bytes2Hex h))
  = if bool_decide (e_parent e = p /\ e_data e = h)
    then i64 (map_get 0 (parentHashToVotingPower c) (getParentChildKey (Bytes2Hex p) (Bytes2Hex h)) + e_power e)
    else map_get 0 (parentHashToVotingPower c) (getParentChildKey (Bytes2Hex p) (Bytes2Hex h)).
Proof.
  cbn. case_bool_decide as Hd.
  - destruct Hd as [<- <-]. by rewrite map_get_insert_eq.
  - rewrite map_get_insert_ne; [done|]. intros E%parent_child_key_inj. tauto.
Qed.

(** The new leader of the block of an entry. *)
Lemma lead_step c e (v := i64 (map_get 0 (map_get ∅ (blockHashVotes c) (e_block e)) (Bytes2Hex (e_data e)) + e_power e)) b :
  let over := (best c (e_block e) <? v) || ((v =? best c (e_block e))
                && str_ltb (Bytes2Hex (e_data e)) (Bytes2Hex (lead c (e_block e)))) in
  best (collect_entry c e) b = (if bool_decide (e_block e = b) then if over then v else best c b else best c b) /\
  lead (collect_entry c e) b = (if bool_decide (e_block e = b) && over then e_data e else lead c b).
Proof.
  intros over. unfold over, best, lead, collect_entry, collect_block. clear over.
  cbn [blockVotingPower blockToHashAndTd]. fold v. generalize v. clear v. intros v.
  set (over := (_ <? v) || _).
  destruct (decide (e_block e = b)) as [<-|Hb].
  - rewrite bool_decide_true, map_get_insert_eq by done. split; [done|]. cbn [andb].
    destruct over; [by rewrite map_get_insert_eq|done].
  - rewrite bool_decide_false, map_get_insert_ne by done. split; [done|]. cbn [andb].
    destruct over; [by rewrite map_get_insert_ne|done].
Qed.

(** ** One more entry *)

Section step.
Context (c : Collected) (E : list Entry) (e : Entry).
Hypothesis HI : entries_ok c E.

(** The power behind the entry's data with the entry, and whether it takes the lead. *)
Definition entry_sum : Z := esum (E ++ [e]) (e_block e) (e_data e).
Definition overtakes : bool :=
  (best c (e_block e) <? entry_sum)
  || ((entry_sum =? best c (e_block e)) && str_ltb (Bytes2Hex (e_data e)) (Bytes2Hex (lead c (e_block e)))).

Lemma esum_step b h : esum (E ++ [e]) b h = esum E b h + (if bool_decide (e_block e = b /\ e_data e = h) then e_power e else 0).
Proof. by rewrite esum_app, esum_one. Qed.
Lemma esum_step_other b h : ~ (e_block e = b /\ e_data e = h) -> esum (E ++ [e]) b h = esum E b h.
Proof. intros Hne. rewrite esum_step, bool_decide_false by tauto. lia. Qed.
Lemma esum_step_self : entry_sum = esum E (e_block e) (e_data e) + e_power e.
Proof. unfold entry_sum. by rewrite esum_step, bool_decide_true. Qed.

Lemma overtakes_true : overtakes = true -> best c (e_block e) <= entry_sum.
Proof. unfold overtakes. intros [?|[? _]%andb_true_iff]%orb_true_iff; bool_hyps; lia. Qed.
Lemma overtakes_false : 0 < e_power e -> overtakes = false ->
  entry_sum <= best c (e_block e) /\ lead c (e_block e) <> e_data e /\
  (entry_sum = best c (e_block e) -> str_ltb (Bytes2Hex (e_data e)) (Bytes2Hex (lead c (e_block e))) = false).
Proof.
  unfold overtakes. intros He [H1 H2]%orb_false_iff. bool_hyps. split; [lia|]. split.
  - intros E1. pose proof (eo_lead _ _ HI (e_block e)) as Hl. rewrite E1 in Hl. pose proof esum_step_self. lia.
  - intros E1. apply andb_false_iff in H2 as [H2|H2]; [bool_hyps; lia|done].
Qed.

(** The sums stay in range. *)
Hypothesis HF : Forall (fun e => 0 < e_power e) (E ++ [e]).
Hypothesis HM : forall b h, esum (E ++ [e]) b h <= MaxInt64.
Hypothesis HPM : forall p h, psum (E ++ [e]) p h <= MaxInt64.

Lemma step_positive : Forall (fun e => 0 < e_power e) E /\ 0 < e_power e.
Proof. apply Forall_app in HF as [HE He]. split; [done|]. by apply Forall_inv in He. Qed.
Lemma esum_step_i64 b h :
  i64 (esum E b h + (if bool_decide (e_block e = b /\ e_data e = h) then e_power e else 0)) = esum (E ++ [e]) b h.
Proof.
  rewrite <- esum_step. apply i64_id. pose proof (esum_nonneg (E ++ [e]) b h HF). specialize (HM b h).
  unfold in_i64, MinInt64, MaxInt64 in *. lia.
Qed.

Lemma best_step b : best (collect_entry c e) b = (if bool_decide (e_block e = b)
    then if overtakes then entry_sum else best c b else best c b) /\
  lead (collect_entry c e) b = (if bool_decide (e_block e = b) && overtakes then e_data e else lead c b).
Proof.
  pose proof (lead_step c e b) as H.
  assert (i64 (map_get 0 (map_get ∅ (blockHashVotes c) (e_block e)) (Bytes2Hex (e_data e)) + e_power e) = entry_sum) as Ev.
  { rewrite (eo_hash _ _ HI). unfold entry_sum. rewrite <- esum_step_i64. by rewrite bool_decide_true. }
  by rewrite Ev in H.
Qed.

Lemma step_lead b : best (collect_entry c e) b = esum (E ++ [e]) b (lead (collect_entry c e) b).
Proof.
  destruct (best_step b) as [-> ->]. case_bool_decide as Hb; cbn [andb].
  - subst b. destruct overtakes eqn:Eo; [done|]. destruct (overtakes_false (proj2 step_positive) Eo) as (_ & Hne & _).
    rewrite esum_step_other by (intros []; congruence). apply HI.
  - rewrite esum_step_other by tauto. apply HI.
Qed.
Lemma step_max b h : esum (E ++ [e]) b h <= best (collect_entry c e) b.
Proof.
  destruct (best_step b) as [-> _]. case_bool_decide as Hb; [|rewrite esum_step_other by tauto; apply HI].
  subst b. destruct (decide (e_data e = h)) as [<-|Hne].
  - fold entry_sum. destruct overtakes eqn:Eo; [lia|]. by apply (overtakes_false (proj2 step_positive)).
  - rewrite esum_step_other by (intros []; congruence). pose proof (eo_max _ _ HI (e_block e) h).
    destruct overtakes eqn:Eo; [pose proof (overtakes_true Eo); lia|done].
Qed.
Lemma step_tie b h : esum (E ++ [e]) b h = best (collect_entry c e) b -> 0 < best (collect_entry c e) b ->
  str_ltb (Bytes2Hex h) (Bytes2Hex (lead (collect_entry c e) b)) = false.
Proof.
  destruct (best_step b) as [-> ->]. case_bool_decide as Hb; cbn [andb]; [|rewrite esum_step_other by tauto; apply HI].
  subst b. destruct overtakes eqn:Eo; intros E1 Hpos.
  - destruct (decide (e_data e = h)) as [<-|Hne]; [apply str_ltb_irrefl|].
    rewrite esum_step_other in E1 by (intros []; congruence). pose proof (eo_max _ _ HI (e_block e) h).
    pose proof (overtakes_true Eo). assert (esum E (e_block e) h = best c (e_block e)) as E2 by lia.
    unfold overtakes in Eo. apply orb_true_iff in Eo as [Eo|Eo]; bool_hyps; [lia|].
    apply not_true_iff_false. intros E3. pose proof (str_ltb_trans _ _ _ E3 H2) as E4.
    rewrite (eo_tie _ _ HI _ _ E2) in E4; [done|lia].
  - destruct (overtakes_false (proj2 step_positive) Eo) as (_ & _ & H3).
    destruct (decide (e_data e = h)) as [<-|Hne]; [by apply H3|].
    rewrite esum_step_other in E1 by (intros []; congruence). by apply (eo_tie _ _ HI).
Qed.

Lemma entries_ok_step : entries_ok (collect_entry c e) (E ++ [e]).
Proof.
  split; [| |exact step_lead|exact step_max|exact step_tie|].
  - intros b h. rewrite hashVotes_step, (eo_hash _ _ HI). case_bool_decide as Hd.
    + destruct Hd as [<- <-]. by rewrite <- esum_step_i64, bool_decide_true.
    + by rewrite esum_step_other by tauto.
  - intros p h. rewrite parentVotes_step, (eo_parent _ _ HI), psum_app, psum_one. pose proof (HPM p h) as Hp.
    rewrite psum_app, psum_one in Hp. pose proof (psum_nonneg E p h (proj1 step_positive)). destruct step_positive.
    case_bool_decide; [|lia]. apply i64_id. unfold in_i64, MinInt64, MaxInt64 in *. lia.
  - intros b. cbn. rewrite lookup_insert_is_Some', (eo_keys _ _ HI). setoid_rewrite elem_of_app. setoid_rewrite list_elem_of_singleton.
    split.
    + intros [Hb|(x & Hx & Hb)]; [exists e; auto|exists x; auto].
    + intros (x & [Hx| ->] & Hb); [right; eauto|auto].
Qed.
End step.

(** ** All the ballots *)

Lemma entries_ok_ext c c' E : blockVotingPower c' = blockVotingPower c ->
  blockHashVotes c' = blockHashVotes c -> blockToHashAndTd c' = blockToHashAndTd c ->
  parentHashToVotingPower c' = parentHashToVotingPower c -> entries_ok c E -> entries_ok c' E.
Proof. intros E1 E2 E3 E4 []. split; intros *; unfold best, lead in *; rewrite ?E1, ?E2, ?E3, ?E4; auto. Qed.

(** What keeps the sums exact. *)
Definition bounded (E : list Entry) : Prop :=
  Forall (fun e => 0 < e_power e) E /\
  (forall b h, esum E b h <= MaxInt64) /\ (forall p h, psum E p h <= MaxInt64).

Lemma bounded_app_l E E' : bounded (E ++ E') -> bounded E.
Proof.
  intros (HF & H1 & H2). apply Forall_app in HF as [HF HF']. split_and!; [done| |].
  - intros b h. specialize (H1 b h). rewrite esum_app in H1. pose proof (esum_nonneg E' b h HF'). lia.
  - intros p h. specialize (H2 p h). rewrite psum_app in H2. pose proof (psum_nonneg E' p h HF'). lia.
Qed.

Lemma entries_ok_entries es : forall c E, entries_ok c E -> bounded (E ++ es) ->
  entries_ok (fold_left collect_entry es c) (E ++ es).
Proof.
  induction es as [|e es IH]; intros c E H HB; cbn [fold_left]; [by rewrite app_nil_r|].
  replace (E ++ e :: es) with ((E ++ [e]) ++ es) in * by (by rewrite <- app_assoc).
  apply IH; [|done]. apply bounded_app_l in HB as (HF & H1 & H2). by apply entries_ok_step.
Qed.

Definition all_entries (bs : list Ballot) : list Entry := flat_map ballot_entries bs.

Lemma entries_ok_ballots bs : forall c E, entries_ok c E -> bounded (E ++ all_entries bs) ->
  entries_ok (fold_left collect_ballot bs c) (E ++ all_entries bs).
Proof.
  induction bs as [|b bs IH]; intros c E H HB; cbn [fold_left all_entries flat_map] in *; [by rewrite app_nil_r|].
  fold (all_entries bs) in *. rewrite app_assoc in *. apply IH; [|done].
  eapply entries_ok_ext; [..|eapply entries_ok_entries]; [done..| |by eapply bounded_app_l].
  by eapply entries_ok_ext; [..|exact H].
Qed.

Lemma validatorVotes_entries a es : forall c m, validatorVotes c !! a = Some m ->
  Forall (fun e => e_addr e = a) es ->
  validatorVotes (fold_left collect_entry es c)
  = <[a := fold_left (fun m e => <[e_block e := e_data e]> m) es m]> (validatorVotes c).
Proof.
  induction es as [|e es IH]; intros c m Hm HF; cbn [fold_left]; [by rewrite insert_id|].
  apply Forall_cons in HF as [He HF]. rewrite (IH _ (<[e_block e := e_data e]> m)); [|cbn|done].
  - cbn. rewrite He. unfold map_get. rewrite Hm. by rewrite insert_insert_eq.
  - rewrite He. unfold map_get. rewrite Hm. apply lookup_insert_eq.
Qed.

Lemma other_maps_entries es : forall c,
  validatorAddresses (fold_left collect_entry es c) = validatorAddresses c /\
  valAddressToVotingPower (fold_left collect_entry es c) = valAddressToVotingPower c /\
  parentHashes (fold_left collect_entry es c) = parentHashes c.
Proof.
  induction es as [|e es IH]; intros c; cbn [fold_left]; [done|].
  destruct (IH (collect_entry c e)) as (-> & -> & ->). done.
Qed.

Lemma ballot_entries_addr b : Forall (fun e => e_addr e = b_addr b /\ e_power e = b_power b /\
  e_parent e = ParentHash (b_prop b)) (ballot_entries b).
Proof.
  unfold ballot_entries. generalize (StartBlockNumber (b_prop b)) (BlockTds (b_prop b)).
  induction (BlockHashes (b_prop b)) as [|h hs IH]; intros n [|td tds]; cbn; constructor; auto.
Qed.

Lemma collect_ballot_maps c b :
  validatorVotes (collect_ballot c b) = <[b_addr b := votes_map b]> (validatorVotes c) /\
  validatorAddresses (collect_ballot c b) = <[b_addr b := b_raw b]> (validatorAddresses c) /\
  valAddressToVotingPower (collect_ballot c b) = <[b_addr b := b_power b]> (valAddressToVotingPower c) /\
  parentHashes (collect_ballot c b) = {[Bytes2Hex (ParentHash (b_prop b))]} ∪ parentHashes c.
Proof.
  unfold collect_ballot. cbn [add_parent validatorVotes validatorAddresses valAddressToVotingPower parentHashes].
  set (c0 := register_validator _ _ _ _).
  destruct (other_maps_entries (ballot_entries b) c0) as (-> & -> & ->).
  rewrite (validatorVotes_entries (b_addr b) _ c0 ∅).
  - split; [|done]. cbn. by rewrite insert_insert_eq.
  - cbn. apply lookup_insert_eq.
  - eapply Forall_impl; [apply ballot_entries_addr|]. by intros e (? & _).
Qed.

(** Inserting the values of a list without repeated keys. *)
Lemma fold_insert_map {K} `{Countable K} {A V} (k : A -> K) (v : A -> V) l : forall m : gmap K V,
  NoDup (map k l) ->
  fold_left (fun m x => <[k x := v x]> m) l m = list_to_map (map (fun x => (k x, v x)) l) ∪ m.
Proof.
  induction l as [|x l IH]; intros m ND; cbn [fold_left map].
  { cbn. by rewrite map_empty_union. }
  cbn [map] in ND. apply NoDup_cons in ND as [Hx ND]. rewrite IH by done.
  change (list_to_map ((k x, v x) :: map (fun x => (k x, v x)) l))
    with (<[k x := v x]> (list_to_map (map (fun x => (k x, v x)) l)) : gmap K V).
  rewrite <- insert_union_l, insert_union_r; [done|].
  apply not_elem_of_list_to_map_1. by rewrite <- list_fmap_compose.
Qed.

Lemma collected_maps bs : NoDup (map b_addr bs) ->
  let c := fold_left collect_ballot bs empty_collected in
  validatorVotes c = list_to_map (map (fun b => (b_addr b, votes_map b)) bs) /\
  validatorAddresses c = list_to_map (map (fun b => (b_addr b, b_raw b)) bs) /\
  valAddressToVotingPower c = list_to_map (map (fun b => (b_addr b, b_power b)) bs) /\
  (forall p, p ∈ parentHashes c <-> exists b, b ∈ bs /\ Bytes2Hex (ParentHash (b_prop b)) = p).
Proof.
  intros ND c.
  assert (forall c0, validatorVotes (fold_left collect_ballot bs c0)
            = fold_left (fun m b => <[b_addr b := votes_map b]> m) bs (validatorVotes c0) /\
          validatorAddresses (fold_left collect_ballot bs c0)
            = fold_left (fun m b => <[b_addr b := b_raw b]> m) bs (validatorAddresses c0) /\
          valAddressToVotingPower (fold_left collect_ballot bs c0)
            = fold_left (fun m b => <[b_addr b := b_power b]> m) bs (valAddressToVotingPower c0) /\
          forall p, p ∈ parentHashes (fold_left collect_ballot bs c0) <->
            p ∈ parentHashes c0 \/ exists b, b ∈ bs /\ Bytes2Hex (ParentHash (b_prop b)) = p) as H.
  { clear. induction bs as [|b bs IH]; intros c0; cbn [fold_left].
    - split_and!; try done. intros p. split; [auto|]. intros [?|(x & Hx & _)]; [done|by apply not_elem_of_nil in Hx].
    - destruct (collect_ballot_maps c0 b) as (E1 & E2 & E3 & E4). destruct (IH (collect_ballot c0 b)) as (-> & -> & -> & Hp).
      rewrite E1, E2, E3. split_and!; try done. intros p. rewrite Hp, E4, elem_of_union, elem_of_singleton.
      setoid_rewrite elem_of_cons. split.
      + intros [[->|?]|(x & Hx & Ex)]; [right; exists b; auto|auto|right; exists x; auto].
      + intros [?|(x & [->|Hx] & Ex)]; [auto|subst; auto|right; eauto]. }
  destruct (H empty_collected) as (E1 & E2 & E3 & E4). subst c. rewrite E1, E2, E3.
  rewrite !fold_insert_map by done. cbn [empty_collected validatorVotes validatorAddresses valAddressToVotingPower].
  rewrite !map_union_empty. split_and!; try done.
  intros p. rewrite E4. cbn. rewrite elem_of_empty. tauto.
Qed.

(** ** The ballots that count *)

Section counted.
Context {AC : AddressCodec} {VC : VoteCodec} (cfg : Config).

Lemma ballots_of_spec ctx vs votes : forall processed bs,
  ballots_of cfg ctx vs processed votes = Ok bs ->
  NoDup (map b_addr bs) /\
  Forall (fun b => b_addr b ∉ processed /\ BytesToString (b_raw b) = Ok (b_addr b) /\
    exists v, get_val vs (b_addr b) = Some v /\ b_power b = VotingPower v) bs.
Proof.
  induction votes as [|vote votes IH]; intros processed bs H; cbn [ballots_of] in H.
  { injection H as <-. split; constructor. }
  destruct (negb _); [by apply IH|]. ok_step H.
  destruct (vx_MilestoneProposition a) as [prop|]; [|by apply IH]. ok_step H.
  destruct (bool_decide _) eqn:Ep; [by apply IH|]. apply bool_decide_eq_false in Ep.
  destruct (get_val vs a0) as [v|] eqn:Ev.
  - ok_step H. injection H as <-. destruct (IH _ _ Ha1) as [ND HF]. split.
    + cbn. constructor; [|done]. intros (b & Eb & Hb)%list_elem_of_fmap. rewrite Forall_forall in HF.
      destruct (HF b Hb) as [Hn _]. apply Hn. rewrite <- Eb. set_solver.
    + constructor; [cbn; eauto|]. eapply Forall_impl; [exact HF|]. cbn. intros b (Hn & ? & ?). split; [set_solver|auto].
  - ok_step H. destruct (IH _ _ H) as [ND HF]. split; [done|].
    eapply Forall_impl; [exact HF|]. cbn. intros b (Hn & ? & ?). split; [set_solver|auto].
Qed.

(** Distinct members of a set have together at most the power of the set. *)
Lemma counted_power {A} (addr : A -> string) (pw : A -> Z) vs bs : wf vs -> NoDup (map addr bs) ->
  Forall (fun b => FormatAddress (addr b) = addr b /\ exists v, get_val vs (addr b) = Some v /\ pw b = VotingPower v) bs ->
  Zsum (map pw bs) <= powers (Validators vs) /\ Forall (fun b => 0 < pw b) bs.
Proof.
  intros Hwf ND HF.
  assert (exists ms, Forall2 (fun b v => vaddr v = addr b /\ v ∈ Validators vs /\ pw b = VotingPower v) bs ms) as [ms Hms].
  { clear ND. induction HF as [|b bs (Eb & v & Ev & Hp) HF [ms IH]]; [by exists []|].
    exists (v :: ms). constructor; [|done]. rewrite get_val_find in Ev by (by apply wf_sorted).
    apply find_by_Some in Ev as [Hin Hk]. rewrite Eb in Hk. done. }
  assert (map pw bs = map VotingPower ms /\ map addr bs = map vaddr ms /\ (forall v, v ∈ ms -> v ∈ Validators vs))
    as (E1 & E2 & Hin).
  { clear -Hms. induction Hms as [|b v bs ms (? & ? & ?) Hms (E1 & E2 & IH)]; cbn.
    - split_and!; try done. intros v Hv. by apply not_elem_of_nil in Hv.
    - split_and!; [congruence..|]. intros x [->|Hx]%elem_of_cons; [done|by apply IH]. }
  pose proof (wf_power_nonneg _ Hwf) as HP. pose proof (wf_power _ Hwf) as HP'. rewrite Forall_forall in HP'.
  split.
  - rewrite E1. assert (ms ⊆+ Validators vs) as Hsub.
    { apply NoDup_submseteq; [|done]. rewrite E2 in ND. by apply (NoDup_fmap_1 vaddr). }
    apply submseteq_Permutation in Hsub as [r Er]. unfold powers.
    rewrite (Zsum_perm _ _ (Permutation_map VotingPower Er)), map_app, Zsum_app.
    rewrite Er in HP. apply Forall_app in HP as [_ Hr].
    assert (0 <= Zsum (map VotingPower r)); [|lia]. by apply Zsum_nonneg, Forall_map.
  - clear -Hms HP'. induction Hms as [|b v bs ms (? & Hv & Eb) Hms IH]; constructor; [|done].
    rewrite Eb. by apply HP'.
Qed.

Definition formatted_codec : Prop := forall b a, BytesToString b = Ok a -> FormatAddress a = a.

Lemma ballots_power ctx vs votes bs l : formatted_codec -> wf vs ->
  ballots_of cfg ctx vs ∅ votes = Ok bs -> l ⊆+ bs ->
  Zsum (map b_power l) <= powers (Validators vs) /\ Forall (fun b => 0 < b_power b) bs.
Proof.
  intros HC Hwf H Hl. destruct (ballots_of_spec _ _ _ _ _ H) as [ND HF].
  destruct (counted_power b_addr b_power vs bs Hwf ND) as [Hle Hpos].
  { eapply Forall_impl; [exact HF|]. cbn. intros b (_ & E & Hv). split; [by eapply HC|done]. }
  split; [|done]. apply submseteq_Permutation in Hl as [r Er].
  rewrite (Zsum_perm _ _ (Permutation_map b_power Er)), map_app, Zsum_app in Hle.
  rewrite Er in Hpos. apply Forall_app in Hpos as [_ Hr].
  assert (0 <= Zsum (map b_power r)); [|lia]. apply Zsum_nonneg, Forall_map. eapply Forall_impl; [exact Hr|]. cbn. lia.
Qed.
End counted.

(** ** Ballots that pass validation *)

(** As many difficulties as hashes, no hash twice, and no wrap-around. *)
Record sound_ballot (b : Ballot) : Prop := {
  sb_complete : length (BlockTds (b_prop b)) = length (BlockHashes (b_prop b));
  sb_distinct : NoDup (BlockHashes (b_prop b));
  sb_start : 0 <= StartBlockNumber (b_prop b);
  sb_end : StartBlockNumber (b_prop b) + Z.of_nat (length (BlockHashes (b_prop b))) <= MaxUint64;
}.

Lemma entries_from_lookup addr pw parent n hs : forall tds i e,
  0 <= n -> n + Z.of_nat (length hs) <= MaxUint64 ->
  entries_from addr pw parent n hs tds !! i = Some e <->
  exists h td, hs !! i = Some h /\ tds !! i = Some td /\
    e = {| e_addr := addr; e_power := pw; e_parent := parent; e_block := n + Z.of_nat i; e_data := h ++ le64 td |}.
Proof.
  revert n. induction hs as [|h hs IH]; intros n [|td tds] i e Hn Hm; cbn [entries_from length] in *;
    try (split; [done|]; intros (? & ? & ? & ? & _); by destruct i).
  destruct i as [|i]; cbn [lookup list_lookup].
  - split; [intros [= <-]; exists h, td; split_and!; try done; by rewrite Z.add_0_r|].
    intros (h' & td' & [= <-] & [= <-] & ->). by rewrite Z.add_0_r.
  - rewrite (u64_id (n + 1)) by (unfold in_u64; lia).
    change (entries_from addr pw parent (n + 1) hs tds !! i = Some e <-> exists h0 td0, hs !! i = Some h0 /\
      tds !! i = Some td0 /\ e = {| e_addr := addr; e_power := pw; e_parent := parent;
        e_block := n + Z.of_nat (S i); e_data := h0 ++ le64 td0 |}).
    rewrite IH by lia. by replace (n + 1 + Z.of_nat i) with (n + Z.of_nat (S i)) by lia.
Qed.

Lemma sound_entries_blocks b : sound_ballot b -> NoDup (map e_block (ballot_entries b)).
Proof.
  intros [Hc Hd Hs He]. apply NoDup_alt. intros i j x Hi Hj.
  change (map e_block ?l) with (e_block <$> l) in Hi, Hj. rewrite list_lookup_fmap_Some in Hi. rewrite list_lookup_fmap_Some in Hj.
  destruct Hi as (e & -> & Ei), Hj as (e' & E & Ej).
  apply entries_from_lookup in Ei as (? & ? & _ & _ & ->), Ej as (? & ? & _ & _ & ->); [|done..]. cbn in E. lia.
Qed.

Lemma le64_app_inj h h' td td' : h ++ le64 td = h' ++ le64 td' -> h = h'.
Proof.
  intros E. assert (length h = length h') as El.
  { apply (f_equal length) in E. rewrite !length_app in E. unfold le64 in E. rewrite !length_le_encode in E. lia. }
  by apply app_inj_1 in E as [? _].
Qed.

Lemma sound_entries_data b : sound_ballot b -> NoDup (map e_data (ballot_entries b)).
Proof.
  intros [Hc Hd Hs He]. apply NoDup_alt. intros i j x Hi Hj.
  change (map e_data ?l) with (e_data <$> l) in Hi, Hj. rewrite list_lookup_fmap_Some in Hi. rewrite list_lookup_fmap_Some in Hj.
  destruct Hi as (e & -> & Ei), Hj as (e' & E & Ej).
  apply entries_from_lookup in Ei as (h & ? & Hh & _ & ->), Ej as (h' & ? & Hh' & _ & ->); [|done..].
  cbn in E. apply le64_app_inj in E as ->. by eapply NoDup_lookup.
Qed.

Lemma votes_map_lookup b n d : sound_ballot b ->
  votes_map b !! n = Some d <-> exists e, e ∈ ballot_entries b /\ e_block e = n /\ e_data e = d.
Proof.
  intros Hs. pose proof (sound_entries_blocks b Hs) as ND.
  unfold votes_map. rewrite (fold_insert_map e_block e_data) by done. rewrite map_union_empty.
  rewrite <- elem_of_list_to_map by (by rewrite <- list_fmap_compose).
  change (map ?f ?l) with (f <$> l). rewrite list_elem_of_fmap. split.
  - intros (e & [= -> ->] & He). eauto.
  - intros (e & He & <- & <-). eauto.
Qed.

Lemma votes_map_at b i h td : sound_ballot b ->
  BlockHashes (b_prop b) !! i = Some h -> BlockTds (b_prop b) !! i = Some td ->
  votes_map b !! (StartBlockNumber (b_prop b) + Z.of_nat i) = Some (h ++ le64 td).
Proof.
  intros Hs Hh Htd. apply votes_map_lookup; [done|].
  eexists {| e_addr := _; e_power := _; e_parent := _; e_block := _; e_data := h ++ le64 td |}.
  split; [|split; reflexivity]. eapply list_elem_of_lookup_2 with (i := i).
  apply entries_from_lookup; [by destruct Hs..|]. exists h, td. done.
Qed.

Lemma votes_map_outside b n d : sound_ballot b -> votes_map b !! n = Some d ->
  exists i, n = StartBlockNumber (b_prop b) + Z.of_nat i /\ (i < length (BlockHashes (b_prop b)))%nat.
Proof.
  intros Hs (e & He & <- & _)%votes_map_lookup; [|done]. apply list_elem_of_lookup in He as [i Hi].
  apply entries_from_lookup in Hi as (h & td & Hh & _ & ->); [|by destruct Hs..]. exists i. split; [done|].
  by eapply lookup_lt_Some.
Qed.

(** ** Sums over ballots *)

Definition power_of (P : Ballot -> bool) (bs : list Ballot) : Z :=
  Zsum (map (fun b => if P b then b_power b else 0) bs).

Definition votes_for (n : Z) (d : bytes) (b : Ballot) : bool := bool_decide (votes_map b !! n = Some d).
Definition has_parent (p : bytes) (b : Ballot) : bool := bool_decide (ParentHash (b_prop b) = p).

Lemma sum_none {A} (w : A -> Z) (P : A -> Prop) `{forall x, Decision (P x)} l :
  (forall x, x ∈ l -> ~ P x) -> Zsum (map (fun x => if bool_decide (P x) then w x else 0) l) = 0.
Proof.
  induction l as [|x l IH]; intros Hn; [done|]. cbn [map]. rewrite Zsum_cons.
  rewrite bool_decide_false by (apply Hn; left). rewrite IH; [done|]. intros y Hy. apply Hn. by right.
Qed.
Lemma sum_unique {A B} (w : A -> Z) (k : A -> B) (P : A -> Prop) `{forall x, Decision (P x)} l x :
  NoDup (map k l) -> (forall y, P y -> k y = k x) -> x ∈ l -> P x ->
  Zsum (map (fun x => if bool_decide (P x) then w x else 0) l) = w x.
Proof.
  induction l as [|y l IH]; intros ND Hk Hx HP; [by apply not_elem_of_nil in Hx|].
  cbn [map] in *. rewrite Zsum_cons. apply NoDup_cons in ND as [Hy ND]. apply elem_of_cons in Hx as [->|Hx].
  - rewrite bool_decide_true by done. rewrite sum_none; [lia|]. intros z Hz HPz. apply Hy. rewrite <- (Hk z HPz).
    by apply list_elem_of_fmap_2.
  - rewrite bool_decide_false; [rewrite IH by done; lia|]. intros HPy. apply Hy. rewrite (Hk y HPy).
    by apply list_elem_of_fmap_2.
Qed.

Lemma esum_ballot b n d : sound_ballot b ->
  esum (ballot_entries b) n d = if votes_for n d b then b_power b else 0.
Proof.
  intros Hs. unfold votes_for, esum. case_bool_decide as Hv.
  - apply votes_map_lookup in Hv as (e & He & <- & <-); [|done].
    rewrite (sum_unique e_power e_block _ _ e); [|by apply sound_entries_blocks|by intros y [? _]|done|done].
    pose proof (ballot_entries_addr b) as HF. rewrite Forall_forall in HF. by apply HF.
  - apply sum_none. intros e He [E1 E2]. apply Hv. apply votes_map_lookup; eauto.
Qed.

Lemma psum_ballot_le b p d : sound_ballot b -> 0 < b_power b ->
  psum (ballot_entries b) p d <= if has_parent p b then b_power b else 0.
Proof.
  intros Hs Hp. unfold psum, has_parent. pose proof (ballot_entries_addr b) as HF. rewrite Forall_forall in HF.
  destruct (decide (Exists (fun e => e_parent e = p /\ e_data e = d) (ballot_entries b))) as [Hex|Hno].
  - apply Exists_exists in Hex as (e & He & E1 & E2).
    rewrite (sum_unique e_power e_data _ _ e); [|by apply sound_entries_data|by intros y [_ ->]|done|done].
    destruct (HF e He) as (_ & -> & E3). rewrite bool_decide_true; [done|congruence].
  - rewrite sum_none; [case_bool_decide; lia|]. intros e He HP. apply Hno, Exists_exists. eauto.
Qed.
Lemma psum_ballot_ge b p n d : sound_ballot b -> has_parent p b = true -> votes_map b !! n = Some d ->
  psum (ballot_entries b) p d = b_power b.
Proof.
  intros Hs Hp Hv. apply bool_decide_eq_true in Hp. apply votes_map_lookup in Hv as (e & He & _ & E2); [|done].
  pose proof (ballot_entries_addr b) as HF. rewrite Forall_forall in HF. destruct (HF e He) as (_ & Ew & E3).
  unfold psum. rewrite (sum_unique e_power e_data _ _ e); [done|by apply sound_entries_data|by intros y [_ ->]|done|].
  split; congruence.
Qed.

(** ** Sums over all ballots *)

Lemma power_of_perm P l l' : l ≡ₚ l' -> power_of P l = power_of P l'.
Proof. intros H. unfold power_of. apply Zsum_perm. by apply Permutation_map. Qed.
Lemma power_of_cons P b bs : power_of P (b :: bs) = (if P b then b_power b else 0) + power_of P bs.
Proof. done. Qed.
Lemma power_of_app P l l' : power_of P (l ++ l') = power_of P l + power_of P l'.
Proof. unfold power_of. by rewrite map_app, Zsum_app. Qed.
Lemma power_of_nonneg P bs : Forall (fun b => 0 < b_power b) bs -> 0 <= power_of P bs.
Proof.
  intros H. apply Zsum_nonneg, Forall_map. eapply Forall_impl; [exact H|]. cbn. intros b Hb. destruct (P b); lia.
Qed.
Lemma power_of_all P bs : (forall b, b ∈ bs -> P b = true) -> power_of P bs = Zsum (map b_power bs).
Proof.
  induction bs as [|b bs IH]; intros H; [done|]. cbn [map]. rewrite power_of_cons, Zsum_cons, H by left.
  rewrite IH; [done|]. intros x Hx. apply H. by right.
Qed.

(** Disjoint groups share the total; a group within [P] has at most its power. *)
Lemma power_of_disjoint P Q bs : Forall (fun b => 0 < b_power b) bs ->
  (forall b, b ∈ bs -> P b = true -> Q b = false) -> power_of P bs + power_of Q bs <= Zsum (map b_power bs).
Proof.
  induction 1 as [|b bs Hb HF IH]; intros H; [done|]. cbn [map]. rewrite !power_of_cons, Zsum_cons.
  specialize (IH (fun x Hx => H x (list_elem_of_further _ _ _ Hx))). specialize (H b ltac:(left)).
  destruct (P b), (Q b); try lia; by specialize (H eq_refl).
Qed.
Lemma power_of_sub P l bs : Forall (fun b => 0 < b_power b) bs -> l ⊆+ bs ->
  (forall b, b ∈ l -> P b = true) -> Zsum (map b_power l) <= power_of P bs.
Proof.
  intros HF Hl HP. apply submseteq_Permutation in Hl as [r Er].
  rewrite (power_of_perm P _ _ Er), power_of_app, (power_of_all P l) by done.
  rewrite Er in HF. apply Forall_app in HF as [_ HF]. pose proof (power_of_nonneg P r HF). lia.
Qed.
Lemma power_of_le P Q bs : Forall (fun b => 0 < b_power b) bs -> (forall b, b ∈ bs -> P b = true -> Q b = true) ->
  power_of P bs <= power_of Q bs.
Proof.
  induction 1 as [|b bs Hb HF IH]; intros H; [done|]. rewrite !power_of_cons.
  specialize (IH (fun x Hx => H x (list_elem_of_further _ _ _ Hx))). specialize (H b ltac:(left)).
  destruct (P b); [rewrite H by done|destruct (Q b)]; lia.
Qed.

Lemma esum_ballots bs n d : Forall sound_ballot bs -> esum (all_entries bs) n d = power_of (votes_for n d) bs.
Proof.
  induction 1 as [|b bs Hb HF IH]; [done|]. unfold all_entries. cbn [flat_map]. fold (all_entries bs).
  by rewrite esum_app, power_of_cons, esum_ballot, IH.
Qed.
Lemma psum_ballots_le bs p d : Forall sound_ballot bs -> Forall (fun b => 0 < b_power b) bs ->
  psum (all_entries bs) p d <= power_of (has_parent p) bs.
Proof.
  induction 1 as [|b bs Hb HF IH]; intros HP; [done|]. apply Forall_cons in HP as [Hp HP].
  unfold all_entries. cbn [flat_map]. fold (all_entries bs). rewrite psum_app, power_of_cons.
  pose proof (psum_ballot_le b p d Hb Hp). specialize (IH HP). lia.
Qed.
Lemma psum_ballots_ge bs p n d : Forall sound_ballot bs -> Forall (fun b => 0 < b_power b) bs ->
  power_of (fun b => has_parent p b && votes_for n d b) bs <= psum (all_entries bs) p d.
Proof.
  induction 1 as [|b bs Hb HF IH]; intros HP; [done|]. apply Forall_cons in HP as [Hp HP].
  unfold all_entries. cbn [flat_map]. fold (all_entries bs). rewrite psum_app, power_of_cons. specialize (IH HP).
  destruct (has_parent p b) eqn:E1; cbn [andb].
  - destruct (votes_for n d b) eqn:E2.
    + rewrite (psum_ballot_ge b p n d) by (try done; by apply bool_decide_eq_true in E2). lia.
    + assert (0 <= psum (ballot_entries b) p d); [|lia]. apply psum_nonneg.
      eapply Forall_impl; [apply ballot_entries_addr|]. cbn. intros e (_ & -> & _). done.
  - assert (0 <= psum (ballot_entries b) p d); [|lia]. apply psum_nonneg.
    eapply Forall_impl; [apply ballot_entries_addr|]. cbn. intros e (_ & -> & _). done.
Qed.

Lemma ballots_bounded bs : Forall sound_ballot bs -> Forall (fun b => 0 < b_power b) bs ->
  Zsum (map b_power bs) <= MaxInt64 -> bounded (all_entries bs).
Proof.
  intros HS HP HM.
  assert (forall P, power_of P bs <= Zsum (map b_power bs)) as Hle.
  { intros P. rewrite <- (power_of_all (fun _ => true)) by done. by apply power_of_le. }
  split_and!.
  - unfold all_entries. apply Forall_flat_map. eapply Forall_impl; [exact HP|]. cbn. intros b Hb.
    eapply Forall_impl; [apply ballot_entries_addr|]. cbn. intros e (_ & -> & _). done.
  - intros n d. rewrite esum_ballots by done. specialize (Hle (votes_for n d)). lia.
  - intros p d. pose proof (psum_ballots_le bs p d HS HP). specialize (Hle (has_parent p)). lia.
Qed.
