(* ===== verification/MilestoneCorrect.v ===== *)
(** * Correctness of the milestone aggregation

    What a finalised milestone stands for: who supports it, that nothing
    conflicting could have been finalised, and that a proposition shared by a
    supermajority is finalised as it is. *)
From S2P Require Import Prelude SortedList Helpers External VoteTypes ValidatorSet ValidatorSetFacts.
From S2P Require Import Milestone MilestoneVotes MilestoneCollect.
#[local] Open Scope Z_scope.

(** ** Ranges of blocks *)

Lemma blocks_between_max n i e : in_u64 i -> MaxUint64 <= e -> blocks_between n i e = None.
Proof.
  revert i. induction n as [|n IH]; intros i Hi He; cbn [blocks_between];
    (destruct (Z.leb_spec i e); [|unfold in_u64 in Hi; lia]); [done|].
  rewrite IH; [done|apply u64_range|done].
Qed.

Lemma blocks_between_seq n i e l : in_u64 i -> blocks_between n i e = Some l -> l = seqZ i (e - i + 1).
Proof.
  revert i l. induction n as [|n IH]; intros i l Hi; cbn [blocks_between]; destruct (Z.leb_spec i e) as [Hle|Hgt].
  - done.
  - intros [= <-]. by rewrite seqZ_nil by lia.
  - destruct (blocks_between n (u64 (i + 1)) e) as [l'|] eqn:E; [|done]. intros [= <-].
    destruct (Z.eq_dec i MaxUint64) as [->|].
    { rewrite blocks_between_max in E; [done|apply u64_range|done]. }
    rewrite u64_id in E by (unfold in_u64 in *; lia).
    rewrite (IH (i + 1) l' ltac:(unfold in_u64 in *; lia) E). rewrite (seqZ_cons i) by lia. f_equal. f_equal; lia.
  - intros [= <-]. by rewrite seqZ_nil by lia.
Qed.

Lemma blocks_between_total n i e : in_u64 i -> e < MaxUint64 -> e - i + 1 <= Z.of_nat n ->
  blocks_between n i e = Some (seqZ i (e - i + 1)).
Proof.
  intros Hi He Hn.
  assert (exists l, blocks_between n i e = Some l) as [l E].
  { revert i Hi Hn. induction n as [|n IH]; intros i Hi Hn; cbn [blocks_between];
      (destruct (Z.leb_spec i e); [|eauto]); [lia|].
    rewrite u64_id by (unfold in_u64 in *; lia).
    destruct (IH (i + 1)) as [l ->]; [unfold in_u64 in *; lia|lia|]. cbn. eauto. }
  rewrite E. f_equal. by eapply blocks_between_seq.
Qed.

(** ** Splitting hashes and difficulties *)

Lemma le_encode_decode b : le_encode (length b) (le_decode b) = b.
Proof.
  induction b as [|x b IH]; cbn [length le_decode le_encode]; [done|].
  pose proof (byte_lt_256 x).
  assert (Z.of_N (Byte.to_N x) + 256 * le_decode b = Z.of_N (Byte.to_N x) + le_decode b * 256) as -> by lia.
  f_equal.
  - unfold byte_of_Z. rewrite Z.mod_add, Z.mod_small by lia. rewrite N2Z.id. by rewrite Byte.of_to_N.
  - rewrite Z.div_add, Z.div_small by lia. exact IH.
Qed.

Lemma split_hash_td_ok d h td : split_hash_td d = Ok (h, td) -> d = h ++ le64 td.
Proof.
  unfold split_hash_td. intros H. ok_step H. injection H as <- <-. apply Nat.ltb_ge in Hg.
  assert (length (drop (length d - 8) d) = 8%nat) as El by (rewrite length_drop; lia).
  pose proof (le_encode_decode (drop (length d - 8) d)) as Ed. rewrite El in Ed. unfold le64. rewrite Ed.
  by rewrite take_drop.
Qed.
Lemma split_hash_td_app h td : in_u64 td -> split_hash_td (h ++ le64 td) = Ok (h, td).
Proof.
  intros Htd. unfold split_hash_td.
  assert (length (le64 td) = 8%nat) as El by apply length_le_encode.
  rewrite length_app, El. destruct (Nat.ltb_spec (length h + 8) 8); [lia|]. cbn [panic_if].
  replace (length h + 8 - 8)%nat with (length h) by lia.
  rewrite take_app_length, drop_app_length. by rewrite le64_decode.
Qed.

Lemma split_all_ok l : forall hs tds, split_all l = Ok (hs, tds) ->
  length hs = length l /\ length tds = length l /\
  forall i h td, hs !! i = Some h -> tds !! i = Some td -> l !! i = Some (h ++ le64 td).
Proof.
  induction l as [|d l IH]; intros hs tds H; cbn [split_all] in H.
  { injection H as <- <-. split_and!; done. }
  destruct (split_hash_td d) as [[h td]| |] eqn:E; [|done..]. cbn [mbind outcome_bind] in H.
  destruct (split_all l) as [[hs' tds']| |]; [|done..]. injection H as <- <-.
  apply split_hash_td_ok in E. destruct (IH _ _ eq_refl) as (H1 & H2 & H3). cbn. split_and!; [lia|lia|].
  intros [|i] h' td'; cbn; [by intros [= <-] [= <-]; rewrite E|apply H3].
Qed.
Lemma split_all_app l : forall hs tds, length hs = length tds -> Forall in_u64 tds ->
  l = zip_with (fun h td => h ++ le64 td) hs tds -> split_all l = Ok (hs, tds).
Proof.
  induction l as [|d l IH]; intros [|h hs] [|td tds] Hl HF E; try done.
  cbn [zip_with] in E. injection E as -> E. apply Forall_cons in HF as [Htd HF]. cbn [split_all].
  rewrite split_hash_td_app by done. cbn [mbind outcome_bind]. rewrite (IH hs tds); [done|cbn in Hl; lia|done|done].
Qed.

(** ** Supporters *)

Section majority.
Context {AC : AddressCodec} {VC : VoteCodec} {HF : HashFunction} (cfg : Config).

(** What the generated decoder and the address codec promise: numbers are
    uint64, and addresses come formatted. *)
Record codec_ok : Prop := {
  ck_formatted : formatted_codec;
  ck_u64 b ve p : unmarshal_ve b = Some ve -> vx_MilestoneProposition ve = Some p ->
    in_u64 (StartBlockNumber p) /\ Forall in_u64 (BlockTds p);
}.

Definition in_range_votes (c : Collected) (blocks : list Z) (b : Ballot) : bool :=
  supports_range c blocks (votes_map b).

(** The validators found by the code are those of the supporting ballots. *)
Lemma supporters_perm c blocks bs : NoDup (map b_addr bs) ->
  validatorVotes c = list_to_map (map (fun b => (b_addr b, votes_map b)) bs) ->
  sort_by id (map fst (List.filter (fun v => supports_range c blocks v.2) (map_to_list (validatorVotes c))))
    ≡ₚ map b_addr (List.filter (in_range_votes c blocks) bs).
Proof.
  intros ND ->. rewrite (sort_by_perm id).
  assert (map_to_list (list_to_map (map (fun b => (b_addr b, votes_map b)) bs) : gmap string (gmap Z bytes))
    ≡ₚ map (fun b => (b_addr b, votes_map b)) bs) as Hp.
  { apply map_to_list_to_map. by rewrite <- list_fmap_compose. }
  assert (forall l l' : list (string * gmap Z bytes), l ≡ₚ l' ->
    List.filter (fun v => supports_range c blocks v.2) l ≡ₚ List.filter (fun v => supports_range c blocks v.2) l') as Hf.
  { induction 1 as [|x l l' _ IH|x y l|]; cbn; [done| | |by etrans].
    - destruct (supports_range _ _ _); [by constructor|done].
    - destruct (supports_range _ _ x.2), (supports_range _ _ y.2); try done. by constructor. }
  rewrite (Permutation_map fst (Hf _ _ Hp)). clear.
  induction bs as [|b bs IH]; cbn; [done|]. unfold in_range_votes at 1.
  destruct (supports_range c blocks (votes_map b)); cbn; by rewrite IH.
Qed.

Lemma map_get_list_to_map {V} (z : V) (v : Ballot -> V) bs b : NoDup (map b_addr bs) -> b ∈ bs ->
  map_get z (list_to_map (map (fun b => (b_addr b, v b)) bs) : gmap string V) (b_addr b) = v b.
Proof.
  intros ND Hb. unfold map_get. rewrite (elem_of_list_to_map_1 _ (b_addr b) (v b)); [done| |].
  - by rewrite <- list_fmap_compose.
  - apply list_elem_of_fmap. eauto.
Qed.

Lemma foldl_i64_sum (f : string -> Z) l acc : Forall (fun a => 0 <= f a) l -> 0 <= acc ->
  acc + Zsum (map f l) <= MaxInt64 -> foldl (fun t a => i64 (t + f a)) acc l = acc + Zsum (map f l).
Proof.
  intros H. revert acc. induction H as [|a l Ha HF' IH]; intros acc Hacc Hm; cbn [foldl map] in *; [cbn; lia|].
  rewrite Zsum_cons in *. assert (0 <= Zsum (map f l)) by by apply Zsum_nonneg, Forall_map.
  rewrite i64_id by (unfold in_i64, MinInt64; lia). rewrite IH by lia. lia.
Qed.

(** The total the code computes is the power of the supporting ballots. *)
Lemma total_support ctx vs votes bs c blocks :
  codec_ok -> wf vs -> ballots_of cfg ctx vs ∅ votes = Ok bs ->
  validatorVotes c = list_to_map (map (fun b => (b_addr b, votes_map b)) bs) ->
  valAddressToVotingPower c = list_to_map (map (fun b => (b_addr b, b_power b)) bs) ->
  let sup := List.filter (in_range_votes c blocks) bs in
  let l := sort_by id (map fst (List.filter (fun v => supports_range c blocks v.2) (map_to_list (validatorVotes c)))) in
  foldl (fun t a => i64 (t + map_get 0 (valAddressToVotingPower c) a)) 0 l = Zsum (map b_power sup).
Proof.
  intros HC Hwf Hb Hv Hp sup l. destruct (ballots_of_spec _ _ _ _ _ _ Hb) as [ND _].
  assert (l ≡ₚ map b_addr sup) as Hl by (by apply supporters_perm).
  destruct (ballots_power cfg ctx vs votes bs sup (ck_formatted HC) Hwf Hb (filter_submseteq _ _)) as [Hle Hpos].
  assert (map (map_get 0 (valAddressToVotingPower c)) (map b_addr sup) = map b_power sup) as Em.
  { rewrite map_map. apply map_ext_in. intros b Hin. apply list_elem_of_In, list_filter_elem in Hin as [Hin _].
    rewrite Hp. by apply map_get_list_to_map. }
  assert (Zsum (map (map_get 0 (valAddressToVotingPower c)) l) = Zsum (map b_power sup)) as Es.
  { rewrite (Zsum_perm _ _ (Permutation_map (map_get 0 (valAddressToVotingPower c)) Hl)). by rewrite Em. }
  rewrite foldl_i64_sum; [lia| |lia|].
  - rewrite Hl. apply Forall_map, Forall_forall. intros b Hin. apply list_filter_elem in Hin as [Hin _].
    rewrite Hp, map_get_list_to_map by done. rewrite Forall_forall in Hpos. specialize (Hpos b Hin). lia.
  - rewrite Es. pose proof (wf_sum _ Hwf). pose proof MaxTotalVotingPower_eq. unfold MaxInt64. lia.
Qed.

(** ** The blocks that are keys *)

Definition keys_u64 (c : Collected) : Prop := forall b, is_Some (blockVotingPower c !! b) -> in_u64 b.

Lemma keys_u64_entries es : forall c, keys_u64 c -> Forall (fun e => in_u64 (e_block e)) es ->
  keys_u64 (fold_left collect_entry es c).
Proof.
  induction es as [|e es IH]; intros c H HFo; cbn [fold_left]; [done|].
  apply Forall_cons in HFo as [He HFo]. apply IH; [|done]. intros b. cbn.
  intros [<-|Hb]%lookup_insert_is_Some'; [done|by apply H].
Qed.

Lemma entries_from_u64 addr pw parent n hs tds : in_u64 n ->
  Forall (fun e => in_u64 (e_block e)) (entries_from addr pw parent n hs tds).
Proof.
  revert n tds. induction hs as [|h hs IH]; intros n [|td tds] Hn; cbn; constructor; [done|].
  apply IH, u64_range.
Qed.

Lemma ballots_u64 (HC : codec_ok) ctx vs votes : forall processed bs, ballots_of cfg ctx vs processed votes = Ok bs ->
  Forall (fun b => in_u64 (StartBlockNumber (b_prop b)) /\ Forall in_u64 (BlockTds (b_prop b))) bs.
Proof.
  induction votes as [|vote votes IH]; intros processed bs H; cbn [ballots_of] in H; [injection H as <-; constructor|].
  destruct (negb _); [by eapply IH|]. ok_step H.
  destruct (vx_MilestoneProposition a) as [prop|] eqn:Ev; [|by eapply IH]. ok_step H.
  destruct (bool_decide _); [by eapply IH|]. destruct (get_val vs a0).
  - ok_step H. injection H as <-. constructor; [|by eapply IH]. cbn.
    apply of_option_ok in Ha. exact (ck_u64 HC _ _ _ Ha Ev).
  - ok_step H. by eapply IH.
Qed.

Lemma keys_u64_ballots bs : forall c, keys_u64 c ->
  Forall (fun b => in_u64 (StartBlockNumber (b_prop b)) /\ Forall in_u64 (BlockTds (b_prop b))) bs ->
  keys_u64 (fold_left collect_ballot bs c).
Proof.
  induction bs as [|b bs IH]; intros c H HFo; cbn [fold_left]; [done|].
  apply Forall_cons in HFo as [[Hb _] HFo]. apply IH; [|done].
  apply (keys_u64_entries (ballot_entries b)); [exact H|]. by apply entries_from_u64.
Qed.

Lemma majority_blocks_elem c m b :
  b ∈ majority_blocks c m <-> exists p, blockVotingPower c !! b = Some p /\ m <= p.
Proof.
  unfold majority_blocks. change (map ?f ?l) with (f <$> l). rewrite list_elem_of_fmap. split.
  - intros ([x p] & -> & Hin). apply list_filter_elem in Hin as [Hin Hm]. bool_hyps.
    rewrite (sort_by_perm fst), elem_of_map_to_list in Hin. eauto.
  - intros (p & E & Hm). exists (b, p). split; [done|]. apply list_filter_elem.
    rewrite (sort_by_perm fst), elem_of_map_to_list. split; [done|]. cbn. lia.
Qed.

Lemma majority_blocks_sorted c m : ssorted id (majority_blocks c m).
Proof.
  unfold majority_blocks. assert (ssorted fst (sort_by fst (map_to_list (blockVotingPower c)))) as H
    by (apply sort_by_ssorted, NoDup_fst_map_to_list).
  induction H as [|x l Hs IH Hx]; cbn; [constructor|]. destruct (m <=? x.2); [|exact IH]. cbn.
  constructor; [exact IH|]. apply Forall_map. apply Forall_forall. intros y Hy.
  apply list_filter_elem in Hy as [Hy _]. rewrite Forall_forall in Hx. exact (Hx y Hy).
Qed.

(** The end of the range: not before the start, and the blocks up to it are
    majority blocks. *)
Lemma extend_range_spec e l : ssorted id (e :: l) -> in_u64 e ->
  e <= extend_range e l /\ forall b, e < b <= extend_range e l -> b ∈ l.
Proof.
  revert e. induction l as [|x l IH]; intros e Hs He; cbn [extend_range]; [split; [lia|intros; lia]|].
  inversion Hs as [|? ? Hs' Hx]; subst. apply Forall_cons in Hx as [Hx _]. unfold key_lt in Hx. cbn in Hx.
  apply Z.ltb_lt in Hx. destruct (Z.eqb_spec x (u64 (e + 1))) as [E|]; [|split; [lia|intros; lia]].
  assert (x = e + 1) as ->.
  { destruct (Z.eq_dec e MaxUint64) as [->|Hne].
    - change (u64 (MaxUint64 + 1)) with 0 in E. unfold MaxUint64 in *. lia.
    - rewrite u64_id in E; [done|unfold in_u64 in *; lia]. }
  assert (in_u64 (e + 1)) as Hu by (rewrite E; apply u64_range).
  destruct (IH (e + 1) Hs' Hu) as [H1 H2]. split; [lia|]. intros b Hb.
  destruct (Z.eq_dec b (e + 1)) as [->|]; [left|]. right. apply H2. lia.
Qed.
Lemma range_end_spec start l : ssorted id l -> in_u64 start -> start ∈ l ->
  start <= range_end start l /\ forall b, start <= b <= range_end start l -> b ∈ l.
Proof.
  intros Hs Hu. induction l as [|x l IH]; intros Hin; [by apply not_elem_of_nil in Hin|]. cbn [range_end].
  destruct (Z.eqb_spec x start) as [->|Hne].
  - destruct (extend_range_spec start l Hs Hu) as [H1 H2]. split; [done|]. intros b Hb.
    destruct (Z.eq_dec b start) as [->|]; [left|]. right. apply H2. lia.
  - apply elem_of_cons in Hin as [->|Hin]; [done|]. inversion Hs as [|? ? Hs' _]; subst.
    destruct IH as [I1 I2]; [done..|]. split; [done|]. intros b Hb. right. by apply I2.
Qed.

(** ** What a result is made of *)

Lemma same_maps_lead c c' : same_maps c c' -> forall b, lead c b = lead c' b.
Proof. intros (_ & _ & E & _) b. unfold lead. by rewrite E. Qed.

(** The ids of the supporters' addresses. *)
Lemma supporter_ids vs (l : list string) (sup : list Ballot) i : l ≡ₚ map b_addr sup ->
  i ∈ flat_map (fun a => match get_val vs a with Some v => [ValId v] | None => [] end) l <->
  exists b v, b ∈ sup /\ get_val vs (b_addr b) = Some v /\ ValId v = i.
Proof.
  intros Hl. rewrite list_elem_of_In, in_flat_map. setoid_rewrite <- list_elem_of_In. setoid_rewrite Hl. split.
  - intros (a & Ha & Hi). change (map ?f ?k) with (f <$> k) in Ha. apply list_elem_of_fmap in Ha as (b & -> & Hb).
    exists b. destruct (get_val vs (b_addr b)) as [v|]; [|by apply not_elem_of_nil in Hi].
    apply list_elem_of_singleton in Hi as ->. eauto.
  - intros (b & v & Hb & Ev & <-). exists (b_addr b). split; [by apply list_elem_of_fmap_2|]. rewrite Ev. left.
Qed.

Lemma majority_result order ctx vs votes m lastEnd lastHash prop agg proposer ids :
  codec_ok -> wf vs ->
  GetMajorityMilestoneProposition cfg order ctx vs votes m lastEnd lastHash
    = Ok (Some (prop, agg, proposer, ids)) ->
  exists c bs blocks, ballots_of cfg ctx vs ∅ votes = Ok bs /\ same_maps c (fold_left collect_ballot bs empty_collected) /\
    let start := StartBlockNumber prop in
    let sup := List.filter (in_range_votes c blocks) bs in
    blocks = seqZ start (Z.of_nat (length (BlockHashes prop))) /\ blocks <> [] /\
    start ∈ majority_blocks c m /\ (forall e, lastEnd = Some e -> u64 (e + 1) <= start) /\
    (IsIthaca cfg (BlockHeight ctx) = true ->
       m <= map_get 0 (parentHashToVotingPower c) (getParentChildKey (Bytes2Hex lastHash) (Bytes2Hex (lead c start)))) /\
    split_all (map (lead c) blocks) = Ok (BlockHashes prop, BlockTds prop) /\
    m <= Zsum (map b_power sup) /\
    (exists b, b ∈ sup /\ b_addr b = proposer) /\
    (forall i, i ∈ ids <-> exists b v, b ∈ sup /\ get_val vs (b_addr b) = Some v /\ ValId v = i).
Proof.
  intros HC Hwf. unfold GetMajorityMilestoneProposition. intros H. ok_step H. rename a into c.
  destruct (collect_votes_ballots _ _ _ _ _ _ Ha) as (bs & Hbs & Hcomp & Hsame). cbn [empty_collected processedValidators] in Hbs.
  destruct (ballots_of_spec _ _ _ _ _ _ Hbs) as [ND _].
  destruct (collected_maps bs ND) as (Ev & _ & Ep & _).
  pose proof Hsame as (S1 & _ & _ & S4 & _ & S6 & _). rewrite <- S4 in Ev. rewrite <- S6 in Ep.
  destruct (majority_blocks c m) as [|first rest] eqn:Emb; [done|].
  set (start := match lastEnd with Some e => if u64 (e + 1) <? first then first else u64 (e + 1) | None => 0 end) in *.
  destruct (negb (bool_decide (start ∈ first :: rest))) eqn:Est; [done|].
  apply negb_false_iff, bool_decide_eq_true in Est.
  destruct (negb (parent_supported _ _ _ _ _ _ _ _)) eqn:Epar; [done|]. apply negb_false_iff in Epar.
  destruct (blocks_between _ start _) as [blocks|] eqn:Ebl; [|done].
  set (l := sort_by id _) in *.
  destruct (_ <? m) eqn:Etot; [done|]. apply Z.ltb_ge in Etot.
  pose proof (total_support ctx vs votes bs c blocks HC Hwf Hbs Ev Ep) as Ht. cbn zeta in Ht. fold l in Ht.
  rewrite Ht in Etot. clear Ht.
  destruct (sort_by _ l) as [|pr ranked] eqn:Er; [done|].
  destruct (split_all _) as [[hs tds]| |] eqn:Esp; [|done..]. cbn [mbind outcome_bind] in H. injection H as <- <- <- <-.
  assert (start ∈ majority_blocks c m) as Hsm by by rewrite Emb.
  assert (in_u64 start) as Hsu.
  { apply majority_blocks_elem in Hsm as (p & E & _).
    assert (keys_u64 (fold_left collect_ballot bs empty_collected)) as Hk.
    { apply keys_u64_ballots; [|by eapply ballots_u64]. intros b Hb. cbn in Hb. rewrite lookup_empty in Hb. by destruct Hb. }
    apply Hk. rewrite <- S1, E. eauto. }
  pose proof (blocks_between_seq _ _ _ _ Hsu Ebl) as Eseq.
  assert (l ≡ₚ map b_addr (List.filter (in_range_votes c blocks) bs)) as Hl by (by apply supporters_perm).
  destruct (split_all_ok _ _ _ Esp) as (L1 & _ & _). rewrite length_map in L1.
  exists c, bs, blocks. split; [done|]. split; [done|]. cbn [StartBlockNumber BlockHashes BlockTds].
  destruct (range_end_spec start (first :: rest)) as [Hge _]; [rewrite <- Emb; apply majority_blocks_sorted|done|done|].
  split_and!; try done.
  - rewrite Eseq, length_seqZ in L1. rewrite L1, Z2Nat.id by lia. done.
  - rewrite Eseq, seqZ_cons by lia. done.
  - intros e ->. unfold start. destruct (Z.ltb_spec (u64 (e + 1)) first); lia.
  - intros HI. unfold parent_supported in Epar. rewrite HI in Epar. by apply Z.leb_le in Epar.
  - assert (pr ∈ l) as Hpr by (rewrite <- (sort_by_perm (fun a => - map_get 0 (valAddressToVotingPower c) a) l), Er; left).
    rewrite Hl in Hpr. change (map ?f ?k) with (f <$> k) in Hpr. apply list_elem_of_fmap in Hpr as (b & -> & Hb). eauto.
  - intros i. rewrite elem_of_list_to_set. by apply supporter_ids.
Qed.
End majority.
