(* ===== verification/MilestoneFinality.v ===== *)
(** * Finality of milestones

    Who stands behind a finalised milestone, that nothing conflicting is
    finalised with it, and that a proposition shared by validators with a
    majority of the power is finalised as it was proposed. *)
From S2P Require Import Prelude SortedList Helpers External VoteTypes ValidatorSet ValidatorSetFacts.
From S2P Require Import Milestone MilestoneVotes MilestoneCollect MilestoneCorrect.
#[local] Open Scope Z_scope.

(** ** Support *)

Section support.
Context {AC : AddressCodec} {VC : VoteCodec} {HF : HashFunction} (cfg : Config).

(** A ballot says of every block of a range what the lists say. *)
Definition agrees (start : Z) (hashes : list bytes) (tds : list Z) (b : Ballot) : Prop :=
  forall i h td, hashes !! i = Some h -> tds !! i = Some td ->
    votes_map b !! (start + Z.of_nat i) = Some (h ++ le64 td).

Lemma in_range_agrees c start hs tds b :
  split_all (map (lead c) (seqZ start (Z.of_nat (length hs)))) = Ok (hs, tds) ->
  in_range_votes c (seqZ start (Z.of_nat (length hs))) b = true <-> agrees start hs tds b.
Proof.
  intros Hsp. destruct (split_all_ok _ _ _ Hsp) as (L1 & L2 & Hlead). rewrite length_map, length_seqZ in L2.
  assert (forall i h td, hs !! i = Some h -> tds !! i = Some td -> lead c (start + Z.of_nat i) = h ++ le64 td) as Hl.
  { intros i h td Hh Ht. specialize (Hlead i h td Hh Ht). change (map ?f ?l) with (f <$> l) in Hlead.
    apply list_lookup_fmap_Some in Hlead as (n & -> & Hn). apply lookup_seqZ in Hn as [-> _]. done. }
  unfold in_range_votes, supports_range. rewrite forallb_forall. split.
  - intros H i h td Hh Ht. specialize (H (start + Z.of_nat i)).
    destruct (votes_map b !! (start + Z.of_nat i)) as [d|].
    + apply bool_decide_eq_true in H; [by rewrite H, <- (Hl i h td)|].
      apply list_elem_of_In, elem_of_seqZ. apply lookup_lt_Some in Hh. lia.
    + discriminate H. apply list_elem_of_In, elem_of_seqZ. apply lookup_lt_Some in Hh. lia.
  - intros H n Hn. apply list_elem_of_In, elem_of_seqZ in Hn.
    destruct (lookup_lt_is_Some_2 hs (Z.to_nat (n - start))) as [h Hh]; [lia|].
    destruct (lookup_lt_is_Some_2 tds (Z.to_nat (n - start))) as [td Ht]; [lia|].
    specialize (H _ _ _ Hh Ht). replace (start + Z.of_nat (Z.to_nat (n - start))) with n in H by lia.
    rewrite H. apply bool_decide_eq_true. rewrite <- (Hl _ _ _ Hh Ht). unfold lead. f_equal. lia.
Qed.

(** What the result says, and what the powers are. *)
Lemma finalised_support order ctx vs votes m lastEnd lastHash prop agg proposer ids :
  codec_ok -> wf vs ->
  GetMajorityMilestoneProposition cfg order ctx vs votes m lastEnd lastHash
    = Ok (Some (prop, agg, proposer, ids)) ->
  exists bs sup, ballots_of cfg ctx vs ∅ votes = Ok bs /\ NoDup (map b_addr bs) /\ sup ⊆+ bs /\
    m <= Zsum (map b_power sup) /\
    (forall b, b ∈ bs -> b ∈ sup <-> agrees (StartBlockNumber prop) (BlockHashes prop) (BlockTds prop) b) /\
    BlockHashes prop <> [] /\ length (BlockTds prop) = length (BlockHashes prop) /\
    (forall e, lastEnd = Some e -> u64 (e + 1) <= StartBlockNumber prop) /\
    (exists b, b ∈ sup /\ b_addr b = proposer) /\
    (forall i, i ∈ ids <-> exists b v, b ∈ sup /\ get_val vs (b_addr b) = Some v /\ ValId v = i).
Proof.
  intros HC Hwf H.
  destruct (majority_result _ _ _ _ _ _ _ _ _ _ _ _ HC Hwf H)
    as (c & bs & blocks & Hbs & _ & Ebl & Hne & _ & Hlast & _ & Hsp & Hm & Hpr & Hids).
  destruct (ballots_of_spec _ _ _ _ _ _ Hbs) as [ND _]. subst blocks.
  destruct (split_all_ok _ _ _ Hsp) as (_ & L2 & _). rewrite length_map, length_seqZ in L2.
  exists bs, (List.filter (in_range_votes c (seqZ (StartBlockNumber prop) (Z.of_nat (length (BlockHashes prop))))) bs).
  split_and!; try done; [apply filter_submseteq| | |lia].
  - intros b Hb. rewrite list_filter_elem. rewrite (in_range_agrees _ _ _ _ _ Hsp). tauto.
  - intros E. rewrite E in Hne. done.
Qed.
End support.

(** ** A proposition that a majority shares *)

Section shared.
Context (bs H : list Ballot) (total m : Z) (p : MilestoneProposition).
Context (Hsound : Forall sound_ballot bs) (Hpos : Forall (fun b => 0 < b_power b) bs).
Context (Htotal : Zsum (map b_power bs) <= total) (Hmax : total <= MaxInt64).
Context (Hsub : H ⊆+ bs) (Hm0 : 0 < m) (HmH : m <= Zsum (map b_power H)) (Hm2 : total < 2 * m).
Context (Hshared : forall b, b ∈ H -> StartBlockNumber (b_prop b) = StartBlockNumber p /\
  BlockHashes (b_prop b) = BlockHashes p /\ BlockTds (b_prop b) = BlockTds p /\ ParentHash (b_prop b) = ParentHash p).
Context (Hsome : BlockHashes p <> []).

(** Any group with [m] of the power meets [H]. *)
Lemma meets_majority P : m <= power_of P bs -> exists b, b ∈ H /\ P b = true.
Proof.
  intros Hp. destruct (existsb P H) eqn:E.
  { apply existsb_exists in E as (b & Hb & E). exists b. by rewrite list_elem_of_In. }
  exfalso. assert (forall b, b ∈ H -> negb (P b) = true) as Hn.
  { intros b Hb. apply negb_true_iff, not_true_iff_false. intros E'. apply not_true_iff_false in E. apply E.
    apply existsb_exists. exists b. by rewrite <- list_elem_of_In. }
  pose proof (power_of_sub (fun b => negb (P b)) H bs Hpos Hsub Hn).
  pose proof (power_of_disjoint P (fun b => negb (P b)) bs Hpos) as Hd.
  assert (forall b, b ∈ bs -> P b = true -> negb (P b) = false) as Hx by (intros b _ ->; done).
  specialize (Hd Hx). lia.
Qed.

Lemma shared_nonempty : exists b, b ∈ H.
Proof.
  destruct H as [|b l] eqn:E; [cbn in HmH; lia|]. exists b. left.
Qed.

Lemma shared_sound : length (BlockTds p) = length (BlockHashes p) /\ 0 <= StartBlockNumber p /\
  StartBlockNumber p + Z.of_nat (length (BlockHashes p)) <= MaxUint64 /\ (0 < length (BlockHashes p))%nat.
Proof.
  destruct shared_nonempty as [b Hb]. destruct (Hshared b Hb) as (E1 & E2 & E3 & _).
  assert (sound_ballot b) as [S1 _ S3 S4].
  { rewrite Forall_forall in Hsound. apply Hsound. by eapply elem_of_submseteq. }
  rewrite E1, E2 in *. rewrite E3 in S1. destruct (BlockHashes p); [done|]. split_and!; try done. cbn. lia.
Qed.

Lemma shared_votes b i h td : b ∈ H -> BlockHashes p !! i = Some h -> BlockTds p !! i = Some td ->
  votes_map b !! (StartBlockNumber p + Z.of_nat i) = Some (h ++ le64 td).
Proof.
  intros Hb Hh Ht. destruct (Hshared b Hb) as (<- & E2 & E3 & _). rewrite <- E2 in Hh. rewrite <- E3 in Ht.
  apply votes_map_at; [|done..]. rewrite Forall_forall in Hsound. apply Hsound. by eapply elem_of_submseteq.
Qed.

Context (c : Collected) (Hc : same_maps c (fold_left collect_ballot bs empty_collected)).

Lemma shared_entries : entries_ok c (all_entries bs).
Proof.
  pose proof (ballots_bounded bs Hsound Hpos ltac:(lia)) as HB.
  pose proof (entries_ok_ballots bs _ [] entries_ok_nil HB) as HE. cbn [app] in HE.
  destruct Hc as (S1 & S2 & S3 & _ & _ & _ & _ & S8). by eapply entries_ok_ext.
Qed.

(** The shared hash leads every block of the range. *)
Lemma shared_lead i h td : BlockHashes p !! i = Some h -> BlockTds p !! i = Some td ->
  let n := StartBlockNumber p + Z.of_nat i in m <= best c n /\ lead c n = h ++ le64 td.
Proof.
  intros Hh Ht n. pose proof shared_entries as HE.
  assert (m <= esum (all_entries bs) n (h ++ le64 td)) as Hd.
  { rewrite esum_ballots by done. etrans; [exact HmH|]. apply power_of_sub; [done..|].
    intros b Hb. apply bool_decide_eq_true. by apply shared_votes. }
  pose proof (eo_max _ _ HE n (h ++ le64 td)) as Hb. split; [lia|].
  pose proof (eo_lead _ _ HE n) as Hl. rewrite esum_ballots in Hl by done.
  destruct (meets_majority (votes_for n (lead c n))) as (b & HbH & E); [lia|].
  apply bool_decide_eq_true in E. pose proof (shared_votes b i h td HbH Hh Ht) as E'. fold n in E'. congruence.
Qed.

(** A block with a majority is in the range. *)
Lemma shared_range n : m <= best c n ->
  StartBlockNumber p <= n < StartBlockNumber p + Z.of_nat (length (BlockHashes p)).
Proof.
  intros Hn. pose proof shared_entries as HE. rewrite (eo_lead _ _ HE) in Hn. rewrite esum_ballots in Hn by done.
  destruct (meets_majority _ Hn) as (b & Hb & E). apply bool_decide_eq_true in E.
  apply votes_map_outside in E as (i & -> & Hi).
  - destruct (Hshared b Hb) as (-> & E2 & _ & _). rewrite E2 in Hi. lia.
  - rewrite Forall_forall in Hsound. apply Hsound. by eapply elem_of_submseteq.
Qed.

Lemma seqZ_sorted n k : ssorted id (seqZ n k).
Proof.
  destruct (Z.le_gt_cases k 0); [rewrite seqZ_nil by lia; constructor|].
  replace k with (Z.of_nat (Z.to_nat k)) by lia. generalize (Z.to_nat k). clear. intros k.
  revert n. induction k as [|k IH]; intros n; [constructor|]. rewrite seqZ_cons by lia.
  replace (Z.pred (Z.of_nat (S k))) with (Z.of_nat k) by lia. constructor; [apply IH|].
  apply Forall_forall. intros x Hx. apply elem_of_seqZ in Hx. unfold key_lt. cbn. apply Z.ltb_lt. lia.
Qed.

Lemma shared_blocks : majority_blocks c m = seqZ (StartBlockNumber p) (Z.of_nat (length (BlockHashes p))).
Proof.
  apply (ssorted_unique id); [apply majority_blocks_sorted|apply seqZ_sorted|].
  apply NoDup_Permutation.
  - rewrite <- (map_id (majority_blocks c m)). apply ssorted_NoDup, majority_blocks_sorted.
  - apply NoDup_seqZ.
  - intros n. rewrite majority_blocks_elem, elem_of_seqZ. split.
    + intros (q & E & Hq). apply shared_range. unfold best, map_get. by rewrite E.
    + intros Hn. destruct shared_sound as (L & _).
      destruct (lookup_lt_is_Some_2 (BlockHashes p) (Z.to_nat (n - StartBlockNumber p))) as [h Hh]; [lia|].
      destruct (lookup_lt_is_Some_2 (BlockTds p) (Z.to_nat (n - StartBlockNumber p))) as [td Ht]; [lia|].
      destruct (shared_lead _ _ _ Hh Ht) as [Hb _].
      replace (StartBlockNumber p + Z.of_nat (Z.to_nat (n - StartBlockNumber p))) with n in Hb by lia.
      unfold best, map_get in Hb. destruct (blockVotingPower c !! n) as [q|]; [eauto|lia].
Qed.

(** The parent the majority claims is the only one with a majority. *)
Lemma shared_start : exists h td, BlockHashes p !! 0%nat = Some h /\ BlockTds p !! 0%nat = Some td /\
  lead c (StartBlockNumber p) = h ++ le64 td.
Proof.
  destruct shared_sound as (L & _ & _ & Hl).
  destruct (lookup_lt_is_Some_2 (BlockHashes p) 0) as [h Hh]; [lia|].
  destruct (lookup_lt_is_Some_2 (BlockTds p) 0) as [td Ht]; [lia|].
  exists h, td. split_and!; [done..|]. destruct (shared_lead _ _ _ Hh Ht) as [_ E].
  by replace (StartBlockNumber p + Z.of_nat 0) with (StartBlockNumber p) in E by lia.
Qed.

Lemma shared_parent_power (q : bytes) :
  m <= map_get 0 (parentHashToVotingPower c)
         (getParentChildKey (Bytes2Hex q) (Bytes2Hex (lead c (StartBlockNumber p)))) <-> q = ParentHash p.
Proof.
  pose proof shared_entries as HE. rewrite (eo_parent _ _ HE). split.
  - intros Hq. pose proof (psum_ballots_le bs q (lead c (StartBlockNumber p)) Hsound Hpos) as Hle.
    destruct (meets_majority (has_parent q)) as (b & Hb & E); [lia|].
    apply bool_decide_eq_true in E. destruct (Hshared b Hb) as (_ & _ & _ & E'). congruence.
  - intros ->. etrans; [exact HmH|].
    etrans; [|apply (psum_ballots_ge bs (ParentHash p) (StartBlockNumber p)); done].
    apply power_of_sub; [done..|]. intros b Hb. apply andb_true_iff. split; apply bool_decide_eq_true.
    + by destruct (Hshared b Hb) as (_ & _ & _ & ->).
    + destruct shared_start as (h & td & Hh & Ht & ->).
      rewrite <- (shared_votes b 0 h td Hb Hh Ht). f_equal. lia.
Qed.

Lemma shared_parent cfg ctx order : NoDup (map b_addr bs) -> (forall s : gset string, order s ≡ₚ elements s) ->
  parent_supported cfg ctx order c m (StartBlockNumber p) (StartBlockNumber p) (ParentHash p) = true.
Proof.
  intros ND Ho. unfold parent_supported. fold (lead c (StartBlockNumber p)).
  destruct (IsIthaca cfg _); [by apply Z.leb_le, shared_parent_power|].
  destruct (IsZurichHardfork cfg _); [by apply Z.leb_le, shared_parent_power|].
  destruct (collected_maps bs ND) as (_ & _ & _ & Hp). destruct Hc as (_ & _ & _ & _ & _ & _ & S7 & _).
  rewrite <- S7 in Hp. destruct (List.find _ _) as [q|] eqn:E.
  - apply find_some in E as [Hin E]. apply list_elem_of_In in Hin. rewrite Ho, elem_of_elements in Hin.
    apply Hp in Hin as (b & _ & <-). apply Z.leb_le, shared_parent_power in E. rewrite E. apply String.eqb_refl.
  - destruct shared_nonempty as [b Hb].
    assert (Bytes2Hex (ParentHash p) ∈ parentHashes c) as Hin.
    { apply Hp. exists b. split; [by eapply elem_of_submseteq|]. by destruct (Hshared b Hb) as (_ & _ & _ & ->). }
    apply elem_of_elements in Hin. rewrite <- Ho in Hin. apply list_elem_of_In in Hin.
    pose proof (find_none _ _ E _ Hin) as Hn. cbn in Hn. apply Z.leb_gt in Hn.
    pose proof (proj2 (shared_parent_power (ParentHash p)) eq_refl). lia.
Qed.

Lemma extend_range_seq e k : 0 <= e -> e + Z.of_nat k <= MaxUint64 ->
  extend_range e (seqZ (e + 1) (Z.of_nat k)) = e + Z.of_nat k.
Proof.
  revert e. induction k as [|k IH]; intros e He Hk; [change (extend_range e []  = e + Z.of_nat 0); cbn [extend_range]; lia|]. rewrite seqZ_cons by lia. cbn [extend_range].
  rewrite u64_id by (unfold in_u64; lia). rewrite Z.eqb_refl.
  replace (Z.pred (Z.of_nat (S k))) with (Z.of_nat k) by lia. unfold Z.succ. rewrite IH by lia. lia.
Qed.
Lemma range_end_seq n k : 0 <= n -> n + Z.of_nat k <= MaxUint64 ->
  range_end n (seqZ n (Z.of_nat (S k))) = n + Z.of_nat k.
Proof.
  intros Hn Hk. rewrite seqZ_cons by lia. cbn [range_end]. rewrite Z.eqb_refl.
  replace (Z.pred (Z.of_nat (S k))) with (Z.of_nat k) by lia. by apply extend_range_seq.
Qed.

Lemma shared_split : Forall in_u64 (BlockTds p) ->
  split_all (map (lead c) (seqZ (StartBlockNumber p) (Z.of_nat (length (BlockHashes p))))) = Ok (BlockHashes p, BlockTds p).
Proof.
  intros HF. destruct shared_sound as (L & _). apply split_all_app; [lia|done|].
  apply list_eq. intros i. change (map ?f ?l) with (f <$> l). rewrite list_lookup_fmap, lookup_zip_with.
  destruct (BlockHashes p !! i) as [h|] eqn:Hh.
  - destruct (lookup_lt_is_Some_2 (BlockTds p) i) as [td Ht]; [apply lookup_lt_Some in Hh; lia|].
    rewrite Ht. rewrite (proj2 (lookup_seqZ (StartBlockNumber p) (Z.of_nat (length (BlockHashes p))) i (StartBlockNumber p + Z.of_nat i))); [|split; [reflexivity|apply lookup_lt_Some in Hh; lia]].
    cbn. by destruct (shared_lead _ _ _ Hh Ht) as [_ ->].
  - rewrite lookup_ge_None_2; [done|]. rewrite length_seqZ. apply lookup_ge_None_1 in Hh. lia.
Qed.
End shared.

(** *** The whole computation *)

Lemma power_of_filter P bs : Zsum (map b_power (List.filter P bs)) = power_of P bs.
Proof. induction bs as [|b bs IH]; [done|]. rewrite power_of_cons. cbn [List.filter]. destruct (P b); cbn [map]; rewrite ?Zsum_cons, IH; lia. Qed.

Section finalise.
Context {AC : AddressCodec} {VC : VoteCodec} {HF : HashFunction} (cfg : Config).

(** The leaders of the shared blocks are the shared ones, and the sharers stand behind them. *)
Lemma shared_supported ctx vs votes bs H m p c :
  codec_ok -> wf vs -> ballots_of cfg ctx vs ∅ votes = Ok bs -> Forall sound_ballot bs ->
  H ⊆+ bs -> 0 < m <= Zsum (map b_power H) -> powers (Validators vs) < 2 * m ->
  (forall b, b ∈ H -> StartBlockNumber (b_prop b) = StartBlockNumber p /\
    BlockHashes (b_prop b) = BlockHashes p /\ BlockTds (b_prop b) = BlockTds p /\ ParentHash (b_prop b) = ParentHash p) ->
  BlockHashes p <> [] -> same_maps c (fold_left collect_ballot bs empty_collected) ->
  let blocks := seqZ (StartBlockNumber p) (Z.of_nat (length (BlockHashes p))) in
  split_all (map (lead c) blocks) = Ok (BlockHashes p, BlockTds p) /\
  m <= Zsum (map b_power (List.filter (in_range_votes c blocks) bs)).
Proof.
  intros HC Hwf Hbs HS Hsub [Hm0 HmH] Hm2 Hsh Hne Hsame blocks.
  destruct (ballots_power cfg ctx vs votes bs bs (ck_formatted HC) Hwf Hbs ltac:(done)) as [Htot Hpos].
  assert (powers (Validators vs) <= MaxInt64) as Hmax.
  { pose proof (wf_sum _ Hwf). pose proof MaxTotalVotingPower_eq. unfold MaxInt64. lia. }
  assert (split_all (map (lead c) blocks) = Ok (BlockHashes p, BlockTds p)) as Hsp.
  { apply (shared_split bs H _ m p HS Hpos Htot Hmax Hsub Hm0 HmH Hm2 Hsh Hne c Hsame).
    edestruct shared_nonempty as [b Hb]; [eassumption..|]. destruct (Hsh b Hb) as (_ & _ & <- & _).
    pose proof (ballots_u64 cfg HC ctx vs votes ∅ bs Hbs) as HU. rewrite Forall_forall in HU.
    apply HU. by eapply elem_of_submseteq. }
  split; [done|]. etrans; [exact HmH|]. rewrite power_of_filter. apply power_of_sub; [done..|]. intros b Hb.
  apply (in_range_agrees _ _ _ _ _ Hsp). intros i h td. by apply (shared_votes bs H p HS Hsub Hsh).
Qed.

Lemma shared_finalised order ctx vs votes bs H m p lastEnd :
  codec_ok -> wf vs -> ballots_of cfg ctx vs ∅ votes = Ok bs -> Forall sound_ballot bs ->
  (forall s : gset string, order s ≡ₚ elements s) ->
  H ⊆+ bs -> 0 < m <= Zsum (map b_power H) -> powers (Validators vs) < 2 * m ->
  (forall b, b ∈ H -> StartBlockNumber (b_prop b) = StartBlockNumber p /\
    BlockHashes (b_prop b) = BlockHashes p /\ BlockTds (b_prop b) = BlockTds p /\ ParentHash (b_prop b) = ParentHash p) ->
  BlockHashes p <> [] ->
  match lastEnd with Some e => StartBlockNumber p = u64 (e + 1) | None => StartBlockNumber p = 0 end ->
  exists agg proposer ids,
    GetMajorityMilestoneProposition cfg order ctx vs votes m lastEnd (ParentHash p)
    = Ok (Some ({| BlockHashes := BlockHashes p; StartBlockNumber := StartBlockNumber p; ParentHash := [];
                   BlockTds := BlockTds p; LatestBlockNumber := 0; LatestBlockHash := [] |}, agg, proposer, ids)).
Proof.
  intros HC Hwf Hbs HS Ho Hsub [Hm0 HmH] Hm2 Hsh Hne Hstart.
  destruct (ballots_power cfg ctx vs votes bs bs (ck_formatted HC) Hwf Hbs ltac:(done)) as [Htot Hpos].
  assert (powers (Validators vs) <= MaxInt64) as Hmax.
  { pose proof (wf_sum _ Hwf). pose proof MaxTotalVotingPower_eq. unfold MaxInt64. lia. }
  destruct (ballots_of_spec _ _ _ _ _ _ Hbs) as [ND _].
  destruct (ballots_collect_votes cfg ctx vs votes empty_collected bs) as [c Hcol]; [exact Hbs| |].
  { eapply Forall_impl; [exact HS|]. intros b [S1 _ _ _]. unfold complete. lia. }
  destruct (collect_votes_ballots _ _ _ _ _ _ Hcol) as (bs' & Hbs' & _ & Hsame).
  cbn [empty_collected processedValidators] in Hbs'. rewrite Hbs in Hbs'. injection Hbs' as <-.
  destruct (shared_sound bs H m p HS Hsub Hm0 HmH Hsh Hne) as (_ & Hs0 & Hend & Hlen).
  unfold GetMajorityMilestoneProposition. rewrite Hcol. cbn [mbind outcome_bind].
  rewrite (shared_blocks bs H _ m p HS Hpos Htot Hmax Hsub Hm0 HmH Hm2 Hsh Hne c Hsame).
  destruct (length (BlockHashes p)) as [|k] eqn:Ek; [lia|].
  rewrite (seqZ_cons (StartBlockNumber p)) by lia. cbn iota.
  match goal with |- context [negb (bool_decide (?x ∈ _))] => assert (x = StartBlockNumber p) as Ex end.
  { destruct lastEnd as [e|]; [rewrite <- Hstart, Z.ltb_irrefl|]; done. }
  rewrite !Ex, bool_decide_true by left. cbn [negb].
  rewrite (shared_parent bs H _ m p HS Hpos Htot Hmax Hsub Hm0 HmH Hm2 Hsh Hne c Hsame) by done. cbn [negb].
  rewrite <- (seqZ_cons (StartBlockNumber p)) by lia. rewrite range_end_seq by lia.
  rewrite blocks_between_total by (unfold in_u64; lia).
  replace (StartBlockNumber p + Z.of_nat k - StartBlockNumber p + 1) with (Z.of_nat (S k)) by lia.
  destruct (collected_maps bs ND) as (Ev & _ & Ep & _).
  pose proof Hsame as (_ & _ & _ & S4 & _ & S6 & _). rewrite <- S4 in Ev. rewrite <- S6 in Ep.
  rewrite <- Ek. set (blocks := seqZ (StartBlockNumber p) (Z.of_nat (length (BlockHashes p)))).
  pose proof (total_support cfg ctx vs votes bs c blocks HC Hwf Hbs Ev Ep) as Ht. cbn zeta in Ht.
  set (l := sort_by id _) in *.
  destruct (shared_supported ctx vs votes bs H m p c HC Hwf Hbs HS Hsub (conj Hm0 HmH) Hm2 Hsh Hne Hsame) as [Hsp Hsup].
  fold blocks in Hsp, Hsup.
  rewrite Ht. rewrite (proj2 (Z.ltb_ge _ _)) by done.
  destruct (sort_by _ l) as [|pr ranked] eqn:Er.
  - assert (l = []) as El.
    { apply Permutation_nil. rewrite <- (sort_by_perm (fun a => - map_get 0 (valAddressToVotingPower c) a) l). by rewrite Er. }
    rewrite El in Ht. cbn in Ht. lia.
  - fold (lead c). change (map (map_get [] (blockToHashAndTd c)) blocks) with (map (lead c) blocks). rewrite Hsp.
    cbn [mbind outcome_bind]. eauto.
Qed.
End finalise.

(** * The head of the chain

    [GetMajorityActualHead] answers the head with the most voting power among
    those not beyond the given block: lemmas on the tally and the choice. *)
Record HeadVote := { hv_addr : string; hv_power : Z; hv_number : Z; hv_hash : bytes }.

Definition head_power (heads : list HeadVote) (n : Z) (h : bytes) : Z :=
  Zsum (map (fun v => if bool_decide (hv_number v = n /\ hv_hash v = h) then hv_power v else 0) heads).
Definition tally_vote (t : actualHeadTally) (v : HeadVote) : actualHeadTally :=
  tally_add t (hv_number v) (hv_hash v) (hv_power v).
Definition empty_tally : actualHeadTally := {| power := ∅; number := ∅; hash := ∅ |}.

Section heads.
Context {AC : AddressCodec} {VC : VoteCodec} (cfg : Config).

(** The heads that count: in committed votes, not beyond [maxBlock], the first of
    their validator, by a validator of the set. *)
Fixpoint heads_of (ctx : Ctx) (vs : ValidatorSet) (maxBlock : Z) (processed : gset string)
    (votes : list ExtendedVoteInfo) : outcome (list HeadVote) :=
  match votes with
  | [] => Ok []
  | vote :: rest =>
      head ← decodeActualHeadVote vote;
      match head with
      | None => heads_of ctx vs maxBlock processed rest
      | Some (n, h) =>
          if maxBlock <? n then heads_of ctx vs maxBlock processed rest
          else
            a ← BytesToString (vi_Address vote);
            if bool_decide (a ∈ processed) then heads_of ctx vs maxBlock processed rest
            else
              match get_val vs a with
              | None =>
                  return_if ShouldErrorOnValidatorNotFound cfg (BlockHeight ctx) with ErrText "failed to get validator" ;;
                  heads_of ctx vs maxBlock ({[a]} ∪ processed) rest
              | Some v =>
                  hs ← heads_of ctx vs maxBlock ({[a]} ∪ processed) rest;
                  Ok ({| hv_addr := a; hv_power := VotingPower v; hv_number := n; hv_hash := h |} :: hs)
              end
      end
  end.

Lemma tally_heads_fold ctx vs maxBlock votes : forall t processed t',
  tally_heads cfg ctx vs maxBlock votes t processed = Ok t' ->
  exists hs, heads_of ctx vs maxBlock processed votes = Ok hs /\ t' = fold_left tally_vote hs t.
Proof.
  induction votes as [|vote votes IH]; intros t processed t' H; cbn [tally_heads heads_of] in *.
  { injection H as <-. by exists []. }
  ok_step H. rewrite Ha. cbn [mbind outcome_bind]. destruct a as [[n h]|]; [|by apply IH].
  destruct (maxBlock <? n); [by apply IH|]. ok_step H. unfold resolveVoterPower in Ha0. ok_step Ha0. rewrite Ha1.
  cbn [mbind outcome_bind]. destruct (bool_decide _); [injection Ha0 as <-; by apply IH|].
  destruct (get_val vs a0) as [v|].
  - injection Ha0 as <-. destruct (IH _ _ _ H) as (hs & -> & ->). cbn. eauto.
  - ok_step Ha0. injection Ha0 as <-. rewrite Hg. cbn [fail_if]. by apply IH.
Qed.

(** What the generated decoder promises of the head number. *)
Definition head_codec : Prop := forall b ve p, unmarshal_ve b = Some ve -> vx_MilestoneProposition ve = Some p ->
  in_u64 (LatestBlockNumber p).

Lemma heads_of_spec (HC : formatted_codec) (HU : head_codec) ctx vs maxBlock votes : forall processed hs,
  heads_of ctx vs maxBlock processed votes = Ok hs ->
  NoDup (map hv_addr hs) /\
  Forall (fun v => hv_addr v ∉ processed /\ FormatAddress (hv_addr v) = hv_addr v /\
    (exists w, get_val vs (hv_addr v) = Some w /\ hv_power v = VotingPower w) /\
    in_u64 (hv_number v) /\ hv_number v <= maxBlock) hs.
Proof.
  induction votes as [|vote votes IH]; intros processed hs H; cbn [heads_of] in H.
  { injection H as <-. split; constructor. }
  ok_step H. destruct a as [[n h]|]; [|by apply IH].
  destruct (Z.ltb_spec maxBlock n) as [|Hn]; [by apply IH|]. ok_step H.
  destruct (bool_decide _) eqn:Ep; [by apply IH|]. apply bool_decide_eq_false in Ep.
  assert (in_u64 n) as Hu.
  { unfold decodeActualHeadVote in Ha. destruct (negb _); [done|]. ok_step Ha.
    destruct (vx_MilestoneProposition a0) as [p|] eqn:Ev; [|done]. destruct (length _ =? 0)%nat; [done|].
    injection Ha as <- _. apply of_option_ok in Ha1. by eapply HU. }
  destruct (get_val vs a) as [v|] eqn:Ev.
  - ok_step H. injection H as <-. destruct (IH _ _ Ha1) as [ND HF]. split.
    + cbn. constructor; [|done]. intros (b & Eb & Hb)%list_elem_of_fmap. rewrite Forall_forall in HF.
      destruct (HF b Hb) as [Hx _]. apply Hx. rewrite <- Eb. set_solver.
    + constructor; [cbn; split_and!; eauto|]. eapply Forall_impl; [exact HF|]. cbn. intros b (? & ?). split; [set_solver|auto].
  - ok_step H. destruct (IH _ _ H) as [ND HF]. split; [done|].
    eapply Forall_impl; [exact HF|]. cbn. intros b (? & ?). split; [set_solver|auto].
Qed.
End heads.

(** ** The tally *)

Lemma head_key_inj n h n' h' : in_u64 n -> in_u64 n' -> head_key n h = head_key n' h' -> n = n' /\ h = h'.
Proof.
  intros Hn Hn' E. apply Bytes2Hex_inj in E.
  apply app_inj_1 in E as [E ->]; [|unfold le64; by rewrite !length_le_encode]. split; [by apply le64_inj|done].
Qed.

Lemma head_power_cons v hs n h : head_power (v :: hs) n h
  = (if bool_decide (hv_number v = n /\ hv_hash v = h) then hv_power v else 0) + head_power hs n h.
Proof. done. Qed.
Lemma head_power_bounds hs n h : Forall (fun v => 0 < hv_power v) hs ->
  0 <= head_power hs n h <= Zsum (map hv_power hs).
Proof.
  induction 1 as [|v hs Hv HF IH]; [cbn; lia|]. rewrite head_power_cons. cbn [map]. rewrite Zsum_cons.
  case_bool_decide; lia.
Qed.

(** The tally of the votes [hs] so far. *)
Record tally_ok (t : actualHeadTally) (hs : list HeadVote) : Prop := {
  to_power n h : in_u64 n -> map_get 0 (power t) (head_key n h) = head_power hs n h;
  to_keys k : is_Some (power t !! k) -> exists v, v ∈ hs /\ k = head_key (hv_number v) (hv_hash v);
  to_votes v : v ∈ hs -> is_Some (power t !! head_key (hv_number v) (hv_hash v)) /\
    number t !! head_key (hv_number v) (hv_hash v) = Some (hv_number v) /\
    hash t !! head_key (hv_number v) (hv_hash v) = Some (hv_hash v);
}.

Lemma tally_ok_step t hs v : tally_ok t hs -> Forall (fun v => 0 < hv_power v) (v :: hs) ->
  Forall (fun v => in_u64 (hv_number v)) (v :: hs) -> Zsum (map hv_power (v :: hs)) <= MaxInt64 ->
  tally_ok (tally_vote t v) (v :: hs).
Proof.
  intros [Hp Hk Hv] HP HU Hmax. pose proof HP as [_ HP']%Forall_cons. pose proof HU as [HUv HU']%Forall_cons.
  assert (forall n h, in_u64 n -> head_key (hv_number v) (hv_hash v) = head_key n h <-> hv_number v = n /\ hv_hash v = h) as Hkey.
  { intros n h Hn. split; [by apply head_key_inj|by intros [-> ->]]. }
  split; cbn [tally_vote tally_add power number hash].
  - intros n h Hn. rewrite head_power_cons. case_bool_decide as Hd.
    + destruct Hd as [<- <-]. rewrite map_get_insert_eq, Hp by done.
      pose proof (head_power_bounds (v :: hs) (hv_number v) (hv_hash v) HP) as Hb. rewrite head_power_cons, bool_decide_true in Hb by done.
      rewrite i64_id by (unfold in_i64, MinInt64; lia). lia.
    + rewrite map_get_insert_ne by (by rewrite Hkey). rewrite Hp by done. lia.
  - intros k. intros [<-|H]%lookup_insert_is_Some'; [exists v; split; [left|done]|].
    destruct (Hk k H) as (w & Hw & ->). exists w. split; [by right|done].
  - intros w [->|Hw]%elem_of_cons; [rewrite !lookup_insert_eq; eauto|].
    rewrite Forall_forall in HU'. specialize (HU' w Hw). destruct (Hv w Hw) as (H1 & H2 & H3).
    destruct (decide (hv_number v = hv_number w /\ hv_hash v = hv_hash w)) as [[E1 E2]|Hne].
    + rewrite E1, E2, !lookup_insert_eq. eauto.
    + rewrite !lookup_insert_ne by (by rewrite Hkey). auto.
Qed.

Lemma tally_ok_fold hs : forall t seen, tally_ok t seen -> Forall (fun v => 0 < hv_power v) (hs ++ seen) ->
  Forall (fun v => in_u64 (hv_number v)) (hs ++ seen) -> Zsum (map hv_power (hs ++ seen)) <= MaxInt64 ->
  exists all, all ≡ₚ hs ++ seen /\ tally_ok (fold_left tally_vote hs t) all.
Proof.
  induction hs as [|v hs IH]; intros t seen Ht HP HU Hm; cbn [fold_left app] in *; [by exists seen|].
  assert (v :: hs ++ seen ≡ₚ hs ++ v :: seen) as Ep by (by rewrite Permutation_middle).
  destruct (IH (tally_vote t v) (v :: seen)) as (all & E & H).
  - apply Forall_cons in HP as [? HP]. apply Forall_app in HP as [HP1 ?].
    apply Forall_cons in HU as [? HU]. apply Forall_app in HU as [? ?].
    apply tally_ok_step; [done|by constructor..|].
    rewrite (Zsum_perm _ _ (Permutation_map hv_power Ep)), map_app, Zsum_app in Hm.
    assert (0 <= Zsum (map hv_power hs)); [|lia]. apply Zsum_nonneg, Forall_map. eapply Forall_impl; [exact HP1|]. cbn. lia.
  - by rewrite <- Ep.
  - by rewrite <- Ep.
  - by rewrite <- (Zsum_perm _ _ (Permutation_map hv_power Ep)).
  - exists all. split; [by rewrite E, <- Ep|exact H].
Qed.

Lemma empty_tally_ok : tally_ok empty_tally [].
Proof.
  split.
  - intros n h _. unfold map_get. cbn. by rewrite lookup_empty.
  - intros k [x Hx]. cbn in Hx. by rewrite lookup_empty in Hx.
  - intros v Hv. by apply not_elem_of_nil in Hv.
Qed.

Lemma head_power_perm hs hs' n h : hs ≡ₚ hs' -> head_power hs n h = head_power hs' n h.
Proof. intros E. apply Zsum_perm. by apply Permutation_map. Qed.

(** ** The choice *)

Lemma best_key_spec m l : ssorted fst l -> forall best,
  match best with Some (k, p) => m <= p /\ Forall (fun x => kltb k x.1 = true) l | None => True end ->
  match best_key m l best with
  | Some (k, p) => ((k, p) ∈ l \/ best = Some (k, p)) /\ m <= p /\
      (forall k' p', (k', p') ∈ l \/ best = Some (k', p') -> m <= p' ->
         p' <= p /\ (p' = p -> kltb k' k = false))
  | None => best = None /\ Forall (fun x => x.2 < m) l
  end.
Proof.
  induction 1 as [|[k0 p0] l Hs IH Hlt]; intros best Hb; cbn [best_key].
  { destruct best as [[k p]|]; [|done]. split_and!; [by right|tauto|].
    intros k' p' [Hn|[= <- <-]]; [by apply not_elem_of_nil in Hn|]. intros _. split; [lia|].
    intros _. apply kltb_irrefl. }
  assert (Forall (fun x => kltb k0 x.1 = true) l) as Hk0 by exact Hlt.
  destruct (Z.ltb_spec p0 m) as [Hlow|Hhigh].
  - assert (match best with Some (k, p) => m <= p /\ Forall (fun x => kltb k x.1 = true) l | None => True end) as Hb'.
    { destruct best as [[k p]|]; [|done]. destruct Hb as [? Hb]. by apply Forall_cons in Hb as [_ Hb]. }
    specialize (IH best Hb'). destruct (best_key m l best) as [[k p]|].
    + destruct IH as (H1 & H2 & H3). split_and!; [destruct H1; [left; by right|by right]|done|].
      intros k' p' [[[= -> ->]|Hin]%elem_of_cons|E] Hm; [lia|by apply H3; [left|]|by apply H3; [right|]].
    + destruct IH as [-> IH]. split; [done|]. by constructor.
  - destruct best as [[bk bp]|].
    + destruct Hb as [Hbm Hb]. apply Forall_cons in Hb as [Hbk Hb]. cbn in Hbk.
      destruct (Z.ltb_spec bp p0) as [Hup|Hno].
      * specialize (IH (Some (k0, p0)) (conj Hhigh Hk0)). destruct (best_key m l (Some (k0, p0))) as [[k p]|]; [|by destruct IH].
        destruct IH as (H1 & H2 & H3). destruct (H3 k0 p0 ltac:(by right) Hhigh) as [Hge _].
        split_and!; [left; destruct H1 as [H1|[= -> ->]]; [by right|left]|done|].
        intros k' p' [[[= -> ->]|Hin]%elem_of_cons|[= <- <-]] Hm.
        -- apply H3; [by right|done].
        -- apply H3; [by left|done].
        -- split; lia.
      * specialize (IH (Some (bk, bp)) (conj Hbm Hb)). destruct (best_key m l (Some (bk, bp))) as [[k p]|]; [|by destruct IH].
        destruct IH as (H1 & H2 & H3). destruct (H3 bk bp ltac:(by right) Hbm) as [Hge Htie].
        split_and!; [destruct H1; [left; by right|by right]|done|].
        intros k' p' [[[= -> ->]|Hin]%elem_of_cons|E] Hm; [|by apply H3; [left|]|by apply H3; [right|]].
        split; [lia|]. intros ->. assert (bp = p) as -> by lia. specialize (Htie eq_refl).
        apply not_true_iff_false. intros Hc. apply not_true_iff_false in Htie. apply Htie. by eapply kltb_trans.
    + specialize (IH (Some (k0, p0)) (conj Hhigh Hk0)). destruct (best_key m l (Some (k0, p0))) as [[k p]|]; [|by destruct IH].
      destruct IH as (H1 & H2 & H3). split_and!; [left; destruct H1 as [H1|[= -> ->]]; [by right|left]|done|].
      intros k' p' [[[= -> ->]|Hin]%elem_of_cons|[=]] Hm; apply H3; auto.
Qed.

Section answer.
Context {AC : AddressCodec} {VC : VoteCodec} (cfg : Config).

(** What the answer says of the heads that count. *)
Lemma actual_head_spec ctx vs votes m maxBlock n h found :
  formatted_codec -> head_codec -> wf vs ->
  GetMajorityActualHead cfg ctx vs votes m maxBlock = Ok (n, h, found) ->
  exists heads, heads_of cfg ctx vs maxBlock ∅ votes = Ok heads /\ NoDup (map hv_addr heads) /\
    if found then
      n <= maxBlock /\ (exists v, v ∈ heads /\ hv_number v = n /\ hv_hash v = h) /\ m <= head_power heads n h /\
      forall v, v ∈ heads -> m <= head_power heads (hv_number v) (hv_hash v) ->
        head_power heads (hv_number v) (hv_hash v) <= head_power heads n h /\
        (head_power heads (hv_number v) (hv_hash v) = head_power heads n h ->
           str_ltb (head_key (hv_number v) (hv_hash v)) (head_key n h) = false)
    else forall v, v ∈ heads -> head_power heads (hv_number v) (hv_hash v) < m.
Proof.
  intros HC HU Hwf H. unfold GetMajorityActualHead, tallyActualHeads in H. ok_step H. injection H as H.
  destruct (tally_heads_fold _ _ _ _ _ _ _ _ Ha) as (heads & Hh & ->). exists heads.
  destruct (heads_of_spec cfg HC HU _ _ _ _ _ _ Hh) as [ND HF]. split; [done|]. split; [done|].
  destruct (counted_power hv_addr hv_power vs heads Hwf ND) as [Htot Hpos].
  { eapply Forall_impl; [exact HF|]. cbn. intros v (_ & ? & ? & _). done. }
  assert (Zsum (map hv_power (heads ++ [])) <= MaxInt64) as Hmax.
  { rewrite app_nil_r. pose proof (wf_sum _ Hwf). pose proof MaxTotalVotingPower_eq. unfold MaxInt64. lia. }
  assert (Forall (fun v => in_u64 (hv_number v)) heads) as HU64.
  { eapply Forall_impl; [exact HF|]. cbn. tauto. }
  destruct (tally_ok_fold heads empty_tally [] empty_tally_ok) as (all & Eall & Ht);
    [by rewrite app_nil_r..|done|]. rewrite app_nil_r in Eall.
  fold empty_tally in H. set (t := fold_left tally_vote heads empty_tally) in *.
  assert (ssorted fst (sort_by fst (map_to_list (power t)))) as Hss by (apply sort_by_ssorted, NoDup_fst_map_to_list).
  assert (forall k p, (k, p) ∈ sort_by fst (map_to_list (power t)) <-> power t !! k = Some p) as Hin
    by (intros k p; by rewrite (sort_by_perm fst), elem_of_map_to_list).
  assert (forall v, v ∈ heads -> (head_key (hv_number v) (hv_hash v), head_power heads (hv_number v) (hv_hash v))
    ∈ sort_by fst (map_to_list (power t))) as Hvote.
  { intros v Hv. apply Hin. rewrite <- Eall in Hv. destruct (to_votes _ _ Ht v Hv) as ([p Ep] & _).
    assert (in_u64 (hv_number v)) as Hu by (rewrite Forall_forall in HU64; apply HU64; by rewrite <- Eall).
    pose proof (to_power _ _ Ht (hv_number v) (hv_hash v) Hu) as E. unfold map_get in E. rewrite Ep in E.
    rewrite Ep, E. f_equal. by apply head_power_perm. }
  pose proof (best_key_spec m _ Hss None I) as Hbest. unfold majority in H.
  destruct (best_key m _ None) as [[k p]|].
  - destruct Hbest as ([Hkp|[=]] & Hm & Hmax').
    destruct (to_keys _ _ Ht k) as (v & Hv & ->); [apply Hin in Hkp; eauto|].
    destruct (to_votes _ _ Ht v Hv) as (_ & En & Eh). unfold map_get in H. rewrite En, Eh in H. injection H as <- <- <-.
    rewrite Eall in Hv. pose proof (Hvote v Hv) as Hv'. apply Hin in Hkp. apply Hin in Hv'. rewrite Hkp in Hv'. injection Hv' as ->.
    rewrite Forall_forall in HF. destruct (HF v Hv) as (_ & _ & _ & _ & Hle).
    split_and!; [done|eauto|done|]. intros w Hw Hmw. apply (Hmax' _ _ (or_introl (Hvote w Hw)) Hmw).
  - injection H as <- <- <-. destruct Hbest as [_ Hlow]. intros v Hv. rewrite Forall_forall in Hlow.
    exact (Hlow _ (Hvote v Hv)).
Qed.
End answer.
