(* ===== verification/MilestoneProposal.v ===== *)
(** * The proposition of an honest validator

    Against a consistent view of the Bor chain, the proposition a validator makes
    lists the chain's blocks and passes the validation of the others. *)
From S2P Require Import Prelude SortedList Helpers External VoteTypes ValidatorSet Milestone.
#[local] Open Scope Z_scope.

Section honest.
Context {BC : BorChain} (cfg : Config).

(** A consistent view: the answers are the blocks of one chain up to [top];
    different blocks have different hashes. *)
Record chain_view (chain : Z -> Header * Z) (top : Z) : Prop := {
  cv_top : 0 <= top < MaxInt64;
  cv_number n : 0 <= n <= top -> Number (chain n).1 = n;
  cv_hash n : 0 <= n <= top -> length (HeaderHash (chain n).1) = HashLength;
  cv_inj n k : 0 <= n <= top -> 0 <= k <= top -> HeaderHash (chain n).1 = HeaderHash (chain k).1 -> n = k;
  cv_latest : GetBorChainBlock None = Some (chain top).1;
  cv_batch first last slot n b : BorBatch first last = Some slot -> first <= n <= last -> (slot n).1 = Some b -> b = chain n;
}.
Context (chain : Z -> Header * Z) (top : Z) (CV : chain_view chain top).

(** [hs] and [tds] are the hashes and difficulties of the blocks from [start]. *)
Definition of_chain (start : Z) (hs : list bytes) (tds : list Z) : Prop :=
  length tds = length hs /\
  forall i h td, hs !! i = Some h -> tds !! i = Some td ->
    h = HeaderHash (chain (start + Z.of_nat i)).1 /\ td = (chain (start + Z.of_nat i)).2.

Lemma collate_chain (slot : Z -> option (Header * Z) * option bytes) first n :
  (forall k b, first <= k < first + Z.of_nat n -> (slot k).1 = Some b -> b = chain k) ->
  (length (collateBorBatchResults slot first n) <= n)%nat /\
  forall i x, collateBorBatchResults slot first n !! i = Some x -> x.1 = chain (first + Z.of_nat i).
Proof.
  revert first. induction n as [|n IH]; intros first Hs; cbn [collateBorBatchResults]; [split; [done|by intros []]|].
  destruct ((slot first).1) as [[h td]|] eqn:E; [|split; [cbn; lia|by intros []]].
  destruct (negb _); [split; [cbn; lia|by intros []]|].
  destruct (if 0 <? first then _ else _) as [author|]; [|split; [cbn; lia|by intros []]].
  destruct (IH (first + 1)) as [Hl Hi]; [intros k b Hk; apply Hs; lia|].
  split; [cbn; lia|]. intros [|i] x; cbn.
  - intros [= <-]. cbn. rewrite Z.add_0_r. apply Hs; [lia|done].
  - intros Hx. rewrite (Hi i x Hx). f_equal. lia.
Qed.

Lemma batch_chain first last hs tds authors :
  GetBorChainBlockInfoInBatch first last = Some (hs, tds, authors) ->
  0 <= first <= last /\ Z.of_nat (length hs) <= last - first + 1 /\ of_chain first (map HeaderHash hs) tds.
Proof.
  unfold GetBorChainBlockInfoInBatch. destruct (_ || _) eqn:E1; [done|]. bool_hyps.
  destruct (_ <? _) eqn:E2; [done|]. destruct (BorBatch first last) as [slot|] eqn:E3; [|done].
  intros [= <- <- <-].
  destruct (collate_chain slot first (Z.to_nat (last - first + 1))) as [Hl Hi].
  { intros k b Hk Hb. eapply (cv_batch _ _ CV); [exact E3|lia|exact Hb]. }
  split; [lia|]. rewrite !length_map. split; [lia|]. split; [by rewrite !length_map|].
  intros i h td. rewrite !map_map. change (map ?f ?l) with (f <$> l).
  rewrite !list_lookup_fmap_Some. intros (x & -> & Hx) (y & -> & Hy). rewrite Hx in Hy. injection Hy as <-.
  by rewrite (Hi _ _ Hx).
Qed.

Lemma getBlockInfo_chain start maxBlocks latest lastHash lastBlock ph hs tds authors header :
  0 <= start -> 0 < maxBlocks -> (forall h, latest = Some h -> h = (chain top).1) ->
  getBlockInfo start maxBlocks latest lastHash lastBlock = Ok (ph, hs, tds, authors, header) ->
  header = (chain top).1 /\ of_chain start hs tds /\ hs <> [] /\
  Z.of_nat (length hs) <= maxBlocks /\ start + Z.of_nat (length hs) - 1 <= top.
Proof.
  intros Hs Hmax Hlat. unfold getBlockInfo. intros H. ok_step H. rename a into hd.
  pose proof (cv_top _ _ CV) as Htop. pose proof (cv_number _ _ CV top ltac:(lia)) as Hnum.
  assert (hd = (chain top).1 /\ start <= top) as [-> Hle].
  { unfold usable_header in Ha. ok_step Ha. assert (a = (chain top).1) as ->.
    { destruct latest as [h|]; [injection Ha0 as <-; by apply Hlat|]. rewrite (cv_latest _ _ CV) in Ha0. by injection Ha0. }
    rewrite Hnum, u64_id in Ha by (unfold in_u64, MaxUint64, MaxInt64 in *; lia).
    destruct (Z.ltb_spec top start) as [Hlt|]; [|by injection Ha as <-].
    ok_step Ha. rewrite (cv_latest _ _ CV) in Ha1. injection Ha1 as <-. ok_step Ha.
    rewrite Hnum, u64_id in Hg by (unfold in_u64, MaxUint64, MaxInt64 in *; lia). bool_hyps. lia. }
  rewrite Hnum in H. unfold MaxInt64 in Htop.
  rewrite (u64_id top), (u64_id (top - start)), (u64_id (top - start + 1)) in H by (unfold in_u64, MaxUint64; lia).
  set (n := Z.min (top - start + 1) maxBlocks) in *. assert (0 < n <= top - start + 1) as Hn by lia.
  rewrite (u64_id (start + n)), (u64_id (start + n - 1)) in H by (unfold in_u64, MaxUint64; lia).
  rewrite (i64_id start), (i64_id (start + n - 1)) in H by (unfold in_i64, MinInt64, MaxInt64; lia).
  ok_step H. destruct a as [[headers tds'] authors']. apply of_option_ok in Ha0.
  destruct (batch_chain _ _ _ _ _ Ha0) as (_ & Hlen & Hof).
  destruct headers as [|h0 headers]; [done|]. ok_step H. injection H as <- <- <- <- <-.
  cbn [length map] in *. split_and!; try done; rewrite ?length_map; lia.
Qed.

Lemma of_chain_take start hs tds k : of_chain start hs tds -> of_chain start (take k hs) (take k tds).
Proof.
  intros [Hl Hof]. split; [rewrite !length_take; lia|].
  intros i h td Hh Ht. apply lookup_take_Some in Hh as [Hh _]. apply lookup_take_Some in Ht as [Ht _]. by apply Hof.
Qed.

Lemma remove_dups_NoDup {A} `{EqDecision A} (l : list A) : NoDup l -> remove_dups l = l.
Proof.
  induction 1 as [|x l Hx ND IH]; [done|]. cbn [remove_dups]. destruct (decide_rel elem_of x l); [done|]. by rewrite IH.
Qed.

(** What lists the blocks of the chain is valid. *)
Lemma chain_proposition_valid s params start hs tds ph (ln : Z) (lh : bytes) :
  milestone_params s = Some params -> 0 < MaxMilestonePropositionLength params <= BorBatchSizeCap ->
  0 <= start -> of_chain start hs tds -> hs <> [] ->
  Z.of_nat (length hs) <= MaxMilestonePropositionLength params -> start + Z.of_nat (length hs) - 1 <= top ->
  (ln, lh) = (0, []) \/ (ln, lh) = (top, HeaderHash (chain top).1) ->
  ValidateMilestoneProposition s (Some {| BlockHashes := hs; StartBlockNumber := start; ParentHash := ph;
    BlockTds := tds; LatestBlockNumber := ln; LatestBlockHash := lh |}) = Ok tt.
Proof.
  intros Hp Hmax Hs [Hl Hof] Hne Hlen Hend Hlatest. unfold BorBatchSizeCap in Hmax.
  pose proof (cv_top _ _ CV) as Htop. unfold MaxInt64 in Htop.
  assert (0 < length hs)%nat as Hpos by (destruct hs; [done|cbn; lia]).
  assert (forall i h, hs !! i = Some h -> h = HeaderHash (chain (start + Z.of_nat i)).1 /\ 0 <= start + Z.of_nat i <= top) as Hh.
  { intros i h Hi. destruct (lookup_lt_is_Some_2 tds i) as [td Ht]; [apply lookup_lt_Some in Hi; lia|].
    split; [by apply (Hof i h td)|]. apply lookup_lt_Some in Hi. lia. }
  unfold ValidateMilestoneProposition, GetMilestoneParams. rewrite Hp. cbn [of_option mbind outcome_bind BlockHashes BlockTds].
  rewrite i64_id by (unfold in_i64, MinInt64, MaxInt64; lia).
  rewrite (proj2 (Z.ltb_ge _ _)) by lia. rewrite (proj2 (Nat.eqb_neq _ _)) by lia.
  rewrite Hl, Nat.eqb_refl. cbn [fail_if negb].
  destruct (existsb _ hs) eqn:Eex.
  { exfalso. apply existsb_exists in Eex as (h & Hin & E). apply list_elem_of_In, list_elem_of_lookup in Hin as [i Hi].
    destruct (Hh i h Hi) as [-> Hr]. rewrite (cv_hash _ _ CV) in E by done. discriminate E. }
  rewrite remove_dups_NoDup, Nat.eqb_refl.
  2:{ apply NoDup_alt. intros i j h Hi Hj. destruct (Hh i h Hi) as [E Hri], (Hh j h Hj) as [E' Hrj].
      rewrite E in E'. apply (cv_inj _ _ CV) in E'; [lia|done..]. }
  cbn [fail_if negb]. unfold validateLatestHead. cbn [LatestBlockHash LatestBlockNumber BlockHashes StartBlockNumber].
  destruct Hlatest as [[= -> ->]|[= -> ->]]; [done|].
  rewrite (cv_hash _ _ CV) by lia. cbn [Nat.eqb HashLength negb fail_if].
  rewrite (u64_id (Z.of_nat (length hs) - 1)) by (unfold in_u64, MaxUint64; lia).
  rewrite (u64_id (MaxUint64 - _)) by (unfold in_u64, MaxUint64; lia).
  rewrite (u64_id (start + _)) by (unfold in_u64, MaxUint64; lia).
  rewrite !(proj2 (Z.ltb_ge _ _)) by (unfold MaxUint64; lia). cbn [fail_if].
  destruct (Z.eqb_spec top (start + (Z.of_nat (length hs) - 1))) as [E|]; [|done]. cbn [andb].
  rewrite bool_decide_true; [done|]. rewrite last_lookup.
  destruct (lookup_lt_is_Some_2 hs (pred (length hs))) as [h Hi]; [lia|]. rewrite Hi. f_equal.
  destruct (Hh _ _ Hi) as [-> _]. f_equal. f_equal. f_equal. lia.
Qed.

(** Everything about the proposition of a validator. *)
Lemma honest_proposition_spec ctx s params canVote author p :
  milestone_params s = Some params -> 0 < MaxMilestonePropositionLength params <= BorBatchSizeCap ->
  GenMilestoneProposition cfg ctx s canVote author = Ok p ->
  of_chain (StartBlockNumber p) (BlockHashes p) (BlockTds p) /\
  ValidateMilestoneProposition s (Some p) = Ok tt.
Proof.
  intros Hp Hmax H. unfold GenMilestoneProposition in H. ok_step H. rename a into last. ok_step H.
  destruct a as [[[start latest] lastHash] lastBlock]. ok_step H. rename a into params'.
  unfold GetMilestoneParams in Ha1. rewrite Hp in Ha1. injection Ha1 as <-. ok_step H.
  destruct a as [[[[ph hs] tds] authors] header]. ok_step H. clear Ha2 a Ha.
  assert (0 <= start /\ forall h, latest = Some h -> h = (chain top).1) as [Hs Hlat].
  { destruct last as [m|]; [|by injection Ha0 as <- <- _ _]. ok_step Ha0. ok_step Ha0.
    rewrite (cv_latest _ _ CV) in Ha. injection Ha as <-. injection Ha0 as <- <- _ _. split; [|by intros h [= <-]].
    destruct (isFastForwardMilestone _ _ _); apply u64_range. }
  destruct (getBlockInfo_chain _ _ _ _ _ _ _ _ _ _ Hs ltac:(destruct Hmax; eassumption) Hlat Ha1) as (-> & Hof & Hne & Hlen & Hend).
  destruct (actualHeadFields cfg ctx (chain top).1) as [ln lh] eqn:Eh.
  pose proof (cv_top _ _ CV) as Htop.
  assert ((ln, lh) = (0, []) \/ (ln, lh) = (top, HeaderHash (chain top).1)) as Hl.
  { rewrite <- Eh. unfold actualHeadFields. destruct (IsIthaca cfg _); [right|by left].
    rewrite (cv_number _ _ CV) by lia. by rewrite u64_id by (unfold in_u64, MaxUint64, MaxInt64 in *; lia). }
  destruct canVote.
  - ok_step H. rename a into k. ok_step H. ok_step H. injection H as <-. bool_hyps. cbn [StartBlockNumber BlockHashes BlockTds].
    apply Nat.eqb_neq in Hg. apply Nat.ltb_ge in H0.
    split; [by apply of_chain_take|]. apply (chain_proposition_valid s params); try done.
    + by apply of_chain_take.
    + destruct k; [done|]. by destruct hs.
    + rewrite length_take. lia.
    + rewrite length_take. lia.
  - injection H as <-. split; [done|]. by apply (chain_proposition_valid s params).
Qed.
End honest.
