(* ===== verification/MilestoneProps.v ===== *)
(** * What finalising milestones guarantees *)
From S2P Require Import Prelude SortedList Helpers External VoteTypes ValidatorSet ValidatorSetFacts.
From S2P Require Import Milestone MilestoneVotes MilestoneCollect MilestoneCorrect.
From S2P Require Import MilestoneFinality MilestoneProposal.
#[local] Open Scope Z_scope.

Section finality.
Context {AC : AddressCodec} {VC : VoteCodec} {HF : HashFunction} (cfg : Config).

(** A proposition that passes validation makes a sound ballot. *)
Lemma validated_sound s b : ValidateMilestoneProposition s (Some (b_prop b)) = Ok tt ->
  0 <= StartBlockNumber (b_prop b) ->
  StartBlockNumber (b_prop b) + Z.of_nat (length (BlockHashes (b_prop b))) <= MaxUint64 -> sound_ballot b.
Proof.
  unfold ValidateMilestoneProposition. intros H Hs He. ok_inv H. bool_hyps.
  repeat match goal with H : (_ =? _)%nat = true |- _ => apply Nat.eqb_eq in H end.
  split; [done| |done|done].
  match goal with H : length (remove_dups _) = _ |- _ => revert H end. clear. induction (BlockHashes (b_prop b)) as [|h hs IH]; cbn [remove_dups length]; intros E; [constructor|].
  assert (forall l : list bytes, (length (remove_dups l) <= length l)%nat) as Hle.
  { clear. induction l as [|x l IH]; cbn; [done|]. destruct (decide_rel _ _ _); cbn; lia. }
  specialize (Hle hs). destruct (decide_rel elem_of h hs); [lia|]. constructor; [done|]. apply IH. cbn in E. lia.
Qed.

(** C8: A finalised milestone is backed by distinct validators whose votes hold
    exactly its blocks, with the required power; it starts after the last
    milestone, is not empty, and its proposer and the recorded ids are those of its
    supporters. *)
Theorem milestone_has_supporters order ctx vs votes m lastEnd lastHash prop agg proposer ids :
  codec_ok -> wf vs ->
  GetMajorityMilestoneProposition cfg order ctx vs votes m lastEnd lastHash
    = Ok (Some (prop, agg, proposer, ids)) ->
  exists bs sup, ballots_of cfg ctx vs ∅ votes = Ok bs /\ NoDup (map b_addr bs) /\ sup ⊆+ bs /\
    m <= Zsum (map b_power sup) /\
    (forall b, b ∈ bs -> b ∈ sup <-> agrees (StartBlockNumber prop) (BlockHashes prop) (BlockTds prop) b) /\
    BlockHashes prop <> [] /\ length (BlockTds prop) = length (BlockHashes prop) /\
    (forall e, lastEnd = Some e -> u64 (e + 1) <= StartBlockNumber prop) /\
    (exists b, b ∈ sup /\ b_addr b = proposer) /\
    (forall i, i ∈ ids <-> exists b v, b ∈ sup /\ get_val vs (b_addr b) = Some v /\ ValId v = i).
Proof. apply finalised_support. Qed.

(** When the required power is more than half of the set's, the validators
    whose votes differ from the finalised milestone at some of its blocks do not
    have the required power, whatever they agree on. *)
Theorem milestone_excludes_conflicts order ctx vs votes m lastEnd lastHash prop agg proposer ids bs T :
  codec_ok -> wf vs -> powers (Validators vs) < 2 * m ->
  GetMajorityMilestoneProposition cfg order ctx vs votes m lastEnd lastHash
    = Ok (Some (prop, agg, proposer, ids)) ->
  ballots_of cfg ctx vs ∅ votes = Ok bs -> T ⊆+ bs ->
  (forall b, b ∈ T -> ~ agrees (StartBlockNumber prop) (BlockHashes prop) (BlockTds prop) b) ->
  Zsum (map b_power T) < m.
Proof.
  intros HC Hwf Hm2 H Hbs HT Hdis.
  destruct (finalised_support cfg _ _ _ _ _ _ _ _ _ _ _ HC Hwf H) as (bs' & sup & E & _ & Hsup & Hm & Hag & _).
  rewrite Hbs in E. injection E as <-.
  assert (T ++ sup ⊆+ bs) as Hboth.
  { destruct (ballots_of_spec _ _ _ _ _ _ Hbs) as [ND%(NoDup_fmap_1 b_addr) _].
    assert (forall l, l ⊆+ bs -> NoDup l) as HND.
    { intros l [r Er]%submseteq_Permutation. rewrite Er in ND. by apply NoDup_app in ND as [? _]. }
    apply NoDup_submseteq.
    - apply NoDup_app. split_and!; [by apply HND| |by apply HND]. intros b HbT Hbs'.
      apply (Hdis b HbT), Hag; [by eapply elem_of_submseteq|done].
    - intros b [Hb|Hb]%elem_of_app; by eapply elem_of_submseteq. }
  destruct (ballots_power cfg ctx vs votes bs _ (ck_formatted HC) Hwf Hbs Hboth) as [Hle _].
  rewrite map_app, Zsum_app in Hle. lia.
Qed.

(** C25: When validators with the required power, which is more than half of the
    set's, vote for the same proposition that continues the last milestone, it is
    finalised as they proposed it, whatever the others vote and in whatever order
    maps are iterated. *)
Theorem shared_proposition_is_finalised s order ctx vs votes bs H m p lastEnd :
  codec_ok -> wf vs -> ballots_of cfg ctx vs ∅ votes = Ok bs ->
  (forall b, b ∈ bs -> ValidateMilestoneProposition s (Some (b_prop b)) = Ok tt /\
     StartBlockNumber (b_prop b) + Z.of_nat (length (BlockHashes (b_prop b))) <= MaxUint64) ->
  (forall ps : gset string, order ps ≡ₚ elements ps) ->
  H ⊆+ bs -> 0 < m <= Zsum (map b_power H) -> powers (Validators vs) < 2 * m ->
  (forall b, b ∈ H -> b_prop b = p) ->
  match lastEnd with Some e => StartBlockNumber p = u64 (e + 1) | None => StartBlockNumber p = 0 end ->
  exists agg proposer ids,
    GetMajorityMilestoneProposition cfg order ctx vs votes m lastEnd (ParentHash p)
    = Ok (Some ({| BlockHashes := BlockHashes p; StartBlockNumber := StartBlockNumber p; ParentHash := [];
                   BlockTds := BlockTds p; LatestBlockNumber := 0; LatestBlockHash := [] |}, agg, proposer, ids)).
Proof.
  intros HC Hwf Hbs Hval Ho Hsub Hm Hm2 Hsh Hstart.
  pose proof (ballots_u64 cfg HC ctx vs votes ∅ bs Hbs) as HU. rewrite Forall_forall in HU.
  apply (shared_finalised cfg order ctx vs votes bs H m p lastEnd); try done.
  - apply Forall_forall. intros b Hb. destruct (Hval b Hb) as [H1 H2], (HU b Hb) as [[H3 _] _].
    by apply (validated_sound s).
  - by intros b <-%Hsh.
  - destruct H as [|b l]; [cbn in Hm; lia|].
    assert (b ∈ bs) as Hb by (eapply elem_of_submseteq; [left|exact Hsub]).
    destruct (Hval b Hb) as [H1 _]. rewrite (Hsh b) in H1 by left. intros E.
    unfold ValidateMilestoneProposition in H1. ok_inv H1. rewrite E in *. done.
Qed.

(** The head the votes settle on is not beyond the finalised block, has the
    required power, and no head that was voted for has more; among equals it has
    the smallest key.  If none is found, no head has the required power. *)
Theorem actual_head_is_strongest ctx vs votes m maxBlock n h found :
  formatted_codec -> head_codec -> wf vs ->
  GetMajorityActualHead cfg ctx vs votes m maxBlock = Ok (n, h, found) ->
  exists heads, heads_of cfg ctx vs maxBlock ∅ votes = Ok heads /\ NoDup (map hv_addr heads) /\
    if found then
      n <= maxBlock /\ (exists v, v ∈ heads /\ hv_number v = n /\ hv_hash v = h) /\ m <= head_power heads n h /\
      forall v, v ∈ heads -> m <= head_power heads (hv_number v) (hv_hash v) ->
        head_power heads (hv_number v) (hv_hash v) <= head_power heads n h /\
        (head_power heads (hv_number v) (hv_hash v) = head_power heads n h ->
           str_ltb (head_key (hv_number v) (hv_hash v)) (head_key n h) = false)
    else forall v, v ∈ heads -> head_power heads (hv_number v) (hv_hash v) < m.
Proof. apply actual_head_spec. Qed.

(** A validator that sees one consistent chain proposes blocks of that chain,
    and its proposition passes the validation of every other validator. *)
Theorem honest_proposition_is_valid {BC : BorChain} chain top ctx s params canVote author p :
  chain_view chain top ->
  milestone_params s = Some params -> 0 < MaxMilestonePropositionLength params <= BorBatchSizeCap ->
  GenMilestoneProposition cfg ctx s canVote author = Ok p ->
  of_chain chain (StartBlockNumber p) (BlockHashes p) (BlockTds p) /\
  ValidateMilestoneProposition s (Some p) = Ok tt.
Proof. intros CV. by apply honest_proposition_spec with top. Qed.
End finality.

(** ** The store *)

(** A milestone that is added is the last milestone, under the next number,
    and the others stay; deleting it makes its predecessor the last again.  (The
    count must not be at the end of the 64-bit range.) *)
Theorem milestone_add_then_delete s m prev :
  0 <= GetMilestoneCount s < MaxUint64 -> GetLastMilestone s = Ok prev ->
  let n := GetMilestoneCount s + 1 in
  GetLastMilestone (AddMilestone s m) = Ok (with_mi_proposer m (FormatAddress (mi_Proposer m))) /\
  (forall k, k <> n -> GetMilestoneByNumber (AddMilestone s m) k = GetMilestoneByNumber s k) /\
  exists s', DeleteMilestone (AddMilestone s m) n = (s', Ok tt) /\ GetLastMilestone s' = Ok prev /\
    GetMilestoneCount s' = GetMilestoneCount s /\ GetLastMilestoneBlock s' = mi_EndBlock prev.
Proof.
  intros Hc Hp n. unfold AddMilestone. rewrite u64_id by (unfold in_u64; lia). fold n.
  unfold GetLastMilestone in Hp. ok_step Hp. bool_hyps. unfold GetMilestoneByNumber in Hp. apply of_option_ok in Hp.
  split_and!.
  - unfold GetLastMilestone. cbn. rewrite (proj2 (Z.eqb_neq n 0)) by lia. cbn [fail_if].
    unfold GetMilestoneByNumber. cbn. by rewrite lookup_insert_eq.
  - intros k Hk. unfold GetMilestoneByNumber. cbn. by rewrite lookup_insert_ne.
  - unfold DeleteMilestone. cbn [milestone AddMilestone SetMilestoneCount set_milestones].
    rewrite lookup_insert_eq, bool_decide_true by eauto. cbn [negb].
    match goal with |- context [GetMilestoneCount ?x] => change (GetMilestoneCount x) with n end.
    rewrite Z.eqb_refl, (proj2 (Z.ltb_lt 0 n)) by lia. cbn [andb].
    unfold GetMilestoneByNumber at 1. cbn [milestone SetMilestoneCount set_milestones].
    replace (n - 1) with (GetMilestoneCount s) by lia.
    rewrite lookup_delete_ne, lookup_insert_ne by lia. rewrite Hp. cbn [of_option].
    eexists. split; [done|]. split_and!; [|done..].
    unfold GetLastMilestone. match goal with |- context [GetMilestoneCount (SetLastMilestoneBlock ?x ?y)] =>
      change (GetMilestoneCount (SetLastMilestoneBlock x y)) with (GetMilestoneCount s) end.
    rewrite (proj2 (Z.eqb_neq _ 0)) by lia. unfold GetMilestoneByNumber.
    cbn [fail_if milestone SetLastMilestoneBlock SetMilestoneCount set_milestones].
    by rewrite lookup_delete_ne, lookup_insert_ne, Hp by lia.
Qed.

(** ** A concrete network *)

Module MilestoneDemo.
Definition member (i : Z) (a : string) (power : Z) : Validator := NewValidator i 0 0 0 power [] a.
Definition demo_set : ValidatorSet :=
  {| Validators := [member 1 "0xaa" 10; member 2 "0xbb" 20; member 3 "0xcc" 30];
     Proposer := None; TotalVotingPower := 60 |}.
#[export] Instance demo_codec : AddressCodec := {|
  PubKeyAddress _ := None; AddressString _ := ""; StringToBytes _ := Panic;
  BytesToString bs := if decide (bs = [Byte.xaa]) then Ok "0xaa" else if decide (bs = [Byte.xbb]) then Ok "0xbb"
                      else if decide (bs = [Byte.xcc]) then Ok "0xcc" else Err (ErrText "address") |}.
Definition block_hash (b : Byte.byte) : bytes := repeat b 32.
Definition shared : MilestoneProposition :=
  {| BlockHashes := [block_hash Byte.x01; block_hash Byte.x02]; StartBlockNumber := 11;
     ParentHash := block_hash Byte.x00; BlockTds := [21; 22];
     LatestBlockNumber := 13; LatestBlockHash := block_hash Byte.x03 |}.
Definition other : MilestoneProposition :=
  {| BlockHashes := [block_hash Byte.x01; block_hash Byte.x09]; StartBlockNumber := 11;
     ParentHash := block_hash Byte.x00; BlockTds := [21; 23];
     LatestBlockNumber := 0; LatestBlockHash := [] |}.
Definition extension (p : MilestoneProposition) : VoteExtension :=
  {| vx_BlockHash := Some []; vx_Height := 99; SideTxResponses := []; vx_MilestoneProposition := Some p |}.
#[export] Instance demo_ve : VoteCodec := {|
  unmarshal_ve bs := if decide (bs = [Byte.x01]) then Some (extension shared)
                     else if decide (bs = [Byte.x02]) then Some (extension other) else None;
  has_unknown_fields _ := false |}.
#[export] Instance demo_hash : HashFunction := {| Keccak256 bs := take 32 bs |}.
Definition vote (a ve : Byte.byte) : ExtendedVoteInfo :=
  {| vi_Address := [a]; vi_Power := 1; vi_Flag := BlockIDFlagCommit; vi_VoteExtension := [ve];
     vi_ExtensionSignature := []; vi_NonRpVoteExtension := []; vi_NonRpExtensionSignature := [] |}.
Definition demo_votes : list ExtendedVoteInfo :=
  [vote Byte.xaa Byte.x02; vote Byte.xbb Byte.x01; vote Byte.xcc Byte.x01].
Definition demo_config : Config :=
  {| rioHeight := 1000; tallyFixHeight := 0; disableVPCheckHeight := 0; disableValSetCheckHeight := 0;
     initialHeight := 1; producerDowntimeHeight := 1; phuketHardforkHeight := 1;
     feeWithdrawValidatorGateHeight := 1; zurichHardforkHeight := 1; ithacaHeight := 1;
     fallbackProducerVotes := [] |}.
Definition demo_ctx : Ctx := {| BlockHeight := 100; BlockTime := 5000 |}.
Definition ballot (a : string) (raw : Byte.byte) (power : Z) (p : MilestoneProposition) : Ballot :=
  {| b_addr := a; b_raw := [raw]; b_power := power; b_prop := p |}.
Definition demo_ballots : list Ballot :=
  [ballot "0xaa" Byte.xaa 10 other; ballot "0xbb" Byte.xbb 20 shared; ballot "0xcc" Byte.xcc 30 shared].

Lemma demo_formatted : formatted_codec.
Proof.
  intros bs a. unfold BytesToString, demo_codec. intros H.
  case_decide; [by injection H as <-|]. case_decide; [by injection H as <-|].
  case_decide; [by injection H as <-|discriminate H].
Qed.
Lemma demo_unmarshal bs ve : unmarshal_ve bs = Some ve -> ve = extension shared \/ ve = extension other.
Proof.
  unfold unmarshal_ve, demo_ve. intros H. 
  case_decide; [injection H as <-; by left|]. case_decide; [injection H as <-; by right|discriminate H].
Qed.
Lemma demo_codec_ok : codec_ok.
Proof.
  split; [exact demo_formatted|].
  intros bs ve p [-> | ->]%demo_unmarshal [= <-]; unfold in_u64, MaxUint64; cbn [shared other StartBlockNumber BlockTds];
    (split; [lia|]); repeat apply Forall_cons_2; try apply Forall_nil_2; lia.
Qed.
Lemma demo_head_codec : head_codec.
Proof. intros bs ve p [-> | ->]%demo_unmarshal [= <-]; unfold in_u64, MaxUint64; cbn; lia. Qed.
Lemma demo_wf : wf demo_set.
Proof. apply wf_check_sound. reflexivity. Qed.

Definition demo_result : MajorityResult :=
  ({| BlockHashes := BlockHashes shared; StartBlockNumber := 11; ParentHash := []; BlockTds := [21; 22];
      LatestBlockNumber := 0; LatestBlockHash := [] |},
   Keccak256 (Keccak256 (bar ++ [Byte.xcc]) ++ bar ++ [Byte.xbb]), "0xcc", {[2; 3]}).
Lemma demo_finalises : GetMajorityMilestoneProposition demo_config elements demo_ctx demo_set demo_votes 41
  (Some 10) (block_hash Byte.x00) = Ok (Some demo_result).
Proof. vm_compute. reflexivity. Qed.

Lemma milestone_has_supporters_witness : exists bs sup,
  ballots_of demo_config demo_ctx demo_set ∅ demo_votes = Ok bs /\ sup ⊆+ bs /\ 41 <= Zsum (map b_power sup).
Proof.
  destruct (milestone_has_supporters demo_config elements demo_ctx demo_set demo_votes 41 (Some 10)
    (block_hash Byte.x00) demo_result.1.1.1 demo_result.1.1.2 demo_result.1.2 demo_result.2 demo_codec_ok demo_wf demo_finalises) as (bs & sup & H1 & _ & H2 & H3 & _).
  exists bs, sup. auto.
Defined.

Lemma milestone_excludes_conflicts_witness : Zsum (map b_power [ballot "0xaa" Byte.xaa 10 other]) < 41.
Proof.
  apply (milestone_excludes_conflicts demo_config elements demo_ctx demo_set demo_votes 41 (Some 10)
    (block_hash Byte.x00) demo_result.1.1.1 demo_result.1.1.2 demo_result.1.2 demo_result.2 demo_ballots _ demo_codec_ok demo_wf).
  - reflexivity.
  - exact demo_finalises.
  - reflexivity.
  - apply submseteq_skip, submseteq_nil_l.
  - intros b [->|Hb]%elem_of_cons H; [|by apply not_elem_of_nil in Hb].
    specialize (H 1%nat _ _ eq_refl eq_refl). vm_compute in H. discriminate H.
Defined.

Definition demo_params : MilestoneParams :=
  {| MaxMilestonePropositionLength := 10; FfMilestoneThreshold := 1000; FfMilestoneBlockInterval := 250 |}.
Definition last_milestone : MilestoneRecord :=
  {| mi_Proposer := "0xcc"; mi_StartBlock := 0; mi_EndBlock := 10; mi_Hash := block_hash Byte.x00;
     mi_BorChainId := "137"; mi_MilestoneId := "m"; mi_Timestamp := 4000; mi_TotalDifficulty := 20 |}.
Definition demo_milestones : MilestoneState :=
  {| milestone := {[1 := last_milestone]}; milestone_params := Some demo_params; milestone_count := Some 1;
     lastMilestoneBlock := Some 10; lastPendingBorBlock := None; lastPendingBorBlockId := None;
     lastPendingBorBlockHeight := None |}.

Lemma shared_proposition_is_finalised_witness : exists agg proposer ids,
  GetMajorityMilestoneProposition demo_config elements demo_ctx demo_set demo_votes 41 (Some 10) (ParentHash shared)
  = Ok (Some ({| BlockHashes := BlockHashes shared; StartBlockNumber := 11; ParentHash := [];
                 BlockTds := [21; 22]; LatestBlockNumber := 0; LatestBlockHash := [] |}, agg, proposer, ids)).
Proof.
  apply (shared_proposition_is_finalised demo_config demo_milestones elements demo_ctx demo_set demo_votes demo_ballots
    [ballot "0xbb" Byte.xbb 20 shared; ballot "0xcc" Byte.xcc 30 shared] 41 shared (Some 10) demo_codec_ok demo_wf).
  - reflexivity.
  - intros b Hb. repeat (apply elem_of_cons in Hb as [->|Hb]; [split; [vm_compute; reflexivity|vm_compute; discriminate]|]).
    by apply not_elem_of_nil in Hb.
  - done.
  - apply submseteq_cons. done.
  - vm_compute. split; [reflexivity|discriminate].
  - reflexivity.
  - intros b Hb. repeat (apply elem_of_cons in Hb as [->|Hb]; [done|]). by apply not_elem_of_nil in Hb.
  - reflexivity.
Defined.

Lemma actual_head_is_strongest_witness : exists heads,
  heads_of demo_config demo_ctx demo_set 13 ∅ demo_votes = Ok heads /\ 41 <= head_power heads 13 (block_hash Byte.x03).
Proof.
  destruct (actual_head_is_strongest demo_config demo_ctx demo_set demo_votes 41 13 13 (block_hash Byte.x03) true
    demo_formatted demo_head_codec demo_wf ltac:(vm_compute; reflexivity)) as (heads & H & _ & _ & _ & Hm & _).
  by exists heads.
Defined.

(** A chain of twenty blocks whose hashes spell their numbers. *)
Definition demo_chain (n : Z) : Header * Z :=
  ({| Number := n; HeaderHash := le_encode 32 n; HeaderParentHash := le_encode 32 (n - 1) |}, 2 * n).
#[export] Instance demo_bor_chain : BorChain := {|
  GetBorChainBlock o := match o with Some n => Some (demo_chain n).1 | None => Some (demo_chain 20).1 end;
  GetBorChainBlockAuthor _ := Some zero_address;
  BorBatch _ _ := Some (fun n => (if n <=? 20 then Some (demo_chain n) else None, Some zero_address));
|}.
Lemma demo_view : chain_view demo_chain 20.
Proof.
  split.
  - by vm_compute.
  - done.
  - intros n _. apply length_le_encode.
  - intros n k Hn Hk E. apply (f_equal le_decode) in E. unfold demo_chain in E. cbn [fst HeaderHash] in E.
    assert (forall x, 0 <= x <= 20 -> le_decode (le_encode 32 x) = x) as Hd
      by (intros x Hx; apply le_decode_encode; split; [lia|]; by apply (Z.le_lt_trans _ 20); [lia|vm_compute]).
    by rewrite !Hd in E.
  - reflexivity.
  - intros first last slot n b [= <-] _. cbn. destruct (n <=? 20); [|done]. by intros [= <-].
Qed.
Definition fresh_milestones : MilestoneState :=
  {| milestone := ∅; milestone_params := Some demo_params; milestone_count := None; lastMilestoneBlock := None;
     lastPendingBorBlock := None; lastPendingBorBlockId := None; lastPendingBorBlockHeight := None |}.

Lemma honest_proposition_is_valid_witness : exists p,
  GenMilestoneProposition demo_config demo_ctx fresh_milestones true (fun _ => Ok [zero_address]) = Ok p /\
  ValidateMilestoneProposition fresh_milestones (Some p) = Ok tt.
Proof.
  eexists. split; [vm_compute; reflexivity|].
  apply (honest_proposition_is_valid demo_config demo_chain 20 demo_ctx fresh_milestones demo_params true
    (fun _ => Ok [zero_address]) _ demo_view).
  - reflexivity.
  - vm_compute. split; [reflexivity|discriminate].
  - vm_compute. reflexivity.
Defined.

Lemma milestone_add_then_delete_witness :
  GetLastMilestone (AddMilestone demo_milestones last_milestone) = Ok last_milestone /\
  exists s', DeleteMilestone (AddMilestone demo_milestones last_milestone) 2 = (s', Ok tt) /\
    GetLastMilestone s' = Ok last_milestone.
Proof.
  destruct (milestone_add_then_delete demo_milestones last_milestone last_milestone) as (H1 & _ & s' & H2 & H3 & _).
  - vm_compute. split; [discriminate|reflexivity].
  - reflexivity.
  - split; [exact H1|]. exists s'. split; [exact H2|exact H3].
Defined.
End MilestoneDemo.
