(* ===== verification/VoteExt.v ===== *)
(** * Vote extensions of a block

    Models [app/vote_ext_utils.go]: the check and the filter of the extended
    votes of the previous height, the tally of the votes on side transactions,
    and the vote extensions without replay protection (checkpoint signatures).
    Signatures and canonical sign bytes are parameters. *)
From S2P Require Import Prelude SortedList Helpers External VoteTypes ValidatorSet Milestone MilestoneVotes.
#[local] Open Scope Z_scope.

(** The consensus layer: the key of a validator ([CmtConsPublicKey] and
    [PubKeyFromProto]), signature checks, and the sign bytes of a
    [CanonicalVoteExtension]. *)
Class ConsensusLayer := {
  ConsensusKey : Type;
  getValidatorPublicKey : bytes -> option ConsensusKey;
  VerifySignature : ConsensusKey -> bytes -> bytes -> bool;
  ext_sign_bytes : bytes -> Z -> Z -> string -> option bytes;   (* extension, height, round, chain *)
}.
(** What the context holds of the chain. *)
Record ChainInfo := { ChainID : string; VoteExtensionsEnableHeight : Z }.

Definition maxSideTxResponsesCount : nat := 50.
Definition safetyFactor : Z := 2.
Definition overheadPerValidator : Z := 500.
Definition minVESize : Z := 10.
Definition maxVESize : Z := 10 * 1024.
Definition maxNonRpVoteExtensionSize : Z := 500.
(** ["\t\r\n#HEIMDALL-VOTE-EXTENSION#\r\n\t"] *)
Definition dummyNonRpVoteExtension : bytes :=
  [Byte.x09; Byte.x0d; Byte.x0a] ++ list_byte_of_string "#HEIMDALL-VOTE-EXTENSION#" ++ [Byte.x0d; Byte.x0a; Byte.x09].
Definition minNonRpVoteExtensionSize : Z := Z.of_nat (length dummyNonRpVoteExtension).

(** ** Small checks *)

Definition isVoteValid (v : Z) : bool := (v =? 0) || (v =? 1) || (v =? 2).
Definition isBlockIdFlagValid (flag : BlockIDFlag) : bool :=
  match flag with BlockIDFlagAbsent | BlockIDFlagCommit | BlockIDFlagNil => true | BlockIDFlagUnknown => false end.
Definition is_commit (vote : ExtendedVoteInfo) : bool := bool_decide (vi_Flag vote = BlockIDFlagCommit).
Definition isFilteredPlaceholder (vote : ExtendedVoteInfo) : bool :=
  is_commit vote && (length (vi_VoteExtension vote) =? 0)%nat && (length (vi_ExtensionSignature vote) =? 0)%nat
  && (length (vi_NonRpVoteExtension vote) =? 0)%nat && (length (vi_NonRpExtensionSignature vote) =? 0)%nat.
Definition toFilteredPlaceholder (vote : ExtendedVoteInfo) : ExtendedVoteInfo :=
  {| vi_Address := vi_Address vote; vi_Power := vi_Power vote; vi_Flag := vi_Flag vote; vi_VoteExtension := [];
     vi_ExtensionSignature := []; vi_NonRpVoteExtension := []; vi_NonRpExtensionSignature := [] |}.

Definition checkIfVoteExtensionsDisabled (ch : ChainInfo) (height : Z) : outcome unit :=
  return_if VoteExtensionsEnableHeight ch =? 0 with ErrText "vote extensions are disabled" ;;
  return_if height <? VoteExtensionsEnableHeight ch with ErrText "vote extensions are disabled at this height" ;;
  Ok tt.

(** [validateSideTxResponses]; [seen] holds the hashes met so far. *)
Fixpoint validate_responses (seen : gset bytes) (l : list SideTxResponse) : outcome unit :=
  match l with
  | [] => Ok tt
  | res :: rest =>
      return_if negb (length (TxHash res) =? HashLength)%nat with ErrText "invalid tx hash" ;;
      return_if negb (isVoteValid (Result res)) with ErrText "invalid vote result" ;;
      return_if bool_decide (TxHash res ∈ seen) with ErrText "duplicated votes for side tx" ;;
      validate_responses ({[TxHash res]} ∪ seen) rest
  end.
Definition validateSideTxResponses (l : list SideTxResponse) : outcome unit :=
  return_if (maxSideTxResponsesCount <? length l)%nat with ErrText "too many side tx responses" ;;
  validate_responses ∅ l.

Definition vote_majority (totalVotingPower : Z) : Z := Z.quot (i64 (totalVotingPower * 2)) 3.

(** The consistency check of the block hash: the first one that is not nil is
    kept, the next ones must equal it ([bytes.Equal]: nil equals empty). *)
Definition check_block_hash (blockHash hash : option bytes) : outcome (option bytes) :=
  match blockHash with
  | None => Ok hash
  | Some h =>
      return_if negb (bool_decide (h = default [] hash)) with ErrText "invalid block hash" ;; Ok (Some h)
  end.

Section votes.
Context {AC : AddressCodec} {VC : VoteCodec} {CL : ConsensusLayer} (cfg : Config).

(** ** Validation *)

Definition VEState : Type := Z * gset string * option bytes.   (* sumVP, seenValidators, blockHash *)

Definition validate_vote (ctx : Ctx) (ch : ChainInfo) (ms : MilestoneState) (reqHeight round : Z)
    (validatorSet : ValidatorSet) (st : VEState) (vote : ExtendedVoteInfo) : outcome VEState :=
  let '(sumVP, seenValidators, blockHash) := st in
  if isFilteredPlaceholder vote then Ok st
  else
    return_if has_unknown_fields (vi_VoteExtension vote) with ErrText "unknown fields detected" ;;
    return_if negb (isBlockIdFlagValid (vi_Flag vote)) with ErrText "invalid block ID flag" ;;
    if negb (is_commit vote) then Ok st
    else
      valAddrStr ← BytesToString (vi_Address vote);
      return_if (length (vi_ExtensionSignature vote) =? 0)%nat with ErrText "empty vote extension signature" ;;
      ve ← of_option (ErrText "error while unmarshalling vote extension") (unmarshal_ve (vi_VoteExtension vote));
      return_if negb (vx_Height ve =? i64 (reqHeight - 1)) with ErrText "invalid height" ;;
      blockHash ← check_block_hash blockHash (vx_BlockHash ve);
      validateSideTxResponses (SideTxResponses ve) ≫= fun _ =>
      ValidateMilestoneProposition ms (vx_MilestoneProposition ve) ≫= fun _ =>
      return_if bool_decide (valAddrStr ∈ seenValidators) with ErrText "duplicate vote" ;;
      let seenValidators := {[valAddrStr]} ∪ seenValidators in
      match get_val validatorSet valAddrStr with
      | None =>
          return_if ShouldErrorOnValidatorNotFound cfg (BlockHeight ctx) with ErrText "failed to get validator" ;;
          Ok (sumVP, seenValidators, blockHash)
      | Some validator =>
          return_if negb (vi_Power vote =? VotingPower validator) with ErrText "mismatching voting power" ;;
          key ← of_option (ErrText "validator public key") (getValidatorPublicKey (PubKey validator));
          extSignBytes ← of_option (ErrText "failed to encode CanonicalVoteExtension")
            (ext_sign_bytes (vi_VoteExtension vote) (i64 (reqHeight - 1)) round (ChainID ch));
          return_if negb (VerifySignature key extSignBytes (vi_ExtensionSignature vote))
            with ErrText "failed to verify vote extension signature" ;;
          Ok (i64 (sumVP + VotingPower validator), seenValidators, blockHash)
      end.
Fixpoint validate_votes (ctx : Ctx) (ch : ChainInfo) (ms : MilestoneState) (reqHeight round : Z)
    (validatorSet : ValidatorSet) (st : VEState) (votes : list ExtendedVoteInfo) : outcome VEState :=
  match votes with
  | [] => Ok st
  | vote :: rest =>
      st ← validate_vote ctx ch ms reqHeight round validatorSet st vote;
      validate_votes ctx ch ms reqHeight round validatorSet st rest
  end.

Definition ValidateVoteExtensions (ctx : Ctx) (ch : ChainInfo) (ms : MilestoneState) (reqHeight : Z)
    (extVoteInfo : list ExtendedVoteInfo) (round : Z) (validatorSet : ValidatorSet) : outcome unit :=
  checkIfVoteExtensionsDisabled ch (i64 (reqHeight + 1)) ≫= fun _ =>
  if reqHeight <=? VoteExtensionsEnableHeight ch then
    return_if negb (length extVoteInfo =? 0)%nat with ErrText "non-empty VEs received at initial height" ;; Ok tt
  else
    '(totalVotingPower, validatorSet) ← GetTotalVotingPower validatorSet;
    '(sumVP, _, _) ← validate_votes ctx ch ms reqHeight round validatorSet (0, ∅, None) extVoteInfo;
    return_if sumVP <=? vote_majority totalVotingPower with ErrText "insufficient cumulative voting power" ;;
    Ok tt.

(** ** Completeness *)

Record VoteInfo := { ci_Address : bytes; ci_Flag : BlockIDFlag }.
Definition ext_commit_flags (votes : list ExtendedVoteInfo) : gmap bytes BlockIDFlag :=
  fold_left (fun m v => <[vi_Address v := vi_Flag v]> m) votes ∅.
Fixpoint check_commits (flags : gmap bytes BlockIDFlag) (canonicalVotes : list VoteInfo) : outcome unit :=
  match canonicalVotes with
  | [] => Ok tt
  | vote :: rest =>
      if negb (bool_decide (ci_Flag vote = BlockIDFlagCommit)) then check_commits flags rest
      else
        flag ← of_option (ErrText "missing from ExtendedCommitInfo") (flags !! ci_Address vote);
        return_if negb (bool_decide (flag = BlockIDFlagCommit)) with ErrText "flag instead of Commit" ;;
        check_commits flags rest
  end.
Definition ValidateVoteExtensionsCompleteness (canonicalVotes : list VoteInfo)
    (extCommitVotes : list ExtendedVoteInfo) : outcome unit :=
  check_commits (ext_commit_flags extCommitVotes) canonicalVotes.

(** ** The proposer's filter *)

(** The limit on the size of a vote extension, clamped. *)
Definition max_ve_size (maxTxBytes : Z) (validatorsCount : Z) : Z :=
  let calculatedSize := i64 (Z.quot (Z.quot (i64 maxTxBytes) validatorsCount) safetyFactor - overheadPerValidator) in
  if calculatedSize <? minNonRpVoteExtensionSize then minNonRpVoteExtensionSize
  else if maxVESize <? calculatedSize then maxVESize else calculatedSize.

(** A vote is kept, kept without its payload, or dropped. *)
Inductive FilterResult := Keep (blockHash : option bytes) (power : Z) | Placeholder | Drop.

(** The loop body: the result and the validators seen.  [fixes]: from Phuket on
    an invalid vote leaves a placeholder instead of being dropped (or failing). *)
Definition filter_vote (ctx : Ctx) (ch : ChainInfo) (ms : MilestoneState) (reqHeight round : Z)
    (validatorSet : ValidatorSet) (fixes : bool) (maxVESizePerValidator : Z) (seenValidators : gset string)
    (vote : ExtendedVoteInfo) : outcome (FilterResult * gset string) :=
  let invalid seen := Ok (if fixes then Placeholder else Drop, seen) in
  let veSize := Z.of_nat (length (vi_VoteExtension vote)) in
  let nonRpSize := Z.of_nat (length (vi_NonRpVoteExtension vote)) in
  valAddrStr ← BytesToString (vi_Address vote);
  if fixes && ((veSize <? minVESize) || (maxVESizePerValidator <? veSize)
               || (nonRpSize <? minNonRpVoteExtensionSize) || (maxNonRpVoteExtensionSize <? nonRpSize))
  then Ok (Placeholder, seenValidators)
  else if has_unknown_fields (vi_VoteExtension vote) then invalid seenValidators
  else if negb (isBlockIdFlagValid (vi_Flag vote)) then Ok (Drop, seenValidators)
  else if negb (is_commit vote) then Ok (Drop, seenValidators)
  else if (length (vi_ExtensionSignature vote) =? 0)%nat then
    if fixes then invalid seenValidators else Err (ErrText "empty vote extension signature")
  else
    match unmarshal_ve (vi_VoteExtension vote) with
    | None => invalid seenValidators
    | Some ve =>
        if negb (vx_Height ve =? i64 (reqHeight - 1)) then invalid seenValidators
        else
          match validateSideTxResponses (SideTxResponses ve) with
          | Panic => Panic
          | Err _ => invalid seenValidators
          | Ok _ =>
              match ValidateMilestoneProposition ms (vx_MilestoneProposition ve) with
              | Panic => Panic
              | Err _ => invalid seenValidators
              | Ok _ =>
                  return_if bool_decide (valAddrStr ∈ seenValidators) with ErrText "duplicated vote detected" ;;
                  let seenValidators := {[valAddrStr]} ∪ seenValidators in
                  match get_val validatorSet valAddrStr with
                  | None => invalid seenValidators
                  | Some validator =>
                      if negb (vi_Power vote =? VotingPower validator) then invalid seenValidators
                      else
                        key ← of_option (ErrText "validator public key") (getValidatorPublicKey (PubKey validator));
                        extSignBytes ← of_option (ErrText "failed to encode CanonicalVoteExtension")
                          (ext_sign_bytes (vi_VoteExtension vote) (i64 (reqHeight - 1)) round (ChainID ch));
                        if negb (VerifySignature key extSignBytes (vi_ExtensionSignature vote)) then
                          if fixes then invalid seenValidators
                          else Err (ErrText "failed to verify vote extension signature")
                        else if fixes && negb (VerifySignature key (vi_NonRpVoteExtension vote)
                                                 (vi_NonRpExtensionSignature vote))
                        then invalid seenValidators
                        else Ok (Keep (vx_BlockHash ve) (VotingPower validator), seenValidators)
                  end
              end
          end
    end.

(** The first loop: the votes that stay and the power per block hash. *)
Fixpoint filter_votes (ctx : Ctx) (ch : ChainInfo) (ms : MilestoneState) (reqHeight round : Z)
    (validatorSet : ValidatorSet) (fixes : bool) (maxVESizePerValidator : Z) (seenValidators : gset string)
    (sumVPPerBlockHash : gmap string Z) (votes : list ExtendedVoteInfo)
    : outcome (list ExtendedVoteInfo * gmap string Z) :=
  match votes with
  | [] => Ok ([], sumVPPerBlockHash)
  | vote :: rest =>
      '(r, seenValidators) ←
        filter_vote ctx ch ms reqHeight round validatorSet fixes maxVESizePerValidator seenValidators vote;
      match r with
      | Drop => filter_votes ctx ch ms reqHeight round validatorSet fixes maxVESizePerValidator
                  seenValidators sumVPPerBlockHash rest
      | Placeholder =>
          '(l, sums) ← filter_votes ctx ch ms reqHeight round validatorSet fixes maxVESizePerValidator
                         seenValidators sumVPPerBlockHash rest;
          Ok (toFilteredPlaceholder vote :: l, sums)
      | Keep h power =>
          let key := Bytes2Hex (default [] h) in
          '(l, sums) ← filter_votes ctx ch ms reqHeight round validatorSet fixes maxVESizePerValidator seenValidators
                         (<[key := i64 (map_get 0 sumVPPerBlockHash key + power)]> sumVPPerBlockHash) rest;
          Ok (vote :: l, sums)
      end
  end.

(** The second loop: only the votes for the block with the majority. *)
Fixpoint filter_block_hash (fixes : bool) (majorityBlockHash : string) (votes : list ExtendedVoteInfo)
    : list ExtendedVoteInfo :=
  match votes with
  | [] => []
  | vote :: rest =>
      let rest := filter_block_hash fixes majorityBlockHash rest in
      let other := if fixes then toFilteredPlaceholder vote :: rest else rest in
      if isFilteredPlaceholder vote then vote :: rest
      else
        match unmarshal_ve (vi_VoteExtension vote) with
        | None => other
        | Some ve => if String.eqb (Bytes2Hex (default [] (vx_BlockHash ve))) majorityBlockHash
                     then vote :: rest else other
        end
  end.

(** [filterVoteExtensions]; [iteration_order] is the order in which the runtime
    visits the sums. *)
Definition filterVoteExtensions (iteration_order : gmap string Z -> list (string * Z)) (ctx : Ctx) (ch : ChainInfo)
    (ms : MilestoneState) (reqHeight : Z) (extVoteInfo : list ExtendedVoteInfo) (round : Z)
    (validatorSet : ValidatorSet) (maxTxBytes : Z) : outcome (list ExtendedVoteInfo) :=
  checkIfVoteExtensionsDisabled ch (i64 (reqHeight + 1)) ≫= fun _ =>
  if reqHeight <=? VoteExtensionsEnableHeight ch then
    return_if negb (length extVoteInfo =? 0)%nat with ErrText "non-empty VEs received at initial height" ;; Ok []
  else
    let fixes := IsPhuketHardfork cfg reqHeight in
    let validatorsCount := Z.of_nat (length (Validators validatorSet)) in
    return_if fixes && (validatorsCount =? 0) with ErrText "no validators in filterVoteExtensions" ;;
    '(validVoteExtensions, sums) ← filter_votes ctx ch ms reqHeight round validatorSet fixes
        (if fixes then max_ve_size maxTxBytes validatorsCount else 0) ∅ ∅ extVoteInfo;
    '(totalVotingPower, validatorSet) ← GetTotalVotingPower validatorSet;
    let majorityVP := vote_majority totalVotingPower in
    match List.find (fun s => majorityVP <? s.2) (iteration_order sums) with
    | None =>
        return_if 0 <=? majorityVP with ErrText "insufficient cumulative voting power" ;;
        Ok (filter_block_hash fixes "" validVoteExtensions)
    | Some (majorityBlockHash, _) => Ok (filter_block_hash fixes majorityBlockHash validVoteExtensions)
    end.

(** ** The tally *)

(** The votes of one validator, added to the powers per side transaction. *)
Fixpoint add_responses (power : Z) (voted : gset string) (voteByTxHash : gmap string (gmap Z Z))
    (l : list SideTxResponse) : outcome (gmap string (gmap Z Z)) :=
  match l with
  | [] => Ok voteByTxHash
  | res :: rest =>
      let txHashStr := Bytes2Hex (TxHash res) in
      return_if bool_decide (txHashStr ∈ voted) with ErrText "multiple votes received for side tx" ;;
      return_if negb (isVoteValid (Result res)) with ErrText "invalid vote" ;;
      let voteMap := map_get ∅ voteByTxHash txHashStr in
      add_responses power ({[txHashStr]} ∪ voted)
        (<[txHashStr := <[Result res := i64 (map_get 0 voteMap (Result res) + power)]> voteMap]> voteByTxHash) rest
  end.

(** [aggregateVotes]: the powers, the validators counted and the block hash. *)
Definition AggState : Type := gmap string (gmap Z Z) * gset string * option bytes.
Definition aggregate_vote (validatorSet : ValidatorSet) (currentHeight : Z) (st : AggState)
    (vote : ExtendedVoteInfo) : outcome AggState :=
  let '(voteByTxHash, counted, blockHash) := st in
  if isFilteredPlaceholder vote then Ok st
  else
    return_if negb (isBlockIdFlagValid (vi_Flag vote)) with ErrText "invalid block ID flag" ;;
    if negb (is_commit vote) then Ok st
    else
      ve ← of_option (ErrText "error while unmarshalling vote extension") (unmarshal_ve (vi_VoteExtension vote));
      return_if negb (vx_Height ve =? i64 (currentHeight - 1)) with ErrText "invalid height" ;;
      blockHash ← check_block_hash blockHash (vx_BlockHash ve);
      addr ← BytesToString (vi_Address vote);
      match get_val validatorSet addr with
      | None => Ok (voteByTxHash, counted, blockHash)
      | Some validator =>
          return_if bool_decide (addr ∈ counted) with ErrText "duplicate vote received" ;;
          voteByTxHash ← add_responses (VotingPower validator) ∅ voteByTxHash (SideTxResponses ve);
          Ok (voteByTxHash, {[addr]} ∪ counted, blockHash)
      end.
Fixpoint aggregate_votes (validatorSet : ValidatorSet) (currentHeight : Z) (st : AggState)
    (votes : list ExtendedVoteInfo) : outcome AggState :=
  match votes with
  | [] => Ok st
  | vote :: rest =>
      st ← aggregate_vote validatorSet currentHeight st vote;
      aggregate_votes validatorSet currentHeight st rest
  end.
Definition aggregateVotes (extVoteInfo : list ExtendedVoteInfo) (validatorSet : ValidatorSet) (currentHeight : Z)
    : outcome (gmap string (gmap Z Z)) :=
  '(voteByTxHash, _, _) ← aggregate_votes validatorSet currentHeight (∅, ∅, None) extVoteInfo;
  Ok voteByTxHash.

Definition shouldCheckVotingPower (currentHeight : Z) : bool :=
  (currentHeight <? disableVPCheckHeight cfg) || (tallyFixHeight cfg <=? currentHeight).

(** The loop over the sorted transaction hashes (as texts). *)
Fixpoint tally_txs (currentHeight totalVotingPower : Z) (voteByTxHash : gmap string (gmap Z Z)) (hashes : list string)
    : outcome (list bytes * list bytes * list bytes) :=
  match hashes with
  | [] => Ok ([], [], [])
  | h :: rest =>
      let voteMap := map_get ∅ voteByTxHash h in
      let yes := map_get 0 voteMap 1 in
      let no := map_get 0 voteMap 2 in
      let power := i64 (i64 (yes + no) + map_get 0 voteMap 0) in
      return_if shouldCheckVotingPower currentHeight && (totalVotingPower <? power)
        with ErrText "votes power exceeds total voting power" ;;
      '(approved, rejected, skipped) ← tally_txs currentHeight totalVotingPower voteByTxHash rest;
      let majorityVP := vote_majority totalVotingPower in
      Ok (if majorityVP <? yes then (FromHex h :: approved, rejected, skipped)
          else if majorityVP <? no then (approved, FromHex h :: rejected, skipped)
          else (approved, rejected, FromHex h :: skipped))
  end.

(** [tallyVotes]: the hashes of the approved, rejected and skipped transactions. *)
Definition tallyVotes (extVoteInfo : list ExtendedVoteInfo) (validatorSet : ValidatorSet) (currentHeight : Z)
    : outcome (list bytes * list bytes * list bytes) :=
  '(totalVotingPower, validatorSet) ← GetTotalVotingPower validatorSet;
  voteByTxHash ← aggregateVotes extVoteInfo validatorSet currentHeight;
  tally_txs currentHeight totalVotingPower voteByTxHash (sort_by id (map fst (map_to_list voteByTxHash))).
End votes.
