(* ===== verification/VoteExtCorrect.v ===== *)
(** * Correctness of the vote extensions

    What an honest proposer includes is accepted by the other validators, what is
    accepted can be tallied, and what the tally of the votes answers and guarantees. *)
From S2P Require Import Prelude SortedList Helpers External VoteTypes ValidatorSet ValidatorSetFacts Milestone MilestoneVotes MilestoneCollect VoteExt.
#[local] Open Scope Z_scope.

Section filter.
Context {AC : AddressCodec} {VC : VoteCodec} {CL : ConsensusLayer} (cfg : Config).
Context (ctx : Ctx) (ch : ChainInfo) (ms : MilestoneState) (H round : Z) (vs : ValidatorSet).

(** ** A vote that is kept *)

(** What the filter and the check both require of a vote that counts. *)
Record good_vote (vote : ExtendedVoteInfo) (a : string) (ve : VoteExtension) (v : Validator) : Prop := {
  gv_commit : vi_Flag vote = BlockIDFlagCommit;
  gv_known : has_unknown_fields (vi_VoteExtension vote) = false;
  gv_address : BytesToString (vi_Address vote) = Ok a;
  gv_signed : (length (vi_ExtensionSignature vote) =? 0)%nat = false;
  gv_decodes : unmarshal_ve (vi_VoteExtension vote) = Some ve;
  gv_height : vx_Height ve = i64 (H - 1);
  gv_responses : validateSideTxResponses (SideTxResponses ve) = Ok tt;
  gv_milestone : ValidateMilestoneProposition ms (vx_MilestoneProposition ve) = Ok tt;
  gv_member : get_val vs a = Some v;
  gv_power : vi_Power vote = VotingPower v;
  gv_verified : exists key b, getValidatorPublicKey (PubKey v) = Some key /\
    ext_sign_bytes (vi_VoteExtension vote) (i64 (H - 1)) round (ChainID ch) = Some b /\
    VerifySignature key b (vi_ExtensionSignature vote) = true;
}.

Lemma is_commit_true vote : is_commit vote = true <-> vi_Flag vote = BlockIDFlagCommit.
Proof. unfold is_commit. by rewrite bool_decide_eq_true. Qed.

Lemma good_not_placeholder vote a ve v : good_vote vote a ve v -> isFilteredPlaceholder vote = false.
Proof. intros G. unfold isFilteredPlaceholder. rewrite (gv_signed _ _ _ _ G). by rewrite andb_false_r. Qed.

(** The check accepts a good vote of a new validator for the same block. *)
Lemma validate_good vote a ve v sumVP seen bh : good_vote vote a ve v -> a ∉ seen ->
  (forall h, bh = Some h -> h = default [] (vx_BlockHash ve)) ->
  validate_vote cfg ctx ch ms H round vs (sumVP, seen, bh) vote =
    Ok (i64 (sumVP + VotingPower v), {[a]} ∪ seen, match bh with Some h => Some h | None => vx_BlockHash ve end).
Proof.
  intros G Ha Hbh. unfold validate_vote. rewrite (good_not_placeholder _ _ _ _ G).
  pose proof (gv_commit _ _ _ _ G) as Hc. rewrite (gv_known _ _ _ _ G). cbn [fail_if].
  rewrite (proj2 (is_commit_true vote) Hc), Hc. cbn [isBlockIdFlagValid negb fail_if].
  rewrite (gv_address _ _ _ _ G). cbn [mbind outcome_bind]. rewrite (gv_signed _ _ _ _ G), (gv_decodes _ _ _ _ G).
  cbn [fail_if of_option mbind outcome_bind]. rewrite (gv_height _ _ _ _ G), Z.eqb_refl. cbn [negb fail_if].
  assert (check_block_hash bh (vx_BlockHash ve) = Ok match bh with Some h => Some h | None => vx_BlockHash ve end) as ->.
  { destruct bh as [h|]; [|done]. cbn. by rewrite (Hbh h eq_refl), bool_decide_true. }
  cbn [mbind outcome_bind]. rewrite (gv_responses _ _ _ _ G), (gv_milestone _ _ _ _ G). cbn [mbind outcome_bind].
  rewrite bool_decide_false by done. cbn [fail_if]. rewrite (gv_member _ _ _ _ G), (gv_power _ _ _ _ G), Z.eqb_refl.
  cbn [negb fail_if]. destruct (gv_verified _ _ _ _ G) as (key & b & -> & -> & Hs).
  cbn [of_option mbind outcome_bind]. rewrite Hs. done.
Qed.

(** What the filter keeps is good. *)
Lemma filter_keep fixes limit seen vote h power seen' :
  filter_vote ctx ch ms H round vs fixes limit seen vote = Ok (Keep h power, seen') ->
  exists a ve v, good_vote vote a ve v /\ a ∉ seen /\ seen' = {[a]} ∪ seen /\ h = vx_BlockHash ve /\ power = VotingPower v.
Proof.
  unfold filter_vote. cbn zeta. intros E. ok_step E. rename a into addr.
  destruct (fixes && _); [done|]. destruct (has_unknown_fields _) eqn:Hu; [by destruct fixes|].
  destruct (negb (isBlockIdFlagValid _)); [done|]. destruct (negb (is_commit vote)) eqn:Hc; [done|].
  apply negb_false_iff, is_commit_true in Hc. destruct (length (vi_ExtensionSignature vote) =? 0)%nat eqn:Hsig; [by destruct fixes|].
  destruct (unmarshal_ve _) as [ve|] eqn:Hve; [|by destruct fixes].
  destruct (negb (vx_Height ve =? _)) eqn:Hh; [by destruct fixes|]. bool_hyps.
  destruct (validateSideTxResponses _) as [[]| |] eqn:Hr; [|by destruct fixes|done].
  destruct (ValidateMilestoneProposition _ _) as [[]| |] eqn:Hm; [|by destruct fixes|done].
  ok_step E. bool_hyps. destruct (get_val vs addr) as [v|] eqn:Hv; [|by destruct fixes].
  destruct (negb (vi_Power vote =? _)) eqn:Hp; [by destruct fixes|]. bool_hyps.
  ok_step E. ok_step E. apply of_option_ok in Ha0, Ha1.
  destruct (negb (VerifySignature a a0 _)) eqn:Hs; [by destruct fixes|]. bool_hyps.
  destruct (fixes && negb _); [by destruct fixes|]. injection E as <- <- <-.
  exists addr, ve, v. split; [|done]. split; try done. eauto.
Qed.

(** What it drops under the fixes was not committed; placeholders only exist under them. *)
Lemma filter_drop limit seen vote seen' :
  filter_vote ctx ch ms H round vs true limit seen vote = Ok (Drop, seen') -> vi_Flag vote <> BlockIDFlagCommit.
Proof.
  unfold filter_vote. cbn zeta. intros E. ok_step E. cbn [andb] in E.
  destruct (_ || _); [done|]. destruct (has_unknown_fields _); [done|].
  destruct (negb (isBlockIdFlagValid _)) eqn:Hf; [by intros Hc; rewrite Hc in Hf|].
  destruct (negb (is_commit vote)) eqn:Hc; [intros Hc'%is_commit_true; by rewrite Hc' in Hc|]. exfalso. clear Hf Hc.
  destruct (length _ =? 0)%nat; [done|]. destruct (unmarshal_ve _); [|done]. destruct (negb _); [done|].
  destruct (validateSideTxResponses _); [|done..]. destruct (ValidateMilestoneProposition _ _); [|done..].
  ok_step E. destruct (get_val _ _); [|done]. destruct (negb _); [done|]. ok_step E. ok_step E.
  destruct (negb _); [done|]. by destruct (negb _).
Qed.
Lemma filter_seen fixes limit seen vote r seen' :
  filter_vote ctx ch ms H round vs fixes limit seen vote = Ok (r, seen') ->
  seen ⊆ seen' /\ (r = Placeholder -> fixes = true).
Proof.
  unfold filter_vote. cbn zeta. intros E. ok_step E.
  assert (forall s, (Ok (if fixes then Placeholder else Drop, s) : outcome _) = Ok (r, seen') -> seen ⊆ s ->
    seen ⊆ seen' /\ (r = Placeholder -> fixes = true)) as Hinv.
  { intros s [= <- <-] Hs. split; [done|]. by destruct fixes. }
  destruct (fixes && _) eqn:Hf; [apply andb_true_iff in Hf as [-> _]; by injection E as <- <-|]. clear Hf.
  destruct (has_unknown_fields _); [by eapply Hinv|].
  destruct (negb (isBlockIdFlagValid _)); [by injection E as <- <-|].
  destruct (negb (is_commit vote)); [by injection E as <- <-|].
  destruct (length _ =? 0)%nat; [destruct fixes; [by eapply Hinv|done]|].
  destruct (unmarshal_ve _); [|by eapply Hinv]. destruct (negb _); [by eapply Hinv|].
  destruct (validateSideTxResponses _); [|by eapply Hinv|done].
  destruct (ValidateMilestoneProposition _ _); [|by eapply Hinv|done].
  ok_step E. destruct (get_val _ _); [|eapply Hinv; [exact E|set_solver]].
  destruct (negb (vi_Power vote =? _)); [eapply Hinv; [exact E|set_solver]|]. ok_step E. ok_step E.
  destruct (negb (VerifySignature a2 _ _)); [destruct fixes; [eapply Hinv; [exact E|set_solver]|done]|].
  destruct (fixes && _); [eapply Hinv; [exact E|set_solver]|]. injection E as <- <-. split; [set_solver|done].
Qed.

(** ** All votes *)

Context (Hempty : has_unknown_fields [] = false).

Lemma placeholder_accepted vote st : isBlockIdFlagValid (vi_Flag vote) = true ->
  validate_vote cfg ctx ch ms H round vs st (toFilteredPlaceholder vote) = Ok st.
Proof.
  intros Hf. unfold validate_vote. destruct st as [[sum seen] bh].
  destruct (isFilteredPlaceholder _) eqn:Hp; [done|]. cbn [toFilteredPlaceholder vi_VoteExtension vi_Flag].
  rewrite Hempty, Hf. cbn [negb fail_if]. destruct (is_commit (toFilteredPlaceholder vote)) eqn:Hc; [|done].
  unfold isFilteredPlaceholder in Hp. by rewrite Hc in Hp.
Qed.
Lemma placeholder_idem vote : toFilteredPlaceholder (toFilteredPlaceholder vote) = toFilteredPlaceholder vote.
Proof. done. Qed.
Lemma filter_hash_placeholder fixes key vote l : fixes = true ->
  filter_block_hash fixes key (toFilteredPlaceholder vote :: l) = toFilteredPlaceholder vote :: filter_block_hash fixes key l.
Proof.
  intros ->. cbn [filter_block_hash]. rewrite placeholder_idem.
  destruct (isFilteredPlaceholder _); [done|]. destruct (unmarshal_ve _); [|done]. by destruct (String.eqb _ _).
Qed.

Lemma validate_filtered fixes limit key votes : forall seen sums l sums' vseen bh,
  Forall (fun v => isBlockIdFlagValid (vi_Flag v) = true) votes ->
  filter_votes ctx ch ms H round vs fixes limit seen sums votes = Ok (l, sums') ->
  vseen ⊆ seen -> (forall h, bh = Some h -> Bytes2Hex h = key) ->
  exists st, validate_votes cfg ctx ch ms H round vs (map_get 0 sums key, vseen, bh) (filter_block_hash fixes key l)
    = Ok (map_get 0 sums' key, st.1, st.2).
Proof.
  induction votes as [|vote votes IH]; intros seen sums l sums' vseen bh HF E Hs Hbh; cbn [filter_votes] in E.
  { injection E as <- <-. by exists (vseen, bh). }
  apply Forall_cons in HF as [Hf HF]. ok_step E. destruct a as [r seen'].
  destruct (filter_seen _ _ _ _ _ _ Ha) as [Hsub Hfix]. assert (vseen ⊆ seen') as Hs' by set_solver.
  destruct r as [h power| |].
  - ok_step E. destruct a as [l' sums'']. injection E as <- <-.
    apply filter_keep in Ha as (a & ve & v & G & Hna & -> & -> & ->).
    cbn [filter_block_hash]. rewrite (good_not_placeholder _ _ _ _ G), (gv_decodes _ _ _ _ G).
    destruct (String.eqb_spec (Bytes2Hex (default [] (vx_BlockHash ve))) key) as [Ek|Ek].
    + cbn [validate_votes]. rewrite (validate_good _ _ _ _ _ _ _ G); [|set_solver|].
      2:{ intros h Hh. apply Hbh in Hh. rewrite <- Ek in Hh. by apply Bytes2Hex_inj in Hh. }
      cbn [mbind outcome_bind]. rewrite <- Ek in *. rewrite <- (map_get_insert_eq 0 sums (Bytes2Hex (default [] (vx_BlockHash ve)))
        (i64 (map_get 0 sums (Bytes2Hex (default [] (vx_BlockHash ve))) + VotingPower v))).
      eapply IH; [done|exact Ha0|set_solver|]. intros h. destruct bh as [h'|]; [by intros [= <-]; apply Hbh|].
      intros ->. done.
    + rewrite <- (map_get_insert_ne 0 sums _ key (i64 (map_get 0 sums (Bytes2Hex (default [] (vx_BlockHash ve))) + VotingPower v)) Ek).
      destruct fixes.
      * cbn [validate_votes]. rewrite placeholder_accepted by done. by eapply IH.
      * by eapply IH.
  - ok_step E. destruct a as [l' sums'']. injection E as <- <-. rewrite filter_hash_placeholder by auto.
    cbn [validate_votes]. rewrite placeholder_accepted by done. by eapply IH.
  - by eapply IH.
Qed.

(** The votes that stay for completeness: those dropped were not committed. *)
Inductive keeps_commits : list ExtendedVoteInfo -> list ExtendedVoteInfo -> Prop :=
| kc_nil : keeps_commits [] []
| kc_same v v' l l' : vi_Address v' = vi_Address v -> vi_Flag v' = vi_Flag v -> keeps_commits l l' ->
    keeps_commits (v :: l) (v' :: l')
| kc_drop v l l' : vi_Flag v <> BlockIDFlagCommit -> keeps_commits l l' -> keeps_commits (v :: l) l'.

Lemma filter_hash_same key l : Forall2 (fun v v' => vi_Address v' = vi_Address v /\ vi_Flag v' = vi_Flag v)
  l (filter_block_hash true key l).
Proof.
  induction l as [|v l IH]; cbn [filter_block_hash]; [constructor|].
  destruct (isFilteredPlaceholder v); [by constructor|]. destruct (unmarshal_ve _); [|by constructor].
  destruct (String.eqb _ _); by constructor.
Qed.
Lemma filter_keeps_commits limit key votes : forall seen sums l sums',
  filter_votes ctx ch ms H round vs true limit seen sums votes = Ok (l, sums') ->
  keeps_commits votes (filter_block_hash true key l).
Proof.
  assert (forall l k, keeps_commits l k -> forall k', Forall2 (fun v v' => vi_Address v' = vi_Address v /\ vi_Flag v' = vi_Flag v) k k' ->
    keeps_commits l k') as Htrans.
  { induction 1; intros k' HF2; [inversion HF2; constructor| |by constructor; auto].
    inversion HF2 as [|? ? ? ? [? ?]]; subst. constructor; [congruence..|auto]. }
  intros seen sums l sums' E. apply (Htrans _ l); [|apply filter_hash_same]. revert seen sums l sums' E.
  induction votes as [|vote votes IH]; intros seen sums l sums' E; cbn [filter_votes] in E.
  { injection E as <- <-. constructor. }
  ok_step E. destruct a as [r seen']. destruct r as [h power| |].
  - ok_step E. destruct a as [l' ?]. injection E as <- <-. constructor; [done..|by eapply IH].
  - ok_step E. destruct a as [l' ?]. injection E as <- <-. constructor; [done..|by eapply IH].
  - apply filter_drop in Ha. constructor; [done|by eapply IH].
Qed.
Lemma commits_stay votes votes' : keeps_commits votes votes' -> forall m m' : gmap bytes BlockIDFlag,
  (forall a, m !! a = Some BlockIDFlagCommit -> m' !! a = Some BlockIDFlagCommit) ->
  forall a, fold_left (fun m v => <[vi_Address v := vi_Flag v]> m) votes m !! a = Some BlockIDFlagCommit ->
    fold_left (fun m v => <[vi_Address v := vi_Flag v]> m) votes' m' !! a = Some BlockIDFlagCommit.
Proof.
  induction 1 as [|v v' l l' Ea Ef HK IH|v l l' Hn HK IH]; intros m m' Hm; cbn [fold_left]; [exact Hm| |].
  - apply IH. intros a. rewrite Ea, Ef. destruct (decide (vi_Address v = a)) as [<-|Hne].
    + by rewrite !lookup_insert_eq.
    + rewrite !lookup_insert_ne by done. apply Hm.
  - apply IH. intros a. destruct (decide (vi_Address v = a)) as [<-|Hne].
    + rewrite lookup_insert_eq. by intros [= ?].
    + rewrite lookup_insert_ne by done. apply Hm.
Qed.
Lemma completeness_stays votes votes' canonical : keeps_commits votes votes' ->
  ValidateVoteExtensionsCompleteness canonical votes = Ok tt -> ValidateVoteExtensionsCompleteness canonical votes' = Ok tt.
Proof.
  intros HK. unfold ValidateVoteExtensionsCompleteness, ext_commit_flags.
  pose proof (commits_stay _ _ HK ∅ ∅ (fun a h => h)) as Hc. revert Hc.
  generalize (fold_left (fun (m : gmap bytes BlockIDFlag) v => <[vi_Address v := vi_Flag v]> m) votes ∅).
  generalize (fold_left (fun (m : gmap bytes BlockIDFlag) v => <[vi_Address v := vi_Flag v]> m) votes' ∅).
  intros m' m Hc. induction canonical as [|v canonical IH]; cbn [check_commits]; [done|].
  destruct (negb _); [exact IH|]. intros E. ok_step E. apply of_option_ok in Ha. ok_step E. bool_hyps. subst a.
  rewrite (Hc _ Ha). cbn [of_option mbind outcome_bind]. rewrite bool_decide_true by done. by apply IH.
Qed.
End filter.

(** ** What the proposer includes *)

Section proposer.
Context {AC : AddressCodec} {VC : VoteCodec} {CL : ConsensusLayer} (cfg : Config).

Lemma validate_votes_total ctx ch ms H round vs t votes : forall st,
  validate_votes cfg ctx ch ms H round (with_total vs t) st votes = validate_votes cfg ctx ch ms H round vs st votes.
Proof.
  induction votes as [|v votes IH]; intros st; cbn [validate_votes]; [done|].
  change (validate_vote cfg ctx ch ms H round (with_total vs t) st v) with (validate_vote cfg ctx ch ms H round vs st v).
  destruct (validate_vote _ _ _ _ _ _ _ _ _); cbn [mbind outcome_bind]; auto.
Qed.

Lemma vote_majority_exact t : 0 <= t <= MaxTotalVotingPower -> vote_majority t = 2 * t / 3.
Proof.
  intros Ht. unfold vote_majority. pose proof MaxTotalVotingPower_eq.
  rewrite i64_id by (unfold in_i64, MinInt64, MaxInt64; lia). rewrite Z.quot_div_nonneg by lia. f_equal. lia.
Qed.

Lemma filtered_accepted order ctx ch ms H votes round vs maxTxBytes out :
  wf vs -> has_unknown_fields [] = false -> (forall m, order m ≡ₚ map_to_list m) ->
  Forall (fun v => isBlockIdFlagValid (vi_Flag v) = true) votes ->
  filterVoteExtensions cfg order ctx ch ms H votes round vs maxTxBytes = Ok out ->
  ValidateVoteExtensions cfg ctx ch ms H out round vs = Ok tt /\
  (IsPhuketHardfork cfg H = true -> forall canonical,
     ValidateVoteExtensionsCompleteness canonical votes = Ok tt -> ValidateVoteExtensionsCompleteness canonical out = Ok tt).
Proof.
  intros Hwf Hempty Ho HF E. unfold filterVoteExtensions in E. ok_step E. destruct a.
  unfold ValidateVoteExtensions. rewrite Ha. cbn [mbind outcome_bind]. destruct (H <=? VoteExtensionsEnableHeight ch).
  { ok_step E. injection E as <-. split; [done|]. intros _ canonical. bool_hyps.
    destruct votes; [done|]. match goal with Hl : (length _ =? 0)%nat = true |- _ => by apply Nat.eqb_eq in Hl end. }
  ok_step E. ok_step E. destruct a as [l sums].
  rewrite GetTotalVotingPower_wf in E by done. cbn [mbind outcome_bind] in E.
  rewrite GetTotalVotingPower_wf by done. cbn [mbind outcome_bind].
  assert (0 <= powers (Validators vs) <= MaxTotalVotingPower) as Ht
    by (split; [by apply powers_nonneg, wf_power_nonneg|by apply wf_sum]).
  rewrite vote_majority_exact in * by done.
  assert (0 <= 2 * powers (Validators vs) / 3) as Hmaj by (apply Z.div_pos; lia).
  destruct (List.find _ _) as [[key p]|] eqn:Ef.
  2:{ rewrite (proj2 (Z.leb_le _ _)) in E by done. discriminate E. }
  injection E as <-. apply find_some in Ef as [Hin Hp]. cbn in Hp. bool_hyps.
  apply list_elem_of_In in Hin. rewrite Ho, elem_of_map_to_list in Hin.
  split.
  - rewrite validate_votes_total.
    destruct (validate_filtered cfg ctx ch ms H round vs Hempty _ _ key votes ∅ ∅ l sums ∅ None HF Ha0) as [st Est];
      [done|done|]. unfold map_get in Est. rewrite Hin, lookup_empty in Est. rewrite Est. cbn [mbind outcome_bind].
    rewrite (proj2 (Z.leb_gt _ _)) by done. done.
  - intros HP canonical. rewrite HP in *. apply completeness_stays. by eapply filter_keeps_commits.
Qed.
End proposer.

(** * The tally of the votes

    The votes that pass the check can be tallied, and the tally is exact: sums of
    the power of distinct validators for each transaction and answer. *)
#[export] Instance response_eq_dec : EqDecision SideTxResponse.
Proof. solve_decision. Defined.

Record SideBallot := { sv_addr : string; sv_power : Z; sv_responses : list SideTxResponse }.

(** The power behind an answer for a transaction. *)
Definition answer (h : bytes) (r : Z) : SideTxResponse := {| TxHash := h; Result := r |}.
Definition power_voting (bs : list SideBallot) (h : bytes) (r : Z) : Z :=
  Zsum (map (fun b => if bool_decide (answer h r ∈ sv_responses b) then sv_power b else 0) bs).
Definition voted_on (bs : list SideBallot) (h : bytes) : Prop :=
  exists b res, b ∈ bs /\ res ∈ sv_responses b /\ TxHash res = h.

Lemma power_voting_cons b bs h r : power_voting (b :: bs) h r
  = (if bool_decide (answer h r ∈ sv_responses b) then sv_power b else 0) + power_voting bs h r.
Proof. done. Qed.
Lemma power_voting_app bs bs' h r : power_voting (bs ++ bs') h r = power_voting bs h r + power_voting bs' h r.
Proof. unfold power_voting. by rewrite map_app, Zsum_app. Qed.

(** ** One validator *)

Definition add_response (power : Z) (m : gmap string (gmap Z Z)) (res : SideTxResponse) : gmap string (gmap Z Z) :=
  let voteMap := map_get ∅ m (Bytes2Hex (TxHash res)) in
  <[Bytes2Hex (TxHash res) := <[Result res := i64 (map_get 0 voteMap (Result res) + power)]> voteMap]> m.
Definition add_ballot (m : gmap string (gmap Z Z)) (b : SideBallot) : gmap string (gmap Z Z) :=
  fold_left (add_response (sv_power b)) (sv_responses b) m.

(** The sum the map holds for a transaction and an answer. *)
Definition tx_sum (m : gmap string (gmap Z Z)) (h : bytes) (r : Z) : Z := map_get 0 (map_get ∅ m (Bytes2Hex h)) r.

Lemma validate_responses_ok l : forall seen, validate_responses seen l = Ok tt ->
  NoDup (map TxHash l) /\ Forall (fun res => TxHash res ∉ seen /\ isVoteValid (Result res) = true) l.
Proof.
  induction l as [|res l IH]; intros seen E; cbn [validate_responses] in E; [by split; constructor|].
  ok_step E. ok_step E. ok_step E. bool_hyps. destruct (IH _ E) as [ND HF]. cbn [map]. split.
  - constructor; [|done]. intros (x & Ex & Hx)%list_elem_of_fmap. rewrite Forall_forall in HF.
    destruct (HF x Hx) as [Hn _]. set_solver.
  - constructor; [done|]. eapply Forall_impl; [exact HF|]. cbn. intros x [? ?]. split; [set_solver|done].
Qed.
Lemma validateSideTxResponses_ok l : validateSideTxResponses l = Ok tt ->
  NoDup (map TxHash l) /\ Forall (fun res => isVoteValid (Result res) = true) l.
Proof.
  unfold validateSideTxResponses. intros E. ok_step E. apply validate_responses_ok in E as [ND HF].
  split; [done|]. eapply Forall_impl; [exact HF|]. by intros x [_ ?].
Qed.

Lemma add_responses_fold power l : forall voted m,
  NoDup (map TxHash l) -> Forall (fun res => isVoteValid (Result res) = true) l ->
  Forall (fun res => Bytes2Hex (TxHash res) ∉ voted) l ->
  add_responses power voted m l = Ok (fold_left (add_response power) l m).
Proof.
  induction l as [|res l IH]; intros voted m ND HF Hv; cbn [add_responses fold_left]; [done|].
  cbn [map] in ND. apply NoDup_cons in ND as [Hn ND]. apply Forall_cons in HF as [Hr HF]. apply Forall_cons in Hv as [H1 Hv].
  rewrite bool_decide_false by done. rewrite Hr. cbn [negb fail_if]. apply IH; [done..|].
  rewrite Forall_forall in Hv |- *. intros x Hx [E%elem_of_singleton|E]%elem_of_union; [|by apply (Hv x Hx)].
  apply Bytes2Hex_inj in E. apply Hn. rewrite <- E. by apply list_elem_of_fmap_2.
Qed.

Lemma tx_sum_add power m res h r : tx_sum (add_response power m res) h r
  = if bool_decide (res = answer h r) then i64 (tx_sum m h r + power) else tx_sum m h r.
Proof.
  unfold tx_sum, add_response. destruct res as [h' r']. cbn [TxHash Result].
  destruct (decide (h' = h)) as [->|Hh].
  - rewrite map_get_insert_eq. destruct (decide (r' = r)) as [->|Hr].
    + rewrite map_get_insert_eq. by rewrite bool_decide_true.
    + rewrite map_get_insert_ne by done. by rewrite bool_decide_false by (unfold answer; congruence).
  - rewrite map_get_insert_ne by (by intros E%Bytes2Hex_inj). by rewrite bool_decide_false by (unfold answer; congruence).
Qed.

Lemma tx_sum_ballot power l : forall m h r, NoDup (map TxHash l) ->
  0 < power -> (forall h r, 0 <= tx_sum m h r /\ tx_sum m h r + power <= MaxInt64) ->
  tx_sum (fold_left (add_response power) l m) h r
  = tx_sum m h r + (if bool_decide (answer h r ∈ l) then power else 0).
Proof.
  intros m h r ND Hp Hb.
  assert (forall h r, 0 <= tx_sum m h r /\ (h ∈ map TxHash l -> tx_sum m h r + power <= MaxInt64)) as Hb'.
  { intros h' r'. split; [apply Hb|intros _; apply Hb]. } clear Hb. revert m Hb'.
  induction l as [|res l IH]; intros m Hb; cbn [fold_left]; [rewrite bool_decide_false by apply not_elem_of_nil; lia|].
  cbn [map] in ND, Hb. apply NoDup_cons in ND as [Hn ND]. rewrite IH; [|done|].
  - rewrite tx_sum_add. destruct (decide (res = answer h r)) as [->|H1].
    + cbn [TxHash answer] in *. rewrite (bool_decide_true (answer h r = _)) by done.
      rewrite (bool_decide_true (answer h r ∈ _ :: _)) by left.
      rewrite bool_decide_false; [|intros Hin; apply Hn; by apply (list_elem_of_fmap_2 TxHash l (answer h r))].
      rewrite i64_id; [lia|]. destruct (Hb h r) as [H0 H2]. specialize (H2 ltac:(left)). unfold in_i64, MinInt64. lia.
    + rewrite (bool_decide_false (res = _)) by done.
      rewrite (bool_decide_ext (answer h r ∈ l) (answer h r ∈ res :: l)); [lia|].
      rewrite elem_of_cons. split; [auto|]. by intros [E|?].
  - intros h' r'. rewrite tx_sum_add. destruct (Hb h' r') as [H0 H2].
    destruct (decide (res = answer h' r')) as [->|H1].
    + rewrite (bool_decide_true (answer h' r' = _)) by done. specialize (H2 ltac:(left)).
      rewrite i64_id by (unfold in_i64, MinInt64; lia). split; [lia|done].
    + rewrite (bool_decide_false (res = _)) by done. split; [done|]. intros Hin. apply H2. by right.
Qed.

(** Which transactions the map knows. *)
Lemma keys_add_ballot m b k : is_Some (add_ballot m b !! k) <->
  is_Some (m !! k) \/ exists res, res ∈ sv_responses b /\ k = Bytes2Hex (TxHash res).
Proof.
  unfold add_ballot. revert m. induction (sv_responses b) as [|res l IH]; intros m; cbn [fold_left].
  { split; [auto|]. intros [?|(x & Hx & _)]; [done|by apply not_elem_of_nil in Hx]. }
  rewrite IH. unfold add_response at 1. rewrite lookup_insert_is_Some'. setoid_rewrite elem_of_cons. split.
  - intros [[<-|?]|(x & ? & ?)]; [right; exists res; auto|auto|right; exists x; auto].
  - intros [?|(x & [->|?] & ->)]; [auto|auto|right; eauto].
Qed.

(** ** All validators *)

Definition ballot_ok (b : SideBallot) : Prop :=
  NoDup (map TxHash (sv_responses b)) /\ Forall (fun res => isVoteValid (Result res) = true) (sv_responses b).

Lemma power_voting_bounds bs h r : Forall (fun b => 0 < sv_power b) bs ->
  0 <= power_voting bs h r <= Zsum (map sv_power bs).
Proof.
  induction 1 as [|b bs Hb HF IH]; [cbn; lia|]. rewrite power_voting_cons. cbn [map]. rewrite Zsum_cons.
  case_bool_decide; lia.
Qed.

(** A validator answers once: the answers share the power. *)
Lemma answers_share bs h : Forall ballot_ok bs -> Forall (fun b => 0 < sv_power b) bs ->
  power_voting bs h 1 + power_voting bs h 2 + power_voting bs h 0 <= Zsum (map sv_power bs).
Proof.
  induction 1 as [|b bs [ND _] HF IH]; intros HP; [cbn; lia|]. apply Forall_cons in HP as [Hp HP].
  rewrite !power_voting_cons. cbn [map]. rewrite Zsum_cons. specialize (IH HP).
  assert (forall r r', answer h r ∈ sv_responses b -> answer h r' ∈ sv_responses b -> r = r') as Hone.
  { intros r r' H1 H2. rewrite NoDup_alt in ND. apply list_elem_of_lookup in H1 as [i Hi], H2 as [j Hj].
    assert (i = j) as <-.
    { apply (ND i j h); change (map ?f ?l) with (f <$> l); rewrite list_lookup_fmap; [by rewrite Hi|by rewrite Hj]. }
    rewrite Hi in Hj. by injection Hj. }
  repeat case_bool_decide;
    repeat match goal with H1 : answer h ?r ∈ _, H2 : answer h ?r' ∈ _ |- _ =>
      assert_fails (constr_eq r r'); pose proof (Hone _ _ H1 H2) as E; discriminate E end; lia.
Qed.

Record tally_ok (m : gmap string (gmap Z Z)) (bs : list SideBallot) : Prop := {
  ta_sum h r : tx_sum m h r = power_voting bs h r;
  ta_keys k : is_Some (m !! k) <-> exists h, k = Bytes2Hex h /\ voted_on bs h;
}.
Lemma tally_ok_nil : tally_ok ∅ [].
Proof.
  split.
  - intros h r. unfold tx_sum, map_get. by rewrite !lookup_empty.
  - intros k. rewrite lookup_empty. split; [by intros []|]. intros (h & _ & b & res & Hb & _). by apply not_elem_of_nil in Hb.
Qed.
Lemma tally_ok_ballots bs : forall m seen, tally_ok m seen -> Forall ballot_ok bs ->
  Forall (fun b => 0 < sv_power b) (seen ++ bs) -> Zsum (map sv_power (seen ++ bs)) <= MaxInt64 ->
  tally_ok (fold_left add_ballot bs m) (seen ++ bs).
Proof.
  induction bs as [|b bs IH]; intros m seen Hm HF HP Hmax; cbn [fold_left]; [by rewrite app_nil_r|].
  apply Forall_cons in HF as [[ND _] HF]. replace (seen ++ b :: bs) with ((seen ++ [b]) ++ bs) in * by (by rewrite <- app_assoc).
  apply IH; [|done..]. pose proof HP as [HP1 HP2]%Forall_app. pose proof HP1 as [HPs HPb]%Forall_app. apply Forall_inv in HPb.
  rewrite map_app, Zsum_app in Hmax. assert (0 <= Zsum (map sv_power bs)) as H0.
  { apply Zsum_nonneg, Forall_map. eapply Forall_impl; [exact HP2|]. cbn. lia. }
  rewrite map_app, Zsum_app in Hmax. cbn [map Zsum foldr] in Hmax. split.
  - intros h r. unfold add_ballot. rewrite tx_sum_ballot; [|done..|].
    + rewrite (ta_sum _ _ Hm), power_voting_app, power_voting_cons. cbn. lia.
    + intros h' r'. rewrite (ta_sum _ _ Hm). pose proof (power_voting_bounds seen h' r' HPs). lia.
  - intros k. rewrite keys_add_ballot, (ta_keys _ _ Hm). unfold voted_on. setoid_rewrite elem_of_app.
    setoid_rewrite list_elem_of_singleton. split.
    + intros [(h & -> & b' & res & ? & ? & ?)|(res & ? & ->)]; [exists h; split; [done|]; exists b', res; auto|].
      exists (TxHash res). split; [done|]. exists b, res. auto.
    + intros (h & -> & b' & res & [?| ->] & ? & <-); [left; exists (TxHash res); split; [done|]; exists b', res; auto|].
      right. eauto.
Qed.

(** ** From checked votes to the tally *)

Section tally.
Context {AC : AddressCodec} {VC : VoteCodec} {CL : ConsensusLayer} (cfg : Config).

(** The vote of a validator of the set, if it counts. *)
Definition side_ballot (vs : ValidatorSet) (vote : ExtendedVoteInfo) : option SideBallot :=
  if isFilteredPlaceholder vote || negb (is_commit vote) then None
  else
    match BytesToString (vi_Address vote), unmarshal_ve (vi_VoteExtension vote) with
    | Ok a, Some ve =>
        match get_val vs a with
        | Some v => Some {| sv_addr := a; sv_power := VotingPower v; sv_responses := SideTxResponses ve |}
        | None => None
        end
    | _, _ => None
    end.
Definition side_ballots (vs : ValidatorSet) (votes : list ExtendedVoteInfo) : list SideBallot :=
  omap (side_ballot vs) votes.

Lemma aggregate_validated ctx ch ms H round vs votes : forall sum seen bh st' m counted,
  formatted_codec ->
  validate_votes cfg ctx ch ms H round vs (sum, seen, bh) votes = Ok st' -> counted ⊆ seen ->
  exists counted' bh', aggregate_votes vs H (m, counted, bh) votes
    = Ok (fold_left add_ballot (side_ballots vs votes) m, counted', bh') /\
    NoDup (map sv_addr (side_ballots vs votes)) /\
    Forall (fun b => ballot_ok b /\ sv_addr b ∉ seen /\ FormatAddress (sv_addr b) = sv_addr b /\
      exists v, get_val vs (sv_addr b) = Some v /\ sv_power b = VotingPower v) (side_ballots vs votes).
Proof.
  induction votes as [|vote votes IH]; intros sum seen bh st' m counted HC E Hc; cbn [validate_votes aggregate_votes] in *.
  { exists counted, bh. split_and!; [done|constructor|constructor]. }
  ok_step E. unfold validate_vote in Ha. unfold aggregate_vote, side_ballots. cbn [omap list_omap]. fold (side_ballots vs votes).
  unfold side_ballot at 1 2 3. destruct (isFilteredPlaceholder vote).
  { injection Ha as <-. cbn [orb mbind outcome_bind]. by eapply IH. }
  ok_step Ha. ok_step Ha. rewrite Hg0. cbn [fail_if orb]. destruct (negb (is_commit vote)).
  { injection Ha as <-. cbn [mbind outcome_bind]. by eapply IH. }
  ok_step Ha. rename a0 into addr. ok_step Ha. ok_step Ha. rename a0 into ve. apply of_option_ok in Ha1. rewrite Ha0, Ha1.
  cbn [of_option mbind outcome_bind]. ok_step Ha. rewrite Hg2. cbn [fail_if]. ok_step Ha. rename a0 into bh1.
  rewrite Ha2. cbn [mbind outcome_bind]. ok_step Ha. destruct a0. ok_step Ha. ok_step Ha. bool_hyps.
  destruct (get_val vs addr) as [v|] eqn:Ev.
  - ok_step Ha. ok_step Ha. ok_step Ha. ok_step Ha. injection Ha as <-.
    apply validateSideTxResponses_ok in Ha3 as [ND HV].
    destruct (IH _ _ _ _ (add_ballot m {| sv_addr := addr; sv_power := VotingPower v; sv_responses := SideTxResponses ve |})
      ({[addr]} ∪ counted) HC E) as (counted' & bh' & EA & ND' & HF'); [set_solver|].
    exists counted', bh'. split_and!.
    + rewrite bool_decide_false by set_solver. cbn [fail_if].
      rewrite add_responses_fold; [|done..|by apply Forall_forall; intros; apply not_elem_of_empty].
      cbn [mbind outcome_bind fold_left]. exact EA.
    + cbn [map]. constructor; [|done]. intros (b & Eb & Hb)%list_elem_of_fmap. rewrite Forall_forall in HF'.
      destruct (HF' b Hb) as (_ & Hn & _). cbn in Eb. rewrite Eb in Hn. set_solver.
    + constructor; [split_and!; [done|done|by eapply HC|by exists v]|].
      eapply Forall_impl; [exact HF'|]. cbn. intros b (? & ? & ?). split_and!; [done|set_solver|tauto..].
  - ok_step Ha. injection Ha as <-. destruct (IH _ _ _ _ m counted HC E) as (counted' & bh' & EA & ND' & HF'); [set_solver|].
    exists counted', bh'. split_and!; [exact EA|done|].
    eapply Forall_impl; [exact HF'|]. cbn. intros b (? & ? & ?). split_and!; [done|set_solver|tauto..].
Qed.

(** The lists of the tally, when no check fails. *)
Lemma tally_txs_spec H total (m : gmap string (gmap Z Z)) hashes :
  Forall (fun h => i64 (i64 (map_get 0 (map_get ∅ m h) 1 + map_get 0 (map_get ∅ m h) 2) + map_get 0 (map_get ∅ m h) 0) <= total) hashes ->
  exists a r s, tally_txs cfg H total m hashes = Ok (a, r, s) /\
    let yes h := vote_majority total <? map_get 0 (map_get ∅ m h) 1 in
    let no h := vote_majority total <? map_get 0 (map_get ∅ m h) 2 in
    a = map FromHex (List.filter yes hashes) /\
    r = map FromHex (List.filter (fun h => negb (yes h) && no h) hashes) /\
    s = map FromHex (List.filter (fun h => negb (yes h) && negb (no h)) hashes).
Proof.
  induction 1 as [|h hashes Hh HF (a & r & s & E & -> & -> & ->)]; cbn [tally_txs]; [by exists [], [], []|].
  rewrite (proj2 (Z.ltb_ge _ _)) by done. rewrite andb_false_r. cbn [fail_if]. rewrite E. cbn [mbind outcome_bind List.filter].
  destruct (vote_majority total <? map_get 0 (map_get ∅ m h) 1); cbn [negb andb]; [by eexists _, _, _|].
  destruct (vote_majority total <? map_get 0 (map_get ∅ m h) 2); cbn [negb andb]; by eexists _, _, _.
Qed.

Lemma elem_filter_hex (f : string -> bool) hashes h (bs : list SideBallot) :
  (forall k, k ∈ hashes <-> exists h, k = Bytes2Hex h /\ voted_on bs h) ->
  h ∈ map FromHex (List.filter f hashes) <-> voted_on bs h /\ f (Bytes2Hex h) = true.
Proof.
  intros Hk. change (map ?g ?l) with (g <$> l). rewrite list_elem_of_fmap. split.
  - intros (k & -> & [Hin Hf]%list_elem_of_In%filter_In). apply list_elem_of_In, Hk in Hin as (h' & -> & Hv).
    by rewrite FromHex_Bytes2Hex.
  - intros [Hv Hf]. exists (Bytes2Hex h). rewrite FromHex_Bytes2Hex. split; [done|].
    apply list_elem_of_In, filter_In. split; [|done]. apply list_elem_of_In, Hk. eauto.
Qed.

Lemma power_voting_voted bs h r : 0 < power_voting bs h r -> voted_on bs h.
Proof.
  induction bs as [|b bs IH]; [done|]. rewrite power_voting_cons. case_bool_decide as Hb.
  - intros _. exists b, (answer h r). split_and!; [left|done|done].
  - intros Hp. destruct IH as (b' & res & ? & ? & ?); [lia|]. exists b', res. split_and!; [by right|done|done].
Qed.

(** The aggregation of checked votes succeeds and is exact. *)
Lemma validated_aggregate ctx ch ms H votes round vs :
  formatted_codec -> wf vs -> VoteExtensionsEnableHeight ch < H ->
  ValidateVoteExtensions cfg ctx ch ms H votes round vs = Ok tt ->
  exists m, aggregateVotes votes (with_total vs (powers (Validators vs))) H = Ok m /\
    let bs := side_ballots vs votes in
    tally_ok m bs /\ NoDup (map sv_addr bs) /\ Forall ballot_ok bs /\ Forall (fun b => 0 < sv_power b) bs /\
    Zsum (map sv_power bs) <= powers (Validators vs).
Proof.
  intros HC Hwf Hen E. unfold ValidateVoteExtensions in E. ok_step E. clear Ha a.
  rewrite (proj2 (Z.leb_gt _ _)) in E by done. rewrite GetTotalVotingPower_wf in E by done.
  cbn [mbind outcome_bind] in E. rewrite validate_votes_total in E. ok_step E. destruct a as [[sum seen] bh]. clear E.
  destruct (aggregate_validated _ _ _ _ _ _ _ _ _ _ _ ∅ ∅ HC Ha (empty_subseteq ∅)) as (cnt & bh' & EA & ND & HF).
  destruct (counted_power sv_addr sv_power vs (side_ballots vs votes) Hwf ND) as [Hle Hpos].
  { eapply Forall_impl; [exact HF|]. cbn. intros b (_ & _ & ? & ?). done. }
  assert (Forall ballot_ok (side_ballots vs votes)) as Hok by (eapply Forall_impl; [exact HF|]; cbn; tauto).
  pose proof (wf_sum _ Hwf). pose proof MaxTotalVotingPower_eq.
  exists (fold_left add_ballot (side_ballots vs votes) ∅). split.
  - unfold aggregateVotes.
    assert (aggregate_votes (with_total vs (powers (Validators vs))) H (∅, ∅, None) votes
      = aggregate_votes vs H (∅, ∅, None) votes) as ->; [|by rewrite EA].
    generalize ((∅, ∅, None) : AggState). clear. induction votes as [|v votes IH]; intros st; cbn [aggregate_votes]; [done|].
    change (aggregate_vote (with_total vs (powers (Validators vs))) H st v) with (aggregate_vote vs H st v).
    destruct (aggregate_vote vs H st v); cbn [mbind outcome_bind]; auto.
  - split_and!; try done. by apply (tally_ok_ballots _ ∅ [] tally_ok_nil); [..|cbn [app]; unfold MaxInt64; lia].
Qed.

(** What the sorted keys are. *)
Lemma tally_keys m bs k : tally_ok m bs ->
  k ∈ sort_by id (map fst (map_to_list m)) <-> exists h, k = Bytes2Hex h /\ voted_on bs h.
Proof.
  intros HT. rewrite <- (ta_keys _ _ HT), (sort_by_perm id). change (map ?f ?l) with (f <$> l).
  rewrite list_elem_of_fmap. split.
  - intros ([k' x] & -> & Hin). apply elem_of_map_to_list in Hin. exists x. exact Hin.
  - intros [x Hx]. exists (k, x). by rewrite elem_of_map_to_list.
Qed.

Lemma two_thirds t x : 0 <= t ->
  (2 * t / 3 < x <-> 2 * t < 3 * x) /\ (x <= 2 * t / 3 <-> 3 * x <= 2 * t).
Proof. intros Ht. pose proof (Z.div_mod (2 * t) 3). pose proof (Z.mod_pos_bound (2 * t) 3). lia. Qed.

Lemma validated_tally ctx ch ms H votes round vs :
  formatted_codec -> wf vs -> VoteExtensionsEnableHeight ch < H ->
  ValidateVoteExtensions cfg ctx ch ms H votes round vs = Ok tt ->
  exists a r s, tallyVotes cfg votes vs H = Ok (a, r, s) /\
    let bs := side_ballots vs votes in
    NoDup (map sv_addr bs) /\ Zsum (map sv_power bs) <= powers (Validators vs) /\
    forall h, (h ∈ a <-> 2 * powers (Validators vs) < 3 * power_voting bs h 1) /\
              (h ∈ r <-> 2 * powers (Validators vs) < 3 * power_voting bs h 2) /\
              (h ∈ s <-> voted_on bs h /\ h ∉ a /\ h ∉ r).
Proof.
  intros HC Hwf Hen E. destruct (validated_aggregate _ _ _ _ _ _ _ HC Hwf Hen E) as (m & EA & HT & ND & Hok & Hpos & Hle).
  set (bs := side_ballots vs votes) in *.
  assert (0 <= powers (Validators vs) <= MaxTotalVotingPower) as Ht
    by (split; [by apply powers_nonneg, wf_power_nonneg|by apply wf_sum]). pose proof MaxTotalVotingPower_eq as HM.
  unfold tallyVotes. rewrite GetTotalVotingPower_wf by done. cbn [mbind outcome_bind]. rewrite EA. cbn [mbind outcome_bind].
  assert (forall h r, map_get 0 (map_get ∅ m (Bytes2Hex h)) r = power_voting bs h r) as Hsum by apply HT.
  assert (forall h r, 0 <= power_voting bs h r <= powers (Validators vs)) as Hb.
  { intros h r. pose proof (power_voting_bounds bs h r Hpos). lia. }
  set (keys := sort_by id (map fst (map_to_list m))). pose proof (fun k => tally_keys m bs k HT) as Hkeys.
  destruct (tally_txs_spec H (powers (Validators vs)) m keys) as (a & r & s & Et & -> & -> & ->).
  { apply Forall_forall. intros k (h & -> & _)%Hkeys. rewrite !Hsum. pose proof (answers_share bs h Hok Hpos).
    pose proof (Hb h 1). pose proof (Hb h 2). pose proof (Hb h 0).
    rewrite (i64_id (power_voting bs h 1 + _)), i64_id by (unfold in_i64, MinInt64, MaxInt64; lia). lia. }
  eexists _, _, _. split; [exact Et|]. cbn zeta. split; [done|]. split; [done|].
  intros h. rewrite !(elem_filter_hex _ keys h bs) by done. rewrite !Hsum, vote_majority_exact by lia.
  pose proof (answers_share bs h Hok Hpos) as Hs. pose proof (Hb h 1). pose proof (Hb h 2). pose proof (Hb h 0).
  rewrite !andb_true_iff, !negb_true_iff, !Z.ltb_lt, !Z.ltb_ge.
  rewrite !(fun x => proj1 (two_thirds (powers (Validators vs)) x (proj1 Ht))).
  rewrite !(fun x => proj2 (two_thirds (powers (Validators vs)) x (proj1 Ht))). split_and!.
  - split; [tauto|]. intros Hp. split; [|done]. apply (power_voting_voted bs h 1). lia.
  - split; [tauto|]. intros Hp. split; [|split; lia]. apply (power_voting_voted bs h 2). lia.
  - split; [intros (? & ? & ?); split_and!; [done|intros [_ ?]; lia|intros (_ & ? & ?); lia]|].
    intros (Hv & Hy & Hn). split; [done|].
    assert (3 * power_voting bs h 1 <= 2 * powers (Validators vs)) by (apply Z.nlt_ge; tauto). split; [done|].
    apply Z.nlt_ge. intros Hc. apply Hn. split_and!; [done|lia|done].
Qed.
End tally.

(** * What the tally guarantees

    What a proposer filters is accepted by the other validators; what passes the
    check is tallied exactly. *)
(** The votes the proposer keeps pass the validation of the other validators,
    whatever the order in which the runtime visits the sums; from Phuket on they
    stay complete with respect to the commit. *)
Theorem filtered_votes_accepted {AC : AddressCodec} {VC : VoteCodec} {CL : ConsensusLayer} (cfg : Config)
    (order : gmap string Z -> list (string * Z)) (ctx : Ctx) (ch : ChainInfo) (ms : MilestoneState) H votes round
    (vs : ValidatorSet) maxTxBytes out :
  wf vs -> has_unknown_fields [] = false -> (forall m, order m ≡ₚ map_to_list m) ->
  Forall (fun v => isBlockIdFlagValid (vi_Flag v) = true) votes ->
  filterVoteExtensions cfg order ctx ch ms H votes round vs maxTxBytes = Ok out ->
  ValidateVoteExtensions cfg ctx ch ms H out round vs = Ok tt /\
  (IsPhuketHardfork cfg H = true -> forall canonical,
     ValidateVoteExtensionsCompleteness canonical votes = Ok tt -> ValidateVoteExtensionsCompleteness canonical out = Ok tt).
Proof. apply filtered_accepted. Qed.

(** Votes that passed the validation are tallied: no check of the tally fails,
    each validator of the set counts once with its power, and a side transaction
    is approved (rejected) exactly when the power voting yes (no) is more than two
    thirds of the total; the others that were voted on are skipped. *)
Theorem validated_votes_are_tallied {AC : AddressCodec} {VC : VoteCodec} {CL : ConsensusLayer} (cfg : Config)
    (ctx : Ctx) (ch : ChainInfo) (ms : MilestoneState) H votes round (vs : ValidatorSet) :
  formatted_codec -> wf vs -> VoteExtensionsEnableHeight ch < H ->
  ValidateVoteExtensions cfg ctx ch ms H votes round vs = Ok tt ->
  exists a r s, tallyVotes cfg votes vs H = Ok (a, r, s) /\
    let bs := side_ballots vs votes in
    NoDup (map sv_addr bs) /\ Zsum (map sv_power bs) <= powers (Validators vs) /\
    forall h, (h ∈ a <-> 2 * powers (Validators vs) < 3 * power_voting bs h 1) /\
              (h ∈ r <-> 2 * powers (Validators vs) < 3 * power_voting bs h 2) /\
              (h ∈ s <-> voted_on bs h /\ h ∉ a /\ h ∉ r).
Proof. apply validated_tally. Qed.

(** ** Witnesses: three validators, one of which signs wrongly *)

Module VoteDemo.
Definition member (i : Z) (a : string) (power : Z) : Validator := NewValidator i 0 0 0 power [] a.
Definition demo_set : ValidatorSet :=
  {| Validators := [member 1 "0xaa" 10; member 2 "0xbb" 20; member 3 "0xcc" 30];
     Proposer := None; TotalVotingPower := 60 |}.
#[export] Instance demo_codec : AddressCodec := {|
  PubKeyAddress _ := None; AddressString _ := ""; StringToBytes s := Ok (list_byte_of_string s);
  BytesToString bs := if decide (bs = [Byte.xaa]) then Ok "0xaa" else if decide (bs = [Byte.xbb]) then Ok "0xbb"
                      else if decide (bs = [Byte.xcc]) then Ok "0xcc" else Err (ErrText "address") |}.
Definition demo_tx : bytes := repeat Byte.x07 32.
Definition raw_ve : bytes := repeat Byte.x01 10.
Definition demo_extension : VoteExtension :=
  {| vx_BlockHash := Some [Byte.x05]; vx_Height := 99; SideTxResponses := [{| TxHash := demo_tx; Result := 1 |}];
     vx_MilestoneProposition := None |}.
#[export] Instance demo_ve : VoteCodec := {|
  unmarshal_ve bs := if decide (bs = raw_ve) then Some demo_extension else None;
  has_unknown_fields _ := false |}.
#[export] Instance demo_consensus : ConsensusLayer := {|
  ConsensusKey := unit; getValidatorPublicKey _ := Some tt;
  VerifySignature _ _ sig := bool_decide (sig = [Byte.x01]);
  ext_sign_bytes b _ _ _ := Some b |}.
Definition vote (a sig : Byte.byte) (power : Z) : ExtendedVoteInfo :=
  {| vi_Address := [a]; vi_Power := power; vi_Flag := BlockIDFlagCommit; vi_VoteExtension := raw_ve;
     vi_ExtensionSignature := [sig]; vi_NonRpVoteExtension := dummyNonRpVoteExtension;
     vi_NonRpExtensionSignature := [Byte.x01] |}.
Definition demo_votes : list ExtendedVoteInfo :=
  [vote Byte.xaa Byte.x02 10; vote Byte.xbb Byte.x01 20; vote Byte.xcc Byte.x01 30].
Definition kept_votes : list ExtendedVoteInfo :=
  [toFilteredPlaceholder (vote Byte.xaa Byte.x02 10); vote Byte.xbb Byte.x01 20; vote Byte.xcc Byte.x01 30].
Definition demo_config : Config :=
  {| rioHeight := 1000; tallyFixHeight := 0; disableVPCheckHeight := 0; disableValSetCheckHeight := 0;
     initialHeight := 1; producerDowntimeHeight := 1; phuketHardforkHeight := 1;
     feeWithdrawValidatorGateHeight := 1; zurichHardforkHeight := 1; ithacaHeight := 1;
     fallbackProducerVotes := [] |}.
Definition demo_ctx : Ctx := {| BlockHeight := 100; BlockTime := 5000 |}.
Definition demo_chain : ChainInfo := {| ChainID := "heimdall"; VoteExtensionsEnableHeight := 1 |}.
Definition demo_milestones : MilestoneState :=
  {| milestone := ∅; milestone_params := None; milestone_count := None;
     lastMilestoneBlock := None; lastPendingBorBlock := None; lastPendingBorBlockId := None;
     lastPendingBorBlockHeight := None |}.
Definition demo_commit : list VoteInfo :=
  map (fun v => {| ci_Address := vi_Address v; ci_Flag := BlockIDFlagCommit |}) demo_votes.

Lemma vote_formatted : formatted_codec.
Proof.
  intros bs a. unfold BytesToString, demo_codec. intros H.
  case_decide; [by injection H as <-|]. case_decide; [by injection H as <-|].
  case_decide; [by injection H as <-|discriminate H].
Qed.
Lemma vote_set_wf : wf demo_set.
Proof. apply wf_check_sound. reflexivity. Qed.

Lemma filtered_votes_accepted_witness :
  filterVoteExtensions demo_config map_to_list demo_ctx demo_chain demo_milestones 100 demo_votes 0 demo_set 1000000
    = Ok kept_votes /\
  ValidateVoteExtensions demo_config demo_ctx demo_chain demo_milestones 100 kept_votes 0 demo_set = Ok tt /\
  ValidateVoteExtensionsCompleteness demo_commit kept_votes = Ok tt.
Proof.
  assert (filterVoteExtensions demo_config map_to_list demo_ctx demo_chain demo_milestones 100 demo_votes 0 demo_set 1000000
    = Ok kept_votes) as E by (vm_compute; reflexivity).
  split; [exact E|].
  destruct (filtered_votes_accepted demo_config map_to_list demo_ctx demo_chain demo_milestones 100 demo_votes 0
    demo_set 1000000 kept_votes) as [H1 H2].
  - exact vote_set_wf.
  - reflexivity.
  - intros m. reflexivity.
  - repeat constructor.
  - exact E.
  - split; [exact H1|]. apply H2; [reflexivity|]. vm_compute. reflexivity.
Defined.

Lemma validated_votes_are_tallied_witness : exists a r s,
  tallyVotes demo_config kept_votes demo_set 100 = Ok (a, r, s) /\ demo_tx ∈ a.
Proof.
  destruct (validated_votes_are_tallied demo_config demo_ctx demo_chain demo_milestones 100 kept_votes 0 demo_set
    vote_formatted vote_set_wf) as (a & r & s & E & _ & _ & H); [reflexivity|vm_compute; reflexivity|].
  exists a, r, s. split; [exact E|]. apply (H demo_tx). vm_compute. reflexivity.
Defined.
End VoteDemo.
