(* ===== verification/Numerals.v ===== *)
(** * Numbers as text and as words

    Decimal text ([math/big], [strconv]), big-endian words of 32 bytes
    ([types/dividend_account.go]), and float64 (package math) through the
    specification of binary64. *)
From Stdlib Require Import DecimalString DecimalZ DecimalN DecimalFacts SpecFloat.
From S2P Require Import Prelude SortedList Helpers External VoteTypes.
#[local] Open Scope Z_scope.

(** ** Decimal text *)

(** [big.Int.String] and [big.Int.SetString] in base 10: an optional sign and at
    least one digit. *)
Definition BigString (z : Z) : string := NilZero.string_of_int (Z.to_int z).
Definition ParseBig (s : string) : option Z :=
  match s with
  | String "+" s' => option_map (fun d => Z.of_N (N.of_uint d)) (NilZero.uint_of_string s')
  | _ => option_map Z.of_int (NilZero.int_of_string s)
  end.
(** [strconv.FormatUint]; [strconv.ParseUint] answers the value and whether it
    parsed: 0 for what is not digits, the maximum when out of range. *)
Definition FormatUint (n : Z) : string := NilZero.string_of_uint (N.to_uint (Z.to_N n)).
Definition ParseUint (s : string) : Z * bool :=
  match NilZero.uint_of_string s with
  | Some d => let n := Z.of_N (N.of_uint d) in if MaxUint64 <? n then (MaxUint64, false) else (n, true)
  | None => (0, false)
  end.

Lemma to_uint_nonnil n : N.to_uint n <> Decimal.Nil.
Proof.
  intros E. pose proof (Unsigned.to_of (N.to_uint n)) as H. rewrite Unsigned.of_to, E in H. discriminate H.
Qed.
Lemma ParseBig_BigString z : ParseBig (BigString z) = Some z.
Proof.
  assert (Z.to_int z <> Decimal.Pos Decimal.Nil /\ Z.to_int z <> Decimal.Neg Decimal.Nil) as [H1 H2].
  { pose proof (DecimalZ.of_to z) as E. pose proof (DecimalZ.to_of (Z.to_int z)) as H. rewrite E in H.
    split; intros E'; rewrite E' in H; discriminate H. }
  pose proof (NilZero.isi _ H1 H2) as E. fold (BigString z) in E.
  assert (forall s', BigString z <> String "+" s') as Hp.
  { intros s' Es. rewrite Es in E. cbn in E. by destruct (NilEmpty.uint_of_string s'). }
  unfold ParseBig. transitivity (Some (Z.of_int (Z.to_int z))); [|by rewrite DecimalZ.of_to].
  assert (option_map Z.of_int (NilZero.int_of_string (BigString z)) = Some (Z.of_int (Z.to_int z))) as Eo by by rewrite E.
  rewrite <- Eo. destruct (BigString z) as [|a s']; [done|]. specialize (Hp s').
  destruct (decide (a = "+"%char)) as [->|Hne]; [by destruct Hp|].
  clear -Hne. destruct a as [[] [] [] [] [] [] [] []]; try done.
Qed.
Lemma ParseUint_FormatUint n : in_u64 n -> ParseUint (FormatUint n) = (n, true).
Proof.
  unfold in_u64, ParseUint, FormatUint. intros Hn.
  rewrite NilZero.usu by apply to_uint_nonnil. rewrite Unsigned.of_to, Z2N.id by lia.
  by rewrite (proj2 (Z.ltb_ge _ _)) by lia.
Qed.

(** ** Big-endian words *)

(** [big.Int.Bytes]: no leading zeros; [big.Int.SetBytes]. *)
Definition be_value (b : bytes) : Z := le_decode (rev b).
Fixpoint strip_zeros (b : bytes) : bytes :=
  match b with
  | Byte.x00 :: b' => strip_zeros b'
  | _ => b
  end.
Definition be_word (n : nat) (z : Z) : bytes := rev (le_encode n z).
Definition byte_count (z : Z) : nat := Z.to_nat (Z.log2 (Z.abs z) / 8 + 1).
Definition BigBytes (z : Z) : bytes := strip_zeros (be_word (byte_count z) (Z.abs z)).

(** [convertTo32]: left-padded with zeros; longer than 32 bytes is an error. *)
Definition convertTo32 (input : bytes) : option bytes :=
  if (32 <? length input)%nat then None else Some (repeat Byte.x00 (32 - length input) ++ input).
(** [AppendBytes32]: what is too long is left out. *)
Definition AppendBytes32 (data : list bytes) : bytes :=
  flat_map (fun v => match convertTo32 v with Some p => p | None => [] end) data.

Lemma convertTo32_full b : length b = 32%nat -> convertTo32 b = Some b.
Proof. intros E. unfold convertTo32. rewrite E. done. Qed.
Lemma length_convertTo32 b p : convertTo32 b = Some p -> length p = 32%nat.
Proof.
  unfold convertTo32. destruct (Nat.ltb_spec 32 (length b)) as [|Hl]; [done|]. intros [= <-].
  rewrite length_app, repeat_length. lia.
Qed.

Lemma length_be_word n z : length (be_word n z) = n.
Proof. unfold be_word. by rewrite length_rev, length_le_encode. Qed.
Lemma be_value_word n z : 0 <= z < 256 ^ Z.of_nat n -> be_value (be_word n z) = z.
Proof. intros Hz. unfold be_value, be_word. rewrite rev_involutive. by apply le_decode_encode. Qed.

Lemma le_decode_zeros b k : le_decode (b ++ repeat Byte.x00 k) = le_decode b.
Proof.
  induction b as [|x b IH]; cbn [app le_decode]; [|by rewrite IH].
  induction k as [|k IHk]; cbn [repeat le_decode]; [done|]. rewrite IHk. done.
Qed.
Lemma rev_repeat {A} (x : A) k : rev (repeat x k) = repeat x k.
Proof.
  induction k as [|k IH]; cbn [repeat rev]; [done|]. rewrite IH. by rewrite <- repeat_cons.
Qed.
Lemma be_value_pad k b : be_value (repeat Byte.x00 k ++ b) = be_value b.
Proof. unfold be_value. by rewrite rev_app_distr, rev_repeat, le_decode_zeros. Qed.
Lemma strip_zeros_pad b : exists k, b = repeat Byte.x00 k ++ strip_zeros b.
Proof.
  induction b as [|x b [k IH]]; [by exists 0%nat|].
  destruct (Byte.byte_eq_dec x Byte.x00) as [->|Hne]; cbn [strip_zeros].
  - exists (S k). cbn. by rewrite <- IH.
  - exists 0%nat. by destruct x.
Qed.
Lemma le_encode_zero k : le_encode k 0 = repeat Byte.x00 k.
Proof. induction k as [|k IH]; [done|]. cbn [le_encode repeat]. by rewrite Z.div_0_l, IH. Qed.
Lemma le_encode_pad n k z : 0 <= z < 256 ^ Z.of_nat n -> le_encode (n + k) z = le_encode n z ++ repeat Byte.x00 k.
Proof.
  revert z. induction n as [|n IH]; intros z Hz; cbn [plus le_encode app].
  - replace z with 0 by (cbn in Hz; lia). apply le_encode_zero.
  - rewrite IH; [done|]. rewrite Nat2Z.inj_succ, Z.pow_succ_r in Hz by lia.
    split; [apply Z.div_pos; lia|apply Z.div_lt_upper_bound; lia].
Qed.
Lemma byte_count_spec z : 0 <= z -> z < 256 ^ Z.of_nat (byte_count z).
Proof.
  intros Hz. unfold byte_count. rewrite Z.abs_eq by done. destruct (Z.eq_dec z 0) as [->|Hne]; [done|].
  pose proof (Z.log2_nonneg z). pose proof (Z.div_pos (Z.log2 z) 8 ltac:(lia) ltac:(lia)).
  rewrite Z2Nat.id by lia. change 256 with (2 ^ 8). rewrite <- Z.pow_mul_r by lia.
  apply Z.log2_lt_pow2; [lia|]. pose proof (Z.div_mod (Z.log2 z) 8). pose proof (Z.mod_pos_bound (Z.log2 z) 8). lia.
Qed.
Lemma byte_count_32 z : 0 <= z < 256 ^ 32 -> (byte_count z <= 32)%nat.
Proof.
  intros Hz. unfold byte_count. rewrite Z.abs_eq by lia. destruct (Z.eq_dec z 0) as [->|Hne]; [change (1 <= 32)%nat; lia|].
  assert (Z.log2 z < 256) by (apply Z.log2_lt_pow2; [lia|]; exact (proj2 Hz)).
  pose proof (Z.log2_nonneg z). assert (Z.log2 z / 8 < 32) by (apply Z.div_lt_upper_bound; lia). lia.
Qed.
(** A number of at most 256 bits as a word of 32 bytes. *)
Lemma convertTo32_BigBytes z : 0 <= z < 256 ^ 32 -> convertTo32 (BigBytes z) = Some (be_word 32 z).
Proof.
  intros Hz. pose proof (byte_count_32 z Hz) as Hn. pose proof (byte_count_spec z ltac:(lia)) as Hc.
  assert (be_word 32 z = repeat Byte.x00 (32 - byte_count z) ++ be_word (byte_count z) z) as ->.
  { unfold be_word. replace 32%nat with (byte_count z + (32 - byte_count z))%nat at 1 by lia.
    rewrite le_encode_pad by lia. by rewrite rev_app_distr, rev_repeat. }
  unfold BigBytes. rewrite Z.abs_eq by lia.
  destruct (strip_zeros_pad (be_word (byte_count z) z)) as [k Hk].
  pose proof (f_equal length Hk) as Hl. rewrite length_be_word, length_app, repeat_length in Hl.
  unfold convertTo32. rewrite (proj2 (Nat.ltb_ge _ _)) by lia.
  set (S := strip_zeros _) in *. rewrite Hk. rewrite app_assoc, <- repeat_app. do 3 f_equal. lia.
Qed.

(** ** float64 *)

Definition f64_of_Z (z : Z) : spec_float := binary_normalize 53 1024 z 0 false.
Definition f64_add : spec_float -> spec_float -> spec_float := SFadd 53 1024.
Definition f64_div : spec_float -> spec_float -> spec_float := SFdiv 53 1024.
(** [int(math.Floor(f))]; what is not finite or out of range converts to an
    implementation-defined integer, a parameter. *)
Definition f64_floor (f : spec_float) : option Z :=
  match f with
  | S754_zero _ => Some 0
  | S754_finite s m e => let z := if s then Z.neg m else Z.pos m in
                         Some (if 0 <=? e then Z.shiftl z e else Z.shiftr z (- e))
  | _ => None
  end.
Definition f64_trunc (f : spec_float) : option Z :=
  match f with
  | S754_zero _ => Some 0
  | S754_finite s m e => let a := if 0 <=? e then Z.shiftl (Z.pos m) e else Z.shiftr (Z.pos m) (- e) in
                         Some (if s then - a else a)
  | _ => None
  end.
Definition int_of_floor (out_of_range : spec_float -> Z) (f : spec_float) : Z :=
  match f64_floor f with
  | Some z => if (MinInt64 <=? z) && (z <=? MaxInt64) then z else out_of_range f
  | None => out_of_range f
  end.
(** [uint64(f)] *)
Definition uint_of (out_of_range : spec_float -> Z) (f : spec_float) : Z :=
  match f64_trunc f with
  | Some z => if (0 <=? z) && (z <=? MaxUint64) then z else u64 (out_of_range f)
  | None => u64 (out_of_range f)
  end.
(** [Duration.Seconds] of a duration in nanoseconds. *)
Definition Second : Z := 10 ^ 9.
Definition Seconds (d : Z) : spec_float :=
  f64_add (f64_of_Z (Z.quot d Second)) (f64_div (f64_of_Z (Z.rem d Second)) (f64_of_Z Second)).

(** ** Times (package time)

    Seconds since year 1 (an int64) and nanoseconds within the second.  [time.Unix]
    adds the seconds from year 1 to 1970, with wrap-around. *)
Definition unixToInternal : Z := 62135596800.
Definition GoTime : Type := Z * Z.
Definition time_Unix (sec nsec : Z) : GoTime := (i64 (sec + unixToInternal), nsec).
Definition time_After (t u : GoTime) : bool := (u.1 <? t.1) || ((t.1 =? u.1) && (u.2 <? t.2)).
(** The difference saturates. *)
Definition time_Sub (t u : GoTime) : Z :=
  Z.max MinInt64 (Z.min MaxInt64 ((t.1 - u.1) * Second + (t.2 - u.2))).
