(* ===== verification/Dividend.v ===== *)
(** * Dividend accounts and their Merkle root

    Models [types/dividend_account.go].  The Merkle tree is a library and a
    parameter: the root of a list of leaf hashes.  The proofs are served by
    the queries ([Queries.v]). *)
From S2P Require Import Prelude SortedList Helpers External VoteTypes Numerals.
#[local] Open Scope Z_scope.

Record DividendAccount := { User : string; FeeAmount : string }.

(** [merkletree.NewTreeWithHashStrategy]: the root of the tree over these leaf
    hashes, [None] (an error) for an empty list. *)
Class MerkleLibrary := {
  merkle_root : list bytes -> option bytes;
}.

(** Bytes in the order of [bytes.Compare]. *)
#[export] Program Instance bytes_key_order : KeyOrder bytes :=
  {| kltb a b := str_ltb (string_of_list_byte a) (string_of_list_byte b) |}.
Next Obligation. intros a. exact (@kltb_irrefl string string_key_order (string_of_list_byte a)). Qed.
Next Obligation. intros a b c. exact (@kltb_trans string string_key_order _ (string_of_list_byte b) _). Qed.
Next Obligation.
  intros a b H1 H2. rewrite <- (list_byte_of_string_of_list_byte a), <- (list_byte_of_string_of_list_byte b).
  f_equal. exact (@kltb_total string string_key_order _ _ H1 H2).
Qed.

Section dividends.
Context {AC : AddressCodec} {HF : HashFunction} {ML : MerkleLibrary}.

(** [CalculateHash]; an amount that is not a number is a nil pointer. *)
Definition CalculateHash (da : DividendAccount) : outcome bytes :=
  addressBytes ← StringToBytes (User da);
  fee ← must (ParseBig (FeeAmount da));
  Ok (Keccak256 (AppendBytes32 [addressBytes; BigBytes fee])).

(** [SortDividendAccountByAddress]: an address that does not decode compares as
    empty and the sort then answers an error.  With one account there is no
    comparison. *)
Definition address_key (da : DividendAccount) : bytes :=
  match StringToBytes (User da) with Ok b => b | _ => [] end.
Definition SortDividendAccountByAddress (l : list DividendAccount) : outcome (list DividendAccount) :=
  return_if (1 <? length l)%nat && existsb (fun da => negb (is_ok (StringToBytes (User da)))) l
    with ErrText "invalid address" ;;
  Ok (sort_by address_key l).

Fixpoint leaf_hashes (l : list DividendAccount) : outcome (list bytes) :=
  match l with
  | [] => Ok []
  | da :: rest => h ← CalculateHash da; hs ← leaf_hashes rest; Ok (h :: hs)
  end.

(** [GetAccountTree] and the hash of its root. *)
Definition GetAccountRootHash (l : list DividendAccount) : outcome bytes :=
  l ← SortDividendAccountByAddress l;
  hs ← leaf_hashes l;
  of_option (ErrText "cannot construct tree with no content") (merkle_root hs).

End dividends.
