(* ===== verification/Topup.v ===== *)
(** * The topup module: fee tokens in and out

    Models [x/topup/keeper] (keeper, message server, side and post-handlers,
    genesis) and [x/topup/types].  A topup event of the main chain mints fee
    tokens; a withdrawal burns them and credits the dividend account that a later
    checkpoint pays out.  The bank is a parameter. *)
From S2P Require Import Prelude SortedList Helpers External VoteTypes ValidatorSet StakeKeeper StakeHandlers Numerals Dividend.
#[local] Open Scope Z_scope.

(** ** The bank

    Coins are lists of a denomination and an amount.  [Supply] is what the
    operations do to the total. *)
Definition Coins : Type := list (string * Z).
Class FeeBank (B : Type) := {
  FeeToken : string;
  DefaultBondDenom : string;
  DefaultFeeWantedPerTx : Coins;
  IsSendEnabledDenom : B -> string -> bool;
  SpendableCoin : B -> bytes -> string -> Z;
  MintCoins : B -> string -> Coins -> outcome B;
  BurnCoins : B -> string -> Coins -> outcome B;
  SendCoinsFromModuleToAccount : B -> string -> bytes -> Coins -> outcome B;
  SendCoinsFromAccountToModule : B -> bytes -> string -> Coins -> outcome B;
  TransferCoins : B -> bytes -> bytes -> Coins -> outcome B;   (* SendCoins *)
  Supply : B -> string -> Z;
}.
Definition amount_of (coins : Coins) (denom : string) : Z :=
  Zsum (map (fun c => if String.eqb c.1 denom then c.2 else 0) coins).
(** Minting and burning are the operations that change the supply. *)
Class FeeBankLaws (B : Type) {FB : FeeBank B} : Prop := {
  mint_supply b b' md coins d : MintCoins b md coins = Ok b' -> Supply b' d = Supply b d + amount_of coins d;
  burn_supply b b' md coins d : BurnCoins b md coins = Ok b' -> Supply b' d = Supply b d - amount_of coins d;
  to_account_supply b b' md a coins d : SendCoinsFromModuleToAccount b md a coins = Ok b' -> Supply b' d = Supply b d;
  to_module_supply b b' a md coins d : SendCoinsFromAccountToModule b a md coins = Ok b' -> Supply b' d = Supply b d;
  transfer_supply b b' a a' coins d : TransferCoins b a a' coins = Ok b' -> Supply b' d = Supply b d;
}.

(** ** State and keeper *)

Record TopupState := { topup_sequences : gset string; dividendAccounts : gmap string DividendAccount }.
Definition ModuleName : string := "topup".

Definition GetAllTopupSequences (s : TopupState) : list string := sort_by id (elements (topup_sequences s)).
Definition SetTopupSequence (s : TopupState) (sequence : string) : TopupState :=
  {| topup_sequences := {[sequence]} ∪ topup_sequences s; dividendAccounts := dividendAccounts s |}.
Definition HasTopupSequence (s : TopupState) (sequence : string) : bool := bool_decide (sequence ∈ topup_sequences s).
#[export] Instance topup_sequence_checker : SequenceChecker TopupState := HasTopupSequence.
Definition GetAllDividendAccounts (s : TopupState) : list DividendAccount := map snd (entries (dividendAccounts s)).
Definition SetDividendAccount (s : TopupState) (da : DividendAccount) : TopupState :=
  let da := {| User := FormatAddress (User da); FeeAmount := FeeAmount da |} in
  {| topup_sequences := topup_sequences s; dividendAccounts := <[User da := da]> (dividendAccounts s) |}.
Definition HasDividendAccount (s : TopupState) (user : string) : bool :=
  bool_decide (is_Some (dividendAccounts s !! FormatAddress user)).
Definition GetDividendAccount (s : TopupState) (user : string) : outcome DividendAccount :=
  of_option ErrNotFound (dividendAccounts s !! FormatAddress user).
Definition AddFeeToDividendAccount (s : TopupState) (user : string) (fee : Z) : outcome TopupState :=
  dividendAccount ← (if HasDividendAccount s (FormatAddress user) then GetDividendAccount s user
                     else Ok {| User := FormatAddress user; FeeAmount := BigString 0 |});
  oldFee ← of_option (ErrText "failed to set the old fee for dividend account") (ParseBig (FeeAmount dividendAccount));
  Ok (SetDividendAccount s {| User := User dividendAccount; FeeAmount := BigString (oldFee + fee) |}).

(** ** Messages *)

Record MsgTopupTx := {
  tt_Proposer : string; tt_User : string; tt_Fee : Z; tt_TxHash : bytes; tt_LogIndex : Z; tt_BlockNumber : Z;
}.
Record MsgWithdrawFeeTx := { wf_Proposer : string; wf_Amount : Z }.
(** The event of the staking contract; the user is the text of the address. *)
Record StakinginfoTopUpFee := { tf_User : string; tf_Fee : Z }.
Class TopupEvents {RS : ReceiptSource} := {
  DecodeValidatorTopupFeesEvent : string -> Receipt -> Z -> option StakinginfoTopUpFee;
}.

Section handlers.
Context {AC : AddressCodec} {SA : SdkAddress} {B : Type} {FB : FeeBank B} (cfg : Config).

Definition ValidateBasic_TopupTx (msg : MsgTopupTx) : outcome unit :=
  return_if tt_Fee msg <? 0 with ErrText "fee cannot be negative" ;;
  or_err (StringToBytes (tt_Proposer msg)) (ErrText "invalid proposer") ≫= fun _ =>
  or_err (StringToBytes (tt_User msg)) (ErrText "invalid user") ≫= fun _ =>
  return_if negb (length (tt_TxHash msg) =? HashLength)%nat with ErrText "invalid tx hash" ;;
  Ok tt.
Definition ValidateBasic_WithdrawFeeTx (msg : MsgWithdrawFeeTx) : outcome unit :=
  return_if wf_Amount msg <? 0 with ErrText "amount cannot be negative" ;;
  or_err (StringToBytes (wf_Proposer msg)) (ErrText "invalid proposer") ≫= fun _ =>
  Ok tt.

(** The amount of the first default fee; indexing an empty list panics. *)
Definition default_fee : outcome Z := must (option_map snd (head DefaultFeeWantedPerTx)).

Definition HandleTopupTx (bank : B) (s : TopupState) (msg : MsgTopupTx) : outcome unit :=
  return_if negb (IsSendEnabledDenom bank DefaultBondDenom) with ErrText "send is not enabled" ;;
  fee ← default_fee;
  return_if tt_Fee msg <? fee with ErrText "default fee exceeds amount to topup" ;;
  return_if HasTopupSequence s (CalculateSequence (tt_BlockNumber msg) (tt_LogIndex msg)) with ErrText "tx already exists" ;;
  Ok tt.

(** [requireValidatorAfterGate] *)
Definition requireValidatorAfterGate (ctx : Ctx) (ss : StakeState) (ackCount : Z) (proposer : string) : outcome unit :=
  if negb (IsFeeWithdrawValidatorGate cfg (BlockHeight ctx)) then Ok tt
  else
    match IsCurrentValidatorByAddress ss ackCount proposer with
    | Ok isValidator => return_if negb isValidator with ErrText "unauthorized" ;; Ok tt
    | Err e => Err (if bool_decide (e = ErrNotFound) then ErrText "unauthorized" else ErrText "validator lookup failed")
    | Panic => Panic
    end.

Definition WithdrawFeeTx (ctx : Ctx) (ss : StakeState) (ackCount : Z) (bank : B) (s : TopupState) (msg : MsgWithdrawFeeTx)
    : outcome (TopupState * B) :=
  return_if wf_Amount msg <? 0 with ErrText "amount is negative" ;;
  proposer ← or_err (StringToBytes (wf_Proposer msg)) (ErrText "invalid address");
  requireValidatorAfterGate ctx ss ackCount (wf_Proposer msg) ≫= fun _ =>
  let amount := if wf_Amount msg =? 0 then SpendableCoin bank proposer DefaultBondDenom else wf_Amount msg in
  return_if amount =? 0 with ErrText "account has no balance" ;;
  let coins := [(DefaultBondDenom, amount)] in
  bank ← or_err (SendCoinsFromAccountToModule bank proposer ModuleName coins) (ErrText "send");
  bank ← or_err (BurnCoins bank ModuleName coins) (ErrText "burn");
  s ← or_err (AddFeeToDividendAccount s (wf_Proposer msg) amount) (ErrText "dividend account");
  Ok (s, bank).

Context {RS : ReceiptSource} {TE : TopupEvents}.

Definition SideHandleTopupTx (params : option ChainManagerParams) (bank : B) (s : TopupState) (msg : MsgTopupTx)
    : outcome Vote :=
  vote_no_if negb (IsSendEnabledDenom bank DefaultBondDenom) ;;
  fee <-no default_fee ;;
  vote_no_if tt_Fee msg <? fee ;;
  vote_no_if HasTopupSequence s (CalculateSequence (tt_BlockNumber msg) (tt_LogIndex msg)) ;;
  params <-some params ;;
  receipt <-some FetchAndValidateReceipt (tt_TxHash msg) (tt_BlockNumber msg) (MainChainTxConfirmations params) ;;
  eventLog <-some DecodeValidatorTopupFeesEvent (StakingInfoAddress params) receipt (tt_LogIndex msg) ;;
  msgAddrBytes <-no StringToBytes (tt_User msg) ;;
  eventLogBytes <-no StringToBytes (tf_User eventLog) ;;
  vote_no_if negb (bool_decide (eventLogBytes = msgAddrBytes)) ;;
  vote_no_if negb (tf_Fee eventLog =? tt_Fee msg) ;;
  Ok VOTE_YES.
End handlers.

Section post.
Context {SA : SdkAddress} {B : Type} {FB : FeeBank B}.

(** [MustAccAddressFromHex] *)
Definition MustAccAddressFromHex (address : string) : outcome bytes :=
  match AccAddressFromHex address with Ok a => Ok a | _ => Panic end.

Definition PostHandleTopupTx (bank : B) (s : TopupState) (msg : MsgTopupTx) (sideTxResult : Vote)
    : outcome (TopupState * B) :=
  return_if negb (IsSideTxApproved sideTxResult) with ErrSideTxRejected ;;
  let sequence := CalculateSequence (tt_BlockNumber msg) (tt_LogIndex msg) in
  return_if HasTopupSequence s sequence with ErrText "older tx found" ;;
  let topupAmount := [(FeeToken, tt_Fee msg)] in
  bank ← MintCoins bank ModuleName topupAmount;
  user ← MustAccAddressFromHex (tt_User msg);
  bank ← SendCoinsFromModuleToAccount bank ModuleName user topupAmount;
  proposer ← MustAccAddressFromHex (tt_Proposer msg);
  bank ← TransferCoins bank user proposer DefaultFeeWantedPerTx;
  Ok (SetTopupSequence s sequence, bank).
End post.

(** ** Genesis *)

Record TopupGenesis := { TopupSequences : list string; DividendAccounts : list DividendAccount }.
Definition Validate_topup (gs : TopupGenesis) : outcome unit :=
  return_if existsb (fun sequence => String.eqb sequence "") (TopupSequences gs) with ErrText "invalid sequence" ;;
  return_if existsb (fun account => String.eqb (User account) "") (DividendAccounts gs) with ErrText "invalid account" ;;
  Ok tt.
Definition InitGenesis_topup (s : TopupState) (gs : TopupGenesis) : TopupState :=
  fold_left SetDividendAccount (DividendAccounts gs) (fold_left SetTopupSequence (TopupSequences gs) s).
Definition ExportGenesis_topup (s : TopupState) : TopupGenesis :=
  {| TopupSequences := GetAllTopupSequences s; DividendAccounts := GetAllDividendAccounts s |}.
