(* ===== verification/TopupCorrect.v ===== *)
(** * The topup module: correctness

    Fee tokens are conserved: the supply and the dividend accounts together change
    only by the topups of the main chain, each counted once.  A withdrawal burns
    what it credits, to the account of its proposer only. *)
From S2P Require Import Prelude SortedList Helpers External VoteTypes ValidatorSet StakeKeeper StakeHandlers Numerals Dividend Topup.
#[local] Open Scope Z_scope.

(** ** What the dividend accounts owe *)

(** The amount an account stands for; one that is not a number owes nothing. *)
Definition owed (da : DividendAccount) : Z := default 0 (ParseBig (FeeAmount da)).
Definition total_owed (m : gmap string DividendAccount) : Z := Zsum (map (fun kv => owed kv.2) (map_to_list m)).

Lemma total_owed_insert m k da : m !! k = None -> total_owed (<[k := da]> m) = owed da + total_owed m.
Proof.
  intros Hk. unfold total_owed.
  rewrite (Zsum_perm _ (map (fun kv => owed kv.2) ((k, da) :: map_to_list m))); [done|].
  by apply Permutation_map, map_to_list_insert.
Qed.

Lemma total_owed_update m k da : total_owed (<[k := da]> m) = total_owed m + owed da - from_option owed 0 (m !! k).
Proof.
  destruct (m !! k) as [old|] eqn:E; cbn [from_option].
  - rewrite <- (insert_delete_id m k old E) at 2. rewrite <- (insert_delete_eq m).
    rewrite !total_owed_insert by apply lookup_delete_eq. lia.
  - rewrite total_owed_insert by done. lia.
Qed.

Lemma owed_big k z : owed {| User := k; FeeAmount := BigString z |} = z.
Proof. unfold owed. cbn [FeeAmount]. by rewrite ParseBig_BigString. Qed.

(** Accounts are stored under their own, formatted, address. *)
Definition accounts_ok (s : TopupState) : Prop :=
  forall k da, dividendAccounts s !! k = Some da -> User da = k /\ FormatAddress k = k.

(** Crediting an account changes this account only, by the fee. *)
Lemma AddFee_ok s user fee s' : accounts_ok s -> AddFeeToDividendAccount s user fee = Ok s' ->
  let k := FormatAddress user in
  let old := from_option owed 0 (dividendAccounts s !! k) in
  topup_sequences s' = topup_sequences s /\
  dividendAccounts s' = <[k := {| User := k; FeeAmount := BigString (old + fee) |}]> (dividendAccounts s) /\
  accounts_ok s'.
Proof.
  intros Hok. unfold AddFeeToDividendAccount, HasDividendAccount, GetDividendAccount.
  rewrite format_address_idem. cbn zeta. intros H.
  assert (exists da, User da = FormatAddress user /\ from_option owed 0 (dividendAccounts s !! FormatAddress user) = owed da /\
    (oldFee ← of_option (ErrText "failed to set the old fee for dividend account") (ParseBig (FeeAmount da));
     Ok (SetDividendAccount s {| User := User da; FeeAmount := BigString (oldFee + fee) |})) = Ok s') as (da & Hu & Ho & H').
  { destruct (dividendAccounts s !! FormatAddress user) as [da|] eqn:E.
    - rewrite bool_decide_eq_true_2 in H by eauto. exists da. split; [|done]. by apply Hok in E as [-> _].
    - rewrite bool_decide_eq_false_2 in H by (by intros [? ?]). cbn [mbind outcome_bind] in H.
      exists {| User := FormatAddress user; FeeAmount := BigString 0 |}. split; [done|]. split; [|exact H]. unfold owed. cbn [FeeAmount]. by rewrite ParseBig_BigString. }
  ok_inv H'. apply of_option_ok in Ha. subst s'. unfold SetDividendAccount. cbn. rewrite Hu, format_address_idem, Ho.
  assert (owed da = a) as -> by (unfold owed; by rewrite Ha). split_and!; [done..|].
  intros k x. cbn. destruct (decide (k = FormatAddress user)) as [->|Hne].
  - rewrite lookup_insert_eq. intros [= <-]. cbn. by rewrite format_address_idem.
  - rewrite lookup_insert_ne by done. apply Hok.
Qed.

Lemma AddFee_total s user fee s' : accounts_ok s -> AddFeeToDividendAccount s user fee = Ok s' ->
  total_owed (dividendAccounts s') = total_owed (dividendAccounts s) + fee.
Proof.
  intros Hok H. destruct (AddFee_ok _ _ _ _ Hok H) as (_ & -> & _). rewrite total_owed_update.
  rewrite owed_big. lia.
Qed.

Section correctness.
Context {AC : AddressCodec} {SA : SdkAddress} {B : Type} {FB : FeeBank B} {FL : FeeBankLaws B} (cfg : Config).

Lemma amount_of_one d a d' : amount_of [(d, a)] d' = if String.eqb d d' then a else 0.
Proof. unfold amount_of. cbn. destruct (String.eqb d d'); lia. Qed.

(** ** The operations *)

(** What a withdrawal takes: the amount of the message, all of the balance for zero. *)
Definition withdrawn (bank : B) (proposer : bytes) (msg : MsgWithdrawFeeTx) : Z :=
  if wf_Amount msg =? 0 then SpendableCoin bank proposer DefaultBondDenom else wf_Amount msg.

(** A successful withdrawal, step by step. *)
Lemma withdraw_ok ctx ss ackCount bank s msg s' bank' :
  WithdrawFeeTx cfg ctx ss ackCount bank s msg = Ok (s', bank') ->
  exists proposer bank1,
    0 <= wf_Amount msg /\ StringToBytes (wf_Proposer msg) = Ok proposer /\
    requireValidatorAfterGate cfg ctx ss ackCount (wf_Proposer msg) = Ok tt /\
    let coins := [(DefaultBondDenom, withdrawn bank proposer msg)] in
    withdrawn bank proposer msg <> 0 /\
    SendCoinsFromAccountToModule bank proposer ModuleName coins = Ok bank1 /\
    BurnCoins bank1 ModuleName coins = Ok bank' /\
    AddFeeToDividendAccount s (wf_Proposer msg) (withdrawn bank proposer msg) = Ok s'.
Proof.
  unfold WithdrawFeeTx. intros H. ok_step H. ok_step H. apply or_err_ok in Ha. ok_step H. destruct a0.
  change (if wf_Amount msg =? 0 then _ else _) with (withdrawn bank a msg) in H.
  ok_step H. ok_step H. apply or_err_ok in Ha1. ok_step H. apply or_err_ok in Ha2. ok_step H. apply or_err_ok in Ha3.
  injection H as -> ->. bool_hyps. exists a, a0. by split_and!.
Qed.

Lemma withdraw_supply ctx ss ackCount bank s msg s' bank' :
  FeeToken = DefaultBondDenom -> accounts_ok s ->
  WithdrawFeeTx cfg ctx ss ackCount bank s msg = Ok (s', bank') ->
  Supply bank' FeeToken + total_owed (dividendAccounts s') = Supply bank FeeToken + total_owed (dividendAccounts s) /\
  topup_sequences s' = topup_sequences s /\ accounts_ok s'.
Proof.
  intros Hden Hok H. apply withdraw_ok in H as (a & b1 & _ & _ & _ & _ & H1 & H2 & H3).
  pose proof (AddFee_total _ _ _ _ Hok H3) as Ht. apply AddFee_ok in H3 as (Hs & _ & Hok'); [|done].
  rewrite (burn_supply _ _ _ _ FeeToken H2), (to_module_supply _ _ _ _ _ FeeToken H1), amount_of_one, Hden, String.eqb_refl, Ht.
  split; [lia|done].
Qed.

Definition sequence_of (msg : MsgTopupTx) : string := CalculateSequence (tt_BlockNumber msg) (tt_LogIndex msg).

Lemma topup_ok bank s msg vote s' bank' : PostHandleTopupTx bank s msg vote = Ok (s', bank') ->
  vote = VOTE_YES /\ (sequence_of msg ∉ topup_sequences s) /\ s' = SetTopupSequence s (sequence_of msg) /\
  Supply bank' FeeToken = Supply bank FeeToken + tt_Fee msg.
Proof.
  unfold PostHandleTopupTx. intros H. do 7 ok_step H. injection H as <- <-. bool_hyps.
  apply bool_decide_eq_true in Hg as ->.
  unfold HasTopupSequence in Hg0. apply bool_decide_eq_false in Hg0. split_and!; try done.
  rewrite (transfer_supply _ _ _ _ _ FeeToken Ha3), (to_account_supply _ _ _ _ _ FeeToken Ha1), (mint_supply _ _ _ _ FeeToken Ha).
  rewrite amount_of_one, String.eqb_refl. lia.
Qed.

(** ** Histories

    A step applies an approved topup, withdraws, or is an operation of another
    module that moves coins; [log] is the topups applied so far. *)
Record FeeWorld := { fw_bank : B; fw_state : TopupState; fw_log : list MsgTopupTx }.

Inductive fee_step : FeeWorld -> FeeWorld -> Prop :=
| step_topup bank s log msg vote s' bank' :
    PostHandleTopupTx bank s msg vote = Ok (s', bank') ->
    fee_step {| fw_bank := bank; fw_state := s; fw_log := log |} {| fw_bank := bank'; fw_state := s'; fw_log := msg :: log |}
| step_withdraw ctx ss ackCount bank s log msg s' bank' :
    WithdrawFeeTx cfg ctx ss ackCount bank s msg = Ok (s', bank') ->
    fee_step {| fw_bank := bank; fw_state := s; fw_log := log |} {| fw_bank := bank'; fw_state := s'; fw_log := log |}
| step_moves bank s log bank' :
    Supply bank' FeeToken = Supply bank FeeToken ->
    fee_step {| fw_bank := bank; fw_state := s; fw_log := log |} {| fw_bank := bank'; fw_state := s; fw_log := log |}.

(** The fee tokens of the world, less the topups applied. *)
Definition fee_balance (w : FeeWorld) : Z :=
  Supply (fw_bank w) FeeToken + total_owed (dividendAccounts (fw_state w)) - Zsum (map tt_Fee (fw_log w)).
Record fee_world_ok (w : FeeWorld) : Prop := {
  fo_accounts : accounts_ok (fw_state w);
  fo_logged : Forall (fun msg => sequence_of msg ∈ topup_sequences (fw_state w)) (fw_log w);
  fo_once : NoDup (map sequence_of (fw_log w));
}.

Lemma fee_step_ok w w' : FeeToken = DefaultBondDenom -> fee_step w w' -> fee_world_ok w ->
  fee_world_ok w' /\ fee_balance w' = fee_balance w.
Proof.
  intros Hden Hstep [H1 H2 H3].
  destruct Hstep as [bank s log msg vote s' bank' H|ctx ss ack bank s log msg s' bank' H|bank s log bank' H]; cbn in *.
  - apply topup_ok in H as (_ & Hn & -> & Hs). split; [|unfold fee_balance; cbn; rewrite Hs; lia].
    split; cbn; [exact H1| |].
    + constructor; [cbn; set_solver|]. eapply Forall_impl; [exact H2|]. cbn. set_solver.
    + constructor; [|done]. intros (m & E & Hm)%list_elem_of_fmap. rewrite Forall_forall in H2.
      apply H2 in Hm. by rewrite E in Hn.
  - destruct (withdraw_supply _ _ _ _ _ _ _ _ Hden H1 H) as (Hs & Hq & Hok).
    split; [|unfold fee_balance; cbn; lia]. split; cbn; [done| |done]. by rewrite Hq.
  - split; [done|]. unfold fee_balance. cbn. lia.
Qed.
(** C11: fee tokens are conserved.  In every history the supply and what the
    dividend accounts are owed together grow by exactly the topups applied, and no
    event of the main chain is applied twice, whatever its proposer repeats. *)
Theorem fees_are_conserved w w' : FeeToken = DefaultBondDenom -> rtc fee_step w w' -> fee_world_ok w ->
  Supply (fw_bank w') FeeToken + total_owed (dividendAccounts (fw_state w')) - Zsum (map tt_Fee (fw_log w'))
    = Supply (fw_bank w) FeeToken + total_owed (dividendAccounts (fw_state w)) - Zsum (map tt_Fee (fw_log w)) /\
  NoDup (map (fun msg => CalculateSequence (tt_BlockNumber msg) (tt_LogIndex msg)) (fw_log w')).
Proof.
  intros Hden Hrtc Hok. assert (fee_world_ok w' /\ fee_balance w' = fee_balance w) as [Hok' Hb].
  { induction Hrtc as [w|w w1 w' Hs _ IH]; [done|]. destruct (fee_step_ok _ _ Hden Hs Hok) as [H1 E1].
    destruct (IH H1) as [H2 E2]. by rewrite E2. }
  split; [exact Hb|exact (fo_once _ Hok')].
Qed.

(** what a successful withdrawal takes leaves the account of the proposer and the supply, and the dividend
    account of the proposer, and no other, is owed as much more.  From the gate on
    the proposer is a current validator. *)
Theorem withdrawal_moves_fees_to_dividends ctx ss ackCount bank s msg s' bank' :
  WithdrawFeeTx cfg ctx ss ackCount bank s msg = Ok (s', bank') -> accounts_ok s ->
  exists proposer amount,
    StringToBytes (wf_Proposer msg) = Ok proposer /\
    amount = (if wf_Amount msg =? 0 then SpendableCoin bank proposer DefaultBondDenom else wf_Amount msg) /\
    amount <> 0 /\
    Supply bank' DefaultBondDenom = Supply bank DefaultBondDenom - amount /\
    (forall d, d <> DefaultBondDenom -> Supply bank' d = Supply bank d) /\
    (exists da, GetDividendAccount s' (wf_Proposer msg) = Ok da /\
       owed da = from_option owed 0 (dividendAccounts s !! FormatAddress (wf_Proposer msg)) + amount) /\
    (forall user, FormatAddress user <> FormatAddress (wf_Proposer msg) ->
       GetDividendAccount s' user = GetDividendAccount s user) /\
    (IsFeeWithdrawValidatorGate cfg (BlockHeight ctx) = true ->
       exists v, validators ss !! FormatAddress (wf_Proposer msg) = Some v /\ IsCurrentValidator v ackCount = true).
Proof.
  intros H Hok. apply withdraw_ok in H as (a & b1 & _ & Ha & Hg & Hn & H1 & H2 & H3).
  exists a, (withdrawn bank a msg). apply AddFee_ok in H3 as (_ & Hd & _); [|done]. split_and!; try done.
  - by rewrite (burn_supply _ _ _ _ _ H2), (to_module_supply _ _ _ _ _ _ H1), amount_of_one, String.eqb_refl.
  - intros d Hne. rewrite (burn_supply _ _ _ _ _ H2), (to_module_supply _ _ _ _ _ _ H1), amount_of_one.
    destruct (String.eqb_spec DefaultBondDenom d); [congruence|lia].
  - eexists. unfold GetDividendAccount. rewrite Hd, lookup_insert_eq. split; [done|apply owed_big].
  - intros user Hne. unfold GetDividendAccount. by rewrite Hd, lookup_insert_ne.
  - intros Hgate. unfold requireValidatorAfterGate in Hg. rewrite Hgate in Hg. cbn [negb] in Hg.
    unfold IsCurrentValidatorByAddress, GetValidatorInfo in Hg. rewrite format_address_idem in Hg.
    destruct (validators ss !! FormatAddress (wf_Proposer msg)) as [v|] eqn:E; [|done].
    exists v. split; [done|]. cbn in Hg. by destruct (IsCurrentValidator v ackCount).
Qed.
End correctness.

(** ** Witnesses *)

Module TopupDemo.
(** A bank of one denomination: balances by address and the supply. *)
Record DemoBank := { balances : gmap string Z; supply : Z }.
Definition total_of (coins : Coins) : Z := amount_of coins "pol".
Definition in_pol (coins : Coins) : bool := forallb (fun c => String.eqb c.1 "pol") coins.
Definition balance_of (b : DemoBank) (a : string) : Z := default 0 (balances b !! a).
Definition add_balance (b : DemoBank) (a : string) (z : Z) : DemoBank :=
  {| balances := <[a := balance_of b a + z]> (balances b); supply := supply b |}.
Definition move (b : DemoBank) (a a' : string) (coins : Coins) : outcome DemoBank :=
  if negb (in_pol coins) || (balance_of b a <? total_of coins) then Err (ErrText "insufficient funds")
  else Ok (add_balance (add_balance b a (- total_of coins)) a' (total_of coins)).
Definition demo_mint (b : DemoBank) (md : string) (coins : Coins) : outcome DemoBank :=
  if negb (in_pol coins) then Err (ErrText "unknown denomination")
  else Ok {| balances := balances (add_balance b md (total_of coins)); supply := supply b + total_of coins |}.
Definition demo_burn (b : DemoBank) (md : string) (coins : Coins) : outcome DemoBank :=
  if negb (in_pol coins) || (balance_of b md <? total_of coins) then Err (ErrText "insufficient funds")
  else Ok {| balances := balances (add_balance b md (- total_of coins)); supply := supply b - total_of coins |}.
#[export] Instance demo_bank : FeeBank DemoBank := {|
  FeeToken := "pol"; DefaultBondDenom := "pol"; DefaultFeeWantedPerTx := [("pol", 1)];
  IsSendEnabledDenom _ _ := true;
  SpendableCoin b a d := if String.eqb d "pol" then balance_of b (string_of_list_byte a) else 0;
  MintCoins := demo_mint; BurnCoins := demo_burn;
  SendCoinsFromModuleToAccount b md a coins := move b md (string_of_list_byte a) coins;
  SendCoinsFromAccountToModule b a md coins := move b (string_of_list_byte a) md coins;
  TransferCoins b a a' coins := move b (string_of_list_byte a) (string_of_list_byte a') coins;
  Supply b d := if String.eqb d "pol" then supply b else 0;
|}.
Lemma move_supply b a a' coins b' : move b a a' coins = Ok b' -> supply b' = supply b.
Proof. unfold move. destruct (_ || _)%bool; [done|]. by intros [= <-]. Qed.
Lemma amount_elsewhere coins d : in_pol coins = true -> d <> "pol"%string -> amount_of coins d = 0.
Proof.
  intros H Hd. unfold amount_of. induction coins as [|[c z] coins IH]; [done|].
  cbn [in_pol forallb fst] in H. apply andb_true_iff in H as [->%String.eqb_eq H].
  cbn [map]. rewrite Zsum_cons, (IH H). cbn [fst].
  destruct (String.eqb_spec "pol" d); congruence || lia.
Qed.
#[export] Instance demo_bank_laws : FeeBankLaws DemoBank.
Proof.
  assert (forall b b' coins d (z : Z), in_pol coins = true -> supply b' = supply b + z * total_of coins ->
    @Supply _ demo_bank b' d = @Supply _ demo_bank b d + z * amount_of coins d) as Hs.
  { intros b b' coins d z Hp Hb. cbn. destruct (String.eqb_spec d "pol") as [->|Hd]; [exact Hb|].
    rewrite amount_elsewhere by done. lia. }
  split; cbn [MintCoins BurnCoins SendCoinsFromModuleToAccount SendCoinsFromAccountToModule TransferCoins demo_bank].
  - unfold demo_mint. intros b b' md coins d H. destruct (in_pol coins) eqn:E; [|done]. injection H as <-.
    etransitivity; [apply (Hs b _ coins d 1); cbn [supply]; [done|lia]|lia].
  - unfold demo_burn. intros b b' md coins d H. destruct (in_pol coins) eqn:E; [|done].
    destruct (_ || _)%bool; [done|]. injection H as <-.
    etransitivity; [apply (Hs b _ coins d (-1)); cbn [supply]; [done|lia]|lia].
  - intros b b' md a coins d H%move_supply. cbn. by rewrite H.
  - intros b b' a md coins d H%move_supply. cbn. by rewrite H.
  - intros b b' a a' coins d H%move_supply. cbn. by rewrite H.
Qed.
#[export] Instance demo_codec : AddressCodec := {|
  PubKeyAddress pk := None; AddressString bs := string_of_list_byte bs;
  BytesToString bs := Ok (string_of_list_byte bs); StringToBytes s := Ok (list_byte_of_string s);
|}.
#[export] Instance demo_addresses : SdkAddress := {|
  ValAddressFromHex s := Ok (list_byte_of_string s); AccAddressFromHex s := Ok (list_byte_of_string s);
  AccAddressString bs := string_of_list_byte bs;
|}.
Definition demo_config : Config :=
  {| rioHeight := 0; tallyFixHeight := 0; disableVPCheckHeight := 0; disableValSetCheckHeight := 0;
     initialHeight := 0; producerDowntimeHeight := 0; phuketHardforkHeight := 1;
     feeWithdrawValidatorGateHeight := 0; zurichHardforkHeight := 10; ithacaHeight := 1;
     fallbackProducerVotes := [] |}.
Definition demo_ctx : Ctx := {| BlockHeight := 5; BlockTime := 50 |}.
Definition demo_topup : MsgTopupTx :=
  {| tt_Proposer := "0xbb"; tt_User := "0xaa"; tt_Fee := 100; tt_TxHash := []; tt_LogIndex := 3; tt_BlockNumber := 7 |}.
Definition demo_withdraw : MsgWithdrawFeeTx := {| wf_Proposer := "0xaa"; wf_Amount := 0 |}.
Definition demo_world : @FeeWorld DemoBank :=
  {| fw_bank := {| balances := {["0xaa" := 10]}; supply := 10 |};
     fw_state := {| topup_sequences := ∅; dividendAccounts := ∅ |}; fw_log := [] |}.
Definition after_topup : @FeeWorld DemoBank :=
  match PostHandleTopupTx (fw_bank demo_world) (fw_state demo_world) demo_topup VOTE_YES with
  | Ok (s, b) => {| fw_bank := b; fw_state := s; fw_log := [demo_topup] |} | _ => demo_world end.
Definition empty_stake : StakeState :=
  {| validators := ∅; signer := ∅; sequences := ∅; validatorSet := None; previousSet := None;
     penultimateSet := None; lastBlockTxs := None |}.

Lemma demo_step : fee_step demo_config demo_world after_topup.
Proof.
  assert (exists s b, PostHandleTopupTx (fw_bank demo_world) (fw_state demo_world) demo_topup VOTE_YES = Ok (s, b)) as (s & b & E)
    by (do 2 eexists; vm_compute; reflexivity).
  unfold after_topup. rewrite E. by eapply step_topup.
Qed.

Lemma fees_are_conserved_witness :
  Supply (fw_bank after_topup) FeeToken + total_owed (dividendAccounts (fw_state after_topup)) - 100 = 10.
Proof.
  transitivity (@Supply _ demo_bank (fw_bank demo_world) FeeToken + total_owed (dividendAccounts (fw_state demo_world)) - 0);
    [|vm_compute; reflexivity].
  apply (fees_are_conserved demo_config demo_world after_topup).
  - reflexivity.
  - apply rtc_once, demo_step.
  - split; cbn.
    + intros k da. cbn. by rewrite lookup_empty.
    + constructor.
    + constructor.
Defined.

Lemma withdrawal_moves_fees_to_dividends_witness : exists s' bank',
  WithdrawFeeTx demo_config demo_ctx empty_stake 0 (fw_bank demo_world) (fw_state demo_world) demo_withdraw = Ok (s', bank') /\
  Supply bank' "pol" = 0.
Proof.
  destruct (WithdrawFeeTx demo_config demo_ctx empty_stake 0 (fw_bank demo_world) (fw_state demo_world) demo_withdraw)
    as [[s' bank']| |] eqn:E; [|vm_compute in E; discriminate..].
  exists s', bank'. split; [reflexivity|].
  destruct (withdrawal_moves_fees_to_dividends demo_config _ _ _ _ _ _ _ _ E) as (a & z & Ha & Hz & _ & Hs & _).
  - intros k da. cbn. by rewrite lookup_empty.
  - etransitivity; [exact Hs|]. rewrite Hz. injection Ha as <-. vm_compute. reflexivity.
Defined.
End TopupDemo.
