(* ===== verification/Clerk.v ===== *)
(** * The clerk module: state-sync events

    Models [x/clerk/keeper] (keeper, message server, side and post-handlers, the
    record queries, genesis) and [x/clerk/types].  Records are stored by id and by
    time.  From Zurich on a new record is pending until the next block gives it its
    visibility height, and the query for the records before a time is answered at
    the height of the last block before that time, so that it does not depend on
    when it is asked. *)
From S2P Require Import Prelude SortedList Helpers External VoteTypes StakeHandlers Numerals.
#[local] Open Scope Z_scope.

(** ** State *)

Record EventRecord := {
  er_Id : Z; er_Contract : string; er_Data : bytes; er_TxHash : string; er_LogIndex : Z; er_BorChainId : string;
  er_RecordTime : GoTime;
}.
Record ClerkState := {
  RecordsWithID : gmap Z EventRecord;
  RecordsWithTime : gmap (GoTime * Z) Z;
  RecordSequences : gset string;
  PendingVisibilityEvents : gset Z;
  BlockTimeReverseIndex : gmap (Z * Z) Z;   (* block time and height, to height *)
  VisibilityHeightByID : gmap Z Z;
}.

Definition MaxStateSyncSize : nat := 30000.
Definition ErrExists : error := ErrText "record already exists".
Definition ErrNoBlockFound : error := ErrText "no block found before cutoff".
Definition ErrPage : error := ErrText "page does not exist".

(** ** Keeper: records *)

Definition HasEventRecord (s : ClerkState) (stateID : Z) : bool := bool_decide (is_Some (RecordsWithID s !! stateID)).
Definition GetEventRecord (s : ClerkState) (stateID : Z) : outcome EventRecord :=
  of_option ErrNotFound (RecordsWithID s !! stateID).

Definition SetEventRecordWithTime (s : ClerkState) (record : EventRecord) : outcome ClerkState :=
  let key := (er_RecordTime record, er_Id record) in
  return_if bool_decide (is_Some (RecordsWithTime s !! key)) with ErrExists ;;
  Ok {| RecordsWithID := RecordsWithID s; RecordsWithTime := <[key := er_Id record]> (RecordsWithTime s);
        RecordSequences := RecordSequences s; PendingVisibilityEvents := PendingVisibilityEvents s;
        BlockTimeReverseIndex := BlockTimeReverseIndex s; VisibilityHeightByID := VisibilityHeightByID s |}.
Definition SetEventRecordWithID (s : ClerkState) (record : EventRecord) : outcome ClerkState :=
  return_if HasEventRecord s (er_Id record) with ErrExists ;;
  Ok {| RecordsWithID := <[er_Id record := record]> (RecordsWithID s); RecordsWithTime := RecordsWithTime s;
        RecordSequences := RecordSequences s; PendingVisibilityEvents := PendingVisibilityEvents s;
        BlockTimeReverseIndex := BlockTimeReverseIndex s; VisibilityHeightByID := VisibilityHeightByID s |}.
(** [SetEventRecord] writes by id and then by time; the answer is the store it
    leaves, also on an error, and the error. *)
Definition SetEventRecord (s : ClerkState) (record : EventRecord) : ClerkState * outcome unit :=
  match SetEventRecordWithID s record with
  | Ok s1 =>
      match SetEventRecordWithTime s1 record with
      | Ok s2 => (s2, Ok tt)
      | Err e => (s1, Err e)
      | Panic => (s1, Panic)
      end
  | Err e => (s, Err e)
  | Panic => (s, Panic)
  end.

Definition SetRecordSequence (s : ClerkState) (sequence : string) : ClerkState :=
  if String.eqb sequence "" then s
  else {| RecordsWithID := RecordsWithID s; RecordsWithTime := RecordsWithTime s;
          RecordSequences := {[sequence]} ∪ RecordSequences s; PendingVisibilityEvents := PendingVisibilityEvents s;
          BlockTimeReverseIndex := BlockTimeReverseIndex s; VisibilityHeightByID := VisibilityHeightByID s |}.
Definition HasRecordSequence (s : ClerkState) (sequence : string) : bool := bool_decide (sequence ∈ RecordSequences s).
#[export] Instance record_sequence_checker : SequenceChecker ClerkState := HasRecordSequence.
Definition GetRecordSequences (s : ClerkState) : list string := sort_by id (elements (RecordSequences s)).

(** ** Keeper: lists *)

Definition IterateRecords (s : ClerkState) : list EventRecord := map snd (entries (RecordsWithID s)).
Definition GetAllEventRecords (s : ClerkState) : list EventRecord := IterateRecords s.
Definition MaxRecordListLimit : Z := 50.
(** A range of keys, the end excluded; the store refuses one that ends before its
    start. *)
Definition key_range {K A : Type} `{Countable K} {KO : KeyOrder K} (m : gmap K A) (start end_ : K) : outcome (list (K * A)) :=
  return_if kltb end_ start with ErrText "invalid iterator" ;;
  Ok (List.filter (fun e => negb (kltb e.1 start) && kltb e.1 end_) (entries m)).

Definition GetEventRecordList (s : ClerkState) (page limit : Z) : outcome (list EventRecord) :=
  return_if page =? 0 with ErrText "page cannot be 0" ;;
  return_if (limit =? 0) || (MaxRecordListLimit <? limit) with ErrText "limit" ;;
  let startRecordID := u64 (u64 (u64 (page - 1) * limit) + 1) in
  let endRecordID := u64 (u64 (page * limit) + 1) in
  records ← key_range (RecordsWithID s) startRecordID endRecordID;
  return_if (length records =? 0)%nat && (1 <? page) with ErrPage ;;
  Ok (map snd records).
Definition GetEventRecordListWithTime (s : ClerkState) (fromTime toTime : GoTime) (page limit : Z)
    : outcome (list EventRecord) :=
  return_if page =? 0 with ErrText "page cannot be 0" ;;
  return_if (limit =? 0) || (MaxRecordListLimit <? limit) with ErrText "limit" ;;
  stateIDs ← key_range (RecordsWithTime s) (fromTime, 0) (toTime, 0);
  let allRecords := omap (fun e : GoTime * Z * Z => RecordsWithID s !! e.2) stateIDs in
  let startIndex := i64 (u64 (u64 (page - 1) * limit)) in
  let endIndex := i64 (u64 (page * limit)) in
  let len := Z.of_nat (length allRecords) in
  return_if len <=? startIndex with ErrPage ;;
  let endIndex := if len <? endIndex then len else endIndex in
  panic_when (startIndex <? 0) || (endIndex <? startIndex) ;;
  Ok (take (Z.to_nat (endIndex - startIndex)) (drop (Z.to_nat startIndex) allRecords)).
Definition GetEventRecordCount (s : ClerkState) : Z :=
  match last (entries (RecordsWithID s)) with Some (id, _) => id | None => 0 end.

(** ** Keeper: visibility *)

Definition GetVisibilityHeightForEvent (s : ClerkState) (eventID : Z) : outcome Z :=
  of_option ErrNotFound (VisibilityHeightByID s !! eventID).
Definition AddPendingVisibilityEvent (s : ClerkState) (eventID : Z) : ClerkState :=
  {| RecordsWithID := RecordsWithID s; RecordsWithTime := RecordsWithTime s; RecordSequences := RecordSequences s;
     PendingVisibilityEvents := {[eventID]} ∪ PendingVisibilityEvents s;
     BlockTimeReverseIndex := BlockTimeReverseIndex s; VisibilityHeightByID := VisibilityHeightByID s |}.
Definition HasPendingVisibilityEvent (s : ClerkState) (eventID : Z) : bool :=
  bool_decide (eventID ∈ PendingVisibilityEvents s).

(** The body of the loop of [ProcessPendingVisibilityEvents]. *)
Definition assign_visibility (blockHeight : Z) (s : ClerkState) (eventID : Z) : ClerkState :=
  {| RecordsWithID := RecordsWithID s; RecordsWithTime := RecordsWithTime s; RecordSequences := RecordSequences s;
     PendingVisibilityEvents := PendingVisibilityEvents s ∖ {[eventID]};
     BlockTimeReverseIndex := BlockTimeReverseIndex s;
     VisibilityHeightByID := <[eventID := blockHeight]> (VisibilityHeightByID s) |}.
Definition ProcessPendingVisibilityEvents (ctx : Ctx) (s : ClerkState) : ClerkState :=
  let blockHeight := u64 (BlockHeight ctx) in
  fold_left (assign_visibility blockHeight) (sort_by id (elements (PendingVisibilityEvents s))) s.

Definition StoreBlockTime (ctx : Ctx) (s : ClerkState) : ClerkState :=
  let height := u64 (BlockHeight ctx) in
  let blockTime := u64 (BlockTime ctx) in
  {| RecordsWithID := RecordsWithID s; RecordsWithTime := RecordsWithTime s; RecordSequences := RecordSequences s;
     PendingVisibilityEvents := PendingVisibilityEvents s;
     BlockTimeReverseIndex := <[(blockTime, height) := height]> (BlockTimeReverseIndex s);
     VisibilityHeightByID := VisibilityHeightByID s |}.

(** The iterators descend, so they are at the last entry of their range. *)
Definition GetBlockHeightByTime (s : ClerkState) (cutoffUnix : Z) : outcome Z :=
  return_if cutoffUnix <=? 0 with ErrText "cutoff time must be positive" ;;
  let cutoff := u64 cutoffUnix in
  match last (List.filter (fun e : Z * Z * Z => negb (kltb (cutoff, MaxUint64) e.1)) (entries (BlockTimeReverseIndex s))) with
  | Some (_, height) => Ok (i64 height)
  | None => Err ErrNoBlockFound
  end.
Definition GetLatestIndexedBlockTime (s : ClerkState) : outcome Z :=
  match last (entries (BlockTimeReverseIndex s)) with
  | Some ((blockTime, _), _) => Ok (i64 blockTime)
  | None => Err ErrNoBlockFound
  end.

(** ** Messages *)

Record MsgEventRecord := {
  me_From : string; me_TxHash : string; me_LogIndex : Z; me_BlockNumber : Z; me_ContractAddress : string;
  me_Data : bytes; me_Id : Z; me_ChainId : string;
}.
Definition IsTxHashNonEmpty (s : string) : bool :=
  negb (String.eqb (string_of_list_ascii (trim_space (list_ascii_of_string s))) "").

(** The event of the state sender contract; the address is its text. *)
Record StatesenderStateSynced := { ss_Id : Z; ss_ContractAddress : string; ss_Data : bytes }.
Class ClerkEvents {RS : ReceiptSource} := {
  DecodeStateSyncedEvent : string -> Receipt -> Z -> option StatesenderStateSynced;
}.

Section handlers.
Context {AC : AddressCodec}.

Definition ValidateBasic_EventRecord (msg : MsgEventRecord) : outcome unit :=
  or_err (valid_from (me_From msg)) (ErrText "invalid address") ≫= fun _ =>
  or_err (StringToBytes (me_ContractAddress msg)) (ErrText "invalid address") ≫= fun _ =>
  return_if negb (IsTxHashNonEmpty (me_TxHash msg)) with ErrText "invalid tx hash" ;;
  return_if (MaxStateSyncSize <? length (me_Data msg))%nat with ErrText "size exceeded" ;;
  Ok tt.

Definition HandleMsgEventRecord (params : option ChainManagerParams) (s : ClerkState) (msg : MsgEventRecord) : outcome unit :=
  return_if HasEventRecord s (me_Id msg) with ErrText "event record already synced" ;;
  params ← of_option ErrNotFound params;
  return_if negb (ValidateChainID (me_ChainId msg) (BorChainId params)) with ErrText "invalid bor chain id" ;;
  return_if HasRecordSequence s (CalculateSequence (me_BlockNumber msg) (me_LogIndex msg)) with ErrOldEvents ;;
  Ok tt.

Context {RS : ReceiptSource} {CE : ClerkEvents}.

(** An event that is too large is recorded without its data. *)
Definition SideHandleMsgEventRecord (params : option ChainManagerParams) (s : ClerkState) (msg : MsgEventRecord)
    : outcome Vote :=
  vote_no_if HasEventRecord s (me_Id msg) ;;
  params <-some params ;;
  vote_no_if negb (ValidateChainID (me_ChainId msg) (BorChainId params)) ;;
  vote_no_if HasRecordSequence s (CalculateSequence (me_BlockNumber msg) (me_LogIndex msg)) ;;
  receipt <-some FetchAndValidateReceipt (HexToHash (me_TxHash msg)) (me_BlockNumber msg)
                   (MainChainTxConfirmations params) ;;
  eventLog <-some DecodeStateSyncedEvent (StateSenderAddress params) receipt (me_LogIndex msg) ;;
  vote_no_if negb (u64 (ss_Id eventLog) =? me_Id msg) ;;
  msgContractAddrBytes <-no StringToBytes (me_ContractAddress msg) ;;
  eventLogContractAddrBytes <-no StringToBytes (ss_ContractAddress eventLog) ;;
  vote_no_if negb (bool_decide (eventLogContractAddrBytes = msgContractAddrBytes)) ;;
  vote_no_if negb (bool_decide (ss_Data eventLog = me_Data msg))
             && ((length (ss_Data eventLog) <=? MaxStateSyncSize)%nat || negb (bool_decide (me_Data msg = []))) ;;
  Ok VOTE_YES.
End handlers.

(** [NewEventRecord] with the block time: the context and the nanoseconds past
    the second. *)
Definition NewEventRecord (msg : MsgEventRecord) (recordTime : GoTime) : EventRecord :=
  {| er_Id := me_Id msg; er_Contract := me_ContractAddress msg; er_Data := me_Data msg; er_TxHash := me_TxHash msg;
     er_LogIndex := me_LogIndex msg; er_BorChainId := me_ChainId msg; er_RecordTime := recordTime |}.

(** A message that was not approved is skipped without an error. *)
Definition PostHandleMsgEventRecord (cfg : Config) (ctx : Ctx) (nanos : Z) (s : ClerkState) (msg : MsgEventRecord)
    (sideTxResult : Vote) : outcome ClerkState :=
  if negb (IsSideTxApproved sideTxResult) then Ok s
  else
    return_if HasEventRecord s (me_Id msg) with ErrText "clerk record already processed" ;;
    let sequence := CalculateSequence (me_BlockNumber msg) (me_LogIndex msg) in
    let record := NewEventRecord msg (time_Unix (BlockTime ctx) nanos) in
    let '(s, r) := SetEventRecord s record in
    r ≫= fun _ =>
    let s := if IsZurichHardfork cfg (BlockHeight ctx) then AddPendingVisibilityEvent s (er_Id record) else s in
    Ok (SetRecordSequence s sequence).

(** ** The query for the records before a time *)

Record PageRequest := { pg_Key : option bytes; Offset : Z; Limit : Z; CountTotal : bool; Reverse : bool }.
Definition isPaginationEmpty (p : PageRequest) : bool :=
  bool_decide (pg_Key p = None) && (Offset p =? 0) && (Limit p =? 0) && negb (CountTotal p) && negb (Reverse p).
Record RecordListWithTimeRequest := { FromId : Z; ToTime : GoTime; Pagination : PageRequest }.
Definition MaxRecordListOffset : Z := 10000.
Definition maxRecordListScan : Z := MaxRecordListOffset + MaxRecordListLimit.

(** [Time.Before] and [Time.Unix] *)
Definition time_Before (t u : GoTime) : bool := time_After u t.
Definition unix_of (t : GoTime) : Z := i64 (t.1 - unixToInternal).

(** Records from an id on. *)
Definition records_from (s : ClerkState) (fromId : Z) : list EventRecord :=
  map snd (List.filter (fun e : Z * EventRecord => fromId <=? e.1) (entries (RecordsWithID s))).

(** The loop before Zurich: stops at the first record that is not before the time. *)
Fixpoint collect_legacy (toTime : GoTime) (skipped collected offset limit : Z) (l : list EventRecord) : list EventRecord :=
  match l with
  | [] => []
  | value :: rest =>
      if negb (time_Before (er_RecordTime value) toTime) then []
      else if skipped <? offset then collect_legacy toTime (skipped + 1) collected offset limit rest
      else if collected <? limit then value :: collect_legacy toTime skipped (collected + 1) offset limit rest
      else []
  end.
Definition recordListWithTimeLegacy (s : ClerkState) (request : RecordListWithTimeRequest) : list EventRecord :=
  collect_legacy (ToTime request) 0 0 (Offset (Pagination request)) (Limit (Pagination request))
    (records_from s (FromId request)).

Definition isRecordVisible (s : ClerkState) (value : EventRecord) (requestedHeight : Z) (toTime : GoTime) : outcome bool :=
  match GetVisibilityHeightForEvent s (er_Id value) with
  | Ok visibilityHeight =>
      Ok (if requestedHeight <? visibilityHeight then false else time_Before (er_RecordTime value) toTime)
  | Err e =>
      return_if negb (bool_decide (e = ErrNotFound)) with e ;;
      Ok (if HasPendingVisibilityEvent s (er_Id value) then false else time_Before (er_RecordTime value) toTime)
  | Panic => Panic
  end.

(** The loop of [recordListVisibleAtHeight]; it scans a bounded number of records. *)
Fixpoint collect_visible (s : ClerkState) (requestedHeight : Z) (toTime : GoTime) (scanned skipped collected offset limit : Z)
    (l : list EventRecord) : outcome (list EventRecord) :=
  match l with
  | [] => Ok []
  | value :: rest =>
      if maxRecordListScan <=? scanned then Ok []
      else
        visible ← isRecordVisible s value requestedHeight toTime;
        if negb visible then
          collect_visible s requestedHeight toTime (scanned + 1) skipped collected offset limit rest
        else if skipped <? offset then
          collect_visible s requestedHeight toTime (scanned + 1) (skipped + 1) collected offset limit rest
        else if collected <? limit then
          l ← collect_visible s requestedHeight toTime (scanned + 1) skipped (collected + 1) offset limit rest;
          Ok (value :: l)
        else Ok []
  end.
Definition recordListVisibleAtHeight (s : ClerkState) (fromId heimdallHeight : Z) (toTime : GoTime) (pagination : PageRequest)
    : outcome (list EventRecord) :=
  collect_visible s (u64 heimdallHeight) toTime 0 0 0 (Offset pagination) (Limit pagination) (records_from s fromId).

Definition recordListWithTimeDeterministic (s : ClerkState) (request : RecordListWithTimeRequest)
    : outcome (list EventRecord) :=
  let cutoffUnix := unix_of (ToTime request) in
  match GetLatestIndexedBlockTime s with
  | Panic => Panic
  | Err e => if bool_decide (e = ErrNoBlockFound) then Ok (recordListWithTimeLegacy s request) else Err e
  | Ok latestIndexedTime =>
      if latestIndexedTime <=? cutoffUnix then Ok []
      else
        match GetBlockHeightByTime s cutoffUnix with
        | Panic => Panic
        | Err e => if bool_decide (e = ErrNoBlockFound) then Ok (recordListWithTimeLegacy s request) else Err e
        | Ok height => recordListVisibleAtHeight s (FromId request) height (ToTime request) (Pagination request)
        end
  end.

Definition GetRecordListWithTime (cfg : Config) (ctx : Ctx) (s : ClerkState) (request : option RecordListWithTimeRequest)
    : outcome (list EventRecord) :=
  request ← of_option (ErrText "empty request") request;
  let p := Pagination request in
  return_if isPaginationEmpty p with ErrText "pagination request is empty" ;;
  return_if (Limit p =? 0) || (MaxRecordListLimit <? Limit p) with ErrText "limit" ;;
  return_if MaxRecordListOffset <? Offset p with ErrText "offset" ;;
  return_if FromId request <? 1 with ErrText "fromId" ;;
  return_if bool_decide (ToTime request = (0, 0)) with ErrText "to_time must be set" ;;
  return_if unix_of (ToTime request) <=? 0 with ErrText "to_time" ;;
  if IsZurichHardfork cfg (BlockHeight ctx) then recordListWithTimeDeterministic s request
  else Ok (recordListWithTimeLegacy s request).

(** ** The other queries *)

(** A nil request is [None]. *)
Definition GetRecordById (s : ClerkState) (request : option Z) : outcome EventRecord :=
  recordId ← of_option (ErrText "empty request") request;
  or_err (GetEventRecord s recordId) (ErrText "internal").
Definition GetRecordList (s : ClerkState) (request : option (Z * Z)) : outcome (list EventRecord) :=
  '(page, limit) ← of_option (ErrText "empty request") request;
  return_if page =? 0 with ErrText "page cannot be 0" ;;
  return_if (limit =? 0) || (MaxRecordListLimit <? limit) with ErrText "limit" ;;
  or_err (GetEventRecordList s page limit) (ErrText "internal").

Section receipts.
Context {RS : ReceiptSource}.

(** The sequence of the log of a confirmed transaction, if it is recorded; the
    request is the hash and the index of the log. *)
Definition recorded_sequence (params : option ChainManagerParams) (s : ClerkState) (request : option (string * Z))
    : outcome Z :=
  '(txHash, logIndex) ← of_option (ErrText "empty request") request;
  return_if negb (IsTxHashNonEmpty txHash) with ErrText "invalid tx hash" ;;
  params ← of_option (ErrText "internal") params;
  receipt ← of_option (ErrText "transaction is not confirmed yet")
              (GetConfirmedTxReceipt (HexToHash txHash) (MainChainTxConfirmations params));
  let sequence := ReceiptBlockNumber receipt * DefaultLogIndexUnit + logIndex in
  return_if negb (HasRecordSequence s (BigString sequence)) with ErrText "record sequence not found" ;;
  Ok sequence.
Definition GetRecordSequence (params : option ChainManagerParams) (s : ClerkState) (request : option (string * Z))
    : outcome Z :=
  sequence ← recorded_sequence params s request; Ok (u64 sequence).
Definition IsClerkTxOld (params : option ChainManagerParams) (s : ClerkState) (request : option (string * Z))
    : outcome bool :=
  _ ← recorded_sequence params s request; Ok true.
End receipts.
(** [GetRecordCount] *)
Definition GetRecordCount (s : ClerkState) : Z := GetEventRecordCount s.

(** ** Genesis *)

Record ClerkGenesis := {
  g_EventRecords : list EventRecord; g_RecordSequences : list string; PendingVisibilityEventIds : list Z;
  VisibilityHeightsById : list (Z * Z); BlockTimeEntries : list (Z * Z);
}.
Definition empty_clerk : ClerkState :=
  {| RecordsWithID := ∅; RecordsWithTime := ∅; RecordSequences := ∅; PendingVisibilityEvents := ∅;
     BlockTimeReverseIndex := ∅; VisibilityHeightByID := ∅ |}.
Definition Validate (data : ClerkGenesis) : outcome unit :=
  return_if existsb (fun sq => String.eqb sq "") (g_RecordSequences data) with ErrText "invalid sequence" ;; Ok tt.
(** Errors are logged, and the loop goes on. *)
Definition InitGenesis (s : ClerkState) (data : ClerkGenesis) : ClerkState :=
  let s := fold_left (fun s record => (SetEventRecord s record).1) (g_EventRecords data) s in
  let s := fold_left SetRecordSequence (g_RecordSequences data) s in
  let s := fold_left AddPendingVisibilityEvent (PendingVisibilityEventIds data) s in
  let s := fold_left (fun s (e : Z * Z) =>
             {| RecordsWithID := RecordsWithID s; RecordsWithTime := RecordsWithTime s; RecordSequences := RecordSequences s;
                PendingVisibilityEvents := PendingVisibilityEvents s; BlockTimeReverseIndex := BlockTimeReverseIndex s;
                VisibilityHeightByID := <[e.1 := e.2]> (VisibilityHeightByID s) |}) (VisibilityHeightsById data) s in
  fold_left (fun s (e : Z * Z) =>
    {| RecordsWithID := RecordsWithID s; RecordsWithTime := RecordsWithTime s; RecordSequences := RecordSequences s;
       PendingVisibilityEvents := PendingVisibilityEvents s;
       BlockTimeReverseIndex := <[(e.1, e.2) := e.2]> (BlockTimeReverseIndex s);
       VisibilityHeightByID := VisibilityHeightByID s |}) (BlockTimeEntries data) s.
Definition ExportGenesis (s : ClerkState) : ClerkGenesis :=
  {| g_EventRecords := GetAllEventRecords s; g_RecordSequences := GetRecordSequences s;
     PendingVisibilityEventIds := sort_by id (elements (PendingVisibilityEvents s));
     VisibilityHeightsById := entries (VisibilityHeightByID s);
     BlockTimeEntries := map fst (entries (BlockTimeReverseIndex s)) |}.
