(* ===== verification/ClerkCorrect.v ===== *)
(** * State-sync events: correctness

    The answer to a query for the records before a time never changes once a block
    after that time is committed; a new record becomes visible in the next block;
    an event is recorded once and as the main chain has it. *)
From S2P Require Import Prelude SortedList Helpers External VoteTypes StakeHandlers Numerals Clerk.
#[local] Open Scope Z_scope.

(** ** Visibility of the stored records *)

Definition in_time (ctx : Ctx) : Prop := 0 <= BlockHeight ctx < 2 ^ 62 /\ 0 <= BlockTime ctx < 2 ^ 62.

(** The store at a block. *)
Record visibility_ok (ctx : Ctx) (s : ClerkState) : Prop := {
  vo_ids id r : RecordsWithID s !! id = Some r -> er_Id r = id;
  vo_pending id : id ∈ PendingVisibilityEvents s ->
    is_Some (RecordsWithID s !! id) /\ VisibilityHeightByID s !! id = None;
  vo_heights id h : VisibilityHeightByID s !! id = Some h ->
    is_Some (RecordsWithID s !! id) /\ h <= BlockHeight ctx;
  vo_index t h x : BlockTimeReverseIndex s !! (t, h) = Some x ->
    x = h /\ 0 <= h <= BlockHeight ctx /\ 0 <= t <= BlockTime ctx;
}.

(** A record that no query at a height up to [h0] lists. *)
Definition hidden (h0 : Z) (s : ClerkState) (id : Z) : Prop :=
  id ∈ PendingVisibilityEvents s \/ exists h, VisibilityHeightByID s !! id = Some h /\ h0 < h.

(** ** The effect of the operations *)

Lemma assign_visibility_fold h ids : forall s,
  let s' := fold_left (assign_visibility h) ids s in
  RecordsWithID s' = RecordsWithID s /\ RecordsWithTime s' = RecordsWithTime s /\
  RecordSequences s' = RecordSequences s /\ BlockTimeReverseIndex s' = BlockTimeReverseIndex s /\
  (forall id, id ∈ PendingVisibilityEvents s' <-> id ∈ PendingVisibilityEvents s /\ id ∉ ids) /\
  (forall id, VisibilityHeightByID s' !! id = if decide (id ∈ ids) then Some h else VisibilityHeightByID s !! id).
Proof.
  induction ids as [|i ids IH]; intros s; cbn [fold_left].
  - do 4 (split; [done|]). split; [set_solver|]. intros id. by rewrite decide_False by set_solver.
  - destruct (IH (assign_visibility h s i)) as (E1 & E2 & E3 & E4 & E5 & E6). cbn [assign_visibility] in *.
    do 4 (split; [done|]). split.
    + intros id. rewrite E5. cbn. set_solver.
    + intros id. rewrite E6. cbn. destruct (decide (id = i)) as [->|Hne].
      * rewrite lookup_insert_eq. rewrite (decide_True (P := i ∈ i :: ids)) by set_solver. by case_decide.
      * rewrite lookup_insert_ne by done. apply decide_ext. set_solver.
Qed.

Lemma ProcessPending_spec ctx s : in_time ctx ->
  let s' := ProcessPendingVisibilityEvents ctx s in
  RecordsWithID s' = RecordsWithID s /\ RecordSequences s' = RecordSequences s /\
  BlockTimeReverseIndex s' = BlockTimeReverseIndex s /\
  PendingVisibilityEvents s' = ∅ /\
  (forall id, VisibilityHeightByID s' !! id
     = if decide (id ∈ PendingVisibilityEvents s) then Some (BlockHeight ctx) else VisibilityHeightByID s !! id).
Proof.
  intros [Hh _]. unfold ProcessPendingVisibilityEvents.
  assert (u64 (BlockHeight ctx) = BlockHeight ctx) as -> by (apply u64_id; unfold in_u64, MaxUint64; lia).
  destruct (assign_visibility_fold (BlockHeight ctx) (sort_by id (elements (PendingVisibilityEvents s))) s)
    as (E1 & _ & E3 & E4 & E5 & E6). cbn zeta.
  assert (forall id, id ∈ sort_by (A := Z) Datatypes.id (elements (PendingVisibilityEvents s)) <-> id ∈ PendingVisibilityEvents s) as Hel.
  { intros id. by rewrite sort_by_perm, elem_of_elements. }
  do 3 (split; [done|]). split.
  - apply set_eq. intros id. rewrite E5, Hel. set_solver.
  - intros id. rewrite E6. apply decide_ext, Hel.
Qed.

Lemma SetEventRecord_ok s r s' : SetEventRecord s r = (s', Ok tt) ->
  RecordsWithID s !! er_Id r = None /\ RecordsWithID s' = <[er_Id r := r]> (RecordsWithID s) /\
  RecordSequences s' = RecordSequences s /\ PendingVisibilityEvents s' = PendingVisibilityEvents s /\
  BlockTimeReverseIndex s' = BlockTimeReverseIndex s /\ VisibilityHeightByID s' = VisibilityHeightByID s.
Proof.
  unfold SetEventRecord, SetEventRecordWithID, HasEventRecord.
  case_bool_decide as Hr; cbn [fail_if]; [done|]. unfold SetEventRecordWithTime.
  case_bool_decide; cbn [fail_if]; [done|]. intros [= <-].
  split_and!; try done. by apply eq_None_not_Some.
Qed.

(** An approved record is new; from Zurich on it is pending. *)
Lemma post_event_ok cfg ctx nanos s msg s' :
  PostHandleMsgEventRecord cfg ctx nanos s msg VOTE_YES = Ok s' ->
  let r := NewEventRecord msg (time_Unix (BlockTime ctx) nanos) in
  RecordsWithID s !! me_Id msg = None /\ RecordsWithID s' = <[me_Id msg := r]> (RecordsWithID s) /\
  BlockTimeReverseIndex s' = BlockTimeReverseIndex s /\ VisibilityHeightByID s' = VisibilityHeightByID s /\
  PendingVisibilityEvents s' = (if IsZurichHardfork cfg (BlockHeight ctx) then {[me_Id msg]} ∪ PendingVisibilityEvents s
                                else PendingVisibilityEvents s) /\
  (CalculateSequence (me_BlockNumber msg) (me_LogIndex msg) <> ""%string ->
   RecordSequences s' = {[CalculateSequence (me_BlockNumber msg) (me_LogIndex msg)]} ∪ RecordSequences s).
Proof.
  unfold PostHandleMsgEventRecord. intros H.
  change (negb (IsSideTxApproved VOTE_YES)) with false in H. cbn iota in H. ok_step H.
  destruct (SetEventRecord s _) as [s1 r1] eqn:E1. ok_step H. destruct a. subst r1.
  apply SetEventRecord_ok in E1 as (E0 & E1 & E2 & E3 & E4 & E5). cbn [NewEventRecord er_Id] in *.
  injection H as <-. unfold SetRecordSequence.
  destruct (IsZurichHardfork cfg (BlockHeight ctx)), (String.eqb_spec (CalculateSequence (me_BlockNumber msg) (me_LogIndex msg)) "");
    cbn; split_and!; try done; congruence.
Qed.

(** ** Histories of blocks

    The store at a block ([ctx]) moves to the next block, whose pre-blocker gives
    the pending records their height and indexes the block, or a message of the
    block is post-handled. *)
Section history.
Context (cfg : Config).

Inductive clerk_step : Ctx * ClerkState -> Ctx * ClerkState -> Prop :=
| step_block ctx ctx' s :
    BlockHeight ctx' = BlockHeight ctx + 1 -> BlockTime ctx <= BlockTime ctx' -> in_time ctx' ->
    IsZurichHardfork cfg (BlockHeight ctx') = true ->
    clerk_step (ctx, s) (ctx', StoreBlockTime ctx' (ProcessPendingVisibilityEvents ctx' s))
| step_event ctx nanos s msg s' :
    PostHandleMsgEventRecord cfg ctx nanos s msg VOTE_YES = Ok s' -> clerk_step (ctx, s) (ctx, s').

Lemma zurich_mono h h' : h <= h' -> IsZurichHardfork cfg h = true -> IsZurichHardfork cfg h' = true.
Proof. unfold IsZurichHardfork. rewrite !andb_true_iff, !Z.ltb_lt, !Z.leb_le. lia. Qed.

Lemma step_visibility_ok w w' : clerk_step w w' -> in_time w.1 -> visibility_ok w.1 w.2 ->
  in_time w'.1 /\ visibility_ok w'.1 w'.2.
Proof.
  intros Hstep Ht [H1 H2 H3 H4]. destruct Hstep as [ctx ctx' s Eh Et Ht' Hz|ctx nanos s msg s' H]; cbn [fst snd] in *.
  - split; [done|]. destruct (ProcessPending_spec ctx' s Ht') as (E1 & E2 & E3 & E4 & E5).
    assert (u64 (BlockHeight ctx') = BlockHeight ctx' /\ u64 (BlockTime ctx') = BlockTime ctx') as [Eu1 Eu2].
    { destruct Ht' as [? ?]. split; apply u64_id; unfold in_u64, MaxUint64; lia. }
    unfold StoreBlockTime. rewrite Eu1, Eu2. split; cbn; rewrite ?E1, ?E3, ?E4.
    + apply H1.
    + set_solver.
    + intros id h. rewrite E5. case_decide as Hd.
      * intros [= <-]. split; [by apply H2|lia].
      * intros Hh. destruct (H3 _ _ Hh). split; [done|lia].
    + intros t h x. destruct Ht' as [? ?], Ht as [? ?]. destruct (decide ((t, h) = (BlockTime ctx', BlockHeight ctx'))) as [E|Hne].
      * rewrite E, lookup_insert_eq. injection E as -> ->. intros [= <-]. lia.
      * rewrite lookup_insert_ne by done. intros Hx. destruct (H4 _ _ _ Hx) as (? & ? & ?). split; [done|]. lia.
  - split; [done|]. apply post_event_ok in H as (En & E1 & E2 & E3 & E4 & _). cbn zeta in *.
    split; rewrite ?E1, ?E2, ?E3, ?E4.
    + intros id r. destruct (decide (id = me_Id msg)) as [->|Hne].
      * rewrite lookup_insert_eq. by intros [= <-].
      * rewrite lookup_insert_ne by done. apply H1.
    + intros id. destruct (decide (id = me_Id msg)) as [->|Hne].
      * intros _. rewrite lookup_insert_eq. split; [done|]. destruct (VisibilityHeightByID s !! me_Id msg) eqn:E; [|done].
        destruct (H3 _ _ E) as [[? ?] _]. congruence.
      * rewrite lookup_insert_ne by done. intros Hin. apply H2. destruct (IsZurichHardfork _ _); set_solver.
    + intros id h Hh. destruct (H3 _ _ Hh) as [[r Hr] ?]. split; [|done].
      rewrite lookup_insert_ne by congruence. eauto.
    + apply H4.
Qed.

(** What a later store keeps of the store at a block of height [h0] and time [t0]. *)
Record extends (h0 t0 : Z) (s s' : ClerkState) : Prop := {
  ex_old id r : RecordsWithID s !! id = Some r -> RecordsWithID s' !! id = Some r;
  ex_new id r : RecordsWithID s !! id = None -> RecordsWithID s' !! id = Some r -> hidden h0 s' id;
  ex_height id h : VisibilityHeightByID s !! id = Some h -> VisibilityHeightByID s' !! id = Some h;
  ex_pending id : id ∈ PendingVisibilityEvents s -> hidden h0 s' id;
  ex_legacy id : is_Some (RecordsWithID s !! id) -> VisibilityHeightByID s !! id = None ->
    id ∉ PendingVisibilityEvents s -> VisibilityHeightByID s' !! id = None /\ id ∉ PendingVisibilityEvents s';
  ex_index k x : BlockTimeReverseIndex s !! k = Some x -> BlockTimeReverseIndex s' !! k = Some x;
  ex_index_new k x : BlockTimeReverseIndex s' !! k = Some x -> BlockTimeReverseIndex s !! k = Some x \/ t0 <= k.1;
}.

Lemma extends_refl h0 t0 s : extends h0 t0 s s.
Proof. split; try done; [congruence|by left|by left]. Qed.

Lemma hidden_block h0 ctx' s id : in_time ctx' -> h0 < BlockHeight ctx' -> hidden h0 s id ->
  hidden h0 (StoreBlockTime ctx' (ProcessPendingVisibilityEvents ctx' s)) id.
Proof.
  intros Ht Hh H. destruct (ProcessPending_spec ctx' s Ht) as (_ & _ & _ & _ & E5).
  right. cbn. setoid_rewrite E5. case_decide as Hd; [eauto|]. by destruct H as [?|?].
Qed.

Lemma step_extends h0 t0 s w w' : clerk_step w w' -> in_time w.1 -> visibility_ok w.1 w.2 ->
  IsZurichHardfork cfg (BlockHeight w.1) = true -> h0 <= BlockHeight w.1 -> t0 <= BlockTime w.1 ->
  extends h0 t0 s w.2 -> extends h0 t0 s w'.2 /\ h0 <= BlockHeight w'.1 /\ t0 <= BlockTime w'.1.
Proof.
  intros Hstep Ht Hok Hz Hh Htm [X1 X2 X3 X4 X5 X6 X7].
  destruct Hstep as [ctx ctx' s1 Eh Et Ht' _|ctx nanos s1 msg s' H]; cbn [fst snd] in *.
  - split; [|lia]. destruct (ProcessPending_spec ctx' s1 Ht') as (E1 & E2 & E3 & E4 & E5).
    split; cbn; rewrite ?E1, ?E3, ?E4.
    + apply X1.
    + intros id r Hn Hs. apply hidden_block; [done|lia|by eapply X2].
    + intros id h Hv. rewrite E5, decide_False; [by apply X3|].
      intros Hp. apply (vo_pending _ _ Hok) in Hp as [_ Hp]. rewrite (X3 _ _ Hv) in Hp. discriminate.
    + intros id Hp. apply hidden_block; [done|lia|by apply X4].
    + intros id Hr Hv Hp. destruct (X5 id Hr Hv Hp) as [H1 H2]. split; [|set_solver]. by rewrite E5, decide_False.
    + intros k x Hx. assert (u64 (BlockHeight ctx') = BlockHeight ctx') as ->.
      { apply u64_id. destruct Ht'. unfold in_u64, MaxUint64. lia. }
      rewrite lookup_insert_ne; [by apply X6|]. intros <-. apply X6 in Hx.
      destruct (vo_index _ _ Hok _ _ _ Hx) as (_ & ? & _). lia.
    + intros k x. destruct (decide (k = (u64 (BlockTime ctx'), u64 (BlockHeight ctx')))) as [->|Hne].
      * intros _. right. cbn. rewrite u64_id by (destruct Ht'; unfold in_u64, MaxUint64; lia). lia.
      * rewrite lookup_insert_ne by done. apply X7.
  - split; [|lia]. apply post_event_ok in H as (En & E1 & E2 & E3 & E4 & _). cbn zeta in *. rewrite Hz in E4.
    assert (forall id, hidden h0 s1 id -> hidden h0 s' id) as Hmono.
    { intros id [Hp|Hv]; [left; rewrite E4; set_solver|right; by rewrite E3]. }
    split; rewrite ?E1, ?E2, ?E3, ?E4.
    + intros id r Hs. apply X1 in Hs. rewrite lookup_insert_ne by congruence. done.
    + intros id r Hn. destruct (decide (id = me_Id msg)) as [->|Hne]; [intros _; left; rewrite E4; set_solver|].
      rewrite lookup_insert_ne by done. intros Hs. by eapply Hmono, X2.
    + apply X3.
    + intros id Hp. by apply Hmono, X4.
    + intros id [r Hr] Hv Hp. destruct (X5 id) as [H1 H2]; [eauto|done..|]. split; [done|].
      apply X1 in Hr. intros [->%elem_of_singleton|?]%elem_of_union; [congruence|done].
    + apply X6.
    + apply X7.
Qed.

Lemma history_extends w w' : rtc clerk_step w w' -> in_time w.1 -> visibility_ok w.1 w.2 ->
  IsZurichHardfork cfg (BlockHeight w.1) = true ->
  extends (BlockHeight w.1) (BlockTime w.1) w.2 w'.2 /\ visibility_ok w'.1 w'.2 /\
  BlockHeight w.1 <= BlockHeight w'.1.
Proof.
  intros Hrtc Ht Hok Hz. set (inv w' := extends (BlockHeight w.1) (BlockTime w.1) w.2 w'.2 /\
    (in_time w'.1 /\ visibility_ok w'.1 w'.2) /\ BlockHeight w.1 <= BlockHeight w'.1 /\ BlockTime w.1 <= BlockTime w'.1).
  assert (inv w') as (? & [? ?] & ? & ?); [|done]. apply (rtc_ind_r (R := clerk_step) inv w); [..|done].
  - split; [apply extends_refl|split; [done|lia]].
  - intros w1 w2 _ Hstep (Hx & [Ht1 Hok1] & Hh & Htm).
    destruct (step_extends _ _ _ _ _ Hstep Ht1 Hok1 (zurich_mono _ _ Hh Hz) Hh Htm Hx) as (Hx' & ? & ?).
    split; [done|]. split; [by eapply step_visibility_ok|done].
Qed.
End history.

(** ** The query *)

(** Whether a record is listed at a height. *)
Definition visible_at (s : ClerkState) (height : Z) (toTime : GoTime) (r : EventRecord) : bool :=
  match VisibilityHeightByID s !! er_Id r with
  | Some h => negb (height <? h) && time_Before (er_RecordTime r) toTime
  | None => negb (HasPendingVisibilityEvent s (er_Id r)) && time_Before (er_RecordTime r) toTime
  end.

Lemma isRecordVisible_ok s r height toTime : isRecordVisible s r height toTime = Ok (visible_at s height toTime r).
Proof.
  unfold isRecordVisible, visible_at, GetVisibilityHeightForEvent.
  destruct (VisibilityHeightByID s !! er_Id r) as [h|]; cbn [of_option].
  - by destruct (height <? h).
  - rewrite bool_decide_eq_true_2 by done. cbn [negb fail_if]. by destruct (HasPendingVisibilityEvent s (er_Id r)).
Qed.

(** With room to scan, the loop lists a page of the visible records. *)
Lemma collect_visible_spec s height toTime offset limit l : forall scanned skipped collected,
  scanned + Z.of_nat (length l) <= maxRecordListScan ->
  collect_visible s height toTime scanned skipped collected offset limit l
  = Ok (take (Z.to_nat (limit - collected)) (drop (Z.to_nat (offset - skipped)) (List.filter (visible_at s height toTime) l))).
Proof.
  induction l as [|r l IH]; intros scanned skipped collected Hl; cbn [collect_visible List.filter].
  - by rewrite drop_nil, take_nil.
  - cbn [length] in Hl. rewrite (proj2 (Z.leb_gt _ _)) by lia. rewrite isRecordVisible_ok. cbn [mbind outcome_bind].
    destruct (visible_at s height toTime r); cbn [negb]; [|by rewrite IH by lia].
    destruct (Z.ltb_spec skipped offset) as [Hs|Hs].
    + rewrite IH by lia. by replace (Z.to_nat (offset - skipped)) with (S (Z.to_nat (offset - (skipped + 1)))) by lia.
    + replace (Z.to_nat (offset - skipped)) with 0%nat in * by lia. rewrite drop_0.
      destruct (Z.ltb_spec collected limit) as [Hc|Hc].
      * rewrite IH by lia. replace (Z.to_nat (limit - collected)) with (S (Z.to_nat (limit - (collected + 1)))) by lia.
        replace (Z.to_nat (offset - skipped)) with 0%nat by lia. by rewrite drop_0.
      * by replace (Z.to_nat (limit - collected)) with 0%nat by lia.
Qed.

Lemma filter_records_from s (f : EventRecord -> bool) fromId :
  List.filter f (records_from s fromId)
  = map snd (List.filter (fun e : Z * EventRecord => (fromId <=? e.1) && f e.2) (entries (RecordsWithID s))).
Proof.
  unfold records_from. induction (entries (RecordsWithID s)) as [|e l IH]; [done|]. cbn [List.filter].
  destruct (fromId <=? e.1); cbn [andb map List.filter]; [|done]. destruct (f e.2); cbn [map]; by rewrite IH.
Qed.

(** The records visible at a height below the block of [s] are the same later. *)
Lemma visible_records_same h0 t0 s s' height toTime fromId : height <= h0 ->
  (forall id r, RecordsWithID s !! id = Some r -> er_Id r = id) ->
  (forall id r, RecordsWithID s' !! id = Some r -> er_Id r = id) ->
  (forall id h, VisibilityHeightByID s' !! id = Some h -> id ∉ PendingVisibilityEvents s') ->
  extends h0 t0 s s' ->
  List.filter (visible_at s' height toTime) (records_from s' fromId)
  = List.filter (visible_at s height toTime) (records_from s fromId).
Proof.
  intros Hh Hk Hk' Hdis X. rewrite !filter_records_from. f_equal. apply filter_entries_eq. intros id r. cbn.
  assert (forall i, hidden h0 s' i -> er_Id r = i -> visible_at s' height toTime r = false) as Hhid.
  { intros i Hi <-. unfold visible_at. destruct (VisibilityHeightByID s' !! er_Id r) as [h|] eqn:E.
    - destruct Hi as [Hi|(h' & Eh & Hlt)]; [by destruct (Hdis _ _ E)|]. rewrite E in Eh. injection Eh as <-.
      by rewrite (proj2 (Z.ltb_lt _ _)) by lia.
    - destruct Hi as [Hi|(h' & Eh & _)]; [|congruence]. unfold HasPendingVisibilityEvent. by rewrite bool_decide_eq_true_2. }
  rewrite !andb_true_iff. split.
  - intros (Hs & Hf & Hv). destruct (RecordsWithID s !! id) as [r0|] eqn:E0.
    + pose proof (ex_old _ _ _ _ X _ _ E0) as E. rewrite Hs in E. injection E as <-. split; [done|]. split; [done|].
      specialize (Hk _ _ E0). rewrite <- Hv. subst id. unfold visible_at.
      destruct (VisibilityHeightByID s !! er_Id r) as [h|] eqn:Eh; [by rewrite (ex_height _ _ _ _ X _ _ Eh)|].
      unfold HasPendingVisibilityEvent. case_bool_decide as Hp.
      * rewrite (Hhid (er_Id r)) in Hv; [discriminate|by eapply ex_pending|done].
      * destruct (ex_legacy _ _ _ _ X (er_Id r)) as [-> Hp']; [eauto|done..|]. by rewrite bool_decide_eq_false_2.
    + rewrite (Hhid id) in Hv; [discriminate|by eapply ex_new|by eapply Hk'].
  - intros (Hs & Hf & Hv). split; [by apply (ex_old _ _ _ _ X)|]. split; [done|].
    specialize (Hk _ _ Hs). subst id. revert Hv. unfold visible_at.
    destruct (VisibilityHeightByID s !! er_Id r) as [h|] eqn:Eh; [by rewrite (ex_height _ _ _ _ X _ _ Eh)|].
    unfold HasPendingVisibilityEvent. case_bool_decide as Hp; [done|].
    destruct (ex_legacy _ _ _ _ X (er_Id r)) as [-> Hp']; [eauto|done..|]. by rewrite bool_decide_eq_false_2.
Qed.

Lemma records_from_length h0 t0 s s' fromId : extends h0 t0 s s' ->
  (length (records_from s fromId) <= length (records_from s' fromId))%nat.
Proof.
  intros X. unfold records_from. rewrite !length_map. apply submseteq_length, NoDup_submseteq.
  - apply NoDup_ListNoDup, List.NoDup_filter, NoDup_ListNoDup. rewrite entries_perm. apply NoDup_map_to_list.
  - intros [id r]. rewrite !list_elem_of_In, !filter_In, <- !list_elem_of_In, !elem_of_entries.
    intros [Hr Hf]. split; [by apply (ex_old _ _ _ _ X)|done].
Qed.

Lemma last_entries {K A : Type} `{Countable K} {KO : KeyOrder K} (m : gmap K A) k a :
  last (entries m) = Some (k, a) -> m !! k = Some a /\ forall k' a', m !! k' = Some a' -> kltb k k' = false.
Proof.
  intros Hl. assert (List.filter (fun _ => true) (entries m) = entries m) as E.
  { clear Hl. induction (entries m) as [|e l IH]; [done|]. cbn [List.filter]. by rewrite IH. }
  rewrite <- E in Hl. apply last_filter_entries in Hl as (H1 & _ & H3). split; [done|].
  intros k' a' Hk. by eapply H3.
Qed.

(** The gate stays open. *)
Lemma latest_grows s s' t :
  (forall k x, BlockTimeReverseIndex s !! k = Some x -> BlockTimeReverseIndex s' !! k = Some x) ->
  (forall k x, BlockTimeReverseIndex s' !! k = Some x -> 0 <= k.1 < 2 ^ 62) ->
  GetLatestIndexedBlockTime s = Ok t -> exists t', GetLatestIndexedBlockTime s' = Ok t' /\ t <= t'.
Proof.
  intros X Hr. unfold GetLatestIndexedBlockTime.
  destruct (last (entries (BlockTimeReverseIndex s))) as [[[t1 h1] x1]|] eqn:E; [|done]. intros [= <-].
  apply last_entries in E as [E _]. assert (BlockTimeReverseIndex s' !! (t1, h1) = Some x1) as E'.
  { by apply X. }
  destruct (last (entries (BlockTimeReverseIndex s'))) as [[[t2 h2] x2]|] eqn:E2.
  - apply last_entries in E2 as [E2 Hmax]. exists (i64 t2). split; [done|]. specialize (Hmax _ _ E'). cbn in Hmax.
    apply orb_false_iff in Hmax as [Hmax _]. pose proof (Hr _ _ E'). pose proof (Hr _ _ E2). cbn in *.
    rewrite !i64_id by (unfold in_i64, MinInt64, MaxInt64; lia). lia.
  - apply last_None in E2. assert ((t1, h1, x1) ∈ entries (BlockTimeReverseIndex s')) as Hin by by apply elem_of_entries.
    rewrite E2 in Hin. by apply not_elem_of_nil in Hin.
Qed.

(** The height of a time before the last indexed block is settled. *)
Lemma height_same h0 t0 s s' cutoff : extends h0 t0 s s' -> cutoff < t0 < 2 ^ 62 ->
  GetBlockHeightByTime s' cutoff = GetBlockHeightByTime s cutoff.
Proof.
  intros X Hc. unfold GetBlockHeightByTime. destruct (Z.leb_spec cutoff 0) as [|Hpos]; [done|]. cbn [fail_if].
  f_equal. rewrite (u64_id cutoff) by (unfold in_u64, MaxUint64; lia).
  rewrite (filter_entries_eq _ (fun e : Z * Z * Z => negb (kltb (cutoff, MaxUint64) e.1)) (BlockTimeReverseIndex s')
    (BlockTimeReverseIndex s)); [done|]. intros [t h] x. split; intros [H1 H2]; (split; [|done]).
  - destruct (ex_index_new _ _ _ _ X _ _ H1) as [?|Ht]; [done|]. cbn in H2, Ht.
    rewrite (proj2 (Z.ltb_lt _ _)) in H2 by lia. discriminate.
  - by apply (ex_index _ _ _ _ X).
Qed.

Lemma height_bound ctx s cutoff h : in_time ctx -> visibility_ok ctx s ->
  GetBlockHeightByTime s cutoff = Ok h -> 0 <= h <= BlockHeight ctx.
Proof.
  intros [Ht _] Hok. unfold GetBlockHeightByTime, fail_if. destruct (cutoff <=? 0); [done|].
  destruct (last _) as [[[t h1] x]|] eqn:E; [|done]. intros [= <-].
  apply last_filter_entries in E as (E & _ & _). destruct (vo_index _ _ Hok _ _ _ E) as (-> & ? & _).
  rewrite i64_id by (unfold in_i64, MinInt64, MaxInt64; lia). lia.
Qed.

Lemma frozen_query cfg w w' request t h : rtc (clerk_step cfg) w w' -> in_time w.1 -> visibility_ok w.1 w.2 ->
  IsZurichHardfork cfg (BlockHeight w.1) = true ->
  GetLatestIndexedBlockTime w.2 = Ok t -> unix_of (ToTime request) < t ->
  GetBlockHeightByTime w.2 (unix_of (ToTime request)) = Ok h ->
  Z.of_nat (length (records_from w'.2 (FromId request))) <= maxRecordListScan ->
  recordListWithTimeDeterministic w'.2 request = recordListWithTimeDeterministic w.2 request.
Proof.
  intros Hrtc Ht Hok Hz Hl Hc Hh Hlen.
  assert (in_time w'.1) as Ht'.
  { clear -Hrtc Ht Hok. induction Hrtc as [|w1 w2 w3 Hs _ IH]; [done|]. apply IH; by eapply step_visibility_ok. }
  destruct (history_extends cfg w w' Hrtc Ht Hok Hz) as (X & Hok' & Hle).
  assert (forall c s0, in_time c -> visibility_ok c s0 -> forall k x, BlockTimeReverseIndex s0 !! k = Some x -> 0 <= k.1 < 2 ^ 62) as Hr.
  { intros c s0 [_ Hb] Hk [t1 h1] x Hx. destruct (vo_index _ _ Hk _ _ _ Hx) as (_ & _ & ?). cbn. lia. }
  assert (t <= BlockTime w.1) as Htb.
  { unfold GetLatestIndexedBlockTime in Hl. destruct (last (entries (BlockTimeReverseIndex w.2))) as [[[t1 h1] x1]|] eqn:E; [|done].
    injection Hl as <-. apply last_entries in E as [E _]. destruct (vo_index _ _ Hok _ _ _ E) as (_ & _ & ?).
    destruct Ht. rewrite i64_id by (unfold in_i64, MinInt64, MaxInt64; lia). lia. }
  destruct (latest_grows w.2 w'.2 t (ex_index _ _ _ _ X) (Hr _ _ Ht' Hok') Hl) as (t' & Hl' & Htt).
  pose proof (height_bound _ _ _ _ Ht Hok Hh) as Hhb. destruct Ht as [Hth Htt'].
  unfold recordListWithTimeDeterministic. rewrite Hl, Hl', !(proj2 (Z.leb_gt _ _)) by lia.
  rewrite (height_same _ _ _ _ _ X) by lia. rewrite Hh. unfold recordListVisibleAtHeight.
  rewrite u64_id by (unfold in_u64, MaxUint64; lia).
  pose proof (records_from_length _ _ _ _ (FromId request) X).
  rewrite !collect_visible_spec by lia. do 3 f_equal.
  apply (visible_records_same (BlockHeight w.1) (BlockTime w.1)); try apply Hok; try apply Hok'; try done; [lia|].
  intros id h1 Hv Hp. apply (vo_pending _ _ Hok') in Hp as [_ Hp]. congruence.
Qed.

(** ** From the event to the record *)

(** The state-sync event the message repeats: the data of one that is too large is
    left out. *)
Definition state_synced {AC : AddressCodec} {RS : ReceiptSource} {CE : ClerkEvents} (params : ChainManagerParams)
    (msg : MsgEventRecord) : Prop :=
  exists receipt ev addr,
    GetConfirmedTxReceipt (HexToHash (me_TxHash msg)) (MainChainTxConfirmations params) = Some receipt /\
    u64 (ReceiptBlockNumber receipt) = me_BlockNumber msg /\
    DecodeStateSyncedEvent (StateSenderAddress params) receipt (me_LogIndex msg) = Some ev /\
    u64 (ss_Id ev) = me_Id msg /\ StringToBytes (me_ContractAddress msg) = Ok addr /\
    StringToBytes (ss_ContractAddress ev) = Ok addr /\
    (me_Data msg = ss_Data ev \/ me_Data msg = [] /\ (MaxStateSyncSize < length (ss_Data ev))%nat).

Lemma side_event_yes {AC : AddressCodec} {RS : ReceiptSource} {CE : ClerkEvents} params s msg :
  SideHandleMsgEventRecord params s msg = Ok VOTE_YES ->
  RecordsWithID s !! me_Id msg = None /\ (exists p, params = Some p /\ state_synced p msg).
Proof.
  unfold SideHandleMsgEventRecord. intros H. yes_inv H. unfold HasEventRecord, FetchAndValidateReceipt in *. bool_hyps.
  destruct (GetConfirmedTxReceipt _ _) as [r|] eqn:Er; [|done]. destruct (Z.eqb_spec (u64 (ReceiptBlockNumber r)) (me_BlockNumber msg)); [|done].
  injection Ha0 as <-. split; [by apply eq_None_not_Some|].
  exists a. split; [done|]. exists r, a1, a2. split_and!; [done..|congruence|].
  apply andb_false_iff in Hg4 as [Hg4|Hg4]; [left; bool_hyps; done|].
  apply orb_false_iff in Hg4 as [Hl Hd]. bool_hyps. right. split; [done|]. by apply Nat.leb_gt.
Qed.

Definition times_stored (s : ClerkState) : Prop :=
  forall t id x, RecordsWithTime s !! (t, id) = Some x -> is_Some (RecordsWithID s !! id).

Lemma post_event_succeeds cfg ctx nanos s msg : times_stored s -> RecordsWithID s !! me_Id msg = None ->
  exists s', PostHandleMsgEventRecord cfg ctx nanos s msg VOTE_YES = Ok s'.
Proof.
  intros Hts Hn. unfold PostHandleMsgEventRecord, HasEventRecord.
  change (negb (IsSideTxApproved VOTE_YES)) with false. cbn iota.
  rewrite bool_decide_eq_false_2 by (rewrite Hn; by intros []). cbn [fail_if].
  unfold SetEventRecord, SetEventRecordWithID, HasEventRecord. cbn [NewEventRecord er_Id].
  rewrite bool_decide_eq_false_2 by (rewrite Hn; by intros []). cbn [fail_if]. unfold SetEventRecordWithTime. cbn.
  rewrite bool_decide_eq_false_2; [cbn; eauto|]. intros [x Hx]. apply Hts in Hx. rewrite Hn in Hx. by destruct Hx.
Qed.

(** ** Properties *)

(** C10: the state-sync list for a time is frozen: once a block after the time is
    indexed (and the time is not before the index), no later block or event
    changes the answer, provided the records from the first requested id fit the
    scan of a query.  Nodes that ask at different heights get the same list. *)
Theorem state_sync_is_frozen cfg w w' request t h :
  rtc (clerk_step cfg) w w' -> in_time w.1 -> visibility_ok w.1 w.2 -> IsZurichHardfork cfg (BlockHeight w.1) = true ->
  GetLatestIndexedBlockTime w.2 = Ok t -> unix_of (ToTime request) < t ->
  GetBlockHeightByTime w.2 (unix_of (ToTime request)) = Ok h ->
  Z.of_nat (length (records_from w'.2 (FromId request))) <= maxRecordListScan ->
  GetRecordListWithTime cfg w'.1 w'.2 (Some request) = GetRecordListWithTime cfg w.1 w.2 (Some request).
Proof.
  intros Hrtc Ht Hok Hz Hl Hc Hh Hlen. unfold GetRecordListWithTime. cbn [of_option mbind outcome_bind].
  destruct (history_extends cfg w w' Hrtc Ht Hok Hz) as (_ & _ & Hle).
  rewrite Hz, (zurich_mono cfg _ _ Hle Hz). by rewrite (frozen_query cfg w w' request t h).
Qed.

(** C26: an event the validators approve is recorded, as the main chain has it: the
    post-handler succeeds, the record is not listed at the height of its block,
    the next block makes it visible at its own height, and the message is refused
    from then on. *)
Theorem approved_event_is_recorded {AC : AddressCodec} {RS : ReceiptSource} {CE : ClerkEvents} cfg ctx ctx' nanos params s msg :
  SideHandleMsgEventRecord params s msg = Ok VOTE_YES -> times_stored s -> visibility_ok ctx s ->
  IsZurichHardfork cfg (BlockHeight ctx) = true -> in_time ctx' ->
  (exists p, params = Some p /\ state_synced p msg) /\
  exists s', PostHandleMsgEventRecord cfg ctx nanos s msg VOTE_YES = Ok s' /\
    let r := NewEventRecord msg (time_Unix (BlockTime ctx) nanos) in
    RecordsWithID s' = <[me_Id msg := r]> (RecordsWithID s) /\
    (forall height toTime, visible_at s' height toTime r = false) /\
    VisibilityHeightByID (StoreBlockTime ctx' (ProcessPendingVisibilityEvents ctx' s')) !! me_Id msg = Some (BlockHeight ctx') /\
    (forall ctx2 nanos2, PostHandleMsgEventRecord cfg ctx2 nanos2 s' msg VOTE_YES
                         = Err (ErrText "clerk record already processed")).
Proof.
  intros Hside Hts Hok Hz Ht. apply side_event_yes in Hside as [Hn Hev]. split; [done|].
  destruct (post_event_succeeds cfg ctx nanos s msg Hts Hn) as [s' Hs']. exists s'. split; [done|].
  apply post_event_ok in Hs' as (_ & E1 & E2 & E3 & E4 & _). cbn zeta in *. rewrite Hz in E4. split; [done|].
  assert (VisibilityHeightByID s !! me_Id msg = None) as Hv.
  { destruct (VisibilityHeightByID s !! me_Id msg) eqn:E; [|done]. destruct (vo_heights _ _ Hok _ _ E) as [[? ?] _]. congruence. }
  assert (me_Id msg ∈ PendingVisibilityEvents s') as Hp by (rewrite E4; set_solver). split; [|split].
  - intros height toTime. unfold visible_at, HasPendingVisibilityEvent. cbn [NewEventRecord er_Id].
    rewrite E3, Hv. by rewrite bool_decide_eq_true_2.
  - destruct (ProcessPending_spec ctx' s' Ht) as (_ & _ & _ & _ & E5). cbn. by rewrite E5, decide_True.
  - intros ctx2 nanos2. unfold PostHandleMsgEventRecord, HasEventRecord.
    change (negb (IsSideTxApproved VOTE_YES)) with false. cbn iota. rewrite bool_decide_eq_true_2; [done|].
    rewrite E1, lookup_insert_eq. eauto.
Qed.

(** ** Witnesses *)

Module ClerkDemo.
#[export] Instance demo_codec : AddressCodec := {|
  PubKeyAddress pk := None; AddressString bs := string_of_list_byte bs;
  BytesToString bs := Ok (string_of_list_byte bs); StringToBytes s := Ok (list_byte_of_string s);
|}.
#[export] Instance demo_receipts : ReceiptSource := {|
  Receipt := Z; ReceiptBlockNumber r := r; GetConfirmedTxReceipt h _ := Some 100;
|}.
#[export] Instance demo_events : ClerkEvents := {|
  DecodeStateSyncedEvent _ _ i := if i =? 0 then
    Some {| ss_Id := 8; ss_ContractAddress := "aaaa"; ss_Data := [Byte.x01] |} else None;
|}.
Definition demo_params : ChainManagerParams :=
  {| MainChainTxConfirmations := 6; BorChainTxConfirmations := 10; BorChainId := "137";
     StakingInfoAddress := "0x51"; StateSenderAddress := "0x52"; RootChainAddress := "0x53" |}.
Definition demo_config : Config :=
  {| rioHeight := 0; tallyFixHeight := 0; disableVPCheckHeight := 0; disableValSetCheckHeight := 0;
     initialHeight := 0; producerDowntimeHeight := 0; phuketHardforkHeight := 1;
     feeWithdrawValidatorGateHeight := 1; zurichHardforkHeight := 10; ithacaHeight := 1;
     fallbackProducerVotes := [] |}.
Definition block (h t : Z) : Ctx := {| BlockHeight := h; BlockTime := t |}.
Definition demo_event (id : Z) : MsgEventRecord :=
  {| me_From := "0x1"; me_TxHash := "0x07"; me_LogIndex := 0; me_BlockNumber := 100; me_ContractAddress := "aaaa";
     me_Data := [Byte.x01]; me_Id := id; me_ChainId := "137" |}.

(** Two blocks of the index, a visible record, and a pending one. *)
Definition demo_record (id t : Z) : EventRecord := NewEventRecord (demo_event id) (time_Unix t 0).
Definition demo_state : ClerkState :=
  {| RecordsWithID := {[1 := demo_record 1 900; 2 := demo_record 2 1005]};
     RecordsWithTime := {[(time_Unix 900 0, 1) := 1; (time_Unix 1005 0, 2) := 2]};
     RecordSequences := ∅; PendingVisibilityEvents := {[2]};
     BlockTimeReverseIndex := {[(1000, 10) := 10; (1005, 11) := 11]}; VisibilityHeightByID := {[1 := 10]} |}.
(** The next block, and a new record in it. *)
Definition next_state : ClerkState := StoreBlockTime (block 12 1010) (ProcessPendingVisibilityEvents (block 12 1010) demo_state).
Definition last_state : ClerkState :=
  match PostHandleMsgEventRecord demo_config (block 12 1010) 0 next_state (demo_event 3) VOTE_YES with
  | Ok s => s | _ => next_state end.
Definition demo_request : RecordListWithTimeRequest :=
  {| FromId := 1; ToTime := time_Unix 1002 0;
     Pagination := {| pg_Key := None; Offset := 0; Limit := 10; CountTotal := false; Reverse := false |} |}.

Lemma demo_records id r : RecordsWithID demo_state !! id = Some r ->
  id = 1 /\ r = demo_record 1 900 \/ id = 2 /\ r = demo_record 2 1005.
Proof.
  unfold demo_state. cbn [RecordsWithID].
  intros [[<- <-]|[_ [<- <-]%lookup_singleton_Some]]%lookup_insert_Some; [by left|by right].
Qed.
Lemma demo_visibility_ok : visibility_ok (block 11 1005) demo_state.
Proof.
  split.
  - intros id r [[-> ->]|[-> ->]]%demo_records; reflexivity.
  - unfold demo_state. cbn [PendingVisibilityEvents]. intros id ->%elem_of_singleton. split; [by eexists|reflexivity].
  - unfold demo_state. cbn [VisibilityHeightByID]. intros id h [<- <-]%lookup_singleton_Some.
    split; [by eexists|cbn; lia].
  - unfold demo_state. cbn [BlockTimeReverseIndex].
    intros t h x [[E <-]|[_ [E <-]%lookup_singleton_Some]]%lookup_insert_Some; injection E as <- <-; cbn; lia.
Qed.

Lemma state_sync_is_frozen_witness :
  GetRecordListWithTime demo_config (block 12 1010) last_state (Some demo_request) = Ok [demo_record 1 900].
Proof.
  transitivity (GetRecordListWithTime demo_config (block 11 1005) demo_state (Some demo_request)); [|vm_compute; reflexivity].
  apply (state_sync_is_frozen demo_config (block 11 1005, demo_state) (block 12 1010, last_state) demo_request 1005 10).
  - apply (rtc_l _ _ (block 12 1010, next_state)).
    + apply step_block; [reflexivity|cbn; lia|unfold in_time; cbn; lia|reflexivity].
    + apply rtc_once, (step_event _ _ 0 _ (demo_event 3)). vm_compute. reflexivity.
  - unfold in_time. cbn. lia.
  - exact demo_visibility_ok.
  - reflexivity.
  - vm_compute. reflexivity.
  - vm_compute. reflexivity.
  - vm_compute. reflexivity.
  - vm_compute. discriminate.
Defined.

Lemma approved_event_is_recorded_witness : exists s',
  PostHandleMsgEventRecord demo_config (block 11 1005) 0 demo_state (demo_event 8) VOTE_YES = Ok s' /\
  VisibilityHeightByID (StoreBlockTime (block 12 1010) (ProcessPendingVisibilityEvents (block 12 1010) s')) !! 8 = Some 12.
Proof.
  destruct (approved_event_is_recorded demo_config (block 11 1005) (block 12 1010) 0 (Some demo_params) demo_state (demo_event 8))
    as (_ & s' & H1 & _ & _ & H2 & _).
  - vm_compute. reflexivity.
  - unfold demo_state, times_stored. cbn [RecordsWithTime].
    intros t id x [[E _]|[_ [E _]%lookup_singleton_Some]]%lookup_insert_Some; injection E as _ <-; by eexists.
  - exact demo_visibility_ok.
  - reflexivity.
  - unfold in_time. cbn. lia.
  - exists s'. split; [exact H1|exact H2].
Defined.
End ClerkDemo.
