(* ===== verification/Checkpoint.v ===== *)
(** * Checkpoints: keeper and validation

    Models [x/checkpoint/keeper/keeper.go], [x/checkpoint/types] (messages, sign
    bytes, validation of a root hash behind its caches) and the calls of
    [helper/call.go] that the validation makes.  The Bor node and the root chain
    contract are parameters. *)
From S2P Require Import Prelude SortedList Helpers External VoteTypes StakeHandlers Numerals.
#[local] Open Scope Z_scope.

(** ** State *)

Record Checkpoint := {
  cp_Id : Z; cp_Proposer : string; cp_StartBlock : Z; cp_EndBlock : Z; cp_RootHash : bytes;
  cp_BorChainId : string; cp_Timestamp : Z;
}.
Record CheckpointParams := {
  CheckpointBufferTime : Z;   (* nanoseconds *)
  AvgCheckpointLength : Z; MaxCheckpointLength : Z; ChildChainBlockInterval : Z;
}.
Record CheckpointSignature := { sig_ValidatorAddress : bytes; sig_Signature : bytes }.
Record CheckpointState := {
  checkpoints : gmap Z Checkpoint;
  bufferedCheckpoint : option Checkpoint;
  checkpoint_params : option CheckpointParams;
  lastNoAck : option Z;
  ackCount : option Z;
  checkpointSignatures : option (list CheckpointSignature);
  checkpointSignaturesTxHash : option string;
}.

Definition set_chain (s : CheckpointState) m b a : CheckpointState :=
  {| checkpoints := m; bufferedCheckpoint := b; checkpoint_params := checkpoint_params s; lastNoAck := lastNoAck s;
     ackCount := a; checkpointSignatures := checkpointSignatures s;
     checkpointSignaturesTxHash := checkpointSignaturesTxHash s |}.

Definition ErrNoCheckpointFound : error := ErrText "checkpoint not found".
Definition ErrAlreadyExists : error := ErrText "checkpoint already exists".

(** ** Keeper *)

Definition SetCheckpointParams (s : CheckpointState) (p : CheckpointParams) : CheckpointState :=
  {| checkpoints := checkpoints s; bufferedCheckpoint := bufferedCheckpoint s; checkpoint_params := Some p;
     lastNoAck := lastNoAck s; ackCount := ackCount s; checkpointSignatures := checkpointSignatures s;
     checkpointSignaturesTxHash := checkpointSignaturesTxHash s |}.
Definition GetCheckpointParams (s : CheckpointState) : outcome CheckpointParams :=
  of_option ErrNotFound (checkpoint_params s).
Definition with_cp_proposer (c : Checkpoint) (p : string) : Checkpoint :=
  {| cp_Id := cp_Id c; cp_Proposer := p; cp_StartBlock := cp_StartBlock c; cp_EndBlock := cp_EndBlock c;
     cp_RootHash := cp_RootHash c; cp_BorChainId := cp_BorChainId c; cp_Timestamp := cp_Timestamp c |}.
Definition with_cp_id (c : Checkpoint) (i : Z) : Checkpoint :=
  {| cp_Id := i; cp_Proposer := cp_Proposer c; cp_StartBlock := cp_StartBlock c; cp_EndBlock := cp_EndBlock c;
     cp_RootHash := cp_RootHash c; cp_BorChainId := cp_BorChainId c; cp_Timestamp := cp_Timestamp c |}.

Definition AddCheckpoint (s : CheckpointState) (c : Checkpoint) : outcome CheckpointState :=
  return_if bool_decide (is_Some (checkpoints s !! cp_Id c)) with ErrAlreadyExists ;;
  let c := with_cp_proposer c (FormatAddress (cp_Proposer c)) in
  Ok (set_chain s (<[cp_Id c := c]> (checkpoints s)) (bufferedCheckpoint s) (ackCount s)).

Definition GetAckCount (s : CheckpointState) : Z := match ackCount s with Some n => n | None => 0 end.
Definition UpdateAckCountWithValue (s : CheckpointState) (value : Z) : CheckpointState :=
  set_chain s (checkpoints s) (bufferedCheckpoint s) (Some value).
Definition IncrementAckCount (s : CheckpointState) : CheckpointState :=
  UpdateAckCountWithValue s (u64 (GetAckCount s + 1)).
Definition GetCheckpointByNumber (s : CheckpointState) (number : Z) : outcome Checkpoint :=
  of_option ErrNotFound (checkpoints s !! number).
Definition GetLastCheckpoint (s : CheckpointState) : outcome Checkpoint :=
  return_if GetAckCount s =? 0 with ErrNoCheckpointFound ;; GetCheckpointByNumber s (GetAckCount s).
Definition GetCheckpoints (s : CheckpointState) : list Checkpoint :=
  map snd (sort_by fst (map_to_list (checkpoints s))).

Definition SetCheckpointBuffer (s : CheckpointState) (c : Checkpoint) : outcome CheckpointState :=
  let c := with_cp_proposer c (FormatAddress (cp_Proposer c)) in
  c ← (if cp_Id c =? 0 then cp ← GetLastCheckpoint s; Ok (with_cp_id c (u64 (cp_Id cp + 1))) else Ok c);
  Ok (set_chain s (checkpoints s) (Some c) (ackCount s)).
Definition FlushCheckpointBuffer (s : CheckpointState) : CheckpointState :=
  set_chain s (checkpoints s) None (ackCount s).
Definition HasCheckpointInBuffer (s : CheckpointState) : bool := bool_decide (is_Some (bufferedCheckpoint s)).
Definition zero_checkpoint : Checkpoint :=
  {| cp_Id := 0; cp_Proposer := ""; cp_StartBlock := 0; cp_EndBlock := 0; cp_RootHash := []; cp_BorChainId := "";
     cp_Timestamp := 0 |}.
Definition GetCheckpointFromBuffer (s : CheckpointState) : Checkpoint :=
  match bufferedCheckpoint s with Some c => c | None => zero_checkpoint end.
Definition IsBufferedCheckpointZero (c : Checkpoint) : bool :=
  (cp_Id c =? 0) && String.eqb (cp_Proposer c) "" && (cp_StartBlock c =? 0) && (cp_EndBlock c =? 0)
  && (length (cp_RootHash c) =? 0)%nat && String.eqb (cp_BorChainId c) "" && (cp_Timestamp c =? 0).

Definition SetLastNoAck (s : CheckpointState) (timestamp : Z) : CheckpointState :=
  {| checkpoints := checkpoints s; bufferedCheckpoint := bufferedCheckpoint s; checkpoint_params := checkpoint_params s;
     lastNoAck := Some timestamp; ackCount := ackCount s; checkpointSignatures := checkpointSignatures s;
     checkpointSignaturesTxHash := checkpointSignaturesTxHash s |}.
Definition GetLastNoAck (s : CheckpointState) : Z := match lastNoAck s with Some t => t | None => 0 end.
Definition SetCheckpointSignatures (s : CheckpointState) (sigs : list CheckpointSignature) : CheckpointState :=
  {| checkpoints := checkpoints s; bufferedCheckpoint := bufferedCheckpoint s; checkpoint_params := checkpoint_params s;
     lastNoAck := lastNoAck s; ackCount := ackCount s; checkpointSignatures := Some sigs;
     checkpointSignaturesTxHash := checkpointSignaturesTxHash s |}.
Definition GetCheckpointSignatures (s : CheckpointState) : outcome (list CheckpointSignature) :=
  of_option ErrNotFound (checkpointSignatures s).
Definition SetCheckpointSignaturesTxHash (s : CheckpointState) (txHash : string) : CheckpointState :=
  {| checkpoints := checkpoints s; bufferedCheckpoint := bufferedCheckpoint s; checkpoint_params := checkpoint_params s;
     lastNoAck := lastNoAck s; ackCount := ackCount s; checkpointSignatures := checkpointSignatures s;
     checkpointSignaturesTxHash := Some txHash |}.
Definition GetCheckpointSignaturesTxHash (s : CheckpointState) : outcome string :=
  of_option ErrNotFound (checkpointSignaturesTxHash s).

Definition ValidateBasic_CheckpointParams (p : CheckpointParams) : outcome unit :=
  return_if MaxCheckpointLength p =? 0 with ErrText "max checkpoint length zero" ;;
  return_if AvgCheckpointLength p =? 0 with ErrText "avg checkpoint length zero" ;;
  return_if MaxCheckpointLength p <? AvgCheckpointLength p with ErrText "avg greater than max" ;;
  return_if ChildChainBlockInterval p =? 0 with ErrText "child chain block interval zero" ;;
  Ok tt.
Definition UpdateCheckpointParams (authority : string) (s : CheckpointState) (msgAuthority : string)
    (p : CheckpointParams) : outcome CheckpointState :=
  return_if negb (String.eqb authority msgAuthority) with ErrText "invalid authority" ;;
  ValidateBasic_CheckpointParams p ≫= fun _ => Ok (SetCheckpointParams s p).

(** ** Messages *)

Record MsgCheckpoint := {
  mc_Proposer : string; mc_StartBlock : Z; mc_EndBlock : Z; mc_RootHash : bytes; mc_AccountRootHash : bytes;
  mc_BorChainId : string;
}.
Record MsgCpAck := {
  ma_From : string; ma_Number : Z; ma_Proposer : string; ma_StartBlock : Z; ma_EndBlock : Z; ma_RootHash : bytes;
}.
Record MsgCpNoAck := { mn_From : string }.

Section messages.
Context {AC : AddressCodec}.

Definition zero_hash : bytes := repeat Byte.x00 HashLength.
Definition ValidateBasic_Checkpoint (msg : MsgCheckpoint) : outcome unit :=
  return_if negb (ParseUint (mc_BorChainId msg)).2 with ErrInvalidMsg ;;
  return_if bool_decide (mc_RootHash msg = zero_hash) with ErrInvalidMsg ;;
  return_if negb (length (mc_RootHash msg) =? HashLength)%nat with ErrInvalidMsg ;;
  valid_from (mc_Proposer msg) ≫= fun _ =>
  return_if (mc_EndBlock msg <=? mc_StartBlock msg) || (mc_EndBlock msg =? 0) with ErrInvalidMsg ;;
  Ok tt.
Definition ValidateBasic_CpAck (msg : MsgCpAck) : outcome unit :=
  valid_from (ma_From msg) ≫= fun _ =>
  valid_from (ma_Proposer msg) ≫= fun _ =>
  return_if ma_EndBlock msg <=? ma_StartBlock msg with ErrInvalidMsg ;;
  return_if bool_decide (ma_RootHash msg = zero_hash) with ErrInvalidMsg ;;
  return_if negb (length (ma_RootHash msg) =? HashLength)%nat with ErrInvalidMsg ;;
  Ok tt.
Definition ValidateBasic_CpNoAck (msg : MsgCpNoAck) : outcome unit := valid_from (mn_From msg).

(** [GetSideSignBytes]: panics on a proposer that does not decode. *)
Definition GetSideSignBytes (msg : MsgCheckpoint) : outcome bytes :=
  let borChainID := (ParseUint (mc_BorChainId msg)).1 in
  match StringToBytes (mc_Proposer msg) with
  | Ok proposerBytes =>
      Ok (AppendBytes32 [proposerBytes; BigBytes (mc_StartBlock msg); BigBytes (mc_EndBlock msg); mc_RootHash msg;
                         mc_AccountRootHash msg; BigBytes borChainID])
  | _ => Panic
  end.
(** [UnpackCheckpointSideSignBytes] *)
Definition chunkSize : nat := 32.
Definition chunk (data : bytes) (i : nat) : bytes := take chunkSize (drop (i * chunkSize) data).
Definition UnpackCheckpointSideSignBytes (data : bytes) : outcome MsgCheckpoint :=
  return_if negb (length data =? chunkSize * 6)%nat with ErrText "invalid data length" ;;
  proposer ← BytesToString (drop 12 (chunk data 0));
  Ok {| mc_Proposer := proposer; mc_StartBlock := u64 (be_value (chunk data 1));
        mc_EndBlock := u64 (be_value (chunk data 2)); mc_RootHash := chunk data 3;
        mc_AccountRootHash := chunk data 4; mc_BorChainId := FormatUint (u64 (be_value (chunk data 5))) |}.
End messages.

(** ** A cache with expiry (common/cache) *)

Record CacheItem (A : Type) := { Value : A; Expiration : Z }.
Arguments Value {A}.
Arguments Expiration {A}.
Section cache.
Context {K : Type} `{Countable K} {A : Type}.
Definition cache_Set (ttl now : Z) (c : gmap K (CacheItem A)) (key : K) (value : A) : gmap K (CacheItem A) :=
  <[key := {| Value := value; Expiration := i64 (now + ttl) |}]> c.
Definition cache_Get (now : Z) (c : gmap K (CacheItem A)) (key : K) : option A * gmap K (CacheItem A) :=
  match c !! key with
  | None => (None, c)
  | Some item => if Expiration item <? now then (None, delete key c) else (Some (Value item), c)
  end.
End cache.

(** ** The Bor node and the root chain *)

(** The answers of the node: a header ([None]: not found), a root hash as text. *)
Class BorNode := {
  HeaderByNumber : Z -> outcome (option Header);
  RootHashOf : Z -> Z -> outcome string;
}.
(** The root chain contract at an address: whether it can be bound, and the header
    block with an id: root, start, end, proposer. *)
Class RootChain := {
  GetRootChainInstance : string -> bool;
  HeaderBlocks : string -> Z -> option (bytes * Z * Z * string);
}.

(** The keys of the caches: end and confirmations; start, end and length. *)
Record CheckpointCaches := {
  existsCache : gmap (Z * Z) (CacheItem bool);
  rootCache : gmap (Z * Z * Z) (CacheItem bytes);
}.
Definition defaultTTL : Z := 10 * Second.
Definition ErrFailedToQueryBor : error := ErrText "failed to query bor".
Definition ErrBorBlockNotFound : error := ErrText "bor block not found".

Section node.
Context {BN : BorNode} {RC : RootChain}.

Definition CheckIfBlocksExist (number : Z) : outcome bool :=
  h ← HeaderByNumber (i64 number);
  Ok (match h with Some h => number =? u64 (Number h) | None => false end).
Definition GetRootHash (start end_ checkpointLength : Z) : outcome bytes :=
  let noOfBlock := u64 (u64 (end_ - start) + 1) in
  return_if end_ <? start with ErrText "start is greater than end" ;;
  return_if checkpointLength <? noOfBlock with ErrText "number of headers requested exceeds checkpoint length" ;;
  rootHash ← RootHashOf start end_;
  let decoded := FromHex rootHash in
  return_if negb (length decoded =? HashLength)%nat with ErrText "bor rootHash: length" ;;
  return_if bool_decide (decoded = zero_hash) with ErrText "bor rootHash: zero value" ;;
  Ok decoded.

(** [IsValidCheckpoint]: the answer and the caches; [clock] gives the time at the
    reads and writes of the caches. *)
Definition exists_checked (clock : nat -> Z) (caches : CheckpointCaches) (end_ confirmations : Z)
    : outcome unit * CheckpointCaches :=
  let '(cached, ec) := cache_Get (clock 0%nat) (existsCache caches) (end_, confirmations) in
  match cached with
  | Some true => (Ok tt, {| existsCache := ec; rootCache := rootCache caches |})
  | _ =>
      match CheckIfBlocksExist (u64 (end_ + confirmations)) with
      | Ok true => (Ok tt, {| existsCache := cache_Set defaultTTL (clock 1%nat) ec (end_, confirmations) true;
                              rootCache := rootCache caches |})
      | Ok false => (Err ErrBorBlockNotFound, {| existsCache := ec; rootCache := rootCache caches |})
      | Err _ => (Err ErrFailedToQueryBor, {| existsCache := ec; rootCache := rootCache caches |})
      | Panic => (Panic, {| existsCache := ec; rootCache := rootCache caches |})
      end
  end.
Definition root_checked (clock : nat -> Z) (caches : CheckpointCaches) (start end_ checkpointLength : Z)
    : outcome bytes * CheckpointCaches :=
  let '(cached, rc) := cache_Get (clock 2%nat) (rootCache caches) (start, end_, checkpointLength) in
  match cached with
  | Some root => (Ok root, {| existsCache := existsCache caches; rootCache := rc |})
  | None =>
      match GetRootHash start end_ checkpointLength with
      | Ok root =>
          (Ok root, {| existsCache := existsCache caches;
                       rootCache := if (0 <? length root)%nat
                                    then cache_Set defaultTTL (clock 3%nat) rc (start, end_, checkpointLength) root
                                    else rc |})
      | Err _ => (Err ErrFailedToQueryBor, {| existsCache := existsCache caches; rootCache := rc |})
      | Panic => (Panic, {| existsCache := existsCache caches; rootCache := rc |})
      end
  end.
Definition IsValidCheckpoint (clock : nat -> Z) (caches : CheckpointCaches) (start end_ : Z) (rootHash : bytes)
    (checkpointLength confirmations : Z) : outcome bool * CheckpointCaches :=
  let '(r, caches) := exists_checked clock caches end_ confirmations in
  match r with
  | Ok _ =>
      let '(root, caches) := root_checked clock caches start end_ checkpointLength in
      (root ← root; Ok (bool_decide (root = rootHash)), caches)
  | Err e => (Err e, caches)
  | Panic => (Panic, caches)
  end.

Definition GetHeaderInfo (address : string) (headerID childBlockInterval : Z) : outcome (bytes * Z * Z * string) :=
  '(root, start, end_, proposer) ← of_option (ErrText "unable to fetch checkpoint block")
    (HeaderBlocks address (headerID * childBlockInterval));
  Ok (root, u64 start, u64 end_, proposer).
End node.
