(* ===== verification/CheckpointHandlers.v ===== *)
(** * The checkpoint module's messages

    Models [x/checkpoint/keeper/msg_server.go] and [side_msg_server.go].  A
    checkpoint is proposed, voted on, and put in the buffer; its acknowledgement
    from the root chain is voted on and moves it from the buffer to the store;
    a no-ack rotates the proposer when no checkpoint arrives in time.  The
    dividend accounts are an argument (the topup keeper answers them). *)
From S2P Require Import Prelude SortedList Helpers External VoteTypes ValidatorSet StakeKeeper StakeHandlers Numerals Dividend Checkpoint.
#[local] Open Scope Z_scope.

Definition ErrNoAck : error := ErrText "no-ack invalid".
Definition ErrBadAck : error := ErrText "checkpoint ack is not valid".
Definition ErrBadBlockDetails : error := ErrText "checkpoint not found in buffer".
Definition ErrDiscontinuousCheckpoint : error := ErrText "checkpoint is not in continuity".
Definition ErrInvalidNoAck : error := ErrText "invalid no-ack, waiting for the last checkpoint ack".
Definition ErrInvalidNoAckProposer : error := ErrText "invalid no-ack proposer".
Definition ErrTooManyNoAck : error := ErrText "too many no-ack messages".

(** [Duration.Seconds] converted to an unsigned integer. *)
Definition uint_seconds (out_of_range : SpecFloat.spec_float -> Z) (d : Z) : Z :=
  uint_of out_of_range (Seconds d).

(** The continuity check of the three handlers: the start of a checkpoint follows
    the end of the last one, or is 0.  An error other than the absence of a
    checkpoint is let through. *)
Definition continuity (s : CheckpointState) (start : Z) (discontinuous : error) : outcome unit :=
  match GetLastCheckpoint s with
  | Ok lastCheckpoint => return_if negb (u64 (cp_EndBlock lastCheckpoint + 1) =? start) with discontinuous ;; Ok tt
  | Err e => return_if bool_decide (e = ErrNoCheckpointFound) && negb (start =? 0) with ErrBadBlockDetails ;; Ok tt
  | Panic => Panic
  end.

(** The proposer stored with the validator set. *)
Definition check_proposer (ss : StakeState) (msgProposer : string) : outcome unit :=
  validatorSet ← or_err (GetValidatorSet ss) ErrInvalidMsg;
  match Proposer validatorSet with
  | None => Err ErrInvalidMsg
  | Some p =>
      return_if negb (String.eqb (FormatAddress msgProposer) (FormatAddress (Signer p))) with ErrInvalidMsg ;; Ok tt
  end.

(** The number an acknowledgement must have. *)
Definition expected_number (s : CheckpointState) : outcome Z :=
  match GetLastCheckpoint s with
  | Ok lastCheckpoint => Ok (u64 (cp_Id lastCheckpoint + 1))
  | Err e => return_if negb (bool_decide (e = ErrNoCheckpointFound)) with e ;; Ok 1
  | Panic => Panic
  end.

Section handlers.
Context {AC : AddressCodec} {HF : HashFunction} {ML : MerkleLibrary}.
Context (out_of_range : SpecFloat.spec_float -> Z).

Definition check_account_root (dividendAccounts : list DividendAccount) (msg : MsgCheckpoint) : outcome unit :=
  accountRoot ← or_err (GetAccountRootHash dividendAccounts) (ErrText "account root hash");
  return_if negb (bool_decide (accountRoot = mc_AccountRootHash msg)) with ErrBadBlockDetails ;; Ok tt.

(** ** Message server *)

(** [Checkpoint] *)
Definition MsgServer_Checkpoint (ctx : Ctx) (dividendAccounts : list DividendAccount) (ss : StakeState)
    (s : CheckpointState) (msg : MsgCheckpoint) : outcome CheckpointState :=
  let timeStamp := u64 (BlockTime ctx) in
  params ← or_err (GetCheckpointParams s) (ErrText "params");
  let checkpointBuffer := GetCheckpointFromBuffer s in
  let checkpointBufferTime := uint_seconds out_of_range (CheckpointBufferTime params) in
  s ← (if (cp_Timestamp checkpointBuffer =? 0)
            || ((cp_Timestamp checkpointBuffer <? timeStamp)
                && (checkpointBufferTime <=? timeStamp - cp_Timestamp checkpointBuffer))
       then Ok (FlushCheckpointBuffer s) else Err ErrNoAck);
  continuity s (mc_StartBlock msg) ErrDiscontinuousCheckpoint ≫= fun _ =>
  check_account_root dividendAccounts msg ≫= fun _ =>
  check_proposer ss (mc_Proposer msg) ≫= fun _ =>
  Ok s.

(** The checks of an acknowledgement against the buffer, in the message server
    and the side handler. *)
Definition ack_matches_buffer (s : CheckpointState) (msg : MsgCpAck) : outcome Checkpoint :=
  let bufCheckpoint := GetCheckpointFromBuffer s in
  return_if IsBufferedCheckpointZero bufCheckpoint with ErrBadAck ;;
  return_if negb (ma_StartBlock msg =? cp_StartBlock bufCheckpoint) with ErrBadAck ;;
  return_if (ma_EndBlock msg =? cp_EndBlock bufCheckpoint)
            && negb (bool_decide (ma_RootHash msg = cp_RootHash bufCheckpoint)) with ErrBadAck ;;
  Ok bufCheckpoint.
(** [CheckpointAck] *)
Definition MsgServer_CheckpointAck (s : CheckpointState) (msg : MsgCpAck) : outcome unit :=
  return_if ma_EndBlock msg <=? ma_StartBlock msg with ErrBadAck ;;
  expectedId ← expected_number s;
  return_if negb (ma_Number msg =? expectedId) with ErrBadAck ;;
  ack_matches_buffer s msg ≫= fun _ => Ok tt.

(** [CheckpointNoAck].  The block time has [nanos] nanoseconds past the second.
    The loop searches the sender among the proposers of the next [count] turns. *)
Fixpoint is_coming_proposer (n : nat) (vs : ValidatorSet) (from : string) : outcome bool :=
  match n with
  | O => Ok false
  | S n =>
      p ← must (Proposer vs);
      if String.eqb (FormatAddress (Signer p)) (FormatAddress from) then Ok true
      else vs ← IncrementProposerPriority vs 1; is_coming_proposer n vs from
  end.
Definition no_ack_count (timeDiff bufferTime : Z) : Z :=
  int_of_floor out_of_range (f64_div (Seconds timeDiff) (Seconds bufferTime)).
Definition last_checkpoint_time (s : CheckpointState) : outcome GoTime :=
  match GetLastCheckpoint s with
  | Ok c => Ok (time_Unix (i64 (cp_Timestamp c)) 0)
  | Err _ => Ok (time_Unix 0 0)
  | Panic => Panic
  end.
Definition MsgServer_CheckpointNoAck (ctx : Ctx) (nanos : Z) (ss : StakeState) (s : CheckpointState)
    (msg : MsgCpNoAck) : outcome (CheckpointState * StakeState) :=
  let currentTime := time_Unix (BlockTime ctx) nanos in
  params ← or_err (GetCheckpointParams s) (ErrText "params");
  let bufferTime := CheckpointBufferTime params in
  lastCheckpointTime ← last_checkpoint_time s;
  return_if time_After lastCheckpointTime currentTime
            || (time_Sub currentTime lastCheckpointTime <? bufferTime) with ErrInvalidNoAck ;;
  let timeDiff := time_Sub currentTime lastCheckpointTime in
  let count := no_ack_count timeDiff bufferTime in
  currentValidatorSet ← GetValidatorSet ss;
  currentValidatorSet ← IncrementProposerPriority currentValidatorSet 1;
  isProposer ← is_coming_proposer (Z.to_nat count) currentValidatorSet (mn_From msg);
  return_if negb isProposer with ErrInvalidNoAckProposer ;;
  let lastNoAck := GetLastNoAck s in
  return_if MaxInt64 <? lastNoAck with ErrNoAck ;;
  let lastNoAckTime := time_Unix lastNoAck 0 in
  return_if time_After lastNoAckTime currentTime || (time_Sub currentTime lastNoAckTime <? bufferTime)
    with ErrTooManyNoAck ;;
  let s := SetLastNoAck s (u64 (BlockTime ctx)) in
  ss ← IncrementAccum ss 1;
  vs ← GetValidatorSet ss;
  GetProposer vs ≫= fun _ =>
  Ok (s, ss).

(** ** Side handlers *)
Context {BN : BorNode} {RC : RootChain}.

Definition SideHandleMsgCheckpoint (clock : nat -> Z) (caches : CheckpointCaches) (dividendAccounts : list DividendAccount)
    (params : option ChainManagerParams) (ss : StakeState) (s : CheckpointState) (msg : MsgCheckpoint) : outcome Vote :=
  chainParams <-some params ;;
  cpParams <-no GetCheckpointParams s ;;
  vote_no_if negb (ValidateChainID (mc_BorChainId msg) (BorChainId chainParams)) ;;
  _ <-no continuity s (mc_StartBlock msg) ErrDiscontinuousCheckpoint ;;
  _ <-no check_proposer ss (mc_Proposer msg) ;;
  _ <-no check_account_root dividendAccounts msg ;;
  valid <-no (IsValidCheckpoint clock caches (mc_StartBlock msg) (mc_EndBlock msg) (mc_RootHash msg)
                (MaxCheckpointLength cpParams) (BorChainTxConfirmations chainParams)).1 ;;
  vote_no_if negb valid ;;
  Ok VOTE_YES.

Definition SideHandleMsgCheckpointAck (params : option ChainManagerParams) (s : CheckpointState) (msg : MsgCpAck)
    : outcome Vote :=
  vote_no_if ma_EndBlock msg <=? ma_StartBlock msg ;;
  expectedId <-no expected_number s ;;
  vote_no_if negb (ma_Number msg =? expectedId) ;;
  _ <-no ack_matches_buffer s msg ;;
  chainParams <-some params ;;
  cpParams <-no GetCheckpointParams s ;;
  vote_no_if negb (GetRootChainInstance (RootChainAddress chainParams)) ;;
  info <-no GetHeaderInfo (RootChainAddress chainParams) (ma_Number msg) (ChildChainBlockInterval cpParams) ;;
  let '(root, start, end_, proposer) := info in
  vote_no_if negb (ma_StartBlock msg =? start) || negb (ma_EndBlock msg =? end_)
             || negb (String.eqb (FormatAddress (ma_Proposer msg)) (FormatAddress proposer))
             || negb (bool_decide (ma_RootHash msg = root)) ;;
  Ok VOTE_YES.

(** ** Post-handlers *)

(** The number of the last checkpoint, 0 when it cannot be read. *)
Definition last_id (s : CheckpointState) : Z :=
  match GetLastCheckpoint s with Ok c => cp_Id c | _ => 0 end.

Definition PostHandleMsgCheckpoint (ctx : Ctx) (s : CheckpointState) (msg : MsgCheckpoint) (sideTxResult : Vote)
    : outcome CheckpointState :=
  return_if negb (IsSideTxApproved sideTxResult) with ErrSideTxRejected ;;
  continuity s (mc_StartBlock msg) ErrDiscontinuousCheckpoint ≫= fun _ =>
  return_if HasCheckpointInBuffer s && negb (IsBufferedCheckpointZero (GetCheckpointFromBuffer s)) with ErrNoAck ;;
  SetCheckpointBuffer s
    {| cp_Id := u64 (last_id s + 1); cp_Proposer := mc_Proposer msg; cp_StartBlock := mc_StartBlock msg;
       cp_EndBlock := mc_EndBlock msg; cp_RootHash := mc_RootHash msg; cp_BorChainId := mc_BorChainId msg;
       cp_Timestamp := u64 (BlockTime ctx) |}.

(** The buffered checkpoint, adjusted to what the root chain has, under the
    number of the acknowledgement. *)
Definition acknowledged (checkpointObj : Checkpoint) (msg : MsgCpAck) : Checkpoint :=
  let adjusted := negb (cp_EndBlock checkpointObj =? ma_EndBlock msg) in
  {| cp_Id := ma_Number msg;
     cp_Proposer := if adjusted then ma_Proposer msg else cp_Proposer checkpointObj;
     cp_StartBlock := cp_StartBlock checkpointObj;
     cp_EndBlock := if adjusted then ma_EndBlock msg else cp_EndBlock checkpointObj;
     cp_RootHash := if adjusted then ma_RootHash msg else cp_RootHash checkpointObj;
     cp_BorChainId := cp_BorChainId checkpointObj; cp_Timestamp := cp_Timestamp checkpointObj |}.
Definition PostHandleMsgCheckpointAck (ss : StakeState) (s : CheckpointState) (msg : MsgCpAck) (sideTxResult : Vote)
    : outcome (CheckpointState * StakeState) :=
  return_if negb (IsSideTxApproved sideTxResult) with ErrSideTxRejected ;;
  checkpointObj ← ack_matches_buffer s msg;
  s ← AddCheckpoint s (acknowledged checkpointObj msg);
  let s := FlushCheckpointBuffer s in
  let s := IncrementAckCount s in
  ss ← IncrementAccum ss 1;
  vs ← GetValidatorSet ss;
  GetProposer vs ≫= fun _ =>
  Ok (s, ss).

(** ** Dispatch ([SideTxHandler], [PostTxHandler]) *)

Inductive CheckpointMsg := MCheckpoint (msg : MsgCheckpoint) | MCpAck (msg : MsgCpAck).
Definition SideTxHandler (clock : nat -> Z) (caches : CheckpointCaches) (dividendAccounts : list DividendAccount)
    (params : option ChainManagerParams) (ss : StakeState) (s : CheckpointState) (msg : CheckpointMsg) : outcome Vote :=
  match msg with
  | MCheckpoint m => SideHandleMsgCheckpoint clock caches dividendAccounts params ss s m
  | MCpAck m => SideHandleMsgCheckpointAck params s m
  end.
Definition PostTxHandler (ctx : Ctx) (st : CheckpointState * StakeState) (msg : CheckpointMsg) (v : Vote)
    : outcome (CheckpointState * StakeState) :=
  let '(s, ss) := st in
  match msg with
  | MCheckpoint m => s ← PostHandleMsgCheckpoint ctx s m v; Ok (s, ss)
  | MCpAck m => PostHandleMsgCheckpointAck ss s m v
  end.
End handlers.
