(* ===== verification/CheckpointCorrect.v ===== *)
(** * Checkpoints: correctness

    The stored checkpoints are a gapless chain that agrees with the root chain,
    whatever the delay between the votes on a message and its application; the
    bytes signed for a checkpoint determine it; no-acks are spaced in time. *)
From S2P Require Import Prelude SortedList Helpers External VoteTypes ValidatorSet StakeKeeper StakeHandlers Numerals Dividend Checkpoint CheckpointHandlers.
#[local] Open Scope Z_scope.

(** ** The chain of checkpoints *)

(** The start block that follows the last checkpoint. *)
Definition next_start (s : CheckpointState) (start : Z) : Prop :=
  if GetAckCount s =? 0 then start = 0
  else exists c, checkpoints s !! GetAckCount s = Some c /\ start = u64 (cp_EndBlock c + 1).

(** The chain, with a property every checkpoint of it has. *)
Record chain_ok (P : Checkpoint -> Prop) (s : CheckpointState) : Prop := {
  co_count : 0 <= GetAckCount s;
  co_numbers : forall i, is_Some (checkpoints s !! i) <-> 1 <= i <= GetAckCount s;
  co_stored : forall i c, checkpoints s !! i = Some c -> cp_Id c = i /\ cp_StartBlock c < cp_EndBlock c /\ P c;
  co_first : forall c, checkpoints s !! 1 = Some c -> cp_StartBlock c = 0;
  co_next : forall i c d, checkpoints s !! i = Some c -> checkpoints s !! (i + 1) = Some d ->
    cp_StartBlock d = u64 (cp_EndBlock c + 1);
  co_buffer : forall b, bufferedCheckpoint s = Some b -> next_start s (cp_StartBlock b);
}.

Lemma chain_ok_weaken (P Q : Checkpoint -> Prop) s : (forall c, P c -> Q c) -> chain_ok P s -> chain_ok Q s.
Proof.
  intros HPQ [H0 H1 H2 H3 H4 H5]. split; try assumption. intros i c Hc. destruct (H2 i c Hc) as (?&?&?). auto.
Qed.

(** The chain does not depend on the rest of the state, and the buffer may be
    emptied. *)
Lemma chain_ok_same P s s' : checkpoints s' = checkpoints s -> ackCount s' = ackCount s ->
  (bufferedCheckpoint s' = bufferedCheckpoint s \/ bufferedCheckpoint s' = None) ->
  chain_ok P s -> chain_ok P s'.
Proof.
  intros E1 E2 E3 [H0 H1 H2 H3 H4 H5]. assert (GetAckCount s' = GetAckCount s) as E by (unfold GetAckCount; by rewrite E2).
  split; rewrite ?E, ?E1; try assumption. intros b Hb. unfold next_start. rewrite E, E1.
  destruct E3 as [E3|E3]; rewrite E3 in Hb; [by apply H5|discriminate].
Qed.

Lemma continuity_next P s start e : chain_ok P s -> continuity s start e = Ok tt -> next_start s start.
Proof.
  intros Hc. unfold continuity, next_start, GetLastCheckpoint, GetCheckpointByNumber, fail_if.
  destruct (Z.eqb_spec (GetAckCount s) 0) as [E|E].
  - rewrite bool_decide_eq_true_2 by done. destruct (Z.eqb_spec start 0); [done|discriminate].
  - destruct (checkpoints s !! GetAckCount s) as [c|] eqn:Ec; cbn [of_option].
    + intros H. exists c. split; [done|]. destruct (Z.eqb_spec (u64 (cp_EndBlock c + 1)) start); [done|discriminate H].
    + pose proof (co_count _ _ Hc). destruct (co_numbers _ _ Hc (GetAckCount s)) as [_ H'].
      destruct H' as [c Hc']; [lia|congruence].
Qed.

Lemma expected_number_ok P s n : chain_ok P s -> GetAckCount s < MaxUint64 -> expected_number s = Ok n ->
  n = GetAckCount s + 1.
Proof.
  intros Hc Hb. unfold expected_number, GetLastCheckpoint, GetCheckpointByNumber, fail_if.
  pose proof (co_count _ _ Hc). destruct (Z.eqb_spec (GetAckCount s) 0) as [E|E].
  - rewrite bool_decide_eq_true_2 by done. intros [= <-]. lia.
  - destruct (checkpoints s !! GetAckCount s) as [c|] eqn:Ec; cbn [of_option].
    + intros [= <-]. destruct (co_stored _ _ Hc _ _ Ec) as [-> _]. apply u64_id. unfold in_u64, MaxUint64 in *. lia.
    + destruct (co_numbers _ _ Hc (GetAckCount s)) as [_ H']. destruct H' as [c Hc']; [lia|congruence].
Qed.

(** A proposal that is applied goes to the buffer and starts at the tip. *)
Lemma post_checkpoint_chain P ctx s msg s' : chain_ok P s ->
  PostHandleMsgCheckpoint ctx s msg VOTE_YES = Ok s' -> chain_ok P s' /\ GetAckCount s' = GetAckCount s.
Proof.
  intros Hc H. unfold PostHandleMsgCheckpoint in H. cbn [IsSideTxApproved] in H.
  ok_step H. ok_step H. destruct a. ok_step H. pose proof (continuity_next _ _ _ _ Hc Ha) as Hn.
  unfold SetCheckpointBuffer in H. ok_step H.
  assert (cp_StartBlock a = mc_StartBlock msg) as Es.
  { destruct (Z.eqb _ 0) in Ha0; ok_inv Ha0; by subst a. }
  injection H as <-. split; [|done].
  destruct Hc as [H0 H1 H2 H3 H4 H5]. split; try assumption. intros b [= <-]. by rewrite Es.
Qed.

Lemma ack_matches_inv s msg b : ack_matches_buffer s msg = Ok b ->
  bufferedCheckpoint s = Some b /\ cp_StartBlock b = ma_StartBlock msg /\
  cp_StartBlock (acknowledged b msg) = ma_StartBlock msg /\ cp_EndBlock (acknowledged b msg) = ma_EndBlock msg /\
  cp_RootHash (acknowledged b msg) = ma_RootHash msg.
Proof.
  unfold ack_matches_buffer. intros H. ok_inv H. subst b. bool_hyps.
  unfold GetCheckpointFromBuffer in *. destruct (bufferedCheckpoint s) as [b|]; [|discriminate Hg].
  unfold acknowledged. cbn [cp_StartBlock cp_EndBlock cp_RootHash].
  apply andb_false_iff in Hg1. repeat split; try lia.
  - destruct (Z.eqb_spec (cp_EndBlock b) (ma_EndBlock msg)); cbn [negb]; congruence.
  - destruct (Z.eqb_spec (cp_EndBlock b) (ma_EndBlock msg)) as [E|E]; cbn [negb]; [|done].
    destruct Hg1 as [Hg1|Hg1]; bool_hyps; [lia|done].
Qed.

(** An acknowledgement that is applied extends the chain by one, when its number
    is not beyond the next. *)
Lemma post_ack_chain P ss s msg s' ss' : chain_ok P s -> GetAckCount s < MaxUint64 ->
  1 <= ma_Number msg <= GetAckCount s + 1 -> ma_StartBlock msg < ma_EndBlock msg ->
  (forall c, cp_Id c = ma_Number msg -> cp_StartBlock c = ma_StartBlock msg -> cp_EndBlock c = ma_EndBlock msg ->
     cp_RootHash c = ma_RootHash msg -> P c) ->
  PostHandleMsgCheckpointAck ss s msg VOTE_YES = Ok (s', ss') ->
  chain_ok P s' /\ GetAckCount s' = GetAckCount s + 1.
Proof.
  intros Hc Hb Hnum Hlt HP H. unfold PostHandleMsgCheckpointAck in H. cbn [IsSideTxApproved] in H.
  ok_step H. ok_step H. ok_step H. cbv zeta in H. ok_inv H. subst s'. clear Ha1 Ha2 Ha3.
  apply ack_matches_inv in Ha as (Hbuf & Hs & Hs' & He & Hr).
  unfold AddCheckpoint in Ha0. ok_step Ha0. injection Ha0 as <-. cbn [cp_Id acknowledged with_cp_proposer] in *.
  bool_hyps. pose proof (co_count _ _ Hc) as Hpos.
  assert (ma_Number msg = GetAckCount s + 1) as En.
  { destruct (decide (ma_Number msg = GetAckCount s + 1)); [done|]. destruct Hg0.
    apply (co_numbers _ _ Hc). lia. }
  set (c := with_cp_proposer _ _) in *.
  assert (GetAckCount (IncrementAckCount (FlushCheckpointBuffer (set_chain s (<[ma_Number msg := c]> (checkpoints s))
            (bufferedCheckpoint s) (ackCount s)))) = GetAckCount s + 1) as Ec.
  { unfold IncrementAckCount, UpdateAckCountWithValue, FlushCheckpointBuffer, set_chain, GetAckCount. cbn.
    apply u64_id. unfold in_u64. unfold GetAckCount in Hpos, Hb. lia. }
  split; [|exact Ec]. destruct Hc as [_ H1 H2 H3 H4 H5]. split; rewrite ?Ec; cbn [checkpoints].
  - lia.
  - intros i. cbn. destruct (decide (i = ma_Number msg)) as [->|Hne].
    + rewrite lookup_insert_eq. split; [intros; lia|done].
    + rewrite lookup_insert_ne by done. rewrite H1. lia.
  - cbn. intros i d. destruct (decide (i = ma_Number msg)) as [->|Hne].
    + rewrite lookup_insert_eq. intros [= <-]. cbn in *. split; [done|]. split; [lia|]. by apply HP.
    + rewrite lookup_insert_ne by done. apply H2.
  - cbn. intros d. destruct (decide (1 = ma_Number msg)) as [E|Hne].
    + rewrite <- E, lookup_insert_eq. intros [= <-]. cbn. specialize (H5 _ Hbuf). unfold next_start in H5.
      rewrite (proj2 (Z.eqb_eq _ _)) in H5 by lia. done.
    + rewrite lookup_insert_ne by done. apply H3.
  - cbn. intros i d d'. destruct (decide (i + 1 = ma_Number msg)) as [E|Hne].
    + rewrite <- E, lookup_insert_eq, lookup_insert_ne by lia. intros Hd [= <-]. cbn.
      specialize (H5 _ Hbuf). unfold next_start in H5. replace (GetAckCount s) with i in H5 by lia.
      destruct (Z.eqb_spec i 0) as [E0|]; [exfalso|].
      * assert (is_Some (checkpoints s !! i)) as Hi by eauto. apply H1 in Hi. lia.
      * destruct H5 as (c' & Hc' & ->). congruence.
    + rewrite (lookup_insert_ne _ _ (i + 1)) by done.
      destruct (decide (i = ma_Number msg)) as [->|Hne'].
      * intros _ Hd. assert (is_Some (checkpoints s !! (ma_Number msg + 1))) as Hi by eauto. apply H1 in Hi. lia.
      * rewrite lookup_insert_ne by done. apply H4.
  - done.
Qed.

(** ** Histories

    A world is the state of the checkpoint and of the stake module.  [run past w]:
    a history from a state without checkpoints to [w], through the worlds [past]
    (which include [w]).  The votes that approve a message were cast in some
    earlier world, with the node's own view of Bor and its caches. *)

Definition World : Type := CheckpointState * StakeState.

Section history.
Context {AC : AddressCodec} {HF : HashFunction} {ML : MerkleLibrary} {BN : BorNode} {RC : RootChain}.
Context (out_of_range : SpecFloat.spec_float -> Z) (chainParams : ChainManagerParams).

Inductive step (past : list World) : World -> World -> Prop :=
| step_propose ctx accounts ss s msg s' :
    MsgServer_Checkpoint out_of_range ctx accounts ss s msg = Ok s' -> step past (s, ss) (s', ss)
| step_no_ack ctx nanos ss s msg s' ss' :
    MsgServer_CheckpointNoAck out_of_range ctx nanos ss s msg = Ok (s', ss') -> step past (s, ss) (s', ss')
| step_params authority from p ss s s' :
    UpdateCheckpointParams authority s from p = Ok s' -> step past (s, ss) (s', ss)
| step_stake s ss ss' : step past (s, ss) (s, ss')
| step_approved clock caches accounts s0 ss0 ctx msg w w' :
    (s0, ss0) ∈ past ->
    SideTxHandler clock caches accounts (Some chainParams) ss0 s0 msg = Ok VOTE_YES ->
    PostTxHandler ctx w msg VOTE_YES = Ok w' -> step past w w'.

Inductive run : list World -> World -> Prop :=
| run_start s ss : checkpoints s = ∅ -> bufferedCheckpoint s = None -> GetAckCount s = 0 -> run [(s, ss)] (s, ss)
| run_step past w w' : run past w -> step past w w' -> run (w' :: past) w'.

(** The root chain has a header block with the number, the range and the root of
    the checkpoint, at the block interval some world of the history had. *)
Definition on_root_chain (past : list World) (c : Checkpoint) : Prop :=
  exists s ss p proposer, (s, ss) ∈ past /\ checkpoint_params s = Some p /\
    GetHeaderInfo (RootChainAddress chainParams) (cp_Id c) (ChildChainBlockInterval p)
    = Ok (cp_RootHash c, cp_StartBlock c, cp_EndBlock c, proposer).

Lemma side_ack_yes s msg : SideHandleMsgCheckpointAck (Some chainParams) s msg = Ok VOTE_YES ->
  ma_StartBlock msg < ma_EndBlock msg /\ expected_number s = Ok (ma_Number msg) /\
  exists p proposer, checkpoint_params s = Some p /\
    GetHeaderInfo (RootChainAddress chainParams) (ma_Number msg) (ChildChainBlockInterval p)
    = Ok (ma_RootHash msg, ma_StartBlock msg, ma_EndBlock msg, proposer).
Proof.
  unfold SideHandleMsgCheckpointAck. intros H. yes_inv H.
  destruct a3 as [[[root start] end_] proposer]. yes_inv H. injection Ha1 as <-. bool_hyps.
  unfold GetCheckpointParams in Ha2. apply of_option_ok in Ha2.
  split; [lia|]. split; [rewrite Ha; congruence|]. exists a2, proposer. split; [done|]. congruence.
Qed.

Lemma propose_same ctx accounts ss s msg s' : MsgServer_Checkpoint out_of_range ctx accounts ss s msg = Ok s' ->
  s' = FlushCheckpointBuffer s.
Proof.
  unfold MsgServer_Checkpoint. intros H. ok_inv H.
  match goal with Hf : (if _ then _ else _) = Ok _ |- _ => ok_inv Hf end. by subst.
Qed.
Lemma no_ack_same ctx nanos ss s msg s' ss' :
  MsgServer_CheckpointNoAck out_of_range ctx nanos ss s msg = Ok (s', ss') ->
  s' = SetLastNoAck s (u64 (BlockTime ctx)).
Proof. unfold MsgServer_CheckpointNoAck. intros H. ok_inv H. by subst. Qed.

(** One step, from worlds where the chain is well-formed. *)
Lemma step_chain past w w' :
  (forall w0, w0 ∈ past -> chain_ok (on_root_chain past) w0.1 /\ GetAckCount w0.1 <= GetAckCount w.1) ->
  w ∈ past -> GetAckCount w.1 < MaxUint64 -> step past w w' ->
  chain_ok (on_root_chain past) w'.1 /\ GetAckCount w.1 <= GetAckCount w'.1 <= GetAckCount w.1 + 1.
Proof.
  intros Hpast Hw Hb Hstep. destruct (Hpast w Hw) as [Hc _].
  destruct Hstep as [ctx accounts ss s msg s' H|ctx nanos ss s msg s' ss' H|authority from p ss s s' H|s ss ss'
                    |clock caches accounts s0 ss0 ctx msg w w' Hin Hside H]; cbn [fst] in *.
  - apply propose_same in H as ->. split; [|unfold GetAckCount; cbn; lia].
    apply (chain_ok_same _ s); auto.
  - apply no_ack_same in H as ->. split; [|unfold GetAckCount; cbn; lia].
    apply (chain_ok_same _ s); auto.
  - unfold UpdateCheckpointParams in H. ok_inv H. subst s'. split; [|unfold GetAckCount; cbn; lia].
    apply (chain_ok_same _ s); auto.
  - split; [done|lia].
  - destruct w as [s ss], w' as [s' ss']. cbn [fst] in *. destruct (Hpast _ Hin) as [Hc0 Hle].
    cbn [fst] in *. destruct msg as [msg|msg]; cbn [SideTxHandler PostTxHandler] in *.
    + ok_inv H. subst. destruct (post_checkpoint_chain _ _ _ _ _ Hc Ha) as [Hc' ->]. split; [done|lia].
    + apply side_ack_yes in Hside as (Hlt & Hexp & p & proposer & Hp & Hinfo).
      apply (expected_number_ok _ _ _ Hc0) in Hexp; [|lia]. pose proof (co_count _ _ Hc0).
      apply (post_ack_chain (on_root_chain past)) in H as [Hc' ->]; [split; [done|lia]|done..|lia|done|].
      intros c E1 E2 E3 E4. exists s0, ss0, p, proposer. by rewrite E1, E2, E3, E4.
Qed.

Lemma run_chain past w : run past w -> Z.of_nat (length past) < 2 ^ 64 ->
  w ∈ past /\ GetAckCount w.1 < Z.of_nat (length past) /\
  forall w0, w0 ∈ past -> chain_ok (on_root_chain past) w0.1 /\ GetAckCount w0.1 <= GetAckCount w.1.
Proof.
  induction 1 as [s ss E1 E2 E3|past w w' Hrun IH Hstep]; intros Hlen.
  - split; [apply list_elem_of_here|]. cbn [fst length]. split; [lia|]. intros w0 ->%list_elem_of_singleton.
    split; [|done]. cbn [fst]. split; rewrite ?E1, ?E2, ?E3; try lia.
    + intros i. rewrite lookup_empty. split; [intros []; done|lia].
    + intros i c. by rewrite lookup_empty.
    + intros c. by rewrite lookup_empty.
    + intros i c d. by rewrite lookup_empty.
    + done.
  - cbn [length] in Hlen |- *. destruct IH as (Hw & Hcount & Hpast); [lia|].
    destruct (step_chain past w w') as [Hc' Hle]; [done|done|unfold MaxUint64; lia|done|].
    assert (forall c, on_root_chain past c -> on_root_chain (w' :: past) c) as Hmono.
    { intros c (s & ss & p & proposer & Hin & H). exists s, ss, p, proposer. split; [by apply list_elem_of_further|done]. }
    split; [apply list_elem_of_here|]. split; [lia|]. intros w0 [->|Hin]%elem_of_cons.
    + split; [by apply (chain_ok_weaken _ _ _ Hmono)|lia].
    + destruct (Hpast w0 Hin) as [Hc0 Hle0]. split; [by apply (chain_ok_weaken _ _ _ Hmono)|lia].
Qed.

End history.

(** ** Words *)

Lemma AppendBytes32_words xs ws : Forall2 (fun x w => convertTo32 x = Some w) xs ws ->
  AppendBytes32 xs = concat ws /\ Forall (fun w => length w = 32%nat) ws.
Proof.
  unfold AppendBytes32. induction 1 as [|x w xs ws Hx _ [IH1 IH2]]; [done|]. cbn [flat_map concat].
  rewrite Hx, IH1. split; [done|]. constructor; [by eapply length_convertTo32|done].
Qed.
Lemma chunk_concat ws i w : Forall (fun w => length w = 32%nat) ws -> ws !! i = Some w -> chunk (concat ws) i = w.
Proof.
  intros Hf. revert i. unfold chunk, chunkSize. induction Hf as [|x ws Hx Hf IH]; intros [|i] Hi; try done; cbn [concat] in *.
  - injection Hi as ->. cbn [Nat.mul]. rewrite drop_0, take_app_length' by done. done.
  - replace (S i * 32)%nat with (length x + i * 32)%nat by lia. rewrite drop_app_add. by apply IH.
Qed.
Lemma length_concat_words ws : Forall (fun w : bytes => length w = 32%nat) ws ->
  length (concat ws) = (length ws * 32)%nat.
Proof. induction 1 as [|w ws Hw _ IH]; [done|]. cbn [concat length]. rewrite length_app. lia. Qed.

Section sign_bytes.
Context {AC : AddressCodec}.

Lemma convertTo32_address addr : length addr = 20%nat -> convertTo32 addr = Some (repeat Byte.x00 12 ++ addr).
Proof. intros E. unfold convertTo32. by rewrite E. Qed.
Lemma u64_word z : in_u64 z -> convertTo32 (BigBytes z) = Some (be_word 32 z) /\ u64 (be_value (be_word 32 z)) = z.
Proof.
  unfold in_u64, MaxUint64. intros Hz. assert (2 ^ 64 < 256 ^ 32) by done.
  split; [apply convertTo32_BigBytes; lia|]. rewrite be_value_word by (change (Z.of_nat 32) with 32; lia).
  apply u64_id. unfold in_u64, MaxUint64. lia.
Qed.

Lemma sign_bytes_round_trip msg addr id :
  StringToBytes (mc_Proposer msg) = Ok addr -> BytesToString addr = Ok (mc_Proposer msg) -> length addr = 20%nat ->
  in_u64 (mc_StartBlock msg) -> in_u64 (mc_EndBlock msg) -> in_u64 id -> mc_BorChainId msg = FormatUint id ->
  length (mc_RootHash msg) = 32%nat -> length (mc_AccountRootHash msg) = 32%nat ->
  exists b, GetSideSignBytes msg = Ok b /\ length b = 192%nat /\ UnpackCheckpointSideSignBytes b = Ok msg.
Proof.
  intros Ha Hb Hl Hs He Hi Hid Hr Har. destruct (u64_word _ Hs) as [Cs Vs]. destruct (u64_word _ He) as [Ce Ve].
  destruct (u64_word _ Hi) as [Ci Vi].
  set (ws := [repeat Byte.x00 12 ++ addr; be_word 32 (mc_StartBlock msg); be_word 32 (mc_EndBlock msg); mc_RootHash msg;
              mc_AccountRootHash msg; be_word 32 id]).
  destruct (AppendBytes32_words [addr; BigBytes (mc_StartBlock msg); BigBytes (mc_EndBlock msg); mc_RootHash msg;
              mc_AccountRootHash msg; BigBytes id] ws) as [Ew Hw].
  { repeat constructor; auto using convertTo32_address, convertTo32_full. }
  exists (concat ws). unfold GetSideSignBytes. rewrite Ha, Hid, ParseUint_FormatUint by done. cbn [fst]. rewrite Ew.
  pose proof (length_concat_words ws Hw) as Hlen. change (length ws * 32)%nat with 192%nat in Hlen.
  split; [done|]. split; [done|].
  unfold UnpackCheckpointSideSignBytes. rewrite Hlen. change (negb (192 =? chunkSize * 6)%nat) with false. cbn [fail_if].
  rewrite (chunk_concat ws 0 _ Hw eq_refl), (chunk_concat ws 1 _ Hw eq_refl), (chunk_concat ws 2 _ Hw eq_refl),
    (chunk_concat ws 3 _ Hw eq_refl), (chunk_concat ws 4 _ Hw eq_refl), (chunk_concat ws 5 _ Hw eq_refl).
  change (drop 12 (repeat Byte.x00 12 ++ addr)) with addr. rewrite Hb. cbn [mbind outcome_bind].
  rewrite Vs, Ve, Vi, <- Hid. by destruct msg.
Qed.
End sign_bytes.

(** ** No-acks *)

(** The proposer of the set after [k] rotations, one at a time. *)
Fixpoint rotated (k : nat) (vs : ValidatorSet) : outcome ValidatorSet :=
  match k with O => Ok vs | S k => vs ← IncrementProposerPriority vs 1; rotated k vs end.

Lemma is_coming_proposer_spec n : forall vs from, is_coming_proposer n vs from = Ok true ->
  exists k vs' p, (k < n)%nat /\ rotated k vs = Ok vs' /\ Proposer vs' = Some p /\
    FormatAddress (Signer p) = FormatAddress from.
Proof.
  induction n as [|n IH]; intros vs from H; [done|]. cbn [is_coming_proposer] in H.
  destruct (Proposer vs) as [p|] eqn:Ep; [|done]. cbn [must mbind outcome_bind] in H.
  destruct (String.eqb_spec (FormatAddress (Signer p)) (FormatAddress from)) as [E|_].
  - exists 0%nat, vs, p. split; [lia|done].
  - ok_step H. destruct (IH _ _ H) as (k & vs' & p' & Hk & Hr & Hp). exists (S k), vs', p'.
    split; [lia|]. split; [|done]. cbn [rotated]. by rewrite Ha.
Qed.

Lemma time_guard t u d : (time_After u t || (time_Sub t u <? d)) = false -> 0 <= d <= MaxInt64 ->
  (u.1 * Second + u.2) + d <= t.1 * Second + t.2.
Proof.
  unfold time_After, time_Sub, MaxInt64, MinInt64, Second. intros H Hd. bool_hyps.
  lia.
Qed.
Lemma time_Unix_in sec nsec : 0 <= sec < 2 ^ 62 -> time_Unix sec nsec = (sec + unixToInternal, nsec).
Proof. intros H. unfold time_Unix, unixToInternal. rewrite i64_id; [done|]. unfold in_i64, MinInt64, MaxInt64. lia. Qed.

Section no_acks.
Context (out_of_range : SpecFloat.spec_float -> Z).

Lemma no_ack_spec ctx nanos ss s msg s' ss' p :
  MsgServer_CheckpointNoAck out_of_range ctx nanos ss s msg = Ok (s', ss') ->
  checkpoint_params s = Some p -> 0 <= CheckpointBufferTime p <= MaxInt64 ->
  0 <= BlockTime ctx < 2 ^ 62 -> 0 <= GetLastNoAck s < 2 ^ 62 ->
  GetLastNoAck s * Second + CheckpointBufferTime p <= BlockTime ctx * Second + nanos /\
  (forall c, GetLastCheckpoint s = Ok c -> 0 <= cp_Timestamp c < 2 ^ 62 ->
     cp_Timestamp c * Second + CheckpointBufferTime p <= BlockTime ctx * Second + nanos) /\
  (exists vs k vs' q, GetValidatorSet ss = Ok vs /\ rotated (S k) vs = Ok vs' /\ Proposer vs' = Some q /\
     FormatAddress (Signer q) = FormatAddress (mn_From msg)) /\
  IncrementAccum ss 1 = Ok ss' /\ s' = SetLastNoAck s (BlockTime ctx).
Proof.
  intros H Hp Hbuf Ht Hn. unfold MsgServer_CheckpointNoAck in H.
  unfold GetCheckpointParams in H. rewrite Hp in H. cbn [of_option or_err mbind outcome_bind] in H.
  ok_inv H. subst a3 s'. rewrite (time_Unix_in (BlockTime ctx)) in * by done. rewrite (time_Unix_in (GetLastNoAck s)) in * by done.
  split; [|split; [|split; [|split; [done|]]]].
  - apply (time_guard (_, _) (_, _)) in Hg2; [|done]. cbn [fst snd] in Hg2. unfold Second in *. lia.
  - intros c Ec Hc. unfold last_checkpoint_time in Ha. rewrite Ec in Ha. injection Ha as <-.
    rewrite (i64_id (cp_Timestamp c)) in Hg by (unfold in_i64, MinInt64, MaxInt64; lia).
    rewrite (time_Unix_in (cp_Timestamp c)) in Hg by done.
    apply (time_guard (_, _) (_, _)) in Hg; [|done]. cbn [fst snd] in Hg. unfold Second in *. lia.
  - destruct a2; [|discriminate Hg0]. apply is_coming_proposer_spec in Ha2 as (k & vs' & q & _ & Hr & Hq).
    exists a0, k, vs', q. split; [done|]. cbn [rotated]. rewrite Ha1. done.
  - rewrite u64_id; [done|]. unfold in_u64, MaxUint64. lia.
Qed.
End no_acks.

(** ** Properties *)

(** C4: the stored checkpoints are a gapless chain: after any history they are
    numbered from 1 to the acknowledgement count, the first starts at block 0,
    each later one starts right after the end of its predecessor, and none is
    empty.  The votes that approved a message may have been cast arbitrarily long
    before it is applied. *)
Theorem checkpoints_are_gapless {AC : AddressCodec} {HF : HashFunction} {ML : MerkleLibrary} {BN : BorNode}
    {RC : RootChain} (out_of_range : SpecFloat.spec_float -> Z) (chainParams : ChainManagerParams) past w :
  run out_of_range chainParams past w -> Z.of_nat (length past) < 2 ^ 64 ->
  (forall i, is_Some (checkpoints w.1 !! i) <-> 1 <= i <= GetAckCount w.1) /\
  (forall i c, checkpoints w.1 !! i = Some c -> cp_Id c = i /\ cp_StartBlock c < cp_EndBlock c) /\
  (forall c, checkpoints w.1 !! 1 = Some c -> cp_StartBlock c = 0) /\
  (forall i c d, checkpoints w.1 !! i = Some c -> checkpoints w.1 !! (i + 1) = Some d ->
     cp_StartBlock d = u64 (cp_EndBlock c + 1)).
Proof.
  intros Hrun Hlen. destruct (run_chain _ _ _ _ Hrun Hlen) as (Hw & _ & Hpast).
  destruct (Hpast _ Hw) as [[_ H1 H2 H3 H4 _] _]. split; [done|]. split; [|by split].
  intros i c Hc. destruct (H2 i c Hc) as (? & ? & _). done.
Qed.

(** C9: every stored checkpoint is on the root chain: the header block with its
    number has its range and its root. *)
Theorem checkpoints_are_on_root_chain {AC : AddressCodec} {HF : HashFunction} {ML : MerkleLibrary} {BN : BorNode}
    {RC : RootChain} (out_of_range : SpecFloat.spec_float -> Z) (chainParams : ChainManagerParams) past w i c :
  run out_of_range chainParams past w -> Z.of_nat (length past) < 2 ^ 64 -> checkpoints w.1 !! i = Some c ->
  cp_Id c = i /\ on_root_chain chainParams past c.
Proof.
  intros Hrun Hlen Hc. destruct (run_chain _ _ _ _ Hrun Hlen) as (Hw & _ & Hpast).
  destruct (Hpast _ Hw) as [Hok _]. destruct (co_stored _ _ Hok _ _ Hc) as (? & _ & ?). done.
Qed.

(** The bytes the validators sign for a checkpoint decode to it, when its
    addresses, roots and chain id have their sizes. *)
Theorem side_sign_bytes_round_trip {AC : AddressCodec} msg addr id :
  StringToBytes (mc_Proposer msg) = Ok addr -> BytesToString addr = Ok (mc_Proposer msg) -> length addr = 20%nat ->
  in_u64 (mc_StartBlock msg) -> in_u64 (mc_EndBlock msg) -> in_u64 id -> mc_BorChainId msg = FormatUint id ->
  length (mc_RootHash msg) = 32%nat -> length (mc_AccountRootHash msg) = 32%nat ->
  exists b, GetSideSignBytes msg = Ok b /\ length b = 192%nat /\ UnpackCheckpointSideSignBytes b = Ok msg.
Proof. apply sign_bytes_round_trip. Qed.

(** a no-ack is accepted only when the buffer time has passed since the no-ack
    before it and since the last checkpoint, and only from a validator whose turn
    comes in the rotation of the stored set; it rotates the stored set by one and
    changes nothing else than the time of the last no-ack. *)
Theorem no_acks_are_spaced (out_of_range : SpecFloat.spec_float -> Z) ctx1 nanos1 ss1 s1 msg1 s1' ss1'
    ctx nanos ss s msg s' ss' p :
  MsgServer_CheckpointNoAck out_of_range ctx1 nanos1 ss1 s1 msg1 = Ok (s1', ss1') ->
  lastNoAck s = lastNoAck s1' ->
  MsgServer_CheckpointNoAck out_of_range ctx nanos ss s msg = Ok (s', ss') ->
  checkpoint_params s = Some p -> 0 <= CheckpointBufferTime p <= MaxInt64 ->
  0 <= BlockTime ctx1 < 2 ^ 62 -> 0 <= BlockTime ctx < 2 ^ 62 ->
  BlockTime ctx1 * Second + CheckpointBufferTime p <= BlockTime ctx * Second + nanos /\
  (forall c, GetLastCheckpoint s = Ok c -> 0 <= cp_Timestamp c < 2 ^ 62 ->
     cp_Timestamp c * Second + CheckpointBufferTime p <= BlockTime ctx * Second + nanos) /\
  (exists vs k vs' q, GetValidatorSet ss = Ok vs /\ rotated (S k) vs = Ok vs' /\ Proposer vs' = Some q /\
     FormatAddress (Signer q) = FormatAddress (mn_From msg)) /\
  IncrementAccum ss 1 = Ok ss' /\ s' = SetLastNoAck s (BlockTime ctx).
Proof.
  intros H1 E H Hp Hbuf Ht1 Ht. apply no_ack_same in H1 as ->.
  assert (GetLastNoAck s = BlockTime ctx1) as En.
  { unfold GetLastNoAck. rewrite E. cbn. apply u64_id. unfold in_u64, MaxUint64. lia. }
  rewrite <- En. rewrite <- En in Ht1. by apply (no_ack_spec out_of_range ctx nanos ss s msg s' ss' p).
Qed.

(** ** Witnesses *)

Module CheckpointDemo.

#[export] Instance demo_codec : AddressCodec := {|
  PubKeyAddress pk := None; AddressString bs := string_of_list_byte bs;
  BytesToString bs := Ok (string_of_list_byte bs); StringToBytes s := Ok (list_byte_of_string s);
|}.
#[export] Instance demo_hash : HashFunction := {| Keccak256 bs := take 32 bs |}.
#[export] Instance demo_merkle : MerkleLibrary := {| merkle_root l := head l |}.
#[export] Instance demo_node : BorNode := {|
  HeaderByNumber n := Ok (Some {| Number := n; HeaderHash := []; HeaderParentHash := [] |});
  RootHashOf start end_ := Ok "0101010101010101010101010101010101010101010101010101010101010101"%string;
|}.
#[export] Instance demo_root_chain : RootChain := {|
  GetRootChainInstance a := true;
  HeaderBlocks a id := Some (repeat Byte.x01 32, 0, 99, "0x1234567890"%string);
|}.
Definition to_zero (f : SpecFloat.spec_float) : Z := 0.
Definition demo_chain_params : ChainManagerParams :=
  {| MainChainTxConfirmations := 6; BorChainTxConfirmations := 10; BorChainId := "137";
     StakingInfoAddress := "0x51"; StateSenderAddress := "0x52"; RootChainAddress := "0x53" |}.

Definition demo_validator (i : Z) (a : string) : Validator := NewValidator i 0 0 0 10 [] a.
Definition demo_set : ValidatorSet :=
  {| Validators := [demo_validator 1 "0xaa"; demo_validator 2 "0xbb"]; Proposer := Some (demo_validator 1 "0xaa");
     TotalVotingPower := 20 |}.
Definition demo_stake : StakeState :=
  {| validators := ∅; signer := ∅; sequences := ∅; validatorSet := Some demo_set;
     previousSet := None; penultimateSet := None; lastBlockTxs := None |}.
Definition demo_cp_params : CheckpointParams :=
  {| CheckpointBufferTime := 1000 * Second; AvgCheckpointLength := 256; MaxCheckpointLength := 1024;
     ChildChainBlockInterval := 10000 |}.
Definition demo_state : CheckpointState :=
  {| checkpoints := ∅; bufferedCheckpoint := None; checkpoint_params := Some demo_cp_params; lastNoAck := None;
     ackCount := None; checkpointSignatures := None; checkpointSignaturesTxHash := None |}.
Definition demo_caches : CheckpointCaches := {| existsCache := ∅; rootCache := ∅ |}.
Definition demo_accounts : list DividendAccount := [{| User := "u"; FeeAmount := "5" |}].
Definition demo_msg : MsgCheckpoint :=
  {| mc_Proposer := "0xAA"; mc_StartBlock := 0; mc_EndBlock := 99; mc_RootHash := repeat Byte.x01 32;
     mc_AccountRootHash := repeat Byte.x00 31 ++ [Byte.x75]; mc_BorChainId := "137" |}.
Definition demo_ack : MsgCpAck :=
  {| ma_From := "0xaa"; ma_Number := 1; ma_Proposer := "0x1234567890"; ma_StartBlock := 0; ma_EndBlock := 99;
     ma_RootHash := repeat Byte.x01 32 |}.
Definition demo_ctx (t : Z) : Ctx := {| BlockHeight := 5; BlockTime := t |}.

Definition buffered_state : CheckpointState :=
  match PostHandleMsgCheckpoint (demo_ctx 5000) demo_state demo_msg VOTE_YES with Ok s => s | _ => demo_state end.
Definition acked_world : World :=
  match PostHandleMsgCheckpointAck demo_stake buffered_state demo_ack VOTE_YES with
  | Ok w => w
  | _ => (demo_state, demo_stake)
  end.
Definition demo_past : list World := [acked_world; (buffered_state, demo_stake); (demo_state, demo_stake)].

Lemma demo_run : run to_zero demo_chain_params demo_past acked_world.
Proof.
  apply (run_step _ _ [(buffered_state, demo_stake); (demo_state, demo_stake)] (buffered_state, demo_stake)).
  - apply (run_step _ _ [(demo_state, demo_stake)] (demo_state, demo_stake)); [by apply run_start|].
    apply (step_approved _ _ _ (fun _ => 0) demo_caches demo_accounts demo_state demo_stake (demo_ctx 5000)
             (MCheckpoint demo_msg)); [apply list_elem_of_here|vm_compute; reflexivity|vm_compute; reflexivity].
  - apply (step_approved _ _ _ (fun _ => 0) demo_caches demo_accounts buffered_state demo_stake (demo_ctx 6000)
             (MCpAck demo_ack)); [apply list_elem_of_here|vm_compute; reflexivity|vm_compute; reflexivity].
Qed.

Lemma checkpoints_are_gapless_witness : is_Some (checkpoints acked_world.1 !! 1).
Proof.
  apply (checkpoints_are_gapless to_zero demo_chain_params demo_past acked_world demo_run eq_refl).
  vm_compute. split; discriminate.
Defined.
Lemma checkpoints_are_on_root_chain_witness :
  exists c, checkpoints acked_world.1 !! 1 = Some c /\ on_root_chain demo_chain_params demo_past c.
Proof.
  destruct (checkpoints acked_world.1 !! 1) as [c|] eqn:Ec; [|vm_compute in Ec; discriminate Ec].
  exists c. split; [reflexivity|].
  exact (proj2 (checkpoints_are_on_root_chain to_zero demo_chain_params demo_past acked_world 1 c demo_run eq_refl Ec)).
Defined.
Definition signed_msg : MsgCheckpoint :=
  {| mc_Proposer := "abcdefghijklmnopqrst"; mc_StartBlock := 0; mc_EndBlock := 99; mc_RootHash := repeat Byte.x01 32;
     mc_AccountRootHash := repeat Byte.x02 32; mc_BorChainId := "137" |}.
Lemma side_sign_bytes_round_trip_witness :
  exists b, GetSideSignBytes signed_msg = Ok b /\ length b = 192%nat /\ UnpackCheckpointSideSignBytes b = Ok signed_msg.
Proof.
  apply (side_sign_bytes_round_trip signed_msg (list_byte_of_string "abcdefghijklmnopqrst") 137);
    unfold in_u64, MaxUint64; try reflexivity; cbn; lia.
Defined.
Lemma no_acks_are_spaced_witness : exists s1 ss1 s2 ss2,
  MsgServer_CheckpointNoAck to_zero (demo_ctx 1500) 0 demo_stake demo_state {| mn_From := "0xaa" |} = Ok (s1, ss1) /\
  MsgServer_CheckpointNoAck to_zero (demo_ctx 2500) 0 ss1 s1 {| mn_From := "0xbb" |} = Ok (s2, ss2) /\
  IncrementAccum ss1 1 = Ok ss2.
Proof.
  destruct (MsgServer_CheckpointNoAck to_zero (demo_ctx 1500) 0 demo_stake demo_state {| mn_From := "0xaa" |})
    as [[s1 ss1]|e|] eqn:E1; [|vm_compute in E1; discriminate E1..].
  destruct (MsgServer_CheckpointNoAck to_zero (demo_ctx 2500) 0 ss1 s1 {| mn_From := "0xbb" |})
    as [[s2 ss2]|e|] eqn:E2; [|vm_compute in E1; injection E1 as <- <-; vm_compute in E2; discriminate E2..].
  exists s1, ss1, s2, ss2. split; [reflexivity|]. split; [exact E2|].
  refine (proj1 (proj2 (proj2 (proj2 (no_acks_are_spaced to_zero (demo_ctx 1500) 0 demo_stake demo_state
    {| mn_From := "0xaa" |} s1 ss1 (demo_ctx 2500) 0 ss1 s1 {| mn_From := "0xbb" |} s2 ss2 demo_cp_params
    E1 eq_refl E2 _ _ _ _))))).
  - vm_compute in E1. injection E1 as <- <-. reflexivity.
  - vm_compute. split; discriminate.
  - cbn. lia.
  - cbn. lia.
Defined.
End CheckpointDemo.
