(* ===== verification/NonRp.v ===== *)
(** * Vote extensions without replay protection

    Models the second part of [app/vote_ext_utils.go]: every vote carries an
    extension that is signed without the height and the chain, so that the root
    chain can check it.  It is the sign bytes of a checkpoint, or a dummy.  The
    extension most of the power signed yields the signatures of a checkpoint. *)
From S2P Require Import Prelude SortedList Helpers External VoteTypes StakeHandlers ValidatorSet MilestoneVotes VoteExt Numerals Checkpoint.
#[local] Open Scope Z_scope.

(** The big-endian bytes of an int64. *)
Definition be64 (z : Z) : bytes := rev (le64 (u64 z)).
Definition GetDummyNonRpVoteExtension (height : Z) (chainID : string) : bytes :=
  dummyNonRpVoteExtension ++ bar ++ be64 height ++ bar ++ list_byte_of_string chainID.

Definition packExtensionWithVote (extension : bytes) : bytes := Byte.x01 :: extension.

Section nonrp.
Context {AC : AddressCodec} {CL : ConsensusLayer} {HF : HashFunction} (cfg : Config).

(** ** The extension of the majority *)

(** The text of the hash of an extension, [common.Hash.String]. *)
Definition extension_key (extension : bytes) : string := String "0" (String "x" (Bytes2Hex (BytesToHash (Keccak256 extension)))).

(** [hashToExt] and [hashToVotingPower] *)
Definition ExtTally : Type := gmap string bytes * gmap string Z.
Definition collect_extension (ctx : Ctx) (validatorSet : ValidatorSet) (st : ExtTally) (vote : ExtendedVoteInfo)
    : outcome ExtTally :=
  if isFilteredPlaceholder vote || negb (is_commit vote) then Ok st
  else
    let hash := extension_key (vi_NonRpVoteExtension vote) in
    let hashToExt := <[hash := vi_NonRpVoteExtension vote]> st.1 in
    let power := map_get 0 st.2 hash in
    valAddr ← BytesToString (vi_Address vote);
    match get_val validatorSet valAddr with
    | None =>
        return_if ShouldErrorOnValidatorNotFound cfg (BlockHeight ctx) with ErrText "failed to get validator" ;;
        Ok (hashToExt, <[hash := power]> st.2)
    | Some validator => Ok (hashToExt, <[hash := i64 (power + VotingPower validator)]> st.2)
    end.
Fixpoint collect_extensions (ctx : Ctx) (validatorSet : ValidatorSet) (st : ExtTally) (votes : list ExtendedVoteInfo)
    : outcome ExtTally :=
  match votes with
  | [] => Ok st
  | vote :: rest =>
      st ← collect_extension ctx validatorSet st vote; collect_extensions ctx validatorSet st rest
  end.

(** The first of the strongest in the order of the hashes. *)
Definition strongest (l : list (string * Z)) : Z * string :=
  fold_left (fun (best : Z * string) e => if best.1 <? e.2 then (e.2, e.1) else best) l (0, EmptyString).

Definition getMajorityNonRpVoteExtension (ctx : Ctx) (extVoteInfo : list ExtendedVoteInfo) (validatorSet : ValidatorSet)
    : outcome bytes :=
  '(hashToExt, hashToVotingPower) ← collect_extensions ctx validatorSet (∅, ∅) extVoteInfo;
  '(totalVotingPower, _) ← GetTotalVotingPower validatorSet;
  let majorityVP := vote_majority totalVotingPower in
  let '(maxVotingPower, maxHash) := strongest (entries hashToVotingPower) in
  return_if IsPhuketHardfork cfg (BlockHeight ctx) && (maxVotingPower <=? majorityVP)
    with ErrText "insufficient voting power for majority non-rp vote extension" ;;
  Ok (map_get [] hashToExt maxHash).

(** ** Signatures *)

Fixpoint checkNonRpVoteExtensionsSignatures (ctx : Ctx) (extVoteInfo : list ExtendedVoteInfo) (validatorSet : ValidatorSet)
    : outcome unit :=
  match extVoteInfo with
  | [] => Ok tt
  | vote :: rest =>
      if isFilteredPlaceholder vote || negb (is_commit vote)
      then checkNonRpVoteExtensionsSignatures ctx rest validatorSet
      else
        valAddr ← BytesToString (vi_Address vote);
        match get_val validatorSet valAddr with
        | None =>
            return_if ShouldErrorOnValidatorNotFound cfg (BlockHeight ctx) with ErrText "failed to get validator" ;;
            checkNonRpVoteExtensionsSignatures ctx rest validatorSet
        | Some validator =>
            cmtPubKey ← of_option (ErrText "validator public key") (getValidatorPublicKey (PubKey validator));
            return_if negb (VerifySignature cmtPubKey (vi_NonRpVoteExtension vote) (vi_NonRpExtensionSignature vote))
              with ErrText "failed to verify validator vote extension signature" ;;
            checkNonRpVoteExtensionsSignatures ctx rest validatorSet
        end
  end.

(** [getCheckpointSignatures] *)
Definition getCheckpointSignatures (height : Z) (extension : bytes) (extVoteInfo : list ExtendedVoteInfo)
    : list CheckpointSignature :=
  let commitOnly := IsZurichHardfork cfg height in
  map (fun vote => {| sig_ValidatorAddress := vi_Address vote; sig_Signature := vi_NonRpExtensionSignature vote |})
    (List.filter (fun vote => negb (commitOnly && negb (is_commit vote))
                              && bool_decide (vi_NonRpVoteExtension vote = extension)) extVoteInfo).

(** ** The data of an extension

    The validation of a root hash goes through the caches of the checkpoint types. *)
Context {BN : BorNode} (clock : nat -> Z) (caches : CheckpointCaches).

Definition validateCheckpointMsgData (chainParams : option ChainManagerParams) (cs : CheckpointState) (extension : bytes)
    : outcome unit :=
  return_if Z.of_nat (length extension) <? minNonRpVoteExtensionSize with ErrText "non-rp vote extension size is too small" ;;
  checkpointMsg ← UnpackCheckpointSideSignBytes (drop 1 extension);
  chainParams ← of_option (ErrText "failed to get chain manager params") chainParams;
  return_if negb (String.eqb (BorChainId chainParams) (mc_BorChainId checkpointMsg)) with ErrText "invalid bor chain id" ;;
  params ← GetCheckpointParams cs;
  isValid ← (IsValidCheckpoint clock caches (mc_StartBlock checkpointMsg) (mc_EndBlock checkpointMsg)
               (mc_RootHash checkpointMsg) (MaxCheckpointLength params) (BorChainTxConfirmations chainParams)).1;
  return_if negb isValid with ErrText "invalid checkpoint msg data" ;;
  Ok tt.

Definition validateNonRpVoteExtensionData (ch : ChainInfo) (chainParams : option ChainManagerParams) (cs : CheckpointState)
    (height : Z) (extension : bytes) : outcome unit :=
  return_if Z.of_nat (length extension) <? minNonRpVoteExtensionSize with ErrText "non-rp vote extension size is too small" ;;
  return_if maxNonRpVoteExtensionSize <? Z.of_nat (length extension) with ErrText "non-rp vote extension size is too large" ;;
  if bool_decide (extension = GetDummyNonRpVoteExtension height (ChainID ch)) then Ok tt
  else validateCheckpointMsgData chainParams cs extension.

Definition ValidateNonRpVoteExtensions (ctx : Ctx) (ch : ChainInfo) (chainParams : option ChainManagerParams)
    (cs : CheckpointState) (height : Z) (extVoteInfo : list ExtendedVoteInfo) (validatorSet : ValidatorSet) : outcome unit :=
  if height <=? VoteExtensionsEnableHeight ch then Ok tt
  else
    majorityExt ← getMajorityNonRpVoteExtension ctx extVoteInfo validatorSet;
    checkNonRpVoteExtensionsSignatures ctx extVoteInfo validatorSet ≫= fun _ =>
    validateNonRpVoteExtensionData ch chainParams cs (i64 (height - 1)) majorityExt.
End nonrp.
