(* ===== verification/NonRpCorrect.v ===== *)
(** * Vote extensions without replay protection: correctness

    The signatures taken from the votes of a block are enough for the root chain:
    they are distinct validators' signatures of the same extension, they verify,
    and they stand for more than two thirds of the power.  When the votes pass: an
    extension that more than two thirds of the power signed is the one that is
    checked, and the dummy passes the check. *)
From S2P Require Import Prelude SortedList Helpers External ValidatorSet ValidatorSetFacts VoteTypes StakeHandlers Milestone MilestoneVotes MilestoneCollect VoteExt VoteExtCorrect Numerals Checkpoint CheckpointHandlers CheckpointCorrect NonRp.
#[local] Open Scope Z_scope.

(** A vote that counts: its address, its validator and the vote. *)
Record ExtBallot := { xb_addr : string; xb_val : Validator; xb_vote : ExtendedVoteInfo }.
Definition xb_ext (b : ExtBallot) : bytes := vi_NonRpVoteExtension (xb_vote b).
Definition xb_power (b : ExtBallot) : Z := VotingPower (xb_val b).

Section nonrp.
Context {AC : AddressCodec} {VC : VoteCodec} {CL : ConsensusLayer} {HF : HashFunction} (cfg : Config).

Definition ext_ballot (vs : ValidatorSet) (vote : ExtendedVoteInfo) : option ExtBallot :=
  if isFilteredPlaceholder vote || negb (is_commit vote) then None
  else match BytesToString (vi_Address vote) with
       | Ok a => match get_val vs a with
                 | Some v => Some {| xb_addr := a; xb_val := v; xb_vote := vote |}
                 | None => None
                 end
       | _ => None
       end.
Definition ext_ballots (vs : ValidatorSet) (votes : list ExtendedVoteInfo) : list ExtBallot := omap (ext_ballot vs) votes.
Definition power_for (bs : list ExtBallot) (key : string) : Z :=
  Zsum (map (fun b => if String.eqb (extension_key (xb_ext b)) key then xb_power b else 0) bs).

(** ** Validated votes are of distinct validators *)

Lemma validated_ext_ballots ctx ch ms H round vs votes : forall sum seen bh st',
  formatted_codec -> validate_votes cfg ctx ch ms H round vs (sum, seen, bh) votes = Ok st' ->
  NoDup (map xb_addr (ext_ballots vs votes)) /\
  Forall (fun b => xb_addr b ∉ seen /\ FormatAddress (xb_addr b) = xb_addr b /\ get_val vs (xb_addr b) = Some (xb_val b))
    (ext_ballots vs votes).
Proof.
  induction votes as [|vote votes IH]; intros sum seen bh st' HC E; cbn [validate_votes] in E; [by split; constructor|].
  ok_step E. unfold ext_ballots. cbn [omap list_omap]. fold (ext_ballots vs votes). unfold ext_ballot at 1 2.
  unfold validate_vote in Ha. destruct (isFilteredPlaceholder vote); [injection Ha as <-; cbn [orb]; by eapply IH|].
  ok_step Ha. ok_step Ha. cbn [orb]. destruct (negb (is_commit vote)); [injection Ha as <-; by eapply IH|].
  ok_step Ha. rewrite Ha0. do 7 (ok_step Ha). destruct (get_val vs a0) as [v|] eqn:Ev.
  - do 4 ok_step Ha. injection Ha as <-. destruct (IH _ _ _ _ HC E) as [ND HF']. split; cbn [map xb_addr].
    + constructor; [|done]. intros (b & Eb & Hb)%list_elem_of_fmap. rewrite Forall_forall in HF'.
      destruct (HF' b Hb) as (Hn & _). rewrite <- Eb in Hn. set_solver.
    + bool_hyps. constructor; [split_and!; [done|by eapply HC|done]|].
      eapply Forall_impl; [exact HF'|]. cbn. intros b (? & ? & ?). split; [set_solver|done].
  - ok_step Ha. injection Ha as <-. destruct (IH _ _ _ _ HC E) as [ND HF']. split; [done|].
    eapply Forall_impl; [exact HF'|]. cbn. intros b (? & ? & ?). split; [set_solver|done].
Qed.

(** ** The tally *)

Lemma power_for_app bs bs' k : power_for (bs ++ bs') k = power_for bs k + power_for bs' k.
Proof. unfold power_for. by rewrite map_app, Zsum_app. Qed.
Lemma power_for_bounds bs k : Forall (fun b => 0 < xb_power b) bs -> 0 <= power_for bs k <= Zsum (map xb_power bs).
Proof.
  induction 1 as [|b bs Hb HP IH]; [cbn; lia|]. unfold power_for. cbn [map]. rewrite !Zsum_cons. fold (power_for bs k).
  destruct (String.eqb _ _); lia.
Qed.
Lemma power_for_filter bs k :
  power_for bs k = Zsum (map xb_power (List.filter (fun b => String.eqb (extension_key (xb_ext b)) k) bs)).
Proof.
  induction bs as [|b bs IH]; [done|]. unfold power_for. cbn [map List.filter]. rewrite Zsum_cons. fold (power_for bs k).
  rewrite IH. destruct (String.eqb _ _); [by cbn [map]; rewrite Zsum_cons|lia].
Qed.

(** The extensions of the votes that count. *)
Definition counted_extension (votes : list ExtendedVoteInfo) (e : bytes) : Prop :=
  exists vote, vote ∈ votes /\ vi_NonRpVoteExtension vote = e.
Record ext_tally_ok (P : bytes -> Prop) (st : ExtTally) (bs : list ExtBallot) : Prop := {
  xt_power k : map_get 0 st.2 k = power_for bs k;
  xt_known k : is_Some (st.2 !! k) -> is_Some (st.1 !! k);
  xt_ext k e : st.1 !! k = Some e -> extension_key e = k /\ P e;
}.

Lemma collect_ok P ctx vs votes : forall st st' seen,
  (forall vote, vote ∈ votes -> P (vi_NonRpVoteExtension vote)) ->
  Forall (fun b => 0 < xb_power b) (seen ++ ext_ballots vs votes) ->
  Zsum (map xb_power (seen ++ ext_ballots vs votes)) <= MaxInt64 ->
  ext_tally_ok P st seen -> collect_extensions cfg ctx vs st votes = Ok st' ->
  ext_tally_ok P st' (seen ++ ext_ballots vs votes).
Proof.
  induction votes as [|vote votes IH]; intros st st' seen HP Hpos Hmax Hst E; cbn [collect_extensions] in E.
  { injection E as <-. cbn. by rewrite app_nil_r. }
  ok_step E. assert (forall v, v ∈ votes -> P (vi_NonRpVoteExtension v)) as HP' by (intros v Hv; apply HP; by right).
  unfold ext_ballots in *. cbn [omap list_omap] in *. fold (ext_ballots vs votes) in *.
  unfold collect_extension in Ha. unfold ext_ballot in *. destruct (_ || _)%bool; [injection Ha as <-; by eapply IH|].
  ok_step Ha. rewrite Ha0 in *. set (key := extension_key (vi_NonRpVoteExtension vote)) in *.
  assert (forall z, ext_tally_ok P (<[key := vi_NonRpVoteExtension vote]> st.1, <[key := z]> st.2)
    (seen ++ match get_val vs a0 with Some v => [{| xb_addr := a0; xb_val := v; xb_vote := vote |}] | None => [] end) <->
    z = power_for (seen ++ match get_val vs a0 with Some v => [{| xb_addr := a0; xb_val := v; xb_vote := vote |}] | None => [] end) key) as Hstep.
  { intros z. split; [intros [H1 _ _]; specialize (H1 key); cbn in H1; by rewrite map_get_insert_eq in H1|]. intros ->.
    split; cbn [fst snd].
    - intros k. destruct (decide (key = k)) as [<-|Hne]; [by rewrite map_get_insert_eq|].
      rewrite map_get_insert_ne by done. rewrite (xt_power _ _ _ Hst), power_for_app. destruct (get_val vs a0); [|cbn; lia].
      unfold power_for at 3. cbn [map xb_ext xb_vote]. rewrite (proj2 (String.eqb_neq _ _)) by done. cbn. lia.
    - intros k. rewrite !lookup_insert_is_Some'. intros [?|?]; [by left|right; by apply (xt_known _ _ _ Hst)].
    - intros k e [[<- <-]|[_ He]]%lookup_insert_Some; [split; [done|apply HP; by left]|by apply (xt_ext _ _ _ Hst)]. }
  destruct (get_val vs a0) as [v|].
  - injection Ha as <-. set (b := {| xb_addr := a0; xb_val := v; xb_vote := vote |}) in *.
    replace (seen ++ b :: ext_ballots vs votes) with ((seen ++ [b]) ++ ext_ballots vs votes) in * by (by rewrite <- app_assoc).
    eapply IH; [done|done|done| |exact E]. apply Hstep. rewrite (xt_power _ _ _ Hst), power_for_app.
    unfold power_for at 3. cbn [map xb_ext xb_vote b]. fold key. rewrite String.eqb_refl. cbn [Zsum foldr].
    pose proof Hpos as [[Hp1 Hp2]%Forall_app Hp3]%Forall_app. apply Forall_inv in Hp2.
    rewrite map_app, Zsum_app, map_app, Zsum_app in Hmax. cbn [map Zsum foldr] in Hmax.
    pose proof (power_for_bounds seen key Hp1). assert (0 <= Zsum (map xb_power (ext_ballots vs votes))).
    { apply Zsum_nonneg, Forall_map. eapply Forall_impl; [exact Hp3|]. cbn. lia. }
    change (VotingPower v) with (xb_power b). rewrite i64_id; [lia|]. unfold in_i64, MinInt64. lia.
  - ok_step Ha. injection Ha as <-. rewrite app_nil_r in Hstep. eapply IH; [done|done|done| |exact E]. apply Hstep.
    by rewrite (xt_power _ _ _ Hst).
Qed.

Lemma strongest_in l : let '(p, h) := strongest l in (p = 0 /\ h = ""%string) \/ (h, p) ∈ l.
Proof.
  unfold strongest. assert (forall l acc (P : Z * string -> Prop), P acc -> (forall e, e ∈ l -> P (e.2, e.1)) ->
    P (fold_left (fun (best : Z * string) e => if best.1 <? e.2 then (e.2, e.1) else best) l acc)) as H.
  { clear l. induction l as [|e l IH]; intros acc P Hacc HP; cbn [fold_left]; [done|].
    apply IH; [destruct (_ <? _); [apply HP; by left|done]|intros x Hx; apply HP; by right]. }
  specialize (H l (0, ""%string) (fun r => (r.1 = 0 /\ r.2 = ""%string) \/ (r.2, r.1) ∈ l)).
  destruct (fold_left _ _ _) as [p h]. apply H; [by left|]. intros [h' p'] He. by right.
Qed.

(** The extension of the majority: more than two thirds of the power stand behind
    its hash. *)
Lemma majority_ok ctx ch ms H round vs votes ext :
  formatted_codec -> wf vs -> IsPhuketHardfork cfg (BlockHeight ctx) = true ->
  ValidateVoteExtensions cfg ctx ch ms H votes round vs = Ok tt -> VoteExtensionsEnableHeight ch < H ->
  getMajorityNonRpVoteExtension cfg ctx votes vs = Ok ext ->
  counted_extension votes ext /\ 2 * powers (Validators vs) < 3 * power_for (ext_ballots vs votes) (extension_key ext).
Proof.
  intros HC Hwf HPh HV Hen E. unfold ValidateVoteExtensions in HV. ok_step HV.
  destruct (Z.leb_spec H (VoteExtensionsEnableHeight ch)); [lia|].
  rewrite GetTotalVotingPower_wf in HV by done. cbn [mbind outcome_bind] in HV. ok_step HV. destruct a0 as [[sum seen] bh].
  rewrite validate_votes_total in Ha0. destruct (validated_ext_ballots _ _ _ _ _ _ _ _ _ _ _ HC Ha0) as [ND HF'].
  destruct (counted_power xb_addr xb_power vs (ext_ballots vs votes) Hwf ND) as [Hle Hpos].
  { eapply Forall_impl; [exact HF'|]. cbn. intros b (_ & ? & Hb). split; [done|]. exists (xb_val b). done. }
  unfold getMajorityNonRpVoteExtension in E. ok_step E. destruct a0 as [h2e h2p]. rewrite GetTotalVotingPower_wf in E by done.
  cbn [mbind outcome_bind] in E.
  assert (0 <= powers (Validators vs) <= MaxTotalVotingPower) as Ht
    by (split; [by apply powers_nonneg, wf_power_nonneg|by apply wf_sum]).
  rewrite vote_majority_exact in E by done. pose proof MaxTotalVotingPower_eq.
  assert (ext_tally_ok (counted_extension votes) (h2e, h2p) (ext_ballots vs votes)) as [T1 T2 T3].
  { apply (collect_ok _ ctx vs votes (∅, ∅) _ []); [intros v Hv; by exists v|done|cbn [app]; unfold MaxInt64; lia| |done].
    split; cbn [fst snd]; intros k; [unfold map_get; by rewrite lookup_empty|by rewrite lookup_empty; intros []|by rewrite lookup_empty]. }
  cbn [fst snd] in *. pose proof (strongest_in (entries h2p)) as Hs. destruct (strongest (entries h2p)) as [p h].
  rewrite HPh in E. ok_step E. injection E as <-. bool_hyps.
  assert (2 * powers (Validators vs) < 3 * p) as Hp.
  { pose proof (Z.mul_succ_div_gt (2 * powers (Validators vs)) 3 ltac:(lia)). lia. }
  destruct Hs as [[-> ->]|Hin]; [lia|]. apply elem_of_entries in Hin.
  destruct (T2 h ltac:(eauto)) as [e He]. destruct (T3 h e He) as [Hk HP]. unfold map_get. rewrite He. split; [done|].
  rewrite Hk, <- T1. unfold map_get. by rewrite Hin.
Qed.

(** The strongest is at least as strong as each. *)
Lemma strongest_max l k p : (k, p) ∈ l -> p <= (strongest l).1.
Proof.
  unfold strongest. assert (forall l acc, acc.1 <= (fold_left (fun (best : Z * string) e => if best.1 <? e.2 then (e.2, e.1) else best) l acc).1 /\
    forall e, e ∈ l -> e.2 <= (fold_left (fun (best : Z * string) e => if best.1 <? e.2 then (e.2, e.1) else best) l acc).1) as H.
  { clear l. induction l as [|x l IH]; intros acc; cbn [fold_left]; [split; [lia|by intros e He%elem_of_nil]|].
    destruct (IH (if acc.1 <? x.2 then (x.2, x.1) else acc)) as [H1 H2]. destruct (Z.ltb_spec acc.1 x.2); cbn [fst] in *;
      (split; [lia|]; intros e [->|He]%elem_of_cons; [lia|by apply H2]). }
  intros Hin. by apply (H l (0, ""%string)) in Hin.
Qed.
Lemma power_for_two bs k k' : k <> k' -> Forall (fun b => 0 < xb_power b) bs ->
  power_for bs k + power_for bs k' <= Zsum (map xb_power bs).
Proof.
  intros Hne. induction 1 as [|b bs Hb HP IH]; [cbn; lia|]. unfold power_for in *. cbn [map]. rewrite !Zsum_cons.
  destruct (String.eqb_spec (extension_key (xb_ext b)) k), (String.eqb_spec (extension_key (xb_ext b)) k'); subst; try done; lia.
Qed.

(** A vote the proposer keeps: it is that of a member of the set that signed its
    extension, or it does not count. *)
Definition kept_vote (vs : ValidatorSet) (vote : ExtendedVoteInfo) : Prop :=
  isFilteredPlaceholder vote = true \/ is_commit vote = false \/ exists a v key,
    BytesToString (vi_Address vote) = Ok a /\ get_val vs a = Some v /\ getValidatorPublicKey (PubKey v) = Some key /\
    VerifySignature key (vi_NonRpVoteExtension vote) (vi_NonRpExtensionSignature vote) = true.
Lemma kept_collected ctx vs votes : Forall (kept_vote vs) votes -> forall st, is_ok (collect_extensions cfg ctx vs st votes) = true.
Proof.
  induction 1 as [|vote votes Hv _ IH]; intros st; cbn [collect_extensions]; [done|]. unfold collect_extension.
  destruct Hv as [->|[->|(a & v & key & -> & Ev & _)]]; [apply IH|rewrite orb_true_r; apply IH|].
  cbn [mbind outcome_bind]. rewrite Ev. destruct (_ || _)%bool; apply IH.
Qed.
Lemma kept_signatures ctx vs votes : Forall (kept_vote vs) votes -> checkNonRpVoteExtensionsSignatures cfg ctx votes vs = Ok tt.
Proof.
  induction 1 as [|vote votes Hv _ IH]; cbn [checkNonRpVoteExtensionsSignatures]; [done|].
  destruct Hv as [->|[->|(a & v & key & -> & Ev & Hk & Hs)]]; [exact IH|by rewrite orb_true_r|].
  destruct (_ || _)%bool; [exact IH|]. cbn [mbind outcome_bind]. rewrite Ev, Hk. cbn [of_option mbind outcome_bind]. by rewrite Hs.
Qed.

(** The extension that more than two thirds of the power signed. *)
Definition shared_extension (vs : ValidatorSet) (votes : list ExtendedVoteInfo) (e : bytes) : Prop :=
  counted_extension votes e /\ 2 * powers (Validators vs) < 3 * power_for (ext_ballots vs votes) (extension_key e).

Lemma validated_powers ctx ch ms H round vs votes : formatted_codec -> wf vs -> VoteExtensionsEnableHeight ch < H ->
  ValidateVoteExtensions cfg ctx ch ms H votes round vs = Ok tt ->
  Zsum (map xb_power (ext_ballots vs votes)) <= powers (Validators vs) /\ Forall (fun b => 0 < xb_power b) (ext_ballots vs votes).
Proof.
  intros HC Hwf Hen HV. unfold ValidateVoteExtensions in HV. ok_step HV.
  destruct (Z.leb_spec H (VoteExtensionsEnableHeight ch)); [lia|].
  rewrite GetTotalVotingPower_wf in HV by done. cbn [mbind outcome_bind] in HV. ok_step HV. destruct a0 as [[sum seen] bh].
  rewrite validate_votes_total in Ha0. destruct (validated_ext_ballots _ _ _ _ _ _ _ _ _ _ _ HC Ha0) as [ND HF'].
  apply (counted_power xb_addr xb_power vs (ext_ballots vs votes) Hwf ND).
  eapply Forall_impl; [exact HF'|]. cbn. intros b (_ & ? & Hb). split; [done|]. exists (xb_val b). done.
Qed.

(** The extension of the majority is the shared one, and there is none without it. *)
Lemma majority_found ctx ch ms H round vs votes :
  formatted_codec -> wf vs -> VoteExtensionsEnableHeight ch < H ->
  ValidateVoteExtensions cfg ctx ch ms H votes round vs = Ok tt -> Forall (kept_vote vs) votes ->
  (forall v1 v2, v1 ∈ votes -> v2 ∈ votes -> extension_key (vi_NonRpVoteExtension v1) = extension_key (vi_NonRpVoteExtension v2) ->
     vi_NonRpVoteExtension v1 = vi_NonRpVoteExtension v2) ->
  (forall e, shared_extension vs votes e -> getMajorityNonRpVoteExtension cfg ctx votes vs = Ok e) /\
  (IsPhuketHardfork cfg (BlockHeight ctx) = true -> (forall e, ~ shared_extension vs votes e) ->
     getMajorityNonRpVoteExtension cfg ctx votes vs = Err (ErrText "insufficient voting power for majority non-rp vote extension")).
Proof.
  intros HC Hwf Hen HV Hk Hcoll. destruct (validated_powers _ _ _ _ _ _ _ HC Hwf Hen HV) as [Hle Hpos].
  assert (0 <= powers (Validators vs) <= MaxTotalVotingPower) as Ht
    by (split; [by apply powers_nonneg, wf_power_nonneg|by apply wf_sum]).
  pose proof MaxTotalVotingPower_eq. unfold getMajorityNonRpVoteExtension.
  pose proof (kept_collected ctx vs votes Hk (∅, ∅)) as Hc.
  destruct (collect_extensions cfg ctx vs (∅, ∅) votes) as [[h2e h2p]| |] eqn:Ec; [|done..]. clear Hc.
  assert (ext_tally_ok (counted_extension votes) (h2e, h2p) (ext_ballots vs votes)) as [T1 T2 T3].
  { apply (collect_ok _ ctx vs votes (∅, ∅) _ []); [intros v Hv; by exists v|done|cbn [app]; unfold MaxInt64; lia| |done].
    split; cbn [fst snd]; intros k; [unfold map_get; by rewrite lookup_empty|by rewrite lookup_empty; intros []|by rewrite lookup_empty]. }
  cbn [fst snd mbind outcome_bind] in *. rewrite GetTotalVotingPower_wf by done. cbn [mbind outcome_bind].
  rewrite vote_majority_exact by done.
  pose proof (strongest_in (entries h2p)) as Hs. pose proof (strongest_max (entries h2p)) as Hmax.
  destruct (strongest (entries h2p)) as [p h]. cbn [fst] in Hmax. split.
  - intros e [(v0 & Hv0 & Ev0) Hpow].
    assert (h2p !! extension_key e = Some (power_for (ext_ballots vs votes) (extension_key e))) as He.
    { specialize (T1 (extension_key e)). unfold map_get in T1. destruct (h2p !! extension_key e); cbn in T1; [by rewrite T1|lia]. }
    assert (h = extension_key e) as ->.
    { destruct (decide (h = extension_key e)) as [|Hne]; [done|]. apply elem_of_entries, Hmax in He.
      destruct Hs as [[-> ->]|Hin%elem_of_entries]; [lia|]. specialize (T1 h). unfold map_get in T1. rewrite Hin in T1. cbn in T1.
      pose proof (power_for_two _ _ _ Hne Hpos). lia. }
    destruct (T2 (extension_key e) ltac:(eauto)) as [e' He']. destruct (T3 _ _ He') as [Hk' (v1 & Hv1 & <-)].
    assert (2 * powers (Validators vs) / 3 < p) as Hp.
    { apply elem_of_entries, Hmax in He. apply Z.div_lt_upper_bound; lia. }
    rewrite (proj2 (Z.leb_gt _ _) Hp), andb_false_r. cbn [fail_if]. unfold map_get. rewrite He'. cbn. f_equal.
    subst e. by apply Hcoll.
  - intros HPh Hno. rewrite HPh. assert (p <= 2 * powers (Validators vs) / 3) as Hp; [|by rewrite (proj2 (Z.leb_le _ _) Hp)].
    destruct Hs as [[-> ->]|Hin%elem_of_entries]; [apply Z.div_pos; lia|].
    destruct (T2 h ltac:(eauto)) as [e He]. destruct (T3 h e He) as [Hke HP]. specialize (T1 h). unfold map_get in T1. rewrite Hin in T1. cbn in T1.
    destruct (Z.le_gt_cases p (2 * powers (Validators vs) / 3)) as [|Hgt]; [done|]. exfalso. apply (Hno e). split; [done|].
    rewrite Hke, <- T1. pose proof (Z.mul_succ_div_gt (2 * powers (Validators vs)) 3 ltac:(lia)). lia.
Qed.

(** ** Signatures *)

Definition signs (vs : ValidatorSet) (vote : ExtendedVoteInfo) : Prop :=
  exists b key, ext_ballot vs vote = Some b /\ getValidatorPublicKey (PubKey (xb_val b)) = Some key /\
    VerifySignature key (vi_NonRpVoteExtension vote) (vi_NonRpExtensionSignature vote) = true.

Lemma signatures_checked ctx vs votes : ShouldErrorOnValidatorNotFound cfg (BlockHeight ctx) = true ->
  checkNonRpVoteExtensionsSignatures cfg ctx votes vs = Ok tt ->
  Forall (fun vote => isFilteredPlaceholder vote = false -> is_commit vote = true -> signs vs vote) votes.
Proof.
  intros HS. induction votes as [|vote votes IH]; intros E; cbn [checkNonRpVoteExtensionsSignatures] in E; [constructor|].
  destruct (isFilteredPlaceholder vote) eqn:Ep; [constructor; [congruence|by apply IH]|].
  destruct (is_commit vote) eqn:Ec; [|constructor; [congruence|by apply IH]]. cbn [orb negb] in E.
  ok_step E. destruct (get_val vs a) as [v|] eqn:Ev; [|by rewrite HS in E].
  ok_step E. ok_step E. apply of_option_ok in Ha0. bool_hyps. constructor; [|by apply IH]. intros _ _.
  exists {| xb_addr := a; xb_val := v; xb_vote := vote |}, a0. unfold ext_ballot. by rewrite Ep, Ec, Ha, Ev.
Qed.

(** The signatures taken for an extension, and who made them. *)
Definition signers (vs : ValidatorSet) (votes : list ExtendedVoteInfo) (ext : bytes) : list (string * Validator) :=
  map (fun b => (xb_addr b, xb_val b)) (List.filter (fun b => bool_decide (xb_ext b = ext)) (ext_ballots vs votes)).
Definition signature_of (vs : ValidatorSet) (ext : bytes) (s : CheckpointSignature) (p : string * Validator) : Prop :=
  BytesToString (sig_ValidatorAddress s) = Ok p.1 /\ get_val vs p.1 = Some p.2 /\
  exists key, getValidatorPublicKey (PubKey p.2) = Some key /\ VerifySignature key ext (sig_Signature s) = true.

Lemma signatures_of_signers vs votes H ext : IsZurichHardfork cfg H = true -> ext <> [] ->
  Forall (fun vote => isFilteredPlaceholder vote = false -> is_commit vote = true -> signs vs vote) votes ->
  Forall2 (signature_of vs ext) (getCheckpointSignatures cfg H ext votes) (signers vs votes ext).
Proof.
  intros HZ Hne. unfold getCheckpointSignatures, signers, ext_ballots. rewrite HZ. cbn [andb].
  induction 1 as [|vote votes Hv _ IH]; [constructor|]. cbn [omap list_omap List.filter]. rewrite negb_involutive.
  destruct (is_commit vote) eqn:Ec; cbn [andb].
  2:{ unfold ext_ballot at 1. by rewrite Ec, orb_true_r. }
  case_bool_decide as He.
  - assert (isFilteredPlaceholder vote = false) as Ep.
    { unfold isFilteredPlaceholder. rewrite He. destruct ext; [done|]. cbn. by rewrite !andb_false_r. }
    destruct (Hv Ep eq_refl) as (b & key & Eb & Hk & Hs). rewrite Eb. cbn [List.filter map].
    unfold ext_ballot in Eb. rewrite Ep, Ec in Eb. cbn [orb negb] in Eb.
    destruct (BytesToString (vi_Address vote)) as [a| |] eqn:Ea; [|done..].
    destruct (get_val vs a) as [v|] eqn:Ev; [|done]. injection Eb as <-. unfold xb_ext. cbn [xb_vote].
    rewrite bool_decide_true by done. cbn [map]. constructor; [|exact IH].
    unfold signature_of. cbn. rewrite Ea, Ev. split_and!; [done|done|]. exists key. by rewrite He in Hs.
  - destruct (ext_ballot vs vote) as [b|] eqn:Eb; [|exact IH]. cbn [List.filter].
    rewrite bool_decide_false; [exact IH|]. unfold ext_ballot in Eb. repeat case_match; try done. by injection Eb as <-.
Qed.

Lemma ext_ballots_votes vs votes b : b ∈ ext_ballots vs votes -> xb_vote b ∈ votes.
Proof.
  unfold ext_ballots. rewrite list_elem_of_omap. intros (vote & Hin & E). unfold ext_ballot in E.
  repeat case_match; try done. by injection E as <-.
Qed.

Lemma signers_power vs votes ext :
  (forall v1 v2, v1 ∈ votes -> v2 ∈ votes -> extension_key (vi_NonRpVoteExtension v1) = extension_key (vi_NonRpVoteExtension v2) ->
     vi_NonRpVoteExtension v1 = vi_NonRpVoteExtension v2) ->
  counted_extension votes ext ->
  Zsum (map (fun p => VotingPower p.2) (signers vs votes ext)) = power_for (ext_ballots vs votes) (extension_key ext).
Proof.
  intros Hcoll (v0 & Hv0 & <-). rewrite power_for_filter. unfold signers. rewrite map_map. f_equal.
  change (fun b => VotingPower (xb_addr b, xb_val b).2) with xb_power. f_equal. apply filter_ext_in. intros b Hb.
  apply list_elem_of_In, ext_ballots_votes in Hb. destruct (String.eqb_spec (extension_key (xb_ext b)) (extension_key (vi_NonRpVoteExtension v0))) as [E|E].
  - apply bool_decide_eq_true. by apply Hcoll in E.
  - apply bool_decide_eq_false. intros Hx. apply E. by rewrite Hx.
Qed.
End nonrp.

(** ** The dummy extension *)

Lemma length_dummy height chain : length (GetDummyNonRpVoteExtension height chain) = (length dummyNonRpVoteExtension + 10 + String.length chain)%nat.
Proof.
  unfold GetDummyNonRpVoteExtension, be64. rewrite !length_app, length_rev. unfold le64. rewrite length_le_encode.
  cbn [bar length]. assert (length (list_byte_of_string chain) = String.length chain) as ->.
  { unfold list_byte_of_string. rewrite length_map. induction chain; cbn; [done|by f_equal]. }
  lia.
Qed.
Lemma dummy_valid {AC : AddressCodec} {BN : BorNode} clock caches ch params cs height :
  (String.length (ChainID ch) <= 400)%nat ->
  validateNonRpVoteExtensionData clock caches ch params cs height (GetDummyNonRpVoteExtension height (ChainID ch)) = Ok tt.
Proof.
  intros Hc. unfold validateNonRpVoteExtensionData, minNonRpVoteExtensionSize, maxNonRpVoteExtensionSize.
  rewrite length_dummy. rewrite (proj2 (Z.ltb_ge _ _)) by lia.
  assert (length dummyNonRpVoteExtension <= 50)%nat by (vm_compute; lia).
  rewrite (proj2 (Z.ltb_ge _ _)) by lia. cbn [fail_if]. by rewrite bool_decide_true.
Qed.

(** ** The extension of a checkpoint *)

(** A checkpoint whose bytes to sign read back: its proposer is an address in the text
    the codec writes, its chain a number, its roots are hashes. *)
Record signable {AC : AddressCodec} (c : MsgCheckpoint) : Prop := {
  sb_proposer : exists addr, StringToBytes (mc_Proposer c) = Ok addr /\ BytesToString addr = Ok (mc_Proposer c) /\ length addr = 20%nat;
  sb_start : in_u64 (mc_StartBlock c);
  sb_end : in_u64 (mc_EndBlock c);
  sb_chain : exists id, in_u64 id /\ mc_BorChainId c = FormatUint id;
  sb_root : length (mc_RootHash c) = 32%nat;
  sb_account_root : length (mc_AccountRootHash c) = 32%nat;
}.
(** Whether the Bor node of a validator confirms the root of the checkpoint. *)
Definition bor_confirms {BN : BorNode} (clock : nat -> Z) (caches : CheckpointCaches) (p : ChainManagerParams)
    (cp : CheckpointParams) (c : MsgCheckpoint) : outcome bool :=
  (IsValidCheckpoint clock caches (mc_StartBlock c) (mc_EndBlock c) (mc_RootHash c) (MaxCheckpointLength cp)
     (BorChainTxConfirmations p)).1.

Lemma packed_not_dummy signBytes height chain : packExtensionWithVote signBytes <> GetDummyNonRpVoteExtension height chain.
Proof.
  unfold packExtensionWithVote, GetDummyNonRpVoteExtension. destruct dummyNonRpVoteExtension as [|b l] eqn:Ed; [vm_compute in Ed; discriminate Ed|].
  cbn [app]. intros [= <- _]. vm_compute in Ed. discriminate Ed.
Qed.
Lemma checkpoint_data_checked {AC : AddressCodec} {BN : BorNode} clock caches ch p cp cs height c signBytes :
  signable c -> GetSideSignBytes c = Ok signBytes -> BorChainId p = mc_BorChainId c -> GetCheckpointParams cs = Ok cp ->
  validateNonRpVoteExtensionData clock caches ch (Some p) cs height (packExtensionWithVote signBytes) =
    (valid ← bor_confirms clock caches p cp c; return_if negb valid with ErrText "invalid checkpoint msg data" ;; Ok tt).
Proof.
  intros [(addr & A1 & A2 & A3) Hs He (id & Hi & Hid) Hr Har] Hsb Hch Hcp.
  destruct (sign_bytes_round_trip c addr id A1 A2 A3 Hs He Hi Hid Hr Har) as (b & Eb & Hl & Hun).
  assert (b = signBytes) as -> by congruence.
  assert (Z.of_nat (length (packExtensionWithVote signBytes)) = 193) as Hlen by (cbn [packExtensionWithVote length]; lia).
  assert (minNonRpVoteExtensionSize <= 193) by (vm_compute; discriminate).
  unfold validateNonRpVoteExtensionData, validateCheckpointMsgData, maxNonRpVoteExtensionSize. rewrite Hlen.
  rewrite (proj2 (Z.ltb_ge _ _)) by lia. cbn [fail_if]. change (500 <? 193) with false. cbn [fail_if].
  rewrite bool_decide_false by apply packed_not_dummy.
  change (drop 1 (packExtensionWithVote signBytes)) with signBytes. rewrite Hun. cbn [mbind outcome_bind of_option].
  rewrite Hch, String.eqb_refl. cbn [negb fail_if]. rewrite Hcp. done.
Qed.

(** ** Properties *)

(** C29: the checkpoint signatures are enough.  When the votes of a block and their
    extensions without replay protection pass the checks of the other validators,
    the signatures taken for the extension of the majority are by distinct
    validators, each verifies over exactly this extension, and the signers have
    more than two thirds of the power, as the root chain requires. *)
Theorem checkpoint_signatures_suffice {AC : AddressCodec} {VC : VoteCodec} {CL : ConsensusLayer} {HF : HashFunction}
    {BN : BorNode} (cfg : Config) (clock : nat -> Z) (caches : CheckpointCaches) (ctx : Ctx) (ch : ChainInfo)
    (ms : MilestoneState) (chainParams : option ChainManagerParams) (cs : CheckpointState) H votes round (vs : ValidatorSet) :
  formatted_codec -> wf vs -> VoteExtensionsEnableHeight ch < H ->
  IsPhuketHardfork cfg (BlockHeight ctx) = true -> IsZurichHardfork cfg H = true ->
  ShouldErrorOnValidatorNotFound cfg (BlockHeight ctx) = true ->
  (forall v1 v2, v1 ∈ votes -> v2 ∈ votes -> extension_key (vi_NonRpVoteExtension v1) = extension_key (vi_NonRpVoteExtension v2) ->
     vi_NonRpVoteExtension v1 = vi_NonRpVoteExtension v2) ->
  ValidateVoteExtensions cfg ctx ch ms H votes round vs = Ok tt ->
  ValidateNonRpVoteExtensions cfg clock caches ctx ch chainParams cs H votes vs = Ok tt ->
  exists ext, getMajorityNonRpVoteExtension cfg ctx votes vs = Ok ext /\
    Forall2 (signature_of vs ext) (getCheckpointSignatures cfg H ext votes) (signers vs votes ext) /\
    NoDup (map fst (signers vs votes ext)) /\
    2 * powers (Validators vs) < 3 * Zsum (map (fun p => VotingPower p.2) (signers vs votes ext)).
Proof.
  intros HC Hwf Hen HPh HZ HS Hcoll HV HN. unfold ValidateNonRpVoteExtensions in HN.
  destruct (Z.leb_spec H (VoteExtensionsEnableHeight ch)); [lia|]. ok_step HN. rename a into ext. ok_step HN. destruct a.
  exists ext. split; [done|]. destruct (majority_ok cfg _ _ _ _ _ _ _ _ HC Hwf HPh HV Hen Ha) as [Hext Hpow].
  assert (ext <> []) as Hne.
  { intros ->. unfold validateNonRpVoteExtensionData in HN. ok_step HN. vm_compute in Hg. discriminate Hg. }
  split; [|split].
  - apply signatures_of_signers; [done..|]. by eapply signatures_checked.
  - unfold ValidateVoteExtensions in HV. ok_step HV. destruct (Z.leb_spec H (VoteExtensionsEnableHeight ch)); [lia|].
    rewrite GetTotalVotingPower_wf in HV by done. cbn [mbind outcome_bind] in HV. ok_step HV. destruct a0 as [[sum seen] bh].
    rewrite validate_votes_total in Ha2. destruct (validated_ext_ballots cfg _ _ _ _ _ _ _ _ _ _ _ HC Ha2) as [ND _].
    unfold signers. rewrite map_map. cbn [fst]. change (fun x => xb_addr x) with xb_addr.
    eapply sublist_NoDup; [exact ND|]. apply (fmap_sublist xb_addr). clear. induction (ext_ballots vs votes) as [|b l IH]; cbn; [constructor|].
    case_bool_decide; by constructor.
  - rewrite signers_power by done. exact Hpow.
Qed.

(** ** Witnesses: the first of three validators did not sign *)

Module NonRpDemo.
Import VoteDemo.
#[export] Instance demo_hash : HashFunction := {| Keccak256 b := b |}.
#[export] Instance demo_node : BorNode := {| HeaderByNumber _ := Ok None; RootHashOf _ _ := Err ErrNotFound |}.
Definition demo_dummy : bytes := GetDummyNonRpVoteExtension 99 "heimdall".
Definition signed (v : ExtendedVoteInfo) : ExtendedVoteInfo :=
  {| vi_Address := vi_Address v; vi_Power := vi_Power v; vi_Flag := vi_Flag v; vi_VoteExtension := vi_VoteExtension v;
     vi_ExtensionSignature := vi_ExtensionSignature v; vi_NonRpVoteExtension := demo_dummy;
     vi_NonRpExtensionSignature := [Byte.x01] |}.
Definition signed_votes : list ExtendedVoteInfo :=
  [toFilteredPlaceholder (vote Byte.xaa Byte.x02 10); signed (vote Byte.xbb Byte.x01 20); signed (vote Byte.xcc Byte.x01 30)].
Definition no_caches : CheckpointCaches := {| existsCache := ∅; rootCache := ∅ |}.
Definition no_checkpoints : CheckpointState :=
  {| checkpoints := ∅; bufferedCheckpoint := None; checkpoint_params := None; lastNoAck := None; ackCount := None;
     checkpointSignatures := None; checkpointSignaturesTxHash := None |}.

Lemma checkpoint_signatures_suffice_witness :
  length (getCheckpointSignatures demo_config 100 demo_dummy signed_votes) = 2%nat /\
  2 * 60 < 3 * Zsum (map (fun p => VotingPower p.2) (signers demo_set signed_votes demo_dummy)).
Proof.
  destruct (checkpoint_signatures_suffice demo_config (fun _ => 0) no_caches demo_ctx demo_chain demo_milestones None no_checkpoints
    100 signed_votes 0 demo_set) as (ext & E & H1 & _ & H2).
  - exact vote_formatted.
  - exact vote_set_wf.
  - reflexivity.
  - reflexivity.
  - reflexivity.
  - reflexivity.
  - intros v1 v2 H1 H2. apply list_elem_of_In in H1, H2. cbn [signed_votes In] in H1, H2.
    destruct H1 as [<-|[<-|[<-|[]]]], H2 as [<-|[<-|[<-|[]]]]; vm_compute; congruence.
  - vm_compute. reflexivity.
  - vm_compute. reflexivity.
  - assert (ext = demo_dummy) as -> by (vm_compute in E; injection E as <-; vm_compute; reflexivity).
    split; [|exact H2]. apply Forall2_length in H1. rewrite H1. vm_compute. reflexivity.
Defined.
End NonRpDemo.
