(* ===== verification/BorTypes.v ===== *)
(** * Spans and their arithmetic

    Models [x/bor/types/util.go] and [params.go]: the spans committed by the Bor
    chain beyond the last known one, computed in closed form and by generation,
    and the theorem that the two agree. *)
From S2P Require Import Prelude SortedList Helpers ValidatorSet.
#[local] Open Scope Z_scope.

Record Span := {
  span_Id : Z;                       (* uint64 *)
  span_StartBlock : Z;               (* uint64 *)
  span_EndBlock : Z;                 (* uint64, inclusive *)
  span_ValidatorSet : ValidatorSet;
  SelectedProducers : list Validator;
  span_BorChainId : string;
}.

(** ** Parameters *)

Definition DefaultSprintDuration : Z := 16.
Definition DefaultSpanDuration : Z := 400 * DefaultSprintDuration.
Definition DefaultFirstSpanDuration : Z := 256.
Definition DefaultProducerCount : Z := 4.

Record BorParams := { SprintDuration : Z; SpanDuration : Z; ProducerCount : Z }.

Definition DefaultParams : BorParams :=
  {| SprintDuration := DefaultSprintDuration; SpanDuration := DefaultSpanDuration;
     ProducerCount := DefaultProducerCount |}.

Definition validatePositiveIntForParam (v : Z) : outcome unit :=
  return_if v =? 0 with ErrText "invalid value provided for bor param" ;; Ok tt.
Definition ValidateBasic_BorParams (p : BorParams) : outcome unit :=
  validatePositiveIntForParam (SprintDuration p) ≫= fun _ =>
  validatePositiveIntForParam (SpanDuration p) ≫= fun _ =>
  validatePositiveIntForParam (ProducerCount p).

Definition PlannedDowntimeMinimumTimeInFuture : Z := 150.
Definition PlannedDowntimeMaximumTimeInFuture : Z := 100 * DefaultSpanDuration.
Definition PlannedDowntimeMinRange : Z := 150.
Definition PlannedDowntimeMaxRange : Z := 14 * DefaultSpanDuration.
Definition RoundRobinDefault : Z := 0.

(** ** Sorting *)

(** [SortValidatorByAddress] of the bor types compares the raw signers. *)
Definition bor_SortValidatorByAddress (a : list Validator) : list Validator := sort_by Signer a.
Definition SortSpansById (a : list Span) : list Span := sort_by span_Id a.

(** ** Span arithmetic *)

(** [IsBlockCloseToSpanEnd]; the subtraction is unsigned. *)
Definition IsBlockCloseToSpanEnd (blockNumber spanEnd : Z) : bool :=
  (blockNumber <=? spanEnd) && (u64 (spanEnd - 100) <=? blockNumber).

(** [GenerateBorCommittedSpans]: the loop, [None] when [fuel] turns are not
    enough.  The capacity of the slice is not modelled, except that computing it
    divides by the span length. *)
Definition next_span (used prevSpan : Span) (spanLength : Z) : Span :=
  let startBlock := u64 (span_EndBlock prevSpan + 1) in
  {| span_Id := u64 (span_Id prevSpan + 1); span_StartBlock := startBlock;
     span_EndBlock := u64 (startBlock + spanLength); span_ValidatorSet := span_ValidatorSet used;
     SelectedProducers := SelectedProducers used; span_BorChainId := span_BorChainId used |}.
Fixpoint generate_spans (fuel : nat) (latestBorBlock : Z) (used prevSpan : Span) (spanLength : Z)
    : option (list Span) :=
  if span_EndBlock prevSpan <? latestBorBlock then
    match fuel with
    | O => None
    | S n =>
        let newSpan := next_span used prevSpan spanLength in
        option_map (cons newSpan) (generate_spans n latestBorBlock used newSpan spanLength)
    end
  else Some [].
Definition GenerateBorCommittedSpans (fuel : nat) (latestBorBlock : Z) (latestBorUsedSpan : Span)
    : outcome (option (list Span)) :=
  let spanLength := u64 (span_EndBlock latestBorUsedSpan - span_StartBlock latestBorUsedSpan) in
  panic_when spanLength =? 0 ;;
  Ok (generate_spans fuel latestBorBlock latestBorUsedSpan latestBorUsedSpan spanLength).

(** [CalcCurrentBorSpanId]; [None] is the nil span. *)
Definition CalcCurrentBorSpanId (latestBorBlock : Z) (latestHeimdallSpan : option Span) : outcome Z :=
  match latestHeimdallSpan with
  | None => Err (ErrText "nil Heimdall span provided")
  | Some span =>
      return_if span_EndBlock span <? span_StartBlock span with ErrText "invalid Heimdall span" ;;
      return_if latestBorBlock <? span_StartBlock span
        with ErrText "latestBorBlock must be >= Heimdall span StartBlock" ;;
      if latestBorBlock <=? span_EndBlock span then Ok (span_Id span)
      else
        let spanLength := u64 (u64 (span_EndBlock span - span_StartBlock span) + 1) in
        let offset := u64 (latestBorBlock - span_StartBlock span) in
        panic_when spanLength =? 0 ;;
        let quotient := offset / spanLength in
        let spanId := u64 (span_Id span + quotient) in
        return_if spanId <? span_Id span with ErrText "overflow detected computing span ID" ;;
        Ok spanId
  end.

(** ** Facts *)

(** A span whose numbers are unsigned 64-bit, with at least two blocks. *)
Record span_ok (s : Span) : Prop := {
  sp_id : 0 <= span_Id s;
  sp_start : 0 <= span_StartBlock s;
  sp_len : span_StartBlock s < span_EndBlock s;
}.

(** Consecutive spans of the same length from [prev] on. *)
Fixpoint chained (prev : Span) (len : Z) (l : list Span) : Prop :=
  match l with
  | [] => True
  | s :: l' => span_Id s = span_Id prev + 1 /\ span_StartBlock s = span_EndBlock prev + 1 /\
               span_EndBlock s = span_StartBlock s + len /\ chained s len l'
  end.

Definition last_span (d : Span) (l : list Span) : Span := List.last l d.

Lemma last_span_cons d s l : last_span d (s :: l) = last_span s l.
Proof.
  unfold last_span. destruct l as [|x l]; [done|]. change (List.last (s :: x :: l) d) with (List.last (x :: l) d).
  clear. revert s d x. induction l as [|y l IH]; intros s d x; [done|].
  change (List.last (y :: l) d = List.last (y :: l) s). apply (IH s d y).
Qed.

(** The generated spans: enough fuel is the number of blocks to cover. *)
Lemma generate_spans_spec fuel latest used prev len :
  0 <= len -> 0 <= span_EndBlock prev -> 0 <= span_Id prev ->
  latest - span_EndBlock prev <= Z.of_nat fuel ->
  latest + len + 1 <= MaxUint64 -> span_EndBlock prev + len + 1 <= MaxUint64 ->
  span_Id prev + (latest - span_EndBlock prev) <= MaxUint64 ->
  exists l, generate_spans fuel latest used prev len = Some l /\ chained prev len l /\
    let e := span_EndBlock (last_span prev l) in
    (span_EndBlock prev < latest -> latest <= e <= latest + len) /\
    (latest <= span_EndBlock prev -> l = []) /\
    span_Id (last_span prev l) = span_Id prev + Z.of_nat (length l) /\
    e = span_EndBlock prev + (len + 1) * Z.of_nat (length l).
Proof.
  intros Hlen. revert prev. induction fuel as [|n IH]; intros prev He Hi Hf Hov Hov' Hid;
    cbn [generate_spans]; destruct (Z.ltb_spec (span_EndBlock prev) latest) as [Hlt|Hge]; try lia.
  1, 3: exists []; cbn; split_and!; auto; lia.
  set (s := next_span used prev len).
  assert (span_EndBlock s = span_EndBlock prev + 1 + len) as Es.
  { cbn. rewrite (u64_id (span_EndBlock prev + 1)), u64_id by (unfold in_u64; lia). lia. }
  assert (span_Id s = span_Id prev + 1) as Eid by (cbn; apply u64_id; unfold in_u64; lia).
  assert (span_StartBlock s = span_EndBlock prev + 1) as Est
    by (cbn; apply u64_id; unfold in_u64; lia).
  destruct (Z.ltb_spec (span_EndBlock s) latest) as [Hlt'|Hge'].
  - destruct (IH s) as (l & E & Hc & Hin & _ & HI & HE); [lia..|].
    exists (s :: l). rewrite E, last_span_cons. cbn [option_map chained length].
    split_and!; try done; try lia.
  - exists [s]. assert (generate_spans n latest used s len = Some []) as ->.
    { destruct n; cbn [generate_spans]; (destruct (Z.ltb_spec (span_EndBlock s) latest); [lia|done]). }
    rewrite last_span_cons. cbn [option_map chained length last_span List.last].
    split_and!; try done; lia.
Qed.

(** ** The properties *)

(** the closed form agrees with the generation.  From a span of at least two
    blocks and a Bor block at or after its start, away from the uint64 bound,
    the loop ends after at most as many turns as there are blocks to cover; it
    generates consecutive spans of the same length that reach the block, and
    [CalcCurrentBorSpanId] answers the id of the last of them. *)
Theorem CalcCurrentBorSpanId_is_last_generated (latest : Z) (used : Span) :
  span_ok used -> span_StartBlock used <= latest ->
  latest + (span_EndBlock used - span_StartBlock used) + 1 <= MaxUint64 ->
  span_EndBlock used + (span_EndBlock used - span_StartBlock used) + 1 <= MaxUint64 ->
  span_Id used + latest <= MaxUint64 ->
  exists l, GenerateBorCommittedSpans (Z.to_nat (latest - span_EndBlock used)) latest used = Ok (Some l) /\
    chained used (span_EndBlock used - span_StartBlock used) l /\
    latest <= span_EndBlock (last_span used l) /\
    CalcCurrentBorSpanId latest (Some used) = Ok (span_Id (last_span used l)).
Proof.
  intros [Hid Hst Hlen] Hlo Hov Hov' Hidov. unfold GenerateBorCommittedSpans, CalcCurrentBorSpanId.
  set (len := span_EndBlock used - span_StartBlock used) in *.
  rewrite !(u64_id len) by (unfold in_u64; lia). destruct (Z.eqb_spec len 0); [lia|]. cbn [panic_if].
  destruct (generate_spans_spec (Z.to_nat (latest - span_EndBlock used)) latest used used len)
    as (l & E & Hc & Hin & Hnil & HI & HE); [lia..|].
  exists l. rewrite E. split; [done|]. split; [done|].
  destruct (Z.ltb_spec (span_EndBlock used) (span_StartBlock used)); [lia|]. cbn [fail_if].
  destruct (Z.ltb_spec latest (span_StartBlock used)); [lia|]. cbn [fail_if].
  destruct (Z.leb_spec latest (span_EndBlock used)) as [Hle|Hgt].
  { rewrite (Hnil Hle). cbn. split; [lia|done]. }
  specialize (Hin Hgt). split; [lia|].
  rewrite (u64_id (len + 1)), (u64_id (latest - _)) by (unfold in_u64; lia).
  destruct (Z.eqb_spec (len + 1) 0); [lia|]. cbn [panic_if].
  assert ((latest - span_StartBlock used) / (len + 1) = Z.of_nat (length l)) as ->.
  { symmetry. apply (Z.div_unique _ _ _ (latest - span_StartBlock used - (len + 1) * Z.of_nat (length l))); lia. }
  rewrite u64_id by (unfold in_u64; nia). rewrite HI.
  destruct (Z.ltb_spec (span_Id used + Z.of_nat (length l)) (span_Id used)); [lia|]. done.
Qed.

(** When the span ends before block 100 the guard misses the blocks within
    100 of its end, although they are close to it: the lower bound wraps. *)
Theorem IsBlockCloseToSpanEnd_wraps (blockNumber spanEnd : Z) :
  0 <= blockNumber <= spanEnd -> spanEnd < 100 ->
  IsBlockCloseToSpanEnd blockNumber spanEnd = false.
Proof.
  intros Hb He. unfold IsBlockCloseToSpanEnd, u64. apply andb_false_iff. right.
  apply Z.leb_gt. rewrite <- (Z.mod_add (spanEnd - 100) 1) by done.
  rewrite Z.mod_small; lia.
Qed.

(** ** Witnesses *)

Definition demo_vals : ValidatorSet :=
  {| Validators := []; Proposer := None; TotalVotingPower := 0 |}.
Definition demo_span (id start stop : Z) : Span :=
  {| span_Id := id; span_StartBlock := start; span_EndBlock := stop;
     span_ValidatorSet := demo_vals; SelectedProducers := []; span_BorChainId := "137" |}.

Lemma CalcCurrentBorSpanId_is_last_generated_witness :
  CalcCurrentBorSpanId 1000 (Some (demo_span 7 100 163)) = Ok 21.
Proof.
  destruct (CalcCurrentBorSpanId_is_last_generated 1000 (demo_span 7 100 163))
    as (l & E & _ & _ & H).
  - split; cbn; lia.
  - cbn. lia.
  - unfold MaxUint64. cbn. lia.
  - unfold MaxUint64. cbn. lia.
  - unfold MaxUint64. cbn. lia.
  - rewrite H. vm_compute in E. injection E as <-. reflexivity.
Defined.

Lemma IsBlockCloseToSpanEnd_wraps_witness : IsBlockCloseToSpanEnd 50 60 = false.
Proof. apply (IsBlockCloseToSpanEnd_wraps 50 60); lia. Defined.
