(* ===== verification/Selection.v ===== *)
(** * The weighted random selection of producers

    Models [x/bor/keeper/selection.go].  The generator seeded by Go's
    [math/rand] is a parameter: the stream of its 64-bit values for a seed.
    Rejection sampling may draw any number of values, so drawing takes fuel;
    [None] is running out of it. *)
From S2P Require Import Prelude SortedList Helpers ValidatorSet.
#[local] Open Scope Z_scope.

(** The [i]-th [Uint64] of [rand.New(rand.NewSource(seed))]. *)
Class RandSource := { rand_u64 : Z -> nat -> Z }.

(** [createWeightedRanges]: running sums of unsigned integers. *)
Fixpoint weighted_from (totalWeight : Z) (weights : list Z) : list Z * Z :=
  match weights with
  | [] => ([], totalWeight)
  | w :: rest =>
      let totalWeight := u64 (totalWeight + w) in
      let '(ranges, total) := weighted_from totalWeight rest in
      (totalWeight :: ranges, total)
  end.
Definition createWeightedRanges (weights : list Z) : list Z * Z := weighted_from 0 weights.

(** [binarySearch]: [None] is the answer -1 on an empty array.  The interval
    halves, so its length is enough fuel. *)
Fixpoint bsearch (fuel : nat) (array : list Z) (search : Z) (l r : nat) : nat :=
  match fuel with
  | O => l
  | S n =>
      if (l <? r)%nat then
        let mid := ((l + r) / 2)%nat in
        if search <=? nth mid array 0 then bsearch n array search l mid
        else bsearch n array search (mid + 1) r
      else l
  end.
Definition binarySearch (array : list Z) (search : Z) : option nat :=
  match array with
  | [] => None
  | _ => Some (bsearch (length array) array search 0 (length array - 1))
  end.

(** [randomRangeInclusive]: the value and the number of values drawn so far. *)
Definition maxAllowedValue (rangeLength : Z) : Z :=
  u64 (u64 (MaxUint64 - MaxUint64 mod rangeLength) - 1).
Fixpoint draw (fuel : nat) (r : nat -> Z) (i : nat) (limit : Z) : option (Z * nat) :=
  match fuel with
  | O => None
  | S n => if limit <=? r i then draw n r (S i) limit else Some (r i, S i)
  end.
Definition randomRangeInclusive (fuel : nat) (minValue maxValue : Z) (r : nat -> Z) (i : nat)
    : outcome (option (Z * nat)) :=
  if maxValue <=? minValue then Ok (Some (maxValue, i))
  else
    let rangeLength := u64 (u64 (maxValue - minValue) + 1) in
    panic_when rangeLength =? 0 ;;
    Ok (match draw fuel r i (maxAllowedValue rangeLength) with
        | Some (randomValue, i') => Some (u64 (minValue + randomValue mod rangeLength), i')
        | None => None
        end).

(** The loop of [selectNextProducers]: one draw per producer, with replacement. *)
Fixpoint select_producers (fuel : nat) (count : nat) (vals : list Validator) (ranges : list Z)
    (total : Z) (r : nat -> Z) (i : nat) : outcome (option (list Z)) :=
  match count with
  | O => Ok (Some [])
  | S n =>
      drawn ← randomRangeInclusive fuel 1 total r i;
      match drawn with
      | None => Ok None
      | Some (targetWeight, i') =>
          match binarySearch ranges targetWeight with
          | None => Panic
          | Some index =>
              match vals !! index with
              | None => Panic
              | Some v =>
                  rest ← select_producers fuel n vals ranges total r i';
                  Ok (option_map (cons (ValId v)) rest)
              end
          end
      end
  end.

(** The seed is the first 8 bytes of the block hash, big endian, as an int64. *)
Definition be_decode (l : bytes) : Z :=
  fold_left (fun acc b => acc * 256 + Z.of_N (Byte.to_N b)) l 0.
Definition seed_of_hash (blkHash : bytes) : Z := i64 (be_decode (take 8 blkHash)).

Definition selectNextProducers {RSrc : RandSource} (fuel : nat) (blkHash : bytes)
    (spanEligibleValidators : list Validator) (producerCount : Z) : outcome (option (list Z)) :=
  if Z.of_nat (length spanEligibleValidators) <=? i64 producerCount then
    Ok (Some (map ValId spanEligibleValidators))
  else
    let votingPower := map (fun v => u64 (VotingPower v)) spanEligibleValidators in
    let '(weightedRanges, totalVotingPower) := createWeightedRanges votingPower in
    select_producers fuel (Z.to_nat producerCount) spanEligibleValidators weightedRanges
      totalVotingPower (rand_u64 (seed_of_hash blkHash)) 0.

(** ** Facts *)

Lemma weighted_from_spec acc ws :
  0 <= acc -> Forall (fun w => 0 <= w) ws -> acc + Zsum ws <= MaxUint64 ->
  let '(ranges, total) := weighted_from acc ws in
  total = acc + Zsum ws /\ length ranges = length ws /\
  forall i w, ws !! i = Some w ->
    nth i ranges 0 = acc + Zsum (take (S i) ws).
Proof.
  intros Ha HF. revert acc Ha. induction HF as [|w ws Hw HF IH]; intros acc Ha Hs; cbn [weighted_from].
  { split_and!; cbn; [lia|done|]. intros i w H. done. }
  assert (0 <= Zsum ws) by by apply Zsum_nonneg.
  cbn [Zsum foldr] in Hs. fold (Zsum ws) in Hs.
  rewrite u64_id by (unfold in_u64; lia).
  specialize (IH (acc + w) ltac:(lia) ltac:(lia)).
  destruct (weighted_from (acc + w) ws) as [ranges total]. destruct IH as (Ht & Hl & Hn).
  cbn [Zsum foldr length]. fold (Zsum ws). split_and!; [lia|by f_equal|].
  intros [|i] w' Hi.
  - change (take 1 (w :: ws)) with [w]. cbn. lia.
  - cbn in Hi. cbn [nth]. rewrite (Hn i w' Hi).
    change (take (S (S i)) (w :: ws)) with (w :: take (S i) ws). cbn [Zsum foldr]. unfold Zsum. lia.
Qed.

Lemma Zsum_take_S ws i w : ws !! i = Some w -> Zsum (take (S i) ws) = Zsum (take i ws) + w.
Proof.
  intros H. rewrite (take_S_r _ _ _ H), Zsum_app. cbn. lia.
Qed.

Lemma Zsum_take_mono ws i j : Forall (fun w => 0 <= w) ws -> (i <= j)%nat ->
  Zsum (take i ws) <= Zsum (take j ws).
Proof.
  intros HF Hij. induction Hij as [|j Hij IH]; [lia|].
  destruct (ws !! j) as [w|] eqn:E.
  - rewrite (Zsum_take_S _ _ _ E). rewrite Forall_forall in HF.
    pose proof (HF w (list_elem_of_lookup_2 _ _ _ E)). cbn in *. lia.
  - apply lookup_ge_None in E. rewrite (take_ge ws (S j)) by lia. rewrite (take_ge ws j) in IH by lia. done.
Qed.

(** The binary search finds the least index whose entry reaches [search]. *)
Lemma bsearch_spec fuel array search l r :
  (forall i j, (i <= j <= r)%nat -> nth i array 0 <= nth j array 0) ->
  (l <= r)%nat -> (r - l < fuel)%nat -> search <= nth r array 0 ->
  (forall i, (i < l)%nat -> nth i array 0 < search) ->
  let k := bsearch fuel array search l r in
  (l <= k <= r)%nat /\ search <= nth k array 0 /\ (forall i, (i < k)%nat -> nth i array 0 < search).
Proof.
  revert l r. induction fuel as [|n IH]; intros l r Hmono Hlr Hf Hr Hl; [lia|]. cbn [bsearch].
  destruct (Nat.ltb_spec l r) as [Hlt|Hge].
  - pose proof (Nat.div_mod (l + r) 2 ltac:(lia)). pose proof (Nat.mod_upper_bound (l + r) 2 ltac:(lia)).
    set (mid := ((l + r) / 2)%nat) in *. destruct (Z.leb_spec search (nth mid array 0)) as [Hm|Hm].
    + destruct (IH l mid) as (H1 & H2 & H3); [intros; apply Hmono; lia|lia|lia|done|done|].
      split_and!; [lia|lia|done|done].
    + destruct (IH (mid + 1)%nat r) as (H1 & H2 & H3); [done|lia|lia|done| |].
      * intros i Hi. pose proof (Hmono i mid ltac:(lia)). lia.
      * split_and!; [lia|lia|done|done].
  - assert (l = r) as -> by lia. split_and!; [lia|lia|done|done].
Qed.

Lemma draw_spec fuel r i limit v j :
  draw fuel r i limit = Some (v, j) -> v < limit /\ exists k, v = r k /\ (i <= k)%nat.
Proof.
  revert i. induction fuel as [|n IH]; intros i; cbn [draw]; [done|].
  destruct (Z.leb_spec limit (r i)).
  - intros [? (k & -> & ?)]%IH. split; [done|]. exists k. split; [done|lia].
  - intros [= <- <-]. split; [done|]. exists i. done.
Qed.

Lemma randomRange_in_range fuel lo hi r i v j :
  0 <= lo <= hi -> hi <= MaxUint64 -> hi - lo < MaxUint64 -> (forall k, 0 <= r k) ->
  randomRangeInclusive fuel lo hi r i = Ok (Some (v, j)) -> lo <= v <= hi.
Proof.
  intros H1 H2 H3 Hr. unfold randomRangeInclusive. destruct (Z.leb_spec hi lo).
  { intros [= <- _]. lia. }
  rewrite (u64_id (hi - lo)), u64_id by (unfold in_u64; lia).
  destruct (Z.eqb_spec (hi - lo + 1) 0); [lia|]. cbn [panic_if].
  destruct (draw _ _ _ _) as [[x i']|] eqn:E; [|done].
  apply draw_spec in E as [_ (k & -> & _)].
  pose proof (Z.mod_pos_bound (r k) (hi - lo + 1) ltac:(lia)).
  intros [= <- _]. rewrite u64_id by (unfold in_u64; lia). lia.
Qed.

(** The stream yields an accepted value within [fuel] draws from anywhere. *)
Definition accepting (fuel : nat) (limit : Z) (r : nat -> Z) : Prop :=
  forall i, exists k, (k < fuel)%nat /\ r (i + k)%nat < limit.

Lemma draw_total fuel r i limit : (exists k, (k < fuel)%nat /\ r (i + k)%nat < limit) ->
  exists v j, draw fuel r i limit = Some (v, j).
Proof.
  revert i. induction fuel as [|n IH]; intros i (k & Hk & Hr); [lia|]. cbn [draw].
  destruct (Z.leb_spec limit (r i)); [|eauto].
  destruct k as [|k]; [rewrite Nat.add_0_r in Hr; lia|].
  apply IH. exists k. split; [lia|]. by replace (S i + k)%nat with (i + S k)%nat by lia.
Qed.

Definition weights (vals : list Validator) : list Z := map (fun v => u64 (VotingPower v)) vals.

Lemma weights_nonneg vals : Forall (fun w => 0 <= w) (weights vals).
Proof. apply Forall_map, Forall_forall. intros v _. pose proof (u64_range (VotingPower v)). unfold in_u64 in *. lia. Qed.

Lemma createWeightedRanges_total vals ranges total : Zsum (weights vals) <= MaxUint64 ->
  createWeightedRanges (weights vals) = (ranges, total) -> total = Zsum (weights vals).
Proof.
  intros Hs Hw. pose proof (weighted_from_spec 0 (weights vals) ltac:(lia) (weights_nonneg vals) Hs) as H.
  unfold createWeightedRanges in Hw. rewrite Hw in H. lia.
Qed.

(** One draw picks a validator with a positive weight. *)
Lemma pick_positive vals total ranges t :
  Forall (fun v => 0 <= VotingPower v <= MaxInt64) vals -> Zsum (weights vals) <= MaxUint64 ->
  createWeightedRanges (weights vals) = (ranges, total) -> 1 <= t <= total ->
  exists k v, binarySearch ranges t = Some k /\ vals !! k = Some v /\ 0 < VotingPower v.
Proof.
  intros HP Hs Hw Ht.
  pose proof (weights_nonneg vals) as Hnn.
  pose proof (weighted_from_spec 0 (weights vals) ltac:(lia) Hnn Hs) as Hspec.
  unfold createWeightedRanges in Hw. rewrite Hw in Hspec. destruct Hspec as (Htot & Hlen & Hnth).
  assert (forall i, (i < length ranges)%nat -> nth i ranges 0 = Zsum (take (S i) (weights vals))) as Hn.
  { intros i Hi. rewrite Hlen in Hi. apply lookup_lt_is_Some in Hi as [w Hi]. by rewrite (Hnth _ _ Hi). }
  destruct ranges as [|x ranges]; [cbn in Hlen; destruct (weights vals); [cbn in Htot; lia|done]|].
  set (a := x :: ranges) in *.
  destruct (bsearch_spec (length a) a t 0 (length a - 1)) as (Hk & Hge & Hlt).
  - intros i j Hij. rewrite !Hn by (cbn in *; lia). apply Zsum_take_mono; [done|lia].
  - lia.
  - cbn. lia.
  - rewrite Hn by (cbn; lia). rewrite take_ge by (cbn in *; lia). lia.
  - intros i Hi. lia.
  - set (k := bsearch (length a) a t 0 (length a - 1)) in *.
    assert (k < length (weights vals))%nat as Hkl by (rewrite <- Hlen; cbn in *; lia).
    apply lookup_lt_is_Some in Hkl as [w Hw']. pose proof Hw' as Hwk. unfold weights in Hw'.
    change (map ?f ?l) with (f <$> l) in Hw'. rewrite list_lookup_fmap in Hw'.
    destruct (vals !! k) as [v|] eqn:Ev; [|done]. injection Hw' as Ew.
    exists k, v. split_and!; [done|done|].
    rewrite Hn in Hge by (cbn in *; lia). rewrite (Zsum_take_S _ _ _ Hwk) in Hge.
    assert (Zsum (take k (weights vals)) < t).
    { clearbody k. destruct k as [|k']; [rewrite take_0; cbn; lia|]. specialize (Hlt k' ltac:(lia)). by rewrite Hn in Hlt by (cbn in *; lia). }
    rewrite Forall_forall in HP. pose proof (HP v (list_elem_of_lookup_2 _ _ _ Ev)).
    rewrite u64_id in Ew by (unfold in_u64, MaxInt64, MaxUint64 in *; lia). lia.
Qed.

Lemma select_producers_ok fuel count vals ranges total r i :
  Forall (fun v => 0 <= VotingPower v <= MaxInt64) vals -> Zsum (weights vals) <= MaxUint64 ->
  createWeightedRanges (weights vals) = (ranges, total) -> 1 <= total ->
  (forall k, 0 <= r k) -> accepting fuel (maxAllowedValue total) r ->
  exists l, select_producers fuel count vals ranges total r i = Ok (Some l) /\ length l = count /\
    Forall (fun id => exists v, v ∈ vals /\ ValId v = id /\ 0 < VotingPower v) l.
Proof.
  intros HP Hs Hw Ht Hr Hacc. revert i. induction count as [|n IH]; intros i; cbn [select_producers].
  { exists []. done. }
  assert (total <= MaxUint64) as Htm.
  { by rewrite (createWeightedRanges_total _ _ _ Hs Hw). }
  assert (exists t j, randomRangeInclusive fuel 1 total r i = Ok (Some (t, j))) as (t & j & E).
  { unfold randomRangeInclusive. destruct (Z.leb_spec total 1); [eauto|].
    rewrite (u64_id (total - 1)), u64_id by (unfold in_u64; lia).
    destruct (Z.eqb_spec (total - 1 + 1) 0); [lia|]. cbn [panic_if].
    replace (total - 1 + 1) with total by lia.
    destruct (draw_total fuel r i _ (Hacc i)) as (v & j & ->). eauto. }
  assert (1 <= t <= total) as Hin by (eapply randomRange_in_range; [..|exact E]; try done; lia).
  rewrite E. cbn [mbind outcome_bind].
  destruct (pick_positive vals total ranges t HP Hs Hw Hin) as (k & v & -> & Hv & Hpos). rewrite Hv.
  destruct (IH j) as (l & -> & Hl & HF). cbn. exists (ValId v :: l). split_and!; [done|cbn; lia|].
  constructor; [|done]. exists v. split; [by eapply list_elem_of_lookup_2 | done].
Qed.

(** ** The properties *)

(** the election of producers draws as many ids as asked, with
    replacement, all of validators with a positive power: nobody without stake is
    ever selected, no index is out of range, and the loop ends as soon as the
    random stream keeps yielding acceptable values. *)
Theorem selectNextProducers_elects_stakers {RSrc : RandSource} (fuel : nat) (h : bytes)
    (vals : list Validator) (count : Z) :
  0 <= count <= MaxInt64 -> count < Z.of_nat (length vals) ->
  Forall (fun v => 0 <= VotingPower v <= MaxInt64) vals ->
  1 <= Zsum (weights vals) <= MaxUint64 ->
  (forall k, 0 <= rand_u64 (seed_of_hash h) k) ->
  accepting fuel (maxAllowedValue (Zsum (weights vals))) (rand_u64 (seed_of_hash h)) ->
  exists l, selectNextProducers fuel h vals count = Ok (Some l) /\ Z.of_nat (length l) = count /\
    Forall (fun id => exists v, v ∈ vals /\ ValId v = id /\ 0 < VotingPower v) l.
Proof.
  intros Hc Hlen HP Hs Hr Hacc. unfold selectNextProducers.
  rewrite i64_id by (unfold in_i64, MinInt64, MaxInt64 in *; lia).
  destruct (Z.leb_spec (Z.of_nat (length vals)) count); [lia|]. fold (weights vals).
  destruct (createWeightedRanges (weights vals)) as [ranges total] eqn:E.
  assert (total = Zsum (weights vals)) as -> by exact (createWeightedRanges_total _ _ _ (proj2 Hs) E).
  destruct (select_producers_ok fuel (Z.to_nat count) vals ranges _ (rand_u64 (seed_of_hash h)) 0 HP
    (proj2 Hs) E (proj1 Hs) Hr Hacc) as (l & El & Hl & HF).
  exists l. split_and!; [done|lia|done].
Qed.

(** A random number in a range of more than 2^63 values never is the largest
    one: the rejection bound excludes one value too many, so the draw is not
    unbiased. *)
Theorem randomRange_misses_maximum (fuel : nat) (lo hi : Z) (r : nat -> Z) (i : nat) (v : Z) (j : nat) :
  0 <= lo -> hi <= MaxUint64 -> 2 ^ 63 < hi - lo + 1 <= MaxUint64 ->
  (forall k, 0 <= r k) -> randomRangeInclusive fuel lo hi r i = Ok (Some (v, j)) -> v < hi.
Proof.
  intros H1 H2 H3 Hr. unfold randomRangeInclusive. destruct (Z.leb_spec hi lo); [lia|].
  unfold MaxUint64 in *.
  rewrite (u64_id (hi - lo)), u64_id by (unfold in_u64, MaxUint64; lia).
  destruct (Z.eqb_spec (hi - lo + 1) 0); [lia|]. cbn [panic_if].
  destruct (draw _ _ _ _) as [[x i']|] eqn:E; [|done].
  apply draw_spec in E as [Hx (k & -> & _)]. specialize (Hr k).
  assert (maxAllowedValue (hi - lo + 1) = hi - lo) as El.
  { unfold maxAllowedValue, MaxUint64.
    assert ((2 ^ 64 - 1) mod (hi - lo + 1) = 2 ^ 64 - 1 - (hi - lo + 1)) as ->.
    { symmetry. apply (Z.mod_unique _ _ 1); lia. }
    replace (2 ^ 64 - 1 - (2 ^ 64 - 1 - (hi - lo + 1))) with (hi - lo + 1) by lia.
    rewrite (u64_id (hi - lo + 1)), u64_id by (unfold in_u64, MaxUint64; lia). lia. }
  rewrite El in Hx. rewrite (Z.mod_small (r k)) by lia.
  intros [= <- _]. rewrite u64_id by (unfold in_u64, MaxUint64; lia). lia.
Qed.

(** ** Witnesses *)

Module SelectionDemo.
(** A small congruential stream. *)
#[export] Instance demo_rand : RandSource :=
  {| rand_u64 seed i := (seed + 7919 * Z.of_nat i) mod 1000 |}.
Definition v (i p : Z) : Validator := NewValidator i 0 0 0 p [] "0xaa".
Definition demo_eligible : list Validator := [v 1 5; v 2 0; v 3 8; v 4 1].

Lemma selectNextProducers_elects_stakers_witness :
  exists l, selectNextProducers 1 (repeat Byte.x01 32) demo_eligible 3 = Ok (Some l) /\
    Z.of_nat (length l) = 3.
Proof.
  destruct (selectNextProducers_elects_stakers 1 (repeat Byte.x01 32) demo_eligible 3)
    as (l & E & Hl & _).
  - unfold MaxInt64. lia.
  - cbn. lia.
  - repeat constructor; cbn; unfold MaxInt64; lia.
  - vm_compute. split; discriminate.
  - intros k. apply Z.mod_pos_bound. lia.
  - intros i. exists 0%nat. split; [lia|]. cbn [rand_u64 demo_rand].
    assert (maxAllowedValue (Zsum (weights demo_eligible)) = 18446744073709551613) as -> by (vm_compute; reflexivity).
    pose proof (Z.mod_pos_bound (seed_of_hash (repeat Byte.x01 32) + 7919 * Z.of_nat (i + 0)) 1000). lia.
  - exists l. split; [exact E | exact Hl].
Defined.

Lemma randomRange_misses_maximum_witness :
  exists v, randomRangeInclusive 1 0 (2 ^ 63) (fun _ => 2 ^ 63 - 1) 0 = Ok (Some (v, 1%nat)) /\ v < 2 ^ 63.
Proof.
  assert (randomRangeInclusive 1 0 (2 ^ 63) (fun _ => 2 ^ 63 - 1) 0 = Ok (Some (2 ^ 63 - 1, 1%nat))) as E
    by (vm_compute; reflexivity).
  exists (2 ^ 63 - 1). split; [exact E|].
  apply (randomRange_misses_maximum 1 0 (2 ^ 63) (fun _ => 2 ^ 63 - 1) 0 _ 1%nat); unfold MaxUint64; try lia.
  exact E.
Defined.
End SelectionDemo.
