(* ===== verification/BorKeeper.v ===== *)
(** * The bor module's keeper

    Models [x/bor/keeper/keeper.go], [veblop.go] and
    [veblop_producer_fallback.go]: the spans, the votes for block producers and
    the selection of the producer of the next span.  The stake keeper is used
    through the interface [StakeKeeperI], as the code does. *)
From S2P Require Import Prelude SortedList Helpers External ValidatorSet StakeKeeper BorTypes Selection.
#[local] Open Scope Z_scope.

(** ** Interfaces *)

(** What the bor module uses of the stake keeper (types/expected_keepers.go). *)
Class StakeKeeperI (K : Type) := {
  sk_GetSpanEligibleValidators : K -> list Validator;
  sk_GetValidatorSet : K -> outcome ValidatorSet;
  sk_GetValidatorFromValID : K -> Z -> outcome Validator;
  sk_GetValIdFromAddress : K -> string -> outcome Z;
}.

(** The stake module implements it, at an acknowledgement count. *)
#[export] Instance stake_keeper_impl : StakeKeeperI (StakeState * Z) := {|
  sk_GetSpanEligibleValidators k := GetSpanEligibleValidators k.1 k.2;
  sk_GetValidatorSet k := GetValidatorSet k.1;
  sk_GetValidatorFromValID k := GetValidatorFromValID k.1;
  sk_GetValIdFromAddress k := GetValIdFromAddress k.1 k.2;
|}.

(** What it relies on: the set can be read, its members are found by their ids,
    looking an id up does not panic and finds the validator of that id. *)
Class StakePromise {K : Type} {SK : StakeKeeperI K} (sk : K) : Prop := {
  promise_set : exists vs, sk_GetValidatorSet sk = Ok vs /\
    forall v, v ∈ Validators vs -> is_ok (sk_GetValidatorFromValID sk (ValId v)) = true;
  promise_no_panic i : sk_GetValidatorFromValID sk i <> Panic;
  promise_id i v : sk_GetValidatorFromValID sk i = Ok v -> ValId v = i;
}.

(** Texts of Ethereum addresses. *)
Class EthAddress := {
  HexToAddress : string -> bytes;
  AddressHex : bytes -> string;
}.

(** ** State *)

Record BorState := {
  spans : gmap Z Span;
  latestSpan : option Z;
  seedLastProducer : gmap Z bytes;
  bor_Params : option BorParams;
  ProducerVotes : gmap Z (list Z);
  PerformanceScore : gmap Z Z;
  LatestActiveProducer : gset Z;
  LatestFailedProducer : gset Z;
  LastSpanBlock : option Z;
  ProducerPlannedDowntime : gmap Z (Z * Z);
}.

Definition set_spans (s : BorState) m l : BorState :=
  {| spans := m; latestSpan := l; seedLastProducer := seedLastProducer s; bor_Params := bor_Params s;
     ProducerVotes := ProducerVotes s; PerformanceScore := PerformanceScore s;
     LatestActiveProducer := LatestActiveProducer s; LatestFailedProducer := LatestFailedProducer s;
     LastSpanBlock := LastSpanBlock s; ProducerPlannedDowntime := ProducerPlannedDowntime s |}.
Definition set_seeds (s : BorState) m p : BorState :=
  {| spans := spans s; latestSpan := latestSpan s; seedLastProducer := m; bor_Params := p;
     ProducerVotes := ProducerVotes s; PerformanceScore := PerformanceScore s;
     LatestActiveProducer := LatestActiveProducer s; LatestFailedProducer := LatestFailedProducer s;
     LastSpanBlock := LastSpanBlock s; ProducerPlannedDowntime := ProducerPlannedDowntime s |}.
Definition set_votes (s : BorState) v p : BorState :=
  {| spans := spans s; latestSpan := latestSpan s; seedLastProducer := seedLastProducer s;
     bor_Params := bor_Params s; ProducerVotes := v; PerformanceScore := p;
     LatestActiveProducer := LatestActiveProducer s; LatestFailedProducer := LatestFailedProducer s;
     LastSpanBlock := LastSpanBlock s; ProducerPlannedDowntime := ProducerPlannedDowntime s |}.
Definition set_producers (s : BorState) a f : BorState :=
  {| spans := spans s; latestSpan := latestSpan s; seedLastProducer := seedLastProducer s;
     bor_Params := bor_Params s; ProducerVotes := ProducerVotes s; PerformanceScore := PerformanceScore s;
     LatestActiveProducer := a; LatestFailedProducer := f;
     LastSpanBlock := LastSpanBlock s; ProducerPlannedDowntime := ProducerPlannedDowntime s |}.
Definition set_span_block (s : BorState) b d : BorState :=
  {| spans := spans s; latestSpan := latestSpan s; seedLastProducer := seedLastProducer s;
     bor_Params := bor_Params s; ProducerVotes := ProducerVotes s; PerformanceScore := PerformanceScore s;
     LatestActiveProducer := LatestActiveProducer s; LatestFailedProducer := LatestFailedProducer s;
     LastSpanBlock := b; ProducerPlannedDowntime := d |}.

(** ** Spans *)

Definition AddNewRawSpan (s : BorState) (span : Span) : BorState :=
  set_spans s (<[span_Id span := span]> (spans s)) (latestSpan s).
Definition UpdateLastSpan (s : BorState) (id : Z) : BorState := set_spans s (spans s) (Some id).
Definition AddNewSpan (s : BorState) (span : Span) : BorState :=
  UpdateLastSpan (AddNewRawSpan s span) (span_Id span).

Definition GetSpan (s : BorState) (id : Z) : outcome Span :=
  of_option (ErrText "span not found") (spans s !! id).
Definition HasSpan (s : BorState) (id : Z) : bool := bool_decide (is_Some (spans s !! id)).
Definition GetAllSpans (s : BorState) : list Span :=
  map snd (sort_by fst (map_to_list (spans s))).
Definition GetLastSpan (s : BorState) : outcome Span :=
  id ← of_option (ErrText "last span not found") (latestSpan s); GetSpan s id.

Definition SetLastSpanBlock (s : BorState) (block : Z) : BorState :=
  set_span_block s (Some block) (ProducerPlannedDowntime s).
Definition GetLastSpanBlock (s : BorState) : Z :=
  match LastSpanBlock s with Some b => b | None => 0 end.

Definition SetParams (s : BorState) (p : BorParams) : BorState :=
  set_seeds s (seedLastProducer s) (Some p).
Definition FetchParams (s : BorState) : outcome BorParams := of_option ErrNotFound (bor_Params s).

(** [SpanByBlockNumber], [FindCurrentProducerID]: from the last span down to
    span 0. *)
Fixpoint span_at (s : BorState) (blockNumber : Z) (id : nat) : outcome Span :=
  span ← GetSpan s (Z.of_nat id);
  if (span_StartBlock span <=? blockNumber) && (blockNumber <=? span_EndBlock span) then Ok span
  else match id with
       | O => Err (ErrText "span not found for block")
       | S id' => span_at s blockNumber id'
       end.
Definition SpanByBlockNumber (s : BorState) (blockNumber : Z) : outcome Span :=
  lastSpan ← GetLastSpan s; span_at s blockNumber (Z.to_nat (span_Id lastSpan)).

(** [span.SelectedProducers[0].ValId] *)
Definition first_producer (span : Span) : outcome Z :=
  match SelectedProducers span with [] => Panic | v :: _ => Ok (ValId v) end.
Definition FindCurrentProducerID (s : BorState) (blockNum : Z) : outcome Z :=
  lastSpan ← GetLastSpan s;
  span ← span_at s blockNum (Z.to_nat (span_Id lastSpan));
  first_producer span.

(** [FindPastBackupProducerIDs]: span 0 is not visited. *)
Fixpoint backup_producers (s : BorState) (blockNum : Z) (id : nat) : outcome (list Z) :=
  match id with
  | O => Ok []
  | S id' =>
      span ← GetSpan s (Z.of_nat id);
      if span_EndBlock span <? blockNum then Ok []
      else if blockNum =? span_StartBlock span then
        p ← first_producer span;
        rest ← backup_producers s blockNum id';
        Ok (p :: rest)
      else backup_producers s blockNum id'
  end.
Definition FindPastBackupProducerIDs (s : BorState) (blockNum : Z) : outcome (list Z) :=
  lastSpan ← GetLastSpan s; backup_producers s blockNum (Z.to_nat (span_Id lastSpan)).

Definition GetProducersByBlockNumber {EA : EthAddress} (s : BorState) (blockNumber : Z)
    : outcome (list bytes) :=
  span ← SpanByBlockNumber s blockNumber;
  Ok (map (fun p => HexToAddress (Signer p)) (SelectedProducers span)).

(** ** Producer votes, scores and sets *)

Definition GetProducerVotes (s : BorState) (id : Z) : list Z :=
  match ProducerVotes s !! id with Some v => v | None => [] end.
Definition SetProducerVotes (s : BorState) (id : Z) (votes : list Z) : BorState :=
  set_votes s (<[id := votes]> (ProducerVotes s)) (PerformanceScore s).
Definition RemoveProducerVotes (s : BorState) (id : Z) : BorState :=
  set_votes s (delete id (ProducerVotes s)) (PerformanceScore s).
Definition ClearProducerVotes (s : BorState) : BorState := set_votes s ∅ (PerformanceScore s).

(** [UpdateValidatorPerformanceScore]: the ids in ascending order, which does
    not matter since they are distinct. *)
Definition add_score (blocks : Z) (m : gmap Z Z) (id : Z) : gmap Z Z :=
  match m !! id with
  | None => <[id := blocks]> m
  | Some currentScore => <[id := u64 (currentScore + blocks)]> m
  end.
Definition UpdateValidatorPerformanceScore (s : BorState) (activeValidatorIDs : gset Z) (blocks : Z)
    : BorState :=
  set_votes s (ProducerVotes s)
    (fold_left (add_score blocks) (sort_by id (elements activeValidatorIDs)) (PerformanceScore s)).
Definition ResetValidatorPerformanceScore (s : BorState) : BorState := set_votes s (ProducerVotes s) ∅.
Definition GetAllValidatorPerformanceScore (s : BorState) : gmap Z Z := PerformanceScore s.

Definition UpdateLatestActiveProducer (s : BorState) (ids : gset Z) : BorState :=
  set_producers s ids (LatestFailedProducer s).
Definition GetLatestActiveProducer (s : BorState) : gset Z := LatestActiveProducer s.
Definition AddLatestFailedProducer (s : BorState) (id : Z) : BorState :=
  set_producers s (LatestActiveProducer s) ({[id]} ∪ LatestFailedProducer s).
Definition GetLatestFailedProducer (s : BorState) : gset Z := LatestFailedProducer s.
Definition ClearLatestFailedProducer (s : BorState) : BorState :=
  set_producers s (LatestActiveProducer s) ∅.

(** ** Downtime *)

Definition IsProducerDownForBlockRange (s : BorState) (startBlock endBlock producerID : Z) : bool :=
  match ProducerPlannedDowntime s !! producerID with
  | None => false
  | Some (dtStart, dtEnd) => (startBlock <=? dtEnd) && (dtStart <=? endBlock)
  end.

(** ** Selection of a producer *)

(** [SelectProducer]: round-robin from the one after the current producer,
    skipping those that are down; the first candidate when all are. *)
Fixpoint index_of (p : Z) (l : list Z) : option nat :=
  match l with
  | [] => None
  | c :: l' => if c =? p then Some 0%nat else option_map S (index_of p l')
  end.
Fixpoint first_up (s : BorState) (startBlock endBlock : Z) (candidates : list Z) (startIdx i : nat)
    (steps : nat) : option Z :=
  match steps with
  | O => None
  | S n =>
      match candidates !! ((startIdx + i) mod length candidates)%nat with
      | None => None
      | Some c =>
          if IsProducerDownForBlockRange s startBlock endBlock c
          then first_up s startBlock endBlock candidates startIdx (S i) n
          else Some c
      end
  end.
Definition SelectProducer (s : BorState) (currentProducer : Z) (candidates : list Z)
    (startBlock endBlock : Z) : outcome Z :=
  match candidates with
  | [] => Err (ErrText "no candidates found")
  | c0 :: _ =>
      let startIdx := match index_of currentProducer candidates with
                      | Some i => ((i + 1) mod length candidates)%nat
                      | None => 0%nat
                      end in
      match first_up s startBlock endBlock candidates startIdx 0 (length candidates) with
      | Some c => Ok c
      | None => Ok c0
      end
  end.

Definition filterExcludedProducers (candidates : list Z) (excluded : gset Z) : list Z :=
  if decide (excluded = ∅) then candidates
  else List.filter (fun c => negb (bool_decide (c ∈ excluded))) candidates.
Definition FilterByActiveProducerSet (candidates : list Z) (activeValidatorIDs : gset Z) : list Z :=
  List.filter (fun c => bool_decide (c ∈ activeValidatorIDs)) candidates.

(** [sortedEligibleProducers], [eligibleProducerFallback] *)
Definition sortedEligibleProducers (set : gset Z) (currentProducer : Z) (excluded : gset Z) : list Z :=
  sort_by id (List.filter
    (fun i => negb (i =? currentProducer) && negb (bool_decide (i ∈ excluded))) (elements set)).
Definition eligibleProducerFallback {K} {SK : StakeKeeperI K} (sk : K) (currentProducer : Z)
    (activeValidatorIDs excludedProducerIDs : gset Z) : outcome (list Z) :=
  match sortedEligibleProducers activeValidatorIDs currentProducer excludedProducerIDs with
  | c :: l => Ok (c :: l)
  | [] =>
      match sk_GetValidatorSet sk with
      | Ok valSet =>
          Ok (sortedEligibleProducers (list_to_set (map ValId (Validators valSet)))
                currentProducer excludedProducerIDs)
      | Err _ => Ok []
      | Panic => Panic
      end
  end.

(** ** The candidate set from the votes *)

(** Ranking: by descending score, then ascending id. *)
#[export] Program Instance pair_key_order : KeyOrder (Z * Z) :=
  {| kltb a b := (a.1 <? b.1) || ((a.1 =? b.1) && (a.2 <? b.2)) |}.
Next Obligation. intros [a b]. cbn. lia. Qed.
Next Obligation. intros [a b] [c d] [e f]. cbn. lia. Qed.
Next Obligation. intros [a b] [c d]. cbn. intros. f_equal; lia. Qed.

Section election.
Context {K : Type} {SK : StakeKeeperI K} (cfg : Config).

(** [resolveVoterStake]: [None] is a ballot that is not counted. *)
Definition resolveVoterStake (sk : K) (validatorID : Z) (zurich : bool) (activeStake : gmap Z Z)
    : outcome (option Z) :=
  if zurich then
    Ok (match activeStake !! validatorID with
        | Some stake => if stake <=? 0 then None else Some stake
        | None => None
        end)
  else
    match sk_GetValidatorFromValID sk validatorID with
    | Ok v => Ok (if VotingPower v <=? 0 then None else Some (VotingPower v))
    | Err _ => Ok None
    | Panic => Panic
    end.

(** The ballot of one voter: the candidate at position [i] gets [total - i]
    times the stake; positions from [total] on are ignored. *)
Fixpoint credit_votes (total stake : Z) (i : Z) (votes : list Z) (scores : gmap Z Z) : gmap Z Z :=
  match votes with
  | [] => scores
  | c :: rest =>
      if total <=? i then scores
      else
        let positionWeight := i64 (total - i) in
        let old := match scores !! c with Some x => x | None => 0 end in
        credit_votes total stake (i + 1) rest
          (<[c := i64 (old + i64 (positionWeight * stake))]> scores)
  end.
Fixpoint credit_ballots (sk : K) (zurich : bool) (activeStake : gmap Z Z) (total : Z)
    (ballots : list (Z * list Z)) (scores : gmap Z Z) : outcome (gmap Z Z) :=
  match ballots with
  | [] => Ok scores
  | (voter, votes) :: rest =>
      stake ← resolveVoterStake sk voter zurich activeStake;
      credit_ballots sk zurich activeStake total rest
        (match stake with Some st => credit_votes total st 0 votes scores | None => scores end)
  end.

(** The candidates that reach the threshold of their position, until the first
    that does not. *)
Fixpoint qualified (total totalStake : Z) (limit : Z) (i : Z) (ranked : list (Z * Z)) : list Z :=
  match ranked with
  | [] => []
  | (candidate, score) :: rest =>
      if limit <=? i then []
      else
        let position := u64 (i + 1) in
        let maxPossible := i64 (i64 (u64 (u64 (total - position) + 1)) * totalStake) in
        let required := i64 (Z.quot (i64 (maxPossible * 2)) 3 + 1) in
        if required <=? score then candidate :: qualified total totalStake limit (i + 1) rest
        else []
  end.

Definition rank (scores : gmap Z Z) : list (Z * Z) :=
  sort_by (fun '(candidate, score) => (- score, candidate)) (map_to_list scores).

(** [CalculateProducerSet] *)
Definition CalculateProducerSet (ctx : Ctx) (sk : K) (s : BorState) (producerSetLimit : Z)
    : outcome (list Z) :=
  allValidators ← sk_GetValidatorSet sk;
  let vals := Validators allValidators in
  let totalPotentialProducers := Z.of_nat (length vals) in
  if totalPotentialProducers =? 0 then Ok []
  else
    let zurich := IsZurichHardfork cfg (BlockHeight ctx) in
    let activeStake := if zurich then
      fold_left (fun m v => <[ValId v := VotingPower v]> m) vals (∅ : gmap Z Z) else ∅ in
    let ballots := sort_by fst (map_to_list (ProducerVotes s)) in
    scores ← credit_ballots sk zurich activeStake totalPotentialProducers ballots ∅;
    if decide (scores = ∅) then Ok []
    else
      let totalStake := foldl (fun t v => i64 (t + VotingPower v)) 0 vals in
      if totalStake =? 0 then Ok []
      else Ok (qualified totalPotentialProducers totalStake (i64 producerSetLimit) 0 (rank scores)).

(** [SelectNextSpanProducer].  First the candidates: the elected set, or the
    configured fallback cut to the limit. *)
Definition base_candidates (candidates : list Z) (producerSetLimit : Z) : list Z :=
  match candidates with
  | [] =>
      let c := fallbackProducerVotes cfg in
      if (0 <? producerSetLimit) && (producerSetLimit <? Z.of_nat (length c))
      then take (Z.to_nat producerSetLimit) c else c
  | _ => candidates
  end.

(** Of them the active and not excluded ones; if there are none, all but the
    current producer and the excluded ones. *)
Definition narrow_candidates (candidates : list Z) (currentProducer : Z)
    (activeValidatorIDs excludedProducerIDs : gset Z) : list Z :=
  match filterExcludedProducers (FilterByActiveProducerSet candidates activeValidatorIDs)
          excludedProducerIDs with
  | [] => filterExcludedProducers
            (List.filter (fun c => negb (c =? currentProducer)) candidates) excludedProducerIDs
  | activeCandidates => activeCandidates
  end.

(** The override by a target producer is compared with the Zurich height
    directly, not through [IsZurichHardfork]. *)
Definition SelectNextSpanProducer (ctx : Ctx) (sk : K) (s : BorState) (currentProducer : Z)
    (activeValidatorIDs : gset Z) (producerSetLimit startBlock endBlock targetProducerID : Z)
    (excludedProducerIDs : gset Z) (fallbackToActiveSet : bool) : outcome Z :=
  candidates ← CalculateProducerSet ctx sk s producerSetLimit;
  let candidates := base_candidates candidates producerSetLimit in
  let activeCandidates := narrow_candidates candidates currentProducer activeValidatorIDs excludedProducerIDs in
  activeCandidates ←
    (match activeCandidates with
     | [] => if fallbackToActiveSet && IsIthaca cfg (BlockHeight ctx)
             then eligibleProducerFallback sk currentProducer activeValidatorIDs excludedProducerIDs
             else Ok []
     | _ => Ok activeCandidates
     end);
  if negb (targetProducerID =? RoundRobinDefault)
     && (zurichHardforkHeight cfg <=? BlockHeight ctx)
     && negb (targetProducerID =? currentProducer)
     && bool_decide (targetProducerID ∈ activeCandidates)
     && negb (IsProducerDownForBlockRange s startBlock endBlock targetProducerID)
  then Ok targetProducerID
  else SelectProducer s currentProducer activeCandidates startBlock endBlock.

(** [AddNewVeBlopSpan] *)
Definition AddNewVeBlopSpan (ctx : Ctx) (sk : K) (s : BorState) (currentProducer startBlock endBlock : Z)
    (borChainID : string) (activeValidatorIDs : gset Z) (heimdallBlock targetProducerID : Z)
    (excludedProducerIDs : gset Z) (fallbackToActiveSet : bool) : outcome BorState :=
  newProducerId ← SelectNextSpanProducer ctx sk s currentProducer activeValidatorIDs
    (GetProducerSetLimit cfg (BlockHeight ctx)) startBlock endBlock targetProducerID
    excludedProducerIDs fallbackToActiveSet;
  valSet ← sk_GetValidatorSet sk;
  newProducer ← sk_GetValidatorFromValID sk newProducerId;
  lastSpan ← GetLastSpan s;
  let newSpan :=
    {| span_Id := u64 (span_Id lastSpan + 1); span_StartBlock := startBlock; span_EndBlock := endBlock;
       span_ValidatorSet := valSet; SelectedProducers := [newProducer];
       span_BorChainId := borChainID |} in
  Ok (SetLastSpanBlock (AddNewSpan s newSpan) heimdallBlock).

(** ** Gates *)

Definition CanVoteProducers (s : BorState) : outcome unit :=
  latestSpan ← GetLastSpan s;
  return_if negb (IsRio cfg (u64 (span_EndBlock latestSpan + 1)))
    with ErrText "span is not in veBlop phase" ;;
  Ok tt.
Definition isValidatorInActiveSet (sk : K) (valID : Z) : outcome bool :=
  valSet ← sk_GetValidatorSet sk;
  Ok (existsb (fun v => ValId v =? valID) (Validators valSet)).
Definition CanSetProducerDowntime (ctx : Ctx) : outcome unit :=
  return_if BlockHeight ctx <? producerDowntimeHeight cfg
    with ErrText "MsgSetProducerDowntime not allowed" ;; Ok tt.
Definition CanUseTargetProducer (ctx : Ctx) : outcome unit :=
  return_if BlockHeight ctx <? zurichHardforkHeight cfg
    with ErrText "TargetProducerId not allowed" ;; Ok tt.

(** ** The random selection before Rio *)

(** [RollbackVotingPowers]: the powers of an earlier set, 0 for a newcomer. *)
Definition RollbackVotingPowers (valsNew valsOld : list Validator) : list Validator :=
  let idToVP := fold_left (fun m v => <[ValId v := VotingPower v]> m) valsOld (∅ : gmap Z Z) in
  map (fun v => with_power v (match idToVP !! ValId v with Some p => p | None => 0 end)) valsNew.

Fixpoint count_ids (ids : list Z) (m : gmap Z Z) : gmap Z Z :=
  match ids with
  | [] => m
  | id :: rest => count_ids rest (<[id := u64 (match m !! id with Some n => n | None => 0 end + 1)]> m)
  end.
Fixpoint elected_validators (sk : K) (counts : list (Z * Z)) : outcome (list Validator) :=
  match counts with
  | [] => Ok []
  | (key, value) :: rest =>
      val ← sk_GetValidatorFromValID sk key;
      vals ← elected_validators sk rest;
      Ok (with_power val (i64 value) :: vals)
  end.

(** [SelectNextProducers]; running out of the fuel for random draws is no result. *)
Definition SelectNextProducers {RSrc : RandSource} (fuel : nat) (sk : K) (s : BorState)
    (seed : bytes) (prevVals : list Validator) : outcome (list Validator) :=
  let spanEligibleVals := sk_GetSpanEligibleValidators sk in
  params ← FetchParams s;
  if Z.of_nat (length spanEligibleVals) <=? i64 (ProducerCount params) then Ok spanEligibleVals
  else
    let spanEligibleVals := match prevVals with
                            | [] => spanEligibleVals
                            | _ => RollbackVotingPowers spanEligibleVals prevVals
                            end in
    ids ← selectNextProducers fuel seed spanEligibleVals (ProducerCount params);
    match ids with
    | None => Panic
    | Some newProducersIds =>
        vals ← elected_validators sk (sort_by fst (map_to_list (count_ids newProducersIds ∅)));
        Ok (bor_SortValidatorByAddress vals)
    end.

(** [FreezeSet]; the previous validators are those of two spans before. *)
Definition FreezeSet {RSrc : RandSource} (fuel : nat) (sk : K) (s : BorState)
    (id startBlock endBlock : Z) (borChainID : string) (seed : bytes) : outcome BorState :=
  let lastSpanId := if id <? 2 then u64 (id - 1) else u64 (id - 2) in
  lastSpan ← GetSpan s lastSpanId;
  newProducers ← SelectNextProducers fuel sk s seed (Validators (span_ValidatorSet lastSpan));
  valSet ← sk_GetValidatorSet sk;
  let newSpan :=
    {| span_Id := id; span_StartBlock := startBlock; span_EndBlock := endBlock;
       span_ValidatorSet := valSet; SelectedProducers := newProducers;
       span_BorChainId := borChainID |} in
  Ok (AddNewSpan s newSpan).
End election.

(** ** The seed of the random selection *)

Definition StoreSeedProducer (s : BorState) (id : Z) (producer : bytes) : outcome BorState :=
  return_if bool_decide (is_Some (seedLastProducer s !! id)) with ErrText "seed producer already set" ;;
  Ok (set_seeds s (<[id := producer]> (seedLastProducer s)) (bor_Params s)).
Definition GetSeedProducer (s : BorState) (id : Z) : option bytes := seedLastProducer s !! id.

Definition blockAuthorsCollisionCheck : nat := 10.
Definition blockProducerMaxSpanLookback : nat := 50.

(** The authors of the last seed blocks, without repetition. *)
Fixpoint recent_authors (s : BorState) (spanID : Z) (turns : nat) (unique : list bytes) : list bytes :=
  match turns with
  | O => unique
  | S n =>
      if (blockAuthorsCollisionCheck <=? length unique)%nat || (spanID =? 0) then unique
      else match GetSeedProducer s spanID with
           | None => unique
           | Some author =>
               recent_authors s (spanID - 1) n
                 (if bool_decide (author ∈ unique) then unique else author :: unique)
           end
  end.

(** The walk down the seed span, sprint by sprint; the block number is unsigned
    and wraps below 0.  Running out of turns is no result. *)
Fixpoint find_seed_block {BC : BorChain} (fuel : nat) (seedSpan : Span) (sprint : Z)
    (unique : list bytes) (lastAuthor : option bytes) (borBlock firstDiff : Z)
    : outcome (option (Z * bytes) * Z) :=
  if span_StartBlock seedSpan <=? borBlock then
    match fuel with
    | O => Panic
    | S n =>
        author ← of_option (ErrText "author not found") (GetBorChainBlockAuthor (i64 borBlock));
        if negb (bool_decide (author ∈ unique))
           || (length (Validators (span_ValidatorSet seedSpan)) =? 1)%nat
        then Ok (Some (borBlock, author), firstDiff)
        else
          let firstDiff :=
            match lastAuthor with
            | Some la => if (firstDiff =? 0) && negb (bool_decide (author = la)) then borBlock else firstDiff
            | None => firstDiff
            end in
          find_seed_block n seedSpan sprint unique lastAuthor (u64 (borBlock - sprint)) firstDiff
    end
  else Ok (None, firstDiff).

(** [getBorBlockForSpanSeed] *)
Definition getBorBlockForSpanSeed {BC : BorChain} (fuel : nat) (s : BorState) (seedSpan : Span)
    (proposedSpanID : Z) : outcome (Z * bytes) :=
  if proposedSpanID =? 1 then
    author ← of_option (ErrText "author not found") (GetBorChainBlockAuthor 1);
    Ok (1, author)
  else
    let spanID := u64 (proposedSpanID - 1) in
    let lastAuthor := GetSeedProducer s spanID in
    let unique := recent_authors s spanID blockProducerMaxSpanLookback [] in
    borParams ← FetchParams s;
    '(found, firstDiff) ← find_seed_block fuel seedSpan (SprintDuration borParams) unique lastAuthor
                            (span_EndBlock seedSpan) 0;
    match found with
    | Some r => Ok r
    | None =>
        let borBlock := if firstDiff =? 0 then span_EndBlock seedSpan else firstDiff in
        author ← of_option (ErrText "author not found") (GetBorChainBlockAuthor (i64 borBlock));
        Ok (borBlock, author)
    end.

(** [FetchNextSpanSeed] *)
Definition FetchNextSpanSeed {BC : BorChain} (fuel : nat) (s : BorState) (id : Z)
    : outcome (bytes * bytes) :=
  let seedSpanID := if id <? 2 then u64 (id - 1) else u64 (id - 2) in
  seedSpan ← GetSpan s seedSpanID;
  '(borBlock, author) ← getBorBlockForSpanSeed fuel s seedSpan id;
  header ← of_option (ErrText "block header not found") (GetBorChainBlock (Some (i64 borBlock)));
  Ok (HeaderHash header, author).
