(* ===== verification/BorHandlers.v ===== *)
(** * The bor module's messages

    Models [x/bor/keeper/msg_server.go] and [x/bor/keeper/side_msg_server.go]:
    span proposals (before Rio), producer votes, backfilled spans and planned
    downtime of a producer. *)
From S2P Require Import Prelude SortedList Helpers External ValidatorSet StakeKeeper BorTypes Selection.
From S2P Require Import BorKeeper.
#[local] Open Scope Z_scope.

Record MsgProposeSpan := {
  ps_SpanId : Z; ps_Proposer : string; ps_StartBlock : Z; ps_EndBlock : Z;
  ps_ChainId : string; ps_Seed : bytes; ps_SeedAuthor : string;
}.
Record MsgVoteProducers := { vp_Voter : string; vp_VoterId : Z; vp_Votes : list Z }.
Record MsgBackfillSpans := {
  bf_Proposer : string; bf_ChainId : string; bf_LatestSpanId : Z; bf_LatestBorSpanId : Z;
}.
Record MsgSetProducerDowntime := {
  pd_Producer : string; pd_StartBlock : Z; pd_EndBlock : Z; pd_TargetProducerId : Z;
}.

(** The end block of the last milestone, as the milestone keeper answers it:
    an error, nil, or a milestone. *)
Definition LastMilestoneEnd := outcome (option Z).

Section handlers.
Context {K : Type} {SK : StakeKeeperI K} {AC : AddressCodec} {SA : SdkAddress} {EA : EthAddress}.
Context {BC : BorChain} {RSrc : RandSource}.
Context (cfg : Config).

Definition ErrInvalidSpan : error := ErrText "invalid span".
Definition ErrInvalidChainID : error := ErrText "invalid bor chain id".
Definition ErrNoYesVotes : error := ErrText "side-tx didn't get yes votes".

(** ** The message server *)

Definition ProposeSpan (params : option ChainManagerParams) (s : BorState) (msg : MsgProposeSpan)
    : outcome unit :=
  ValAddressFromHex (ps_Proposer msg) ≫= fun _ =>
  params ← of_option ErrNotFound params;
  return_if negb (ValidateChainID (ps_ChainId msg) (BorChainId params)) with ErrInvalidChainID ;;
  return_if negb (length (ps_Seed msg) =? HashLength)%nat with ErrText "invalid seed length" ;;
  lastSpan ← GetLastSpan s;
  return_if negb (u64 (span_Id lastSpan + 1) =? ps_SpanId msg)
            || negb (ps_StartBlock msg =? u64 (span_EndBlock lastSpan + 1))
            || (ps_EndBlock msg <=? ps_StartBlock msg) with ErrInvalidSpan ;;
  Ok tt.

Definition UpdateParams (authority : string) (s : BorState) (msgAuthority : string) (p : BorParams)
    : outcome BorState :=
  return_if negb (String.eqb authority msgAuthority) with ErrText "invalid authority" ;;
  ValidateBasic_BorParams p ≫= fun _ => Ok (SetParams s p).

(** Whether a list of votes names nobody twice. *)
Fixpoint has_duplicate (seen votes : list Z) : bool :=
  match votes with
  | [] => false
  | v :: rest => bool_decide (v ∈ seen) || has_duplicate (v :: seen) rest
  end.

Definition VoteProducers (ctx : Ctx) (sk : K) (s : BorState) (msg : MsgVoteProducers)
    : outcome BorState :=
  CanVoteProducers cfg s ≫= fun _ =>
  voter ← AccAddressFromHex (vp_Voter msg);
  validator ← sk_GetValidatorFromValID sk (vp_VoterId msg);
  addr ← must (PubKeyAddress (PubKey validator));
  return_if negb (String.eqb (FormatAddress (AccAddressString voter)) (FormatAddress (AddressString addr)))
    with ErrText "voter address does not match" ;;
  return_if has_duplicate [] (vp_Votes msg) with ErrText "duplicate vote" ;;
  (if IsZurichHardfork cfg (BlockHeight ctx) then
     active ← isValidatorInActiveSet sk (vp_VoterId msg);
     return_if negb active with ErrText "voter is not in the active validator set" ;; Ok tt
   else Ok tt) ≫= fun _ =>
  Ok (SetProducerVotes s (vp_VoterId msg) (vp_Votes msg)).

Definition BackfillSpans (params : option ChainManagerParams) (milestone : LastMilestoneEnd)
    (s : BorState) (msg : MsgBackfillSpans) : outcome unit :=
  ValAddressFromHex (bf_Proposer msg) ≫= fun _ =>
  params ← of_option ErrNotFound params;
  return_if negb (ValidateChainID (bf_ChainId msg) (BorChainId params)) with ErrInvalidChainID ;;
  latestSpan ← GetLastSpan s;
  return_if negb (bf_LatestSpanId msg =? span_Id latestSpan)
            && negb (bf_LatestSpanId msg =? u64 (span_Id latestSpan - 1)) with ErrInvalidSpan ;;
  return_if bf_LatestBorSpanId msg <=? bf_LatestSpanId msg with ErrText "invalid last bor span id" ;;
  latestMilestone ← milestone;
  milestoneEnd ← of_option (ErrText "latest milestone not found") latestMilestone;
  borLastUsedSpan ← GetSpan s (bf_LatestSpanId msg);
  borSpanId ← CalcCurrentBorSpanId milestoneEnd (Some borLastUsedSpan);
  return_if negb (borSpanId =? bf_LatestBorSpanId msg) with ErrInvalidSpan ;;
  Ok tt.

(** The check of an overriding target the message server and the side handler
    share. *)
Definition candidates_or_fallback (ctx : Ctx) (sk : K) (s : BorState) : outcome (list Z) :=
  candidates ← CalculateProducerSet cfg ctx sk s (GetProducerSetLimit cfg (BlockHeight ctx));
  Ok (match candidates with [] => fallbackProducerVotes cfg | _ => candidates end).

Definition SetProducerDowntime (ctx : Ctx) (sk : K) (s : BorState) (msg : MsgSetProducerDowntime)
    : outcome unit :=
  CanSetProducerDowntime cfg ctx ≫= fun _ =>
  return_if pd_EndBlock msg <=? pd_StartBlock msg with ErrText "start block must be less than end block" ;;
  return_if u64 (pd_EndBlock msg - pd_StartBlock msg) <? PlannedDowntimeMinRange
    with ErrText "time range too small" ;;
  return_if PlannedDowntimeMaxRange <? u64 (pd_EndBlock msg - pd_StartBlock msg)
    with ErrText "time range too large" ;;
  producer ← of_option (ErrText "producer not found in the current validator set")
    (find (fun v => String.eqb (vaddr v) (FormatAddress (pd_Producer msg)))
       (sk_GetSpanEligibleValidators sk));
  let producerId := ValId producer in
  candidates ← candidates_or_fallback ctx sk s;
  return_if negb (bool_decide (producerId ∈ candidates)) with ErrText "not in the current producer set" ;;
  return_if negb (pd_TargetProducerId msg =? RoundRobinDefault)
            && (BlockHeight ctx <? zurichHardforkHeight cfg)
    with ErrText "target producer override is not enabled" ;;
  return_if negb (pd_TargetProducerId msg =? RoundRobinDefault)
            && (zurichHardforkHeight cfg <=? BlockHeight ctx)
            && (pd_TargetProducerId msg =? producerId)
    with ErrText "target producer cannot be the same as the current producer" ;;
  return_if negb (pd_TargetProducerId msg =? RoundRobinDefault)
            && (zurichHardforkHeight cfg <=? BlockHeight ctx)
            && negb (bool_decide (pd_TargetProducerId msg ∈ candidates))
    with ErrText "target producer is not in the current producer set" ;;
  Ok tt.

(** ** The side handlers *)

Definition SideHandleMsgSpan (fuel : nat) (params : option ChainManagerParams)
    (milestone : LastMilestoneEnd) (s : BorState) (msg : MsgProposeSpan) : outcome Vote :=
  vote_no_if IsRio cfg (ps_StartBlock msg) ;;
  borParams <-no FetchParams s ;;
  vote_no_if negb (SpanDuration borParams =? u64 (u64 (ps_EndBlock msg - ps_StartBlock msg) + 1)) ;;
  seed <-no FetchNextSpanSeed fuel s (ps_SpanId msg) ;;
  vote_no_if negb (bool_decide (ps_Seed msg = seed.1)) ;;
  vote_no_if negb (String.eqb (FormatAddress (ps_SeedAuthor msg)) (FormatAddress (AddressHex seed.2))) ;;
  params <-some params ;;
  vote_no_if negb (String.eqb (BorChainId params) (ps_ChainId msg)) ;;
  vote_no_if negb (length (ps_Seed msg) =? HashLength)%nat ;;
  match milestone with
  | Panic | Ok None => Panic     (* a nil milestone is dereferenced *)
  | _ =>
      let latestMilestoneEndBlock := match milestone with Ok (Some e) => e | _ => 0 end in
      childBlock <-some GetBorChainBlock None ;;
      lastSpan <-no GetLastSpan s ;;
      vote_no_if negb (u64 (span_Id lastSpan + 1) =? ps_SpanId msg)
                 || negb (ps_StartBlock msg =? u64 (span_EndBlock lastSpan + 1))
                 || (ps_EndBlock msg <=? ps_StartBlock msg) ;;
      let currentBlock := u64 (Number childBlock) in
      let maxBlockNumber := Z.max latestMilestoneEndBlock currentBlock in
      vote_no_if IsBlockCloseToSpanEnd maxBlockNumber (span_EndBlock lastSpan) ;;
      vote_no_if ps_StartBlock msg <=? maxBlockNumber ;;
      vote_no_if (currentBlock <? span_StartBlock lastSpan) || (span_EndBlock lastSpan <? currentBlock) ;;
      Ok VOTE_YES
  end.

Definition SideHandleSetProducerDowntime (ctx : Ctx) (sk : K) (s : BorState)
    (msg : MsgSetProducerDowntime) : outcome Vote :=
  vote_no_if pd_EndBlock msg <=? pd_StartBlock msg ;;
  childBlock <-some GetBorChainBlock None ;;
  let childBlockNumber := u64 (Number childBlock) in
  activeProducers <-no GetProducersByBlockNumber s (pd_StartBlock msg) ;;
  vote_no_if negb (existsb (fun p => String.eqb (FormatAddress (AddressHex p)) (FormatAddress (pd_Producer msg)))
                     activeProducers) ;;
  let target := pd_TargetProducerId msg in
  vote_no_if negb (target =? RoundRobinDefault) && (BlockHeight ctx <? zurichHardforkHeight cfg) ;;
  targetOk <-no
    (if negb (target =? RoundRobinDefault) && (zurichHardforkHeight cfg <=? BlockHeight ctx) then
       sk_GetValidatorFromValID sk target ≫= fun _ =>
       producerValID ← sk_GetValIdFromAddress sk (pd_Producer msg);
       if target =? producerValID then Ok false
       else candidates ← candidates_or_fallback ctx sk s;
            Ok (bool_decide (target ∈ candidates))
     else Ok true) ;;
  vote_no_if negb targetOk ;;
  vote_no_if u64 (pd_EndBlock msg - pd_StartBlock msg) <? PlannedDowntimeMinRange ;;
  vote_no_if pd_StartBlock msg <? u64 (childBlockNumber + PlannedDowntimeMinimumTimeInFuture) ;;
  vote_no_if u64 (childBlockNumber + PlannedDowntimeMaximumTimeInFuture) <? pd_EndBlock msg ;;
  Ok VOTE_YES.

Definition SideHandleMsgBackfillSpans (msg : MsgBackfillSpans) : outcome Vote := Ok VOTE_NO.

(** ** The post-handlers

    A post-handler that returns without an error keeps the state it has
    written; [nil] from an early return keeps the state as it was. *)

Definition PostHandleMsgSpan (fuel : nat) (sk : K) (s : BorState) (msg : MsgProposeSpan)
    (sideTxResult : Vote) : outcome BorState :=
  if IsRio cfg (ps_StartBlock msg) then Ok s
  else
    return_if negb (IsSideTxApproved sideTxResult) with ErrNoYesVotes ;;
    return_if HasSpan s (ps_SpanId msg) with ErrText "span already processed" ;;
    s ← StoreSeedProducer s (ps_SpanId msg) (HexToAddress (ps_SeedAuthor msg));
    panic_when negb (HashLength <=? length (ps_Seed msg))%nat ;;
    FreezeSet fuel sk s (ps_SpanId msg) (ps_StartBlock msg) (ps_EndBlock msg) (ps_ChainId msg)
      (take HashLength (ps_Seed msg)).

(** The spans are stored one by one; two that are already there are an error. *)
Fixpoint store_spans (s : BorState) (spansOverlap : nat) (l : list Span) : outcome BorState :=
  match l with
  | [] => Ok s
  | span :: rest =>
      let spansOverlap := if is_ok (GetSpan s (span_Id span)) then S spansOverlap else spansOverlap in
      return_if (1 <? spansOverlap)%nat with ErrText "more than one span overlap detected" ;;
      store_spans (AddNewSpan s span) spansOverlap rest
  end.
Definition PostHandleMsgBackfillSpans (fuel : nat) (milestone : LastMilestoneEnd) (s : BorState)
    (msg : MsgBackfillSpans) (sideTxResult : Vote) : outcome BorState :=
  if IsRio cfg (bf_LatestSpanId msg) then Ok s
  else
    return_if negb (IsSideTxApproved sideTxResult) with ErrNoYesVotes ;;
    latestMilestone ← milestone;
    milestoneEnd ← of_option (ErrText "latest milestone not found") latestMilestone;
    latestSpan ← GetSpan s (bf_LatestSpanId msg);
    generated ← GenerateBorCommittedSpans fuel milestoneEnd latestSpan;
    match generated with
    | None => Panic
    | Some borSpans =>
        s ← store_spans s 0 borSpans;
        (* the event reads the first span *)
        match borSpans with [] => Panic | _ => Ok s end
    end.

(** Whether a span from the last one down to the start of the downtime falls
    into the downtime of the producer. *)
Fixpoint overlapping_span (s : BorState) (producer dtStart : Z) (cur : Span) (fuel : nat) : bool :=
  if IsProducerDownForBlockRange s (span_StartBlock cur) (span_EndBlock cur) producer then true
  else if (span_Id cur =? 0) || (span_EndBlock cur <? dtStart) then false
  else match fuel, GetSpan s (u64 (span_Id cur - 1)) with
       | S n, Ok prev => overlapping_span s producer dtStart prev n
       | _, _ => false
       end.

Definition PostHandleSetProducerDowntime (ctx : Ctx) (sk : K) (s : BorState)
    (msg : MsgSetProducerDowntime) (sideTxResult : Vote) : outcome BorState :=
  return_if negb (IsSideTxApproved sideTxResult) with ErrNoYesVotes ;;
  validatorId ← sk_GetValIdFromAddress sk (pd_Producer msg);
  producers ← CalculateProducerSet cfg ctx sk s (GetProducerSetLimit cfg (BlockHeight ctx));
  return_if negb (bool_decide (validatorId ∈ producers)) with ErrText "not a registered producer" ;;
  return_if (length producers =? 1)%nat with ErrText "only one registered producer" ;;
  let others := List.filter (fun p => negb (p =? validatorId)) producers in
  let recorded := List.filter (fun p => bool_decide (is_Some (ProducerPlannedDowntime s !! p))) others in
  let overlapping := List.filter
    (fun p => IsProducerDownForBlockRange s (pd_StartBlock msg) (pd_EndBlock msg) p) recorded in
  let otherProducers := (length producers - 1)%nat in
  return_if (0 <? otherProducers)%nat && (length recorded =? otherProducers)%nat
            && (length overlapping =? otherProducers)%nat
    with ErrText "overlapping planned downtime with all other producers" ;;
  let s := set_span_block s (LastSpanBlock s)
             (<[validatorId := (pd_StartBlock msg, pd_EndBlock msg)]> (ProducerPlannedDowntime s)) in
  params ← FetchParams s;
  lastSpan ← GetLastSpan s;
  let latestActiveProducer :=
    (GetLatestActiveProducer s ∖ GetLatestFailedProducer s) ∖ {[validatorId]} in
  if negb (overlapping_span s validatorId (pd_StartBlock msg) lastSpan (Z.to_nat (span_Id lastSpan)))
  then Ok s
  else
    let spanEndBlock :=
      if zurichHardforkHeight cfg <=? BlockHeight ctx
      then u64 (u64 (pd_StartBlock msg + SpanDuration params) - 1)
      else u64 (pd_StartBlock msg + SpanDuration params) in
    AddNewVeBlopSpan cfg ctx sk s validatorId (pd_StartBlock msg) spanEndBlock
      (span_BorChainId lastSpan) latestActiveProducer (u64 (BlockHeight ctx))
      (pd_TargetProducerId msg) ∅ false.

(** ** Dispatch: the methods that have side and post-handlers *)

Inductive BorMsg :=
| MProposeSpan (msg : MsgProposeSpan)
| MBackfillSpans (msg : MsgBackfillSpans)
| MSetProducerDowntime (msg : MsgSetProducerDowntime).

Definition SideTxHandler (fuel : nat) (ctx : Ctx) (params : option ChainManagerParams)
    (milestone : LastMilestoneEnd) (sk : K) (s : BorState) (msg : BorMsg) : outcome Vote :=
  match msg with
  | MProposeSpan m => SideHandleMsgSpan fuel params milestone s m
  | MBackfillSpans m => SideHandleMsgBackfillSpans m
  | MSetProducerDowntime m => SideHandleSetProducerDowntime ctx sk s m
  end.

Definition PostTxHandler (fuel : nat) (ctx : Ctx) (milestone : LastMilestoneEnd) (sk : K)
    (s : BorState) (msg : BorMsg) (v : Vote) : outcome BorState :=
  match msg with
  | MProposeSpan m => PostHandleMsgSpan fuel sk s m v
  | MBackfillSpans m => PostHandleMsgBackfillSpans fuel milestone s m v
  | MSetProducerDowntime m => PostHandleSetProducerDowntime ctx sk s m v
  end.
End handlers.
