(* ===== verification/StakePromise.v ===== *)
(** * What the stake module promises to the bor module

    The bor module reads the stake module through [StakeKeeperI] and relies on
    [StakePromise].  The stake module keeps the promise in every block: its
    invariant implies it, and the post-handlers and the end of a block keep the
    invariant. *)
From S2P Require Import Prelude SortedList Helpers External ValidatorSet ValidatorSetFacts.
From S2P Require Import ValidatorSetCorrect StakeKeeper StakeHandlers StakeCorrect BorTypes Selection BorKeeper.
#[local] Open Scope Z_scope.

(** ** Members after a batch update *)

Section members.
Context (P : Validator -> Prop) (P_prio : forall v z, P v -> P (with_priority v z)).

Lemma Forall_with_priority (f : Validator -> Z) l :
  Forall P l -> Forall P (map (fun v => with_priority v (f v)) l).
Proof. intros H. apply Forall_map. eapply Forall_impl; [exact H|]. cbn. auto. Qed.

Lemma RescalePriorities_Forall vals d vals' :
  RescalePriorities vals d = Ok vals' -> Forall P (Validators vals) -> Forall P (Validators vals').
Proof.
  unfold RescalePriorities. intros H HF. ok_step H. destruct (_ <=? 0) in H; [by injection H as <-|].
  ok_step H. destruct (_ <? _) in H; [|by injection H as <-]. ok_step H. injection H as <-.
  by apply Forall_with_priority.
Qed.

Lemma shiftByAvg_Forall vals vals' :
  shiftByAvgProposerPriority vals = Ok vals' -> Forall P (Validators vals) -> Forall P (Validators vals').
Proof.
  unfold shiftByAvgProposerPriority. intros H HF. ok_step H. ok_step H. injection H as <-.
  by apply Forall_with_priority.
Qed.

Lemma computeNewPriorities_Forall u vals T : Forall P u -> Forall P (computeNewPriorities u vals T).
Proof.
  intros H. apply Forall_map. eapply Forall_impl; [exact H|]. cbn. intros v Hv.
  destruct (get_val vals (Signer v)); auto.
Qed.

Lemma total_validators vals : forall t vals', GetTotalVotingPower vals = Ok (t, vals') -> Validators vals' = Validators vals.
Proof.
  unfold GetTotalVotingPower, updateTotalVotingPower. intros t vals' H. ok_step H. injection H as _ <-.
  destruct (_ =? 0) in Ha; [|by injection Ha as ->]. ok_step Ha. by injection Ha as <-.
Qed.

Lemma update_Forall vals changes vals' : wf vals ->
  UpdateWithChangeSet vals changes = Ok vals' ->
  Forall P (Validators vals) -> Forall P changes -> Forall P (Validators vals').
Proof.
  intros Hwf H HV HC. unfold UpdateWithChangeSet, updateWithChangeSet in H.
  destruct changes as [|c cs]; [by injection H as <-|]. set (changes := c :: cs) in *.
  ok_step H. destruct a as [u d]. ok_step H. ok_step H. ok_step H. destruct a0 as [[T n] vals1]. ok_step H.
  ok_step H. ok_step H. ok_step H. destruct a2 as [t vals2]. ok_step H.
  apply processChanges_ok in Ha as (Eu & _ & _ & HSu & _ & _).
  assert (Validators vals1 = Validators vals) as E1.
  { unfold verifyUpdates in Ha1. destruct (GetTotalVotingPower vals) as [[t0 vals0]| |] eqn:Et; [|done..].
    cbn [mbind outcome_bind] in Ha1. destruct (verify_updates_from _ _ _ _) as [[]| |]; [|done..].
    injection Ha1 as _ _ <-. by eapply total_validators. }
  assert (Forall P (Validators a0)) as HF.
  { unfold applyRemovals in Ha2. ok_step Ha2. destruct (remove_by _ _ _) as [l|] eqn:El; [|done].
    injection Ha2 as <-. cbn. apply Forall_forall. intros v Hv. apply remove_by_sublist in El.
    assert (Forall P (merge_by vaddr (Validators vals1) (computeNewPriorities u vals1 T))) as HM.
    { apply (Forall_merge_by vaddr).
      - rewrite E1. by apply wf_sorted.
      - eapply same_but_prio_ssorted; [apply same_but_prio_computeNew|done].
      - by rewrite E1.
      - apply computeNewPriorities_Forall. rewrite Eu. apply Forall_filter. by rewrite (sort_by_perm vaddr changes). }
    rewrite Forall_forall in HM. apply HM. eapply elem_of_sublist; [exact Hv|exact El]. }
  eapply shiftByAvg_Forall; [exact H|]. eapply RescalePriorities_Forall; [exact Ha5|].
  rewrite (total_validators _ _ _ Ha4). unfold updateTotalVotingPower in Ha3. ok_step Ha3. by injection Ha3 as <-.
Qed.
End members.

(** ** The invariant *)

Record serving (s : StakeState) (vs : ValidatorSet) : Prop := {
  sv_ready : end_block_ready s vs;
  sv_ids : ids_ok s;
  sv_members : Forall (fun v => is_Some (signer s !! ValId v)) (Validators vs);
  sv_stored a v : validators s !! a = Some v -> is_Some (signer s !! ValId v);
}.

Lemma GetValidatorFromValID_no_panic s i : GetValidatorFromValID s i <> Panic.
Proof.
  unfold GetValidatorFromValID, GetSignerFromValidatorID, GetValidatorInfo.
  destruct (signer s !! i) as [a|]; cbn; [|done]. by destruct (validators s !! FormatAddress a).
Qed.

Lemma registered_found s i : store_ok s -> is_Some (signer s !! i) ->
  is_ok (GetValidatorFromValID s i) = true.
Proof.
  intros HS [a Ha]. destruct (so_signer _ HS i a Ha) as [[v Hv] Hf].
  unfold GetValidatorFromValID, GetSignerFromValidatorID, GetValidatorInfo. rewrite Ha. cbn. by rewrite Hf, Hv.
Qed.

Lemma serving_promise s vs ackCount : serving s vs -> StakePromise (s, ackCount).
Proof.
  intros [HR HI HM _]. split; cbn.
  - exists vs. split; [unfold GetValidatorSet; by rewrite (eb_set _ _ HR)|]. intros v Hv.
    rewrite Forall_forall in HM. apply registered_found; [by eapply eb_store|by apply HM].
  - intros i. apply GetValidatorFromValID_no_panic.
  - intros i v. apply HI.
Qed.

(** Adding a validator at an address no other id points to. *)
Lemma AddValidator_ids s v : store_ok s -> ids_ok s ->
  (forall j, signer s !! j = Some (FormatAddress (Signer v)) -> j = ValId v) -> ids_ok (AddValidator s v).
Proof.
  intros HS HI Hown j w. destruct (decide (j = ValId v)) as [->|Hj].
  { rewrite AddValidator_by_id. by intros [= <-]. }
  unfold GetValidatorFromValID, GetSignerFromValidatorID, GetValidatorInfo. cbn.
  rewrite lookup_insert_ne by done. destruct (signer s !! j) as [a|] eqn:Ea; cbn; [|done].
  rewrite lookup_insert_ne.
  - intros H. apply HI. unfold GetValidatorFromValID, GetSignerFromValidatorID, GetValidatorInfo.
    by rewrite Ea.
  - intros E. apply Hj, Hown. rewrite E. by rewrite (proj2 (so_signer _ HS _ _ Ea)).
Qed.

Lemma AddValidator_serving s v vs : serving s vs ->
  (forall j, signer s !! j = Some (FormatAddress (Signer v)) -> j = ValId v) -> serving (AddValidator s v) vs.
Proof.
  intros [[HS Hset Hwf Hmem] HI HM HSt] Hown.
  assert (forall i, is_Some (signer s !! i) -> is_Some (signer (AddValidator s v) !! i)) as Hsig.
  { intros i Hi. cbn. apply lookup_insert_is_Some'. auto. }
  split; [split| | |].
  - by apply AddValidator_store_ok.
  - exact Hset.
  - exact Hwf.
  - intros w Hw. cbn. apply lookup_insert_is_Some'. right. by apply Hmem.
  - by apply AddValidator_ids.
  - eapply Forall_impl; [exact HM|]. intros w. apply Hsig.
  - intros a w. cbn. intros [[<- <-]|[_ H]]%lookup_insert_Some.
    + rewrite lookup_insert_eq. eauto.
    + apply Hsig. by eapply HSt.
Qed.

Lemma SetStakingSequence_serving s q vs : serving s vs -> serving (SetStakingSequence s q) vs.
Proof. intros [[HS ? ? ?] ? ? ?]. split; [split|..]; try done. by apply SetStakingSequence_store_ok. Qed.

(** A stored validator owns its address. *)
Lemma stored_owner s i v : store_ok s -> ids_ok s -> GetValidatorFromValID s i = Ok v ->
  ValId v = i /\ forall j, signer s !! j = Some (FormatAddress (Signer v)) -> j = ValId v.
Proof.
  intros HS HI H. pose proof (HI _ _ H) as Hi. split; [done|]. intros j Hj.
  destruct (GetValidatorFromValID_stored _ _ _ H) as [a Ha]. pose proof (so_key _ HS _ _ Ha) as Ek.
  symmetry. apply HI. unfold GetValidatorFromValID, GetSignerFromValidatorID, GetValidatorInfo.
  rewrite Hj. cbn. rewrite format_address_idem. fold (vaddr v). rewrite Ek, Ha. done.
Qed.

(** ** Preservation *)

Section preservation.
Context {AC : AddressCodec} {B : Type} {BK : BankKeeper B}.
Context (cfg : Config) (ackCount : Z).
Abbreviation state := (StakeState * B)%type.

(** The signer a message brings. *)
Definition brought_signer (m : StakeMsg) : outcome string :=
  match m with
  | MValidatorJoin m => signer_of_key (key_bytes (vj_SignerPubKey m))
  | MSignerUpdate m => signer_of_key (key_bytes (sg_NewSignerPubKey m))
  | _ => Err ErrNotFound
  end.
(** It is not the signer of another validator: the staking contract sees to it. *)
Definition signer_unused (s : StakeState) (m : StakeMsg) : Prop :=
  forall a j, brought_signer m = Ok a -> signer s !! j = Some a -> j = msg_val_id m.

Lemma signer_of_key_formatted pk a : signer_of_key pk = Ok a -> FormatAddress a = a.
Proof. unfold signer_of_key. intros H. ok_step H. injection H as <-. apply format_address_idem. Qed.

Lemma post_serving ctx (st st' : state) m v vs :
  serving st.1 vs -> signer_unused st.1 m -> PostTxHandler cfg ctx ackCount st m v = Ok st' ->
  serving st'.1 vs.
Proof.
  destruct st as [s bank]. intros HV HU. pose proof (eb_store _ _ (sv_ready _ _ HV)) as HS.
  pose proof (sv_ids _ _ HV) as HI.
  destruct m as [m|m|m|m]; cbn [PostTxHandler]; intros H; try ok_step H;
    [unfold PostHandleMsgValidatorJoin in Ha; ok_inv Ha
    |unfold PostHandleMsgStakeUpdate in Ha; ok_inv Ha
    |unfold PostHandleMsgSignerUpdate in H; ok_inv H
    |unfold PostHandleMsgValidatorExit in Ha; ok_inv Ha]; ok_inv H; subst; cbn [fst] in *;
    apply SetStakingSequence_serving.
  - apply AddValidator_serving; [done|]. cbn. intros j.
    erewrite signer_of_key_formatted by eassumption. by apply HU.
  - apply AddValidator_serving; [done|]. cbn.
    match goal with H : GetValidatorFromValID s _ = Ok _ |- _ => by apply (stored_owner s) in H as [_ ?] end.
  - match goal with H : GetValidatorFromValID s _ = Ok _ |- _ => apply (stored_owner s) in H as [Hid Hown]; [|done..] end.
    apply AddValidator_serving; [by apply AddValidator_serving|]. cbn. intros j.
    rewrite (signer_of_key_formatted _ a0) by eassumption. intros [[<- _]|[_ Hj]]%lookup_insert_Some; [done|].
    rewrite Hid. by eapply HU.
  - apply AddValidator_serving; [done|]. cbn.
    match goal with H : GetValidatorFromValID s _ = Ok _ |- _ => by apply (stored_owner s) in H as [_ ?] end.
Qed.

Lemma GetUpdated_Forall (P : Validator -> Prop) cur vs :
  (forall v z, P v -> P (with_power v z)) -> Forall P vs -> Forall P (GetUpdatedValidators cur vs ackCount).
Proof.
  intros HP. unfold GetUpdatedValidators. induction 1 as [|v vs Hv HF IH]; cbn; [constructor|].
  apply Forall_app. split; [|done]. unfold updated_validator.
  destruct (get_val _ _); repeat case_match; repeat constructor; auto.
Qed.

Lemma end_block_serving {PK} (pk : bytes -> option PK) ctx s vs ups s' :
  serving s vs -> ApplyAndReturnValidatorSetUpdates pk cfg ctx ackCount s = Ok (ups, s') ->
  exists vs', serving s' vs'.
Proof.
  intros HV H. destruct (end_block_ok cfg ackCount pk ctx s vs ups s' (sv_ready _ _ HV) H)
    as (vs' & Hset & _ & Hwf & Hv & _ & Hpow).
  assert (signer s' = signer s /\ Forall (fun v => is_Some (signer s !! ValId v)) (Validators vs')) as [Hsig HM].
  { unfold ApplyAndReturnValidatorSetUpdates, GetValidatorSet in H. rewrite (eb_set _ _ (sv_ready _ _ HV)) in H.
    cbn [of_option mbind outcome_bind] in H. ok_step H.
    assert (signer a = signer s /\ validators a = validators s /\ validatorSet a = validatorSet s) as (E1 & E2 & E3).
    { ok_inv Ha; by subst a. }
    assert (GetAllValidators (UpdatePreviousBlockValidatorSetInStore a vs) = GetAllValidators s) as Eall
      by (unfold GetAllValidators; cbn; by rewrite E2).
    rewrite Eall in H.
    destruct (GetUpdatedValidators vs (GetAllValidators s) ackCount) as [|u us] eqn:Eu.
    - injection H as _ <-. cbn in Hset. rewrite E3, (eb_set _ _ (sv_ready _ _ HV)) in Hset. injection Hset as <-.
      split; [done|]. apply (sv_members _ _ HV).
    - ok_step H. ok_step H. injection H as _ <-. cbn in Hset. injection Hset as <-. split; [done|].
      eapply (update_Forall (fun v => is_Some (signer s !! ValId v)));
        [done|by apply (eb_wf _ _ (sv_ready _ _ HV))|exact Ha0|by apply (sv_members _ _ HV)|].
      rewrite <- Eu. apply GetUpdated_Forall; [done|]. apply Forall_forall. intros v Hin.
      unfold GetAllValidators in Hin. change (map ?f ?l) with (f <$> l) in Hin.
      apply list_elem_of_fmap in Hin as ([k x] & -> & Hin). rewrite (sort_by_perm _), elem_of_map_to_list in Hin.
      by eapply (sv_stored _ _ HV). }
  exists vs'. destruct HV as [[HS _ _ _] HI _ HSt]. split; [split| | |].
  - destruct HS as [A C]. split; intros *; rewrite Hv, ?Hsig; [apply A|apply C].
  - exact Hset.
  - exact Hwf.
  - intros v Hin. rewrite Hv. assert (0 < power_at (vaddr v) (Validators vs')) as Hp.
    { unfold power_at. rewrite find_by_elem; [|by apply ssorted_NoDup, wf_sorted|done]. cbn.
      pose proof (wf_power _ Hwf) as HF. rewrite Forall_forall in HF. by apply HF. }
    rewrite Hpow in Hp. unfold stored_power in Hp. destruct (validators s !! vaddr v); [eauto|lia].
  - intros i v. unfold GetValidatorFromValID, GetSignerFromValidatorID, GetValidatorInfo. rewrite Hsig, Hv. apply HI.
  - by rewrite Hsig.
  - intros a v. rewrite Hv, Hsig. apply HSt.
Qed.
End preservation.

(** ** The property *)

(** The stake module keeps its promise to the bor module: its invariant
    implies that the validator set can be read, that every member is found by its
    id and that ids find their own validator; every post-handler preserves it, as
    long as the signer a message brings belongs to no other validator, and so
    does the end of the block. *)
Theorem stake_keeps_promise {AC : AddressCodec} {B : Type} {BK : BankKeeper B} {PK : Type}
    (pk : bytes -> option PK) (cfg : Config) (ctx : Ctx) (ackCount : Z) (s : StakeState) (vs : ValidatorSet) :
  serving s vs ->
  StakePromise (s, ackCount) /\
  (forall (bank : B) m v st', signer_unused s m ->
     PostTxHandler cfg ctx ackCount (s, bank) m v = Ok st' -> serving st'.1 vs) /\
  (forall ups s', ApplyAndReturnValidatorSetUpdates pk cfg ctx ackCount s = Ok (ups, s') ->
     exists vs', serving s' vs').
Proof.
  intros H. split; [by eapply serving_promise|]. split.
  - intros bank m v st' HU. by apply (post_serving cfg ackCount ctx (s, bank)).
  - intros ups s'. by eapply end_block_serving.
Qed.

(** ** Witness *)

Module StakePromiseDemo.
Import StakeDemo.

Lemma fold_AddValidator_serving l : forall s vs, serving s vs ->
  Forall (fun v => signer s !! ValId v = None /\ forall j, signer s !! j <> Some (vaddr v)) l ->
  NoDup (map ValId l) -> NoDup (map vaddr l) -> serving (fold_left AddValidator l s) vs.
Proof.
  induction l as [|v l IH]; intros s vs HV HF N1 N2; cbn [fold_left]; [done|].
  apply Forall_cons in HF as [[Hv Hn] HF]. cbn [map] in N1, N2.
  apply NoDup_cons in N1 as [Hi N1]. apply NoDup_cons in N2 as [Ha N2].
  apply IH; [|..|done|done].
  - apply AddValidator_serving; [done|]. intros j Hj. by destruct (Hn j).
  - apply Forall_forall. intros w Hw. rewrite Forall_forall in HF. destruct (HF w Hw) as [Hw1 Hw2].
    cbn. rewrite lookup_insert_ne by (intros E; apply Hi; rewrite E; by apply list_elem_of_fmap_2).
    split; [done|]. intros j [[_ E]|[_ E]]%lookup_insert_Some; [|by apply (Hw2 j)].
    apply Ha. fold (vaddr v) in E. rewrite E. by apply list_elem_of_fmap_2.
Qed.

(** Three validators in the store, none yet in the set. *)
Definition no_set : ValidatorSet := {| Validators := []; Proposer := None; TotalVotingPower := 0 |}.
Definition genesis_validators : list Validator :=
  [stored_validator 1 "0xaa" 0 9; stored_validator 2 "0xBB" 0 10; stored_validator 3 "0xcc" 0 3].
Definition genesis_state : StakeState :=
  fold_left AddValidator genesis_validators
    (UpdatePreviousBlockValidatorSetInStore (UpdateValidatorSetInStore empty_state no_set) no_set).

Lemma genesis_serving : serving genesis_state no_set.
Proof.
  apply fold_AddValidator_serving.
  - split; [split|..].
    + by apply store_ok_empty.
    + reflexivity.
    + apply wf_check_sound. reflexivity.
    + intros v Hv. by apply not_elem_of_nil in Hv.
    + intros i v H. vm_compute in H. discriminate H.
    + constructor.
    + intros a v H. cbn in H. by rewrite lookup_empty in H.
  - repeat constructor; intros j H; cbn in H; by rewrite lookup_empty in H.
  - apply (bool_decide_unpack _). vm_compute. exact I.
  - apply (bool_decide_unpack _). vm_compute. exact I.
Qed.

Lemma stake_keeps_promise_witness :
  StakePromise (genesis_state, 5) /\
  exists ups s' vs', ApplyAndReturnValidatorSetUpdates (fun k => Some k) demo_config demo_ctx 5 genesis_state
    = Ok (ups, s') /\ serving s' vs'.
Proof.
  destruct (stake_keeps_promise (B := unit) (fun k => Some k) demo_config demo_ctx 5 genesis_state no_set
    genesis_serving) as (HP & _ & HE).
  split; [exact HP|].
  destruct (ApplyAndReturnValidatorSetUpdates (fun k => Some k) demo_config demo_ctx 5 genesis_state)
    as [[ups s']|e|] eqn:E; [|vm_compute in E; discriminate E..].
  destruct (HE ups s' eq_refl) as [vs' Hv]. exists ups, s', vs'. split; [reflexivity|exact Hv].
Defined.
End StakePromiseDemo.
