(* ===== verification/BorVotes.v ===== *)
(** * The election of block producers

    Where the elected producers come from, and how much stake stands behind
    them. *)
From S2P Require Import Prelude SortedList Helpers External ValidatorSet StakeKeeper BorTypes Selection.
From S2P Require Import BorKeeper.
#[local] Open Scope Z_scope.

(** The points of a candidate. *)
Definition score (scores : gmap Z Z) (c : Z) : Z := match scores !! c with Some x => x | None => 0 end.

(** The stake a voter has in the validator set: [None] is a ballot not counted. *)
Definition active_stake (vals : list Validator) (voter : Z) : option Z :=
  match fold_left (fun m v => <[ValId v := VotingPower v]> m) vals (∅ : gmap Z Z) !! voter with
  | Some stake => if stake <=? 0 then None else Some stake
  | None => None
  end.

(** The stake of the voters that name [c] among the first [n] of their ballot. *)
Definition ballot_support (n : nat) (vals : list Validator) (c : Z) (ballot : Z * list Z) : Z :=
  match active_stake vals ballot.1 with
  | Some stake => if bool_decide (c ∈ take n ballot.2) then stake else 0
  | None => 0
  end.
Definition support (n : nat) (vals : list Validator) (ballots : list (Z * list Z)) (c : Z) : Z :=
  Zsum (map (ballot_support n vals c) ballots).

(** Ballots without repetitions. *)
Definition ballots_ok (s : BorState) : Prop :=
  forall voter votes, ProducerVotes s !! voter = Some votes -> NoDup votes.

(** ** Points *)

(** A candidate that is not named keeps its score, whatever the others' were. *)
Lemma credit_votes_unnamed total stake i votes scores x : x ∉ votes ->
  score (credit_votes total stake i votes scores) x = score scores x.
Proof.
  revert i scores. induction votes as [|y votes IH]; intros i scores Hx; cbn [credit_votes]; [done|].
  apply not_elem_of_cons in Hx as [Hy Hx]. destruct (total <=? i); [done|].
  rewrite (IH _ _ Hx). unfold score. by rewrite lookup_insert_ne.
Qed.
Lemma credit_votes_ext total stake i votes scores scores' x c : x ∉ votes -> c <> x ->
  (forall y, y <> x -> score scores y = score scores' y) ->
  score (credit_votes total stake i votes scores) c = score (credit_votes total stake i votes scores') c.
Proof.
  revert i scores scores'. induction votes as [|y votes IH]; intros i scores scores' Hx Hc He; cbn [credit_votes]; [by apply He|].
  apply not_elem_of_cons in Hx as [Hy Hx]. destruct (total <=? i); [by apply He|].
  apply IH; [done..|]. intros z Hz. unfold score. destruct (decide (z = y)) as [->|].
  - rewrite !lookup_insert_eq. fold (score scores y). fold (score scores' y). by rewrite He.
  - rewrite !lookup_insert_ne by done. by apply He.
Qed.

Lemma credit_votes_score total stake i votes scores :
  0 <= i -> 0 <= stake -> NoDup votes -> 0 <= total <= MaxInt64 ->
  (forall c, 0 <= score scores c) -> (forall c, score scores c + total * stake <= MaxInt64) ->
  forall c, let r := credit_votes total stake i votes scores in
    score scores c <= score r c /\
    (if bool_decide (c ∈ take (Z.to_nat (total - i)) votes) then score r c <= score scores c + total * stake
     else score r c = score scores c).
Proof.
  intros Hi Hs ND Ht. revert i Hi scores. induction ND as [|x votes Hx ND IH]; intros i Hi scores H0 Hm c;
    cbn [credit_votes].
  { rewrite take_nil. cbn. split; [lia|]. rewrite bool_decide_false by apply not_elem_of_nil. lia. }
  destruct (Z.leb_spec total i) as [Hle|Hlt].
  { replace (Z.to_nat (total - i)) with 0%nat by lia. cbn.
    rewrite bool_decide_false by apply not_elem_of_nil. lia. }
  assert (0 <= (total - i) * stake <= total * stake) by nia.
  pose proof (H0 x). pose proof (Hm x).
  rewrite (i64_id (total - i)) by (unfold in_i64, MinInt64, MaxInt64 in *; lia).
  rewrite (i64_id ((total - i) * stake)) by (unfold in_i64, MinInt64 in *; lia).
  fold (score scores x). rewrite i64_id by (unfold in_i64, MinInt64 in *; lia).
  set (s1 := <[x := score scores x + (total - i) * stake]> scores).
  assert (score s1 x = score scores x + (total - i) * stake) as E1
    by (unfold score, s1; by rewrite lookup_insert_eq).
  assert (forall y, y <> x -> score s1 y = score scores y) as E2
    by (intros y Hy; unfold score, s1; by rewrite lookup_insert_ne).
  replace (Z.to_nat (total - i)) with (S (Z.to_nat (total - (i + 1)))) by lia. cbn [take].
  destruct (decide (c = x)) as [->|Hcx].
  - rewrite credit_votes_unnamed, E1 by done. rewrite bool_decide_true by left. lia.
  - assert (forall cands, bool_decide (c ∈ x :: cands) = bool_decide (c ∈ cands)) as ->.
    { intros cands. apply bool_decide_ext. rewrite elem_of_cons. tauto. }
    rewrite <- (E2 c Hcx).
    (* the bound of [x] is used up; it plays no part in the rest *)
    assert (score (credit_votes total stake (i + 1) votes s1) c
            = score (credit_votes total stake (i + 1) votes (<[x := score scores x]> scores)) c) as ->.
    { apply (credit_votes_ext _ _ _ _ _ _ x); [done..|]. intros y Hy. unfold score, s1. by rewrite !lookup_insert_ne. }
    rewrite (E2 c Hcx).
    set (s2 := <[x := score scores x]> scores).
    assert (forall y, score s2 y = score scores y) as E3.
    { intros y. unfold score at 1, s2. destruct (decide (y = x)) as [->|].
      - by rewrite lookup_insert_eq.
      - by rewrite lookup_insert_ne. }
    pose proof (IH (i + 1) ltac:(lia) s2 ltac:(intros y; rewrite E3; apply H0)
      ltac:(intros y; rewrite E3; apply Hm) c) as H'. cbn beta zeta in H'. by rewrite E3 in H'.
Qed.

Lemma active_stake_pos vals voter stake : active_stake vals voter = Some stake -> 0 < stake.
Proof.
  unfold active_stake. destruct (_ !! voter) as [x|]; [|done].
  destruct (Z.leb_spec x 0); [done|]. intros [= <-]. lia.
Qed.

Lemma ballot_support_range n vals c ballot :
  0 <= ballot_support n vals c ballot.
Proof.
  unfold ballot_support. destruct (active_stake vals ballot.1) as [st|] eqn:E; [|lia].
  apply active_stake_pos in E. case_bool_decide; lia.
Qed.

Lemma support_nonneg n vals ballots c : 0 <= support n vals ballots c.
Proof. apply Zsum_nonneg, Forall_map, Forall_forall. intros b _. apply ballot_support_range. Qed.

(** The stakes of different voters add up to at most the total power. *)
Definition power_of_id (vals : list Validator) (i : Z) : Z :=
  Zsum (map (fun v => if ValId v =? i then VotingPower v else 0) vals).

Lemma power_of_ids vals ids : NoDup ids -> Forall (fun v => 0 <= VotingPower v) vals ->
  Zsum (map (power_of_id vals) ids) <= Zsum (map VotingPower vals).
Proof.
  intros ND. induction 1 as [|v vals Hv HF IH].
  { assert (Zsum (map (power_of_id []) ids) = 0) as ->; [|cbn; lia].
    clear. induction ids as [|i ids IH]; [done|]. cbn [map]. by rewrite Zsum_cons, IH. }
  cbn [map]. rewrite Zsum_cons.
  assert (Zsum (map (power_of_id (v :: vals)) ids)
          = Zsum (map (fun i => if ValId v =? i then VotingPower v else 0) ids) + Zsum (map (power_of_id vals) ids)) as ->.
  { clear. induction ids as [|i ids IH]; [done|]. cbn [map]. rewrite !Zsum_cons, IH.
    unfold power_of_id at 1. cbn [map]. rewrite Zsum_cons. fold (power_of_id vals i). lia. }
  assert (Zsum (map (fun i => if ValId v =? i then VotingPower v else 0) ids) <= VotingPower v); [|lia].
  clear - ND Hv. induction ND as [|i ids Hi ND IH]; [cbn; lia|]. cbn [map]. rewrite Zsum_cons.
  destruct (Z.eqb_spec (ValId v) i) as [<-|]; [|lia].
  assert (Zsum (map (fun i => if ValId v =? i then VotingPower v else 0) ids) = 0) as ->; [|lia].
  clear - Hi. induction ids as [|j ids IH]; [done|]. apply not_elem_of_cons in Hi as [Hj Hi].
  cbn [map]. rewrite Zsum_cons. destruct (Z.eqb_spec (ValId v) j); [done|]. rewrite IH by done. done.
Qed.

Lemma active_stake_le vals voter stake : Forall (fun v => 0 <= VotingPower v) vals ->
  active_stake vals voter = Some stake -> stake <= power_of_id vals voter.
Proof.
  intros HF. unfold active_stake.
  assert (forall (m : gmap Z Z) acc, (forall x, m !! voter = Some x -> x <= acc) -> 0 <= acc ->
    forall x, fold_left (fun m v => <[ValId v := VotingPower v]> m) vals m !! voter = Some x ->
    x <= acc + power_of_id vals voter) as H.
  { induction HF as [|v vals Hv HF IH]; intros m acc Hm Ha x; cbn [fold_left].
    - intros Hx%Hm. unfold power_of_id. cbn. lia.
    - assert (power_of_id (v :: vals) voter = (if ValId v =? voter then VotingPower v else 0) + power_of_id vals voter)
        as -> by done.
      intros Hx. destruct (Z.eqb_spec (ValId v) voter) as [E|E].
      + specialize (IH (<[ValId v := VotingPower v]> m) (acc + VotingPower v)). 
        specialize (IH ltac:(rewrite E, lookup_insert_eq; intros y [= <-]; lia) ltac:(lia) x Hx). lia.
      + specialize (IH (<[ValId v := VotingPower v]> m) acc).
        specialize (IH ltac:(rewrite lookup_insert_ne by done; exact Hm) Ha x Hx). lia. }
  specialize (H ∅ 0 ltac:(by intros x; rewrite lookup_empty) ltac:(lia)).
  destruct (_ !! voter) as [x|]; [|done]. specialize (H x eq_refl).
  destruct (x <=? 0); [done|]. intros [= <-]. lia.
Qed.

Definition voters_stake (vals : list Validator) (ballots : list (Z * list Z)) : Z :=
  Zsum (map (fun b => match active_stake vals b.1 with Some st => st | None => 0 end) ballots).

Lemma voters_stake_le vals ballots : NoDup (map fst ballots) -> Forall (fun v => 0 <= VotingPower v) vals ->
  voters_stake vals ballots <= Zsum (map VotingPower vals).
Proof.
  intros ND HF. etrans; [|by apply (power_of_ids vals (map fst ballots))].
  unfold voters_stake. clear ND. induction ballots as [|b ballots IH]; [done|].
  cbn [map]. rewrite !Zsum_cons.
  assert (match active_stake vals b.1 with Some st => st | None => 0 end <= power_of_id vals b.1); [|lia].
  destruct (active_stake vals b.1) as [st|] eqn:E; [by apply active_stake_le|].
  apply Zsum_nonneg, Forall_map. eapply Forall_impl; [exact HF|]. cbn. intros v Hv. destruct (ValId v =? b.1); lia.
Qed.

Section election.
Context {K : Type} {SK : StakeKeeperI K} (cfg : Config).

Abbreviation stake_map vals := (fold_left (fun m v => <[ValId v := VotingPower v]> m) vals (∅ : gmap Z Z)).

(** From Zurich on, the points of a candidate are at most [total] times the stake
    that supports it. *)
Lemma credit_ballots_score (sk : K) vals total ballots scores scores' :
  0 <= total <= MaxInt64 -> Forall (fun b => NoDup b.2) ballots ->
  (forall c, 0 <= score scores c) ->
  (forall c, score scores c + total * voters_stake vals ballots <= MaxInt64) ->
  credit_ballots sk true (stake_map vals) total ballots scores = Ok scores' ->
  forall c, 0 <= score scores' c <= score scores c + total * support (Z.to_nat total) vals ballots c.
Proof.
  intros Ht HF. revert scores. induction HF as [|[voter votes] ballots HN HF IH]; intros scores H0 Hm E c.
  { injection E as <-. unfold support. cbn. specialize (H0 c). lia. }
  cbn [credit_ballots resolveVoterStake] in E. ok_step E.
  assert (a = active_stake vals voter) as -> by (by injection Ha as <-). clear Ha.
  assert (voters_stake vals ((voter, votes) :: ballots)
    = match active_stake vals voter with Some st => st | None => 0 end + voters_stake vals ballots) as Evs by done.
  rewrite Evs in Hm. clear Evs.
  assert (0 <= voters_stake vals ballots) as Hvs.
  { apply Zsum_nonneg, Forall_map, Forall_forall. intros b _.
    destruct (active_stake vals b.1) eqn:Es; [apply active_stake_pos in Es; lia|lia]. }
  assert (support (Z.to_nat total) vals ((voter, votes) :: ballots) c
    = ballot_support (Z.to_nat total) vals c (voter, votes) + support (Z.to_nat total) vals ballots c) as -> by done.
  unfold ballot_support. cbn [fst snd] in *.
  destruct (active_stake vals voter) as [st|] eqn:Es.
  - apply active_stake_pos in Es.
    pose proof (credit_votes_score total st 0 votes scores ltac:(lia) ltac:(lia) HN Ht H0
      ltac:(intros y; specialize (Hm y); nia)) as Hc. cbn beta zeta in Hc. rewrite Z.sub_0_r in Hc.
    assert (forall y, score (credit_votes total st 0 votes scores) y <= score scores y + total * st) as Hup.
    { intros y. destruct (Hc y) as [_ Hy]. case_bool_decide; nia. }
    assert (forall y, 0 <= score (credit_votes total st 0 votes scores) y).
    { intros y. destruct (Hc y) as [Hy _]. specialize (H0 y). lia. }
    specialize (IH _ H ltac:(intros y; specialize (Hm y); specialize (Hup y); nia) E c).
    destruct (Hc c) as [_ Hy]. case_bool_decide; nia.
  - specialize (IH scores H0 ltac:(intros y; specialize (Hm y); lia) E c). lia.
Qed.

Lemma qualified_lookup total totalStake limit i ranked k c :
  qualified total totalStake limit i ranked !! k = Some c ->
  exists sc, ranked !! k = Some (c, sc) /\
    i64 (Z.quot (i64 (i64 (i64 (u64 (u64 (total - u64 (i + Z.of_nat k + 1)) + 1)) * totalStake) * 2)) 3 + 1) <= sc.
Proof.
  revert i k. induction ranked as [|[c' sc] ranked IH]; intros i k; cbn [qualified]; [done|].
  destruct (limit <=? i); [done|].
  destruct (Z.leb_spec (i64 (Z.quot (i64 (i64 (i64 (u64 (u64 (total - u64 (i + 1)) + 1)) * totalStake) * 2)) 3 + 1)) sc);
    [|done].
  destruct k as [|k]; cbn.
  - intros [= ->]. exists sc. split; [done|]. by rewrite Z.add_0_r.
  - intros (sc' & E & Hr)%IH. exists sc'. split; [done|]. by replace (i + Z.of_nat (S k) + 1) with (i + 1 + Z.of_nat k + 1) by lia.
Qed.

Lemma rank_elem scores c sc : (c, sc) ∈ rank scores -> score scores c = sc.
Proof.
  unfold rank. rewrite (sort_by_perm _). rewrite elem_of_map_to_list. unfold score. by intros ->.
Qed.

Lemma foldl_power_total vals acc : Forall (fun v => 0 <= VotingPower v) vals ->
  0 <= acc -> acc + Zsum (map VotingPower vals) <= MaxInt64 ->
  foldl (fun t v => i64 (t + VotingPower v)) acc vals = acc + Zsum (map VotingPower vals).
Proof.
  intros HF. revert acc. induction HF as [|v vals Hv HF IH]; intros acc Ha Hm; cbn [foldl map] in *; [cbn; lia|].
  rewrite Zsum_cons in *.
  assert (0 <= Zsum (map VotingPower vals)) by by apply Zsum_nonneg, Forall_map.
  rewrite i64_id by (unfold in_i64, MinInt64; lia). rewrite IH by lia. lia.
Qed.

(** The requirement, at machine width: two thirds of the points still open at
    the position. *)
Lemma required_points n k T : 0 <= T -> 0 <= k <= n -> n <= MaxInt64 -> 2 * (n * T) <= MaxInt64 ->
  i64 (Z.quot (i64 (i64 (i64 (u64 (u64 (n - u64 (k + 1)) + 1)) * T) * 2)) 3 + 1) = (n - k) * T * 2 / 3 + 1.
Proof.
  intros HT Hk Hn HM. assert (0 <= (n - k) * T <= n * T) by nia.
  rewrite (u64_id (k + 1)) by (unfold in_u64, MaxUint64, MaxInt64 in *; lia).
  assert (u64 (u64 (n - (k + 1)) + 1) = n - k) as ->.
  { unfold u64. rewrite Zplus_mod_idemp_l. replace (n - (k + 1) + 1) with (n - k) by lia.
    apply Z.mod_small. unfold MaxInt64 in *. lia. }
  rewrite (i64_id (n - k)) by (unfold in_i64, MinInt64; lia).
  rewrite (i64_id ((n - k) * T)) by (unfold in_i64, MinInt64; lia).
  rewrite (i64_id ((n - k) * T * 2)) by (unfold in_i64, MinInt64; lia).
  rewrite Z.quot_div_nonneg by lia. apply i64_id.
  pose proof (Z.div_pos ((n - k) * T * 2) 3 ltac:(lia) ltac:(lia)).
  pose proof (Z.mul_div_le ((n - k) * T * 2) 3 ltac:(lia)). unfold in_i64, MinInt64, MaxInt64 in *. lia.
Qed.

(** The ballots, in the order of the store. *)
Definition ballots (s : BorState) : list (Z * list Z) := map_to_list (ProducerVotes s).

Lemma support_perm n vals b b' c : b ≡ₚ b' -> support n vals b c = support n vals b' c.
Proof. intros H. by apply Zsum_perm, Permutation_map. Qed.

Lemma sorted_ballots s : ballots_ok s ->
  let b := sort_by fst (map_to_list (ProducerVotes s)) in
  b ≡ₚ ballots s /\ NoDup (map fst b) /\ Forall (fun x => NoDup x.2) b.
Proof.
  intros H b. assert (b ≡ₚ ballots s) as Hp by apply sort_by_perm. split_and!; [done| |].
  - rewrite Hp. apply NoDup_fst_map_to_list.
  - rewrite Hp. apply Forall_forall. intros [voter votes] Hx. by apply elem_of_map_to_list, H in Hx.
Qed.

Lemma elected_points ctx (sk : K) s limit vs l k c :
  IsZurichHardfork cfg (BlockHeight ctx) = true -> sk_GetValidatorSet sk = Ok vs ->
  Forall (fun v => 0 <= VotingPower v) (Validators vs) -> ballots_ok s ->
  let n := Z.of_nat (length (Validators vs)) in
  let T := Zsum (map VotingPower (Validators vs)) in
  2 * (n * T) <= MaxInt64 ->
  CalculateProducerSet cfg ctx sk s limit = Ok l -> l !! k = Some c ->
  1 <= n <= MaxInt64 /\ 1 <= T /\
  exists sc, i64 (Z.quot (i64 (i64 (i64 (u64 (u64 (n - u64 (Z.of_nat k + 1)) + 1)) * T) * 2)) 3 + 1) <= sc /\
    sc <= n * support (Z.to_nat n) (Validators vs) (ballots s) c.
Proof.
  intros HZ Hvs HF HB n T HM. unfold CalculateProducerSet. rewrite Hvs, HZ. cbn [mbind outcome_bind].
  fold n. destruct (Z.eqb_spec n 0); [by intros [= <-]|]. assert (0 <= T) by by apply Zsum_nonneg, Forall_map.
  intros E Hk. ok_step E. case_decide; [by injection E as <-|].
  rewrite foldl_power_total in E by (try done; unfold MaxInt64 in *; fold T; nia). rewrite Z.add_0_l in E. fold T in E.
  destruct (Z.eqb_spec T 0); [by injection E as <-|]. injection E as <-.
  apply qualified_lookup in Hk as (sc & Hr & Hreq).
  assert (1 <= n) by (unfold n; lia). assert (n <= MaxInt64) by nia.
  split; [lia|]. split; [lia|]. exists sc. split; [exact Hreq|].
  apply list_elem_of_lookup_2, rank_elem in Hr as <-.
  destruct (sorted_ballots s HB) as (Hp & ND & HN).
  assert (voters_stake (Validators vs) (sort_by fst (map_to_list (ProducerVotes s))) <= T) as Hv
    by by apply voters_stake_le.
  pose proof (credit_ballots_score sk (Validators vs) n _ ∅ a ltac:(lia) HN) as Hs.
  assert (forall c, score (∅ : gmap Z Z) c = 0) as Hz by (intros x; unfold score; by rewrite lookup_empty).
  specialize (Hs ltac:(intros; rewrite Hz; lia) ltac:(intros; rewrite Hz; nia) Ha c).
  rewrite Hz, (support_perm _ _ _ _ _ Hp) in Hs. lia.
Qed.

(** ** Where candidates come from *)

Definition voted (s : BorState) (c : Z) : Prop :=
  exists voter votes, ProducerVotes s !! voter = Some votes /\ c ∈ votes.

Lemma credit_votes_keys total stake i votes scores c :
  is_Some (credit_votes total stake i votes scores !! c) -> is_Some (scores !! c) \/ c ∈ votes.
Proof.
  revert i scores. induction votes as [|x votes IH]; intros i scores; cbn [credit_votes]; [auto|].
  destruct (total <=? i); [auto|]. rewrite elem_of_cons. intros [H|H]%IH; [|auto].
  destruct (decide (c = x)); [auto|]. rewrite lookup_insert_ne in H by done. auto.
Qed.

Lemma credit_ballots_keys (sk : K) zurich m total bs scores scores' c :
  credit_ballots sk zurich m total bs scores = Ok scores' -> is_Some (scores' !! c) ->
  is_Some (scores !! c) \/ exists voter votes, (voter, votes) ∈ bs /\ c ∈ votes.
Proof.
  revert scores. induction bs as [|[voter votes] bs IH]; intros scores E H; cbn [credit_ballots] in E.
  { injection E as ->. auto. }
  ok_step E. destruct (IH _ E H) as [H'|(vt & vs & Hin & Hc)].
  - destruct a; [|auto]. apply credit_votes_keys in H' as [?|?]; [auto|].
    right. exists voter, votes. split; [left|done].
  - right. exists vt, vs. split; [by right|done].
Qed.

Lemma qualified_sub total T limit i ranked c :
  c ∈ qualified total T limit i ranked -> exists sc, (c, sc) ∈ ranked.
Proof.
  intros (k & Hk)%list_elem_of_lookup. apply qualified_lookup in Hk as (sc & Hr & _).
  exists sc. by eapply list_elem_of_lookup_2.
Qed.

Lemma CalculateProducerSet_voted ctx (sk : K) s limit l c :
  CalculateProducerSet cfg ctx sk s limit = Ok l -> c ∈ l -> voted s c.
Proof.
  unfold CalculateProducerSet. intros E Hc. ok_step E.
  destruct (_ =? 0) in E; [injection E as <-; by apply not_elem_of_nil in Hc|].
  ok_step E. case_decide; [injection E as <-; by apply not_elem_of_nil in Hc|].
  destruct (_ =? 0) in E; [injection E as <-; by apply not_elem_of_nil in Hc|].
  injection E as <-. apply qualified_sub in Hc as [sc Hc].
  unfold rank in Hc. rewrite (sort_by_perm _), elem_of_map_to_list in Hc.
  destruct (credit_ballots_keys _ _ _ _ _ _ _ c Ha0 ltac:(eauto)) as [[x Hx]|(voter & votes & Hin & Hcv)].
  - by rewrite lookup_empty in Hx.
  - rewrite (sort_by_perm _), elem_of_map_to_list in Hin. exists voter, votes. done.
Qed.

(** The election never fails on a readable stake store. *)
Lemma CalculateProducerSet_total ctx (sk : K) s limit vs :
  sk_GetValidatorSet sk = Ok vs -> (forall i, sk_GetValidatorFromValID sk i <> Panic) ->
  exists l, CalculateProducerSet cfg ctx sk s limit = Ok l.
Proof.
  intros Hvs Hnp. unfold CalculateProducerSet. rewrite Hvs. cbn [mbind outcome_bind].
  destruct (_ =? 0); [eauto|].
  assert (forall zurich m total bs scores, exists scores', credit_ballots sk zurich m total bs scores = Ok scores') as H.
  { intros zurich m total bs. induction bs as [|[voter votes] bs IH]; intros scores; cbn [credit_ballots]; [eauto|].
    assert (exists st, resolveVoterStake sk voter zurich m = Ok st) as [st ->].
    { unfold resolveVoterStake. destruct zurich; [eauto|]. specialize (Hnp voter).
      destruct (sk_GetValidatorFromValID sk voter); [eauto..|done]. }
    apply IH. }
  match goal with |- context [credit_ballots ?a ?b ?c ?d ?e ?f] => destruct (H b c d e f) as [sc ->] end.
  cbn [mbind outcome_bind]. case_decide; [eauto|]. destruct (_ =? 0); eauto.
Qed.
End election.

(** ** The property *)

(** C21: from the Zurich hard fork on, whoever is elected at position [k] (from 0)
    is named by validators of the active set that hold more than
    [2/3 * (n - k) / n] of its stake: the first one by more than two thirds,
    however the ballots are written and whoever else wrote ballots.  The bound on
    the total stake is what keeps the 64-bit products from wrapping. *)
Theorem elected_producers_have_support {K : Type} {SK : StakeKeeperI K} (cfg : Config) (ctx : Ctx)
    (sk : K) (s : BorState) (limit : Z) (vs : ValidatorSet) (l : list Z) (k : nat) (c : Z) :
  IsZurichHardfork cfg (BlockHeight ctx) = true -> sk_GetValidatorSet sk = Ok vs ->
  Forall (fun v => 0 <= VotingPower v) (Validators vs) -> ballots_ok s ->
  let n := Z.of_nat (length (Validators vs)) in
  let T := Zsum (map VotingPower (Validators vs)) in
  2 * (n * T) <= MaxInt64 ->
  CalculateProducerSet cfg ctx sk s limit = Ok l -> l !! k = Some c ->
  2 * ((n - Z.of_nat k) * T) < 3 * (n * support (Z.to_nat n) (Validators vs) (ballots s) c).
Proof.
  intros HZ Hvs HF HB n T HM E Hk.
  destruct (elected_points cfg ctx sk s limit vs l k c HZ Hvs HF HB HM E Hk) as (Hn & HT & sc & Hreq & Hsc).
  fold n T in Hn, HT, Hreq, Hsc.
  pose proof (support_nonneg (Z.to_nat n) (Validators vs) (ballots s) c).
  destruct (Z.le_gt_cases (Z.of_nat k) n) as [Hkn|Hkn]; [|nia].
  rewrite required_points in Hreq by lia.
  pose proof (Z.mul_succ_div_gt ((n - Z.of_nat k) * T * 2) 3 ltac:(lia)). lia.
Qed.

(** ** Witness *)

Module BorDemo.
Definition member (i : Z) (a : string) (power : Z) : Validator := NewValidator i 0 0 0 power [] a.
Definition demo_validators : list Validator := [member 1 "0xaa" 10; member 2 "0xbb" 20; member 3 "0xcc" 30].
Definition demo_set : ValidatorSet :=
  {| Validators := demo_validators; Proposer := None; TotalVotingPower := 60 |}.
(** A stake store with these validators, at acknowledgement count 5. *)
Definition demo_stake : StakeState * Z :=
  (UpdateValidatorSetInStore (fold_left AddValidator demo_validators
     {| validators := ∅; signer := ∅; sequences := ∅; validatorSet := None; previousSet := None;
        penultimateSet := None; lastBlockTxs := None |}) demo_set, 5).
Definition demo_config : Config :=
  {| rioHeight := 1000; tallyFixHeight := 0; disableVPCheckHeight := 0; disableValSetCheckHeight := 0;
     initialHeight := 1; producerDowntimeHeight := 1; phuketHardforkHeight := 1;
     feeWithdrawValidatorGateHeight := 1; zurichHardforkHeight := 1; ithacaHeight := 1;
     fallbackProducerVotes := [1; 2] |}.
Definition demo_ctx : Ctx := {| BlockHeight := 100; BlockTime := 5000 |}.
Definition first_span : Span :=
  {| span_Id := 0; span_StartBlock := 0; span_EndBlock := 255; span_ValidatorSet := demo_set;
     SelectedProducers := [member 1 "0xaa" 10]; span_BorChainId := "137" |}.
Definition demo_bor : BorState :=
  {| spans := {[0 := first_span]}; latestSpan := Some 0; seedLastProducer := ∅;
     bor_Params := Some DefaultParams;
     ProducerVotes := {[1 := [2; 3]; 2 := [2; 3; 1]; 3 := [3; 2]]}; PerformanceScore := ∅;
     LatestActiveProducer := {[1; 2; 3]}; LatestFailedProducer := ∅; LastSpanBlock := None;
     ProducerPlannedDowntime := ∅ |}.

Example demo_election : CalculateProducerSet demo_config demo_ctx demo_stake demo_bor 4 = Ok [2; 3].
Proof. vm_compute. reflexivity. Qed.

Lemma demo_ballots : ballots_ok demo_bor.
Proof.
  intros voter votes H. cbn in H.
  repeat (apply lookup_insert_Some in H as [[_ <-]|[_ H]]; [apply (bool_decide_unpack _); vm_compute; exact I|]).
  apply lookup_singleton_Some in H as [_ <-]. apply (bool_decide_unpack _). vm_compute. exact I.
Qed.

(** The first of the elected producers: more than two thirds of 60 stand behind it. *)
Lemma elected_producers_have_support_witness :
  2 * (3 * 60) < 3 * (3 * support 3 demo_validators (ballots demo_bor) 2).
Proof.
  apply (elected_producers_have_support demo_config demo_ctx demo_stake demo_bor 4 demo_set [2; 3] 0 2).
  - reflexivity.
  - vm_compute. reflexivity.
  - repeat constructor; discriminate.
  - exact demo_ballots.
  - vm_compute. discriminate.
  - vm_compute. reflexivity.
  - reflexivity.
Defined.
End BorDemo.
