(* ===== verification/BorCorrect.v ===== *)
(** * Correctness of the bor module

    The selection of the next producer, the chain of spans, and planned
    downtime. *)
From S2P Require Import Prelude SortedList Helpers External ValidatorSet StakeKeeper BorTypes Selection.
From S2P Require Import BorKeeper BorHandlers StakeHandlers StakePromise BorVotes.
#[local] Open Scope Z_scope.

(** ** Round-robin selection *)

Abbreviation down s a b p := (IsProducerDownForBlockRange s a b p).

Lemma first_up_some s a b cands start i steps c :
  first_up s a b cands start i steps = Some c ->
  exists k, (i <= k < i + steps)%nat /\ cands !! ((start + k) mod length cands)%nat = Some c /\
    down s a b c = false /\
    forall j p, (i <= j < k)%nat -> cands !! ((start + j) mod length cands)%nat = Some p ->
      down s a b p = true.
Proof.
  revert i. induction steps as [|n IH]; intros i; cbn [first_up]; [done|].
  destruct (cands !! _) as [p|] eqn:E; [|done]. destruct (down s a b p) eqn:Ed.
  - intros (k & Hk & Hc & Hd & Hj)%IH. exists k. split_and!; [lia|lia|done|done|].
    intros j q Hji Hq. destruct (decide (j = i)) as [->|]; [congruence|]. apply (Hj j q); [lia|done].
  - intros [= <-]. exists i. split_and!; [lia|lia|done|done|]. intros j p' Hj. lia.
Qed.

Lemma first_up_none s a b cands start i steps :
  cands <> [] -> first_up s a b cands start i steps = None ->
  forall j p, (i <= j < i + steps)%nat -> cands !! ((start + j) mod length cands)%nat = Some p ->
    down s a b p = true.
Proof.
  intros Hne. revert i. induction steps as [|n IH]; intros i; cbn [first_up]; [intros _ j p Hj; lia|].
  assert (length cands <> 0)%nat by (by destruct cands).
  destruct (lookup_lt_is_Some_2 cands ((start + i) mod length cands)) as [p Hp];
    [by apply Nat.mod_upper_bound|]. rewrite Hp.
  destruct (down s a b p) eqn:Ed; [|done]. intros H' j q Hj Hq.
  destruct (decide (j = i)) as [->|]; [congruence|]. apply (IH (S i) H' j q); [lia|done].
Qed.

(** Every index is visited in one cycle. *)
Lemma cyclic_index n start k : (start < n)%nat -> (k < n)%nat ->
  exists j, (j < n)%nat /\ ((start + j) mod n = k)%nat.
Proof.
  intros Hs Hk. destruct (Nat.le_gt_cases start k).
  - exists (k - start)%nat. split; [lia|]. replace (start + (k - start))%nat with k by lia.
    by apply Nat.mod_small.
  - exists (n - start + k)%nat. split; [lia|]. replace (start + (n - start + k))%nat with (k + 1 * n)%nat by lia.
    rewrite Nat.Div0.mod_add. by apply Nat.mod_small.
Qed.

Lemma index_of_some p l i : index_of p l = Some i -> l !! i = Some p.
Proof.
  revert i. induction l as [|c l IH]; cbn [index_of]; intros i; [done|].
  destruct (Z.eqb_spec c p) as [->|]; [by intros [= <-]|].
  destruct (index_of p l); cbn; [|done]. intros [= <-]. cbn. by apply IH.
Qed.
Lemma index_of_none p l : index_of p l = None -> p ∉ l.
Proof.
  induction l as [|c l IH]; cbn [index_of]; [intros _; apply not_elem_of_nil|].
  destruct (Z.eqb_spec c p) as [->|]; [done|]. destruct (index_of p l); cbn; [done|].
  intros _. rewrite not_elem_of_cons. auto.
Qed.

Lemma select_start_lt cands current : cands <> [] ->
  (match index_of current cands with Some i => (i + 1) mod length cands | None => 0 end < length cands)%nat.
Proof.
  intros Hne. assert (length cands <> 0)%nat by (by destruct cands).
  destruct (index_of current cands); [by apply Nat.mod_upper_bound | lia].
Qed.

Lemma SelectProducer_spec s current cands a b : cands <> [] ->
  exists c, SelectProducer s current cands a b = Ok c /\ c ∈ cands /\
    ((exists p, p ∈ cands /\ down s a b p = false) -> down s a b c = false) /\
    (NoDup cands -> (exists p, p ∈ cands /\ p <> current /\ down s a b p = false) -> c <> current).
Proof.
  intros Hne. pose proof (select_start_lt cands current Hne) as Hst.
  set (start := match index_of current cands with Some i => ((i + 1) mod length cands)%nat | None => 0%nat end) in *.
  assert (SelectProducer s current cands a b =
    match first_up s a b cands start 0 (length cands) with
    | Some c => Ok c | None => Ok (hd 0 cands) end) as ->
    by (unfold SelectProducer; destruct cands; [done|]; done).
  assert (forall p, p ∈ cands -> exists j, (j < length cands)%nat /\
            cands !! ((start + j) mod length cands)%nat = Some p) as Hvis.
  { intros p Hp. apply list_elem_of_lookup in Hp as [k Hk]. pose proof (lookup_lt_Some _ _ _ Hk).
    destruct (cyclic_index (length cands) start k) as (j & Hj & E); [done..|].
    exists j. by rewrite E. }
  destruct (first_up s a b cands start 0 (length cands)) as [c|] eqn:E.
  - apply first_up_some in E as (k & Hk & Hc & Hd & Hj). exists c. split; [done|].
    split; [by eapply list_elem_of_lookup_2|]. split; [done|].
    intros ND (p & Hp & Hpc & Hpd) ->.
    destruct (Hvis p Hp) as (j & Hjl & Ej).
    destruct (Nat.lt_ge_cases j k) as [Hjk|Hjk]; [specialize (Hj j p ltac:(lia) Ej); congruence|].
    (* the current producer is only reached at the last step *)
    unfold start in Hc. destruct (index_of current cands) as [i|] eqn:Ei.
    2: { apply index_of_none in Ei. apply Ei. by eapply list_elem_of_lookup_2. }
    apply index_of_some in Ei. pose proof (lookup_lt_Some _ _ _ Ei) as Hi.
    pose proof (NoDup_lookup _ _ _ _ ND Hc Ei) as Em.
    assert (k = length cands - 1)%nat as ->.
    { destruct (decide (i + 1 = length cands)%nat) as [El|].
      - rewrite El, Nat.Div0.mod_same, Nat.add_0_l, Nat.mod_small in Em by lia. lia.
      - rewrite (Nat.mod_small (i + 1)) in Em by lia.
        destruct (Nat.lt_ge_cases (i + 1 + k) (length cands)) as [Hlt|Hge].
        + rewrite Nat.mod_small in Em by lia. lia.
        + replace (i + 1 + k)%nat with ((i + 1 + k - length cands) + 1 * length cands)%nat in Em by lia.
          rewrite Nat.Div0.mod_add, Nat.mod_small in Em by lia. lia. }
    assert (j = length cands - 1)%nat as -> by lia.
    unfold start in Ej. rewrite Hc in Ej. congruence.
  - pose proof (first_up_none _ _ _ _ _ _ _ Hne E) as Hall.
    assert (forall p, p ∈ cands -> down s a b p = true) as Hd.
    { intros p Hp. destruct (Hvis p Hp) as (j & Hj & Ej). apply (Hall j p); [lia|done]. }
    exists (hd 0 cands). split; [done|]. split; [destruct cands; [done|left]|].
    split; [intros (p & Hp & Hpd)|intros _ (p & Hp & _ & Hpd)]; rewrite Hd in Hpd; done.
Qed.

(** ** The elected set *)

Lemma qualified_spec total stake limit i ranked :
  0 <= i ->
  let l := qualified total stake limit i ranked in
  l `prefix_of` map fst ranked /\ (i <= limit -> Z.of_nat (length l) <= limit - i).
Proof.
  revert i. induction ranked as [|[c score] ranked IH]; intros i Hi; cbn [qualified map].
  { split; [done|cbn; lia]. }
  destruct (Z.leb_spec limit i); [split; [apply prefix_nil|cbn; lia]|].
  destruct (_ <=? score); [|split; [apply prefix_nil|cbn; lia]].
  destruct (IH (i + 1) ltac:(lia)) as [H1 H2]. split; [by apply prefix_cons|].
  intros _. cbn [length]. specialize (H2 ltac:(lia)). lia.
Qed.

Lemma rank_NoDup scores : NoDup (map fst (rank scores)).
Proof.
  unfold rank. assert (map fst (sort_by (fun '(c, sc) => (- sc, c)) (map_to_list scores))
    ≡ₚ map fst (map_to_list scores)) as ->.
  { apply Permutation_map, sort_by_perm. }
  apply NoDup_fst_map_to_list.
Qed.

(** The ranking is strict: by descending score, then ascending id. *)
Lemma rank_ssorted scores : ssorted (fun '(c, sc) => (- sc, c)) (rank scores).
Proof.
  apply sort_by_ssorted.
  assert (forall l : list (Z * Z), NoDup (map fst l) -> NoDup (map (fun '(c, sc) => (- sc, c)) l)) as H.
  { induction l as [|[c sc] l IH]; intros ND; cbn; [constructor|].
    apply NoDup_cons in ND as [Hn ND]. constructor; [|by apply IH].
    intros ([c' sc'] & E & Hin)%list_elem_of_fmap. injection E as _ ->. apply Hn.
    by apply (list_elem_of_fmap_2 fst _ (c', sc')). }
  apply H, NoDup_fst_map_to_list.
Qed.

Lemma prefix_NoDup {A} (l k : list A) : l `prefix_of` k -> NoDup k -> NoDup l.
Proof. intros [r ->] H. by apply NoDup_app in H as [? _]. Qed.

Section election.
Context {K : Type} {SK : StakeKeeperI K} (cfg : Config).

Lemma CalculateProducerSet_spec ctx sk s limit l :
  0 <= limit <= MaxInt64 ->
  CalculateProducerSet cfg ctx sk s limit = Ok l -> NoDup l /\ Z.of_nat (length l) <= limit.
Proof.
  intros Hl H. unfold CalculateProducerSet in H. ok_step H. destruct (_ =? 0) in H.
  { injection H as <-. split; [constructor|cbn; lia]. }
  ok_step H. case_decide.
  { injection H as <-. split; [constructor|cbn; lia]. }
  destruct (_ =? 0) in H.
  { injection H as <-. split; [constructor|cbn; lia]. }
  injection H as <-. rewrite i64_id by (unfold in_i64, MinInt64, MaxInt64 in *; lia).
  match goal with |- context [qualified ?t ?st _ 0 ?r] => destruct (qualified_spec t st limit 0 r) as [H1 H2] end; [lia|].
  split; [|specialize (H2 ltac:(lia)); lia]. eapply prefix_NoDup; [exact H1|]. apply rank_NoDup.
Qed.

Lemma filterExcluded_spec cands ex p : p ∈ filterExcludedProducers cands ex <-> p ∈ cands /\ p ∉ ex.
Proof.
  unfold filterExcludedProducers. case_decide as E.
  - subst. set_solver.
  - rewrite !list_elem_of_In, filter_In, negb_true_iff, bool_decide_eq_false. done.
Qed.

Lemma sortedEligible_spec set current ex p :
  p ∈ sortedEligibleProducers set current ex <-> p ∈ set /\ p <> current /\ p ∉ ex.
Proof.
  unfold sortedEligibleProducers. rewrite (sort_by_perm id).
  rewrite list_elem_of_In, filter_In, andb_true_iff, !negb_true_iff, bool_decide_eq_false, Z.eqb_neq.
  rewrite <- list_elem_of_In, elem_of_elements. done.
Qed.

Lemma narrow_spec cands current active excluded p :
  p ∈ narrow_candidates cands current active excluded -> p ∈ cands /\ p ∉ excluded.
Proof.
  unfold narrow_candidates, FilterByActiveProducerSet.
  destruct (filterExcludedProducers _ _) as [|c l] eqn:E.
  - intros [Hp ?]%filterExcluded_spec. rewrite list_elem_of_In, filter_In in Hp.
    rewrite list_elem_of_In. by destruct Hp.
  - rewrite <- E. intros [Hp ?]%filterExcluded_spec. rewrite list_elem_of_In, filter_In in Hp.
    rewrite list_elem_of_In. by destruct Hp.
Qed.

Lemma eligibleFallback_spec sk current active excluded l :
  eligibleProducerFallback sk current active excluded = Ok l ->
  (forall p, p ∈ l -> p ∉ excluded /\ p <> current) /\
  (l = [] -> forall p, p ∈ active -> p = current \/ p ∈ excluded).
Proof.
  unfold eligibleProducerFallback. pose proof (sortedEligible_spec active current excluded) as Ha.
  destruct (sortedEligibleProducers active current excluded) as [|c l'] eqn:E.
  - assert (forall p, p ∈ active -> p = current \/ p ∈ excluded) as Hact.
    { intros p Hp. destruct (decide (p = current)); [auto|]. destruct (decide (p ∈ excluded)); [auto|].
      destruct (not_elem_of_nil p). by apply Ha. }
    destruct (sk_GetValidatorSet sk) as [vs| |]; intros [= <-]; split; try done.
    + intros p Hp. apply sortedEligible_spec in Hp as (_ & ? & ?). done.
    + intros p Hp. by apply not_elem_of_nil in Hp.
  - intros [= <-]. split; [|done]. intros p Hp. apply Ha in Hp as (_ & ? & ?). done.
Qed.

Lemma SelectNext_spec ctx sk s current active limit a b target excluded fallback p :
  SelectNextSpanProducer cfg ctx sk s current active limit a b target excluded fallback = Ok p ->
  p ∉ excluded.
Proof.
  unfold SelectNextSpanProducer. intros H. ok_step H. ok_step H.
  assert (forall q, q ∈ a1 -> q ∉ excluded) as Hfin.
  { intros q Hq. destruct (narrow_candidates _ _ _ _) as [|c l] eqn:E.
    - destruct (_ && _) in Ha0; [apply eligibleFallback_spec in Ha0 as [H1 _]; by apply H1|].
      injection Ha0 as <-. by apply not_elem_of_nil in Hq.
    - injection Ha0 as <-. rewrite <- E in Hq. by apply narrow_spec in Hq as [_ ?]. }
  destruct (_ && negb _) eqn:Et in H.
  - injection H as <-. bool_hyps. by apply Hfin.
  - destruct a1 as [|c l]; [done|].
    destruct (SelectProducer_spec s current (c :: l) a b) as (q & Eq & Hq & _); [done|].
    rewrite Eq in H. injection H as <-. by apply Hfin.
Qed.

(** After Ithaca, the future-span path finds a producer. *)
Lemma SelectNext_total ctx sk s current active limit a b target excluded cands :
  IsIthaca cfg (BlockHeight ctx) = true ->
  CalculateProducerSet cfg ctx sk s limit = Ok cands ->
  (exists p, p ∈ active /\ p <> current /\ p ∉ excluded) ->
  exists p, SelectNextSpanProducer cfg ctx sk s current active limit a b target excluded true = Ok p.
Proof.
  intros HI Hc (q & Hq1 & Hq2 & Hq3). unfold SelectNextSpanProducer.
  rewrite Hc. cbn [mbind outcome_bind]. rewrite HI. cbn [andb].
  destruct (narrow_candidates _ _ _ _) as [|c l].
  - unfold eligibleProducerFallback. pose proof (sortedEligible_spec active current excluded q) as [_ Hs].
    destruct (sortedEligibleProducers active current excluded) as [|c l].
    { specialize (Hs ltac:(done)). by apply not_elem_of_nil in Hs. }
    cbn [mbind outcome_bind]. destruct (_ && negb _); [eauto|].
    destruct (SelectProducer_spec s current (c :: l) a b) as (p & -> & _); [done|]. eauto.
  - cbn [mbind outcome_bind]. destruct (_ && negb _); [eauto|].
    destruct (SelectProducer_spec s current (c :: l) a b) as (p & -> & _); [done|]. eauto.
Qed.
End election.

(** ** The chain of spans *)

(** Spans 0 to [n] are stored under their ids, [n] being the last one; nothing
    else is. *)
Record span_chain (s : BorState) (n : nat) : Prop := {
  sc_last : latestSpan s = Some (Z.of_nat n);
  sc_dense i : (i <= n)%nat -> exists sp, spans s !! Z.of_nat i = Some sp /\ span_Id sp = Z.of_nat i;
  sc_above i : is_Some (spans s !! i) -> 0 <= i <= Z.of_nat n;
}.

Definition contains (sp : Span) (b : Z) : Prop := span_StartBlock sp <= b <= span_EndBlock sp.

Lemma GetLastSpan_chain s n : span_chain s n ->
  exists sp, GetLastSpan s = Ok sp /\ span_Id sp = Z.of_nat n /\ spans s !! Z.of_nat n = Some sp.
Proof.
  intros H. destruct (sc_dense _ _ H n) as (sp & E & Hid); [lia|]. exists sp.
  unfold GetLastSpan, GetSpan. rewrite (sc_last _ _ H). cbn. by rewrite E.
Qed.

(** The walk from span [i] down finds the newest of them that contains the block. *)
Lemma span_at_newest s n b i : span_chain s n -> (i <= n)%nat ->
  (exists j sp, (j <= i)%nat /\ span_at s b i = Ok sp /\ spans s !! Z.of_nat j = Some sp /\
     contains sp b /\
     forall k sp', (j < k <= i)%nat -> spans s !! Z.of_nat k = Some sp' -> ~ contains sp' b) \/
  (exists e, span_at s b i = Err e) /\
     forall k sp', (k <= i)%nat -> spans s !! Z.of_nat k = Some sp' -> ~ contains sp' b.
Proof.
  intros H. induction i as [|i IH]; intros Hi; cbn [span_at];
    destruct (sc_dense _ _ H _ Hi) as (sp & E & Hid); unfold GetSpan; rewrite E; cbn [of_option mbind outcome_bind];
    destruct (Z.leb_spec (span_StartBlock sp) b); cbn [andb];
    try (destruct (Z.leb_spec b (span_EndBlock sp));
         [left; eexists _, sp; split_and!; [done|done|done|split; lia|intros k sp' Hk; lia]|]).
  1, 2: right; split; [eauto|]; intros k sp' Hk Ek Hc; assert (k = 0%nat) as -> by lia;
    rewrite E in Ek; injection Ek as <-; destruct Hc; lia.
  all: destruct (IH ltac:(lia)) as [(j & sp0 & Hj & E0 & El & Hc & Hn)|[He Hn]]; [left|right].
  all: try (eexists j, sp0; split_and!; [lia|done|done|done|]).
  all: try (split; [done|]).
  all: intros k sp' Hk Ek Hc'; destruct (decide (k = S i)) as [->|];
    [rewrite E in Ek; injection Ek as <-; destruct Hc'; lia | by apply (Hn k sp'); [lia|..]].
Qed.

Lemma span_at_frame s s' b i : (forall k, (k <= i)%nat -> spans s' !! Z.of_nat k = spans s !! Z.of_nat k) ->
  span_at s' b i = span_at s b i.
Proof.
  induction i as [|i IH]; intros H; cbn [span_at]; unfold GetSpan; rewrite H by lia; [done|].
  rewrite IH; [done|]. intros k Hk. apply H. lia.
Qed.

Lemma AddNewSpan_lookup s sp : spans (AddNewSpan s sp) !! span_Id sp = Some sp.
Proof. apply lookup_insert_eq. Qed.

(** What adding a span does: the chain grows by it, and it takes over its blocks
    from the older spans. *)
Lemma AddNewSpan_chain s n sp : span_chain s n -> span_Id sp = Z.of_nat (S n) ->
  span_chain (AddNewSpan s sp) (S n) /\
  (forall b, contains sp b -> SpanByBlockNumber (AddNewSpan s sp) b = Ok sp) /\
  (forall b, ~ contains sp b -> SpanByBlockNumber (AddNewSpan s sp) b = SpanByBlockNumber s b).
Proof.
  intros H Hid.
  assert (forall k, (k <= n)%nat -> spans (AddNewSpan s sp) !! Z.of_nat k = spans s !! Z.of_nat k) as Hframe.
  { intros k Hk. cbn. rewrite lookup_insert_ne; [done|lia]. }
  assert (spans (AddNewSpan s sp) !! Z.of_nat (S n) = Some sp) as Hnew.
  { cbn [AddNewSpan AddNewRawSpan UpdateLastSpan set_spans spans]. rewrite Hid. apply lookup_insert_eq. }
  assert (span_chain (AddNewSpan s sp) (S n)) as Hc.
  { split.
    - cbn. by rewrite Hid.
    - intros i Hi. destruct (decide (i = S n)) as [->|].
      + exists sp. done.
      + rewrite Hframe by lia. apply (sc_dense _ _ H). lia.
    - intros i [x Hx]. cbn in Hx. destruct (decide (span_Id sp = i)) as [<-|]; [lia|].
      rewrite lookup_insert_ne in Hx by done. pose proof (sc_above _ _ H i (mk_is_Some _ _ Hx)). lia. }
  assert (forall b, SpanByBlockNumber (AddNewSpan s sp) b = span_at (AddNewSpan s sp) b (S n)) as Eb.
  { intros b. unfold SpanByBlockNumber. destruct (GetLastSpan_chain _ _ Hc) as (sp' & -> & E & _).
    cbn [mbind outcome_bind]. rewrite E. by rewrite Nat2Z.id. }
  assert (forall b, SpanByBlockNumber s b = span_at s b n) as Eb0.
  { intros b. unfold SpanByBlockNumber. destruct (GetLastSpan_chain _ _ H) as (sp' & -> & E & _).
    cbn [mbind outcome_bind]. rewrite E. by rewrite Nat2Z.id. }
  split; [done|]. split; intros b Hb; rewrite Eb; cbn [span_at]; unfold GetSpan; rewrite Hnew;
    cbn [of_option mbind outcome_bind]; unfold contains in Hb.
  - destruct (Z.leb_spec (span_StartBlock sp) b); [|lia]. destruct (Z.leb_spec b (span_EndBlock sp)); [done|lia].
  - rewrite Eb0, (span_at_frame s); [|done].
    destruct (Z.leb_spec (span_StartBlock sp) b); [|done]. destruct (Z.leb_spec b (span_EndBlock sp)); [lia|done].
Qed.

Lemma FindCurrentProducerID_span s b :
  FindCurrentProducerID s b = (span ← SpanByBlockNumber s b; first_producer span).
Proof. unfold FindCurrentProducerID, SpanByBlockNumber. by destruct (GetLastSpan s). Qed.

Lemma SpanByBlockNumber_ext s s' b : spans s' = spans s -> latestSpan s' = latestSpan s ->
  SpanByBlockNumber s' b = SpanByBlockNumber s b.
Proof.
  intros E1 E2. unfold SpanByBlockNumber, GetLastSpan, GetSpan. rewrite E1, E2.
  destruct (of_option _ (latestSpan s)) as [i| |]; cbn [mbind outcome_bind]; [|done..].
  destruct (of_option _ (spans s !! i)) as [x| |]; cbn [mbind outcome_bind]; [|done..].
  apply span_at_frame. intros. by rewrite E1.
Qed.

Section spans.
Context {K : Type} {SK : StakeKeeperI K} (cfg : Config).

(** What a new elected span changes. *)
Record adds_span (s s' : BorState) (n : nat) (a b : Z) (v : Validator) : Prop := {
  as_chain : span_chain s' (S n);
  as_inside x : a <= x <= b -> FindCurrentProducerID s' x = Ok (ValId v);
  as_outside x : ~ (a <= x <= b) -> SpanByBlockNumber s' x = SpanByBlockNumber s x;
}.

Lemma AddNewVeBlopSpan_adds ctx sk s n current a b chain active hb target excluded fallback s' :
  span_chain s n -> Z.of_nat n < MaxUint64 ->
  AddNewVeBlopSpan cfg ctx sk s current a b chain active hb target excluded fallback = Ok s' ->
  exists p v, SelectNextSpanProducer cfg ctx sk s current active
      (GetProducerSetLimit cfg (BlockHeight ctx)) a b target excluded fallback = Ok p /\
    sk_GetValidatorFromValID sk p = Ok v /\ adds_span s s' n a b v /\
    GetLastSpanBlock s' = hb /\ ProducerVotes s' = ProducerVotes s /\
    ProducerPlannedDowntime s' = ProducerPlannedDowntime s.
Proof.
  intros H Hn. unfold AddNewVeBlopSpan. intros E. ok_step E. ok_step E. ok_step E. ok_step E.
  destruct (GetLastSpan_chain _ _ H) as (last & El & Hid & _). rewrite El in Ha2. injection Ha2 as <-.
  injection E as <-. exists a0, a2. rewrite Hid. rewrite u64_id by (unfold in_u64; lia).
  match goal with |- context [AddNewSpan s ?sp] => set (new := sp) end.
  destruct (AddNewSpan_chain s n new H) as (Hc & Hin & Hout); [cbn; lia|].
  split_and!; [done|done| |done|done|done].
  split; [by destruct Hc | |].
  - intros x Hx. rewrite FindCurrentProducerID_span.
    rewrite (SpanByBlockNumber_ext (AddNewSpan s new)) by done. by rewrite Hin.
  - intros x Hx. rewrite (SpanByBlockNumber_ext (AddNewSpan s new)) by done. by apply Hout.
Qed.

(** A span for which the current producer was taken out of the active set is
    not given to it, unless the recovery of Ithaca is on. *)
Lemma SelectNext_not_current ctx sk s current active limit a b target excluded p :
  current ∉ active ->
  SelectNextSpanProducer cfg ctx sk s current active limit a b target excluded false = Ok p ->
  p <> current.
Proof.
  intros Hna. unfold SelectNextSpanProducer. intros H. ok_step H. ok_step H. cbn [andb] in Ha0.
  assert (a1 = narrow_candidates (base_candidates cfg a0 limit) current active excluded) as ->
    by (destruct (narrow_candidates _ _ _ _); by injection Ha0 as <-).
  assert (forall q, q ∈ narrow_candidates (base_candidates cfg a0 limit) current active excluded -> q <> current) as Hq.
  { intros q. unfold narrow_candidates, FilterByActiveProducerSet.
    destruct (filterExcludedProducers _ _) as [|c l] eqn:E.
    - intros [Hp _]%filterExcluded_spec. rewrite list_elem_of_In, filter_In in Hp.
      destruct Hp as [_ Hp]. by bool_hyps.
    - rewrite <- E. intros [Hp _]%filterExcluded_spec. rewrite list_elem_of_In, filter_In in Hp.
      destruct Hp as [_ Hp]. bool_hyps. congruence. }
  destruct (_ && negb _) eqn:Et in H.
  - injection H as <-. bool_hyps. done.
  - destruct (narrow_candidates _ _ _ _) as [|c l] eqn:En; [done|].
    destruct (SelectProducer_spec s current (c :: l) a b) as (q & Eq & Hin & _); [done|].
    rewrite Eq in H. injection H as <-. by apply Hq.
Qed.

Lemma length_filter_le {A} (f : A -> bool) l : (length (List.filter f l) <= length l)%nat.
Proof. apply List.filter_length_le. Qed.

Lemma filter_length_all {A} (f : A -> bool) l :
  length (List.filter f l) <> length l -> exists x, x ∈ l /\ f x = false.
Proof.
  induction l as [|x l IH]; cbn; [done|]. destruct (f x) eqn:E; cbn.
  - intros H. destruct IH as (y & Hy & Ey); [lia|]. exists y. split; [by right|done].
  - intros _. exists x. split; [left|done].
Qed.

Lemma filter_all {A} (f : A -> bool) l :
  (forall x, x ∈ l -> f x = true) -> List.filter f l = l.
Proof.
  induction l as [|x l IH]; intros H; cbn; [done|]. rewrite H by left. f_equal. apply IH.
  intros y Hy. apply H. by right.
Qed.

Lemma filter_remove_length (l : list Z) p : NoDup l -> p ∈ l ->
  length (List.filter (fun q => negb (q =? p)) l) = (length l - 1)%nat.
Proof.
  induction 1 as [|x l Hx ND IH]; intros Hp; [by apply not_elem_of_nil in Hp|]. cbn.
  destruct (Z.eqb_spec x p) as [->|Hne]; cbn.
  - rewrite filter_all; [lia|]. intros y Hy. apply negb_true_iff, Z.eqb_neq. by intros ->.
  - apply elem_of_cons in Hp as [->|Hp]; [done|]. rewrite IH by done.
    destruct l; [by apply not_elem_of_nil in Hp|cbn; lia].
Qed.

(** The check of the post-handler for planned downtime leaves a producer up. *)
Lemma other_producer_up s (producers : list Z) vid a b :
  NoDup producers -> vid ∈ producers -> (length producers <> 1)%nat ->
  let others := List.filter (fun p => negb (p =? vid)) producers in
  let recorded := List.filter (fun p => bool_decide (is_Some (ProducerPlannedDowntime s !! p))) others in
  let overlapping := List.filter (fun p => IsProducerDownForBlockRange s a b p) recorded in
  let n := (length producers - 1)%nat in
  (0 <? n)%nat && (length recorded =? n)%nat && (length overlapping =? n)%nat = false ->
  exists p, p ∈ producers /\ p <> vid /\ IsProducerDownForBlockRange s a b p = false.
Proof.
  intros ND Hin Hlen others recorded overlapping n H.
  assert (length others = n) as Ho by by apply filter_remove_length.
  assert (0 < length producers)%nat by (destruct producers; [by apply not_elem_of_nil in Hin|cbn; lia]).
  assert (forall p, p ∈ others -> p ∈ producers /\ p <> vid) as Hoth.
  { intros p. unfold others. rewrite list_elem_of_In, filter_In, <- list_elem_of_In.
    intros [? ?]. by bool_hyps. }
  rewrite !andb_false_iff, Nat.ltb_ge, !Nat.eqb_neq in H.
  assert (exists p, p ∈ others /\ IsProducerDownForBlockRange s a b p = false) as (p & Hp & Hd).
  { destruct (decide (length recorded = length others)) as [E|E].
    - destruct (filter_length_all (fun p => IsProducerDownForBlockRange s a b p) recorded)
        as (p & Hp & Hd); [fold overlapping; lia|].
      exists p. split; [|done]. unfold recorded in Hp. rewrite list_elem_of_In, filter_In in Hp.
      rewrite list_elem_of_In. by destruct Hp.
    - apply filter_length_all in E as (p & Hp & Hd). exists p. split; [done|].
      unfold IsProducerDownForBlockRange. apply bool_decide_eq_false in Hd.
      destruct (ProducerPlannedDowntime s !! p); [destruct Hd; eauto|done]. }
  exists p. destruct (Hoth p Hp). done.
Qed.

(** ** Who can become a producer *)

Definition eligible (sk : K) (s : BorState) (active : gset Z) (p : Z) : Prop :=
  voted s p \/ p ∈ fallbackProducerVotes cfg \/ p ∈ active \/
  exists vs v, sk_GetValidatorSet sk = Ok vs /\ v ∈ Validators vs /\ ValId v = p.

Lemma base_candidates_sub cands limit p :
  p ∈ base_candidates cfg cands limit -> p ∈ cands \/ p ∈ fallbackProducerVotes cfg.
Proof.
  unfold base_candidates. destruct cands; [|auto]. destruct (_ && _); [|auto].
  rewrite elem_of_take. intros (i & H & _). right. by eapply list_elem_of_lookup_2.
Qed.

Lemma eligibleFallback_sub (sk : K) current active excluded l p :
  eligibleProducerFallback sk current active excluded = Ok l -> p ∈ l ->
  p ∈ active \/ exists vs v, sk_GetValidatorSet sk = Ok vs /\ v ∈ Validators vs /\ ValId v = p.
Proof.
  unfold eligibleProducerFallback.
  destruct (sortedEligibleProducers active current excluded) as [|c l'] eqn:E.
  - destruct (sk_GetValidatorSet sk) as [vs| |] eqn:Evs; intros [= <-] Hp; [|by apply not_elem_of_nil in Hp].
    apply sortedEligible_spec in Hp as (Hp & _). apply elem_of_list_to_set in Hp.
    change (map ValId (Validators vs)) with (ValId <$> Validators vs) in Hp.
    apply list_elem_of_fmap in Hp as (v & -> & Hv). eauto 6.
  - intros [= <-] Hp. rewrite <- E in Hp. apply sortedEligible_spec in Hp as (Hp & _). auto.
Qed.

Lemma SelectNext_eligible ctx (sk : K) s current active limit a b target excluded fallback p :
  SelectNextSpanProducer cfg ctx sk s current active limit a b target excluded fallback = Ok p ->
  eligible sk s active p.
Proof.
  unfold SelectNextSpanProducer. intros H. ok_step H. ok_step H.
  assert (forall q, q ∈ a1 -> eligible sk s active q) as Hq.
  { intros q Hq. destruct (narrow_candidates _ _ _ _) as [|c l] eqn:E.
    - destruct (_ && _) in Ha0; [|injection Ha0 as <-; by apply not_elem_of_nil in Hq].
      destruct (eligibleFallback_sub _ _ _ _ _ _ Ha0 Hq); unfold eligible; auto.
    - injection Ha0 as <-. rewrite <- E in Hq. apply narrow_spec in Hq as [Hq _].
      apply base_candidates_sub in Hq as [Hq|Hq]; [|unfold eligible; auto].
      left. by eapply CalculateProducerSet_voted. }
  destruct (_ && negb _) eqn:Et in H.
  - injection H as <-. bool_hyps. by apply Hq.
  - destruct a1 as [|c l]; [done|].
    destruct (SelectProducer_spec s current (c :: l) a b) as (q & Eq & Hin & _); [done|].
    rewrite Eq in H. injection H as <-. by apply Hq.
Qed.

(** The future-span path of the pre-blocker creates a span. *)
Lemma AddNewVeBlopSpan_total ctx (sk : K) {SP : StakePromise sk} s n current a b chain active hb target excluded :
  span_chain s n -> IsIthaca cfg (BlockHeight ctx) = true ->
  (exists p, p ∈ active /\ p <> current /\ p ∉ excluded) ->
  (forall p, voted s p \/ p ∈ fallbackProducerVotes cfg \/ p ∈ active -> is_ok (sk_GetValidatorFromValID sk p) = true) ->
  exists s', AddNewVeBlopSpan cfg ctx sk s current a b chain active hb target excluded true = Ok s'.
Proof.
  intros Hc HI Hp Hres. destruct (promise_set (sk := sk)) as (vs & Hvs & Hmem).
  destruct (CalculateProducerSet_total cfg ctx sk s (GetProducerSetLimit cfg (BlockHeight ctx)) vs Hvs promise_no_panic)
    as [cands Ec].
  destruct (SelectNext_total cfg ctx sk s current active _ a b target excluded cands HI Ec Hp) as [p Ep].
  unfold AddNewVeBlopSpan. rewrite Ep, Hvs. cbn [mbind outcome_bind].
  assert (is_ok (sk_GetValidatorFromValID sk p) = true) as Hok.
  { destruct (SelectNext_eligible _ _ _ _ _ _ _ _ _ _ _ _ Ep) as [|[|[|(vs' & v & E & Hv & <-)]]]; [auto..|].
    rewrite Hvs in E. injection E as <-. by apply Hmem. }
  destruct (sk_GetValidatorFromValID sk p) as [v| |]; [|done..]. cbn [mbind outcome_bind].
  destruct (GetLastSpan_chain _ _ Hc) as (last & -> & _). cbn. eauto.
Qed.
End spans.

(** ** Handlers *)

Lemma has_duplicate_NoDup seen votes : has_duplicate seen votes = false ->
  NoDup votes /\ forall v, v ∈ votes -> v ∉ seen.
Proof.
  revert seen. induction votes as [|x votes IH]; intros seen; cbn [has_duplicate].
  { split; [constructor|]. intros v Hv. by apply not_elem_of_nil in Hv. }
  intros [Hx H]%orb_false_iff. apply bool_decide_eq_false in Hx. destruct (IH _ H) as [ND Hs]. split.
  - constructor; [|done]. intros Hin. apply (Hs x Hin). left.
  - intros v [->|Hv]%elem_of_cons; [done|]. specialize (Hs v Hv). rewrite not_elem_of_cons in Hs. tauto.
Qed.

Lemma GetProducerSetLimit_range cfg h : 0 <= GetProducerSetLimit cfg h <= MaxInt64.
Proof. unfold GetProducerSetLimit, MaxInt64. destruct (_ <=? h); lia. Qed.

Section handlers.
Context {K : Type} {SK : StakeKeeperI K} {AC : AddressCodec} {SA : SdkAddress} {EA : EthAddress}.
Context {BC : BorChain} {RSrc : RandSource} (cfg : Config).

Lemma span_chain_ext s s' n : spans s' = spans s -> latestSpan s' = latestSpan s ->
  span_chain s n -> span_chain s' n.
Proof. intros E1 E2 []. split; rewrite ?E1, ?E2; done. Qed.

(** The walk back from the last span meets a span that overlaps the downtime before one that
    ends ahead of it. *)
Definition touches (msg : MsgSetProducerDowntime) (sp : Span) : Prop :=
  span_StartBlock sp <= pd_EndBlock msg /\ pd_StartBlock msg <= span_EndBlock sp.
Definition reached (s : BorState) (msg : MsgSetProducerDowntime) (n : nat) : Prop :=
  exists j sp, (j <= n)%nat /\ spans s !! Z.of_nat j = Some sp /\ touches msg sp /\
    forall i sp', (j < i <= n)%nat -> spans s !! Z.of_nat i = Some sp' -> pd_StartBlock msg <= span_EndBlock sp'.

Lemma overlapping_span_spec s n msg vid : span_chain s n -> Z.of_nat n < MaxUint64 ->
  ProducerPlannedDowntime s !! vid = Some (pd_StartBlock msg, pd_EndBlock msg) ->
  forall k sp, (k <= n)%nat -> spans s !! Z.of_nat k = Some sp ->
    overlapping_span s vid (pd_StartBlock msg) sp k = true <-> reached s msg k.
Proof.
  intros Hc Hn Hd. assert (forall sp, IsProducerDownForBlockRange s (span_StartBlock sp) (span_EndBlock sp) vid = true <-> touches msg sp) as Ht.
  { intros sp. unfold IsProducerDownForBlockRange, touches. rewrite Hd. rewrite andb_true_iff, !Z.leb_le. done. }
  assert (forall k sp, (k <= n)%nat -> spans s !! Z.of_nat k = Some sp -> span_Id sp = Z.of_nat k) as Hid.
  { intros k sp Hk Hs. destruct (sc_dense _ _ Hc k Hk) as (sp' & E & Eid). congruence. }
  induction k as [|k IH]; intros sp Hk Hs; cbn [overlapping_span];
    destruct (IsProducerDownForBlockRange s (span_StartBlock sp) (span_EndBlock sp) vid) eqn:Ed.
  - split; [|done]. intros _. exists 0%nat, sp. split_and!; [lia|done|by apply Ht|lia].
  - rewrite (Hid _ _ Hk Hs). cbn. split; [done|]. intros (j & sp' & Hj & Hj' & Htj & _). assert (j = 0%nat) as -> by lia.
    assert (sp' = sp) as -> by congruence. apply Ht in Htj. congruence.
  - split; [|done]. intros _. exists (S k), sp. split_and!; [lia|done|by apply Ht|lia].
  - assert (~ touches msg sp) as Hnt by (intros H%Ht; congruence). rewrite (Hid _ _ Hk Hs).
    destruct (Z.eqb_spec (Z.of_nat (S k)) 0); [lia|]. cbn [orb]. destruct (Z.ltb_spec (span_EndBlock sp) (pd_StartBlock msg)) as [Hlt|Hge].
    + split; [done|]. intros (j & sp' & Hj & Hj' & Htj & Hall). destruct (decide (j = S k)) as [->|].
      * assert (sp' = sp) as -> by congruence. done.
      * specialize (Hall (S k) sp ltac:(lia) Hs). lia.
    + rewrite u64_id by (unfold in_u64, MaxUint64 in *; lia). replace (Z.of_nat (S k) - 1) with (Z.of_nat k) by lia.
      destruct (sc_dense _ _ Hc k ltac:(lia)) as (prev & Ep & _). unfold GetSpan. rewrite Ep. cbn [of_option].
      rewrite (IH prev ltac:(lia) Ep). split.
      * intros (j & sp' & Hj & Hj' & Htj & Hall). exists j, sp'. split_and!; [lia|done|done|]. intros i sp'' Hi Ei.
        destruct (decide (i = S k)) as [->|]; [|apply (Hall i); [lia|done]]. assert (sp'' = sp) as -> by congruence. done.
      * intros (j & sp' & Hj & Hj' & Htj & Hall). destruct (decide (j = S k)) as [->|].
        { assert (sp' = sp) as -> by congruence. done. }
        exists j, sp'. split_and!; [lia|done|done|]. intros i sp'' Hi Ei. apply (Hall i); [lia|done].
Qed.

(** The end of the span that replaces the blocks of a downtime. *)
Definition handover_end (cfg : Config) (ctx : Ctx) (params : BorParams) (start : Z) : Z :=
  if zurichHardforkHeight cfg <=? BlockHeight ctx then u64 (u64 (start + SpanDuration params) - 1) else u64 (start + SpanDuration params).

Lemma downtime_ok ctx (sk : K) {SP : StakePromise sk} s n msg s' :
  span_chain s n -> Z.of_nat n < MaxUint64 ->
  PostHandleSetProducerDowntime cfg ctx sk s msg VOTE_YES = Ok s' ->
  exists vid producers params, sk_GetValIdFromAddress sk (pd_Producer msg) = Ok vid /\ FetchParams s = Ok params /\
    CalculateProducerSet cfg ctx sk s (GetProducerSetLimit cfg (BlockHeight ctx)) = Ok producers /\ vid ∈ producers /\
    (exists p, p ∈ producers /\ p <> vid /\ down s (pd_StartBlock msg) (pd_EndBlock msg) p = false) /\
    ProducerPlannedDowntime s' = <[vid := (pd_StartBlock msg, pd_EndBlock msg)]> (ProducerPlannedDowntime s) /\
    (~ reached s msg n /\ spans s' = spans s /\ latestSpan s' = latestSpan s \/
     reached s msg n /\ exists v, adds_span s s' n (pd_StartBlock msg) (handover_end cfg ctx params (pd_StartBlock msg)) v /\ ValId v <> vid).
Proof.
  intros Hc Hn H. unfold PostHandleSetProducerDowntime in H. ok_step H. ok_step H. ok_step H.
  ok_step H. ok_step H. ok_step H. ok_step H. ok_step H. bool_hyps. apply Nat.eqb_neq in Hg1.
  destruct (CalculateProducerSet_spec cfg ctx sk s _ _ (GetProducerSetLimit_range cfg _) Ha0) as [ND _].
  exists a, a0, a1. split; [done|]. split; [done|]. split; [done|].
  split; [done|]. split; [by eapply other_producer_up|].
  set (s1 := set_span_block s (LastSpanBlock s) _) in *.
  assert (span_chain s1 n) as Hc1 by (by eapply span_chain_ext; [..|exact Hc]).
  assert (overlapping_span s1 a (pd_StartBlock msg) a2 (Z.to_nat (span_Id a2)) = true <-> reached s msg n) as Hov.
  { destruct (GetLastSpan_chain _ _ Hc1) as (last & El & Eid & Es). assert (a2 = last) as -> by congruence. rewrite Eid, Nat2Z.id.
    rewrite (overlapping_span_spec s1 n msg a Hc1 Hn) by (done || (cbn; apply lookup_insert_eq)). done. }
  ok_step H.
  { injection H as <-. split; [done|]. left. split; [|done]. intros Hr. apply Hov in Hr. match goal with Hx : negb _ = true |- _ => by rewrite Hr in Hx end. }
  match goal with Hx : negb _ = false |- _ => apply negb_false_iff, Hov in Hx; rename Hx into Hr end.
  apply (AddNewVeBlopSpan_adds cfg ctx sk s1 n) in H as (p & v & Es & Ev & Hadd & _ & _ & Ed); [|done..].
  split; [by rewrite Ed|]. right. split; [done|]. apply promise_id in Ev as Ep. subst p. exists v.
  split; [|eapply (SelectNext_not_current cfg); [|exact Es]; set_solver].
  destruct Hadd as [A B C]. split; [exact A|exact B|].
  intros x Hout. rewrite (C x Hout). by apply SpanByBlockNumber_ext.
Qed.
(** What a yes vote on a span proposal has checked. *)
Record span_checked (s : BorState) (msg : MsgProposeSpan) (last : Span) (params : BorParams) : Prop := {
  sk_last : GetLastSpan s = Ok last;
  sk_params : FetchParams s = Ok params;
  sk_id : ps_SpanId msg = u64 (span_Id last + 1);
  sk_start : ps_StartBlock msg = u64 (span_EndBlock last + 1);
  sk_end : ps_StartBlock msg < ps_EndBlock msg;
  sk_length : SpanDuration params = u64 (u64 (ps_EndBlock msg - ps_StartBlock msg) + 1);
  sk_future : exists b, GetBorChainBlock None = Some b /\ u64 (Number b) < ps_StartBlock msg;
}.

Lemma side_span_yes fuel params milestone s msg :
  SideHandleMsgSpan cfg fuel params milestone s msg = Ok VOTE_YES ->
  IsRio cfg (ps_StartBlock msg) = false /\ exists last p, span_checked s msg last p.
Proof.
  unfold SideHandleMsgSpan. intros H. yes_inv H.
  assert (exists e, (childBlock <-some GetBorChainBlock None ;;
      lastSpan <-no GetLastSpan s ;;
      vote_no_if negb (u64 (span_Id lastSpan + 1) =? ps_SpanId msg)
                 || negb (ps_StartBlock msg =? u64 (span_EndBlock lastSpan + 1))
                 || (ps_EndBlock msg <=? ps_StartBlock msg) ;;
      let currentBlock := u64 (Number childBlock) in
      let maxBlockNumber := Z.max e currentBlock in
      vote_no_if IsBlockCloseToSpanEnd maxBlockNumber (span_EndBlock lastSpan) ;;
      vote_no_if ps_StartBlock msg <=? maxBlockNumber ;;
      vote_no_if (currentBlock <? span_StartBlock lastSpan) || (span_EndBlock lastSpan <? currentBlock) ;;
      Ok VOTE_YES) = Ok VOTE_YES) as [e He]
    by (destruct milestone as [[e|]| |]; [eexists; exact H|done|eexists; exact H|done]).
  clear H. yes_step He. yes_step He. yes_step He. cbn zeta in He. yes_inv He. bool_hyps.
  split; [done|]. exists a3, a. split; try done; try lia. exists a2. split; [done|lia].
Qed.

Lemma approved_span fuel fuel' params milestone (sk : K) s n msg s' :
  span_chain s n -> Z.of_nat n < MaxUint64 ->
  SideHandleMsgSpan cfg fuel params milestone s msg = Ok VOTE_YES ->
  PostHandleMsgSpan cfg fuel' sk s msg VOTE_YES = Ok s' ->
  exists last p sp, span_checked s msg last p /\ span_chain s' (S n) /\ GetLastSpan s' = Ok sp /\
    span_StartBlock sp = ps_StartBlock msg /\ span_EndBlock sp = ps_EndBlock msg /\
    (forall b, contains sp b -> SpanByBlockNumber s' b = Ok sp) /\
    (forall b, ~ contains sp b -> SpanByBlockNumber s' b = SpanByBlockNumber s b) /\
    GetSeedProducer s' (ps_SpanId msg) = Some (HexToAddress (ps_SeedAuthor msg)) /\
    forall f v, is_ok (PostHandleMsgSpan cfg f sk s' msg v) = false.
Proof.
  intros Hc Hn Hs Hp. apply side_span_yes in Hs as (Hrio & last & p & Hck).
  destruct (GetLastSpan_chain _ _ Hc) as (sp0 & El & Hid & _).
  assert (last = sp0) as -> by (destruct Hck; congruence).
  assert (ps_SpanId msg = Z.of_nat (S n)) as Hmid.
  { rewrite (sk_id _ _ _ _ Hck), Hid, u64_id by (unfold in_u64; lia). lia. }
  unfold PostHandleMsgSpan in Hp. rewrite Hrio in Hp. ok_step Hp. ok_step Hp. ok_step Hp. ok_step Hp.
  unfold StoreSeedProducer in Ha. ok_step Ha. injection Ha as <-.
  unfold FreezeSet in Hp. ok_step Hp. ok_step Hp. ok_step Hp. injection Hp as <-.
  match goal with |- context [AddNewSpan ?st ?sp] => set (s1 := st); set (new := sp) end.
  destruct (AddNewSpan_chain s1 n new) as (Hc' & Hin & Hout); [by eapply span_chain_ext; [..|exact Hc]|cbn; lia|].
  assert (HasSpan (AddNewSpan s1 new) (ps_SpanId msg) = true) as Hhas.
  { apply bool_decide_eq_true. exists new. apply (AddNewSpan_lookup s1 new). }
  exists sp0, p, new. split_and!; try done.
  - unfold GetLastSpan, GetSpan. cbn [latestSpan AddNewSpan UpdateLastSpan set_spans of_option mbind outcome_bind].
    by rewrite (AddNewSpan_lookup s1 new).
  - intros b Hb. rewrite (Hout b Hb). by apply SpanByBlockNumber_ext.
  - apply lookup_insert_eq.
  - intros f v. unfold PostHandleMsgSpan. rewrite Hrio, Hhas. by destruct v.
Qed.
End handlers.

(** ** The properties *)

(** C15: after Ithaca the future-span path never halts the chain for want of a
    producer: as long as somebody active is neither the current producer nor
    excluded, and ballots, configuration and activity name known validators, the
    span is created, whatever the ballots elect and whoever is down; it extends
    the chain, takes over its blocks and goes to somebody not excluded. *)
Theorem future_span_always_found {K : Type} {SK : StakeKeeperI K} (cfg : Config) (ctx : Ctx) (sk : K)
    {SP : StakePromise sk} (s : BorState) (n : nat) (current a b : Z) (chain : string)
    (active : gset Z) (hb target : Z) (excluded : gset Z) :
  span_chain s n -> Z.of_nat n < MaxUint64 -> IsIthaca cfg (BlockHeight ctx) = true ->
  (exists p, p ∈ active /\ p <> current /\ p ∉ excluded) ->
  (forall p, voted s p \/ p ∈ fallbackProducerVotes cfg \/ p ∈ active ->
     is_ok (sk_GetValidatorFromValID sk p) = true) ->
  exists s' v, AddNewVeBlopSpan cfg ctx sk s current a b chain active hb target excluded true = Ok s' /\
    adds_span s s' n a b v /\ ValId v ∉ excluded.
Proof.
  intros Hc Hn HI Hp Hres.
  destruct (AddNewVeBlopSpan_total cfg ctx sk s n current a b chain active hb target excluded Hc HI Hp Hres) as [s' E].
  destruct (AddNewVeBlopSpan_adds cfg ctx sk s n _ _ _ _ _ _ _ _ _ _ Hc Hn E) as (p & v & Es & Ev & Ha & _).
  exists s', v. split; [done|]. split; [done|].
  apply promise_id in Ev. subst p. by apply SelectNext_spec in Es.
Qed.

(** C16: planned downtime is only recorded for an elected producer, when another elected
    producer stays up over its range; every other record is kept.  The spans change exactly
    when the walk back from the last span meets one that overlaps the downtime before one
    that ends ahead of it: then one span is added that starts with the downtime and has the
    length of the parameters, it takes over its blocks and no others, and its producer is
    somebody else; otherwise no span changes. *)
Theorem planned_downtime_hands_over {K : Type} {SK : StakeKeeperI K} (cfg : Config) (ctx : Ctx) (sk : K)
    {SP : StakePromise sk} (s s' : BorState) (n : nat) (msg : MsgSetProducerDowntime) :
  span_chain s n -> Z.of_nat n < MaxUint64 ->
  PostHandleSetProducerDowntime cfg ctx sk s msg VOTE_YES = Ok s' ->
  exists vid producers params, sk_GetValIdFromAddress sk (pd_Producer msg) = Ok vid /\ FetchParams s = Ok params /\
    CalculateProducerSet cfg ctx sk s (GetProducerSetLimit cfg (BlockHeight ctx)) = Ok producers /\ vid ∈ producers /\
    (exists p, p ∈ producers /\ p <> vid /\
       IsProducerDownForBlockRange s (pd_StartBlock msg) (pd_EndBlock msg) p = false) /\
    ProducerPlannedDowntime s' = <[vid := (pd_StartBlock msg, pd_EndBlock msg)]> (ProducerPlannedDowntime s) /\
    (~ reached s msg n /\ spans s' = spans s /\ latestSpan s' = latestSpan s \/
     reached s msg n /\ exists v, adds_span s s' n (pd_StartBlock msg) (handover_end cfg ctx params (pd_StartBlock msg)) v /\ ValId v <> vid).
Proof. by apply downtime_ok. Qed.

(** C12: a span proposal that gets a yes vote and is applied on the same state
    extends the chain by exactly one span: the next id, starting right after the
    last span (as unsigned numbers), of the span length in the parameters,
    ahead of the block of the Bor chain; it takes over its blocks and no others,
    its seed author is recorded, and applying the proposal again is refused. *)
Theorem approved_span_extends_chain {K : Type} {SK : StakeKeeperI K} {EA : EthAddress} {BC : BorChain}
    {RSrc : RandSource} (cfg : Config) (fuel fuel' : nat) (params : option ChainManagerParams)
    (milestone : LastMilestoneEnd) (sk : K) (s : BorState) (n : nat) (msg : MsgProposeSpan) (s' : BorState) :
  span_chain s n -> Z.of_nat n < MaxUint64 ->
  SideHandleMsgSpan cfg fuel params milestone s msg = Ok VOTE_YES ->
  PostHandleMsgSpan cfg fuel' sk s msg VOTE_YES = Ok s' ->
  exists last p sp, span_checked s msg last p /\ span_chain s' (S n) /\ GetLastSpan s' = Ok sp /\
    span_StartBlock sp = ps_StartBlock msg /\ span_EndBlock sp = ps_EndBlock msg /\
    (forall b, contains sp b -> SpanByBlockNumber s' b = Ok sp) /\
    (forall b, ~ contains sp b -> SpanByBlockNumber s' b = SpanByBlockNumber s b) /\
    GetSeedProducer s' (ps_SpanId msg) = Some (HexToAddress (ps_SeedAuthor msg)) /\
    forall f v, is_ok (PostHandleMsgSpan cfg f sk s' msg v) = false.
Proof. apply approved_span. Qed.

(** The lookup of the span of a block answers the newest span that contains
    the block (a later span overrides an earlier one), and fails only when no
    span contains it; it never panics. *)
Theorem SpanByBlockNumber_newest (s : BorState) (n : nat) (b : Z) :
  span_chain s n ->
  (exists j sp, (j <= n)%nat /\ SpanByBlockNumber s b = Ok sp /\ spans s !! Z.of_nat j = Some sp /\
     contains sp b /\ forall i sp', spans s !! i = Some sp' -> Z.of_nat j < i -> ~ contains sp' b) \/
  ((exists e, SpanByBlockNumber s b = Err e) /\
     forall i sp', spans s !! i = Some sp' -> ~ contains sp' b).
Proof.
  intros H. unfold SpanByBlockNumber. destruct (GetLastSpan_chain _ _ H) as (sp0 & -> & E & _).
  cbn [mbind outcome_bind]. rewrite E, Nat2Z.id.
  assert (forall i sp', spans s !! i = Some sp' -> exists k, (k <= n)%nat /\ i = Z.of_nat k) as Hk.
  { intros i sp' Hi. pose proof (sc_above _ _ H i (mk_is_Some _ _ Hi)). exists (Z.to_nat i). lia. }
  destruct (span_at_newest s n b n H ltac:(lia)) as [(j & sp & Hj & E' & El & Hc & Hn)|[He Hn]]; [left|right].
  - exists j, sp. split_and!; try done. intros i sp' Hi Hlt. destruct (Hk i sp' Hi) as (k & ? & ->).
    apply (Hn k sp'); [lia|done].
  - split; [done|]. intros i sp' Hi. destruct (Hk i sp' Hi) as (k & ? & ->). by apply (Hn k sp').
Qed.

(** Round-robin selection among any candidates: it always answers one of
    them, one that is up when any is up, and another one than the current
    producer when some other is up. *)
Theorem SelectProducer_round_robin (s : BorState) (current a b : Z) (cands : list Z) :
  cands <> [] ->
  exists c, SelectProducer s current cands a b = Ok c /\ c ∈ cands /\
    ((exists p, p ∈ cands /\ IsProducerDownForBlockRange s a b p = false) ->
       IsProducerDownForBlockRange s a b c = false) /\
    (NoDup cands -> (exists p, p ∈ cands /\ p <> current /\ IsProducerDownForBlockRange s a b p = false) ->
       c <> current).
Proof. apply SelectProducer_spec. Qed.

(** A vote for producers replaces the ballot of the voter and nothing else;
    the voter is the validator of the id by its key, from Zurich on a member of
    the validator set, and ballots stay free of repetitions. *)
Theorem VoteProducers_replaces_ballot {K : Type} {SK : StakeKeeperI K} {AC : AddressCodec} {SA : SdkAddress}
    (cfg : Config) (ctx : Ctx) (sk : K) (s s' : BorState) (msg : MsgVoteProducers) :
  ballots_ok s -> VoteProducers cfg ctx sk s msg = Ok s' ->
  ballots_ok s' /\ ProducerVotes s' = <[vp_VoterId msg := vp_Votes msg]> (ProducerVotes s) /\
  spans s' = spans s /\ ProducerPlannedDowntime s' = ProducerPlannedDowntime s /\
  (exists v voter addr, sk_GetValidatorFromValID sk (vp_VoterId msg) = Ok v /\
     AccAddressFromHex (vp_Voter msg) = Ok voter /\ PubKeyAddress (PubKey v) = Some addr /\
     FormatAddress (AccAddressString voter) = FormatAddress (AddressString addr)) /\
  (IsZurichHardfork cfg (BlockHeight ctx) = true ->
     exists vs v, sk_GetValidatorSet sk = Ok vs /\ v ∈ Validators vs /\ ValId v = vp_VoterId msg).
Proof.
  intros HB H. unfold VoteProducers in H. ok_step H. ok_step H. ok_step H. ok_step H. ok_step H. ok_step H.
  ok_step H. injection H as <-.
  split; [|split_and!; try done].
  - intros voter votes. cbn. intros [[_ <-]|[_ Hv]]%lookup_insert_Some; [|by apply (HB voter)].
    by apply (has_duplicate_NoDup []).
  - unfold must in Ha2. destruct (PubKeyAddress (PubKey a1)) as [addr|] eqn:Ek; [|done].
    injection Ha2 as ->. bool_hyps. apply String.eqb_eq in Hg. eauto 8.
  - intros HZ. rewrite HZ in Ha3. unfold isValidatorInActiveSet in Ha3. ok_step Ha3. ok_step Ha3.
    bool_hyps. subst a4. ok_step Ha4. injection Ha4 as Ex.
    apply existsb_exists in Ex as (v & Hv & E). apply Z.eqb_eq in E. apply list_elem_of_In in Hv. eauto 6.
Qed.

(** ** Witnesses *)

Module BorCorrectDemo.
Import BorDemo.

Lemma demo_chain : span_chain demo_bor 0.
Proof.
  split.
  - reflexivity.
  - intros i Hi. assert (i = 0%nat) as -> by lia. exists first_span. split; reflexivity.
  - intros i [sp H]. cbn in H. apply lookup_singleton_Some in H as [<- _]. cbn. lia.
Qed.

Lemma demo_ids i v : GetValidatorFromValID demo_stake.1 i = Ok v -> In (i, v)
  [(1, member 1 "0xaa" 10); (2, member 2 "0xbb" 20); (3, member 3 "0xcc" 30)].
Proof.
  unfold GetValidatorFromValID, GetSignerFromValidatorID, GetValidatorInfo. intros H. ok_inv H.
  apply of_option_ok in Ha. cbn in Ha.
  apply lookup_insert_Some in Ha as [[<- <-]|[_ Ha]]; [vm_compute in H; injection H as <-; cbn; auto|].
  apply lookup_insert_Some in Ha as [[<- <-]|[_ Ha]]; [vm_compute in H; injection H as <-; cbn; auto|].
  apply lookup_insert_Some in Ha as [[<- <-]|[_ Ha]]; [vm_compute in H; injection H as <-; cbn; auto|].
  by rewrite lookup_empty in Ha.
Qed.

#[export] Instance demo_promise : StakePromise demo_stake.
Proof.
  split.
  - exists demo_set. split; [reflexivity|]. intros v Hv. apply list_elem_of_In in Hv.
    destruct Hv as [<-|[<-|[<-|[]]]]; vm_compute; reflexivity.
  - intros i. apply GetValidatorFromValID_no_panic.
  - intros i v H. apply demo_ids in H as [E|[E|[E|[]]]]; injection E as <- <-; reflexivity.
Qed.

(** Nobody voted for, active or configured is unknown. *)
Lemma demo_resolvable p :
  voted demo_bor p \/ p ∈ fallbackProducerVotes demo_config \/ p ∈ ({[1; 2; 3]} : gset Z) ->
  is_ok (sk_GetValidatorFromValID demo_stake p) = true.
Proof.
  intros [(voter & votes & H & Hp)|[Hp|Hp]].
  - cbn in H.
    assert (Forall (fun q => is_ok (sk_GetValidatorFromValID demo_stake q) = true) votes) as HF.
    { repeat (apply lookup_insert_Some in H as [[_ <-]|[_ H]]; [repeat constructor|]).
      apply lookup_singleton_Some in H as [_ <-]. repeat constructor. }
    rewrite Forall_forall in HF. by apply HF.
  - apply list_elem_of_In in Hp as [<-|[<-|[]]]; vm_compute; reflexivity.
  - rewrite !elem_of_union, !elem_of_singleton in Hp. destruct Hp as [[->| ->]| ->]; vm_compute; reflexivity.
Qed.

Lemma future_span_always_found_witness :
  exists s' v, AddNewVeBlopSpan demo_config demo_ctx demo_stake demo_bor 2 256 511 "137"
    {[1; 2; 3]} 100 0 {[3]} true = Ok s' /\ span_chain s' 1 /\ ValId v ∉ ({[3]} : gset Z).
Proof.
  destruct (future_span_always_found demo_config demo_ctx demo_stake demo_bor 0 2 256 511 "137"
    {[1; 2; 3]} 100 0 {[3]}) as (s' & v & E & [Hc _ _] & Hv).
  - exact demo_chain.
  - vm_compute. reflexivity.
  - vm_compute. reflexivity.
  - exists 1. split_and!; [set_solver|lia|set_solver].
  - exact demo_resolvable.
  - exists s', v. split; [exact E|]. split; [exact Hc|exact Hv].
Defined.
(** Producer 2 announces that it will be down for blocks 200 to 400. *)
Definition demo_downtime : MsgSetProducerDowntime :=
  {| pd_Producer := "0xBB"; pd_StartBlock := 200; pd_EndBlock := 400; pd_TargetProducerId := 0 |}.

Lemma planned_downtime_hands_over_witness :
  exists s' vid, PostHandleSetProducerDowntime demo_config demo_ctx demo_stake demo_bor demo_downtime VOTE_YES = Ok s' /\
    ProducerPlannedDowntime s' = <[vid := (200, 400)]> ∅ /\ FindCurrentProducerID s' 300 = Ok 3.
Proof.
  destruct (PostHandleSetProducerDowntime demo_config demo_ctx demo_stake demo_bor demo_downtime VOTE_YES)
    as [s'|e|] eqn:E; [|vm_compute in E; discriminate E..].
  destruct (planned_downtime_hands_over demo_config demo_ctx demo_stake demo_bor s' 0 demo_downtime demo_chain)
    as (vid & producers & params & _ & _ & _ & _ & _ & Hd & _).
  - vm_compute. reflexivity.
  - exact E.
  - exists s', vid. split; [reflexivity|]. split; [exact Hd|]. vm_compute in E. injection E as <-.
    vm_compute. reflexivity.
Defined.

(** A Bor chain at block 50, whose blocks have one author. *)
#[export] Instance demo_chain_view : BorChain := {|
  GetBorChainBlock b := Some {| Number := match b with Some n => n | None => 50 end;
    HeaderHash := repeat Byte.x07 32; HeaderParentHash := [] |};
  GetBorChainBlockAuthor _ := Some [Byte.x0a];
  BorBatch _ _ := None;
|}.
#[export] Instance demo_eth : EthAddress := {|
  HexToAddress s := if String.eqb s "0x0a" then [Byte.x0a] else [];
  AddressHex b := "0x0A";
|}.
#[export] Instance demo_rand : RandSource := {| rand_u64 _ _ := 0 |}.
Definition demo_chain_params : ChainManagerParams :=
  {| MainChainTxConfirmations := 1; BorChainTxConfirmations := 1; BorChainId := "137";
     StakingInfoAddress := "0x1"; StateSenderAddress := "0x2"; RootChainAddress := "0x3" |}.
Definition demo_proposal : MsgProposeSpan :=
  {| ps_SpanId := 1; ps_Proposer := "0xaa"; ps_StartBlock := 256; ps_EndBlock := 6655; ps_ChainId := "137";
     ps_Seed := repeat Byte.x07 32; ps_SeedAuthor := "0x0a" |}.

Lemma approved_span_extends_chain_witness :
  exists s', PostHandleMsgSpan demo_config 1 demo_stake demo_bor demo_proposal VOTE_YES = Ok s' /\
    span_chain s' 1 /\ is_ok (PostHandleMsgSpan demo_config 1 demo_stake s' demo_proposal VOTE_YES) = false.
Proof.
  destruct (PostHandleMsgSpan demo_config 1 demo_stake demo_bor demo_proposal VOTE_YES) as [s'|e|] eqn:E;
    [|vm_compute in E; discriminate E..].
  destruct (approved_span_extends_chain demo_config 1 1 (Some demo_chain_params) (Ok (Some 40)) demo_stake demo_bor
    0 demo_proposal s' demo_chain) as (last & p & sp & _ & Hc & _ & _ & _ & _ & _ & _ & Hr).
  - vm_compute. reflexivity.
  - vm_compute. reflexivity.
  - exact E.
  - exists s'. split; [reflexivity|]. split; [exact Hc|]. apply Hr.
Defined.

Lemma SpanByBlockNumber_newest_witness : is_ok (SpanByBlockNumber demo_bor 300) = false.
Proof.
  destruct (SpanByBlockNumber_newest demo_bor 0 300 demo_chain) as [(j & sp & _ & E & _)|[[e E] _]].
  - vm_compute in E. discriminate E.
  - rewrite E. reflexivity.
Defined.

(** Of 1, 2, 3 with 2 down, 3 follows 1. *)
Definition demo_down : BorState :=
  set_span_block demo_bor None {[2 := (300, 400)]}.
Lemma SelectProducer_round_robin_witness :
  exists c, SelectProducer demo_down 1 [1; 2; 3] 256 511 = Ok c /\
    IsProducerDownForBlockRange demo_down 256 511 c = false /\ c <> 1.
Proof.
  destruct (SelectProducer_round_robin demo_down 1 256 511 [1; 2; 3]) as (c & E & _ & Hd & Hn); [discriminate|].
  exists c. split; [exact E|]. split.
  - apply Hd. exists 3. split; [set_solver|reflexivity].
  - apply Hn; [apply (bool_decide_unpack _); vm_compute; exact I|].
    exists 3. split_and!; [set_solver|lia|reflexivity].
Defined.

#[export] Instance demo_keys : AddressCodec := {|
  PubKeyAddress _ := Some [];
  AddressString _ := "0xBB";
  BytesToString _ := Ok "";
  StringToBytes _ := Ok [];
|}.
#[export] Instance demo_sdk : SdkAddress := {|
  ValAddressFromHex _ := Ok [];
  AccAddressFromHex _ := Ok [];
  AccAddressString _ := "0xbb";
|}.
(** Rio has been reached. *)
Definition demo_rio : Config :=
  {| rioHeight := 256; tallyFixHeight := 0; disableVPCheckHeight := 0; disableValSetCheckHeight := 0;
     initialHeight := 1; producerDowntimeHeight := 1; phuketHardforkHeight := 1;
     feeWithdrawValidatorGateHeight := 1; zurichHardforkHeight := 1; ithacaHeight := 1;
     fallbackProducerVotes := [1; 2] |}.
Definition demo_vote : MsgVoteProducers := {| vp_Voter := "0xbb"; vp_VoterId := 2; vp_Votes := [3; 1] |}.

Lemma VoteProducers_replaces_ballot_witness :
  exists s', VoteProducers demo_rio demo_ctx demo_stake demo_bor demo_vote = Ok s' /\ ballots_ok s'.
Proof.
  destruct (VoteProducers demo_rio demo_ctx demo_stake demo_bor demo_vote) as [s'|e|] eqn:E;
    [|vm_compute in E; discriminate E..].
  exists s'. split; [reflexivity|].
  exact (proj1 (VoteProducers_replaces_ballot demo_rio demo_ctx demo_stake demo_bor s' demo_vote demo_ballots E)).
Defined.
End BorCorrectDemo.
