(* ===== verification/Rotation.v ===== *)
(** * Span rotation

    Models the part of the pre-blocker that changes the spans ([app/abci.go]:
    [updateBlockProducerStatus], [checkAndAddFutureSpan],
    [checkAndRotateCurrentSpan]) and [app/pending_stall.go]: a span is added when
    a milestone reaches the last one, and the producer is replaced when milestones
    stop, or when the head a third of the validators agree on stalls.  The
    functions read the stake keeper and change the stores of the milestone and bor
    modules. *)
From S2P Require Import Prelude SortedList Helpers External VoteTypes ValidatorSet BorTypes BorKeeper Milestone MilestoneVotes.
#[local] Open Scope Z_scope.

(** [GetBorStallThreshold] *)
Definition GetBorStallThreshold (cfg : Config) (height : Z) : Z := GetChangeProducerThreshold cfg height.

(** The last block of a proposition, [StartBlockNumber + uint64(len(BlockHashes)-1)]. *)
Definition proposition_end (prop : MilestoneProposition) : Z :=
  u64 (StartBlockNumber prop + u64 (Z.of_nat (length (BlockHashes prop)) - 1)).

(** ** The loops that choose the end of a span

    [None] when [fuel] turns are not enough. *)

(** [for endBlock-milestoneEnd > 2*spanDuration { endBlock -= spanDuration }] *)
Fixpoint trim_runway (fuel : nat) (endBlock milestoneEnd spanDuration : Z) : option Z :=
  if u64 (2 * spanDuration) <? u64 (endBlock - milestoneEnd) then
    match fuel with
    | O => None
    | S n => trim_runway n (u64 (endBlock - spanDuration)) milestoneEnd spanDuration
    end
  else Some endBlock.
(** [for endBlock <= milestoneEnd { endBlock += spanDuration }] *)
Fixpoint extend_runway (fuel : nat) (endBlock milestoneEnd spanDuration : Z) : option Z :=
  if endBlock <=? milestoneEnd then
    match fuel with
    | O => None
    | S n => extend_runway n (u64 (endBlock + spanDuration)) milestoneEnd spanDuration
    end
  else Some endBlock.
(** Turns that are enough when the duration is positive. *)
Definition turns (distance spanDuration : Z) : nat := Z.to_nat (distance / spanDuration + 1).
Definition rotated_end (lastSpanEnd milestoneEnd spanDuration : Z) : option Z :=
  endBlock ← trim_runway (turns (u64 (lastSpanEnd - milestoneEnd)) spanDuration) lastSpanEnd milestoneEnd spanDuration;
  if endBlock <=? milestoneEnd
  then extend_runway (turns (milestoneEnd - lastSpanEnd) spanDuration) lastSpanEnd milestoneEnd spanDuration
  else Some endBlock.

(** The loop of [rotateSpanFromPendingHead]: [Some None] when the end would
    overflow and the rotation is skipped. *)
Fixpoint cover_runway (fuel : nat) (endBlock pendingHead spanDuration : Z) : option (option Z) :=
  if endBlock <=? pendingHead then
    if (spanDuration =? 0) || (u64 (MaxUint64 - spanDuration) <? endBlock) then Some None
    else match fuel with
         | O => None
         | S n => cover_runway n (u64 (endBlock + spanDuration)) pendingHead spanDuration
         end
  else Some (Some endBlock).

(** Running out of turns is no result. *)
Definition finished {A} (o : option A) : outcome A := match o with Some a => Ok a | None => Panic end.

Section rotation.
Context {K : Type} {SK : StakeKeeperI K} (cfg : Config).

Definition updateBlockProducerStatus (bs : BorState) (supportingProducerIDs : gset Z) : BorState :=
  ClearLatestFailedProducer (UpdateLatestActiveProducer bs supportingProducerIDs).

Definition checkAndAddFutureSpan (ctx : Ctx) (sk : K) (bs : BorState) (majorityMilestone : MilestoneProposition)
    (lastSpan : Span) (supportingValidatorIDs : gset Z) : outcome BorState :=
  if (span_StartBlock lastSpan <=? proposition_end majorityMilestone) && IsRio cfg (u64 (span_EndBlock lastSpan + 1)) then
    params ← FetchParams bs;
    let endBlock := u64 (span_EndBlock lastSpan + SpanDuration params) in
    currentProducer ← FindCurrentProducerID bs (span_EndBlock lastSpan);
    bs ← AddNewVeBlopSpan cfg ctx sk bs currentProducer (u64 (span_EndBlock lastSpan + 1)) endBlock
           (span_BorChainId lastSpan) supportingValidatorIDs (u64 (BlockHeight ctx)) RoundRobinDefault ∅ true;
    Ok (updateBlockProducerStatus bs supportingValidatorIDs)
  else Ok bs.

Definition debouncePendingStallClock (ctx : Ctx) (ms : MilestoneState) (debounceHeight : Z) : MilestoneState :=
  if negb (IsIthaca cfg (BlockHeight ctx)) then ms
  else
    let '(trackedBlock, trackedID, trackedHeight) := GetPendingBorBlockTracking ms in
    if trackedHeight =? 0 then ms else SetPendingBorBlockTracking ms trackedBlock trackedID debounceHeight.

(** The height until which a rotation is debounced. *)
Definition debounce_height (ctx : Ctx) : Z := u64 (u64 (BlockHeight ctx) + GetSpanRotationBuffer cfg (BlockHeight ctx)).

(** [checkAndRotateCurrentSpan], the branch that rotates.  The cached writes are
    dropped when no span can be added. *)
Definition rotate_current_span (ctx : Ctx) (sk : K) (ms : MilestoneState) (bs : BorState) (lastMilestone : MilestoneRecord)
    : outcome (MilestoneState * BorState) :=
  let latestActiveProducer := GetLatestActiveProducer bs in
  lastSpan ← GetLastSpan bs;
  params ← FetchParams bs;
  endBlock ← finished (rotated_end (span_EndBlock lastSpan) (mi_EndBlock lastMilestone) (SpanDuration params));
  let nextBlock := u64 (mi_EndBlock lastMilestone + 1) in
  currentProducer ← FindCurrentProducerID bs nextBlock;
  let latestActiveProducer := (latestActiveProducer ∖ GetLatestFailedProducer bs) ∖ {[currentProducer]} in
  match AddNewVeBlopSpan cfg ctx sk bs currentProducer nextBlock endBlock (mi_BorChainId lastMilestone)
          latestActiveProducer (u64 (BlockHeight ctx)) RoundRobinDefault ∅ false with
  | Panic => Panic
  | Err _ => Ok (ms, bs)
  | Ok bs =>
      let ms := SetLastMilestoneBlock ms (debounce_height ctx) in
      let bs := AddLatestFailedProducer bs currentProducer in
      Ok (debouncePendingStallClock ctx ms (debounce_height ctx), bs)
  end.

Definition checkAndRotateCurrentSpan (ctx : Ctx) (sk : K) (ms : MilestoneState) (bs : BorState)
    : outcome (MilestoneState * BorState) :=
  lastMilestone ← (if HasMilestone ms then m ← GetLastMilestone ms; Ok (Some m) else Ok None);
  let lastMilestoneBlock := GetLastMilestoneBlock ms in
  let lastMilestoneBlock := if lastMilestoneBlock =? 0 then u64 (BlockHeight ctx) else lastMilestoneBlock in
  let diff := i64 (BlockHeight ctx - i64 lastMilestoneBlock) in
  match lastMilestone with
  | Some m =>
      if negb (lastMilestoneBlock =? 0) && (GetChangeProducerThreshold cfg (BlockHeight ctx) <? diff)
         && IsRio cfg (u64 (mi_EndBlock m + 1))
      then rotate_current_span ctx sk ms bs m
      else Ok (ms, bs)
  | None => Ok (ms, bs)
  end.

(** ** A pending milestone *)

Definition pendingStallExcludedProducers (bs : BorState) (currentProducer : Z) : gset Z :=
  {[currentProducer]} ∪ GetLatestFailedProducer bs.

Definition recordPendingStallRotation (ctx : Ctx) (ms : MilestoneState) (bs : BorState) (pendingHead : Z)
    (pendingHeadID : bytes) (currentProducer : Z) : MilestoneState * BorState :=
  (SetPendingBorBlockTracking (SetLastMilestoneBlock ms (debounce_height ctx)) pendingHead pendingHeadID (debounce_height ctx),
   AddLatestFailedProducer bs currentProducer).

(** The producer of the next block; beyond every span the one of the head, and of
    the last span when the lookup fails before it. *)
Definition stalled_producer (bs : BorState) (lastSpan : Span) (pendingHead : Z) : outcome Z :=
  let producerLookupBlock :=
    if (pendingHead <? MaxUint64) && (u64 (pendingHead + 1) <=? span_EndBlock lastSpan)
    then u64 (pendingHead + 1) else pendingHead in
  match FindCurrentProducerID bs producerLookupBlock with
  | Err e => if producerLookupBlock <? span_StartBlock lastSpan
             then FindCurrentProducerID bs (span_StartBlock lastSpan) else Err e
  | r => r
  end.

Definition rotateSpanFromPendingHead (ctx : Ctx) (sk : K) (ms : MilestoneState) (bs : BorState) (pendingHead : Z)
    (pendingHeadID : bytes) : outcome (MilestoneState * BorState) :=
  lastSpan ← GetLastSpan bs;
  if span_EndBlock lastSpan <? pendingHead then Ok (ms, bs)
  else if pendingHead =? MaxUint64 then Ok (ms, bs)
  else
    params ← FetchParams bs;
    covered ← finished (cover_runway (turns (pendingHead - span_EndBlock lastSpan) (SpanDuration params))
                          (span_EndBlock lastSpan) pendingHead (SpanDuration params));
    match covered with
    | None => Ok (ms, bs)
    | Some endBlock =>
        currentProducer ← stalled_producer bs lastSpan pendingHead;
        let excludedProducers := pendingStallExcludedProducers bs currentProducer in
        match AddNewVeBlopSpan cfg ctx sk bs currentProducer (u64 (pendingHead + 1)) endBlock (span_BorChainId lastSpan)
                (GetLatestActiveProducer bs) (u64 (BlockHeight ctx)) RoundRobinDefault excludedProducers false with
        | Panic => Panic
        | Err _ => Ok (ms, bs)
        | Ok bs => Ok (recordPendingStallRotation ctx ms bs pendingHead pendingHeadID currentProducer)
        end
    end.

Definition checkAndRotateOnPendingStall (ctx : Ctx) (sk : K) (ms : MilestoneState) (bs : BorState) (agreedHead : Z)
    (agreedHash : bytes) : outcome (MilestoneState * BorState) :=
  let '(trackedBlock, trackedID, trackedHeight) := GetPendingBorBlockTracking ms in
  if (trackedHeight =? 0) || negb (agreedHead =? trackedBlock) || negb (bool_decide (agreedHash = trackedID)) then
    Ok (SetPendingBorBlockTracking ms agreedHead agreedHash (u64 (BlockHeight ctx)), bs)
  else if i64 (BlockHeight ctx - i64 trackedHeight) <=? GetBorStallThreshold cfg (BlockHeight ctx) then Ok (ms, bs)
  else rotateSpanFromPendingHead ctx sk ms bs agreedHead agreedHash.

Context {AC : AddressCodec} {VC : VoteCodec}.

Definition handlePendingMilestone (ctx : Ctx) (sk : K) (ms : MilestoneState) (bs : BorState) (validatorSet : ValidatorSet)
    (extVoteInfo : list ExtendedVoteInfo) (minMajorityVP : Z) : outcome (MilestoneState * BorState) :=
  if IsIthaca cfg (BlockHeight ctx) then
    lastSpan ← GetLastSpan bs;
    '(agreedHead, agreedHash, found) ←
      GetMajorityActualHead cfg ctx validatorSet extVoteInfo minMajorityVP (span_EndBlock lastSpan);
    if negb found then Ok (ms, bs)
    else checkAndRotateOnPendingStall ctx sk ms bs agreedHead agreedHash
  else Ok (ms, bs).
End rotation.
