(* ===== verification/RotationCorrect.v ===== *)
(** * Span rotation: correctness

    The loops that choose the end of a span terminate and leave a runway; a
    rotation keeps the blocks that exist with their producers, hands the following
    ones to another producer, and is not repeated before its debounce is over. *)
From S2P Require Import Prelude SortedList Helpers External VoteTypes ValidatorSet BorTypes BorKeeper BorVotes BorCorrect Milestone MilestoneVotes Rotation.
#[local] Open Scope Z_scope.

(** ** The loops *)

Lemma div_step a d : 0 < d -> (a - d) / d = a / d - 1.
Proof. intros Hd. replace (a - d) with (a + (-1) * d) by lia. rewrite Z.div_add by lia. lia. Qed.

Section loops.
Context (m dur : Z) (Hm : 0 <= m) (Hdur : 0 < dur) (Hroom : m + 2 * dur <= MaxUint64).

Lemma trim_spec fuel e : m <= e <= MaxUint64 -> (e - m) / dur < Z.of_nat fuel ->
  exists e', trim_runway fuel e m dur = Some e' /\ m <= e' <= e /\ e' <= m + 2 * dur /\ (e' = e \/ m + dur < e') /\
    (e <= m + 2 * dur -> e' = e).
Proof.
  revert e. induction fuel as [|fuel IH]; intros e He Hf.
  { pose proof (Z.div_pos (e - m) dur). lia. }
  cbn [trim_runway]. rewrite !u64_id by (unfold in_u64, MaxUint64 in *; lia).
  destruct (Z.ltb_spec (2 * dur) (e - m)) as [Hgt|Hle]; [|exists e; split; [done|lia]].
  rewrite u64_id by (unfold in_u64, MaxUint64 in *; lia). destruct (IH (e - dur)) as (e' & E & H1 & H2 & H3 & _); [lia| |].
  - replace (e - dur - m) with (e - m - dur) by lia. rewrite div_step by done. lia.
  - exists e'. split; [done|]. lia.
Qed.

Lemma extend_spec fuel e : 0 <= e <= m + dur -> (m - e) / dur < Z.of_nat fuel ->
  exists e', extend_runway fuel e m dur = Some e' /\ m < e' <= m + dur /\ e <= e'.
Proof.
  revert e. induction fuel as [|fuel IH]; intros e He Hf; cbn [extend_runway].
  - destruct (Z.leb_spec e m); [|exists e; split; [done|lia]]. pose proof (Z.div_pos (m - e) dur). lia.
  - destruct (Z.leb_spec e m) as [Hle|Hgt]; [|exists e; split; [done|lia]].
    rewrite u64_id by (unfold in_u64, MaxUint64 in *; lia). destruct (IH (e + dur)) as (e' & E & H1 & H2); [lia| |].
    + replace (m - (e + dur)) with (m - e - dur) by lia. rewrite div_step by done. lia.
    + exists e'. split; [done|]. lia.
Qed.

Lemma turns_enough a : a / dur < Z.of_nat (turns a dur) \/ a < 0.
Proof.
  unfold turns. destruct (Z.le_gt_cases 0 a); [left|by right].
  pose proof (Z.div_pos a dur). rewrite Z2Nat.id; lia.
Qed.

(** The new end is after the milestone, by two spans at most. *)
Lemma rotated_end_spec e : m <= e <= MaxUint64 ->
  exists e', rotated_end e m dur = Some e' /\ m < e' <= m + 2 * dur /\ (e <= m + 2 * dur -> e <= e').
Proof.
  intros He. unfold rotated_end. rewrite u64_id by (unfold in_u64; lia).
  destruct (turns_enough (e - m)) as [Ht|?]; [|lia].
  destruct (trim_spec _ e He Ht) as (e1 & -> & H1 & H2 & H3 & H4). cbn [mbind option_bind].
  destruct (Z.leb_spec e1 m) as [Hle|Hgt].
  - assert (e = m) as -> by lia. destruct (turns_enough (m - m)) as [Ht'|?]; [|lia].
    destruct (extend_spec (turns (m - m) dur) m) as (e' & -> & H5 & H6); [lia|done|]. exists e'. split; [done|lia].
  - exists e1. split; [done|]. split; [lia|]. intros Hs. rewrite H4 by done. lia.
Qed.
End loops.

(** A pending head within the last span needs at most one more span. *)
Lemma cover_spec h e dur : 0 <= h <= e -> e <= MaxUint64 -> in_u64 dur ->
  exists r, cover_runway (turns (h - e) dur) e h dur = Some r /\
    forall e', r = Some e' -> h < e' <= MaxUint64 /\ e <= e'.
Proof.
  unfold in_u64. intros Hh He Hdur. assert (turns (h - e) dur = 1%nat \/ h < e) as [E|Hlt].
  { destruct (Z.eq_dec h e) as [->|?]; [left|right; lia]. unfold turns. by rewrite Z.sub_diag, Zdiv_0_l. }
  - rewrite E. cbn [cover_runway]. destruct (Z.leb_spec e h) as [Hle|Hgt]; [|by eexists; split; [done|intros ? [= <-]; lia]].
    assert (h = e) as -> by lia. destruct (Z.eqb_spec dur 0) as [->|Hd]; [by eexists|]. cbn [orb].
    destruct (Z.ltb_spec (u64 (MaxUint64 - dur)) e) as [?|Hfit]; [by eexists|].
    rewrite u64_id in Hfit by (unfold in_u64; lia). rewrite u64_id by (unfold in_u64; lia).
    destruct (Z.leb_spec (e + dur) e); [lia|]. eexists. split; [done|]. intros ? [= <-]. lia.
  - destruct (turns _ _); cbn [cover_runway]; destruct (Z.leb_spec e h); try lia;
      (eexists; split; [done|]; intros ? [= <-]; lia).
Qed.

Lemma adds_span_ext s s1 s2 n a b v : spans s2 = spans s1 -> latestSpan s2 = latestSpan s1 ->
  adds_span s s1 n a b v -> adds_span s s2 n a b v.
Proof.
  intros E1 E2 [H1 H2 H3]. split.
  - by apply (span_chain_ext s1).
  - intros x Hx. rewrite FindCurrentProducerID_span, (SpanByBlockNumber_ext s1), <- FindCurrentProducerID_span by done.
    by apply H2.
  - intros x Hx. rewrite (SpanByBlockNumber_ext s1) by done. by apply H3.
Qed.

(** ** The operations *)

(** Heights of blocks. *)
Definition height_ok (ctx : Ctx) : Prop := 0 <= BlockHeight ctx < 2 ^ 62.

Section rotation.
Context {K : Type} {SK : StakeKeeperI K} (cfg : Config).

Lemma debounce_height_eq ctx : height_ok ctx ->
  debounce_height cfg ctx = BlockHeight ctx + GetSpanRotationBuffer cfg (BlockHeight ctx).
Proof.
  unfold height_ok, debounce_height, GetSpanRotationBuffer. intros H.
  rewrite (u64_id (BlockHeight ctx)) by (unfold in_u64, MaxUint64; lia).
  apply u64_id. unfold in_u64, MaxUint64. destruct (_ <=? _); lia.
Qed.

Lemma buffer_positive h : 0 < GetSpanRotationBuffer cfg h <= 20.
Proof. unfold GetSpanRotationBuffer. destruct (_ <=? _); lia. Qed.

(** A rotation: the span is added and its producer is recorded as failed. *)
Lemma rotate_current_ok ctx (sk : K) {SP : StakePromise sk} ms bs n m ms' bs' :
  span_chain bs n -> Z.of_nat n < MaxUint64 ->
  rotate_current_span cfg ctx sk ms bs m = Ok (ms', bs') ->
  (ms', bs') = (ms, bs) \/
  exists cur v lastSpan params e,
    FindCurrentProducerID bs (u64 (mi_EndBlock m + 1)) = Ok cur /\ GetLastSpan bs = Ok lastSpan /\
    FetchParams bs = Ok params /\ rotated_end (span_EndBlock lastSpan) (mi_EndBlock m) (SpanDuration params) = Some e /\
    adds_span bs bs' n (u64 (mi_EndBlock m + 1)) e v /\ ValId v <> cur /\
    LatestFailedProducer bs' = {[cur]} ∪ LatestFailedProducer bs /\
    ms' = debouncePendingStallClock cfg ctx (SetLastMilestoneBlock ms (debounce_height cfg ctx)) (debounce_height cfg ctx).
Proof.
  intros Hc Hn. unfold rotate_current_span. intros H. do 4 ok_step H.
  destruct (AddNewVeBlopSpan _ _ _ _ _ _ _ _ _ _ _ _ _) as [bs1| |] eqn:E; [|injection H as <- <-; by left|done].
  injection H as <- <-. right.
  destruct (AddNewVeBlopSpan_adds cfg _ _ _ _ _ _ _ _ _ _ _ _ _ _ Hc Hn E) as (p & v & Hp & Hv & Hadd & _).
  assert (LatestFailedProducer bs1 = LatestFailedProducer bs) as Hf.
  { unfold AddNewVeBlopSpan in E. by do 4 ok_step E; injection E as <-. }
  exists a2, v, a, a0, a1. split_and!; try done.
  - destruct (rotated_end _ _ _); [|done]. by injection Ha1 as <-.
  - eapply adds_span_ext; [..|exact Hadd]; done.
  - rewrite (promise_id _ _ Hv). eapply SelectNext_not_current; [|exact Hp]. set_solver.
  - cbn. by rewrite Hf.
Qed.

Lemma rotate_pending_ok ctx (sk : K) {SP : StakePromise sk} ms bs n h hid ms' bs' :
  span_chain bs n -> Z.of_nat n < MaxUint64 ->
  rotateSpanFromPendingHead cfg ctx sk ms bs h hid = Ok (ms', bs') ->
  (ms', bs') = (ms, bs) \/
  exists cur v lastSpan params e,
    GetLastSpan bs = Ok lastSpan /\ h <= span_EndBlock lastSpan /\ h <> MaxUint64 /\ stalled_producer bs lastSpan h = Ok cur /\
    FetchParams bs = Ok params /\
    cover_runway (turns (h - span_EndBlock lastSpan) (SpanDuration params)) (span_EndBlock lastSpan) h (SpanDuration params)
      = Some (Some e) /\
    adds_span bs bs' n (u64 (h + 1)) e v /\ ValId v <> cur /\ (ValId v ∉ LatestFailedProducer bs) /\
    LatestFailedProducer bs' = {[cur]} ∪ LatestFailedProducer bs /\
    ms' = SetPendingBorBlockTracking (SetLastMilestoneBlock ms (debounce_height cfg ctx)) h hid (debounce_height cfg ctx).
Proof.
  intros Hc Hn. unfold rotateSpanFromPendingHead. intros H. ok_step H.
  destruct (Z.ltb_spec (span_EndBlock a) h); [injection H as <- <-; by left|].
  destruct (Z.eqb_spec h MaxUint64); [injection H as <- <-; by left|].
  do 2 ok_step H. destruct (cover_runway _ _ _ _) as [r|] eqn:Ec; [|done]. injection Ha1 as <-.
  destruct r as [e|]; [|injection H as <- <-; by left]. ok_step H.
  destruct (AddNewVeBlopSpan _ _ _ _ _ _ _ _ _ _ _ _ _) as [bs1| |] eqn:E; [|injection H as <- <-; by left|done].
  injection H as <- <-. right.
  destruct (AddNewVeBlopSpan_adds cfg _ _ _ _ _ _ _ _ _ _ _ _ _ _ Hc Hn E) as (p & v & Hp & Hv & Hadd & _).
  assert (LatestFailedProducer bs1 = LatestFailedProducer bs) as Hf.
  { unfold AddNewVeBlopSpan in E. by do 4 ok_step E; injection E as <-. }
  apply SelectNext_spec in Hp. rewrite <- (promise_id _ _ Hv) in Hp. unfold pendingStallExcludedProducers, GetLatestFailedProducer in Hp.
  apply not_elem_of_union in Hp as [Hcur Hfailed]. rewrite elem_of_singleton in Hcur.
  exists a1, v, a, a0, e. split_and!; try done.
  - eapply adds_span_ext; [..|exact Hadd]; done.
  - cbn. by rewrite Hf.
Qed.

(** ** No step hangs or panics *)

(** Spans with a producer and 64-bit ends. *)
Definition spans_elected (bs : BorState) : Prop :=
  forall i sp, spans bs !! i = Some sp -> SelectedProducers sp <> [] /\ in_u64 (span_EndBlock sp).

Lemma FindCurrentProducerID_no_panic bs n b : span_chain bs n -> spans_elected bs -> FindCurrentProducerID bs b <> Panic.
Proof.
  intros Hc He. unfold FindCurrentProducerID. destruct (GetLastSpan_chain _ _ Hc) as (last & -> & Hid & _).
  cbn [mbind outcome_bind]. rewrite Hid, Nat2Z.id.
  destruct (span_at_newest bs n b n Hc) as [(j & sp & _ & -> & Hl & _)|[[e ->] _]]; [lia| |done].
  cbn [mbind outcome_bind]. unfold first_producer. apply He in Hl as [Hne _]. by destruct (SelectedProducers sp).
Qed.

Lemma SelectProducer_no_panic s current cands a b : SelectProducer s current cands a b <> Panic.
Proof.
  destruct cands as [|c l]; [done|]. by destruct (SelectProducer_spec s current (c :: l) a b) as (q & -> & _).
Qed.

Lemma SelectNext_no_panic ctx (sk : K) {SP : StakePromise sk} bs current active limit a b target excluded fallback :
  SelectNextSpanProducer cfg ctx sk bs current active limit a b target excluded fallback <> Panic.
Proof.
  destruct (promise_set (sk := sk)) as (vs & Hvs & _). unfold SelectNextSpanProducer.
  destruct (CalculateProducerSet_total cfg ctx sk bs limit vs Hvs promise_no_panic) as [cands ->]. cbn [mbind outcome_bind].
  assert (exists l, eligibleProducerFallback sk current active excluded = Ok l) as [fb Efb].
  { unfold eligibleProducerFallback. rewrite Hvs. destruct (sortedEligibleProducers _ _ _); eauto. }
  rewrite Efb. destruct (narrow_candidates _ _ _ _); [destruct (fallback && _)|]; cbn [mbind outcome_bind];
    (destruct (_ && negb _); [done|apply SelectProducer_no_panic]).
Qed.

Lemma AddNewVeBlopSpan_no_panic ctx (sk : K) {SP : StakePromise sk} bs n current a b chain active hb target excluded fallback :
  span_chain bs n -> AddNewVeBlopSpan cfg ctx sk bs current a b chain active hb target excluded fallback <> Panic.
Proof.
  intros Hc. destruct (promise_set (sk := sk)) as (vs & Hvs & _). unfold AddNewVeBlopSpan.
  pose proof (SelectNext_no_panic ctx sk bs current active (GetProducerSetLimit cfg (BlockHeight ctx)) a b target excluded fallback) as Hs.
  destruct (SelectNextSpanProducer _ _ _ _ _ _ _ _ _ _ _ _) as [p| |]; [|done..]. rewrite Hvs. cbn [mbind outcome_bind].
  pose proof (promise_no_panic (sk := sk) p) as Hp. destruct (sk_GetValidatorFromValID sk p); [|done..].
  cbn [mbind outcome_bind]. by destruct (GetLastSpan_chain _ _ Hc) as (last & -> & _).
Qed.

Lemma rotate_current_no_panic ctx (sk : K) {SP : StakePromise sk} ms bs n m :
  span_chain bs n -> spans_elected bs -> 0 <= mi_EndBlock m ->
  (forall lastSpan params, GetLastSpan bs = Ok lastSpan -> FetchParams bs = Ok params ->
     0 < SpanDuration params /\ mi_EndBlock m + 2 * SpanDuration params <= MaxUint64 /\ mi_EndBlock m <= span_EndBlock lastSpan) ->
  rotate_current_span cfg ctx sk ms bs m <> Panic.
Proof.
  intros Hc He Hm Hp. unfold rotate_current_span.
  destruct (GetLastSpan_chain _ _ Hc) as (last & El & Hid & Hl). rewrite El. cbn [mbind outcome_bind].
  destruct (FetchParams bs) as [params| |] eqn:Epar; cbn [mbind outcome_bind]; [|done|].
  - destruct (Hp last params El eq_refl) as (H1 & H2 & H3). destruct (He _ _ Hl) as [_ Hend]. unfold in_u64 in Hend.
    destruct (rotated_end_spec (mi_EndBlock m) (SpanDuration params) Hm H1 H2 (span_EndBlock last)) as (e & -> & _); [lia|].
    cbn [finished mbind outcome_bind].
    pose proof (FindCurrentProducerID_no_panic bs n (u64 (mi_EndBlock m + 1)) Hc He) as Hf.
    destruct (FindCurrentProducerID bs _) as [cur| |]; [|done..]. cbn [mbind outcome_bind].
    match goal with |- context [AddNewVeBlopSpan ?c ?x ?k ?s ?p ?a ?b ?ch ?ac ?hb ?t ?ex ?fb] =>
      pose proof (AddNewVeBlopSpan_no_panic x k s n p a b ch ac hb t ex fb Hc) as Ha;
      destruct (AddNewVeBlopSpan c x k s p a b ch ac hb t ex fb) end; done.
  - unfold FetchParams in Epar. by destruct (bor_Params bs).
Qed.

Lemma rotate_pending_no_panic ctx (sk : K) {SP : StakePromise sk} ms bs n h hid :
  span_chain bs n -> spans_elected bs -> 0 <= h -> (forall p, bor_Params bs = Some p -> in_u64 (SpanDuration p)) ->
  rotateSpanFromPendingHead cfg ctx sk ms bs h hid <> Panic.
Proof.
  intros Hc He Hh Hp. unfold rotateSpanFromPendingHead.
  destruct (GetLastSpan_chain _ _ Hc) as (last & -> & Hid & Hl). cbn [mbind outcome_bind].
  destruct (Z.ltb_spec (span_EndBlock last) h); [done|]. destruct (_ =? _); [done|]. unfold FetchParams.
  destruct (bor_Params bs) as [params|]; [|done]. cbn [of_option mbind outcome_bind].
  destruct (He _ _ Hl) as [_ Hend]. unfold in_u64 in Hend.
  destruct (cover_spec h (span_EndBlock last) (SpanDuration params)) as (r & -> & _); [lia|lia|by apply Hp|].
  cbn [finished mbind outcome_bind]. destruct r as [e|]; [|done].
  assert (stalled_producer bs last h <> Panic) as Hs.
  { unfold stalled_producer. match goal with |- context [FindCurrentProducerID bs ?b] =>
      pose proof (FindCurrentProducerID_no_panic bs n b Hc He) as Hf; destruct (FindCurrentProducerID bs b) end; [done| |done].
    destruct (_ <? _); [|done]. apply (FindCurrentProducerID_no_panic bs n _ Hc He). }
  destruct (stalled_producer bs last h) as [cur| |]; [|done..]. cbn [mbind outcome_bind].
  match goal with |- context [AddNewVeBlopSpan ?c ?x ?k ?s ?p ?a ?b ?ch ?ac ?hb ?t ?ex ?fb] =>
    pose proof (AddNewVeBlopSpan_no_panic x k s n p a b ch ac hb t ex fb Hc) as Ha;
    destruct (AddNewVeBlopSpan c x k s p a b ch ac hb t ex fb) end; done.
Qed.
End rotation.

(** ** Properties *)

(** C28: choosing the end of a span terminates and no rotation panics.  When
    milestones stop, the loops end for every last span that reaches the milestone,
    at an end after the milestone and at most two spans after it; with a pending
    head they end for every head, also one invented by a minority, and every
    duration. *)
Theorem span_rotation_terminates {K : Type} {SK : StakeKeeperI K} (cfg : Config) (ctx : Ctx) (sk : K) {SP : StakePromise sk}
    (ms : MilestoneState) (bs : BorState) (n : nat) (params : BorParams) (lastSpan : Span) :
  span_chain bs n -> spans_elected bs -> bor_Params bs = Some params -> GetLastSpan bs = Ok lastSpan ->
  in_u64 (SpanDuration params) ->
  (forall m, GetLastMilestone ms = Ok m -> 0 < SpanDuration params -> 0 <= mi_EndBlock m <= span_EndBlock lastSpan ->
     mi_EndBlock m + 2 * SpanDuration params <= MaxUint64 ->
     checkAndRotateCurrentSpan cfg ctx sk ms bs <> Panic /\
     exists e, rotated_end (span_EndBlock lastSpan) (mi_EndBlock m) (SpanDuration params) = Some e /\
       mi_EndBlock m < e <= mi_EndBlock m + 2 * SpanDuration params) /\
  (forall agreedHead agreedHash, 0 <= agreedHead ->
     checkAndRotateOnPendingStall cfg ctx sk ms bs agreedHead agreedHash <> Panic).
Proof.
  intros Hc He Hp Hl Hdur. split.
  - intros m Hm Hd Hle Hroom. split.
    + unfold checkAndRotateCurrentSpan. destruct (HasMilestone ms).
      * rewrite Hm. cbn [mbind outcome_bind]. destruct (_ && _); [|done].
        apply (rotate_current_no_panic cfg ctx sk ms bs n m Hc He); [lia|].
        intros last' p' El' Ep'. unfold FetchParams in Ep'. rewrite Hp in Ep'. injection Ep' as <-.
        rewrite Hl in El'. injection El' as <-. lia.
      * done.
    + assert (in_u64 (span_EndBlock lastSpan)) as Hend.
      { destruct (GetLastSpan_chain _ _ Hc) as (sp & El & _ & Hsp). rewrite Hl in El. injection El as <-. by apply He in Hsp as [_ ?]. }
      unfold in_u64 in Hend.
      destruct (rotated_end_spec (mi_EndBlock m) (SpanDuration params) ltac:(lia) Hd Hroom (span_EndBlock lastSpan)) as (e & E & H & _);
        [lia|]. eauto.
  - intros h hid Hh. unfold checkAndRotateOnPendingStall. destruct (GetPendingBorBlockTracking ms) as [[b i] t].
    destruct (_ || _)%bool; [done|]. destruct (_ <=? _); [done|].
    apply (rotate_pending_no_panic cfg ctx sk ms bs n h hid Hc He Hh). intros p Ep. rewrite Hp in Ep. by injection Ep as <-.
Qed.

(** What a rotation leaves: from [start] on the blocks are another producer's,
    the blocks before keep their spans, and the producer is recorded as failed. *)
Record handed_over (bs bs' : BorState) (n : nat) (start e cur : Z) (v : Validator) : Prop := {
  ho_span : adds_span bs bs' n start e v;
  ho_new : ValId v <> cur;
  ho_failed : LatestFailedProducer bs' = {[cur]} ∪ LatestFailedProducer bs;
}.

Lemma handed_over_before bs bs' n start e cur v b : handed_over bs bs' n start e cur v -> b < start ->
  FindCurrentProducerID bs' b = FindCurrentProducerID bs b.
Proof. intros [H _ _] Hb. rewrite !FindCurrentProducerID_span. rewrite (as_outside _ _ _ _ _ _ H); [done|lia]. Qed.

Lemma GetLastMilestone_frame ms ms' : milestone ms' = milestone ms -> milestone_count ms' = milestone_count ms ->
  GetLastMilestone ms' = GetLastMilestone ms /\ HasMilestone ms' = HasMilestone ms.
Proof.
  intros E1 E2. unfold GetLastMilestone, HasMilestone, GetMilestoneByNumber, GetMilestoneCount. by rewrite E1, E2.
Qed.

(** The milestone clock after a rotation. *)
Lemma no_early_rotation {K : Type} {SK : StakeKeeperI K} (cfg : Config) ctx2 (sk : K) ms bs debounce m :
  height_ok ctx2 -> GetLastMilestone ms = Ok m -> GetLastMilestoneBlock ms = debounce -> 0 < debounce < 2 ^ 62 + 20 ->
  BlockHeight ctx2 <= debounce + GetChangeProducerThreshold cfg (BlockHeight ctx2) ->
  checkAndRotateCurrentSpan cfg ctx2 sk ms bs = Ok (ms, bs).
Proof.
  unfold height_ok. intros Hh Hm Hb Hd Hle. unfold checkAndRotateCurrentSpan. rewrite Hm, Hb.
  destruct (HasMilestone ms); [|done]. cbn [mbind outcome_bind].
  destruct (Z.eqb_spec debounce 0); [lia|].
  rewrite (i64_id debounce) by (unfold in_i64, MinInt64, MaxInt64; lia).
  rewrite i64_id by (unfold in_i64, MinInt64, MaxInt64; lia).
  destruct (Z.ltb_spec (GetChangeProducerThreshold cfg (BlockHeight ctx2)) (BlockHeight ctx2 - debounce)); [lia|].
  by rewrite andb_false_r.
Qed.

(** When no milestone is found for longer than the threshold, the span is
    rotated: the blocks after the last milestone go to another producer than the
    one that failed to finalise them, for at most two spans, the blocks up to the
    milestone keep theirs, and no further rotation happens before the buffer and
    the threshold have passed. *)
Theorem stalled_milestones_rotate {K : Type} {SK : StakeKeeperI K} (cfg : Config) (ctx : Ctx) (sk : K) {SP : StakePromise sk}
    (ms ms' : MilestoneState) (bs bs' : BorState) (n : nat) :
  height_ok ctx -> span_chain bs n -> Z.of_nat n < MaxUint64 ->
  checkAndRotateCurrentSpan cfg ctx sk ms bs = Ok (ms', bs') -> bs' <> bs ->
  exists m cur v lastSpan params e,
    GetLastMilestone ms = Ok m /\ FindCurrentProducerID bs (u64 (mi_EndBlock m + 1)) = Ok cur /\
    GetChangeProducerThreshold cfg (BlockHeight ctx) < i64 (BlockHeight ctx - i64 (GetLastMilestoneBlock ms)) /\
    GetLastSpan bs = Ok lastSpan /\ FetchParams bs = Ok params /\
    rotated_end (span_EndBlock lastSpan) (mi_EndBlock m) (SpanDuration params) = Some e /\
    handed_over bs bs' n (u64 (mi_EndBlock m + 1)) e cur v /\
    (forall b, b < u64 (mi_EndBlock m + 1) -> FindCurrentProducerID bs' b = FindCurrentProducerID bs b) /\
    forall ctx2 (sk2 : K) bs2, height_ok ctx2 ->
      BlockHeight ctx2 <= BlockHeight ctx + GetSpanRotationBuffer cfg (BlockHeight ctx)
                          + GetChangeProducerThreshold cfg (BlockHeight ctx2) ->
      checkAndRotateCurrentSpan cfg ctx2 sk2 ms' bs2 = Ok (ms', bs2).
Proof.
  intros Hh Hc Hn H Hne. pose proof (debounce_height_eq cfg ctx Hh) as Hdb.
  pose proof (buffer_positive cfg (BlockHeight ctx)) as Hbuf.
  unfold checkAndRotateCurrentSpan in H. ok_step H. destruct a as [m|]; [|injection H as _ <-; done].
  assert (GetLastMilestone ms = Ok m) as Hm by (destruct (HasMilestone ms); [ok_inv Ha; congruence|done]).
  destruct (negb _ && _ && _) eqn:Eg; [|injection H as _ <-; done]. bool_hyps.
  destruct (rotate_current_ok cfg ctx sk ms bs n m ms' bs' Hc Hn H)
    as [[= _ ?]|(cur & v & last & params & e & J1 & J2 & J3 & J4 & J5 & J6 & J7 & ->)]; [done|].
  assert (GetLastMilestoneBlock ms <> 0) as Hnz.
  { intros E. rewrite E in *. cbn [Z.eqb] in *. unfold height_ok in Hh.
    rewrite (u64_id (BlockHeight ctx)) in * by (unfold in_u64, MaxUint64; lia).
    rewrite (i64_id (BlockHeight ctx)), Z.sub_diag in * by (unfold in_i64, MinInt64, MaxInt64; lia).
    change (i64 0) with 0 in *. unfold GetChangeProducerThreshold in *. destruct (_ <=? _); lia. }
  pose proof (proj2 (Z.eqb_neq (GetLastMilestoneBlock ms) 0) Hnz) as Ez.
  match goal with Hd : GetChangeProducerThreshold _ _ < _ |- _ => rewrite Ez in Hd end.
  assert (handed_over bs bs' n (u64 (mi_EndBlock m + 1)) e cur v) as Hho by done.
  exists m, cur, v, last, params, e. split_and!; try done.
  - intros b Hb. by eapply handed_over_before.
  - intros ctx2 sk2 bs2 Hh2 Hle. set (ms' := debouncePendingStallClock _ _ _ _).
    assert (GetLastMilestone ms' = GetLastMilestone ms /\ GetLastMilestoneBlock ms' = debounce_height cfg ctx) as [E1 E2].
    { subst ms'. unfold debouncePendingStallClock. destruct (negb _); [by split|].
      destruct (GetPendingBorBlockTracking _) as [[tb ti] th]. destruct (th =? 0); by split. }
    apply (no_early_rotation cfg ctx2 sk2 ms' bs2 (debounce_height cfg ctx) m); [done|congruence|done| |]; rewrite Hdb;
      unfold height_ok in *; lia.
Qed.

(** C27: a pending head is rotated on only after it stood still for longer than
    the threshold.  Then the new span starts right after the head, so no produced
    block is lost, reaches at least as far as the spans that exist, and goes to a
    producer that is neither the stalled one nor among those that failed; the same
    head is not rotated on again before the buffer and the threshold have passed,
    and a head that moves restarts the clock. *)
Theorem stalled_head_rotates {K : Type} {SK : StakeKeeperI K} (cfg : Config) (ctx : Ctx) (sk : K) {SP : StakePromise sk}
    (ms ms' : MilestoneState) (bs bs' : BorState) (n : nat) (agreedHead : Z) (agreedHash : bytes) :
  height_ok ctx -> span_chain bs n -> Z.of_nat n < MaxUint64 -> spans_elected bs -> 0 <= agreedHead ->
  (forall p, bor_Params bs = Some p -> in_u64 (SpanDuration p)) ->
  checkAndRotateOnPendingStall cfg ctx sk ms bs agreedHead agreedHash = Ok (ms', bs') -> bs' <> bs ->
  exists height lastSpan cur v e,
    GetPendingBorBlockTracking ms = (agreedHead, agreedHash, height) /\ height <> 0 /\
    GetBorStallThreshold cfg (BlockHeight ctx) < i64 (BlockHeight ctx - i64 height) /\
    GetLastSpan bs = Ok lastSpan /\ agreedHead <= span_EndBlock lastSpan <= e /\ agreedHead < e /\
    stalled_producer bs lastSpan agreedHead = Ok cur /\ (ValId v ∉ LatestFailedProducer bs) /\
    handed_over bs bs' n (agreedHead + 1) e cur v /\
    (forall b, b <= agreedHead -> FindCurrentProducerID bs' b = FindCurrentProducerID bs b) /\
    forall ctx2 (sk2 : K) bs2 head2 hash2, height_ok ctx2 ->
      BlockHeight ctx2 <= BlockHeight ctx + GetSpanRotationBuffer cfg (BlockHeight ctx)
                          + GetBorStallThreshold cfg (BlockHeight ctx2) ->
      exists ms2, checkAndRotateOnPendingStall cfg ctx2 sk2 ms' bs2 head2 hash2 = Ok (ms2, bs2).
Proof.
  intros Hh Hc Hn He Hhead Hdur H Hne. pose proof (debounce_height_eq cfg ctx Hh) as Hdb.
  pose proof (buffer_positive cfg (BlockHeight ctx)) as Hbuf.
  unfold checkAndRotateOnPendingStall in H. destruct (GetPendingBorBlockTracking ms) as [[b i] height] eqn:Et.
  destruct (_ || _)%bool eqn:Eo in H; [injection H as _ <-; done|]. bool_hyps. subst b i.
  destruct (_ <=? _) eqn:El in H; [injection H as _ <-; done|]. bool_hyps.
  destruct (rotate_pending_ok cfg ctx sk ms bs n agreedHead agreedHash ms' bs' Hc Hn H)
    as [[= _ ?]|(cur & v & last & params & e & J1 & J2 & J3 & J4 & J5 & J6 & J7 & J8 & J9 & J10 & ->)]; [done|].
  destruct (GetLastSpan_chain _ _ Hc) as (sp & El' & _ & Hsp). rewrite J1 in El'. injection El' as <-.
  destruct (He _ _ Hsp) as [_ Hend]. unfold in_u64 in Hend.
  assert (in_u64 (SpanDuration params)) as Hd.
  { apply Hdur. unfold FetchParams in J5. by apply of_option_ok in J5. }
  destruct (cover_spec agreedHead (span_EndBlock last) (SpanDuration params)) as (r & Er & Hr); [lia|lia|done|].
  rewrite J6 in Er. injection Er as <-. destruct (Hr e eq_refl) as [Hr1 Hr2].
  rewrite (u64_id (agreedHead + 1)) in J7 by (unfold in_u64; lia).
  assert (handed_over bs bs' n (agreedHead + 1) e cur v) as Hho by done.
  exists height, last, cur, v, e. split_and!; try done; try lia.
  - intros b Hb. eapply handed_over_before; [exact Hho|lia].
  - intros ctx2 sk2 bs2 head2 hash2 Hh2 Hle. unfold checkAndRotateOnPendingStall.
    cbn [GetPendingBorBlockTracking SetPendingBorBlockTracking item_or lastPendingBorBlock lastPendingBorBlockId lastPendingBorBlockHeight].
    destruct (_ || _)%bool; [eauto|]. rewrite Hdb. unfold height_ok in *.
    rewrite (i64_id (_ + _)) by (unfold in_i64, MinInt64, MaxInt64; lia).
    rewrite i64_id by (unfold in_i64, MinInt64, MaxInt64; lia).
    destruct (Z.leb_spec (BlockHeight ctx2 - (BlockHeight ctx + GetSpanRotationBuffer cfg (BlockHeight ctx)))
                (GetBorStallThreshold cfg (BlockHeight ctx2))); [eauto|lia].
Qed.

(** ** Witnesses *)

Module RotationDemo.
Import BorDemo BorCorrectDemo.

(** The milestones end at block 200 of the first span, found at height 80; nothing
    since.  The pending head is block 230 since height 85. *)
Definition demo_milestone : MilestoneRecord :=
  {| mi_Proposer := "0xaa"; mi_StartBlock := 190; mi_EndBlock := 200; mi_Hash := [Byte.x01]; mi_BorChainId := "137";
     mi_MilestoneId := ""; mi_Timestamp := 0; mi_TotalDifficulty := 0 |}.
Definition demo_ms : MilestoneState :=
  {| milestone := {[1 := demo_milestone]}; milestone_params := None; milestone_count := Some 1;
     lastMilestoneBlock := Some 80; lastPendingBorBlock := Some 230; lastPendingBorBlockId := Some [Byte.x02];
     lastPendingBorBlockHeight := Some 85 |}.
Definition rotation_config : Config :=
  {| rioHeight := 100; tallyFixHeight := 0; disableVPCheckHeight := 0; disableValSetCheckHeight := 0;
     initialHeight := 1; producerDowntimeHeight := 1; phuketHardforkHeight := 1;
     feeWithdrawValidatorGateHeight := 1; zurichHardforkHeight := 1; ithacaHeight := 1;
     fallbackProducerVotes := [1; 2] |}.

Lemma demo_elected : spans_elected demo_bor.
Proof.
  intros i sp H. unfold demo_bor in H. cbn [spans] in H. apply lookup_singleton_Some in H as [_ <-].
  split; [discriminate|vm_compute; split; discriminate].
Qed.
Lemma demo_height : height_ok demo_ctx.
Proof. unfold height_ok. cbn. lia. Qed.
Lemma demo_duration p : bor_Params demo_bor = Some p -> in_u64 (SpanDuration p).
Proof. intros [= <-]. vm_compute. split; discriminate. Qed.

Lemma span_rotation_terminates_witness :
  checkAndRotateCurrentSpan rotation_config demo_ctx demo_stake demo_ms demo_bor <> Panic /\
  checkAndRotateOnPendingStall rotation_config demo_ctx demo_stake demo_ms demo_bor MaxUint64 [] <> Panic.
Proof.
  destruct (span_rotation_terminates rotation_config demo_ctx demo_stake demo_ms demo_bor 0 DefaultParams first_span) as [H1 H2].
  - exact demo_chain.
  - exact demo_elected.
  - reflexivity.
  - reflexivity.
  - vm_compute. split; discriminate.
  - split.
    + apply (H1 demo_milestone); [reflexivity|reflexivity|cbn; lia|vm_compute; discriminate].
    + apply H2. vm_compute. discriminate.
Defined.

Lemma stalled_milestones_rotate_witness : exists ms' bs',
  checkAndRotateCurrentSpan rotation_config demo_ctx demo_stake demo_ms demo_bor = Ok (ms', bs') /\
  FindCurrentProducerID bs' 200 = Ok 1 /\
  checkAndRotateCurrentSpan rotation_config {| BlockHeight := 120; BlockTime := 5100 |} demo_stake ms' bs' = Ok (ms', bs').
Proof.
  destruct (checkAndRotateCurrentSpan rotation_config demo_ctx demo_stake demo_ms demo_bor) as [[ms' bs']| |] eqn:E;
    [|vm_compute in E; discriminate..].
  destruct (stalled_milestones_rotate rotation_config demo_ctx demo_stake demo_ms ms' demo_bor bs' 0 demo_height demo_chain)
    as (m & cur & v & last & params & e & Hm & _ & _ & _ & _ & _ & _ & Hb & Hd).
  - reflexivity.
  - exact E.
  - intros ->. vm_compute in E. discriminate E.
  - exists ms', bs'. split; [reflexivity|]. split.
    + injection Hm as <-. rewrite Hb; [vm_compute; reflexivity|vm_compute; reflexivity].
    + apply Hd; [unfold height_ok; cbn; lia|vm_compute; discriminate].
Defined.

Lemma stalled_head_rotates_witness : exists ms' bs',
  checkAndRotateOnPendingStall rotation_config demo_ctx demo_stake demo_ms demo_bor 230 [Byte.x02] = Ok (ms', bs') /\
  FindCurrentProducerID bs' 230 = Ok 1 /\ FindCurrentProducerID bs' 231 <> Ok 1.
Proof.
  destruct (checkAndRotateOnPendingStall rotation_config demo_ctx demo_stake demo_ms demo_bor 230 [Byte.x02])
    as [[ms' bs']| |] eqn:E; [|vm_compute in E; discriminate..].
  destruct (stalled_head_rotates rotation_config demo_ctx demo_stake demo_ms ms' demo_bor bs' 0 230 [Byte.x02] demo_height demo_chain)
    as (h & last & cur & v & e & _ & _ & _ & Hl & _ & He & Hcur & _ & [Hs Hv _] & Hb & _).
  - reflexivity.
  - exact demo_elected.
  - lia.
  - exact demo_duration.
  - exact E.
  - intros ->. vm_compute in E. discriminate E.
  - exists ms', bs'. split; [reflexivity|]. split; [rewrite Hb; [vm_compute; reflexivity|lia]|].
    rewrite (as_inside _ _ _ _ _ _ Hs) by lia. injection Hl as <-. vm_compute in Hcur. injection Hcur as <-.
    intros [= Hv']. by apply Hv.
Defined.
End RotationDemo.
