(* ===== verification/ChainManager.v ===== *)
(** * The parameters of the main chain

    Models [x/chainmanager]: the parameters (confirmations, chain ids and the addresses of
    the contracts), the message that replaces them, the migration of the addresses at a
    height, the query and genesis.  The other modules read the fields of
    [External.ChainManagerParams], to which [used] projects. *)
From S2P Require Import Prelude Helpers External StakeHandlers.
#[local] Open Scope Z_scope.

Record ChainParams := {
  cn_BorChainId : string; HeimdallChainId : string; PolTokenAddress : string; StakingManagerAddress : string;
  SlashManagerAddress : string; cn_RootChainAddress : string; cn_StakingInfoAddress : string; cn_StateSenderAddress : string;
  StateReceiverAddress : string; ValidatorSetAddress : string;
}.
Record CMParams := { ChainParams_of : ChainParams; cm_MainChainTxConfirmations : Z; cm_BorChainTxConfirmations : Z }.

Definition used (p : CMParams) : ChainManagerParams :=
  let c := ChainParams_of p in
  {| MainChainTxConfirmations := cm_MainChainTxConfirmations p; BorChainTxConfirmations := cm_BorChainTxConfirmations p;
     BorChainId := cn_BorChainId c; StakingInfoAddress := cn_StakingInfoAddress c;
     StateSenderAddress := cn_StateSenderAddress c; RootChainAddress := cn_RootChainAddress c |}.

Definition DefaultChainManagerParams : CMParams :=
  {| ChainParams_of :=
       {| cn_BorChainId := "15001"; HeimdallChainId := "heimdall-15001"; PolTokenAddress := ""; StakingManagerAddress := "";
          SlashManagerAddress := ""; cn_RootChainAddress := ""; cn_StakingInfoAddress := ""; cn_StateSenderAddress := "";
          StateReceiverAddress := "0x0000000000000000000000000000000000001001";
          ValidatorSetAddress := "0x0000000000000000000000000000000000001000" |};
     cm_MainChainTxConfirmations := 6; cm_BorChainTxConfirmations := 10 |}.

(** [common.IsHexAddress] *)
Class HexAddresses := { IsHexAddress : string -> bool }.

(** The addresses a migration replaces, and the migrations of a chain by height. *)
Record ChainManagerAddressMigration := {
  mg_PolTokenAddress : string; mg_RootChainAddress : string; mg_StakingManagerAddress : string;
  mg_SlashManagerAddress : string; mg_StakingInfoAddress : string; mg_StateSenderAddress : string;
}.
Definition chainManagerAddressMigrations : gmap string (gmap Z ChainManagerAddressMigration) :=
  {[ "mainnet" := ∅; "mumbai" := ∅; "amoy" := ∅; "default" := ∅ ]}.
Definition GetChainManagerAddressMigration (chain : string) (blockNum : Z) : option ChainManagerAddressMigration :=
  let migrations :=
    match chainManagerAddressMigrations !! chain with
    | Some m => Some m
    | None => chainManagerAddressMigrations !! "default"%string
    end in
  m ← migrations; m !! blockNum.

(** ** Keeper *)

Definition GetParams (s : option CMParams) : outcome CMParams := of_option ErrNotFound s.

Section params.
Context {HA : HexAddresses}.

Definition validateHeimdallAddress (value : string) : outcome unit :=
  return_if negb (IsHexAddress value) with ErrText "invalid address in chain_params" ;; Ok tt.
Definition ValidateBasic_CMParams (p : CMParams) : outcome unit :=
  let c := ChainParams_of p in
  validateHeimdallAddress (PolTokenAddress c) ≫= fun _ =>
  validateHeimdallAddress (StakingManagerAddress c) ≫= fun _ =>
  validateHeimdallAddress (SlashManagerAddress c) ≫= fun _ =>
  validateHeimdallAddress (cn_RootChainAddress c) ≫= fun _ =>
  validateHeimdallAddress (cn_StakingInfoAddress c) ≫= fun _ =>
  validateHeimdallAddress (cn_StateSenderAddress c) ≫= fun _ =>
  validateHeimdallAddress (StateReceiverAddress c) ≫= fun _ =>
  validateHeimdallAddress (ValidatorSetAddress c).

Definition UpdateChainParams (authority msgAuthority : string) (p : CMParams) : outcome CMParams :=
  return_if negb (String.eqb authority msgAuthority) with ErrText "invalid authority" ;;
  or_err (ValidateBasic_CMParams p) (ErrText "invalid chainmanager params") ≫= fun _ => Ok p.
End params.

(** The end blocker of the module; neither the module nor the application registers it. *)
Definition migrated (p : CMParams) (m : ChainManagerAddressMigration) : CMParams :=
  let c := ChainParams_of p in
  {| ChainParams_of :=
       {| cn_BorChainId := cn_BorChainId c; HeimdallChainId := HeimdallChainId c; PolTokenAddress := mg_PolTokenAddress m;
          StakingManagerAddress := mg_StakingManagerAddress m; SlashManagerAddress := mg_SlashManagerAddress m;
          cn_RootChainAddress := mg_RootChainAddress m; cn_StakingInfoAddress := mg_StakingInfoAddress m;
          cn_StateSenderAddress := mg_StateSenderAddress m; StateReceiverAddress := StateReceiverAddress c;
          ValidatorSetAddress := ValidatorSetAddress c |};
     cm_MainChainTxConfirmations := cm_MainChainTxConfirmations p; cm_BorChainTxConfirmations := cm_BorChainTxConfirmations p |}.
Definition EndBlocker_chainmanager (chain : string) (height : Z) (s : option CMParams) : outcome (option CMParams) :=
  match GetChainManagerAddressMigration chain height with
  | Some m => params ← GetParams s; Ok (Some (migrated params m))
  | None => Ok s
  end.

(** ** Genesis and query *)

Definition InitGenesis_chainmanager (data : CMParams) : option CMParams := Some data.
Definition ExportGenesis_chainmanager (s : option CMParams) : outcome CMParams :=
  match GetParams s with Ok p => Ok p | _ => Panic end.
Definition GetChainManagerParams (s : option CMParams) : outcome CMParams := or_err (GetParams s) (ErrText "internal").

(** No chain has a migration, so the end blocker would change nothing. *)
Lemma no_migrations chain height s : EndBlocker_chainmanager chain height s = Ok s.
Proof.
  unfold EndBlocker_chainmanager, GetChainManagerAddressMigration, chainManagerAddressMigrations.
  assert (forall c (m : gmap Z ChainManagerAddressMigration),
    ({[ "mainnet" := ∅; "mumbai" := ∅; "amoy" := ∅; "default" := ∅ ]} : gmap string (gmap Z ChainManagerAddressMigration)) !! c = Some m ->
    m = ∅) as He.
  { intros c m. rewrite !lookup_insert_Some, lookup_singleton_Some. naive_solver. }
  destruct (_ !! chain) as [m|] eqn:E; cbn.
  - apply He in E as ->. by rewrite lookup_empty.
  - destruct (_ !! "default"%string) as [m|] eqn:E'; cbn; [|done]. apply He in E' as ->. by rewrite lookup_empty.
Qed.
