(* ===== verification/App.v ===== *)
(** * The application: its state, its transactions and the handlers of its messages

    The stores of the modules side by side, the messages a transaction can hold
    ([sidetxs/]), the side and post-handler of each message, the limits on what a
    proposal may contain, and the validator set the votes of a height are counted
    with ([app/abci.go], [app/vote_ext_utils.go]).  Encodings of transactions are
    generated code and a parameter. *)
From S2P Require Import Prelude SortedList Helpers External VoteTypes ValidatorSet StakeKeeper StakeHandlers Milestone MilestoneVotes VoteExt Numerals Dividend Topup Clerk Checkpoint CheckpointHandlers NonRp BorTypes Selection BorKeeper BorHandlers ChainManager.
#[local] Open Scope Z_scope.

(** ** State *)

Record AppState (B : Type) := {
  app_milestone : MilestoneState; app_bor : BorState; app_stake : StakeState; app_checkpoint : CheckpointState;
  app_clerk : ClerkState; app_topup : TopupState; app_bank : B;
  app_chain_params : option ChainManagerParams;
  app_block_proposer : option bytes;     (* the account keeper's block proposer *)
}.
Arguments app_milestone {B}. Arguments app_bor {B}. Arguments app_stake {B}. Arguments app_checkpoint {B}.
Arguments app_clerk {B}. Arguments app_topup {B}. Arguments app_bank {B}. Arguments app_chain_params {B}.
Arguments app_block_proposer {B}.

Section stores.
Context {B : Type}.
Implicit Types s : AppState B.

Definition with_spans s (ms : MilestoneState) (bs : BorState) : AppState B :=
  {| app_milestone := ms; app_bor := bs; app_stake := app_stake s; app_checkpoint := app_checkpoint s;
     app_clerk := app_clerk s; app_topup := app_topup s; app_bank := app_bank s;
     app_chain_params := app_chain_params s; app_block_proposer := app_block_proposer s |}.
Definition with_stake s (ss : StakeState) (bank : B) : AppState B :=
  {| app_milestone := app_milestone s; app_bor := app_bor s; app_stake := ss; app_checkpoint := app_checkpoint s;
     app_clerk := app_clerk s; app_topup := app_topup s; app_bank := bank;
     app_chain_params := app_chain_params s; app_block_proposer := app_block_proposer s |}.
Definition with_checkpoint s (cs : CheckpointState) (ss : StakeState) : AppState B :=
  {| app_milestone := app_milestone s; app_bor := app_bor s; app_stake := ss; app_checkpoint := cs;
     app_clerk := app_clerk s; app_topup := app_topup s; app_bank := app_bank s;
     app_chain_params := app_chain_params s; app_block_proposer := app_block_proposer s |}.
Definition with_clerk s (ks : ClerkState) : AppState B :=
  {| app_milestone := app_milestone s; app_bor := app_bor s; app_stake := app_stake s; app_checkpoint := app_checkpoint s;
     app_clerk := ks; app_topup := app_topup s; app_bank := app_bank s;
     app_chain_params := app_chain_params s; app_block_proposer := app_block_proposer s |}.
Definition with_topup s (ts : TopupState) (bank : B) : AppState B :=
  {| app_milestone := app_milestone s; app_bor := app_bor s; app_stake := app_stake s; app_checkpoint := app_checkpoint s;
     app_clerk := app_clerk s; app_topup := ts; app_bank := bank;
     app_chain_params := app_chain_params s; app_block_proposer := app_block_proposer s |}.
Definition SetBlockProposer s (account : bytes) : AppState B :=
  {| app_milestone := app_milestone s; app_bor := app_bor s; app_stake := app_stake s; app_checkpoint := app_checkpoint s;
     app_clerk := app_clerk s; app_topup := app_topup s; app_bank := app_bank s;
     app_chain_params := app_chain_params s; app_block_proposer := Some account |}.

(** The stake keeper as the bor module sees it, and the last milestone. *)
Definition stake_of s : StakeState * Z := (app_stake s, GetAckCount (app_checkpoint s)).
Definition last_milestone_end s : LastMilestoneEnd :=
  m ← GetLastMilestone (app_milestone s); Ok (Some (mi_EndBlock m)).
End stores.

(** ** Messages and transactions

    [AParams]: new parameters of a module, by the governance; [AOther]: a message of a
    module of the SDK.  No handler of the pre-blocker treats these. *)
Inductive ParamsMsg :=
| PBor (authority : string) (p : BorParams)
| PCheckpoint (authority : string) (p : CheckpointParams)
| PMilestone (authority : string) (p : MilestoneParams)
| PChainManager (authority : string) (p : CMParams).
Inductive AppMsg :=
| AStake (m : StakeMsg)
| ACheckpoint (m : CheckpointMsg)
| ABor (m : BorMsg)
| AVoteProducers (m : MsgVoteProducers)
| AClerk (m : MsgEventRecord)
| ATopup (m : MsgTopupTx)
| ACpNoAck (m : MsgCpNoAck)
| AWithdrawFee (m : MsgWithdrawFeeTx)
| AParams (m : ParamsMsg)
| AOther.

(** The encodings: a transaction decodes to its messages; the votes and the round
    of a commit are the first transaction of a block; [tx_hash] is the hash of the
    consensus engine and [proto_size] the size of a transaction in a block. *)
Class TxLibrary := {
  TxDecode : bytes -> option (list AppMsg);
  tx_hash : bytes -> bytes;
  proto_size : bytes -> Z;
  unmarshal_commit : bytes -> option (list ExtendedVoteInfo * Z);
  marshal_commit : list ExtendedVoteInfo * Z -> option bytes;
}.

(** [GetSideHandler(msg) != nil]: the messages the modules register. *)
Definition has_side_handler (m : AppMsg) : bool :=
  match m with AVoteProducers _ | ACpNoAck _ | AWithdrawFee _ | AParams _ | AOther => false | _ => true end.
Definition CountSideHandlers (tx : list AppMsg) : nat := length (List.filter has_side_handler tx).
(** [AnteHandle] of the [SideTxDecorator], before the next decorator. *)
Definition AnteHandle (tx : list AppMsg) : outcome unit :=
  return_if (1 <? CountSideHandlers tx)%nat with ErrText "multiple messages in a single side transaction" ;; Ok tt.
Definition IsCheckpointMsg (m : AppMsg) : bool :=
  match m with ACheckpoint (MCheckpoint _) => true | _ => false end.

(** What a proposal may contain of the messages of the bor module. *)
Definition can_propose (cfg : Config) (ctx : Ctx) (bs : BorState) (m : AppMsg) : outcome unit :=
  match m with
  | AVoteProducers _ => CanVoteProducers cfg bs
  | ABor (MSetProducerDowntime d) =>
      CanSetProducerDowntime cfg ctx ≫= fun _ =>
      if negb (pd_TargetProducerId d =? RoundRobinDefault) then CanUseTargetProducer cfg ctx else Ok tt
  | _ => Ok tt
  end.
Fixpoint can_propose_all (cfg : Config) (ctx : Ctx) (bs : BorState) (l : list AppMsg) : outcome unit :=
  match l with
  | [] => Ok tt
  | m :: rest => can_propose cfg ctx bs m ≫= fun _ => can_propose_all cfg ctx bs rest
  end.

(** ** The validator set of a height *)

Definition nonempty_set (validatorSet : ValidatorSet) (e : error) : outcome ValidatorSet :=
  return_if (length (Validators validatorSet) =? 0)%nat with e ;; Ok validatorSet.
Definition getPreviousBlockValidatorSet (ss : StakeState) : outcome ValidatorSet :=
  validatorSet ← GetPreviousBlockValidatorSet ss;
  nonempty_set validatorSet (ErrText "no validators found in validator set").
Definition getPenultimateBlockValidatorSet (ss : StakeState) : outcome ValidatorSet :=
  validatorSet ← GetPenultimateBlockValidatorSet ss;
  nonempty_set validatorSet (ErrText "no validators found in validator set from 2 blocks ago").
Definition getValidatorSetForHeight (cfg : Config) (ss : StakeState) (height : Z) : outcome ValidatorSet :=
  if (tallyFixHeight cfg <=? height) && (i64 (initialHeight cfg + 2) <=? height)
  then getPenultimateBlockValidatorSet ss else getPreviousBlockValidatorSet ss.

(** ** The checkpoint transaction of an extension *)

Section checkpoint.
Context {AC : AddressCodec} {TL : TxLibrary}.

(** Whether a message of the list signs exactly these bytes. *)
Fixpoint signs_extension (extension : bytes) (l : list AppMsg) : outcome bool :=
  match l with
  | [] => Ok false
  | ACheckpoint (MCheckpoint m) :: rest =>
      signBytes ← GetSideSignBytes m;
      if bool_decide (signBytes = extension) then Ok true else signs_extension extension rest
  | _ :: rest => signs_extension extension rest
  end.
Fixpoint findCheckpointTx (txs : list bytes) (extension : bytes) : outcome string :=
  match txs with
  | [] => Ok EmptyString
  | rawTx :: rest =>
      match TxDecode rawTx with
      | None => findCheckpointTx rest extension
      | Some msgs =>
          signs_extension extension msgs ≫= fun found : bool =>
          if found then Ok (Bytes2Hex (tx_hash rawTx)) else findCheckpointTx rest extension
      end
  end.
End checkpoint.

(** ** The handlers of a message

    What a handler finds outside of the state: the times at which the caches of
    the checkpoint types are read and their contents, the nanoseconds of the block
    time, and the turns granted to the searches of the bor module. *)
Record Env := { env_clock : nat -> Z; env_caches : CheckpointCaches; env_nanos : Z; env_fuel : nat }.

Section side.
Context {AC : AddressCodec} {SA : SdkAddress} {EA : EthAddress} {HF : HashFunction} {ML : MerkleLibrary}.
Context {RS : ReceiptSource} {SE : StakeEvents} {CE : ClerkEvents} {TE : TopupEvents}.
Context {BC : BorChain} {BN : BorNode} {RC : RootChain}.
Context {B : Type} {FB : FeeBank B} (cfg : Config).

(** [GetSideHandler(msg)] applied to the message. *)
Definition side_handler (ctx : Ctx) (env : Env) (s : AppState B) (m : AppMsg) : option (outcome Vote) :=
  match m with
  | AStake m => Some (StakeHandlers.SideTxHandler (app_stake s) (app_chain_params s) m)
  | ACheckpoint m => Some (CheckpointHandlers.SideTxHandler (env_clock env) (env_caches env)
      (GetAllDividendAccounts (app_topup s)) (app_chain_params s) (app_stake s) (app_checkpoint s) m)
  | ABor m => Some (BorHandlers.SideTxHandler cfg (env_fuel env) ctx (app_chain_params s) (last_milestone_end s)
      (stake_of s) (app_bor s) m)
  | AClerk m => Some (SideHandleMsgEventRecord (app_chain_params s) (app_clerk s) m)
  | ATopup m => Some (SideHandleTopupTx (app_chain_params s) (app_bank s) (app_topup s) m)
  | AVoteProducers _ | ACpNoAck _ | AWithdrawFee _ | AParams _ | AOther => None
  end.
End side.

Section post.
Context {AC : AddressCodec} {SA : SdkAddress} {EA : EthAddress} {RSrc : RandSource}.
Context {B : Type} {BK : BankKeeper B} {FB : FeeBank B} (cfg : Config).

(** [GetPostHandler(msg)] applied to the message and the vote. *)
Definition post_handler (ctx : Ctx) (env : Env) (s : AppState B) (m : AppMsg) (v : Vote) : option (outcome (AppState B)) :=
  match m with
  | AStake m => Some (
      '(ss, bank) ← StakeHandlers.PostTxHandler cfg ctx (GetAckCount (app_checkpoint s)) (app_stake s, app_bank s) m v;
      Ok (with_stake s ss bank))
  | ACheckpoint m => Some (
      '(cs, ss) ← CheckpointHandlers.PostTxHandler ctx (app_checkpoint s, app_stake s) m v;
      Ok (with_checkpoint s cs ss))
  | ABor m => Some (
      bs ← BorHandlers.PostTxHandler cfg (env_fuel env) ctx (last_milestone_end s) (stake_of s) (app_bor s) m v;
      Ok (with_spans s (app_milestone s) bs))
  | AClerk m => Some (
      ks ← PostHandleMsgEventRecord cfg ctx (env_nanos env) (app_clerk s) m v; Ok (with_clerk s ks))
  | ATopup m => Some (
      '(ts, bank) ← PostHandleTopupTx (app_bank s) (app_topup s) m v; Ok (with_topup s ts bank))
  | AVoteProducers _ | ACpNoAck _ | AWithdrawFee _ | AParams _ | AOther => None
  end.
End post.
