(* ===== verification/Proposal.v ===== *)
(** * Block proposals

    Models [NewPrepareProposalHandler] and [NewProcessProposalHandler]
    ([app/abci.go]): the proposer filters the votes of the previous height, puts
    them first in the block and adds the transactions that fit; the other
    validators check the votes and every transaction.  The execution of a
    transaction against the check state is the framework's and a parameter. *)
From S2P Require Import Prelude SortedList Helpers External VoteTypes ValidatorSet StakeKeeper StakeHandlers Milestone MilestoneVotes VoteExt Checkpoint CheckpointHandlers NonRp BorTypes BorKeeper BorHandlers App.
#[local] Open Scope Z_scope.

(** [PrepareProposalVerifyTx] and [ProcessProposalVerifyTx]: a transaction that
    passes changes the state of the proposal, one that fails does not. *)
Class TxRunner (R : Type) := {
  PrepareProposalVerifyTx : R -> bytes -> outcome R;
  ProcessProposalVerifyTx : R -> bytes -> outcome R;
}.

Record PrepareRequest := {
  pp_Height : Z; pp_Votes : list ExtendedVoteInfo; pp_Round : Z; pp_MaxTxBytes : Z; pp_Txs : list bytes;
}.
Record ProcessRequest := { rp_Height : Z; rp_Txs : list bytes; rp_CommitVotes : list VoteInfo; rp_Round : Z }.

Section proposals.
Context {AC : AddressCodec} {VC : VoteCodec} {CL : ConsensusLayer} {HF : HashFunction} {BN : BorNode} {TL : TxLibrary}.
Context {B R : Type} {TR : TxRunner R} (cfg : Config).

(** ** The proposer *)

(** The loop over the transactions of the request.  [time_left i]: the budget is not
    exhausted before the transaction at [i]. *)
Fixpoint include_txs (time_left : nat -> bool) (ctx : Ctx) (bs : BorState) (height maxTxBytes : Z) (i : nat) (run : R)
    (totalTxBytes : Z) (sideTxsCount : nat) (txs : list bytes) : outcome (list bytes) :=
  match txs with
  | [] => Ok []
  | proposedTx :: rest =>
      let skip (_ : unit) := include_txs time_left ctx bs height maxTxBytes (S i) run totalTxBytes sideTxsCount rest in
      let proposedTxBytes := proto_size proposedTx in
      if negb (time_left i) then Ok []
      else if maxTxBytes <? i64 (totalTxBytes + proposedTxBytes) then skip tt
      else
        msgs ← of_option (ErrText "error occurred while decoding tx bytes") (TxDecode proposedTx);
        let sideHandlersCount := CountSideHandlers msgs in
        if (1 <? sideHandlersCount)%nat then skip tt
        else if IsZurichHardfork cfg height && (sideHandlersCount =? 1)%nat
                && (maxSideTxResponsesCount <=? sideTxsCount)%nat then skip tt
        else
          match can_propose_all cfg ctx bs msgs with
          | Panic => Panic
          | Err _ => skip tt
          | Ok _ =>
              match PrepareProposalVerifyTx run proposedTx with
              | Panic => Panic
              | Err _ => skip tt
              | Ok run =>
                  txs ← include_txs time_left ctx bs height maxTxBytes (S i) run (i64 (totalTxBytes + proposedTxBytes))
                    (if (sideHandlersCount =? 1)%nat then S sideTxsCount else sideTxsCount) rest;
                  Ok (proposedTx :: txs)
              end
          end
  end.

(** [NewPrepareProposalHandler]: an extension without replay protection that does
    not pass is only logged. *)
Definition PrepareProposal (iteration_order : gmap string Z -> list (string * Z)) (clock : nat -> Z)
    (caches : CheckpointCaches) (time_left : nat -> bool) (ctx : Ctx) (ch : ChainInfo) (s : AppState B) (run : R)
    (req : PrepareRequest) : outcome (list bytes) :=
  validatorSet ← getValidatorSetForHeight cfg (app_stake s) (pp_Height req);
  votes ← filterVoteExtensions cfg iteration_order ctx ch (app_milestone s) (pp_Height req) (pp_Votes req)
            (pp_Round req) validatorSet (pp_MaxTxBytes req);
  match ValidateNonRpVoteExtensions cfg clock caches ctx ch (app_chain_params s) (app_checkpoint s) (pp_Height req)
          votes validatorSet with
  | Panic => Panic
  | _ =>
      bz ← of_option (ErrText "error occurred while marshaling the LocalLastCommit") (marshal_commit (votes, pp_Round req));
      txs ← include_txs time_left ctx (app_bor s) (pp_Height req) (pp_MaxTxBytes req) 0 run (proto_size bz) 0 (pp_Txs req);
      return_if (length (bz :: txs) <? 1)%nat with ErrText "less than 1 txs proposed" ;;
      Ok (bz :: txs)
  end.

(** ** The other validators

    [false]: the proposal is rejected. *)

(** Whether a transaction holds a checkpoint; [None] when one before does not decode. *)
Fixpoint has_checkpoint_tx (txs : list bytes) : option bool :=
  match txs with
  | [] => Some false
  | tx :: rest =>
      match TxDecode tx with
      | None => None
      | Some msgs => if existsb IsCheckpointMsg msgs then Some true else has_checkpoint_tx rest
      end
  end.
(** A validator that cannot ask its Bor node does not reject, from Zurich on. *)
Definition tolerate_bor_error (height : Z) (e : error) : bool :=
  IsZurichHardfork cfg height && (bool_decide (e = ErrFailedToQueryBor) || bool_decide (e = ErrBorBlockNotFound)).
(** The decision on extensions without replay protection that did not pass. *)
Definition accept_nonrp_error (height : Z) (e : error) (txs : list bytes) : bool :=
  match has_checkpoint_tx txs with
  | None => false
  | Some hasCheckpointTx => negb (IsPhuketHardfork cfg height && hasCheckpointTx && negb (tolerate_bor_error height e))
  end.

Fixpoint accept_txs (ctx : Ctx) (bs : BorState) (height : Z) (run : R) (sideTxsCount : nat) (txs : list bytes)
    : outcome bool :=
  match txs with
  | [] => Ok true
  | tx :: rest =>
      match TxDecode tx with
      | None => Ok false
      | Some msgs =>
          let sideHandlersCount := CountSideHandlers msgs in
          if (1 <? sideHandlersCount)%nat then Ok false
          else
            let sideTxsCount := if (sideHandlersCount =? 1)%nat then S sideTxsCount else sideTxsCount in
            if IsZurichHardfork cfg height && (maxSideTxResponsesCount <? sideTxsCount)%nat then Ok false
            else
              match can_propose_all cfg ctx bs msgs with
              | Panic => Panic
              | Err _ => Ok false
              | Ok _ =>
                  match ProcessProposalVerifyTx run tx with
                  | Panic => Panic
                  | Err _ => Ok false
                  | Ok run => accept_txs ctx bs height run sideTxsCount rest
                  end
              end
      end
  end.

(** A check that fails rejects. *)
Definition or_reject {A} (m : outcome A) (k : A -> outcome bool) : outcome bool :=
  match m with Ok a => k a | Err _ => Ok false | Panic => Panic end.

Definition ProcessProposal (clock : nat -> Z) (caches : CheckpointCaches) (ctx : Ctx) (ch : ChainInfo) (s : AppState B)
    (run : R) (req : ProcessRequest) : outcome bool :=
  validatorSet ← getValidatorSetForHeight cfg (app_stake s) (rp_Height req);
  match rp_Txs req with
  | [] => Ok false
  | extendedCommitTx :: txs =>
      match unmarshal_commit extendedCommitTx with
      | None => Ok false
      | Some (votes, round) =>
          if negb (round =? rp_Round req) then Ok false
          else
            or_reject (if IsPhuketHardfork cfg (rp_Height req)
                       then ValidateVoteExtensionsCompleteness (rp_CommitVotes req) votes else Ok tt) (fun _ =>
            or_reject (ValidateVoteExtensions cfg ctx ch (app_milestone s) (rp_Height req) votes (rp_Round req) validatorSet)
              (fun _ =>
            match ValidateNonRpVoteExtensions cfg clock caches ctx ch (app_chain_params s) (app_checkpoint s)
                    (rp_Height req) votes validatorSet with
            | Panic => Panic
            | Err e => if accept_nonrp_error (rp_Height req) e txs
                       then accept_txs ctx (app_bor s) (rp_Height req) run 0 txs else Ok false
            | Ok _ => accept_txs ctx (app_bor s) (rp_Height req) run 0 txs
            end))
      end
  end.
End proposals.
