(* ===== verification/ProposalCorrect.v ===== *)
(** * Correctness of the proposals

    When the others accept what an honest proposer puts in a block; it stays within
    the limits. *)
From S2P Require Import Prelude SortedList Helpers External ValidatorSet ValidatorSetFacts VoteTypes StakeKeeper StakeHandlers Milestone MilestoneVotes MilestoneCollect VoteExt VoteExtCorrect Topup Clerk Checkpoint CheckpointHandlers NonRp NonRpCorrect BorTypes BorKeeper BorHandlers App Proposal.
#[local] Open Scope Z_scope.

Section proposals.
Context {AC : AddressCodec} {VC : VoteCodec} {CL : ConsensusLayer} {HF : HashFunction} {BN : BorNode} {TL : TxLibrary}.
Context {B R : Type} {TR : TxRunner R} (cfg : Config).

(** ** One turn of the proposer's loop *)

(** Why a transaction is included. *)
Record included (ctx : Ctx) (bs : BorState) (height maxTxBytes : Z) (run : R) (total : Z) (n : nat) (tx : bytes)
    (msgs : list AppMsg) (run' : R) : Prop := {
  in_fits : i64 (total + proto_size tx) <= maxTxBytes;
  in_decodes : TxDecode tx = Some msgs;
  in_single : (CountSideHandlers msgs <= 1)%nat;
  in_count : IsZurichHardfork cfg height = true -> CountSideHandlers msgs = 1%nat -> (n < maxSideTxResponsesCount)%nat;
  in_allowed : can_propose_all cfg ctx bs msgs = Ok tt;
  in_runs : PrepareProposalVerifyTx run tx = Ok run';
}.
Definition count_with (msgs : list AppMsg) (n : nat) : nat := if (CountSideHandlers msgs =? 1)%nat then S n else n.

Lemma include_step time_left ctx bs h mx i run total n tx rest out :
  include_txs cfg time_left ctx bs h mx i run total n (tx :: rest) = Ok out ->
  out = [] \/ include_txs cfg time_left ctx bs h mx (S i) run total n rest = Ok out \/
  exists msgs run' out', included ctx bs h mx run total n tx msgs run' /\ out = tx :: out' /\
    include_txs cfg time_left ctx bs h mx (S i) run' (i64 (total + proto_size tx)) (count_with msgs n) rest = Ok out'.
Proof.
  cbn [include_txs]. destruct (negb (time_left i)); [intros [= <-]; by left|].
  destruct (mx <? i64 (total + proto_size tx)) eqn:Hf; [intros E; right; left; exact E|]. intros E. ok_step E. apply of_option_ok in Ha. rename a into msgs.
  destruct (1 <? CountSideHandlers msgs)%nat eqn:H1; [right; left; exact E|].
  destruct (IsZurichHardfork cfg h && _ && _) eqn:HZ; [right; left; exact E|].
  destruct (can_propose_all cfg ctx bs msgs) as [[]| |] eqn:Hc; [|right; left; exact E|done].
  destruct (PrepareProposalVerifyTx run tx) as [run'| |] eqn:Hr; [|right; left; exact E|done].
  ok_step E. injection E as <-. right. right. exists msgs, run', a. split; [|done]. bool_hyps. apply Nat.ltb_ge in H1.
  split; try done. intros Hz Hn. rewrite Hz, Hn, Nat.eqb_refl, !andb_true_l in HZ. by apply Nat.leb_gt.
Qed.

(** Induction over the loop: a property of the answer that holds of no transaction
    and is kept by including one. *)
Lemma include_ind time_left ctx bs h mx (P : R -> Z -> nat -> list bytes -> Prop) :
  (forall run total n, P run total n []) ->
  (forall run total n tx msgs run' out, included ctx bs h mx run total n tx msgs run' ->
     P run' (i64 (total + proto_size tx)) (count_with msgs n) out -> P run total n (tx :: out)) ->
  forall txs i run total n out, include_txs cfg time_left ctx bs h mx i run total n txs = Ok out -> P run total n out.
Proof.
  intros Hnil Hcons txs. induction txs as [|tx txs IH]; intros i run total n out E.
  { cbn in E. injection E as <-. apply Hnil. }
  apply include_step in E as [-> | [E | (msgs & run' & out' & Hin & -> & E)]]; [apply Hnil|by eapply IH|].
  eapply Hcons; [exact Hin|]. by eapply IH.
Qed.

(** ** The checks of the others pass *)

Context (agree : forall run tx run', PrepareProposalVerifyTx run tx = Ok run' -> ProcessProposalVerifyTx run tx = Ok run').

Lemma included_accepted time_left ctx bs h mx txs i run total n out :
  include_txs cfg time_left ctx bs h mx i run total n txs = Ok out ->
  (IsZurichHardfork cfg h = true -> (n <= maxSideTxResponsesCount)%nat) -> accept_txs cfg ctx bs h run n out = Ok true.
Proof.
  revert txs i run total n out. apply (include_ind time_left ctx bs h mx (fun run _ n out =>
    (IsZurichHardfork cfg h = true -> (n <= maxSideTxResponsesCount)%nat) -> accept_txs cfg ctx bs h run n out = Ok true)).
  { done. }
  intros run total n tx msgs run' out [Hf Hd Hs Hc Ha Hr] IH Hn. cbn [accept_txs]. rewrite Hd.
  rewrite (proj2 (Nat.ltb_ge _ _)) by lia. fold (count_with msgs n).
  assert (IsZurichHardfork cfg h = true -> (count_with msgs n <= maxSideTxResponsesCount)%nat) as Hle.
  { intros HZ. unfold count_with. destruct (CountSideHandlers msgs =? 1)%nat eqn:E1; [|auto].
    apply Nat.eqb_eq in E1. specialize (Hc HZ E1). lia. }
  assert (IsZurichHardfork cfg h && (maxSideTxResponsesCount <? count_with msgs n)%nat = false) as ->.
  { destruct (IsZurichHardfork cfg h); [|done]. apply Nat.ltb_ge, Hle. done. }
  rewrite Ha, (agree _ _ _ Hr). by apply IH.
Qed.

(** ** Checkpoints among the transactions *)

Definition holds_checkpoint (tx : bytes) : bool :=
  match TxDecode tx with Some msgs => existsb IsCheckpointMsg msgs | None => false end.

Lemma has_checkpoint_accepted ctx bs h out : forall run n,
  accept_txs cfg ctx bs h run n out = Ok true -> has_checkpoint_tx out = Some (existsb holds_checkpoint out).
Proof.
  induction out as [|tx out IH]; intros run n; cbn [accept_txs has_checkpoint_tx existsb]; [done|].
  unfold holds_checkpoint at 1. destruct (TxDecode tx) as [msgs|]; [|done]. destruct (1 <? _)%nat; [done|].
  destruct (_ && _); [done|]. destruct (can_propose_all _ _ _ _); [|done..].
  destruct (ProcessProposalVerifyTx _ _); [|done..]. intros E. destruct (existsb IsCheckpointMsg msgs); [done|].
  by eapply IH.
Qed.

(** What a validator answers to the proposal, by the outcome of its own check of the
    extensions without replay protection. *)
Definition proposal_answer (height : Z) (nonrp : outcome unit) (txs : list bytes) : bool :=
  match nonrp with
  | Ok _ => true
  | Err e => negb (IsPhuketHardfork cfg height && existsb holds_checkpoint txs && negb (tolerate_bor_error cfg height e))
  | Panic => false
  end.

(** ** The votes that are kept *)

Lemma placeholder_kept vs vote : kept_vote vs (toFilteredPlaceholder vote).
Proof.
  destruct (is_commit (toFilteredPlaceholder vote)) eqn:E; [left|by right; left].
  unfold isFilteredPlaceholder. by rewrite E.
Qed.
Lemma filter_keep_signed ctx ch ms H round vs limit seen vote h power seen' :
  filter_vote ctx ch ms H round vs true limit seen vote = Ok (Keep h power, seen') -> kept_vote vs vote.
Proof.
  intros E. right. right. destruct (filter_keep _ _ _ _ _ _ _ _ _ _ _ _ _ E) as (a & ve & v & G & _).
  destruct (gv_verified _ _ _ _ _ _ _ _ _ G) as (key & b & Hkey & _). exists a, v, key.
  split; [by eapply gv_address|]. split; [by eapply gv_member|]. split; [done|].
  pose proof (gv_address _ _ _ _ _ _ _ _ _ G) as Ga. pose proof (gv_member _ _ _ _ _ _ _ _ _ G) as Gm.
  unfold filter_vote in E. cbn zeta in E. rewrite Ga in E. cbn [mbind outcome_bind andb] in E.
  destruct (_ || _)%bool; [done|]. destruct (has_unknown_fields _); [done|].
  destruct (negb (isBlockIdFlagValid _)); [done|]. destruct (negb (is_commit vote)); [done|].
  destruct (length _ =? 0)%nat; [done|]. destruct (unmarshal_ve _); [|done]. destruct (negb _); [done|].
  destruct (validateSideTxResponses _); [|done..]. destruct (ValidateMilestoneProposition _ _); [|done..].
  ok_step E. rewrite Gm in E. destruct (negb (vi_Power vote =? _)); [done|]. rewrite Hkey in E. cbn [of_option mbind outcome_bind] in E.
  ok_step E. destruct (negb (VerifySignature key _ (vi_ExtensionSignature vote))); [done|].
  by destruct (VerifySignature key (vi_NonRpVoteExtension vote) _).
Qed.
Lemma filter_votes_kept ctx ch ms H round vs limit votes : forall seen sums l sums',
  filter_votes ctx ch ms H round vs true limit seen sums votes = Ok (l, sums') -> Forall (kept_vote vs) l.
Proof.
  induction votes as [|vote votes IH]; intros seen sums l sums' E; cbn [filter_votes] in E; [injection E as <- <-; constructor|].
  ok_step E. destruct a as [r seen']. destruct r as [h power| |]; [| |by eapply IH]; ok_step E; destruct a as [l' ?]; injection E as <- <-.
  - constructor; [by eapply filter_keep_signed|by eapply IH].
  - constructor; [apply placeholder_kept|by eapply IH].
Qed.
Lemma filter_hash_kept vs key l : Forall (kept_vote vs) l -> Forall (kept_vote vs) (filter_block_hash true key l).
Proof.
  induction 1 as [|v l Hv Hl IH]; cbn [filter_block_hash]; [constructor|].
  destruct (isFilteredPlaceholder v); [by constructor|].
  destruct (unmarshal_ve _); [destruct (String.eqb _ _)|]; constructor; auto using placeholder_kept.
Qed.
Lemma filtered_kept order ctx ch ms H votes round vs maxTxBytes out : IsPhuketHardfork cfg H = true ->
  filterVoteExtensions cfg order ctx ch ms H votes round vs maxTxBytes = Ok out -> Forall (kept_vote vs) out.
Proof.
  intros HP E. unfold filterVoteExtensions in E. ok_step E. destruct (H <=? _); [ok_step E; injection E as <-; constructor|].
  ok_step E. rewrite HP in *. ok_step E. destruct a0 as [l sums]. apply filter_votes_kept in Ha0.
  ok_step E. destruct a0 as [total vs']. destruct (List.find _ _) as [[key p]|]; [|ok_step E];
    injection E as <-; by apply filter_hash_kept.
Qed.

(** ** Limits *)

Definition total_size (txs : list bytes) : Z := Zsum (map proto_size txs).
Definition side_txs (txs : list bytes) : list bytes :=
  List.filter (fun tx => match TxDecode tx with Some msgs => (CountSideHandlers msgs =? 1)%nat | None => false end) txs.

Lemma included_limits time_left ctx bs h mx txs i run total n out :
  include_txs cfg time_left ctx bs h mx i run total n txs = Ok out ->
  (forall tx, 0 <= proto_size tx < 2 ^ 62) -> 0 <= total < 2 ^ 62 -> mx < 2 ^ 62 ->
  (out = [] \/ total + total_size out <= mx) /\
  (IsZurichHardfork cfg h = true -> (n <= maxSideTxResponsesCount)%nat ->
     (n + length (side_txs out) <= maxSideTxResponsesCount)%nat).
Proof.
  intros E Hsz Ht Hmx. revert Ht. revert txs i run total n out E.
  apply (include_ind time_left ctx bs h mx (fun _ total n out => 0 <= total < 2 ^ 62 ->
    (out = [] \/ total + total_size out <= mx) /\
    (IsZurichHardfork cfg h = true -> (n <= maxSideTxResponsesCount)%nat ->
       (n + length (side_txs out) <= maxSideTxResponsesCount)%nat))).
  { intros _ total n _. split; [by left|]. intros _ Hn. cbn [side_txs List.filter length]. by rewrite Nat.add_0_r. }
  intros run total n tx msgs run' out [Hf Hd Hs Hc Ha Hr] IH Ht. pose proof (Hsz tx) as Hx.
  assert (i64 (total + proto_size tx) = total + proto_size tx) as Ei by (apply i64_id; unfold in_i64, MinInt64, MaxInt64; lia).
  rewrite Ei in *.
  destruct IH as [Hsize Hcount]; [lia|]. split.
  - right. cbn [total_size map Zsum foldr] in *. fold (total_size out) (Zsum (map proto_size out)).
    destruct Hsize as [->|Hsize]; cbn; unfold total_size, Zsum in *; lia.
  - intros HZ Hn. unfold side_txs in *. cbn [List.filter]. rewrite Hd. unfold count_with in Hcount.
    destruct (CountSideHandlers msgs =? 1)%nat eqn:E1; [|by apply Hcount].
    apply Nat.eqb_eq in E1. specialize (Hc HZ E1). cbn [length]. specialize (Hcount HZ ltac:(lia)). lia.
Qed.

Lemma included_sublist time_left ctx bs h mx txs : forall i run total n out,
  include_txs cfg time_left ctx bs h mx i run total n txs = Ok out -> sublist out txs.
Proof.
  induction txs as [|tx txs IH]; intros i run total n out E; [cbn in E; injection E as <-; constructor|].
  apply include_step in E as [-> | [E | (msgs & run' & out' & Hin & -> & E)]].
  - apply sublist_nil_l.
  - apply sublist_cons. by eapply IH.
  - apply sublist_skip. by eapply IH.
Qed.

(** What the proposer's handler answers. *)
Lemma prepare_inv order clock caches time_left ctx ch (s : AppState B) run req txs :
  PrepareProposal cfg order clock caches time_left ctx ch s run req = Ok txs ->
  exists vs votes bz out, getValidatorSetForHeight cfg (app_stake s) (pp_Height req) = Ok vs /\
    filterVoteExtensions cfg order ctx ch (app_milestone s) (pp_Height req) (pp_Votes req) (pp_Round req) vs
      (pp_MaxTxBytes req) = Ok votes /\
    marshal_commit (votes, pp_Round req) = Some bz /\ txs = bz :: out /\
    include_txs cfg time_left ctx (app_bor s) (pp_Height req) (pp_MaxTxBytes req) 0 run (proto_size bz) 0 (pp_Txs req) = Ok out.
Proof.
  unfold PrepareProposal. intros E. ok_step E. rename a into vs. ok_step E. rename a into votes.
  assert (exists bz out, marshal_commit (votes, pp_Round req) = Some bz /\ txs = bz :: out /\
    include_txs cfg time_left ctx (app_bor s) (pp_Height req) (pp_MaxTxBytes req) 0 run (proto_size bz) 0 (pp_Txs req) = Ok out)
    as (bz & out & H1 & H2 & H3); [|by exists vs, votes, bz, out].
  destruct (ValidateNonRpVoteExtensions _ _ _ _ _ _ _ _ _ _); [| |done];
    (ok_step E; apply of_option_ok in Ha1; ok_step E; ok_step E; injection E as <-; eauto).
Qed.
End proposals.

(** What the other checks leave to the check of the extensions without replay protection. *)
Lemma proposal_checked {AC : AddressCodec} {VC : VoteCodec} {CL : ConsensusLayer} {HF : HashFunction}
    {BN : BorNode} {TL : TxLibrary} {B R : Type} {TR : TxRunner R} (cfg : Config) order clock caches time_left ctx ch
    (s : AppState B) (run : R) req vs canonical txs :
  getValidatorSetForHeight cfg (app_stake s) (pp_Height req) = Ok vs -> wf vs ->
  has_unknown_fields [] = false -> (forall m, order m ≡ₚ map_to_list m) ->
  (forall c bz, marshal_commit c = Some bz -> unmarshal_commit bz = Some c) ->
  (forall r tx r', PrepareProposalVerifyTx r tx = Ok r' -> ProcessProposalVerifyTx r tx = Ok r') ->
  Forall (fun v => isBlockIdFlagValid (vi_Flag v) = true) (pp_Votes req) ->
  ValidateVoteExtensionsCompleteness canonical (pp_Votes req) = Ok tt ->
  PrepareProposal cfg order clock caches time_left ctx ch s run req = Ok txs ->
  exists bz rest votes, txs = bz :: rest /\ unmarshal_commit bz = Some (votes, pp_Round req) /\
    ValidateVoteExtensions cfg ctx ch (app_milestone s) (pp_Height req) votes (pp_Round req) vs = Ok tt /\
    (IsPhuketHardfork cfg (pp_Height req) = true -> Forall (kept_vote vs) votes) /\
    forall BN' clock' caches' nonrp,
      ValidateNonRpVoteExtensions (BN := BN') cfg clock' caches' ctx ch (app_chain_params s) (app_checkpoint s)
        (pp_Height req) votes vs = nonrp ->
      ProcessProposal (BN := BN') cfg clock' caches' ctx ch s run
        {| rp_Height := pp_Height req; rp_Txs := txs; rp_CommitVotes := canonical; rp_Round := pp_Round req |}
      = match nonrp with Panic => Panic | _ => Ok (proposal_answer cfg (pp_Height req) nonrp rest) end.
Proof.
  intros Hvs Hwf Hempty Ho Hcodec Hrun Hfl Hcan E. apply prepare_inv in E as (vs' & votes & bz & out & Hvs' & Hf & Hm & -> & Hi).
  rewrite Hvs in Hvs'. injection Hvs' as <-. exists bz, out, votes. split; [done|]. split; [by apply Hcodec|].
  destruct (filtered_accepted cfg order ctx ch (app_milestone s) _ _ _ _ _ _ Hwf Hempty Ho Hfl Hf) as [Hval Hcomp].
  split; [done|]. split; [intros HP; by eapply filtered_kept|]. intros BN' clock' caches' nonrp Hn.
  assert (accept_txs cfg ctx (app_bor s) (pp_Height req) run 0 out = Ok true) as Hacc.
  { eapply included_accepted; [exact Hrun|exact Hi|]. intros _. apply Nat.le_0_l. }
  unfold ProcessProposal. cbn [rp_Height rp_Txs rp_CommitVotes rp_Round]. rewrite Hvs. cbn [mbind outcome_bind].
  rewrite (Hcodec _ _ Hm), Z.eqb_refl. cbn [negb].
  assert ((if IsPhuketHardfork cfg (pp_Height req) then ValidateVoteExtensionsCompleteness canonical votes else Ok tt) = Ok tt) as ->.
  { destruct (IsPhuketHardfork cfg (pp_Height req)) eqn:HP; [|done]. by apply Hcomp. }
  cbn [or_reject]. rewrite Hval. cbn [or_reject]. rewrite Hn, Hacc. unfold proposal_answer, accept_nonrp_error.
  rewrite (has_checkpoint_accepted cfg _ _ _ _ _ _ Hacc). destruct nonrp as [[]|e|]; [done| |done].
  by destruct (IsPhuketHardfork _ _), (existsb _ _), (tolerate_bor_error _ _ _).
Qed.

(** ** Properties *)

(** C13: when an honest proposal is accepted.  The votes and the transactions an honest
    proposer puts in a block pass the checks of every validator (if a transaction it could
    run can be run by the others).  A block without a checkpoint is accepted, and before
    Phuket every block.  From Phuket on, a block with a checkpoint is accepted when more
    than two thirds of the power signed the dummy, or signed for a checkpoint that the
    validator's own Bor node confirms; when its node finds another root, it rejects; an
    error of the node rejects unless such errors are tolerated.  When no extension is
    shared by more than two thirds, a block with a checkpoint is rejected by all. *)
Theorem honest_proposal_accepted {AC : AddressCodec} {VC : VoteCodec} {CL : ConsensusLayer} {HF : HashFunction}
    {BN : BorNode} {TL : TxLibrary} {B R : Type} {TR : TxRunner R} (cfg : Config) order clock caches time_left ctx ch
    (s : AppState B) (run : R) req vs canonical txs :
  getValidatorSetForHeight cfg (app_stake s) (pp_Height req) = Ok vs -> wf vs -> formatted_codec ->
  VoteExtensionsEnableHeight ch < pp_Height req -> in_i64 (pp_Height req) -> in_i64 (pp_Height req - 1) ->
  (String.length (ChainID ch) <= 400)%nat ->
  has_unknown_fields [] = false -> (forall m, order m ≡ₚ map_to_list m) ->
  (forall c bz, marshal_commit c = Some bz -> unmarshal_commit bz = Some c) ->
  (forall r tx r', PrepareProposalVerifyTx r tx = Ok r' -> ProcessProposalVerifyTx r tx = Ok r') ->
  Forall (fun v => isBlockIdFlagValid (vi_Flag v) = true) (pp_Votes req) ->
  ValidateVoteExtensionsCompleteness canonical (pp_Votes req) = Ok tt ->
  PrepareProposal cfg order clock caches time_left ctx ch s run req = Ok txs ->
  exists bz rest votes, txs = bz :: rest /\ unmarshal_commit bz = Some (votes, pp_Round req) /\
    let H := pp_Height req in
    let processed BN' clock' caches' :=
      ProcessProposal (BN := BN') cfg clock' caches' ctx ch s run
        {| rp_Height := H; rp_Txs := txs; rp_CommitVotes := canonical; rp_Round := pp_Round req |} in
    let plain := negb (existsb holds_checkpoint rest) in
    (forall BN' clock' caches',
       plain || negb (IsPhuketHardfork cfg H) = true ->
       ValidateNonRpVoteExtensions (BN := BN') cfg clock' caches' ctx ch (app_chain_params s) (app_checkpoint s) H votes vs <> Panic ->
       processed BN' clock' caches' = Ok true) /\
    (IsPhuketHardfork cfg H = true ->
     (forall v1 v2, v1 ∈ votes -> v2 ∈ votes -> extension_key (vi_NonRpVoteExtension v1) = extension_key (vi_NonRpVoteExtension v2) ->
        vi_NonRpVoteExtension v1 = vi_NonRpVoteExtension v2) ->
     (shared_extension vs votes (GetDummyNonRpVoteExtension (H - 1) (ChainID ch)) ->
        forall BN' clock' caches', processed BN' clock' caches' = Ok true) /\
     (forall c signBytes p cp, signable c -> GetSideSignBytes c = Ok signBytes ->
        shared_extension vs votes (packExtensionWithVote signBytes) ->
        app_chain_params s = Some p -> BorChainId p = mc_BorChainId c -> GetCheckpointParams (app_checkpoint s) = Ok cp ->
        forall BN' clock' caches',
        processed BN' clock' caches' =
          match bor_confirms (BN := BN') clock' caches' p cp c with
          | Ok valid => Ok (valid || plain)
          | Err e => Ok (plain || tolerate_bor_error cfg H e)
          | Panic => Panic
          end) /\
     (IsPhuketHardfork cfg (BlockHeight ctx) = true -> (forall e, ~ shared_extension vs votes e) ->
        forall BN' clock' caches', processed BN' clock' caches' = Ok plain)).
Proof.
  intros Hvs Hwf HC Hen HH HH1 Hch Hempty Ho Hcodec Hrun Hfl Hcan E.
  destruct (proposal_checked cfg order clock caches time_left ctx ch s run req vs canonical txs Hvs Hwf Hempty Ho Hcodec Hrun Hfl Hcan E)
    as (bz & rest & votes & -> & Hu & HV & Hkept & Hans).
  exists bz, rest, votes. split; [done|]. split; [done|]. intros H processed plain. subst H. unfold processed, plain. clear processed plain.
  assert (forall BN' clock' caches' e, getMajorityNonRpVoteExtension cfg ctx votes vs = Ok e ->
    checkNonRpVoteExtensionsSignatures cfg ctx votes vs = Ok tt ->
    ValidateNonRpVoteExtensions (BN := BN') cfg clock' caches' ctx ch (app_chain_params s) (app_checkpoint s) (pp_Height req) votes vs =
    validateNonRpVoteExtensionData (BN := BN') clock' caches' ch (app_chain_params s) (app_checkpoint s) (pp_Height req - 1) e) as Hdata.
  { intros BN' clock' caches' e Hm Hs. unfold ValidateNonRpVoteExtensions. rewrite (proj2 (Z.leb_gt _ _)) by done.
    rewrite Hm. cbn [mbind outcome_bind]. rewrite Hs. cbn [mbind outcome_bind]. by rewrite i64_id. }
  split; [|intros HP Hcoll; destruct (majority_found cfg ctx ch (app_milestone s) (pp_Height req) (pp_Round req) vs votes HC Hwf Hen HV (Hkept HP) Hcoll) as [Hmaj Hnone];
    pose proof (kept_signatures cfg ctx vs votes (Hkept HP)) as Hsig; split; [|split]].
  - intros BN' clock' caches' Hp Hn. rewrite (Hans BN' clock' caches' _ eq_refl). unfold proposal_answer.
    destruct (ValidateNonRpVoteExtensions _ _ _ _ _ _ _ _ _ _); [done| |done].
    by destruct (existsb holds_checkpoint rest), (IsPhuketHardfork cfg (pp_Height req)).
  - intros Hd BN' clock' caches'. rewrite (Hans BN' clock' caches' (Ok tt)); [done|].
    rewrite (Hdata _ _ _ _ (Hmaj _ Hd) Hsig). by apply dummy_valid.
  - intros c sb p cp Hc Hsb Hsh Ep Eid Ecp BN' clock' caches'.
    rewrite (Hans BN' clock' caches' _ (Hdata BN' clock' caches' _ (Hmaj _ Hsh) Hsig)). rewrite Ep.
    rewrite (checkpoint_data_checked clock' caches' ch p cp _ (pp_Height req - 1) c sb Hc Hsb Eid Ecp). unfold proposal_answer. rewrite HP.
    destruct (bor_confirms clock' caches' p cp c) as [[]|e|]; cbn; [done| | |done].
    { unfold tolerate_bor_error. rewrite !bool_decide_false by done. by rewrite andb_false_r, andb_true_r. }
    by destruct (existsb _ _), (tolerate_bor_error _ _ _).
  - intros HPc Hno BN' clock' caches'. rewrite (Hans BN' clock' caches'
      (Err (ErrText "insufficient voting power for majority non-rp vote extension"))); [|unfold ValidateNonRpVoteExtensions;
      rewrite (proj2 (Z.leb_gt _ _)) by done; by rewrite (Hnone HPc Hno)].
    unfold proposal_answer, tolerate_bor_error. rewrite HP. rewrite !bool_decide_false by done. rewrite andb_false_r. cbn.
    by rewrite andb_true_r.
Qed.

(** C30: a proposal keeps the limits: its transactions are taken from the mempool in
    order, they fit in the size the consensus engine asked for with the votes in
    front, and from Zurich on at most as many of them need a vote as a vote
    extension can answer. *)
Theorem proposal_within_limits {AC : AddressCodec} {VC : VoteCodec} {CL : ConsensusLayer} {HF : HashFunction}
    {BN : BorNode} {TL : TxLibrary} {B R : Type} {TR : TxRunner R} (cfg : Config) order clock caches time_left ctx ch
    (s : AppState B) (run : R) req txs :
  (forall tx, 0 <= proto_size tx < 2 ^ 62) -> pp_MaxTxBytes req < 2 ^ 62 ->
  PrepareProposal cfg order clock caches time_left ctx ch s run req = Ok txs ->
  exists bz rest, txs = bz :: rest /\ sublist rest (pp_Txs req) /\
    (rest = [] \/ total_size txs <= pp_MaxTxBytes req) /\
    (IsZurichHardfork cfg (pp_Height req) = true -> (length (side_txs rest) <= maxSideTxResponsesCount)%nat).
Proof.
  intros Hsz Hmx E. apply prepare_inv in E as (vs & votes & bz & out & _ & _ & _ & -> & Hi).
  exists bz, out. split; [done|]. split; [by eapply included_sublist|].
  destruct (included_limits _ _ _ _ _ _ _ _ _ _ _ _ Hi Hsz (Hsz bz) Hmx) as [H1 H2]. split; [exact H1|].
  intros HZ. apply (H2 HZ). apply Nat.le_0_l.
Qed.

(** ** Witnesses *)

Module ProposalDemo.
Import VoteDemo NonRpDemo.
#[export] Instance vote_info_eq_dec : EqDecision ExtendedVoteInfo.
Proof. solve_decision. Defined.

Definition demo_checkpoint : MsgCheckpoint :=
  {| mc_Proposer := "0xaa"; mc_StartBlock := 0; mc_EndBlock := 99; mc_RootHash := repeat Byte.x01 32;
     mc_AccountRootHash := repeat Byte.x02 32; mc_BorChainId := "137" |}.
Definition demo_event : MsgEventRecord :=
  {| me_From := "0xaa"; me_TxHash := ""; me_LogIndex := 0; me_BlockNumber := 0; me_ContractAddress := "";
     me_Data := []; me_Id := 1; me_ChainId := "" |}.
(** The second and third validators sign different extensions: none has the
    majority.  [agreed_votes]: both sign the dummy. *)
Definition other_extension : bytes := packExtensionWithVote (repeat Byte.x01 192).
Definition with_extension (e : bytes) (v : ExtendedVoteInfo) : ExtendedVoteInfo :=
  {| vi_Address := vi_Address v; vi_Power := vi_Power v; vi_Flag := vi_Flag v; vi_VoteExtension := vi_VoteExtension v;
     vi_ExtensionSignature := vi_ExtensionSignature v; vi_NonRpVoteExtension := e;
     vi_NonRpExtensionSignature := vi_NonRpExtensionSignature v |}.
Definition split_votes : list ExtendedVoteInfo :=
  [vote Byte.xaa Byte.x02 10; signed (vote Byte.xbb Byte.x01 20); with_extension other_extension (vote Byte.xcc Byte.x01 30)].
Definition split_kept : list ExtendedVoteInfo := map (fun v => if decide (vi_Address v = [Byte.xaa]) then toFilteredPlaceholder v else v) split_votes.
Definition agreed_votes : list ExtendedVoteInfo :=
  [vote Byte.xaa Byte.x02 10; signed (vote Byte.xbb Byte.x01 20); signed (vote Byte.xcc Byte.x01 30)].

#[export] Instance demo_txs : TxLibrary := {|
  TxDecode tx := if decide (tx = [Byte.x01]) then Some [AOther]
                 else if decide (tx = [Byte.x02]) then Some [AClerk demo_event; AClerk demo_event]
                 else if decide (tx = [Byte.x0c]) then Some [ACheckpoint (MCheckpoint demo_checkpoint)]
                 else if decide (tx = [Byte.x03]) then Some [AOther] else None;
  tx_hash tx := repeat Byte.x00 31 ++ tx;
  proto_size tx := Z.of_nat (length tx) mod 1000;
  marshal_commit c := if decide (c = (signed_votes, 0)) then Some [Byte.xff]
                      else if decide (c = (split_kept, 0)) then Some [Byte.xfe] else None;
  unmarshal_commit bz := if decide (bz = [Byte.xff]) then Some (signed_votes, 0)
                         else if decide (bz = [Byte.xfe]) then Some (split_kept, 0) else None |}.
#[export] Instance demo_runner : TxRunner nat := {|
  PrepareProposalVerifyTx r tx := if decide (tx = [Byte.x03]) then Err (ErrText "ante") else Ok (S r);
  ProcessProposalVerifyTx r tx := if decide (tx = [Byte.x03]) then Err (ErrText "ante") else Ok (S r) |}.

Definition demo_app : AppState unit :=
  {| app_milestone := demo_milestones;
     app_bor := {| spans := ∅; latestSpan := None; seedLastProducer := ∅; bor_Params := None; ProducerVotes := ∅;
                   PerformanceScore := ∅; LatestActiveProducer := ∅; LatestFailedProducer := ∅; LastSpanBlock := None;
                   ProducerPlannedDowntime := ∅ |};
     app_stake := {| validators := ∅; signer := ∅; sequences := ∅; validatorSet := Some demo_set;
                     previousSet := Some demo_set; penultimateSet := Some demo_set; lastBlockTxs := None |};
     app_checkpoint := no_checkpoints;
     app_clerk := {| RecordsWithID := ∅; RecordsWithTime := ∅; RecordSequences := ∅; PendingVisibilityEvents := ∅;
                     BlockTimeReverseIndex := ∅; VisibilityHeightByID := ∅ |};
     app_topup := {| topup_sequences := ∅; dividendAccounts := ∅ |};
     app_bank := tt; app_chain_params := None; app_block_proposer := None |}.
Definition demo_request (votes : list ExtendedVoteInfo) : PrepareRequest :=
  {| pp_Height := 100; pp_Votes := votes; pp_Round := 0; pp_MaxTxBytes := 500;
     pp_Txs := [[Byte.x01]; [Byte.x02]; [Byte.x03]; [Byte.x0c]; repeat Byte.x01 600] |}.
Definition prepare (votes : list ExtendedVoteInfo) : outcome (list bytes) :=
  PrepareProposal demo_config map_to_list (fun _ => 0) no_caches (fun _ => true) demo_ctx demo_chain demo_app 0%nat (demo_request votes).
Definition process (txs : list bytes) : outcome bool :=
  ProcessProposal demo_config (fun _ => 0) no_caches demo_ctx demo_chain demo_app 0%nat
    {| rp_Height := 100; rp_Txs := txs; rp_CommitVotes := demo_commit; rp_Round := 0 |}.

Lemma demo_codec_round_trip c bz : marshal_commit c = Some bz -> unmarshal_commit bz = Some c.
Proof.
  cbn. case_decide; [intros [= <-]; by subst|]. case_decide; [intros [= <-]; by subst|done].
Qed.

Lemma honest_proposal_accepted_witness :
  prepare agreed_votes = Ok [[Byte.xff]; [Byte.x01]; [Byte.x0c]] /\ process [[Byte.xff]; [Byte.x01]; [Byte.x0c]] = Ok true.
Proof.
  assert (prepare agreed_votes = Ok [[Byte.xff]; [Byte.x01]; [Byte.x0c]]) as E by (vm_compute; reflexivity).
  split; [exact E|].
  destruct (honest_proposal_accepted demo_config map_to_list (fun _ => 0) no_caches (fun _ => true)
    demo_ctx demo_chain demo_app 0%nat (demo_request agreed_votes) demo_set demo_commit
    [[Byte.xff]; [Byte.x01]; [Byte.x0c]]) as (bz & rest & votes & Et & Ec & _ & H).
  - reflexivity.
  - exact vote_set_wf.
  - exact vote_formatted.
  - reflexivity.
  - vm_compute. split; discriminate.
  - vm_compute. split; discriminate.
  - cbn. lia.
  - reflexivity.
  - intros m. reflexivity.
  - exact demo_codec_round_trip.
  - intros r tx r' H. exact H.
  - repeat constructor.
  - vm_compute. reflexivity.
  - exact E.
  - injection Et as <- <-. cbn in Ec. injection Ec as <-. destruct H as [H _].
    + reflexivity.
    + intros v1 v2 H1 H2. apply list_elem_of_In in H1, H2. cbn [signed_votes In] in H1, H2.
      destruct H1 as [<-|[<-|[<-|[]]]], H2 as [<-|[<-|[<-|[]]]]; vm_compute; congruence.
    + apply (H ltac:(split; [exists (signed (vote Byte.xbb Byte.x01 20)); split; [apply (bool_decide_unpack _); vm_compute; exact I|reflexivity]|vm_compute; reflexivity])
        demo_node (fun _ => 0) no_caches).
Defined.

(** When no extension has the majority, a block with a checkpoint is proposed and
    then rejected. *)
Lemma split_extensions_reject :
  prepare split_votes = Ok [[Byte.xfe]; [Byte.x01]; [Byte.x0c]] /\ process [[Byte.xfe]; [Byte.x01]; [Byte.x0c]] = Ok false.
Proof. split; vm_compute; reflexivity. Qed.

Lemma proposal_within_limits_witness : 1 + 1 + 1 <= 500 /\ sublist [[Byte.x01]; [Byte.x0c]] (pp_Txs (demo_request agreed_votes)).
Proof.
  assert (prepare agreed_votes = Ok [[Byte.xff]; [Byte.x01]; [Byte.x0c]]) as E by (vm_compute; reflexivity).
  destruct (proposal_within_limits demo_config map_to_list (fun _ => 0) no_caches (fun _ => true) demo_ctx demo_chain demo_app 0%nat
    (demo_request agreed_votes) [[Byte.xff]; [Byte.x01]; [Byte.x0c]]) as (bz & rest & Et & Hs & Hsize & _).
  - intros tx. cbn. pose proof (Z.mod_pos_bound (Z.of_nat (length tx)) 1000 ltac:(lia)). lia.
  - cbn. lia.
  - exact E.
  - injection Et as <- <-. split; [|exact Hs]. destruct Hsize as [Hx|Hsize]; [discriminate Hx|exact Hsize].
Defined.
End ProposalDemo.
