(* ===== verification/ExtendVote.v ===== *)
(** * Extending and verifying votes

    Models [ExtendVoteHandler], [VerifyVoteExtensionHandler] and the choice of the
    receipts to prefetch ([app/abci.go]): a validator answers the transactions of
    the proposed block with the side handlers, adds its milestone proposition and
    the bytes to sign for a checkpoint; the others check the extension. *)
From S2P Require Import Prelude SortedList Helpers External VoteTypes ValidatorSet StakeKeeper StakeHandlers Milestone MilestoneVotes VoteExt Numerals Dividend Topup Clerk Checkpoint CheckpointHandlers NonRp BorTypes Selection BorKeeper BorHandlers App.
#[local] Open Scope Z_scope.

(** The generated encoder of a vote extension. *)
Class VoteEncoder := { marshal_ve : VoteExtension -> option bytes }.

(** The numbers of the enumeration [Vote]. *)
Definition vote_number (v : Vote) : Z := match v with UNSPECIFIED => 0 | VOTE_YES => 1 | VOTE_NO => 2 end.

(** ** Prefetching receipts *)

Definition verifyTxHash (txHash : bytes) : bool := (length txHash =? HashLength)%nat.
(** [hexutil.Decode] answers 32 bytes. *)
Definition verifyHexTxHash (hexTxHash : string) : bool :=
  match hexTxHash with
  | String a (String b s) =>
      Ascii.eqb a "0" && (Ascii.eqb b "x" || Ascii.eqb b "X") && (String.length s =? 2 * HashLength)%nat
      && forallb (fun c => bool_decide (is_Some (hex_value c))) (list_ascii_of_string s)
  | _ => false
  end.
Definition extractTxHash (m : AppMsg) : option bytes :=
  let of_bytes (h : bytes) := if verifyTxHash h then Some (BytesToHash h) else None in
  match m with
  | AClerk m => if verifyHexTxHash (me_TxHash m) then Some (HexToHash (me_TxHash m)) else None
  | AStake (MValidatorJoin m) => of_bytes (vj_TxHash m)
  | AStake (MStakeUpdate m) => of_bytes (su_TxHash m)
  | AStake (MSignerUpdate m) => of_bytes (sg_TxHash m)
  | AStake (MValidatorExit m) => of_bytes (ve_TxHash m)
  | ATopup m => of_bytes (tt_TxHash m)
  | _ => None
  end.

(** The hashes, each once, and the number of side messages met. *)
Fixpoint prefetch_msgs (hashes : list bytes) (sideTxCount : nat) (msgs : list AppMsg) : list bytes * nat :=
  match msgs with
  | [] => (hashes, sideTxCount)
  | m :: rest =>
      if negb (has_side_handler m) then prefetch_msgs hashes sideTxCount rest
      else
        let sideTxCount := S sideTxCount in
        match extractTxHash m with
        | None => prefetch_msgs hashes sideTxCount rest
        | Some h =>
            let hashes := if bool_decide (h ∈ hashes) then hashes else hashes ++ [h] in
            if (maxSideTxResponsesCount <=? sideTxCount)%nat then (hashes, sideTxCount)
            else prefetch_msgs hashes sideTxCount rest
        end
  end.
Fixpoint prefetch_hashes {TL : TxLibrary} (hashes : list bytes) (sideTxCount : nat) (txs : list bytes) : list bytes :=
  match txs with
  | [] => hashes
  | rawTx :: rest =>
      match TxDecode rawTx with
      | None => prefetch_hashes hashes sideTxCount rest
      | Some msgs =>
          let '(hashes, sideTxCount) := prefetch_msgs hashes sideTxCount msgs in
          if (maxSideTxResponsesCount <=? sideTxCount)%nat then hashes
          else prefetch_hashes hashes sideTxCount rest
      end
  end.

(** ** Extending a vote *)

Record ExtendRequest := { ev_Height : Z; ev_Hash : bytes; ev_Txs : list bytes }.

Section extend.
Context {AC : AddressCodec} {SA : SdkAddress} {EA : EthAddress} {HF : HashFunction} {ML : MerkleLibrary}.
Context {RS : ReceiptSource} {SE : StakeEvents} {CE : ClerkEvents} {TE : TopupEvents}.
Context {BC : BorChain} {BN : BorNode} {RC : RootChain} {TL : TxLibrary} {VE : VoteEncoder}.
Context {B : Type} {FB : FeeBank B} (cfg : Config).

(** The answers so far and the extension without replay protection. *)
Definition Answers : Type := list SideTxResponse * bytes.

(** The extension after a vote on a message: that of a checkpoint voted yes on. *)
Definition checkpoint_extension (nonRpVoteExt : bytes) (v : Vote) (m : AppMsg) : outcome bytes :=
  match m with
  | ACheckpoint (MCheckpoint c) =>
      if bool_decide (v = VOTE_YES) then signBytes ← GetSideSignBytes c; Ok (packExtensionWithVote signBytes)
      else Ok nonRpVoteExt
  | _ => Ok nonRpVoteExt
  end.
(** The loop over the messages of a transaction; [env i] is what the side handler
    finds that gives the answer number [i]. *)
Fixpoint answer_msgs (ctx : Ctx) (env : nat -> Env) (s : AppState B) (rawTx : bytes) (st : Answers) (msgs : list AppMsg)
    : outcome Answers :=
  match msgs with
  | [] => Ok st
  | m :: rest =>
      match side_handler cfg ctx (env (length st.1)) s m with
      | None => answer_msgs ctx env s rawTx st rest
      | Some r =>
          r ≫= fun v : Vote =>
          checkpoint_extension st.2 v m ≫= fun nonRpVoteExt : bytes =>
          let sideTxRes := st.1 ++ [{| TxHash := tx_hash rawTx; Result := vote_number v |}] in
          if (length sideTxRes =? maxSideTxResponsesCount)%nat then Ok (sideTxRes, nonRpVoteExt)
          else answer_msgs ctx env s rawTx (sideTxRes, nonRpVoteExt) rest
      end
  end.
(** The loop over the transactions; [time_left i]: the budget is not exhausted before
    the transaction at [i]. *)
Fixpoint answer_txs (time_left : nat -> bool) (budgetActive : bool) (ctx : Ctx) (env : nat -> Env) (s : AppState B)
    (i : nat) (st : Answers) (txs : list bytes) : outcome Answers :=
  match txs with
  | [] => Ok st
  | rawTx :: rest =>
      if budgetActive && negb (time_left i) then Ok st
      else
        msgs ← of_option (ErrText "error occurred while decoding tx bytes in ExtendVoteHandler") (TxDecode rawTx);
        answer_msgs ctx env s rawTx st msgs ≫= fun st : Answers =>
        if (length st.1 =? maxSideTxResponsesCount)%nat then Ok st
        else answer_txs time_left budgetActive ctx env s (S i) st rest
  end.

(** The proposition of the validator, when it can make one that is valid. *)
Definition own_proposition (ctx : Ctx) (s : AppState B) : outcome (option MilestoneProposition) :=
  match GenMilestoneProposition cfg ctx (app_milestone s) (is_ok (CanVoteProducers cfg (app_bor s)))
          (GetProducersByBlockNumber (app_bor s)) with
  | Panic => Panic
  | Err _ => Ok None
  | Ok prop =>
      match ValidateMilestoneProposition (app_milestone s) (Some prop) with
      | Panic => Panic
      | Err _ => Ok None
      | Ok _ => Ok (Some prop)
      end
  end.

(** The vote extension and the extension without replay protection. *)
Definition ExtendVote (time_left : nat -> bool) (clock : nat -> Z) (caches : CheckpointCaches) (env : nat -> Env)
    (ctx : Ctx) (ch : ChainInfo) (s : AppState B) (req : ExtendRequest) : outcome (bytes * bytes) :=
  let budgetActive := IsZurichHardfork cfg (ev_Height req) in
  checkIfVoteExtensionsDisabled ch (ev_Height req) ≫= fun _ =>
  match ev_Txs req with
  | [] => Panic     (* req.Txs[0] *)
  | bz :: txs =>
      of_option (ErrText "error occurred while decoding ExtendedCommitInfo") (unmarshal_commit bz) ≫= fun _ =>
      '(sideTxRes, nonRpVoteExt) ← answer_txs time_left budgetActive ctx env s 0
        ([], GetDummyNonRpVoteExtension (ev_Height req) (ChainID ch)) txs;
      milestoneProp ← (if budgetActive && negb (time_left (length txs)) then Ok None else own_proposition ctx s);
      bz ← of_option (ErrText "marshalling the VoteExtension")
        (marshal_ve {| vx_BlockHash := Some (ev_Hash req); vx_Height := ev_Height req; SideTxResponses := sideTxRes;
                       vx_MilestoneProposition := milestoneProp |});
      match validateNonRpVoteExtensionData clock caches ch (app_chain_params s) (app_checkpoint s) (ev_Height req)
              nonRpVoteExt with
      | Panic => Panic
      | _ => Ok (bz, nonRpVoteExt)
      end
  end.
End extend.

(** ** Verifying an extension *)

Record VerifyRequest := {
  vr_Height : Z; vr_Hash : bytes; vr_Address : bytes; vr_VoteExtension : bytes; vr_NonRpVoteExtension : bytes;
}.

Section verify.
Context {AC : AddressCodec} {VC : VoteCodec} {BN : BorNode} {B : Type} (cfg : Config).

(** The decision on an extension without replay protection that did not pass. *)
Definition accept_nonrp_data_error (height : Z) (e : error) : bool :=
  let tolerateBorErr := bool_decide (e = ErrFailedToQueryBor)
                        || (IsZurichHardfork cfg height && bool_decide (e = ErrBorBlockNotFound)) in
  negb (IsPhuketHardfork cfg height && negb tolerateBorErr).
Definition nonrp_data_accepted (height : Z) (r : outcome unit) : outcome bool :=
  match r with Ok _ => Ok true | Err e => Ok (accept_nonrp_data_error height e) | Panic => Panic end.

Definition VerifyVoteExtension (clock : nat -> Z) (caches : CheckpointCaches) (ch : ChainInfo) (s : AppState B)
    (req : VerifyRequest) : outcome bool :=
  checkIfVoteExtensionsDisabled ch (vr_Height req) ≫= fun _ =>
  BytesToString (vr_Address req) ≫= fun _ =>
  if has_unknown_fields (vr_VoteExtension req) then Ok false
  else
    match unmarshal_ve (vr_VoteExtension req) with
    | None => Ok false
    | Some ve =>
        if negb (vr_Height req =? vx_Height ve) then Ok false
        else if negb (bool_decide (vr_Hash req = default [] (vx_BlockHash ve))) then Ok false
        else
          match validateSideTxResponses (SideTxResponses ve) with
          | Panic => Panic
          | Err _ => Ok false
          | Ok _ =>
              accepted ← nonrp_data_accepted (vr_Height req)
                (validateNonRpVoteExtensionData clock caches ch (app_chain_params s) (app_checkpoint s) (vr_Height req)
                   (vr_NonRpVoteExtension req));
              if negb accepted then Ok false
              else match ValidateMilestoneProposition (app_milestone s) (vx_MilestoneProposition ve) with
                   | Panic => Panic
                   | Err _ => Ok false
                   | Ok _ => Ok true
                   end
          end
    end.
End verify.
