(* ===== verification/Wire.v ===== *)
(** * Protocol buffers on the wire

    The parts that the generated codecs share ([sidetxs/vote_ext.pb.go],
    [x/milestone/types/milestone.pb.go]): varints, tags, skipping of unknown fields, the
    writing of a buffer from its end, and the loop over the fields of a message.  The codecs
    index into slices; so do the definitions, and an index out of range is a panic. *)
From S2P Require Import Prelude Helpers VoteTypes.
#[local] Open Scope Z_scope.

(** ** Bytes and widths *)

Definition len {A} (l : list A) : Z := Z.of_nat (length l).
Definition byte_to_Z (b : Byte.byte) : Z := Z.of_N (Byte.to_N b).
(** [d[a:b]] for [0 <= a <= b]. *)
Definition slice (d : bytes) (a b : Z) : bytes := take (Z.to_nat (b - a)) (drop (Z.to_nat a) d).

(** The two's complement of [w] bits. *)
Definition sx (w : Z) (z : Z) : Z := (z + 2 ^ (w - 1)) mod 2 ^ w - 2 ^ (w - 1).
Definition i32 : Z -> Z := sx 32.
Definition in_i32 (z : Z) : Prop := - 2 ^ 31 <= z < 2 ^ 31.

Definition ErrIntOverflow := ErrText "proto: integer overflow".
Definition ErrInvalidLength := ErrText "proto: negative length found during unmarshaling".
Definition ErrUnexpectedEndOfGroup := ErrText "proto: unexpected end of group".
Definition ErrUnexpectedEOF := ErrText "unexpected EOF".
Definition out_of_fuel := ErrText "out of fuel".

(** ** Writing

    A message is written from the end of its buffer; [i] is the index of the first byte
    written so far. *)

Definition buffer : Type := Z * bytes.

(** [bits.Len64] *)
Definition Len64 (x : Z) : Z := if x =? 0 then 0 else Z.log2 x + 1.
Definition sov (x : Z) : Z := (Len64 (Z.lor x 1) + 6) / 7.

Definition put (d : bytes) (i : Z) (b : Z) : outcome bytes :=
  panic_when (i <? 0) || (len d <=? i) ;;
  Ok (<[Z.to_nat i := byte_of_Z b]> d).

(** The loop of [encodeVarint]; ten bytes hold 64 bits.  It answers the buffer and the
    index of the last byte. *)
Fixpoint put_varint (n : nat) (d : bytes) (offset v : Z) : outcome (bytes * Z) :=
  if 128 <=? v then
    match n with
    | O => Err out_of_fuel
    | S n => d ← put d offset (Z.lor (Z.land v 127) 128); put_varint n d (offset + 1) (Z.shiftr v 7)
    end
  else d ← put d offset v; Ok (d, offset).
Definition encodeVarint (v : Z) (w : buffer) : outcome buffer :=
  let '(offset, dAtA) := w in
  let offset := offset - sov v in
  '(dAtA, _) ← put_varint 9 dAtA offset v;
  Ok (offset, dAtA).

(** [i -= len(x); copy(dAtA[i:], x)] *)
Definition put_bytes (x : bytes) (w : buffer) : outcome buffer :=
  let '(i, d) := w in
  let i := i - len x in
  panic_when i <? 0 ;;
  Ok (i, take (Z.to_nat i) d ++ take (length d - Z.to_nat i) x ++ drop (Z.to_nat i + length x) d).
(** [i--; dAtA[i] = tag] *)
Definition put_tag (tag : Z) (w : buffer) : outcome buffer :=
  let '(i, d) := w in d ← put d (i - 1) tag; Ok (i - 1, d).

Definition when (b : bool) (f : buffer -> outcome buffer) (w : buffer) : outcome buffer :=
  if b then f w else Ok w.
(** The three kinds of fields: a length and bytes, a number, and a message that writes
    itself into [dAtA[:i]], which shares the buffer. *)
Definition bytes_field (tag : Z) (x : bytes) (w : buffer) : outcome buffer :=
  w ← put_bytes x w; w ← encodeVarint (len x) w; put_tag tag w.
Definition varint_field (tag : Z) (v : Z) (w : buffer) : outcome buffer :=
  w ← encodeVarint (u64 v) w; put_tag tag w.
Definition message_field (tag : Z) (MarshalToSizedBuffer : bytes -> outcome (Z * bytes))
    (w : buffer) : outcome buffer :=
  let '(i, d) := w in
  panic_when (i <? 0) || (len d <? i) ;;
  '(size, d1) ← MarshalToSizedBuffer (take (Z.to_nat i) d);
  w ← encodeVarint (u64 size) (i - size, d1 ++ drop (Z.to_nat i) d);
  put_tag tag w.
(** [for iNdEx := len(l) - 1; iNdEx >= 0; iNdEx--] *)
Fixpoint repeated {A} (field : A -> buffer -> outcome buffer) (l : list A) (w : buffer) : outcome buffer :=
  match l with
  | [] => Ok w
  | x :: l => w ← repeated field l w; field x w
  end.

(** ** Reading *)

(** The loop that reads a varint: [acc |= T(b&0x7F) << shift] for a type [T] of width
    [wrap]; it fails at [shift >= 64], after ten bytes. *)
Fixpoint varint_from (wrap : Z -> Z) (n : nat) (shift acc : Z) (d : bytes) (i : Z) : outcome (Z * Z) :=
  match n with
  | O => Err ErrIntOverflow
  | S n =>
      return_if len d <=? i with ErrUnexpectedEOF ;;
      match d !! Z.to_nat i with
      | None => Panic
      | Some b =>
          let acc := Z.lor acc (wrap (Z.shiftl (Z.land (byte_to_Z b) 127) shift)) in
          if byte_to_Z b <? 128 then Ok (acc, i + 1)
          else varint_from wrap n (shift + 7) acc d (i + 1)
      end
  end.
Definition varint (wrap : Z -> Z) : bytes -> Z -> outcome (Z * Z) := varint_from wrap 10 0 0.

(** A length and the end of what it spans: [iNdEx] and [postIndex]. *)
Definition read_len (d : bytes) (i : Z) : outcome (Z * Z) :=
  '(byteLen, i) ← varint i64 d i;
  return_if byteLen <? 0 with ErrInvalidLength ;;
  let postIndex := i64 (i + byteLen) in
  return_if postIndex <? 0 with ErrInvalidLength ;;
  return_if len d <? postIndex with ErrUnexpectedEOF ;;
  Ok (i, postIndex).

(** [skip]: the length of the first field of [d], groups included. *)
Fixpoint skip_from (fuel : nat) (d : bytes) (i depth : Z) : outcome Z :=
  if len d <=? i then Err ErrUnexpectedEOF else
  match fuel with
  | O => Err out_of_fuel
  | S fuel =>
      '(wire, i) ← varint u64 d i;
      '(i, depth) ←
        match Z.land wire 7 with
        | 0 => '(_, i) ← varint u64 d i; Ok (i, depth)
        | 1 => Ok (i64 (i + 8), depth)
        | 2 => '(length, i) ← varint i64 d i;
               return_if length <? 0 with ErrInvalidLength ;;
               Ok (i64 (i + length), depth)
        | 3 => Ok (i, depth + 1)
        | 4 => return_if depth =? 0 with ErrUnexpectedEndOfGroup ;; Ok (i, depth - 1)
        | 5 => Ok (i64 (i + 4), depth)
        | _ => Err (ErrText "proto: illegal wireType")
        end;
      return_if i <? 0 with ErrInvalidLength ;;
      if depth =? 0 then Ok i else skip_from fuel d i depth
  end.
Definition skip (d : bytes) : outcome Z := skip_from (length d) d 0 0.

(** The loop over the fields of a message: [field] reads the fields the message declares,
    from the index after the tag; the others are skipped. *)
Section Fields.
Context {M : Type}.
Context (field : Z -> option (bytes -> Z -> Z -> M -> outcome (M * Z))).

Definition skip_field (d : bytes) (preIndex : Z) : outcome Z :=
  skippy ← skip (drop (Z.to_nat preIndex) d);
  return_if (skippy <? 0) || (i64 (preIndex + skippy) <? 0) with ErrInvalidLength ;;
  return_if len d <? i64 (preIndex + skippy) with ErrUnexpectedEOF ;;
  Ok (preIndex + skippy).

(** One turn of the loop. *)
Definition next_field (d : bytes) (m : M) (preIndex : Z) : outcome (M * Z) :=
  '(wire, i) ← varint u64 d preIndex;
  let fieldNum := i32 (Z.shiftr wire 3) in
  let wireType := Z.land wire 7 in
  return_if wireType =? 4 with ErrText "proto: wiretype end group for non-group" ;;
  return_if fieldNum <=? 0 with ErrText "proto: illegal tag" ;;
  match field fieldNum with
  | Some read => read d wireType i m
  | None => i ← skip_field d preIndex; Ok (m, i)
  end.

Fixpoint fields_from (fuel : nat) (d : bytes) (m : M) (i : Z) : outcome M :=
  if i <? len d then
    match fuel with
    | O => Err out_of_fuel
    | S fuel => '(m, i) ← next_field d m i; fields_from fuel d m i
    end
  else return_if len d <? i with ErrUnexpectedEOF ;; Ok m.
Definition unmarshal (d : bytes) (m : M) : outcome M := fields_from (length d) d m 0.
End Fields.

(** The wire type of a field is checked before its value is read. *)
Definition wrong_wire_type := ErrText "proto: wrong wireType".
Definition read_bytes {M} (set : bytes -> M -> M) (d : bytes) (wireType i : Z) (m : M) : outcome (M * Z) :=
  return_if negb (wireType =? 2) with wrong_wire_type ;;
  '(i, postIndex) ← read_len d i;
  Ok (set (slice d i postIndex) m, postIndex).
Definition read_varint {M} (wrap : Z -> Z) (set : Z -> M -> M) (d : bytes) (wireType i : Z) (m : M) : outcome (M * Z) :=
  return_if negb (wireType =? 0) with wrong_wire_type ;;
  '(v, i) ← varint wrap d i;
  Ok (set v m, i).
Definition read_message {M A} (Unmarshal : bytes -> M -> outcome A) (set : A -> M -> M)
    (d : bytes) (wireType i : Z) (m : M) : outcome (M * Z) :=
  return_if negb (wireType =? 2) with wrong_wire_type ;;
  '(i, postIndex) ← read_len d i;
  a ← Unmarshal (slice d i postIndex) m;
  Ok (set a m, postIndex).

(** * Facts on the encoding

    Varints are read as they are written; a field writes its bytes before those written so
    far ([writes]); a field that is read brings the loop over the fields behind it
    ([decodes]); and the loops end within their fuel. *)
(** ** Bytes *)

Lemma len_app {A} (l k : list A) : len (l ++ k) = len l + len k.
Proof. unfold len. rewrite length_app. lia. Qed.
Lemma len_cons {A} (x : A) l : len (x :: l) = 1 + len l.
Proof. unfold len. cbn [length]. lia. Qed.
Lemma len_nonneg {A} (l : list A) : 0 <= len l.
Proof. unfold len. lia. Qed.
Lemma len_nil {A} : len (@nil A) = 0.
Proof. done. Qed.

Lemma byte_to_Z_of z : 0 <= z < 256 -> byte_to_Z (byte_of_Z z) = z.
Proof. intros. unfold byte_to_Z. rewrite to_N_byte_of_Z. by apply Z.mod_small. Qed.

Lemma land_127 v : Z.land v 127 = v mod 128.
Proof. change 127 with (Z.ones 7). by rewrite Z.land_ones. Qed.

Lemma continued v : 0 <= Z.lor (Z.land v 127) 128 < 256 /\ 128 <= Z.lor (Z.land v 127) 128 /\
  Z.land (Z.lor (Z.land v 127) 128) 127 = Z.land v 127.
Proof.
  assert (Z.lor (Z.land v 127) 128 = Z.land v 127 + 128) as ->.
  { rewrite Z.add_nocarry_lxor, <- Z.lxor_lor; try done; rewrite <- Z.land_assoc; by rewrite Z.land_0_r. }
  rewrite land_127. pose proof (Z.mod_pos_bound v 128 ltac:(lia)). split_and!; [lia..|].
  rewrite land_127. rewrite <- Zplus_mod_idemp_r. rewrite Z.add_0_r. apply Z.mod_small. lia.
Qed.

(** ** Widths *)

(** A width keeps the bits of a disjunction. *)
Definition wraps (wrap : Z -> Z) : Prop :=
  wrap 0 = 0 /\ forall a b, wrap (Z.lor a b) = Z.lor (wrap a) (wrap b).

Lemma wraps_u64 : wraps u64.
Proof. split; [done|]. intros a b. unfold u64. rewrite <- !Z.land_ones by done. apply Z.land_lor_distr_l. Qed.

Lemma sign_bits n x k : 0 <= n -> - 2 ^ n <= x < 2 ^ n -> n <= k -> Z.testbit x k = (x <? 0).
Proof.
  intros Hn Hx Hk.
  assert (forall y, 0 <= y < 2 ^ n -> Z.testbit y k = false) as High.
  { intros y Hy. rewrite <- (Z.mod_small y (2 ^ n)) by done. by apply Z.mod_pow2_bits_high. }
  destruct (Z.ltb_spec x 0) as [L|L].
  - rewrite <- (Z.lnot_involutive x), Z.lnot_spec by lia. rewrite High; [done|]. unfold Z.lnot. lia.
  - apply High. lia.
Qed.

Lemma sx_range w z : 0 < w -> - 2 ^ (w - 1) <= sx w z < 2 ^ (w - 1).
Proof.
  intros Hw. unfold sx. pose proof (Z.mod_pos_bound (z + 2 ^ (w - 1)) (2 ^ w) ltac:(lia)).
  assert (2 ^ w = 2 * 2 ^ (w - 1)) by (rewrite <- Z.pow_succ_r by lia; f_equal; lia). lia.
Qed.

Lemma sx_bits w z k : 0 < w -> 0 <= k -> Z.testbit (sx w z) k = Z.testbit z (Z.min k (w - 1)).
Proof.
  intros Hw Hk.
  assert (forall j, 0 <= j < w -> Z.testbit (sx w z) j = Z.testbit z j) as Low.
  { intros j Hj. rewrite <- (Z.mod_pow2_bits_low (sx w z) w j), <- (Z.mod_pow2_bits_low z w j) by lia. f_equal.
    unfold sx. rewrite Zminus_mod_idemp_l. f_equal. lia. }
  destruct (Z.le_gt_cases k (w - 1)) as [L|L].
  - rewrite Z.min_l by done. apply Low. lia.
  - rewrite Z.min_r by lia. rewrite <- (Low (w - 1)) by lia.
    rewrite !(sign_bits (w - 1)); try lia; by apply sx_range.
Qed.

Lemma wraps_sx w : 0 < w -> wraps (sx w).
Proof.
  intros Hw. split.
  - apply Z.bits_inj'. intros k Hk. rewrite sx_bits by done. by rewrite !Z.bits_0.
  - intros a b. apply Z.bits_inj'. intros k Hk. rewrite Z.lor_spec, !sx_bits by done. by rewrite Z.lor_spec.
Qed.

Lemma wraps_i64 : wraps i64.
Proof. by apply (wraps_sx 64). Qed.
Lemma wraps_i32 : wraps i32.
Proof. by apply (wraps_sx 32). Qed.
#[export] Hint Resolve wraps_u64 wraps_i64 wraps_i32 : wire.

Lemma sx_u64 w z : 0 < w <= 64 -> sx w (u64 z) = sx w z.
Proof.
  intros Hw. apply Z.bits_inj'. intros k Hk. rewrite !sx_bits by lia. unfold u64.
  by rewrite Z.mod_pow2_bits_low by lia.
Qed.
Lemma sx_small w z : 0 < w -> - 2 ^ (w - 1) <= z < 2 ^ (w - 1) -> sx w z = z.
Proof.
  intros Hw Hz. unfold sx. assert (2 ^ w = 2 * 2 ^ (w - 1)) by (rewrite <- Z.pow_succ_r by lia; f_equal; lia).
  rewrite Z.mod_small by lia. lia.
Qed.

(** ** Varints *)

(** The bytes of a varint. *)
Fixpoint varint_bytes (n : nat) (v : Z) : bytes :=
  if 128 <=? v then
    match n with O => [] | S n => byte_of_Z (Z.lor (Z.land v 127) 128) :: varint_bytes n (Z.shiftr v 7) end
  else [byte_of_Z v].
Definition uvarint (v : Z) : bytes := varint_bytes 9 v.

Lemma shiftr_7 n v : 0 <= v < 2 ^ (7 * Z.of_nat (S (S n))) -> 0 <= Z.shiftr v 7 < 2 ^ (7 * Z.of_nat (S n)).
Proof.
  intros Hv. rewrite Z.shiftr_div_pow2 by lia. split; [apply Z.div_pos; lia|].
  apply Z.div_lt_upper_bound; [lia|]. rewrite <- Z.pow_add_r by lia.
  replace (7 + 7 * Z.of_nat (S n)) with (7 * Z.of_nat (S (S n))) by lia. lia.
Qed.

Lemma sov_small v : 0 <= v < 128 -> sov v = 1.
Proof.
  intros Hv. unfold sov, Len64. assert (Z.lor v 1 <> 0) by (intros E%Z.lor_eq_0_iff; lia).
  rewrite (proj2 (Z.eqb_neq _ _)) by done. rewrite Z.log2_lor by lia. change (Z.log2 1) with 0.
  assert (0 <= Z.log2 v <= 6); [|rewrite Z.max_l by lia].
  - split; [apply Z.log2_nonneg|]. change 6 with (Z.log2 127). apply Z.log2_le_mono. lia.
  - symmetry. apply (Z.div_unique _ _ _ (Z.log2 v)); lia.
Qed.

Lemma sov_step v : 128 <= v -> sov v = 1 + sov (Z.shiftr v 7).
Proof.
  intros Hv. assert (0 < Z.shiftr v 7).
  { rewrite Z.shiftr_div_pow2 by lia. apply Z.div_str_pos. lia. }
  assert (forall x, 0 < x -> sov x = (Z.log2 x + 7) / 7) as S.
  { intros x Hx. unfold sov, Len64. assert (Z.lor x 1 <> 0) by (intros E%Z.lor_eq_0_iff; lia).
    rewrite (proj2 (Z.eqb_neq _ _)) by done. rewrite Z.log2_lor by lia. change (Z.log2 1) with 0.
    pose proof (Z.log2_nonneg x). rewrite Z.max_l by lia. f_equal. lia. }
  rewrite !S by lia. rewrite Z.log2_shiftr by lia.
  assert (7 <= Z.log2 v) by (change 7 with (Z.log2 128); apply Z.log2_le_mono; lia).
  rewrite Z.max_r by lia. replace (Z.log2 v + 7) with (1 * 7 + (Z.log2 v - 7 + 7)) by lia.
  by rewrite Z.div_add_l by lia.
Qed.

Lemma len_varint_bytes n v : 0 <= v < 2 ^ (7 * Z.of_nat (S n)) -> len (varint_bytes n v) = sov v.
Proof.
  revert v. induction n as [|n IH]; intros v Hv; cbn [varint_bytes].
  - destruct (Z.leb_spec 128 v); [cbn in Hv; lia|]. rewrite sov_small by lia. done.
  - destruct (Z.leb_spec 128 v).
    + rewrite len_cons, IH by by apply shiftr_7. rewrite (sov_step v); lia.
    + rewrite sov_small by lia. done.
Qed.

Lemma len_uvarint v : in_u64 v -> len (uvarint v) = sov v.
Proof. unfold in_u64, MaxUint64. intros. apply len_varint_bytes. change (2 ^ (7 * Z.of_nat 10)) with (2 ^ 70). lia. Qed.

Lemma sov_pos v : 0 <= v -> 1 <= sov v.
Proof.
  intros Hv. unfold sov, Len64. destruct (_ =? _) eqn:E; bool_hyps.
  - apply Z.lor_eq_0_iff in E. lia.
  - apply Z.div_le_lower_bound; [lia|]. pose proof (Z.log2_nonneg (Z.lor v 1)). lia.
Qed.

(** The first byte of what is left at an index. *)
Lemma drop_cons {A} (d : list A) i x l : 0 <= i -> drop (Z.to_nat i) d = x :: l ->
  i < len d /\ d !! Z.to_nat i = Some x /\ drop (Z.to_nat (i + 1)) d = l.
Proof.
  intros Hi E. assert (d !! Z.to_nat i = Some x) as Hx.
  { rewrite <- (Nat.add_0_r (Z.to_nat i)), <- lookup_drop, E. done. }
  split_and!; [|done|].
  - apply lookup_lt_Some in Hx. unfold len. lia.
  - replace (Z.to_nat (i + 1)) with (Z.to_nat i + 1)%nat by lia. by rewrite <- drop_drop, E.
Qed.

Lemma drop_app_at {A} (d : list A) i s tail : 0 <= i -> drop (Z.to_nat i) d = s ++ tail ->
  (s <> [] -> i + len s <= len d) /\ drop (Z.to_nat (i + len s)) d = tail.
Proof.
  intros Hi E. split.
  - intros Hs. pose proof (f_equal length E) as L. rewrite length_drop, length_app in L. unfold len.
    destruct s; [done|]. cbn [length] in *. lia.
  - replace (Z.to_nat (i + len s)) with (Z.to_nat i + length s)%nat by (unfold len; lia).
    by rewrite <- drop_drop, E, drop_app_length.
Qed.

(** Reading a varint at the head of what is left. *)
Lemma varint_from_spec wrap n shift acc v d i tail : wraps wrap -> 0 <= shift -> 0 <= i ->
  0 <= v < 2 ^ (7 * Z.of_nat (S n)) -> drop (Z.to_nat i) d = varint_bytes n v ++ tail ->
  varint_from wrap (S n) shift (wrap acc) d i
  = Ok (wrap (Z.lor acc (Z.shiftl v shift)), i + len (varint_bytes n v)).
Proof.
  intros [W0 W]. revert shift acc v i. induction n as [|n IH]; intros shift acc v i Hs Hi Hv Hd.
  - cbn [varint_bytes] in *. destruct (Z.leb_spec 128 v); [cbn in Hv; lia|].
    apply drop_cons in Hd as (Hl & Hb & _); [|done]. cbn [varint_from].
    rewrite (proj2 (Z.leb_gt _ _)) by done. cbn [fail_if]. rewrite Hb, byte_to_Z_of by lia.
    rewrite (proj2 (Z.ltb_lt _ _)) by lia. rewrite land_127, Z.mod_small by lia. rewrite <- W. done.
  - cbn [varint_bytes] in *. remember (S n) as n' eqn:En. cbn [varint_from]. destruct (Z.leb_spec 128 v).
    + apply drop_cons in Hd as (Hl & Hb & Hd); [|done]. destruct (continued v) as (C1 & C2 & C3).
      rewrite (proj2 (Z.leb_gt _ _)) by done. cbn [fail_if]. rewrite Hb, byte_to_Z_of by lia.
      rewrite (proj2 (Z.ltb_ge _ _)) by lia. rewrite C3, <- W. subst n'.
      rewrite (IH _ _ (Z.shiftr v 7)); [|lia..| by apply shiftr_7 |exact Hd]. rewrite len_cons. do 2 f_equal; [|lia].
      f_equal. rewrite <- Z.lor_assoc. f_equal. apply Z.bits_inj'. intros k Hk.
      change 127 with (Z.ones 7). rewrite Z.lor_spec, !Z.shiftl_spec by done.
      destruct (Z.ltb_spec k shift). { rewrite !(Z.testbit_neg_r _ (k - shift)), (Z.testbit_neg_r _ (k - (shift + 7))) by lia. done. }
      rewrite Z.land_spec, Z.testbit_ones_nonneg by lia. destruct (Z.ltb_spec (k - shift) 7).
      * rewrite (Z.testbit_neg_r _ (k - (shift + 7))) by lia. by rewrite andb_true_r, orb_false_r.
      * rewrite Z.shiftr_spec by lia. rewrite andb_false_r. cbn [orb]. f_equal. lia.
    + apply drop_cons in Hd as (Hl & Hb & _); [|done].
      rewrite (proj2 (Z.leb_gt _ _)) by done. cbn [fail_if]. rewrite Hb, byte_to_Z_of by lia.
      rewrite (proj2 (Z.ltb_lt _ _)) by lia. rewrite land_127, Z.mod_small by lia. rewrite <- W. done.
Qed.

Lemma varint_spec wrap v d i tail : wraps wrap -> in_u64 v -> 0 <= i ->
  drop (Z.to_nat i) d = uvarint v ++ tail -> varint wrap d i = Ok (wrap v, i + len (uvarint v)).
Proof.
  intros W Hv Hi Hd. pose proof (varint_from_spec wrap 9 0 0 v d i tail W) as H. rewrite (proj1 W) in H.
  rewrite Z.shiftl_0_r, Z.lor_0_l in H. apply H; try done.
  unfold in_u64, MaxUint64 in Hv. change (2 ^ (7 * Z.of_nat 10)) with (2 ^ 70). lia.
Qed.

(** ** Ending

    [returns o Q]: the code returns, a value with [Q] or an error; the model has neither
    run out of fuel nor panicked. *)
Definition returns {A} (o : outcome A) (Q : A -> Prop) : Prop :=
  match o with Ok a => Q a | Err e => e <> out_of_fuel | Panic => False end.

Lemma returns_bind {A B} (o : outcome A) (f : A -> outcome B) Q R :
  returns o Q -> (forall a, Q a -> returns (f a) R) -> returns (o ≫= f) R.
Proof. destruct o; cbn; naive_solver. Qed.
Lemma returns_fail {A} b e (k : outcome A) Q : e <> out_of_fuel -> (b = false -> returns k Q) -> returns (fail_if b e k) Q.
Proof. destruct b; cbn; naive_solver. Qed.
Lemma returns_mono {A} (o : outcome A) (Q R : A -> Prop) : returns o Q -> (forall a, Q a -> R a) -> returns o R.
Proof. destruct o; cbn; naive_solver. Qed.
Lemma returns_ok {A} (o : outcome A) Q a : returns o Q -> o = Ok a -> Q a.
Proof. intros H ->. exact H. Qed.

(** What a varint reads: a value of its width; it moves on, within the bytes. *)
Lemma varint_from_returns wrap n shift acc d i : wraps wrap -> 0 <= i -> (exists v, acc = wrap v) ->
  returns (varint_from wrap n shift acc d i) (fun '(v, j) => (exists u, v = wrap u) /\ i < j <= len d).
Proof.
  intros [W0 W]. revert shift acc i. induction n as [|n IH]; intros shift acc i Hi [u ->]; cbn [varint_from]; [done|].
  apply returns_fail; [done|]. intros L. bool_hyps. destruct (d !! Z.to_nat i) eqn:E.
  - rewrite <- W. destruct (_ <? 128); [cbn; split; [eauto|lia]|].
    eapply returns_mono; [apply IH; [lia|eauto]|]. intros [v j] [Hv Hj]. split; [done|lia].
  - apply lookup_ge_None in E. unfold len in L. lia.
Qed.
Lemma varint_returns wrap d i : wraps wrap -> 0 <= i ->
  returns (varint wrap d i) (fun '(v, j) => (exists u, v = wrap u) /\ i < j <= len d).
Proof. intros W Hi. apply varint_from_returns; [done..|]. exists 0. by rewrite (proj1 W). Qed.

(** An index and a length that do not wrap around. *)
Lemma i64_add i n : 0 <= i <= MaxInt64 -> 0 <= n <= MaxInt64 -> 0 <= i64 (i + n) ->
  i64 (i + n) = i + n /\ i + n <= MaxInt64.
Proof.
  unfold i64, MaxInt64. intros Hi Hn H. destruct (Z.lt_ge_cases (i + n) (2 ^ 63)) as [L|L].
  - rewrite Z.mod_small; lia.
  - rewrite <- (Z.mod_unique _ (2 ^ 64) 1 (i + n + 2 ^ 63 - 2 ^ 64)) in H by lia. lia.
Qed.

Lemma read_len_returns d i : len d <= MaxInt64 -> 0 <= i ->
  returns (read_len d i) (fun '(j, k) => i < j <= k /\ k <= len d).
Proof.
  intros Hd Hi. unfold read_len. eapply returns_bind; [apply varint_returns; auto with wire|].
  intros [n j] [[u ->] Hj]. pose proof (i64_range u) as R. unfold in_i64 in R. apply returns_fail; [done|]. intros Hn.
  apply returns_fail; [done|]. intros Hp. apply returns_fail; [done|]. intros Hl. bool_hyps.
  destruct (i64_add j (i64 u)); cbn; lia.
Qed.

Lemma skip_from_returns fuel d i depth : len d <= MaxInt64 -> 0 <= i -> len d - i <= Z.of_nat fuel ->
  returns (skip_from fuel d i depth) (fun j => i < j <= MaxInt64).
Proof.
  intros Hd. revert i depth. induction fuel as [|fuel IH]; intros i depth Hi Hf; cbn [skip_from];
    destruct (Z.leb_spec (len d) i); try done; [lia|].
  eapply returns_bind; [apply varint_returns; auto with wire|]. intros [wire j] [_ Hj].
  assert (forall k n, i < k <= len d -> 0 <= n <= MaxInt64 -> 0 <= i64 (k + n) -> i < i64 (k + n) <= MaxInt64) as Move.
  { intros k n Hk Hn Hp. destruct (i64_add k n); lia. }
  apply returns_bind with (Q := fun '(k, _) => 0 <= k -> i < k <= MaxInt64).
  - repeat case_match; try done; try (cbn; intros; lia); try (cbn; apply Move; unfold MaxInt64; lia).
    + eapply returns_bind; [apply varint_returns; auto with wire; lia|]. intros [? k] [_ Hk]. cbn. lia.
    + apply returns_fail; [done|]. intros _. cbn. lia.
    + eapply returns_bind; [apply varint_returns; auto with wire; lia|]. intros [n k] [[u ->] Hk].
      apply returns_fail; [done|]. intros Hn. bool_hyps. pose proof (i64_range u) as R. unfold in_i64 in R. cbn. apply Move; lia.
  - intros [k depth'] Hk. apply returns_fail; [done|]. intros Hp. bool_hyps. specialize (Hk Hp).
    destruct (_ =? 0); [done|]. eapply returns_mono; [apply IH; lia|]. cbn. lia.
Qed.

(** ** Writing *)

(** [f] writes [s]: over the bytes before the index, as many as [s] has. *)
Definition writes (f : buffer -> outcome buffer) (s : bytes) : Prop :=
  forall junk hole tail, length hole = length s ->
    f (len (junk ++ hole), (junk ++ hole) ++ tail) = Ok (len junk, junk ++ s ++ tail).

Lemma insert_middle {A} (a : list A) x y c : <[length a := y]> (a ++ x :: c) = a ++ y :: c.
Proof. induction a; cbn; [done|]. by f_equal. Qed.

Lemma put_at a x c b : put (a ++ x :: c) (len a) b = Ok (a ++ byte_of_Z b :: c).
Proof.
  unfold put. rewrite len_app, len_cons. pose proof (len_nonneg a). pose proof (len_nonneg c).
  rewrite (proj2 (Z.ltb_ge _ _)), (proj2 (Z.leb_gt _ _)) by lia. cbn [orb panic_if].
  unfold len. by rewrite Nat2Z.id, insert_middle.
Qed.

Lemma put_varint_at n v a hole c : 0 <= v < 2 ^ (7 * Z.of_nat (S n)) -> length hole = length (varint_bytes n v) ->
  put_varint n (a ++ hole ++ c) (len a) v = Ok (a ++ varint_bytes n v ++ c, len a + len (varint_bytes n v) - 1).
Proof.
  revert v a hole. induction n as [|n IH]; intros v a hole Hv Hh; cbn [varint_bytes put_varint] in *.
  - destruct (Z.leb_spec 128 v); [cbn in Hv; lia|]. destruct hole as [|x [|y hole]]; [done| |done]. cbn [app].
    rewrite put_at. cbn. do 2 f_equal. unfold len. cbn. lia.
  - destruct (Z.leb_spec 128 v); destruct hole as [|x hole]; try done; cbn [app length] in *.
    + rewrite put_at. cbn [mbind outcome_bind].
      replace (len a + 1) with (len (a ++ [byte_of_Z (Z.lor (Z.land v 127) 128)])) by (rewrite len_app; done).
      change (a ++ ?z :: hole ++ c) with (a ++ ([z] ++ hole ++ c)). rewrite app_assoc, IH; [|by apply shiftr_7|lia].
      rewrite <- app_assoc, len_app, len_cons. do 2 f_equal. rewrite len_cons, len_nil. lia.
    + destruct hole; [|done]. cbn [app]. rewrite put_at. cbn. do 2 f_equal. unfold len. cbn. lia.
Qed.

Lemma u64_10 v : in_u64 v -> 0 <= v < 2 ^ (7 * Z.of_nat 10).
Proof. unfold in_u64, MaxUint64. change (2 ^ (7 * Z.of_nat 10)) with (2 ^ 70). lia. Qed.
#[export] Hint Resolve u64_10 : wire.

Lemma writes_varint v : in_u64 v -> writes (encodeVarint v) (uvarint v).
Proof.
  intros Hv junk hole tail Hh. unfold encodeVarint. rewrite len_app.
  replace (len junk + len hole - sov v) with (len junk) by (rewrite <- len_uvarint by done; unfold len; lia).
  rewrite <- app_assoc. rewrite put_varint_at; auto with wire.
Qed.

Lemma writes_bytes x : writes (put_bytes x) x.
Proof.
  intros junk hole tail Hh. unfold put_bytes. rewrite len_app.
  replace (len junk + len hole - len x) with (len junk) by (unfold len; lia).
  pose proof (len_nonneg junk). rewrite (proj2 (Z.ltb_ge _ _)) by done. cbn [panic_if]. unfold len at 2 3 4. rewrite !Nat2Z.id.
  rewrite <- app_assoc, take_app_length. do 3 f_equal.
  rewrite !length_app. rewrite (take_ge x) by lia. f_equal. rewrite <- Hh, <- length_app, app_assoc.
  by rewrite drop_app_length.
Qed.

Lemma writes_tag t : writes (put_tag t) [byte_of_Z t].
Proof.
  intros junk [|x [|? ?]] tail Hh; try done. unfold put_tag. rewrite len_app.
  replace (len junk + len [x] - 1) with (len junk) by (unfold len; cbn; lia). rewrite <- app_assoc. cbn [app].
  by rewrite put_at.
Qed.

Lemma writes_bind f g s t : writes f s -> writes g t -> writes (fun w => f w ≫= g) (t ++ s).
Proof.
  intros F G junk hole tail Hh. rewrite length_app in Hh.
  rewrite <- (take_drop (length t) hole). rewrite (app_assoc junk).
  rewrite F by (rewrite length_drop; lia). cbn [mbind outcome_bind].
  rewrite G by (rewrite length_take; lia). by rewrite <- app_assoc.
Qed.

Lemma writes_when b f s : (b = true -> writes f s) -> writes (when b f) (if b then s else []).
Proof.
  destruct b; cbn [when]; intros H; [auto|]. intros junk [|? ?] tail Hh; [|done]. cbn. by rewrite app_nil_r.
Qed.

Lemma writes_nothing : writes Ok [].
Proof. intros junk [|? ?] tail Hh; [|done]. cbn. by rewrite app_nil_r. Qed.

(** The bytes of a field that is a length and bytes, and of one that is a number. *)
Definition field_bytes (tag : Z) (x : bytes) : bytes := byte_of_Z tag :: uvarint (len x) ++ x.
Definition number_bytes (tag : Z) (v : Z) : bytes := byte_of_Z tag :: uvarint (u64 v).

Lemma writes_bytes_field tag x : in_u64 (len x) -> writes (bytes_field tag x) (field_bytes tag x).
Proof.
  intros Hx. apply (writes_bind (put_bytes x) (fun w => encodeVarint (len x) w ≫= put_tag tag) x (byte_of_Z tag :: uvarint (len x))).
  - apply writes_bytes.
  - apply (writes_bind _ _ _ [byte_of_Z tag]); [by apply writes_varint | apply writes_tag].
Qed.

Lemma writes_varint_field tag v : writes (varint_field tag v) (number_bytes tag v).
Proof. apply (writes_bind _ _ _ [byte_of_Z tag]); [apply writes_varint, u64_range | apply writes_tag]. Qed.

Lemma writes_sized body s d d' : writes body s -> length d' = length s ->
  (let '(i, b) := (len (d ++ d'), d ++ d') in '(i, b) ← body (i, b); Ok (len (d ++ d') - i, b)) = Ok (len s, d ++ s).
Proof.
  intros W Hd. pose proof (W d d' [] Hd) as E. rewrite !app_nil_r in E. cbn iota beta. rewrite E.
  cbn [mbind outcome_bind]. rewrite len_app. do 2 f_equal. unfold len. lia.
Qed.

Lemma writes_repeated {A} (field : A -> buffer -> outcome buffer) (enc : A -> bytes) l :
  (forall x, x ∈ l -> writes (field x) (enc x)) -> writes (repeated field l) (concat (map enc l)).
Proof.
  induction l as [|x l IH]; intros H; cbn [repeated map concat]; [apply writes_nothing|].
  apply writes_bind; [apply IH; intros; apply H; by right | apply H; by left].
Qed.

(** ** Reading *)

Section Fields.
Context {M : Type} (field : Z -> option (bytes -> Z -> Z -> M -> outcome (M * Z))).

(** The bytes [s], read anywhere in a message, bring [m] to [m']. *)
Definition decodes (s : bytes) (m m' : M) : Prop := forall fuel d i tail,
  0 <= i -> len d <= MaxInt64 -> drop (Z.to_nat i) d = s ++ tail -> (length (s ++ tail) <= fuel)%nat ->
  exists fuel', (length tail <= fuel')%nat /\
    fields_from field fuel d m i = fields_from field fuel' d m' (i + len s).

Lemma decodes_nil m : decodes [] m m.
Proof. intros fuel d i tail Hi Hd E Hf. exists fuel. cbn in *. by rewrite Z.add_0_r. Qed.

Lemma decodes_app s t m m' m'' : decodes s m m' -> decodes t m' m'' -> decodes (s ++ t) m m''.
Proof.
  intros S T fuel d i tail Hi Hd E Hf. rewrite <- app_assoc in E, Hf.
  destruct (S fuel d i (t ++ tail) Hi Hd E Hf) as (f1 & Hf1 & E1).
  destruct (T f1 d (i + len s) tail) as (f2 & Hf2 & E2); try done.
  { pose proof (len_nonneg s). lia. }
  { by apply (drop_app_at d i s). }
  exists f2. split; [done|]. rewrite E1, E2, len_app. f_equal. lia.
Qed.

Lemma unmarshal_decodes d m m' : len d <= MaxInt64 -> decodes d m m' -> unmarshal field d m = Ok m'.
Proof.
  intros Hd D. unfold unmarshal. destruct (D (length d) d 0 []) as (f & _ & ->); try done.
  - by rewrite app_nil_r.
  - rewrite app_nil_r. done.
  - rewrite Z.add_0_l. destruct f; cbn [fields_from]; rewrite Z.ltb_irrefl; done.
Qed.

(** One field whose tag takes a byte. *)
Lemma decodes_field tag read payload m m' : 0 <= tag < 128 -> 0 < Z.shiftr tag 3 -> Z.land tag 7 <> 4 ->
  field (Z.shiftr tag 3) = Some read ->
  (forall d i tail, 0 <= i -> len d <= MaxInt64 -> drop (Z.to_nat i) d = payload ++ tail ->
     read d (Z.land tag 7) i m = Ok (m', i + len payload)) ->
  decodes (byte_of_Z tag :: payload) m m'.
Proof.
  intros Ht Hn Hw Hf Hr fuel d i tail Hi Hd E Hfuel. cbn [app length] in *.
  destruct fuel as [|fuel]; [lia|]. pose proof (drop_cons _ _ _ _ Hi E) as (Hl & _ & E').
  exists fuel. rewrite length_app in Hfuel. split; [lia|]. cbn [fields_from].
  rewrite (proj2 (Z.ltb_lt _ _)) by done. unfold next_field.
  assert (uvarint tag = [byte_of_Z tag]) as U.
  { unfold uvarint. cbn [varint_bytes]. by rewrite (proj2 (Z.leb_gt _ _)) by lia. }
  rewrite (varint_spec u64 tag d i (payload ++ tail)); auto with wire; [|unfold in_u64, MaxUint64; lia|by rewrite U].
  rewrite U, u64_id by (unfold in_u64, MaxUint64; lia). cbn [mbind outcome_bind].
  rewrite (proj2 (Z.eqb_neq _ _)) by done. cbn [fail_if].
  assert (i32 (Z.shiftr tag 3) = Z.shiftr tag 3) as ->.
  { apply sx_small; [lia|]. rewrite Z.shiftr_div_pow2 by lia.
    assert (0 <= tag / 2 ^ 3 < 128) by (split; [apply Z.div_pos | apply Z.div_lt_upper_bound]; lia). lia. }
  rewrite (proj2 (Z.leb_gt _ _)) by done. cbn [fail_if]. rewrite Hf.
  change (len [byte_of_Z tag]) with 1. rewrite (Hr d (i + 1) tail) by (done || lia). cbn [mbind outcome_bind].
  rewrite len_cons. f_equal. lia.
Qed.

Lemma read_len_spec d i x tail : 0 <= i -> len d <= MaxInt64 -> drop (Z.to_nat i) d = uvarint (len x) ++ x ++ tail ->
  read_len d i = Ok (i + len (uvarint (len x)), i + len (uvarint (len x) ++ x)) /\
  slice d (i + len (uvarint (len x))) (i + len (uvarint (len x) ++ x)) = x.
Proof.
  intros Hi Hd E. pose proof (len_nonneg x). pose proof (len_nonneg (uvarint (len x))).
  assert (i + len (uvarint (len x)) + len x <= len d) as Hl.
  { rewrite app_assoc in E. rewrite <- Z.add_assoc, <- len_app. apply (drop_app_at _ _ _ tail); [done..|].
    unfold uvarint. cbn [varint_bytes]. by destruct (_ <=? _). }
  assert (in_u64 (len x)) as Hu by (unfold in_u64, MaxInt64, MaxUint64 in *; lia).
  pose proof (drop_app_at _ _ _ _ Hi E) as [_ E'].
  unfold read_len.
  rewrite (varint_spec i64 (len x) d i (x ++ tail)); auto with wire. cbn [mbind outcome_bind].
  rewrite i64_id by (unfold in_i64, MaxInt64, MinInt64 in *; lia).
  rewrite (proj2 (Z.ltb_ge _ _)) by done. cbn [fail_if].
  rewrite i64_id by (unfold in_i64, MaxInt64, MinInt64 in *; lia).
  rewrite (proj2 (Z.ltb_ge _ _)) by lia. cbn [fail_if].
  rewrite (proj2 (Z.ltb_ge _ _)) by lia. cbn [fail_if]. rewrite len_app, Z.add_assoc. split; [done|].
  unfold slice. rewrite E'. replace (Z.to_nat _) with (length x) by (unfold len; lia). by rewrite take_app_length.
Qed.

Lemma decodes_bytes tag set x m : 0 <= tag < 128 -> 0 < Z.shiftr tag 3 -> Z.land tag 7 = 2 ->
  field (Z.shiftr tag 3) = Some (read_bytes set) -> decodes (field_bytes tag x) m (set x m).
Proof.
  intros Ht Hn Hw Hf. apply decodes_field with (read := read_bytes set); try done; [lia|].
  intros d i tail Hi Hd E. rewrite <- app_assoc in E. destruct (read_len_spec d i x tail Hi Hd E) as [Hj Hs].
  unfold read_bytes. rewrite Hw. cbn [Z.eqb Pos.eqb negb fail_if]. rewrite Hj. cbn [mbind outcome_bind]. by rewrite Hs.
Qed.

Lemma decodes_message {A} tag (U : bytes -> M -> outcome A) set x a m : 0 <= tag < 128 -> 0 < Z.shiftr tag 3 ->
  Z.land tag 7 = 2 -> field (Z.shiftr tag 3) = Some (read_message U set) -> U x m = Ok a ->
  decodes (field_bytes tag x) m (set a m).
Proof.
  intros Ht Hn Hw Hf Hu. apply decodes_field with (read := read_message U set); try done; [lia|].
  intros d i tail Hi Hd E. rewrite <- app_assoc in E. destruct (read_len_spec d i x tail Hi Hd E) as [Hj Hs].
  unfold read_message. rewrite Hw. cbn [Z.eqb Pos.eqb negb fail_if]. rewrite Hj. cbn [mbind outcome_bind].
  rewrite Hs, Hu. done.
Qed.

Lemma decodes_varint tag wrap set v m : 0 <= tag < 128 -> 0 < Z.shiftr tag 3 -> Z.land tag 7 = 0 -> wraps wrap ->
  field (Z.shiftr tag 3) = Some (read_varint wrap set) -> decodes (number_bytes tag v) m (set (wrap (u64 v)) m).
Proof.
  intros Ht Hn Hw W Hf. apply decodes_field with (read := read_varint wrap set); try done; [lia|].
  intros d i tail Hi Hd E. unfold read_varint. rewrite Hw. cbn [Z.eqb negb fail_if].
  rewrite (varint_spec wrap (u64 v) d i tail); auto with wire width.
Qed.

Lemma decodes_repeated {A} (enc : A -> bytes) (put_all : list A -> M -> M) (get : M -> list A) l m :
  (forall x m, x ∈ l -> decodes (enc x) m (put_all (get m ++ [x]) m)) ->
  (forall k m, get (put_all k m) = k) -> (forall k k' m, put_all k (put_all k' m) = put_all k m) ->
  (forall m, put_all (get m) m = m) ->
  decodes (concat (map enc l)) m (put_all (get m ++ l) m).
Proof.
  intros D G P I. revert m. induction l as [|x l IH]; intros m; cbn [map concat].
  - rewrite app_nil_r, I. apply decodes_nil.
  - eapply decodes_app; [apply D; by left|].
    replace (put_all (get m ++ x :: l) m) with (put_all (get (put_all (get m ++ [x]) m) ++ l) (put_all (get m ++ [x]) m)).
    { apply IH. intros. apply D. by right. }
    rewrite G, P, <- app_assoc. done.
Qed.

(** A field is read within the message, and the message keeps [P]. *)
Definition reads_well (P : M -> Prop) (read : bytes -> Z -> Z -> M -> outcome (M * Z)) : Prop :=
  forall d wireType i m, len d <= MaxInt64 -> 0 <= i <= len d -> P m ->
    returns (read d wireType i m) (fun '(m', j) => P m' /\ i <= j <= len d).

Lemma skip_field_returns d i : len d <= MaxInt64 -> 0 <= i <= len d ->
  returns (skip_field d i) (fun j => i < j <= len d).
Proof.
  intros Hd Hi. unfold skip_field.
  eapply returns_bind; [apply skip_from_returns; unfold len, MaxInt64 in *; rewrite ?length_drop; lia|].
  intros n Hn. apply returns_fail; [done|]. intros H1. apply returns_fail; [done|]. intros H2. bool_hyps. cbn beta in *.
  destruct (i64_add i n); cbn; lia.
Qed.

(** The loop over the fields ends, and the message it answers satisfies [P]. *)
Lemma unmarshal_returns (P : M -> Prop) d m :
  (forall n read, field n = Some read -> reads_well P read) -> len d <= MaxInt64 -> P m ->
  returns (unmarshal field d m) P.
Proof.
  intros F Hd. unfold unmarshal.
  assert (forall fuel i m, 0 <= i <= len d -> len d - i <= Z.of_nat fuel -> P m ->
    returns (fields_from field fuel d m i) P) as Loop; [|apply Loop; pose proof (len_nonneg d); unfold len; lia].
  induction fuel as [|fuel IH]; intros i m' Hi Hf HP; cbn [fields_from];
    destruct (Z.ltb_spec i (len d)); try (by rewrite (proj2 (Z.ltb_ge _ _)) by lia); [lia|].
  apply returns_bind with (Q := fun '(m'', j) => P m'' /\ i < j <= len d).
  - unfold next_field. eapply returns_bind; [apply varint_returns; auto with wire; lia|].
    intros [wire j] [_ Hj]. apply returns_fail; [done|]. intros _. apply returns_fail; [done|]. intros _.
    destruct (field _) as [read|] eqn:E.
    + eapply returns_mono; [apply (F _ _ E); (done || lia)|]. intros [m'' k] [? ?]. split; [done|lia].
    + eapply returns_bind; [apply skip_field_returns; lia|]. intros k Hk. cbn beta in Hk. cbn. split; [done|lia].
  - intros [m'' j] [HP' Hj]. apply IH; (done || lia).
Qed.

Lemma slice_within d i j : 0 <= i <= j -> len (slice d i j) <= len d.
Proof. intros H. unfold slice, len. rewrite length_take, length_drop. lia. Qed.

Lemma reads_well_bytes (P : M -> Prop) set : (forall x m, P m -> P (set x m)) -> reads_well P (read_bytes set).
Proof.
  intros S d wt i m Hd Hi HP. unfold read_bytes. apply returns_fail; [done|]. intros _.
  eapply returns_bind; [apply read_len_returns; lia|]. intros [j k] Hj. cbn. split; [by apply S|lia].
Qed.

Lemma reads_well_varint (P : M -> Prop) wrap set : wraps wrap -> (forall u m, P m -> P (set (wrap u) m)) ->
  reads_well P (read_varint wrap set).
Proof.
  intros W S d wt i m Hd Hi HP. unfold read_varint. apply returns_fail; [done|]. intros _.
  eapply returns_bind; [apply varint_returns; (done || lia)|]. intros [v j] [[u ->] Hj]. cbn. split; [by apply S|lia].
Qed.

Lemma reads_well_message {A} (P : M -> Prop) (Q : A -> Prop) (U : bytes -> M -> outcome A) set :
  (forall d m, len d <= MaxInt64 -> P m -> returns (U d m) Q) -> (forall a m, Q a -> P m -> P (set a m)) ->
  reads_well P (read_message U set).
Proof.
  intros HU S d wt i m Hd Hi HP. unfold read_message. apply returns_fail; [done|]. intros _.
  eapply returns_bind; [apply read_len_returns; lia|]. intros [j k] Hj.
  eapply returns_bind; [apply HU; [|done]; pose proof (slice_within d j k); lia|].
  intros a Ha. cbn. split; [by apply S|lia].
Qed.
End Fields.
