(* ===== verification/VoteCodec.v ===== *)
(** * The encoding of vote extensions

    Models the generated codecs of [sidetxs/vote_ext.pb.go] ([VoteExtension],
    [SideTxResponse]) and of [MilestoneProposition] in
    [x/milestone/types/milestone.pb.go]: sizes, marshalling into a buffer of that size, and
    unmarshalling, which adds to what the message held before. *)
From S2P Require Import Prelude Helpers VoteTypes Wire ExtendVote.
#[local] Open Scope Z_scope.

(** A message is marshalled into a buffer of its size. *)
Definition marshal_sized (body : buffer -> outcome buffer) (dAtA : bytes) : outcome (Z * bytes) :=
  '(i, d) ← body (len dAtA, dAtA);
  Ok (len dAtA - i, d).
Definition marshal (size : Z) (MarshalToSizedBuffer : bytes -> outcome (Z * bytes)) : outcome bytes :=
  '(n, d) ← MarshalToSizedBuffer (repeat Byte.x00 (Z.to_nat size));
  Ok (take (Z.to_nat n) d).
(** The size of a field that is a length and [l] bytes. *)
Definition sized (l : Z) : Z := 1 + l + sov (u64 l).

(** ** SideTxResponse *)

Definition SideTxResponse_Size (m : SideTxResponse) : Z :=
  (if 0 <? len (TxHash m) then sized (len (TxHash m)) else 0) +
  (if negb (Result m =? 0) then 1 + sov (u64 (Result m)) else 0).

Definition SideTxResponse_body (m : SideTxResponse) (w : buffer) : outcome buffer :=
  w ← when (negb (Result m =? 0)) (varint_field 0x10 (Result m)) w;
  when (0 <? len (TxHash m)) (bytes_field 0xa (TxHash m)) w.
Definition SideTxResponse_MarshalToSizedBuffer (m : SideTxResponse) : bytes -> outcome (Z * bytes) :=
  marshal_sized (SideTxResponse_body m).

Definition no_response : SideTxResponse := {| TxHash := []; Result := 0 |}.
Definition SideTxResponse_field (fieldNum : Z)
    : option (bytes -> Z -> Z -> SideTxResponse -> outcome (SideTxResponse * Z)) :=
  match fieldNum with
  | 1 => Some (read_bytes (fun x m => {| TxHash := x; Result := Result m |}))
  | 2 => Some (read_varint i32 (fun v m => {| TxHash := TxHash m; Result := v |}))
  | _ => None
  end.
Definition SideTxResponse_Unmarshal : bytes -> SideTxResponse -> outcome SideTxResponse :=
  unmarshal SideTxResponse_field.

(** ** MilestoneProposition *)

Definition set_BlockHashes x m := {| BlockHashes := x; StartBlockNumber := StartBlockNumber m; ParentHash := ParentHash m;
  BlockTds := BlockTds m; LatestBlockNumber := LatestBlockNumber m; LatestBlockHash := LatestBlockHash m |}.
Definition set_StartBlockNumber x m := {| BlockHashes := BlockHashes m; StartBlockNumber := x; ParentHash := ParentHash m;
  BlockTds := BlockTds m; LatestBlockNumber := LatestBlockNumber m; LatestBlockHash := LatestBlockHash m |}.
Definition set_ParentHash x m := {| BlockHashes := BlockHashes m; StartBlockNumber := StartBlockNumber m; ParentHash := x;
  BlockTds := BlockTds m; LatestBlockNumber := LatestBlockNumber m; LatestBlockHash := LatestBlockHash m |}.
Definition set_BlockTds x m := {| BlockHashes := BlockHashes m; StartBlockNumber := StartBlockNumber m; ParentHash := ParentHash m;
  BlockTds := x; LatestBlockNumber := LatestBlockNumber m; LatestBlockHash := LatestBlockHash m |}.
Definition set_LatestBlockNumber x m := {| BlockHashes := BlockHashes m; StartBlockNumber := StartBlockNumber m; ParentHash := ParentHash m;
  BlockTds := BlockTds m; LatestBlockNumber := x; LatestBlockHash := LatestBlockHash m |}.
Definition set_LatestBlockHash x m := {| BlockHashes := BlockHashes m; StartBlockNumber := StartBlockNumber m; ParentHash := ParentHash m;
  BlockTds := BlockTds m; LatestBlockNumber := LatestBlockNumber m; LatestBlockHash := x |}.

Definition MilestoneProposition_Size (m : MilestoneProposition) : Z :=
  Zsum (map (fun b => sized (len b)) (BlockHashes m)) +
  (if negb (StartBlockNumber m =? 0) then 1 + sov (u64 (StartBlockNumber m)) else 0) +
  (if 0 <? len (ParentHash m) then sized (len (ParentHash m)) else 0) +
  (if 0 <? len (BlockTds m) then sized (Zsum (map sov (BlockTds m))) else 0) +
  (if negb (LatestBlockNumber m =? 0) then 1 + sov (u64 (LatestBlockNumber m)) else 0) +
  (if 0 <? len (LatestBlockHash m) then sized (len (LatestBlockHash m)) else 0).

(** The numbers are packed forwards into a buffer of ten bytes for each. *)
Fixpoint pack (tds : list Z) (d : bytes) (j : Z) : outcome (bytes * Z) :=
  match tds with
  | [] => Ok (d, j)
  | num :: tds => '(d, j) ← put_varint 9 d j num; pack tds d (j + 1)
  end.
Definition packed_field (tag : Z) (tds : list Z) (w : buffer) : outcome buffer :=
  '(d2, j1) ← pack tds (repeat Byte.x00 (length tds * 10)) 0;
  bytes_field tag (take (Z.to_nat j1) d2) w.

Definition MilestoneProposition_body (m : MilestoneProposition) (w : buffer) : outcome buffer :=
  w ← when (0 <? len (LatestBlockHash m)) (bytes_field 0x32 (LatestBlockHash m)) w;
  w ← when (negb (LatestBlockNumber m =? 0)) (varint_field 0x28 (LatestBlockNumber m)) w;
  w ← when (0 <? len (BlockTds m)) (packed_field 0x22 (BlockTds m)) w;
  w ← when (0 <? len (ParentHash m)) (bytes_field 0x1a (ParentHash m)) w;
  w ← when (negb (StartBlockNumber m =? 0)) (varint_field 0x10 (StartBlockNumber m)) w;
  repeated (bytes_field 0xa) (BlockHashes m) w.
Definition MilestoneProposition_MarshalToSizedBuffer (m : MilestoneProposition) : bytes -> outcome (Z * bytes) :=
  marshal_sized (MilestoneProposition_body m).

(** [for iNdEx < postIndex]: a number may reach beyond [postIndex], up to the end of the
    message. *)
Fixpoint unpack (fuel : nat) (d : bytes) (postIndex : Z) (tds : list Z) (i : Z) : outcome (list Z * Z) :=
  if i <? postIndex then
    match fuel with
    | O => Err out_of_fuel
    | S fuel => '(v, i) ← varint u64 d i; unpack fuel d postIndex (tds ++ [v]) i
    end
  else Ok (tds, i).
Definition read_packed {M} (get : M -> list Z) (set : list Z -> M -> M) (d : bytes) (wireType i : Z) (m : M) : outcome (M * Z) :=
  if wireType =? 0 then '(v, i) ← varint u64 d i; Ok (set (get m ++ [v]) m, i)
  else if wireType =? 2 then
    '(i, postIndex) ← read_len d i;
    '(tds, i) ← unpack (length d) d postIndex (get m) i;
    Ok (set tds m, i)
  else Err wrong_wire_type.

Definition no_proposition : MilestoneProposition :=
  {| BlockHashes := []; StartBlockNumber := 0; ParentHash := []; BlockTds := []; LatestBlockNumber := 0; LatestBlockHash := [] |}.
Definition MilestoneProposition_field (fieldNum : Z)
    : option (bytes -> Z -> Z -> MilestoneProposition -> outcome (MilestoneProposition * Z)) :=
  match fieldNum with
  | 1 => Some (read_bytes (fun x m => set_BlockHashes (BlockHashes m ++ [x]) m))
  | 2 => Some (read_varint u64 set_StartBlockNumber)
  | 3 => Some (read_bytes set_ParentHash)
  | 4 => Some (read_packed BlockTds set_BlockTds)
  | 5 => Some (read_varint u64 set_LatestBlockNumber)
  | 6 => Some (read_bytes set_LatestBlockHash)
  | _ => None
  end.
Definition MilestoneProposition_Unmarshal : bytes -> MilestoneProposition -> outcome MilestoneProposition :=
  unmarshal MilestoneProposition_field.

(** ** VoteExtension *)

Definition hash_of_block (m : VoteExtension) : bytes := default [] (vx_BlockHash m).

Definition VoteExtension_Size (m : VoteExtension) : Z :=
  (if 0 <? len (hash_of_block m) then sized (len (hash_of_block m)) else 0) +
  (if negb (vx_Height m =? 0) then 1 + sov (u64 (vx_Height m)) else 0) +
  Zsum (map (fun e => sized (SideTxResponse_Size e)) (SideTxResponses m)) +
  match vx_MilestoneProposition m with Some p => sized (MilestoneProposition_Size p) | None => 0 end.

Definition VoteExtension_body (m : VoteExtension) (w : buffer) : outcome buffer :=
  w ← match vx_MilestoneProposition m with
      | Some p => message_field 0x22 (MilestoneProposition_MarshalToSizedBuffer p) w
      | None => Ok w
      end;
  w ← repeated (fun e => message_field 0x1a (SideTxResponse_MarshalToSizedBuffer e)) (SideTxResponses m) w;
  w ← when (negb (vx_Height m =? 0)) (varint_field 0x10 (vx_Height m)) w;
  when (0 <? len (hash_of_block m)) (bytes_field 0xa (hash_of_block m)) w.
Definition VoteExtension_MarshalToSizedBuffer (m : VoteExtension) : bytes -> outcome (Z * bytes) :=
  marshal_sized (VoteExtension_body m).
Definition VoteExtension_Marshal (m : VoteExtension) : outcome bytes :=
  marshal (VoteExtension_Size m) (VoteExtension_MarshalToSizedBuffer m).

Definition set_BlockHash x m := {| vx_BlockHash := x; vx_Height := vx_Height m; SideTxResponses := SideTxResponses m;
  vx_MilestoneProposition := vx_MilestoneProposition m |}.
Definition set_Height x m := {| vx_BlockHash := vx_BlockHash m; vx_Height := x; SideTxResponses := SideTxResponses m;
  vx_MilestoneProposition := vx_MilestoneProposition m |}.
Definition set_SideTxResponses x m := {| vx_BlockHash := vx_BlockHash m; vx_Height := vx_Height m; SideTxResponses := x;
  vx_MilestoneProposition := vx_MilestoneProposition m |}.
Definition set_MilestoneProposition x m := {| vx_BlockHash := vx_BlockHash m; vx_Height := vx_Height m;
  SideTxResponses := SideTxResponses m; vx_MilestoneProposition := x |}.

Definition no_extension : VoteExtension :=
  {| vx_BlockHash := None; vx_Height := 0; SideTxResponses := []; vx_MilestoneProposition := None |}.
Definition VoteExtension_field (fieldNum : Z)
    : option (bytes -> Z -> Z -> VoteExtension -> outcome (VoteExtension * Z)) :=
  match fieldNum with
  | 1 => Some (read_bytes (fun x => set_BlockHash (Some x)))
  | 2 => Some (read_varint i64 set_Height)
  | 3 => Some (read_message (fun d _ => SideTxResponse_Unmarshal d no_response)
                 (fun e m => set_SideTxResponses (SideTxResponses m ++ [e]) m))
  | 4 => Some (read_message (fun d m => MilestoneProposition_Unmarshal d (default no_proposition (vx_MilestoneProposition m)))
                 (fun p => set_MilestoneProposition (Some p)))
  | _ => None
  end.
Definition VoteExtension_Unmarshal : bytes -> VoteExtension -> outcome VoteExtension := unmarshal VoteExtension_field.

(** ** Tests *)

Definition sample : VoteExtension :=
  {| vx_BlockHash := Some [Byte.x01; Byte.x02]; vx_Height := -1;
     SideTxResponses := [{| TxHash := [Byte.x03]; Result := 2 |}; no_response];
     vx_MilestoneProposition := Some {| BlockHashes := [[Byte.x04]; []; [Byte.x05; Byte.x06]]; StartBlockNumber := 300;
       ParentHash := []; BlockTds := [0; 127; 128; MaxUint64]; LatestBlockNumber := MaxUint64; LatestBlockHash := [Byte.x07] |} |}.

Example sample_round_trips : (bz ← VoteExtension_Marshal sample; VoteExtension_Unmarshal bz no_extension) = Ok sample.
Proof. vm_compute. reflexivity. Qed.
