(* ===== verification/VoteCodecCorrect.v ===== *)
(** * The encoding of vote extensions: correctness

    Marshalling fills exactly the buffer of the computed size, with the fields in order, and
    unmarshalling brings the extension back; unmarshalling ends on every input, and what it
    answers is in range. *)
From S2P Require Import Prelude Helpers External VoteTypes MilestoneCollect MilestoneCorrect MilestoneFinality ExtendVote Wire VoteCodec.
#[local] Open Scope Z_scope.

(** ** The bytes of a message *)

Definition opt_bytes (b : bool) (s : bytes) : bytes := if b then s else [].
Definition side_bytes (m : SideTxResponse) : bytes :=
  opt_bytes (0 <? len (TxHash m)) (field_bytes 0xa (TxHash m)) ++
  opt_bytes (negb (Result m =? 0)) (number_bytes 0x10 (Result m)).
Definition packed (tds : list Z) : bytes := concat (map uvarint tds).
Definition proposition_bytes (m : MilestoneProposition) : bytes :=
  concat (map (field_bytes 0xa) (BlockHashes m)) ++
  opt_bytes (negb (StartBlockNumber m =? 0)) (number_bytes 0x10 (StartBlockNumber m)) ++
  opt_bytes (0 <? len (ParentHash m)) (field_bytes 0x1a (ParentHash m)) ++
  opt_bytes (0 <? len (BlockTds m)) (field_bytes 0x22 (packed (BlockTds m))) ++
  opt_bytes (negb (LatestBlockNumber m =? 0)) (number_bytes 0x28 (LatestBlockNumber m)) ++
  opt_bytes (0 <? len (LatestBlockHash m)) (field_bytes 0x32 (LatestBlockHash m)).
Definition extension_bytes (m : VoteExtension) : bytes :=
  opt_bytes (0 <? len (hash_of_block m)) (field_bytes 0xa (hash_of_block m)) ++
  opt_bytes (negb (vx_Height m =? 0)) (number_bytes 0x10 (vx_Height m)) ++
  concat (map (fun e => field_bytes 0x1a (side_bytes e)) (SideTxResponses m)) ++
  match vx_MilestoneProposition m with Some p => field_bytes 0x22 (proposition_bytes p) | None => [] end.

(** Numbers of their types. *)
Definition side_typed (m : SideTxResponse) : Prop := in_i32 (Result m).
Definition proposition_typed (m : MilestoneProposition) : Prop :=
  in_u64 (StartBlockNumber m) /\ Forall in_u64 (BlockTds m) /\ in_u64 (LatestBlockNumber m).
Definition extension_typed (m : VoteExtension) : Prop :=
  in_i64 (vx_Height m) /\ Forall side_typed (SideTxResponses m) /\
  from_option proposition_typed True (vx_MilestoneProposition m).

(** ** Sizes *)

Lemma len_field_bytes tag x : len (field_bytes tag x) = 1 + len x + len (uvarint (len x)).
Proof. unfold field_bytes. rewrite len_cons, len_app. lia. Qed.
Lemma len_field_sized tag x : len x <= MaxInt64 -> len (field_bytes tag x) = sized (len x).
Proof.
  intros Hx. pose proof (len_nonneg x). assert (in_u64 (len x)) by (unfold in_u64, MaxInt64, MaxUint64 in *; lia).
  rewrite len_field_bytes, len_uvarint by done. unfold sized. by rewrite u64_id.
Qed.
Lemma len_number_bytes tag v : len (number_bytes tag v) = 1 + sov (u64 v).
Proof. unfold number_bytes. rewrite len_cons, len_uvarint by apply u64_range. done. Qed.
Lemma len_opt_bytes b s n : (b = true -> len s = n) -> len (opt_bytes b s) = (if b then n else 0).
Proof. destruct b; cbn; auto. Qed.
Lemma sized_above l : 0 <= l -> l < sized l.
Proof. intros. unfold sized. pose proof (sov_pos (u64 l)). pose proof (u64_range l). unfold in_u64 in *. lia. Qed.
Lemma len_concat {A} (f : A -> bytes) (g : A -> Z) l : (forall x, x ∈ l -> len (f x) = g x) ->
  len (concat (map f l)) = Zsum (map g l).
Proof.
  intros H. induction l as [|x l IH]; cbn [map concat]; [done|]. rewrite len_app, Zsum_cons, H by by left.
  rewrite IH; [done|]. intros. apply H. by right.
Qed.
Lemma Zsum_elem {A} (g : A -> Z) l x : (forall y, y ∈ l -> 0 <= g y) -> x ∈ l -> g x <= Zsum (map g l).
Proof.
  intros N H. induction l as [|y l IH]; [by apply elem_of_nil in H|]. cbn [map]. rewrite Zsum_cons.
  assert (0 <= Zsum (map g l)).
  { apply Zsum_nonneg, Forall_map, Forall_forall. intros. apply N. by right. }
  apply elem_of_cons in H as [->|H]; [lia|]. pose proof (N y ltac:(by left)). specialize (IH ltac:(intros; apply N; by right) H). lia.
Qed.

Ltac size_nonneg := repeat case_match; unfold sized;
  repeat match goal with
  | |- context [sov (u64 ?v)] =>
      lazymatch goal with H : 1 <= sov (u64 v) |- _ => fail | _ =>
        pose proof (sov_pos (u64 v) (proj1 (u64_range v))) end
  | |- context [len ?x] => lazymatch goal with H : 0 <= len x |- _ => fail | _ => pose proof (len_nonneg x) end
  end; lia.

Lemma side_size_nonneg m : 0 <= SideTxResponse_Size m.
Proof. unfold SideTxResponse_Size. size_nonneg. Qed.

(** ** Marshalling *)

Lemma bounded_u64 {A} (x : list A) : len x <= MaxInt64 -> in_u64 (len x).
Proof. pose proof (len_nonneg x). unfold in_u64, MaxInt64, MaxUint64. lia. Qed.

Lemma writes_side m : SideTxResponse_Size m <= MaxInt64 ->
  len (side_bytes m) = SideTxResponse_Size m /\ writes (SideTxResponse_body m) (side_bytes m).
Proof.
  intros H. assert (len (TxHash m) <= MaxInt64) as Hx.
  { revert H. unfold SideTxResponse_Size. destruct (Z.ltb_spec 0 (len (TxHash m))); [|unfold MaxInt64; lia].
    pose proof (sized_above (len (TxHash m))). size_nonneg. }
  split.
  - unfold side_bytes, SideTxResponse_Size. rewrite len_app.
    f_equal; apply len_opt_bytes; intros _; [by apply len_field_sized | apply len_number_bytes].
  - apply writes_bind; apply writes_when; intros _; [apply writes_varint_field | by apply writes_bytes_field, bounded_u64].
Qed.

Lemma len_packed tds : Forall in_u64 tds -> len (packed tds) = Zsum (map sov tds).
Proof. intros T. apply len_concat. intros x Hx. apply len_uvarint. by eapply Forall_forall. Qed.

Lemma pack_at tds a hole : Forall in_u64 tds -> (length (packed tds) <= length hole)%nat ->
  pack tds (a ++ hole) (len a) = Ok (a ++ packed tds ++ drop (length (packed tds)) hole, len a + len (packed tds)).
Proof.
  intros T. revert a hole. induction T as [|v tds Hv T IH]; intros a hole Hl; cbn [pack packed map concat].
  - rewrite Z.add_0_r, app_nil_l. done.
  - fold (packed tds) in *. unfold packed in Hl. cbn [map concat] in Hl. fold (packed tds) in Hl.
    rewrite length_app in Hl. rewrite <- (take_drop (length (uvarint v)) hole) at 1.
    rewrite put_varint_at; [|auto with wire|rewrite length_take; unfold uvarint in *; lia]. cbn [mbind outcome_bind].
    fold (uvarint v). rewrite app_assoc. replace (len a + len (uvarint v) - 1 + 1) with (len (a ++ uvarint v)) by (rewrite len_app; lia).
    rewrite IH by (rewrite length_drop; lia). rewrite drop_drop, <- length_app, <- !app_assoc, !len_app.
    do 2 f_equal. lia.
Qed.

Lemma length_varint_bytes n v : (length (varint_bytes n v) <= S n)%nat.
Proof. revert v. induction n as [|n IH]; intros v; cbn; destruct (_ <=? _); cbn; try lia. specialize (IH (Z.shiftr v 7)). lia. Qed.
Lemma length_packed tds : (length (packed tds) <= length tds * 10)%nat.
Proof.
  unfold packed. induction tds as [|v tds IH]; cbn [map concat length]; [cbn; lia|]. rewrite length_app.
  pose proof (length_varint_bytes 9 v). unfold uvarint in *. lia.
Qed.

Lemma writes_packed tag tds : Forall in_u64 tds -> len (packed tds) <= MaxInt64 ->
  writes (packed_field tag tds) (field_bytes tag (packed tds)).
Proof.
  intros T Hl junk hole tail Hh. unfold packed_field. pose proof (length_packed tds) as L.
  pose proof (pack_at tds [] (repeat Byte.x00 (length tds * 10)) T) as P. rewrite repeat_length in P.
  cbn [app] in P. change (len (@nil Byte.byte)) with 0 in P. rewrite P by done. cbn [mbind outcome_bind].
  rewrite Z.add_0_l. unfold len at 1. rewrite Nat2Z.id, take_app_length. by apply writes_bytes_field; [apply bounded_u64|].
Qed.

(** The parts of a sum of sizes are bounded by it. *)
Lemma opt_sized_above l : 0 <= l -> l <= (if 0 <? l then sized l else 0).
Proof. intros. pose proof (sized_above l). destruct (Z.ltb_spec 0 l); lia. Qed.
Lemma opt_number_nonneg v : 0 <= (if negb (v =? 0) then 1 + sov (u64 v) else 0).
Proof. pose proof (sov_pos (u64 v) (proj1 (u64_range v))). destruct (negb _); lia. Qed.
Lemma elem_sized {A} (g : A -> Z) l x : (forall y, y ∈ l -> 0 <= g y) -> x ∈ l -> g x <= Zsum (map (fun y => sized (g y)) l).
Proof.
  intros N Hx. transitivity (sized (g x)); [pose proof (sized_above _ (N x Hx)); lia|].
  apply (Zsum_elem (fun y => sized (g y))); [|done]. intros y Hy. pose proof (sized_above _ (N y Hy)). pose proof (N y Hy). lia.
Qed.
Lemma sizes_nonneg {A} (g : A -> Z) l : (forall y, y ∈ l -> 0 <= g y) -> 0 <= Zsum (map (fun y => sized (g y)) l).
Proof.
  intros N. apply Zsum_nonneg, Forall_map, Forall_forall. intros y Hy. pose proof (sized_above _ (N y Hy)). pose proof (N y Hy). lia.
Qed.

Lemma tds_size_nonneg m : proposition_typed m -> 0 <= Zsum (map sov (BlockTds m)).
Proof. intros (_ & T & _). rewrite <- len_packed by done. apply len_nonneg. Qed.

Lemma proposition_parts m : proposition_typed m -> MilestoneProposition_Size m <= MaxInt64 ->
  Forall (fun x => len x <= MaxInt64) (BlockHashes m) /\ len (ParentHash m) <= MaxInt64 /\
  Zsum (map sov (BlockTds m)) <= MaxInt64 /\ len (LatestBlockHash m) <= MaxInt64.
Proof.
  intros T H. pose proof (tds_size_nonneg m T). unfold MilestoneProposition_Size in H.
  pose proof (opt_number_nonneg (StartBlockNumber m)). pose proof (opt_number_nonneg (LatestBlockNumber m)).
  pose proof (opt_sized_above _ (len_nonneg (ParentHash m))). pose proof (opt_sized_above _ (len_nonneg (LatestBlockHash m))).
  pose proof (len_nonneg (ParentHash m)). pose proof (len_nonneg (LatestBlockHash m)).
  pose proof (sizes_nonneg (@len Byte.byte) (BlockHashes m) ltac:(intros; apply len_nonneg)).
  assert (Zsum (map sov (BlockTds m)) <= if 0 <? len (BlockTds m) then sized (Zsum (map sov (BlockTds m))) else 0).
  { destruct (BlockTds m); [done|]. rewrite len_cons. pose proof (len_nonneg l).
    rewrite (proj2 (Z.ltb_lt _ _)) by lia. pose proof (sized_above (Zsum (map sov (z :: l)))). lia. }
  split_and!; [|lia..]. apply Forall_forall. intros x Hx.
  pose proof (elem_sized (@len Byte.byte) _ x ltac:(intros; apply len_nonneg) Hx). lia.
Qed.

Lemma proposition_size_nonneg m : proposition_typed m -> 0 <= MilestoneProposition_Size m.
Proof.
  intros T. pose proof (tds_size_nonneg m T). unfold MilestoneProposition_Size.
  pose proof (opt_number_nonneg (StartBlockNumber m)). pose proof (opt_number_nonneg (LatestBlockNumber m)).
  pose proof (opt_sized_above _ (len_nonneg (ParentHash m))). pose proof (opt_sized_above _ (len_nonneg (LatestBlockHash m))).
  pose proof (len_nonneg (ParentHash m)). pose proof (len_nonneg (LatestBlockHash m)).
  pose proof (sizes_nonneg (@len Byte.byte) (BlockHashes m) ltac:(intros; apply len_nonneg)).
  pose proof (sized_above (Zsum (map sov (BlockTds m)))). destruct (0 <? len (BlockTds m)); lia.
Qed.

Lemma writes_proposition m : proposition_typed m -> MilestoneProposition_Size m <= MaxInt64 ->
  len (proposition_bytes m) = MilestoneProposition_Size m /\ writes (MilestoneProposition_body m) (proposition_bytes m).
Proof.
  intros T H. destruct (proposition_parts m T H) as (Hh & Hp & Ht & Hl). destruct T as (T1 & T2 & T3).
  rewrite Forall_forall in Hh. rewrite <- len_packed in Ht by done. split.
  - unfold proposition_bytes, MilestoneProposition_Size. rewrite !len_app.
    rewrite (len_concat _ (fun b => sized (len b))) by (intros; apply len_field_sized; auto). rewrite <- len_packed by done.
    repeat (erewrite len_opt_bytes by (intros _; first [apply len_number_bytes | by apply len_field_sized])). lia.
  - unfold MilestoneProposition_body, proposition_bytes. rewrite !app_assoc.
    repeat apply writes_bind; try (apply writes_when; intros _; first [apply writes_varint_field | apply writes_bytes_field | by apply writes_packed]);
      try by apply bounded_u64.
    apply writes_repeated. intros x Hx. by apply writes_bytes_field, bounded_u64, Hh.
Qed.

(** A message within a message shares its buffer. *)
Lemma writes_message tag body s : writes body s -> in_u64 (len s) ->
  writes (message_field tag (marshal_sized body)) (field_bytes tag s).
Proof.
  intros W Hs junk hole tail Hh. unfold field_bytes in Hh. cbn [length] in Hh. rewrite length_app in Hh.
  set (h1 := take (S (length (uvarint (len s)))) hole). set (h2 := drop (S (length (uvarint (len s)))) hole).
  assert (length h1 = S (length (uvarint (len s)))) as L1 by (unfold h1; rewrite length_take; lia).
  assert (length h2 = length s) as L2 by (unfold h2; rewrite length_drop; lia).
  rewrite <- (take_drop (S (length (uvarint (len s)))) hole). fold h1 h2. rewrite (app_assoc junk).
  unfold message_field. pose proof (len_nonneg tail).
  assert ((len ((junk ++ h1) ++ h2) <? 0) || (len (((junk ++ h1) ++ h2) ++ tail) <? len ((junk ++ h1) ++ h2)) = false) as ->.
  { apply orb_false_iff. split; apply Z.ltb_ge; [apply len_nonneg|]. rewrite (len_app _ tail). lia. }
  cbn [panic_if].
  replace (Z.to_nat (len ((junk ++ h1) ++ h2))) with (length ((junk ++ h1) ++ h2)) by (unfold len; lia).
  rewrite take_app_length, drop_app_length. unfold marshal_sized.
  pose proof (W (junk ++ h1) h2 [] L2) as E. rewrite !app_nil_r in E. rewrite E. cbn [mbind outcome_bind].
  replace (len ((junk ++ h1) ++ h2) - len (junk ++ h1)) with (len s) by (rewrite (len_app (junk ++ h1)); unfold len; lia).
  replace (len ((junk ++ h1) ++ h2) - len s) with (len (junk ++ h1)) by (rewrite (len_app (junk ++ h1)); unfold len; lia).
  rewrite u64_id by done. rewrite <- (app_assoc (junk ++ h1)).
  etrans; [exact (writes_bind _ _ _ [byte_of_Z tag] (writes_varint _ Hs) (writes_tag tag) junk h1 (s ++ tail) L1)|].
  unfold field_bytes. cbn [app]. rewrite <- !app_assoc. cbn [app]. done.
Qed.

Lemma len_side_bytes_bound (e : SideTxResponse) : SideTxResponse_Size e <= MaxInt64 -> in_u64 (len (side_bytes e)).
Proof. intros H. apply bounded_u64. by rewrite (proj1 (writes_side e H)). Qed.

Lemma extension_parts m : extension_typed m -> VoteExtension_Size m <= MaxInt64 ->
  len (hash_of_block m) <= MaxInt64 /\ Forall (fun e => SideTxResponse_Size e <= MaxInt64) (SideTxResponses m) /\
  from_option (fun p => MilestoneProposition_Size p <= MaxInt64) True (vx_MilestoneProposition m).
Proof.
  intros (_ & _ & T) H. unfold VoteExtension_Size in H.
  pose proof (opt_sized_above _ (len_nonneg (hash_of_block m))). pose proof (len_nonneg (hash_of_block m)).
  pose proof (opt_number_nonneg (vx_Height m)).
  pose proof (sizes_nonneg SideTxResponse_Size (SideTxResponses m) (fun e _ => side_size_nonneg e)).
  assert (0 <= match vx_MilestoneProposition m with Some p => sized (MilestoneProposition_Size p) | None => 0 end /\
    from_option (fun p => MilestoneProposition_Size p <=
      match vx_MilestoneProposition m with Some p => sized (MilestoneProposition_Size p) | None => 0 end) True (vx_MilestoneProposition m)) as [? Hp].
  { destruct (vx_MilestoneProposition m) as [p|]; cbn in *; [|done]. pose proof (proposition_size_nonneg p T).
    pose proof (sized_above _ (proposition_size_nonneg p T)). lia. }
  split_and!; [lia| |].
  - apply Forall_forall. intros e He. pose proof (elem_sized SideTxResponse_Size _ e (fun e _ => side_size_nonneg e) He). lia.
  - destruct (vx_MilestoneProposition m) as [p|]; cbn in *; [lia|done].
Qed.

Lemma writes_extension m : extension_typed m -> VoteExtension_Size m <= MaxInt64 ->
  len (extension_bytes m) = VoteExtension_Size m /\ writes (VoteExtension_body m) (extension_bytes m).
Proof.
  intros T H. destruct (extension_parts m T H) as (Hh & He & Hp). destruct T as (T1 & T2 & T3).
  rewrite Forall_forall in He. split.
  - unfold extension_bytes, VoteExtension_Size. rewrite !len_app.
    repeat (erewrite len_opt_bytes by (intros _; first [apply len_number_bytes | by apply len_field_sized])).
    rewrite (len_concat _ (fun e => sized (SideTxResponse_Size e))).
    2:{ intros e Hx. destruct (writes_side e (He e Hx)) as [L _]. rewrite len_field_sized; rewrite L; [done|]. by apply He. }
    destruct (vx_MilestoneProposition m) as [p|]; cbn in *; [|change (len (@nil Byte.byte)) with 0; lia].
    destruct (writes_proposition p T3 Hp) as [L _]. rewrite (len_field_sized 34); rewrite L; [lia|done].
  - unfold VoteExtension_body, extension_bytes. rewrite !app_assoc. repeat apply writes_bind.
    + destruct (vx_MilestoneProposition m) as [p|]; cbn in *; [|apply writes_nothing].
      destruct (writes_proposition p T3 Hp) as [L W]. apply writes_message; [done|]. apply bounded_u64. by rewrite L.
    + apply writes_repeated. intros e Hx. destruct (writes_side e (He e Hx)) as [L W].
      apply writes_message; [done|]. by apply len_side_bytes_bound, He.
    + apply writes_when. intros _. apply writes_varint_field.
    + apply writes_when. intros _. by apply writes_bytes_field, bounded_u64.
Qed.

Lemma marshal_writes size body s : writes body s -> len s = size -> marshal size (marshal_sized body) = Ok s.
Proof.
  intros W <-. unfold marshal, marshal_sized. pose proof (W [] (repeat Byte.x00 (length s)) []) as E.
  rewrite repeat_length in E. specialize (E eq_refl). cbn [app] in E. rewrite !app_nil_r in E.
  replace (Z.to_nat (len s)) with (length s) by (unfold len; lia). rewrite E. cbn [mbind outcome_bind].
  change (len (@nil Byte.byte)) with 0. unfold len. rewrite repeat_length, Z.sub_0_r, Nat2Z.id. by rewrite take_ge.
Qed.

(** ** Unmarshalling *)

Lemma no_bytes {A} (x : list A) : (0 <? len x) = false -> x = [].
Proof. intros H. bool_hyps. destruct x; [done|]. rewrite len_cons in H. pose proof (len_nonneg x). lia. Qed.

(** A field that is left out when it is empty or zero. *)
Section Decode.
Context {M : Type} (field : Z -> option (bytes -> Z -> Z -> M -> outcome (M * Z))).

Lemma decodes_opt b s m m' : (b = true -> decodes field s m m') -> (b = false -> m' = m) ->
  decodes field (opt_bytes b s) m m'.
Proof. destruct b; cbn; intros H E; [auto|]. rewrite E by done. apply decodes_nil. Qed.

Lemma decodes_opt_bytes tag set x m : field (Z.shiftr tag 3) = Some (read_bytes set) ->
  0 <= tag < 128 -> 0 < Z.shiftr tag 3 -> Z.land tag 7 = 2 -> set [] m = m ->
  decodes field (opt_bytes (0 <? len x) (field_bytes tag x)) m (set x m).
Proof.
  intros F Ht Hn Hw E. apply decodes_opt; [intros _; by apply decodes_bytes|]. intros ->%no_bytes. done.
Qed.

Lemma decodes_opt_number tag wrap set v m : field (Z.shiftr tag 3) = Some (read_varint wrap set) ->
  0 <= tag < 128 -> 0 < Z.shiftr tag 3 -> Z.land tag 7 = 0 -> wraps wrap -> wrap (u64 v) = v -> set 0 m = m ->
  decodes field (opt_bytes (negb (v =? 0)) (number_bytes tag v)) m (set v m).
Proof.
  intros F Ht Hn Hw W V E. apply decodes_opt; [intros _|intros H; bool_hyps; by subst v].
  rewrite <- V at 2. by apply decodes_varint.
Qed.
End Decode.

Ltac tag_field := first [done | cbn; lia | auto with wire].

Lemma side_decodes m : side_typed m -> decodes SideTxResponse_field (side_bytes m) no_response m.
Proof.
  intros T. destruct m as [h r]. unfold side_bytes. cbn [TxHash Result] in *.
  apply decodes_app with (m' := {| TxHash := h; Result := 0 |}).
  - apply (decodes_opt_bytes _ 0xa (fun x m => {| TxHash := x; Result := Result m |}) h no_response); tag_field.
  - apply (decodes_opt_number _ 0x10 i32 (fun v m => {| TxHash := TxHash m; Result := v |}) r {| TxHash := h; Result := 0 |}); tag_field.
    unfold i32. rewrite sx_u64 by lia. apply sx_small; [lia|]. apply T.
Qed.

(** The packed numbers. *)
Lemma unpack_spec tds l fuel d i k tail : Forall in_u64 tds -> 0 <= i -> drop (Z.to_nat i) d = packed tds ++ tail ->
  k = i + len (packed tds) -> (length tds <= fuel)%nat -> unpack fuel d k l i = Ok (l ++ tds, k).
Proof.
  intros T. revert l fuel i. induction T as [|v tds Hv T IH]; intros l fuel i Hi E Hk Hf.
  - rewrite Hk, Z.add_0_r, app_nil_r. destruct fuel; cbn [unpack]; by rewrite Z.ltb_irrefl.
  - unfold packed in E, Hk. cbn [map concat] in E, Hk. rewrite len_app in Hk. rewrite <- app_assoc in E.
    fold (packed tds) in *. destruct fuel as [|fuel]; [cbn in Hf; lia|]. cbn [unpack length] in *.
    pose proof (len_uvarint v Hv). pose proof (sov_pos v (proj1 Hv)). pose proof (len_nonneg (packed tds)).
    rewrite (proj2 (Z.ltb_lt _ _)) by lia. rewrite (varint_spec u64 v d i (packed tds ++ tail)) by auto with wire.
    cbn [mbind outcome_bind]. rewrite u64_id by done. rewrite (IH (l ++ [v]) fuel); try lia.
    + by rewrite <- app_assoc.
    + by apply (drop_app_at d i (uvarint v)).
Qed.

Lemma packed_count tds : Forall in_u64 tds -> (length tds <= length (packed tds))%nat.
Proof.
  intros T. induction T as [|v tds Hv T IH]; [done|]. unfold packed. cbn [map concat length]. rewrite length_app.
  pose proof (len_uvarint v Hv) as L. pose proof (sov_pos v (proj1 Hv)). unfold len in L. fold (packed tds). lia.
Qed.

Lemma decodes_packed {M} (field : Z -> option (bytes -> Z -> Z -> M -> outcome (M * Z))) tag get set tds m :
  field (Z.shiftr tag 3) = Some (read_packed get set) -> 0 <= tag < 128 -> 0 < Z.shiftr tag 3 -> Z.land tag 7 = 2 ->
  Forall in_u64 tds -> decodes field (field_bytes tag (packed tds)) m (set (get m ++ tds) m).
Proof.
  intros F Ht Hn Hw T. apply decodes_field with (read := read_packed get set); try done; [lia|].
  intros d i tail Hi Hd E. rewrite <- app_assoc in E. destruct (read_len_spec d i (packed tds) tail Hi Hd E) as [Hj _].
  unfold read_packed. rewrite Hw. cbn [Z.eqb Pos.eqb]. rewrite Hj. cbn [mbind outcome_bind].
  pose proof (drop_app_at _ _ _ _ Hi E) as [_ E']. pose proof (len_nonneg (uvarint (len (packed tds)))).
  pose proof (packed_count tds T). pose proof (f_equal length E') as L. rewrite length_drop, length_app in L.
  by rewrite (unpack_spec tds _ _ _ (i + len (uvarint (len (packed tds)))) _ tail T) by (done || lia || rewrite len_app; lia).
Qed.

Lemma proposition_decodes m : proposition_typed m ->
  decodes MilestoneProposition_field (proposition_bytes m) no_proposition m.
Proof.
  intros (T1 & T2 & T3). destruct m as [hs s p t l h]. unfold proposition_bytes.
  cbn [BlockHashes StartBlockNumber ParentHash BlockTds LatestBlockNumber LatestBlockHash] in *.
  set (m1 := set_BlockHashes hs no_proposition). set (m2 := set_StartBlockNumber s m1). set (m3 := set_ParentHash p m2).
  set (m4 := set_BlockTds t m3). set (m5 := set_LatestBlockNumber l m4).
  apply decodes_app with (m' := m1).
  { apply (decodes_repeated _ _ set_BlockHashes BlockHashes hs no_proposition); try done; [|by intros []].
    intros x m Hx. apply (decodes_bytes _ 0xa (fun x m => set_BlockHashes (BlockHashes m ++ [x]) m)); tag_field. }
  apply decodes_app with (m' := m2).
  { apply (decodes_opt_number _ 0x10 u64); tag_field. by rewrite !u64_id by auto with width. }
  apply decodes_app with (m' := m3); [apply (decodes_opt_bytes _ 0x1a); tag_field|].
  apply decodes_app with (m' := m4).
  { apply decodes_opt; [intros _; by apply (decodes_packed _ 0x22 BlockTds set_BlockTds t m3)|]. intros ->%no_bytes. done. }
  apply decodes_app with (m' := m5).
  { apply (decodes_opt_number _ 0x28 u64); tag_field. by rewrite !u64_id by auto with width. }
  apply (decodes_opt_bytes _ 0x32 set_LatestBlockHash h m5); tag_field.
Qed.

Lemma extension_decodes m : extension_typed m -> VoteExtension_Size m <= MaxInt64 -> vx_BlockHash m <> Some [] ->
  decodes VoteExtension_field (extension_bytes m) no_extension m.
Proof.
  intros T H Hnil. destruct (extension_parts m T H) as (Hh & He & Hp). destruct T as (T1 & T2 & T3).
  rewrite Forall_forall in He, T2. destruct m as [bh ht rs mp]. unfold extension_bytes, hash_of_block in *.
  cbn [vx_BlockHash vx_Height SideTxResponses vx_MilestoneProposition] in *.
  set (m1 := set_BlockHash bh no_extension). set (m2 := set_Height ht m1). set (m3 := set_SideTxResponses rs m2).
  apply decodes_app with (m' := m1).
  { destruct bh as [x|]; [|apply decodes_nil]. cbn. apply decodes_opt.
    - intros _. apply (decodes_bytes _ 0xa (fun x => set_BlockHash (Some x)) x no_extension); tag_field.
    - intros ->%no_bytes. done. }
  apply decodes_app with (m' := m2).
  { apply (decodes_opt_number _ 0x10 i64); tag_field. change i64 with (sx 64). rewrite sx_u64 by lia.
    apply sx_small; [lia|]. unfold in_i64, MinInt64, MaxInt64 in T1. cbn; lia. }
  apply decodes_app with (m' := m3).
  { apply (decodes_repeated _ _ set_SideTxResponses SideTxResponses rs m2); try done; [|by intros []].
    intros e m Hx. apply (decodes_message VoteExtension_field 0x1a (fun d _ => SideTxResponse_Unmarshal d no_response)
      (fun e m => set_SideTxResponses (SideTxResponses m ++ [e]) m) (side_bytes e) e m); tag_field.
    apply unmarshal_decodes; [|by apply side_decodes, T2]. rewrite (proj1 (writes_side e (He e Hx))). by apply He. }
  destruct mp as [p|]; [|apply decodes_nil]. cbn in T3, Hp. 
  apply (decodes_message VoteExtension_field 0x22
    (fun d m => MilestoneProposition_Unmarshal d (default no_proposition (vx_MilestoneProposition m)))
    (fun p => set_MilestoneProposition (Some p)) (proposition_bytes p) p m3); tag_field.
  apply unmarshal_decodes; [|by apply proposition_decodes]. by rewrite (proj1 (writes_proposition p T3 Hp)).
Qed.

(** ** Every input is answered *)

Lemma unpack_returns fuel d k tds i : k <= len d -> 0 <= i <= len d -> len d - i <= Z.of_nat fuel ->
  Forall in_u64 tds -> returns (unpack fuel d k tds i) (fun '(tds', j) => Forall in_u64 tds' /\ i <= j <= len d).
Proof.
  intros Hk. revert tds i. induction fuel as [|fuel IH]; intros tds i Hi Hf T; cbn [unpack];
    destruct (Z.ltb_spec i k); try (cbn; split; [done|lia]); [lia|].
  eapply returns_bind; [apply varint_returns; (lia || auto with wire)|]. intros [v j] [[u ->] Hj].
  eapply returns_mono; [apply IH; [lia..|]|].
  - apply Forall_app. split; [done|]. apply Forall_singleton. auto with width.
  - intros [tds' j'] [? ?]. split; [done|lia].
Qed.

Lemma read_tds_well : reads_well proposition_typed (read_packed BlockTds set_BlockTds).
Proof.
  intros d wt i m Hd Hi (T1 & T2 & T3). unfold read_packed. destruct (_ =? 0); [|destruct (_ =? 2); [|done]].
  - eapply returns_bind; [apply varint_returns; (lia || auto with wire)|]. intros [v j] [[u ->] Hj]. cbn. split; [|lia].
    split_and!; [done| |done]. apply Forall_app. split; [done|]. apply Forall_singleton. auto with width.
  - eapply returns_bind; [apply read_len_returns; lia|]. intros [j k] Hj.
    eapply returns_bind; [apply unpack_returns; [lia|lia|unfold len; lia|exact T2]|].
    intros [tds j'] [T Hj']. cbn. split; [done|lia].
Qed.

Lemma in_i32_sx u : in_i32 (i32 u).
Proof. apply (sx_range 32). lia. Qed.
#[export] Hint Resolve in_i32_sx : width.

Lemma side_unmarshal_returns d m : len d <= MaxInt64 -> side_typed m -> returns (SideTxResponse_Unmarshal d m) side_typed.
Proof.
  apply unmarshal_returns. intros n read. unfold SideTxResponse_field.
  repeat case_match; intros [= <-];
    first [by apply reads_well_bytes | apply reads_well_varint; [auto with wire|]; intros u k _; apply in_i32_sx].
Qed.

Lemma proposition_unmarshal_returns d m : len d <= MaxInt64 -> proposition_typed m ->
  returns (MilestoneProposition_Unmarshal d m) proposition_typed.
Proof.
  apply unmarshal_returns. intros n read. unfold MilestoneProposition_field.
  repeat case_match; intros [= <-];
    first [ exact read_tds_well
          | apply reads_well_bytes; intros x k (? & ? & ?); by split_and!
          | apply reads_well_varint; [auto with wire|]; intros u k (? & ? & ?); refine (conj _ (conj _ _)); first [assumption | apply u64_range] ].
Qed.

Lemma no_proposition_typed : proposition_typed no_proposition.
Proof. split_and!; [done|constructor|done]. Qed.

Lemma extension_unmarshal_returns d m : len d <= MaxInt64 -> extension_typed m ->
  returns (VoteExtension_Unmarshal d m) extension_typed.
Proof.
  apply unmarshal_returns. intros n read. unfold VoteExtension_field.
  repeat case_match; intros [= <-];
    try (apply reads_well_bytes; intros x k (? & ? & ?); by split_and!);
    try (apply reads_well_varint; [auto with wire|]; intros u k (? & ? & ?); refine (conj _ (conj _ _)); first [assumption | apply i64_range]).
  - apply (reads_well_message extension_typed side_typed).
    + intros d' k Hd _. by apply side_unmarshal_returns.
    + intros e k He (? & T & ?). split_and!; [done| |done]. apply Forall_app. split; [done|]. by apply Forall_singleton.
  - apply (reads_well_message extension_typed proposition_typed).
    + intros d' k Hd (? & ? & T). apply proposition_unmarshal_returns; [done|].
      destruct (vx_MilestoneProposition k); [done|apply no_proposition_typed].
    + intros q k Hp (? & ? & _). by split_and!.
Qed.

(** ** The codec as the application uses it *)

(** The values of the Go type. *)
Definition representable (m : VoteExtension) : Prop := extension_typed m /\ VoteExtension_Size m <= MaxInt64.

Lemma extension_round_trip m : representable m -> vx_BlockHash m <> Some [] ->
  VoteExtension_Marshal m = Ok (extension_bytes m) /\ len (extension_bytes m) = VoteExtension_Size m /\
  VoteExtension_Unmarshal (extension_bytes m) no_extension = Ok m.
Proof.
  intros [T H] Hnil. destruct (writes_extension m T H) as [L W]. split_and!; [by apply marshal_writes|done|].
  apply unmarshal_decodes; [by rewrite L|by apply extension_decodes].
Qed.

#[export] Instance in_u64_dec z : Decision (in_u64 z).
Proof. unfold in_u64. apply _. Defined.
#[export] Instance in_i64_dec z : Decision (in_i64 z).
Proof. unfold in_i64. apply _. Defined.
#[export] Instance side_typed_dec m : Decision (side_typed m).
Proof. unfold side_typed, in_i32. apply _. Defined.
#[export] Instance proposition_typed_dec m : Decision (proposition_typed m).
Proof. unfold proposition_typed. apply _. Defined.
#[export] Instance representable_dec m : Decision (representable m).
Proof.
  unfold representable, extension_typed. destruct (vx_MilestoneProposition m); cbn [from_option]; apply _.
Defined.

Definition ok_option {A} (o : outcome A) : option A := match o with Ok a => Some a | _ => None end.

(** The encoder and the decoder the handlers call.  The strict check for unknown fields is
    the SDK's; a slice is never longer than [MaxInt64]. *)
Section Codec.
Context (rejected_unknown_field : bytes -> bool).
#[local] Instance heimdall_codec : VoteCodec := {|
  unmarshal_ve b := if len b <=? MaxInt64 then ok_option (VoteExtension_Unmarshal b no_extension) else None;
  has_unknown_fields := rejected_unknown_field |}.
#[local] Instance heimdall_encoder : VoteEncoder := {|
  marshal_ve v := if decide (representable v) then ok_option (VoteExtension_Marshal v) else None |}.

Lemma codec_round_trips v b : marshal_ve v = Some b -> vx_BlockHash v <> Some [] -> unmarshal_ve b = Some v.
Proof.
  cbn. case_decide as R; [|done]. intros E Hnil. destruct (extension_round_trip v R Hnil) as (M & L & U).
  rewrite M in E. injection E as <-. rewrite (proj2 (Z.leb_le _ _)) by (rewrite L; apply R). by rewrite U.
Qed.

Lemma codec_in_range b ve : unmarshal_ve b = Some ve -> extension_typed ve.
Proof.
  cbn. destruct (Z.leb_spec (len b) MaxInt64) as [L|]; [|done].
  destruct (VoteExtension_Unmarshal b no_extension) as [m| |] eqn:E; [|done..]. intros [= <-].
  eapply returns_ok; [|exact E]. apply extension_unmarshal_returns; [done|]. split_and!; [done|constructor|done].
Qed.

(** What the aggregation of milestones relies on. *)
Lemma heimdall_codec_ok {AC : AddressCodec} : formatted_codec -> codec_ok.
Proof.
  intros F. split; [exact F|]. intros b ve p Hu Hp. destruct (codec_in_range b ve Hu) as (_ & _ & T).
  rewrite Hp in T. destruct T as (? & ? & ?). done.
Qed.
Lemma heimdall_head_codec : head_codec.
Proof.
  intros b ve p Hu Hp. destruct (codec_in_range b ve Hu) as (_ & _ & T). rewrite Hp in T. by destruct T as (_ & _ & ?).
Qed.
End Codec.

(** ** Properties *)

(** C33: the encoding of vote extensions loses nothing.  An extension whose numbers are of
    their types marshals, without an index out of range, into exactly the buffer of the
    computed size, and the bytes unmarshal to the extension.  (An empty block hash is not
    written and comes back nil.) *)
Theorem vote_extension_round_trips (m : VoteExtension) :
  extension_typed m -> VoteExtension_Size m <= MaxInt64 -> vx_BlockHash m <> Some [] ->
  exists bz, VoteExtension_Marshal m = Ok bz /\ Z.of_nat (length bz) = VoteExtension_Size m /\
    VoteExtension_Unmarshal bz no_extension = Ok m.
Proof.
  intros T H Hnil. exists (extension_bytes m). by apply extension_round_trip.
Qed.

(** A vote extension of another validator is any sequence of bytes, and it is answered:
    unmarshalling never indexes outside the bytes, its loops end (groups in unknown fields,
    packed numbers and nested messages included), and what it answers is a value of the Go
    type or an error. *)
Theorem vote_extension_decoding_ends (bz : bytes) : Z.of_nat (length bz) <= MaxInt64 ->
  match VoteExtension_Unmarshal bz no_extension with
  | Ok m => extension_typed m
  | Err e => e <> out_of_fuel
  | Panic => False
  end.
Proof.
  intros H. apply (extension_unmarshal_returns bz no_extension H). split_and!; [done|constructor|done].
Qed.

(** ** Witnesses *)

Module CodecDemo.

Lemma vote_extension_round_trips_witness : exists bz,
  VoteExtension_Marshal sample = Ok bz /\ Z.of_nat (length bz) = VoteExtension_Size sample /\
  VoteExtension_Unmarshal bz no_extension = Ok sample.
Proof.
  apply (vote_extension_round_trips sample).
  - exact (proj1 (bool_decide_unpack (representable sample) ltac:(vm_compute; exact I))).
  - vm_compute. discriminate.
  - discriminate.
Defined.

(** An unterminated group, after which the bytes end. *)
Definition unfinished : bytes := [Byte.x0a; Byte.x01; Byte.x05; Byte.x7b; Byte.x08].
Lemma vote_extension_decoding_ends_witness :
  VoteExtension_Unmarshal unfinished no_extension = Err ErrUnexpectedEOF /\
  match VoteExtension_Unmarshal unfinished no_extension with
  | Ok m => extension_typed m
  | Err e => e <> out_of_fuel
  | Panic => False
  end.
Proof. split; [vm_compute; reflexivity|]. apply (vote_extension_decoding_ends unfinished). vm_compute. discriminate. Defined.
End CodecDemo.
