(* ===== verification/Formats.v ===== *)
(** * Message formats

    The codecs that the compiler of protocol buffers generates follow one scheme: for each
    field of a message, in order of its number, a part of [Size], of [MarshalToSizedBuffer]
    and of [Unmarshal].  A format lists the fields with these parts; its interpretations are
    the three functions.  The constructors are the kinds of fields that the stored messages
    have. *)
From S2P Require Import Prelude Helpers VoteTypes ExtendVote Wire VoteCodec VoteCodecCorrect.
#[local] Open Scope Z_scope.

(** The part of a field in a codec. *)
Record FieldFormat (M : Type) := {
  ff_num : Z;
  ff_size : M -> Z;
  ff_write : M -> buffer -> outcome buffer;
  ff_read : bytes -> Z -> Z -> M -> outcome (M * Z);
}.
Arguments ff_num {M}. Arguments ff_size {M}. Arguments ff_write {M}. Arguments ff_read {M}.

Definition Format (M : Type) : Type := list (FieldFormat M).

Section codec.
Context {M : Type} (f : Format M).

Definition format_Size (m : M) : Z := Zsum (map (fun k => ff_size k m) f).
(** The last field is written first. *)
Fixpoint write_fields (f : Format M) (m : M) (w : buffer) : outcome buffer :=
  match f with
  | [] => Ok w
  | k :: f => w ← write_fields f m w; ff_write k m w
  end.
Definition format_MarshalToSizedBuffer (m : M) : bytes -> outcome (Z * bytes) := marshal_sized (write_fields f m).
Definition format_Marshal (m : M) : outcome bytes := marshal (format_Size m) (format_MarshalToSizedBuffer m).
Definition format_field (fieldNum : Z) : option (bytes -> Z -> Z -> M -> outcome (M * Z)) :=
  option_map ff_read (List.find (fun k => ff_num k =? fieldNum) f).
Definition format_Unmarshal : bytes -> M -> outcome M := unmarshal format_field.
End codec.

(** ** Components of a message *)

Record Component (M A : Type) := { get : M -> A; set : A -> M -> M }.
Arguments get {M A}. Arguments set {M A}.

(** A string and its bytes. *)
Definition as_bytes {M} (c : Component M string) : Component M bytes :=
  {| get m := list_byte_of_string (get c m); set x := set c (string_of_list_byte x) |}.

(** A message type with its format and its zero value ([new(M)]). *)
Class ProtoMessage (M : Type) := { pm_format : Format M; pm_zero : M }.
Definition Size {M} {PM : ProtoMessage M} : M -> Z := format_Size pm_format.
Definition Marshal {M} {PM : ProtoMessage M} : M -> outcome bytes := format_Marshal pm_format.
Definition Unmarshal {M} {PM : ProtoMessage M} : bytes -> M -> outcome M := format_Unmarshal pm_format.

(** A value of Go's library with the encoding of gogoproto ([stdtime], [stdduration]):
    marshalling into a slice answers the number of bytes written and the slice. *)
Class StdCodec (A : Type) := {
  SizeOfStd : A -> Z;
  StdMarshalTo : A -> bytes -> outcome (Z * bytes);
  StdUnmarshal : bytes -> A -> outcome A;
  std_zero : A;
}.

(** ** Kinds of fields *)

Section kinds.
Context {M : Type} (num : Z).

(** [num << 3 | wireType] *)
Definition tag_of (wireType : Z) : Z := Z.lor (Z.shiftl num 3) wireType.

Definition bytes_format (c : Component M bytes) : FieldFormat M := {|
  ff_num := num;
  ff_size m := if 0 <? len (get c m) then sized (len (get c m)) else 0;
  ff_write m := when (0 <? len (get c m)) (bytes_field (tag_of 2) (get c m));
  ff_read := read_bytes (set c) |}.
Definition string_format (c : Component M string) : FieldFormat M := bytes_format (as_bytes c).

(** [wrap]: the width of the Go type. *)
Definition number_format (wrap : Z -> Z) (c : Component M Z) : FieldFormat M := {|
  ff_num := num;
  ff_size m := if negb (get c m =? 0) then 1 + sov (u64 (get c m)) else 0;
  ff_write m := when (negb (get c m =? 0)) (varint_field (tag_of 0) (get c m));
  ff_read := read_varint wrap (set c) |}.
Definition uint64_format : Component M Z -> FieldFormat M := number_format u64.
Definition int64_format : Component M Z -> FieldFormat M := number_format i64.
Definition bool_format (c : Component M bool) : FieldFormat M := {|
  ff_num := num;
  ff_size m := if get c m then 2 else 0;
  ff_write m := when (get c m) (fun w => w ← put_tag 1 w; put_tag (tag_of 0) w);
  ff_read := read_varint i64 (fun v => set c (negb (v =? 0))) |}.

Definition packed_format (c : Component M (list Z)) : FieldFormat M := {|
  ff_num := num;
  ff_size m := if 0 <? len (get c m) then sized (Zsum (map sov (get c m))) else 0;
  ff_write m := when (0 <? len (get c m)) (packed_field (tag_of 2) (get c m));
  ff_read := read_packed (get c) (set c) |}.
Definition repeated_bytes_format (c : Component M (list bytes)) : FieldFormat M := {|
  ff_num := num;
  ff_size m := Zsum (map (fun x => sized (len x)) (get c m));
  ff_write m := repeated (bytes_field (tag_of 2)) (get c m);
  ff_read := read_bytes (fun x m => set c (get c m ++ [x]) m) |}.

(** Written into [dAtA[i-SizeOfStd(x):]]. *)
Definition std_format {A} {SC : StdCodec A} (c : Component M A) : FieldFormat M := {|
  ff_num := num;
  ff_size m := sized (SizeOfStd (get c m));
  ff_write m w :=
    let '(i, d) := w in
    let start := i - SizeOfStd (get c m) in
    panic_when (start <? 0) || (len d <? start) ;;
    '(n1, written) ← StdMarshalTo (get c m) (drop (Z.to_nat start) d);
    w ← encodeVarint (u64 n1) (i - n1, take (Z.to_nat start) d ++ written);
    put_tag (tag_of 2) w;
  ff_read := read_message (fun d m => StdUnmarshal d (get c m)) (set c) |}.

(** A message within the message: always there, behind a pointer, or repeated. *)
Context {N : Type} {PM : ProtoMessage N}.

Definition write_message (n : N) : buffer -> outcome buffer :=
  message_field (tag_of 2) (format_MarshalToSizedBuffer pm_format n).
Definition message_format (c : Component M N) : FieldFormat M := {|
  ff_num := num;
  ff_size m := sized (Size (get c m));
  ff_write m := write_message (get c m);
  ff_read := read_message (fun d m => Unmarshal d (get c m)) (set c) |}.
Definition pointer_format (c : Component M (option N)) : FieldFormat M := {|
  ff_num := num;
  ff_size m := match get c m with Some n => sized (Size n) | None => 0 end;
  ff_write m w := match get c m with Some n => write_message n w | None => Ok w end;
  ff_read := read_message (fun d m => Unmarshal d (default pm_zero (get c m))) (fun n => set c (Some n)) |}.
Definition repeated_format (c : Component M (list N)) : FieldFormat M := {|
  ff_num := num;
  ff_size m := Zsum (map (fun n => sized (Size n)) (get c m));
  ff_write m := repeated write_message (get c m);
  ff_read := read_message (fun d _ => Unmarshal d pm_zero) (fun n m => set c (get c m ++ [n]) m) |}.
End kinds.

(** * What the schemes promise

    The law of a field - its part of the size, the bytes it writes and what reading them
    does - holds for every kind of field; from the laws of its fields a message marshals
    into the buffer of its size and unmarshals to itself ([ProtoLaws], [round_trip]). *)
(** ** The law of a field *)

(** A field of a format with its bytes: [fs_typed] says that the component is a value of its Go
    type, [fs_copy m m0] puts the component of [m] into [m0], and [fs_fresh] says that it has
    the zero value. *)
Record FieldSpec (M : Type) := {
  fs_format : FieldFormat M;
  fs_typed : M -> Prop;
  fs_bytes : M -> bytes;
  fs_copy : M -> M -> M;
  fs_fresh : M -> Prop;
}.
Arguments fs_format {M}. Arguments fs_typed {M}. Arguments fs_bytes {M}. Arguments fs_copy {M}. Arguments fs_fresh {M}.

Record field_ok {M} (s : FieldSpec M) : Prop := {
  fk_size m : fs_typed s m -> 0 <= ff_size (fs_format s) m;
  fk_len m : fs_typed s m -> ff_size (fs_format s) m <= MaxInt64 -> len (fs_bytes s m) = ff_size (fs_format s) m;
  fk_writes m : fs_typed s m -> ff_size (fs_format s) m <= MaxInt64 -> writes (ff_write (fs_format s) m) (fs_bytes s m);
  fk_decodes field m m0 : fs_typed s m -> ff_size (fs_format s) m <= MaxInt64 ->
    field (ff_num (fs_format s)) = Some (ff_read (fs_format s)) -> fs_fresh s m0 ->
    decodes field (fs_bytes s m) m0 (fs_copy s m m0);
}.

(** ** The law of a message *)

Section message.
Context {M : Type}.
Implicit Types (specs : list (FieldSpec M)) (m : M).

Definition specs_typed specs m : Prop := Forall (fun s => fs_typed s m) specs.
Definition message_bytes specs m : bytes := concat (map (fun s => fs_bytes s m) specs).
(** Copied one by one into [m0], the components make [m], and none is touched twice. *)
Fixpoint fresh_chain specs m m0 : Prop :=
  match specs with
  | [] => m0 = m
  | s :: specs => fs_fresh s m0 /\ fresh_chain specs m (fs_copy s m m0)
  end.

Lemma specs_size_nonneg specs m : Forall field_ok specs -> specs_typed specs m -> 0 <= format_Size (map fs_format specs) m.
Proof.
  intros H T. unfold format_Size. rewrite map_map. apply Zsum_nonneg, Forall_map. unfold specs_typed in T.
  rewrite Forall_forall in *. intros s Hs. by apply fk_size; auto.
Qed.
Lemma fields_write specs m : Forall field_ok specs -> specs_typed specs m ->
  format_Size (map fs_format specs) m <= MaxInt64 ->
  len (message_bytes specs m) = format_Size (map fs_format specs) m /\
  writes (write_fields (map fs_format specs) m) (message_bytes specs m).
Proof.
  intros H T. induction specs as [|s specs IH]; intros Hs; [split; [done|apply writes_nothing]|].
  apply Forall_cons in H as [Hk H]. apply Forall_cons in T as [Tk T]. specialize (IH H T).
  unfold format_Size in *. cbn [map] in *. rewrite Zsum_cons in *.
  pose proof (fk_size _ Hk m Tk). pose proof (specs_size_nonneg specs m H T) as Hn. unfold format_Size in Hn.
  destruct IH as [L W]; [lia|]. unfold message_bytes in *. cbn [map concat write_fields]. split.
  - rewrite len_app, L. by rewrite fk_len by (done || lia).
  - apply writes_bind; [done|]. apply fk_writes; (done || lia).
Qed.
Lemma fields_decode specs field m m0 : Forall field_ok specs -> specs_typed specs m ->
  format_Size (map fs_format specs) m <= MaxInt64 ->
  (forall s, s ∈ specs -> field (ff_num (fs_format s)) = Some (ff_read (fs_format s))) ->
  fresh_chain specs m m0 -> decodes field (message_bytes specs m) m0 m.
Proof.
  intros H T. revert m0. induction specs as [|s specs IH]; intros m0 Hs F; [intros ->; apply decodes_nil|].
  apply Forall_cons in H as [Hk H]. apply Forall_cons in T as [Tk T]. intros [Hf Hc].
  unfold format_Size in *. cbn [map] in *. rewrite Zsum_cons in *.
  pose proof (fk_size _ Hk m Tk). pose proof (specs_size_nonneg specs m H T) as Hn. unfold format_Size in Hn.
  unfold message_bytes. cbn [map concat]. apply decodes_app with (m' := fs_copy s m m0).
  - apply fk_decodes; try done; [lia|]. apply F. by left.
  - apply IH; try done; [lia|]. intros s' Hs'. apply F. by right.
Qed.

(** A field is found by its number. *)
Lemma format_field_in (f : Format M) k : NoDup (map ff_num f) -> k ∈ f -> format_field f (ff_num k) = Some (ff_read k).
Proof.
  intros ND Hk. unfold format_field. induction f as [|k' f IH]; [by apply elem_of_nil in Hk|].
  cbn [map List.find] in *. apply NoDup_cons in ND as [Hn ND]. destruct (Z.eqb_spec (ff_num k') (ff_num k)) as [E|].
  - apply elem_of_cons in Hk as [->|Hk]; [done|]. destruct Hn. rewrite E. apply list_elem_of_In, in_map. by apply list_elem_of_In.
  - apply IH; [done|]. by apply elem_of_cons in Hk as [->|Hk].
Qed.
End message.

(** What a message type promises to the messages and the collections that hold it. *)
Class ProtoLaws (M : Type) {PM : ProtoMessage M} := {
  pl_specs : list (FieldSpec M);
  pl_format : pm_format = map fs_format pl_specs;
  pl_ok : Forall field_ok pl_specs;
  pl_nums : NoDup (map ff_num pm_format);
  pl_chain m : fresh_chain pl_specs m pm_zero;
}.

Section laws.
Context {M : Type} {PM : ProtoMessage M} {PL : ProtoLaws M}.

(** The values of the Go type. *)
Definition typed (m : M) : Prop := specs_typed pl_specs m.
Definition encoded (m : M) : bytes := message_bytes pl_specs m.

Lemma Size_nonneg m : typed m -> 0 <= Size m.
Proof. intros T. unfold Size. rewrite pl_format. by apply specs_size_nonneg; [apply pl_ok|]. Qed.
Lemma encoded_len m : typed m -> Size m <= MaxInt64 -> len (encoded m) = Size m.
Proof. unfold Size. rewrite pl_format. intros T H. by apply fields_write; [apply pl_ok| |]. Qed.
Lemma encoded_writes m : typed m -> Size m <= MaxInt64 -> writes (write_fields pm_format m) (encoded m).
Proof. unfold Size. rewrite pl_format. intros T H. by apply fields_write; [apply pl_ok| |]. Qed.
Lemma encoded_decodes m : typed m -> Size m <= MaxInt64 -> decodes (format_field pm_format) (encoded m) pm_zero m.
Proof.
  intros T H. apply fields_decode; [apply pl_ok|done|by rewrite <- pl_format| |apply pl_chain].
  intros s Hs. apply format_field_in; [apply pl_nums|]. rewrite pl_format.
  apply list_elem_of_In, in_map. by apply list_elem_of_In.
Qed.

Lemma Unmarshal_encoded m : typed m -> Size m <= MaxInt64 -> Unmarshal (encoded m) pm_zero = Ok m.
Proof. intros T H. apply unmarshal_decodes; [by rewrite encoded_len|by apply encoded_decodes]. Qed.
Lemma Marshal_encoded m : typed m -> Size m <= MaxInt64 -> Marshal m = Ok (encoded m).
Proof. intros T H. apply marshal_writes; [by apply encoded_writes|by apply encoded_len]. Qed.

Lemma round_trip m : typed m -> Size m <= MaxInt64 -> exists bz,
  Marshal m = Ok bz /\ Z.of_nat (length bz) = Size m /\ Unmarshal bz pm_zero = Ok m.
Proof.
  intros T H. exists (encoded m). split; [by apply Marshal_encoded|]. split; [by apply encoded_len|by apply Unmarshal_encoded].
Qed.
End laws.

(** ** The kinds of fields *)

Record comp_ok {M A} (c : Component M A) : Prop := {
  co_set_get m : set c (get c m) m = m;
  co_get_set a m : get c (set c a m) = a;
  co_set_set a b m : set c a (set c b m) = set c a m;
}.
Lemma comp_ok_as_bytes {M} (c : Component M string) : comp_ok c -> comp_ok (as_bytes c).
Proof.
  intros [H1 H2 H3]. split; cbn [as_bytes get set]; intros.
  - by rewrite string_of_list_byte_of_string, H1.
  - by rewrite H2, list_byte_of_string_of_list_byte.
  - by rewrite H3.
Qed.

Lemma tag_facts num w : 0 < num < 16 -> w = 0 \/ w = 2 ->
  0 <= tag_of num w < 128 /\ Z.shiftr (tag_of num w) 3 = num /\ Z.land (tag_of num w) 7 = w.
Proof.
  intros Hn Hw. assert (num ∈ seqZ 1 15) as Hin by (apply elem_of_seqZ; lia).
  repeat (apply elem_of_cons in Hin as [->|Hin]; [by destruct Hw as [-> | ->]; vm_compute; split_and!; try done; try discriminate|]).
  by apply elem_of_nil in Hin.
Qed.

(** What gogoproto promises for the values it can encode. *)
Class StdLaws (A : Type) {SC : StdCodec A} := {
  std_valid : A -> Prop;
  std_bytes : A -> bytes;
  std_size a : std_valid a -> SizeOfStd a = len (std_bytes a);
  std_marshal a dAtA : std_valid a -> len (std_bytes a) <= len dAtA ->
    StdMarshalTo a dAtA = Ok (len (std_bytes a), std_bytes a ++ drop (length (std_bytes a)) dAtA);
  std_unmarshal a : std_valid a -> StdUnmarshal (std_bytes a) std_zero = Ok a;
}.

Section kinds.
Context {M : Type} (num : Z) (Hnum : 0 < num < 16).

(** A component whose zero value is [zero]. *)
Definition comp_spec {A} (k : FieldFormat M) (c : Component M A) (zero : A) (dom : A -> Prop) (enc : A -> bytes) : FieldSpec M := {|
  fs_format := k;
  fs_typed m := dom (get c m);
  fs_bytes m := enc (get c m);
  fs_copy m m0 := set c (get c m) m0;
  fs_fresh m0 := get c m0 = zero |}.

Definition bytes_spec (c : Component M bytes) : FieldSpec M :=
  comp_spec (bytes_format num c) c [] (fun _ => True) (fun x => opt_bytes (0 <? len x) (field_bytes (tag_of num 2) x)).
Lemma bytes_ok c : comp_ok c -> field_ok (bytes_spec c).
Proof.
  intros C. destruct (tag_facts num 2 Hnum) as (T1 & T2 & T3); [by right|]. split; cbn.
  - intros m _. pose proof (len_nonneg (get c m)). pose proof (opt_sized_above _ H). lia.
  - intros m _ H. pose proof (opt_sized_above _ (len_nonneg (get c m))). apply len_opt_bytes. intros _. apply len_field_sized. lia.
  - intros m _ H. pose proof (opt_sized_above _ (len_nonneg (get c m))). apply writes_when. intros _. apply writes_bytes_field, bounded_u64. lia.
  - intros field m m0 _ _ F E. apply decodes_opt_bytes; rewrite ?T2; try done; [lia|]. rewrite <- E. by apply co_set_get.
Qed.

Definition number_spec (wrap : Z -> Z) (dom : Z -> Prop) (c : Component M Z) : FieldSpec M :=
  comp_spec (number_format num wrap c) c 0 dom (fun v => opt_bytes (negb (v =? 0)) (number_bytes (tag_of num 0) v)).
Lemma number_ok wrap dom c : wraps wrap -> (forall v, dom v -> wrap (u64 v) = v) -> comp_ok c -> field_ok (number_spec wrap dom c).
Proof.
  intros W D C. destruct (tag_facts num 0 Hnum) as (T1 & T2 & T3); [by left|]. split; cbn.
  - intros m _. apply opt_number_nonneg.
  - intros m _ _. apply len_opt_bytes. intros _. apply len_number_bytes.
  - intros m _ _. apply writes_when. intros _. apply writes_varint_field.
  - intros field m m0 T _ F E. apply (decodes_opt_number _ _ wrap); rewrite ?T2; try done; [lia|by apply D|].
    rewrite <- E. by apply co_set_get.
Qed.

Definition bool_spec (c : Component M bool) : FieldSpec M :=
  comp_spec (bool_format num c) c false (fun _ => True) (fun b => opt_bytes b (number_bytes (tag_of num 0) 1)).
Lemma bool_ok c : comp_ok c -> field_ok (bool_spec c).
Proof.
  intros C. destruct (tag_facts num 0 Hnum) as (T1 & T2 & T3); [by left|]. split; cbn.
  - intros m _. by destruct (get c m).
  - intros m _ _. apply len_opt_bytes. done.
  - intros m _ _. apply writes_when. intros _. apply (writes_bind _ _ _ [byte_of_Z (tag_of num 0)]); apply writes_tag.
  - intros field m m0 _ _ F E. apply decodes_opt.
    + intros ->. apply (decodes_varint _ _ i64 (fun v => set c (negb (v =? 0))) 1 m0); rewrite ?T2; try done; [lia|apply wraps_i64].
    + intros ->. rewrite <- E. by apply co_set_get.
Qed.

Definition packed_spec (c : Component M (list Z)) : FieldSpec M :=
  comp_spec (packed_format num c) c [] (Forall in_u64)
    (fun tds => opt_bytes (0 <? len tds) (field_bytes (tag_of num 2) (packed tds))).
Lemma packed_parts tds : Forall in_u64 tds -> (if 0 <? len tds then sized (Zsum (map sov tds)) else 0) <= MaxInt64 ->
  0 <= Zsum (map sov tds) <= MaxInt64.
Proof.
  intros T. rewrite <- (len_packed tds T). pose proof (len_nonneg (packed tds)) as Hn. pose proof (sized_above _ Hn).
  destruct (Z.ltb_spec 0 (len tds)) as [|Hz]; [lia|]. destruct tds; [done|]. rewrite len_cons in Hz. pose proof (len_nonneg tds). lia.
Qed.
Lemma packed_ok c : comp_ok c -> field_ok (packed_spec c).
Proof.
  intros C. destruct (tag_facts num 2 Hnum) as (T1 & T2 & T3); [by right|]. split; cbn.
  - intros m T. rewrite <- len_packed by done. pose proof (len_nonneg (packed (get c m))) as Hn.
    pose proof (sized_above _ Hn). destruct (_ <? _); lia.
  - intros m T H. apply packed_parts in H; [|done]. apply len_opt_bytes. intros _. rewrite <- len_packed in * by done.
    apply len_field_sized. lia.
  - intros m T H. apply packed_parts in H; [|done]. rewrite <- len_packed in H by done.
    apply writes_when. intros _. apply writes_packed; [done|lia].
  - intros field m m0 T H F E. apply decodes_opt.
    + intros _. pose proof (decodes_packed field (tag_of num 2) (get c) (set c) (get c m) m0) as P. rewrite T2, E in P.
      cbn [app] in P. apply P; (done || lia).
    + intros ->%no_bytes. rewrite <- E. by apply co_set_get.
Qed.

Definition repeated_bytes_spec (c : Component M (list bytes)) : FieldSpec M :=
  comp_spec (repeated_bytes_format num c) c [] (fun _ => True) (fun l => concat (map (field_bytes (tag_of num 2)) l)).
Lemma repeated_bytes_ok c : comp_ok c -> field_ok (repeated_bytes_spec c).
Proof.
  intros C. destruct (tag_facts num 2 Hnum) as (T1 & T2 & T3); [by right|].
  assert (forall l x, Zsum (map (fun x : bytes => sized (len x)) l) <= MaxInt64 -> x ∈ l -> len x <= MaxInt64) as Hx.
  { intros l x H Hin. pose proof (elem_sized (@len Byte.byte) _ x ltac:(intros; apply len_nonneg) Hin). lia. }
  split; cbn.
  - intros m _. apply (sizes_nonneg (@len Byte.byte)). intros. apply len_nonneg.
  - intros m _ H. apply len_concat. intros x Hin. apply len_field_sized. by eapply Hx.
  - intros m _ H. apply writes_repeated. intros x Hin. apply writes_bytes_field, bounded_u64. by eapply Hx.
  - intros field m m0 _ H F E.
    pose proof (decodes_repeated field (field_bytes (tag_of num 2)) (set c) (get c) (get c m) m0) as P. rewrite E in P. apply P.
    + intros x m' _. apply (decodes_bytes _ _ (fun x m => set c (get c m ++ [x]) m)); rewrite ?T2; try done; lia.
    + intros. by apply co_get_set.
    + intros. by apply co_set_set.
    + intros. by apply co_set_get.
Qed.

(** Values of Go's library. *)
Lemma std_writes {A} {SC : StdCodec A} {SL : StdLaws A} (c : Component M A) m : std_valid (get c m) ->
  len (std_bytes (get c m)) <= MaxInt64 ->
  writes (ff_write (std_format num c) m) (field_bytes (tag_of num 2) (std_bytes (get c m))).
Proof.
  intros V H junk hole tail Hh. set (b := std_bytes (get c m)) in *. unfold field_bytes in *. cbn [length] in Hh.
  rewrite length_app in Hh. set (h1 := take (S (length (uvarint (len b)))) hole). set (h2 := drop (S (length (uvarint (len b)))) hole).
  assert (length h1 = S (length (uvarint (len b)))) as L1 by (unfold h1; rewrite length_take; lia).
  assert (length h2 = length b) as L2 by (unfold h2; rewrite length_drop; lia).
  rewrite <- (take_drop (S (length (uvarint (len b)))) hole). fold h1 h2. rewrite (app_assoc junk).
  cbn [ff_write std_format]. rewrite (std_size _ V). fold b.
  replace (len ((junk ++ h1) ++ h2) - len b) with (len (junk ++ h1)) by (rewrite (len_app (junk ++ h1)); unfold len; lia).
  pose proof (len_nonneg (junk ++ h1)) as N1. pose proof (len_nonneg (h2 ++ tail)) as N2.
  rewrite <- (app_assoc (junk ++ h1)), (proj2 (Z.ltb_ge _ _) N1), (proj2 (Z.ltb_ge _ _)) by (rewrite (len_app (junk ++ h1)); lia).
  cbn [orb panic_if]. replace (Z.to_nat (len (junk ++ h1))) with (length (junk ++ h1)) by (unfold len; lia).
  rewrite drop_app_length, take_app_length, (std_marshal _ _ V); fold b; [|rewrite len_app; unfold len in *; lia].
  cbn [mbind outcome_bind]. rewrite <- L2, drop_app_length.
  replace (len ((junk ++ h1) ++ h2) - len b) with (len (junk ++ h1)) by (rewrite (len_app (junk ++ h1)); unfold len; lia).
  rewrite u64_id by by apply bounded_u64.
  etrans; [exact (writes_bind _ _ _ [byte_of_Z (tag_of num 2)] (writes_varint _ (bounded_u64 _ H)) (writes_tag (tag_of num 2)) junk h1 (b ++ tail) L1)|].
  cbn [app]. rewrite <- !app_assoc. cbn [app]. done.
Qed.
Definition std_spec {A} {SC : StdCodec A} {SL : StdLaws A} (c : Component M A) : FieldSpec M :=
  comp_spec (std_format num c) c std_zero std_valid (fun a => field_bytes (tag_of num 2) (std_bytes a)).
Lemma std_ok {A} {SC : StdCodec A} {SL : StdLaws A} (c : Component M A) : field_ok (std_spec c).
Proof.
  destruct (tag_facts num 2 Hnum) as (T1 & T2 & T3); [by right|].
  assert (forall m, std_valid (get c m) -> sized (SizeOfStd (get c m)) <= MaxInt64 -> len (std_bytes (get c m)) <= MaxInt64) as Hb.
  { intros m V H. rewrite (std_size _ V) in H. pose proof (sized_above _ (len_nonneg (std_bytes (get c m)))). lia. }
  split; cbn [fs_format std_spec comp_spec fs_typed fs_bytes fs_copy fs_fresh].
  - intros m V. cbn. rewrite (std_size _ V). pose proof (sized_above _ (len_nonneg (std_bytes (get c m)))).
    pose proof (len_nonneg (std_bytes (get c m))). lia.
  - intros m V H. cbn in *. rewrite len_field_sized by by apply Hb. by rewrite (std_size _ V).
  - intros m V H. apply std_writes; [done|by apply Hb].
  - intros field m m0 V H F E. apply (decodes_message field _ (fun d m => StdUnmarshal d (get c m)) (set c)); rewrite ?T2; try done; [lia|].
    rewrite E. by apply std_unmarshal.
Qed.

(** Messages within the message. *)
Context {N : Type} {PM : ProtoMessage N} {PL : ProtoLaws N}.

Lemma nested_write n : typed n -> sized (Size n) <= MaxInt64 ->
  len (field_bytes (tag_of num 2) (encoded n)) = sized (Size n) /\
  writes (write_message num n) (field_bytes (tag_of num 2) (encoded n)).
Proof.
  intros T H. pose proof (sized_above _ (Size_nonneg n T)). assert (Size n <= MaxInt64) as Hs by lia. split.
  - rewrite <- (encoded_len n T Hs). apply len_field_sized. by rewrite encoded_len.
  - apply writes_message; [by apply encoded_writes|]. apply bounded_u64. by rewrite encoded_len.
Qed.
Lemma nested_size n : typed n -> 0 <= sized (Size n).
Proof. intros T. pose proof (Size_nonneg n T). pose proof (sized_above _ H). lia. Qed.
Lemma nested_read field U (set : N -> M -> M) n m0 :
  field num = Some (read_message U set) -> U (encoded n) m0 = Unmarshal (encoded n) pm_zero ->
  typed n -> sized (Size n) <= MaxInt64 ->
  decodes field (field_bytes (tag_of num 2) (encoded n)) m0 (set n m0).
Proof.
  intros F HU T H. destruct (tag_facts num 2 Hnum) as (T1 & T2 & T3); [by right|].
  pose proof (sized_above _ (Size_nonneg n T)). apply (decodes_message field _ U set); rewrite ?T2; try done; [lia|].
  rewrite HU. apply Unmarshal_encoded; [done|lia].
Qed.

Definition message_spec (c : Component M N) : FieldSpec M :=
  comp_spec (message_format num c) c pm_zero typed (fun n => field_bytes (tag_of num 2) (encoded n)).
Lemma message_ok c : field_ok (message_spec c).
Proof.
  split; cbn.
  - intros m T. by apply nested_size.
  - intros m T H. by apply nested_write.
  - intros m T H. by apply nested_write.
  - intros field m m0 T H F E. apply (nested_read field _ (set c) (get c m) m0 F); [by rewrite E|done..].
Qed.

Definition pointer_spec (c : Component M (option N)) : FieldSpec M :=
  comp_spec (pointer_format num c) c None (from_option typed True)
    (fun o => match o with Some n => field_bytes (tag_of num 2) (encoded n) | None => [] end).
Lemma pointer_ok c : comp_ok c -> field_ok (pointer_spec c).
Proof.
  intros C. split; cbn.
  - intros m T. destruct (get c m) as [n|]; [by apply nested_size|done].
  - intros m T H. destruct (get c m) as [n|]; [by apply nested_write|done].
  - intros m T H. destruct (get c m) as [n|]; [by apply nested_write|apply writes_nothing].
  - intros field m m0 T H F E. destruct (get c m) as [n|].
    + apply (nested_read field _ (fun n => set c (Some n)) n m0 F); [by rewrite E|done..].
    + rewrite <- E, (co_set_get c C). apply decodes_nil.
Qed.

Definition repeated_spec (c : Component M (list N)) : FieldSpec M :=
  comp_spec (repeated_format num c) c [] (Forall typed) (fun l => concat (map (fun n => field_bytes (tag_of num 2) (encoded n)) l)).
Lemma repeated_ok c : comp_ok c -> field_ok (repeated_spec c).
Proof.
  intros C.
  assert (forall l n, Forall typed l -> Zsum (map (fun n => sized (Size n)) l) <= MaxInt64 -> n ∈ l ->
    typed n /\ sized (Size n) <= MaxInt64) as Hx.
  { intros l n T H Hin. rewrite Forall_forall in T. split; [by apply T|].
    pose proof (Zsum_elem (fun n => sized (Size n)) l n ltac:(intros; by apply nested_size, T) Hin) as P.
    cbn beta in P. by etrans. }
  split; cbn.
  - intros m T. apply Zsum_nonneg, Forall_map. eapply Forall_impl; [exact T|]. intros. by apply nested_size.
  - intros m T H. apply len_concat. intros n Hin. destruct (Hx _ n T H Hin). by apply nested_write.
  - intros m T H. apply writes_repeated. intros n Hin. destruct (Hx _ n T H Hin). by apply nested_write.
  - intros field m m0 T H F E.
    pose proof (decodes_repeated field (fun n => field_bytes (tag_of num 2) (encoded n)) (set c) (get c) (get c m) m0) as P.
    rewrite E in P. apply P.
    + intros n m' Hin. destruct (Hx _ n T H Hin). by apply (nested_read field _ (fun n m => set c (get c m ++ [n]) m) n m' F).
    + intros. by apply co_get_set.
    + intros. by apply co_set_set.
    + intros. by apply co_set_get.
Qed.
End kinds.

Definition string_spec {M} (num : Z) (c : Component M string) : FieldSpec M := bytes_spec num (as_bytes c).
Lemma string_ok {M} num (c : Component M string) : 0 < num < 16 -> comp_ok c -> field_ok (string_spec num c).
Proof. intros Hn C. apply bytes_ok; [done|by apply comp_ok_as_bytes]. Qed.
Definition uint64_spec {M} (num : Z) : Component M Z -> FieldSpec M := number_spec num u64 in_u64.
Lemma uint64_ok {M} num (c : Component M Z) : 0 < num < 16 -> comp_ok c -> field_ok (uint64_spec num c).
Proof. intros Hn. apply number_ok; [done|apply wraps_u64|]. intros v Hv. by rewrite !u64_id by auto with width. Qed.
Definition int64_spec {M} (num : Z) : Component M Z -> FieldSpec M := number_spec num i64 in_i64.
Lemma int64_ok {M} num (c : Component M Z) : 0 < num < 16 -> comp_ok c -> field_ok (int64_spec num c).
Proof.
  intros Hn. apply number_ok; [done|apply wraps_i64|]. intros v Hv. change i64 with (sx 64). rewrite sx_u64 by lia.
  apply sx_small; [lia|]. unfold in_i64, MinInt64, MaxInt64 in Hv. cbn; lia.
Qed.
