(* ===== verification/Stored.v ===== *)
(** * The encoding of the stored messages

    The formats of the messages that the modules keep in their collections, as the generated
    codecs have them: validators and their sets, the transactions of the last block
    ([x/stake/types/validator.pb.go], [last_block_txs.pb.go]), spans, votes for producers,
    planned downtimes and parameters ([x/bor/types/bor.pb.go]), milestones, their number and
    parameters ([x/milestone/types/milestone.pb.go]), checkpoints
    ([x/checkpoint/types/checkpoint.pb.go]) and dividend accounts
    ([types/dividend_account.pb.go]), the records of clerk ([x/clerk/types/clerk.pb.go]), the
    parameters of the main chain ([x/chainmanager/types/chainmanager.pb.go]).  The time of a record and the duration of the parameters of checkpoints have the encoding of
    gogoproto, a parameter ([StdCodec]). *)
From S2P Require Import Prelude Helpers VoteTypes ValidatorSet Milestone Numerals Dividend Clerk Checkpoint BorTypes ChainManager Wire ExtendVote VoteCodec Formats.
#[local] Open Scope Z_scope.

(** ** Validators *)

Definition validatorC_ValId : Component Validator Z :=
  {| get := ValId; set x '(Build_Validator _ b c d e f g h i j) := Build_Validator x b c d e f g h i j |}.
Definition validatorC_StartEpoch : Component Validator Z :=
  {| get := StartEpoch; set x '(Build_Validator a _ c d e f g h i j) := Build_Validator a x c d e f g h i j |}.
Definition validatorC_EndEpoch : Component Validator Z :=
  {| get := EndEpoch; set x '(Build_Validator a b _ d e f g h i j) := Build_Validator a b x d e f g h i j |}.
Definition validatorC_Nonce : Component Validator Z :=
  {| get := Nonce; set x '(Build_Validator a b c _ e f g h i j) := Build_Validator a b c x e f g h i j |}.
Definition validatorC_VotingPower : Component Validator Z :=
  {| get := VotingPower; set x '(Build_Validator a b c d _ f g h i j) := Build_Validator a b c d x f g h i j |}.
Definition validatorC_PubKey : Component Validator bytes :=
  {| get := PubKey; set x '(Build_Validator a b c d e _ g h i j) := Build_Validator a b c d e x g h i j |}.
Definition validatorC_Signer : Component Validator string :=
  {| get := Signer; set x '(Build_Validator a b c d e f _ h i j) := Build_Validator a b c d e f x h i j |}.
Definition validatorC_LastUpdated : Component Validator string :=
  {| get := LastUpdated; set x '(Build_Validator a b c d e f g _ i j) := Build_Validator a b c d e f g x i j |}.
Definition validatorC_Jailed : Component Validator bool :=
  {| get := Jailed; set x '(Build_Validator a b c d e f g h _ j) := Build_Validator a b c d e f g h x j |}.
Definition validatorC_ProposerPriority : Component Validator Z :=
  {| get := ProposerPriority; set x '(Build_Validator a b c d e f g h i _) := Build_Validator a b c d e f g h i x |}.
#[export] Instance validator_message : ProtoMessage Validator := {|
  pm_format :=
    [uint64_format 1 validatorC_ValId;
     uint64_format 2 validatorC_StartEpoch;
     uint64_format 3 validatorC_EndEpoch;
     uint64_format 4 validatorC_Nonce;
     int64_format 5 validatorC_VotingPower;
     bytes_format 6 validatorC_PubKey;
     string_format 7 validatorC_Signer;
     string_format 8 validatorC_LastUpdated;
     bool_format 9 validatorC_Jailed;
     int64_format 10 validatorC_ProposerPriority];
  pm_zero := Build_Validator 0 0 0 0 0 [] EmptyString EmptyString false 0 |}.

(** ** Validator sets *)

Definition validatorSetC_Validators : Component ValidatorSet (list Validator) :=
  {| get := Validators; set x '(Build_ValidatorSet _ b c) := Build_ValidatorSet x b c |}.
Definition validatorSetC_Proposer : Component ValidatorSet (option Validator) :=
  {| get := Proposer; set x '(Build_ValidatorSet a _ c) := Build_ValidatorSet a x c |}.
Definition validatorSetC_TotalVotingPower : Component ValidatorSet Z :=
  {| get := TotalVotingPower; set x '(Build_ValidatorSet a b _) := Build_ValidatorSet a b x |}.
#[export] Instance validatorSet_message : ProtoMessage ValidatorSet := {|
  pm_format :=
    [repeated_format 1 validatorSetC_Validators;
     pointer_format 2 validatorSetC_Proposer;
     int64_format 3 validatorSetC_TotalVotingPower];
  pm_zero := Build_ValidatorSet [] None 0 |}.

(** ** Spans *)

Definition spanC_Id : Component Span Z :=
  {| get := span_Id; set x '(Build_Span _ b c d e f) := Build_Span x b c d e f |}.
Definition spanC_StartBlock : Component Span Z :=
  {| get := span_StartBlock; set x '(Build_Span a _ c d e f) := Build_Span a x c d e f |}.
Definition spanC_EndBlock : Component Span Z :=
  {| get := span_EndBlock; set x '(Build_Span a b _ d e f) := Build_Span a b x d e f |}.
Definition spanC_ValidatorSet : Component Span ValidatorSet :=
  {| get := span_ValidatorSet; set x '(Build_Span a b c _ e f) := Build_Span a b c x e f |}.
Definition spanC_SelectedProducers : Component Span (list Validator) :=
  {| get := SelectedProducers; set x '(Build_Span a b c d _ f) := Build_Span a b c d x f |}.
Definition spanC_BorChainId : Component Span string :=
  {| get := span_BorChainId; set x '(Build_Span a b c d e _) := Build_Span a b c d e x |}.
#[export] Instance span_message : ProtoMessage Span := {|
  pm_format :=
    [uint64_format 1 spanC_Id;
     uint64_format 2 spanC_StartBlock;
     uint64_format 3 spanC_EndBlock;
     message_format 4 spanC_ValidatorSet;
     repeated_format 5 spanC_SelectedProducers;
     string_format 6 spanC_BorChainId];
  pm_zero := Build_Span 0 0 0 pm_zero [] EmptyString |}.

(** ** Milestones *)

Definition milestoneC_Proposer : Component MilestoneRecord string :=
  {| get := mi_Proposer; set x '(Build_MilestoneRecord _ b c d e f g h) := Build_MilestoneRecord x b c d e f g h |}.
Definition milestoneC_StartBlock : Component MilestoneRecord Z :=
  {| get := mi_StartBlock; set x '(Build_MilestoneRecord a _ c d e f g h) := Build_MilestoneRecord a x c d e f g h |}.
Definition milestoneC_EndBlock : Component MilestoneRecord Z :=
  {| get := mi_EndBlock; set x '(Build_MilestoneRecord a b _ d e f g h) := Build_MilestoneRecord a b x d e f g h |}.
Definition milestoneC_Hash : Component MilestoneRecord bytes :=
  {| get := mi_Hash; set x '(Build_MilestoneRecord a b c _ e f g h) := Build_MilestoneRecord a b c x e f g h |}.
Definition milestoneC_BorChainId : Component MilestoneRecord string :=
  {| get := mi_BorChainId; set x '(Build_MilestoneRecord a b c d _ f g h) := Build_MilestoneRecord a b c d x f g h |}.
Definition milestoneC_MilestoneId : Component MilestoneRecord string :=
  {| get := mi_MilestoneId; set x '(Build_MilestoneRecord a b c d e _ g h) := Build_MilestoneRecord a b c d e x g h |}.
Definition milestoneC_Timestamp : Component MilestoneRecord Z :=
  {| get := mi_Timestamp; set x '(Build_MilestoneRecord a b c d e f _ h) := Build_MilestoneRecord a b c d e f x h |}.
Definition milestoneC_TotalDifficulty : Component MilestoneRecord Z :=
  {| get := mi_TotalDifficulty; set x '(Build_MilestoneRecord a b c d e f g _) := Build_MilestoneRecord a b c d e f g x |}.
#[export] Instance milestone_message : ProtoMessage MilestoneRecord := {|
  pm_format :=
    [string_format 1 milestoneC_Proposer;
     uint64_format 2 milestoneC_StartBlock;
     uint64_format 3 milestoneC_EndBlock;
     bytes_format 4 milestoneC_Hash;
     string_format 5 milestoneC_BorChainId;
     string_format 6 milestoneC_MilestoneId;
     uint64_format 7 milestoneC_Timestamp;
     uint64_format 8 milestoneC_TotalDifficulty];
  pm_zero := Build_MilestoneRecord EmptyString 0 0 [] EmptyString EmptyString 0 0 |}.

(** ** Checkpoints *)

Definition checkpointC_Id : Component Checkpoint Z :=
  {| get := cp_Id; set x '(Build_Checkpoint _ b c d e f g) := Build_Checkpoint x b c d e f g |}.
Definition checkpointC_Proposer : Component Checkpoint string :=
  {| get := cp_Proposer; set x '(Build_Checkpoint a _ c d e f g) := Build_Checkpoint a x c d e f g |}.
Definition checkpointC_StartBlock : Component Checkpoint Z :=
  {| get := cp_StartBlock; set x '(Build_Checkpoint a b _ d e f g) := Build_Checkpoint a b x d e f g |}.
Definition checkpointC_EndBlock : Component Checkpoint Z :=
  {| get := cp_EndBlock; set x '(Build_Checkpoint a b c _ e f g) := Build_Checkpoint a b c x e f g |}.
Definition checkpointC_RootHash : Component Checkpoint bytes :=
  {| get := cp_RootHash; set x '(Build_Checkpoint a b c d _ f g) := Build_Checkpoint a b c d x f g |}.
Definition checkpointC_BorChainId : Component Checkpoint string :=
  {| get := cp_BorChainId; set x '(Build_Checkpoint a b c d e _ g) := Build_Checkpoint a b c d e x g |}.
Definition checkpointC_Timestamp : Component Checkpoint Z :=
  {| get := cp_Timestamp; set x '(Build_Checkpoint a b c d e f _) := Build_Checkpoint a b c d e f x |}.
#[export] Instance checkpoint_message : ProtoMessage Checkpoint := {|
  pm_format :=
    [uint64_format 1 checkpointC_Id;
     string_format 2 checkpointC_Proposer;
     uint64_format 3 checkpointC_StartBlock;
     uint64_format 4 checkpointC_EndBlock;
     bytes_format 5 checkpointC_RootHash;
     string_format 6 checkpointC_BorChainId;
     uint64_format 7 checkpointC_Timestamp];
  pm_zero := Build_Checkpoint 0 EmptyString 0 0 [] EmptyString 0 |}.

(** ** Dividend accounts *)

Definition dividendAccountC_User : Component DividendAccount string :=
  {| get := User; set x '(Build_DividendAccount _ b) := Build_DividendAccount x b |}.
Definition dividendAccountC_FeeAmount : Component DividendAccount string :=
  {| get := FeeAmount; set x '(Build_DividendAccount a _) := Build_DividendAccount a x |}.
#[export] Instance dividendAccount_message : ProtoMessage DividendAccount := {|
  pm_format :=
    [string_format 1 dividendAccountC_User;
     string_format 2 dividendAccountC_FeeAmount];
  pm_zero := Build_DividendAccount EmptyString EmptyString |}.

(** ** Parameters *)

Definition borParamsC_SprintDuration : Component BorParams Z :=
  {| get := SprintDuration; set x '(Build_BorParams _ b c) := Build_BorParams x b c |}.
Definition borParamsC_SpanDuration : Component BorParams Z :=
  {| get := SpanDuration; set x '(Build_BorParams a _ c) := Build_BorParams a x c |}.
Definition borParamsC_ProducerCount : Component BorParams Z :=
  {| get := ProducerCount; set x '(Build_BorParams a b _) := Build_BorParams a b x |}.
#[export] Instance borParams_message : ProtoMessage BorParams := {|
  pm_format :=
    [uint64_format 1 borParamsC_SprintDuration;
     uint64_format 2 borParamsC_SpanDuration;
     uint64_format 3 borParamsC_ProducerCount];
  pm_zero := Build_BorParams 0 0 0 |}.

(** ** Parameters of milestones *)

Definition milestoneParamsC_MaxMilestonePropositionLength : Component MilestoneParams Z :=
  {| get := MaxMilestonePropositionLength; set x '(Build_MilestoneParams _ b c) := Build_MilestoneParams x b c |}.
Definition milestoneParamsC_FfMilestoneThreshold : Component MilestoneParams Z :=
  {| get := FfMilestoneThreshold; set x '(Build_MilestoneParams a _ c) := Build_MilestoneParams a x c |}.
Definition milestoneParamsC_FfMilestoneBlockInterval : Component MilestoneParams Z :=
  {| get := FfMilestoneBlockInterval; set x '(Build_MilestoneParams a b _) := Build_MilestoneParams a b x |}.
#[export] Instance milestoneParams_message : ProtoMessage MilestoneParams := {|
  pm_format :=
    [uint64_format 1 milestoneParamsC_MaxMilestonePropositionLength;
     uint64_format 2 milestoneParamsC_FfMilestoneThreshold;
     uint64_format 3 milestoneParamsC_FfMilestoneBlockInterval];
  pm_zero := Build_MilestoneParams 0 0 0 |}.

(** ** Votes for producers *)

(** The modules keep the contents of the messages below: a list, a pair, a number. *)
Record ProducerVotesMessage := { Votes : list Z }.
Definition producerVotesC_Votes : Component ProducerVotesMessage (list Z) :=
  {| get := Votes; set x '(Build_ProducerVotesMessage _) := Build_ProducerVotesMessage x |}.
#[export] Instance producerVotes_message : ProtoMessage ProducerVotesMessage := {|
  pm_format :=
    [packed_format 1 producerVotesC_Votes];
  pm_zero := Build_ProducerVotesMessage [] |}.

(** ** Planned downtimes *)

Record BlockRange := { StartBlock : Z; EndBlock : Z }.
Definition blockRangeC_StartBlock : Component BlockRange Z :=
  {| get := StartBlock; set x '(Build_BlockRange _ b) := Build_BlockRange x b |}.
Definition blockRangeC_EndBlock : Component BlockRange Z :=
  {| get := EndBlock; set x '(Build_BlockRange a _) := Build_BlockRange a x |}.
#[export] Instance blockRange_message : ProtoMessage BlockRange := {|
  pm_format :=
    [uint64_format 1 blockRangeC_StartBlock;
     uint64_format 2 blockRangeC_EndBlock];
  pm_zero := Build_BlockRange 0 0 |}.

(** ** The number of milestones *)

Record MilestoneCount := { Count : Z }.
Definition milestoneCountC_Count : Component MilestoneCount Z :=
  {| get := Count; set x '(Build_MilestoneCount _) := Build_MilestoneCount x |}.
#[export] Instance milestoneCount_message : ProtoMessage MilestoneCount := {|
  pm_format :=
    [uint64_format 1 milestoneCountC_Count];
  pm_zero := Build_MilestoneCount 0 |}.

(** ** Transactions of the last block *)

Record LastBlockTxs := { Txs : list bytes }.
Definition lastBlockTxsC_Txs : Component LastBlockTxs (list bytes) :=
  {| get := Txs; set x '(Build_LastBlockTxs _) := Build_LastBlockTxs x |}.
#[export] Instance lastBlockTxs_message : ProtoMessage LastBlockTxs := {|
  pm_format :=
    [repeated_bytes_format 1 lastBlockTxsC_Txs];
  pm_zero := Build_LastBlockTxs [] |}.

(** ** Event records *)

Definition eventRecordC_Id : Component EventRecord Z :=
  {| get := er_Id; set x '(Build_EventRecord _ b c d e f g) := Build_EventRecord x b c d e f g |}.
Definition eventRecordC_Contract : Component EventRecord string :=
  {| get := er_Contract; set x '(Build_EventRecord a _ c d e f g) := Build_EventRecord a x c d e f g |}.
Definition eventRecordC_Data : Component EventRecord bytes :=
  {| get := er_Data; set x '(Build_EventRecord a b _ d e f g) := Build_EventRecord a b x d e f g |}.
Definition eventRecordC_TxHash : Component EventRecord string :=
  {| get := er_TxHash; set x '(Build_EventRecord a b c _ e f g) := Build_EventRecord a b c x e f g |}.
Definition eventRecordC_LogIndex : Component EventRecord Z :=
  {| get := er_LogIndex; set x '(Build_EventRecord a b c d _ f g) := Build_EventRecord a b c d x f g |}.
Definition eventRecordC_BorChainId : Component EventRecord string :=
  {| get := er_BorChainId; set x '(Build_EventRecord a b c d e _ g) := Build_EventRecord a b c d e x g |}.
Definition eventRecordC_RecordTime : Component EventRecord GoTime :=
  {| get := er_RecordTime; set x '(Build_EventRecord a b c d e f _) := Build_EventRecord a b c d e f x |}.
#[export] Instance eventRecord_message {SC : StdCodec GoTime} : ProtoMessage EventRecord := {|
  pm_format :=
    [uint64_format 1 eventRecordC_Id;
     string_format 2 eventRecordC_Contract;
     bytes_format 3 eventRecordC_Data;
     string_format 4 eventRecordC_TxHash;
     uint64_format 5 eventRecordC_LogIndex;
     string_format 6 eventRecordC_BorChainId;
     std_format 7 eventRecordC_RecordTime];
  pm_zero := Build_EventRecord 0 EmptyString [] EmptyString 0 EmptyString std_zero |}.

(** ** Parameters of checkpoints *)

Definition checkpointParamsC_CheckpointBufferTime : Component CheckpointParams Z :=
  {| get := CheckpointBufferTime; set x '(Build_CheckpointParams _ b c d) := Build_CheckpointParams x b c d |}.
Definition checkpointParamsC_AvgCheckpointLength : Component CheckpointParams Z :=
  {| get := AvgCheckpointLength; set x '(Build_CheckpointParams a _ c d) := Build_CheckpointParams a x c d |}.
Definition checkpointParamsC_MaxCheckpointLength : Component CheckpointParams Z :=
  {| get := MaxCheckpointLength; set x '(Build_CheckpointParams a b _ d) := Build_CheckpointParams a b x d |}.
Definition checkpointParamsC_ChildChainBlockInterval : Component CheckpointParams Z :=
  {| get := ChildChainBlockInterval; set x '(Build_CheckpointParams a b c _) := Build_CheckpointParams a b c x |}.
#[export] Instance checkpointParams_message {SC : StdCodec Z} : ProtoMessage CheckpointParams := {|
  pm_format :=
    [std_format 1 checkpointParamsC_CheckpointBufferTime;
     uint64_format 2 checkpointParamsC_AvgCheckpointLength;
     uint64_format 3 checkpointParamsC_MaxCheckpointLength;
     uint64_format 4 checkpointParamsC_ChildChainBlockInterval];
  pm_zero := Build_CheckpointParams std_zero 0 0 0 |}.

(** ** Parameters of the main chain *)

Definition chainParamsC_BorChainId : Component ChainParams string :=
  {| get := cn_BorChainId; set x '(Build_ChainParams _ b c d e f g h i j) := Build_ChainParams x b c d e f g h i j |}.
Definition chainParamsC_HeimdallChainId : Component ChainParams string :=
  {| get := HeimdallChainId; set x '(Build_ChainParams a _ c d e f g h i j) := Build_ChainParams a x c d e f g h i j |}.
Definition chainParamsC_PolTokenAddress : Component ChainParams string :=
  {| get := PolTokenAddress; set x '(Build_ChainParams a b _ d e f g h i j) := Build_ChainParams a b x d e f g h i j |}.
Definition chainParamsC_StakingManagerAddress : Component ChainParams string :=
  {| get := StakingManagerAddress; set x '(Build_ChainParams a b c _ e f g h i j) := Build_ChainParams a b c x e f g h i j |}.
Definition chainParamsC_SlashManagerAddress : Component ChainParams string :=
  {| get := SlashManagerAddress; set x '(Build_ChainParams a b c d _ f g h i j) := Build_ChainParams a b c d x f g h i j |}.
Definition chainParamsC_RootChainAddress : Component ChainParams string :=
  {| get := cn_RootChainAddress; set x '(Build_ChainParams a b c d e _ g h i j) := Build_ChainParams a b c d e x g h i j |}.
Definition chainParamsC_StakingInfoAddress : Component ChainParams string :=
  {| get := cn_StakingInfoAddress; set x '(Build_ChainParams a b c d e f _ h i j) := Build_ChainParams a b c d e f x h i j |}.
Definition chainParamsC_StateSenderAddress : Component ChainParams string :=
  {| get := cn_StateSenderAddress; set x '(Build_ChainParams a b c d e f g _ i j) := Build_ChainParams a b c d e f g x i j |}.
Definition chainParamsC_StateReceiverAddress : Component ChainParams string :=
  {| get := StateReceiverAddress; set x '(Build_ChainParams a b c d e f g h _ j) := Build_ChainParams a b c d e f g h x j |}.
Definition chainParamsC_ValidatorSetAddress : Component ChainParams string :=
  {| get := ValidatorSetAddress; set x '(Build_ChainParams a b c d e f g h i _) := Build_ChainParams a b c d e f g h i x |}.
#[export] Instance chainParams_message : ProtoMessage ChainParams := {|
  pm_format :=
    [string_format 1 chainParamsC_BorChainId;
     string_format 2 chainParamsC_HeimdallChainId;
     string_format 3 chainParamsC_PolTokenAddress;
     string_format 4 chainParamsC_StakingManagerAddress;
     string_format 5 chainParamsC_SlashManagerAddress;
     string_format 6 chainParamsC_RootChainAddress;
     string_format 7 chainParamsC_StakingInfoAddress;
     string_format 8 chainParamsC_StateSenderAddress;
     string_format 9 chainParamsC_StateReceiverAddress;
     string_format 10 chainParamsC_ValidatorSetAddress];
  pm_zero := Build_ChainParams EmptyString EmptyString EmptyString EmptyString EmptyString EmptyString EmptyString EmptyString EmptyString EmptyString |}.

Definition cmParamsC_ChainParams : Component CMParams ChainParams :=
  {| get := ChainParams_of; set x '(Build_CMParams _ b c) := Build_CMParams x b c |}.
Definition cmParamsC_MainChainTxConfirmations : Component CMParams Z :=
  {| get := cm_MainChainTxConfirmations; set x '(Build_CMParams a _ c) := Build_CMParams a x c |}.
Definition cmParamsC_BorChainTxConfirmations : Component CMParams Z :=
  {| get := cm_BorChainTxConfirmations; set x '(Build_CMParams a b _) := Build_CMParams a b x |}.
#[export] Instance cmParams_message : ProtoMessage CMParams := {|
  pm_format :=
    [message_format 1 cmParamsC_ChainParams;
     uint64_format 2 cmParamsC_MainChainTxConfirmations;
     uint64_format 3 cmParamsC_BorChainTxConfirmations];
  pm_zero := Build_CMParams pm_zero 0 0 |}.

(** ** Tests *)

Definition sample_validator : Validator :=
  {| ValId := 3; StartEpoch := 1; EndEpoch := MaxUint64; Nonce := 300; VotingPower := 10; PubKey := [Byte.x04; Byte.x05];
     Signer := "0xaa"; LastUpdated := ""; Jailed := true; ProposerPriority := -7 |}.
Definition sample_span : Span :=
  {| span_Id := 2; span_StartBlock := 257; span_EndBlock := 6656;
     span_ValidatorSet := {| Validators := [sample_validator; pm_zero]; Proposer := Some pm_zero; TotalVotingPower := 10 |};
     SelectedProducers := [sample_validator]; span_BorChainId := "137" |}.
Example sample_span_round_trips : (bz ← Marshal sample_span; Unmarshal bz pm_zero) = Ok sample_span.
Proof. vm_compute. reflexivity. Qed.
