(* ===== verification/StoredCorrect.v ===== *)
(** * The encoding of the stored messages: correctness

    The laws of the formats, and with them: what a module stores it reads back. *)
From S2P Require Import Prelude Helpers ValidatorSet VoteTypes Milestone Numerals Dividend Clerk Checkpoint BorTypes ChainManager ExtendVote Wire VoteCodec VoteCodecCorrect Formats Stored.
#[local] Open Scope Z_scope.

(** A component of a record, the law of a field by its kind, and the laws of a format. *)
Ltac component_law := split;
  [ intros m; destruct m; reflexivity | intros a m; destruct m; reflexivity | intros a b m; destruct m; reflexivity ].
Ltac field_law :=
  lazymatch goal with
  | |- field_ok (uint64_spec _ _) => apply uint64_ok; [lia|component_law]
  | |- field_ok (int64_spec _ _) => apply int64_ok; [lia|component_law]
  | |- field_ok (string_spec _ _) => apply string_ok; [lia|component_law]
  | |- field_ok (bytes_spec _ _) => apply bytes_ok; [lia|component_law]
  | |- field_ok (bool_spec _ _) => apply bool_ok; [lia|component_law]
  | |- field_ok (packed_spec _ _) => apply packed_ok; [lia|component_law]
  | |- field_ok (repeated_bytes_spec _ _) => apply repeated_bytes_ok; [lia|component_law]
  | |- field_ok (message_spec _ _) => apply message_ok; lia
  | |- field_ok (std_spec _ _) => apply std_ok; lia
  | |- field_ok (pointer_spec _ _) => apply pointer_ok; [lia|component_law]
  | |- field_ok (repeated_spec _ _) => apply repeated_ok; [lia|component_law]
  end.
Ltac chain_law :=
  let m := fresh in intros m; destruct m;
  cbn [fresh_chain fs_fresh fs_copy comp_spec bytes_spec string_spec uint64_spec int64_spec number_spec bool_spec packed_spec
       repeated_bytes_spec std_spec message_spec pointer_spec repeated_spec as_bytes get set];
  rewrite ?string_of_list_byte_of_string; split_and!; reflexivity.
Ltac message_laws specs :=
  refine {| pl_specs := specs |};
  [ reflexivity | repeat (apply List.Forall_cons; [field_law|]); apply List.Forall_nil
  | vm_compute; repeat constructor; set_solver | chain_law ].

#[export] Instance validator_laws : ProtoLaws Validator.
Proof.
  message_laws [uint64_spec 1 validatorC_ValId; uint64_spec 2 validatorC_StartEpoch; uint64_spec 3 validatorC_EndEpoch; uint64_spec 4 validatorC_Nonce; int64_spec 5 validatorC_VotingPower; bytes_spec 6 validatorC_PubKey; string_spec 7 validatorC_Signer; string_spec 8 validatorC_LastUpdated; bool_spec 9 validatorC_Jailed; int64_spec 10 validatorC_ProposerPriority].
Defined.

#[export] Instance validatorSet_laws : ProtoLaws ValidatorSet.
Proof.
  message_laws [repeated_spec 1 validatorSetC_Validators; pointer_spec 2 validatorSetC_Proposer; int64_spec 3 validatorSetC_TotalVotingPower].
Defined.

#[export] Instance chainParams_laws : ProtoLaws ChainParams.
Proof.
  message_laws [string_spec 1 chainParamsC_BorChainId; string_spec 2 chainParamsC_HeimdallChainId; string_spec 3 chainParamsC_PolTokenAddress; string_spec 4 chainParamsC_StakingManagerAddress; string_spec 5 chainParamsC_SlashManagerAddress; string_spec 6 chainParamsC_RootChainAddress; string_spec 7 chainParamsC_StakingInfoAddress; string_spec 8 chainParamsC_StateSenderAddress; string_spec 9 chainParamsC_StateReceiverAddress; string_spec 10 chainParamsC_ValidatorSetAddress].
Defined.

#[export] Instance cmParams_laws : ProtoLaws CMParams.
Proof.
  message_laws [message_spec 1 cmParamsC_ChainParams; uint64_spec 2 cmParamsC_MainChainTxConfirmations; uint64_spec 3 cmParamsC_BorChainTxConfirmations].
Defined.

#[export] Instance span_laws : ProtoLaws Span.
Proof.
  message_laws [uint64_spec 1 spanC_Id; uint64_spec 2 spanC_StartBlock; uint64_spec 3 spanC_EndBlock; message_spec 4 spanC_ValidatorSet; repeated_spec 5 spanC_SelectedProducers; string_spec 6 spanC_BorChainId].
Defined.

#[export] Instance milestone_laws : ProtoLaws MilestoneRecord.
Proof.
  message_laws [string_spec 1 milestoneC_Proposer; uint64_spec 2 milestoneC_StartBlock; uint64_spec 3 milestoneC_EndBlock; bytes_spec 4 milestoneC_Hash; string_spec 5 milestoneC_BorChainId; string_spec 6 milestoneC_MilestoneId; uint64_spec 7 milestoneC_Timestamp; uint64_spec 8 milestoneC_TotalDifficulty].
Defined.

#[export] Instance checkpoint_laws : ProtoLaws Checkpoint.
Proof.
  message_laws [uint64_spec 1 checkpointC_Id; string_spec 2 checkpointC_Proposer; uint64_spec 3 checkpointC_StartBlock; uint64_spec 4 checkpointC_EndBlock; bytes_spec 5 checkpointC_RootHash; string_spec 6 checkpointC_BorChainId; uint64_spec 7 checkpointC_Timestamp].
Defined.

#[export] Instance dividendAccount_laws : ProtoLaws DividendAccount.
Proof.
  message_laws [string_spec 1 dividendAccountC_User; string_spec 2 dividendAccountC_FeeAmount].
Defined.

#[export] Instance borParams_laws : ProtoLaws BorParams.
Proof.
  message_laws [uint64_spec 1 borParamsC_SprintDuration; uint64_spec 2 borParamsC_SpanDuration; uint64_spec 3 borParamsC_ProducerCount].
Defined.

#[export] Instance milestoneParams_laws : ProtoLaws MilestoneParams.
Proof.
  message_laws [uint64_spec 1 milestoneParamsC_MaxMilestonePropositionLength; uint64_spec 2 milestoneParamsC_FfMilestoneThreshold; uint64_spec 3 milestoneParamsC_FfMilestoneBlockInterval].
Defined.

#[export] Instance producerVotes_laws : ProtoLaws ProducerVotesMessage.
Proof.
  message_laws [packed_spec 1 producerVotesC_Votes].
Defined.

#[export] Instance blockRange_laws : ProtoLaws BlockRange.
Proof.
  message_laws [uint64_spec 1 blockRangeC_StartBlock; uint64_spec 2 blockRangeC_EndBlock].
Defined.

#[export] Instance milestoneCount_laws : ProtoLaws MilestoneCount.
Proof.
  message_laws [uint64_spec 1 milestoneCountC_Count].
Defined.

#[export] Instance lastBlockTxs_laws : ProtoLaws LastBlockTxs.
Proof.
  message_laws [repeated_bytes_spec 1 lastBlockTxsC_Txs].
Defined.

#[export] Instance eventRecord_laws {SC : StdCodec GoTime} {SL : StdLaws GoTime} : ProtoLaws EventRecord.
Proof.
  message_laws [uint64_spec 1 eventRecordC_Id; string_spec 2 eventRecordC_Contract; bytes_spec 3 eventRecordC_Data; string_spec 4 eventRecordC_TxHash; uint64_spec 5 eventRecordC_LogIndex; string_spec 6 eventRecordC_BorChainId; std_spec 7 eventRecordC_RecordTime].
Defined.

#[export] Instance checkpointParams_laws {SC : StdCodec Z} {SL : StdLaws Z} : ProtoLaws CheckpointParams.
Proof.
  message_laws [std_spec 1 checkpointParamsC_CheckpointBufferTime; uint64_spec 2 checkpointParamsC_AvgCheckpointLength; uint64_spec 3 checkpointParamsC_MaxCheckpointLength; uint64_spec 4 checkpointParamsC_ChildChainBlockInterval].
Defined.

(** ** The values of the Go types *)

Definition validator_typed (v : Validator) : Prop :=
  in_u64 (ValId v) /\ in_u64 (StartEpoch v) /\ in_u64 (EndEpoch v) /\ in_u64 (Nonce v) /\
  in_i64 (VotingPower v) /\ in_i64 (ProposerPriority v).
Definition validatorSet_typed (vs : ValidatorSet) : Prop :=
  Forall validator_typed (Validators vs) /\ from_option validator_typed True (Proposer vs) /\ in_i64 (TotalVotingPower vs).
Definition span_typed (s : Span) : Prop :=
  in_u64 (span_Id s) /\ in_u64 (span_StartBlock s) /\ in_u64 (span_EndBlock s) /\
  validatorSet_typed (span_ValidatorSet s) /\ Forall validator_typed (SelectedProducers s).
Definition milestone_typed (m : MilestoneRecord) : Prop :=
  in_u64 (mi_StartBlock m) /\ in_u64 (mi_EndBlock m) /\ in_u64 (mi_Timestamp m) /\ in_u64 (mi_TotalDifficulty m).
Definition checkpoint_typed (c : Checkpoint) : Prop :=
  in_u64 (cp_Id c) /\ in_u64 (cp_StartBlock c) /\ in_u64 (cp_EndBlock c) /\ in_u64 (cp_Timestamp c).

#[export] Instance validator_typed_dec v : Decision (validator_typed v).
Proof. unfold validator_typed. apply _. Defined.
#[export] Instance validatorSet_typed_dec vs : Decision (validatorSet_typed vs).
Proof. unfold validatorSet_typed. destruct (Proposer vs); cbn [from_option]; apply _. Defined.
#[export] Instance span_typed_dec s : Decision (span_typed s).
Proof. unfold span_typed. apply _. Defined.

(** A message of a few numbers is short. *)
Lemma sov_u64 v : sov (u64 v) <= 10.
Proof.
  pose proof (u64_range v) as H. unfold in_u64 in H. unfold sov, Len64. destruct (_ =? 0); [done|].
  rewrite Z.log2_lor by lia. change (Z.log2 1) with 0.
  pose proof (Z.log2_le_mono (u64 v) MaxUint64 ltac:(lia)) as Hl. change (Z.log2 MaxUint64) with 63 in Hl.
  pose proof (Z.log2_nonneg (u64 v)). rewrite Z.max_l by lia.
  transitivity ((63 + 1 + 6) / 7); [apply Z.div_le_mono; lia|done].
Qed.
Lemma number_fits v : (if negb (v =? 0) then 1 + sov (u64 v) else 0) <= 11.
Proof. pose proof (sov_u64 v). destruct (negb _); lia. Qed.
Ltac numbers_fit := unfold Size, format_Size, pm_format; cbn [blockRange_message borParams_message milestoneParams_message
    map uint64_format number_format ff_size get blockRangeC_StartBlock blockRangeC_EndBlock borParamsC_SprintDuration
    borParamsC_SpanDuration borParamsC_ProducerCount milestoneParamsC_MaxMilestonePropositionLength
    milestoneParamsC_FfMilestoneThreshold milestoneParamsC_FfMilestoneBlockInterval];
  rewrite ?Zsum_cons;
  repeat match goal with |- context [if negb (?v =? 0) then 1 + sov (u64 ?v) else 0] =>
    pose proof (number_fits v); generalize dependent (if negb (v =? 0) then 1 + sov (u64 v) else 0); intros end;
  unfold Zsum, MaxInt64; cbn; lia.

(** A goal [typed m] for a record [m]: one goal for each component with a condition. *)
Ltac typed_fields := unfold typed, specs_typed; cbn [pl_specs validator_laws validatorSet_laws span_laws milestone_laws
    checkpoint_laws dividendAccount_laws borParams_laws milestoneParams_laws producerVotes_laws blockRange_laws
    milestoneCount_laws lastBlockTxs_laws eventRecord_laws checkpointParams_laws chainParams_laws cmParams_laws];
  repeat (lazymatch goal with |- Forall _ (_ :: _) => apply List.Forall_cons; [try done|] end); try apply List.Forall_nil.

Lemma typed_chainParams (c : ChainParams) : typed c.
Proof. typed_fields. Qed.
Lemma typed_validator v : validator_typed v -> typed v.
Proof. intros (? & ? & ? & ? & ? & ?). typed_fields. Qed.
Lemma typed_validators l : Forall validator_typed l -> Forall typed l.
Proof. intros H. eapply Forall_impl; [exact H|]. apply typed_validator. Qed.
Lemma typed_validatorSet vs : validatorSet_typed vs -> typed vs.
Proof.
  intros (H1 & H2 & H3). typed_fields; [exact (typed_validators _ H1)|].
  change (from_option typed True (Proposer vs)). destruct (Proposer vs); [by apply typed_validator|done].
Qed.
Lemma typed_span s : span_typed s -> typed s.
Proof. intros (H1 & H2 & H3 & H4 & H5). typed_fields; [exact (typed_validatorSet _ H4)|exact (typed_validators _ H5)]. Qed.
Lemma typed_milestone m : milestone_typed m -> typed m.
Proof. intros (? & ? & ? & ?). typed_fields. Qed.
Lemma typed_checkpoint c : checkpoint_typed c -> typed c.
Proof. intros (? & ? & ? & ?). typed_fields. Qed.

(** ** Properties *)

(** The message marshals, without an index out of range, into exactly the buffer of its size,
    and the bytes unmarshal to [m']; to itself. *)
Definition read_back_as {M} {PM : ProtoMessage M} (m m' : M) : Prop := exists bz,
  Marshal m = Ok bz /\ Z.of_nat (length bz) = Size m /\ Unmarshal bz pm_zero = Ok m'.
Definition read_back {M} {PM : ProtoMessage M} (m : M) : Prop := read_back_as m m.

(** What the modules store they read back: validators, validator sets with their proposer,
    spans with the sets they hold, milestones, checkpoints, dividend accounts, the votes for
    producers, planned downtimes, the transactions of a block and the parameters - every value
    of the Go type whose encoding has a length that fits an int; the records of clerk and the
    parameters of checkpoints, with times and durations that gogoproto can encode. *)
Definition stored_read_back {ST : StdCodec GoTime} {LT : StdLaws GoTime} {SD : StdCodec Z} {LD : StdLaws Z} : Prop :=
  (forall v : Validator, validator_typed v -> Size v <= MaxInt64 -> read_back v) /\
  (forall vs : ValidatorSet, validatorSet_typed vs -> Size vs <= MaxInt64 -> read_back vs) /\
  (forall s : Span, span_typed s -> Size s <= MaxInt64 -> read_back s) /\
  (forall m : MilestoneRecord, milestone_typed m -> Size m <= MaxInt64 -> read_back m) /\
  (forall c : Checkpoint, checkpoint_typed c -> Size c <= MaxInt64 -> read_back c) /\
  (forall a : DividendAccount, Size a <= MaxInt64 -> read_back a) /\
  (forall votes, Forall in_u64 votes -> Size {| Votes := votes |} <= MaxInt64 -> read_back {| Votes := votes |}) /\
  (forall r : BlockRange, in_u64 (StartBlock r) -> in_u64 (EndBlock r) -> read_back r) /\
  (forall txs, Size {| Txs := txs |} <= MaxInt64 -> read_back {| Txs := txs |}) /\
  (forall p : BorParams, in_u64 (SprintDuration p) -> in_u64 (SpanDuration p) -> in_u64 (ProducerCount p) -> read_back p) /\
  (forall p : MilestoneParams, in_u64 (MaxMilestonePropositionLength p) -> in_u64 (FfMilestoneThreshold p) ->
     in_u64 (FfMilestoneBlockInterval p) -> read_back p) /\
  (forall r : EventRecord, in_u64 (er_Id r) -> in_u64 (er_LogIndex r) -> std_valid (er_RecordTime r) ->
     Size r <= MaxInt64 -> read_back r) /\
  (forall p : CheckpointParams, std_valid (CheckpointBufferTime p) -> in_u64 (AvgCheckpointLength p) ->
     in_u64 (MaxCheckpointLength p) -> in_u64 (ChildChainBlockInterval p) -> Size p <= MaxInt64 -> read_back p) /\
  (forall p : CMParams, in_u64 (cm_MainChainTxConfirmations p) -> in_u64 (cm_BorChainTxConfirmations p) ->
     Size p <= MaxInt64 -> read_back p).

Lemma stored_messages_are_read_back {ST : StdCodec GoTime} {LT : StdLaws GoTime} {SD : StdCodec Z} {LD : StdLaws Z} :
  stored_read_back.
Proof.
  unfold stored_read_back. split_and!; intros.
  - by apply round_trip; [apply typed_validator|].
  - by apply round_trip; [apply typed_validatorSet|].
  - by apply round_trip; [apply typed_span|].
  - by apply round_trip; [apply typed_milestone|].
  - by apply round_trip; [apply typed_checkpoint|].
  - apply round_trip; [typed_fields|done].
  - apply round_trip; [typed_fields|done].
  - apply round_trip; [typed_fields|]. numbers_fit.
  - apply round_trip; [typed_fields|done].
  - apply round_trip; [typed_fields|]. numbers_fit.
  - apply round_trip; [typed_fields|]. numbers_fit.
  - by apply round_trip; [typed_fields|].
  - by apply round_trip; [typed_fields|].
  - apply round_trip; [typed_fields; apply typed_chainParams|done].
Qed.

(** ** Witness *)

Module StoredDemo.

(** Times and durations as messages of seconds and nanoseconds. *)
Record Seconds := { Secs : Z; Nanos : Z }.
Definition secondsC_Secs : Component Seconds Z := {| get := Secs; set x '(Build_Seconds _ b) := Build_Seconds x b |}.
Definition secondsC_Nanos : Component Seconds Z := {| get := Nanos; set x '(Build_Seconds a _) := Build_Seconds a x |}.
#[export] Instance seconds_message : ProtoMessage Seconds := {|
  pm_format := [int64_format 1 secondsC_Secs; int64_format 2 secondsC_Nanos]; pm_zero := Build_Seconds 0 0 |}.
#[export] Instance seconds_laws : ProtoLaws Seconds.
Proof. message_laws [int64_spec 1 secondsC_Secs; int64_spec 2 secondsC_Nanos]. Defined.

Section via.
Context {A : Type} (to : A -> Seconds) (from : Seconds -> A).
Definition via_codec : StdCodec A := {|
  SizeOfStd a := Size (to a);
  StdMarshalTo a dAtA :=
    let size := Z.to_nat (Size (to a)) in
    '(n, d) ← format_MarshalToSizedBuffer pm_format (to a) (take size dAtA); Ok (n, d ++ drop size dAtA);
  StdUnmarshal d _ := p ← Unmarshal d pm_zero; Ok (from p);
  std_zero := from pm_zero |}.
Lemma via_laws : StdLaws A (SC := via_codec).
Proof.
  refine {| std_valid a := (typed (to a) /\ Size (to a) <= MaxInt64) /\ from (to a) = a; std_bytes a := encoded (to a) |}.
  - intros a [[T H] _]. symmetry. by apply encoded_len.
  - intros a dAtA [[T H] _] Hl. cbn [StdMarshalTo via_codec]. rewrite <- (encoded_len _ T H). unfold len in *. rewrite Nat2Z.id.
    unfold format_MarshalToSizedBuffer, marshal_sized.
    pose proof (encoded_writes _ T H [] (take (length (encoded (to a))) dAtA) []) as W.
    rewrite length_take in W. specialize (W ltac:(lia)). cbn [app] in W. rewrite !app_nil_r in W. rewrite W.
    cbn [mbind outcome_bind]. change (len (@nil Byte.byte)) with 0. do 3 f_equal. unfold len. rewrite length_take. lia.
  - intros a [[T H] E]. cbn [StdUnmarshal via_codec std_zero]. rewrite (Unmarshal_encoded _ T H). cbn. by rewrite E.
Defined.
End via.
Definition time_seconds (t : GoTime) : Seconds := {| Secs := t.1 - unixToInternal; Nanos := t.2 |}.
Definition seconds_time (s : Seconds) : GoTime := (Secs s + unixToInternal, Nanos s).
Definition duration_seconds (d : Z) : Seconds := {| Secs := Z.quot d 1000000000; Nanos := Z.rem d 1000000000 |}.
Definition seconds_duration (s : Seconds) : Z := Secs s * 1000000000 + Nanos s.
#[export] Instance times : StdCodec GoTime := via_codec time_seconds seconds_time.
#[export] Instance durations : StdCodec Z := via_codec duration_seconds seconds_duration.
#[export] Instance time_laws : StdLaws GoTime := via_laws time_seconds seconds_time.
#[export] Instance duration_laws : StdLaws Z := via_laws duration_seconds seconds_duration.

Definition sample_record : EventRecord :=
  {| er_Id := 7; er_Contract := "0xbb"; er_Data := [Byte.x01; Byte.x02]; er_TxHash := "0x03"; er_LogIndex := 0;
     er_BorChainId := "137"; er_RecordTime := time_Unix 1700000000 5 |}.
Example sample_record_round_trips : (bz ← Marshal sample_record; Unmarshal bz pm_zero) = Ok sample_record.
Proof. vm_compute. reflexivity. Qed.

Lemma stored_messages_are_read_back_witness : read_back sample_span.
Proof.
  refine (proj1 (proj2 (proj2 stored_messages_are_read_back)) sample_span _ _).
  - exact (bool_decide_unpack (span_typed sample_span) ltac:(vm_compute; exact I)).
  - vm_compute. discriminate.
Defined.
End StoredDemo.
