(* ===== verification/Messages.v ===== *)
(** * The encoding of the messages

    The formats of the messages that transactions carry, as the generated codecs have them
    ([x/bor/types/tx.pb.go], [x/checkpoint/types/tx.pb.go], [x/clerk/types/tx.pb.go],
    [x/milestone/types/tx.pb.go], [x/stake/types/tx.pb.go], [x/topup/types/tx.pb.go]), and of the
    signatures of a checkpoint ([x/checkpoint/types/checkpoint_signatures.pb.go]).  The
    encoding of an amount is that of the SDK's integers, a parameter. *)
From S2P Require Import Prelude Helpers External VoteTypes ValidatorSet StakeHandlers Milestone Numerals Topup Clerk Checkpoint BorTypes BorKeeper BorHandlers Wire ExtendVote VoteCodec Formats Stored.
#[local] Open Scope Z_scope.

(** ** Two more kinds of fields *)

(** The integers of the SDK ([math.Int]). *)
Definition MathInt : Type := Z.
#[global] Typeclasses Opaque MathInt.

Section kinds.
Context {M : Type} (num : Z).

(** A value with methods of its own ([customtype]): its size is moved over, then it is
    written into [dAtA[i:]]. *)
Definition custom_format {A} {SC : StdCodec A} (c : Component M A) : FieldFormat M := {|
  ff_num := num;
  ff_size m := sized (SizeOfStd (get c m));
  ff_write m w :=
    let '(i, d) := w in
    let size := SizeOfStd (get c m) in
    let start := i - size in
    panic_when (start <? 0) || (len d <? start) ;;
    '(_, written) ← StdMarshalTo (get c m) (drop (Z.to_nat start) d);
    w ← encodeVarint (u64 size) (start, take (Z.to_nat start) d ++ written);
    put_tag (tag_of num 2) w;
  ff_read := read_message (fun d m => StdUnmarshal d (get c m)) (set c) |}.

(** Bytes that may be nil: nil and empty bytes are both left out, and present bytes are
    never nil. *)
Definition nilable_format (c : Component M (option bytes)) : FieldFormat M :=
  bytes_format num {| get m := default [] (get c m); set x := set c (Some x) |}.
End kinds.

(** ** The messages of stake *)

Definition validatorJoinC_From : Component MsgValidatorJoin string :=
  {| get := vj_From; set x '(Build_MsgValidatorJoin _ b c d e f g h i) := Build_MsgValidatorJoin x b c d e f g h i |}.
Definition validatorJoinC_ValId : Component MsgValidatorJoin Z :=
  {| get := vj_ValId; set x '(Build_MsgValidatorJoin a _ c d e f g h i) := Build_MsgValidatorJoin a x c d e f g h i |}.
Definition validatorJoinC_ActivationEpoch : Component MsgValidatorJoin Z :=
  {| get := vj_ActivationEpoch; set x '(Build_MsgValidatorJoin a b _ d e f g h i) := Build_MsgValidatorJoin a b x d e f g h i |}.
Definition validatorJoinC_Amount : Component MsgValidatorJoin MathInt :=
  {| get := vj_Amount; set x '(Build_MsgValidatorJoin a b c _ e f g h i) := Build_MsgValidatorJoin a b c x e f g h i |}.
Definition validatorJoinC_SignerPubKey : Component MsgValidatorJoin (option bytes) :=
  {| get := vj_SignerPubKey; set x '(Build_MsgValidatorJoin a b c d _ f g h i) := Build_MsgValidatorJoin a b c d x f g h i |}.
Definition validatorJoinC_TxHash : Component MsgValidatorJoin bytes :=
  {| get := vj_TxHash; set x '(Build_MsgValidatorJoin a b c d e _ g h i) := Build_MsgValidatorJoin a b c d e x g h i |}.
Definition validatorJoinC_LogIndex : Component MsgValidatorJoin Z :=
  {| get := vj_LogIndex; set x '(Build_MsgValidatorJoin a b c d e f _ h i) := Build_MsgValidatorJoin a b c d e f x h i |}.
Definition validatorJoinC_BlockNumber : Component MsgValidatorJoin Z :=
  {| get := vj_BlockNumber; set x '(Build_MsgValidatorJoin a b c d e f g _ i) := Build_MsgValidatorJoin a b c d e f g x i |}.
Definition validatorJoinC_Nonce : Component MsgValidatorJoin Z :=
  {| get := vj_Nonce; set x '(Build_MsgValidatorJoin a b c d e f g h _) := Build_MsgValidatorJoin a b c d e f g h x |}.
#[export] Instance validatorJoin_message {SC : StdCodec MathInt} : ProtoMessage MsgValidatorJoin := {|
  pm_format :=
    [string_format 1 validatorJoinC_From;
     uint64_format 2 validatorJoinC_ValId;
     uint64_format 3 validatorJoinC_ActivationEpoch;
     custom_format 4 validatorJoinC_Amount;
     nilable_format 5 validatorJoinC_SignerPubKey;
     bytes_format 6 validatorJoinC_TxHash;
     uint64_format 7 validatorJoinC_LogIndex;
     uint64_format 8 validatorJoinC_BlockNumber;
     uint64_format 9 validatorJoinC_Nonce];
  pm_zero := Build_MsgValidatorJoin EmptyString 0 0 (std_zero : MathInt) None [] 0 0 0 |}.

Definition stakeUpdateC_From : Component MsgStakeUpdate string :=
  {| get := su_From; set x '(Build_MsgStakeUpdate _ b c d e f g) := Build_MsgStakeUpdate x b c d e f g |}.
Definition stakeUpdateC_ValId : Component MsgStakeUpdate Z :=
  {| get := su_ValId; set x '(Build_MsgStakeUpdate a _ c d e f g) := Build_MsgStakeUpdate a x c d e f g |}.
Definition stakeUpdateC_NewAmount : Component MsgStakeUpdate MathInt :=
  {| get := su_NewAmount; set x '(Build_MsgStakeUpdate a b _ d e f g) := Build_MsgStakeUpdate a b x d e f g |}.
Definition stakeUpdateC_TxHash : Component MsgStakeUpdate bytes :=
  {| get := su_TxHash; set x '(Build_MsgStakeUpdate a b c _ e f g) := Build_MsgStakeUpdate a b c x e f g |}.
Definition stakeUpdateC_LogIndex : Component MsgStakeUpdate Z :=
  {| get := su_LogIndex; set x '(Build_MsgStakeUpdate a b c d _ f g) := Build_MsgStakeUpdate a b c d x f g |}.
Definition stakeUpdateC_BlockNumber : Component MsgStakeUpdate Z :=
  {| get := su_BlockNumber; set x '(Build_MsgStakeUpdate a b c d e _ g) := Build_MsgStakeUpdate a b c d e x g |}.
Definition stakeUpdateC_Nonce : Component MsgStakeUpdate Z :=
  {| get := su_Nonce; set x '(Build_MsgStakeUpdate a b c d e f _) := Build_MsgStakeUpdate a b c d e f x |}.
#[export] Instance stakeUpdate_message {SC : StdCodec MathInt} : ProtoMessage MsgStakeUpdate := {|
  pm_format :=
    [string_format 1 stakeUpdateC_From;
     uint64_format 2 stakeUpdateC_ValId;
     custom_format 3 stakeUpdateC_NewAmount;
     bytes_format 4 stakeUpdateC_TxHash;
     uint64_format 5 stakeUpdateC_LogIndex;
     uint64_format 6 stakeUpdateC_BlockNumber;
     uint64_format 7 stakeUpdateC_Nonce];
  pm_zero := Build_MsgStakeUpdate EmptyString 0 (std_zero : MathInt) [] 0 0 0 |}.

Definition signerUpdateC_From : Component MsgSignerUpdate string :=
  {| get := sg_From; set x '(Build_MsgSignerUpdate _ b c d e f g) := Build_MsgSignerUpdate x b c d e f g |}.
Definition signerUpdateC_ValId : Component MsgSignerUpdate Z :=
  {| get := sg_ValId; set x '(Build_MsgSignerUpdate a _ c d e f g) := Build_MsgSignerUpdate a x c d e f g |}.
Definition signerUpdateC_NewSignerPubKey : Component MsgSignerUpdate (option bytes) :=
  {| get := sg_NewSignerPubKey; set x '(Build_MsgSignerUpdate a b _ d e f g) := Build_MsgSignerUpdate a b x d e f g |}.
Definition signerUpdateC_TxHash : Component MsgSignerUpdate bytes :=
  {| get := sg_TxHash; set x '(Build_MsgSignerUpdate a b c _ e f g) := Build_MsgSignerUpdate a b c x e f g |}.
Definition signerUpdateC_LogIndex : Component MsgSignerUpdate Z :=
  {| get := sg_LogIndex; set x '(Build_MsgSignerUpdate a b c d _ f g) := Build_MsgSignerUpdate a b c d x f g |}.
Definition signerUpdateC_BlockNumber : Component MsgSignerUpdate Z :=
  {| get := sg_BlockNumber; set x '(Build_MsgSignerUpdate a b c d e _ g) := Build_MsgSignerUpdate a b c d e x g |}.
Definition signerUpdateC_Nonce : Component MsgSignerUpdate Z :=
  {| get := sg_Nonce; set x '(Build_MsgSignerUpdate a b c d e f _) := Build_MsgSignerUpdate a b c d e f x |}.
#[export] Instance signerUpdate_message : ProtoMessage MsgSignerUpdate := {|
  pm_format :=
    [string_format 1 signerUpdateC_From;
     uint64_format 2 signerUpdateC_ValId;
     nilable_format 3 signerUpdateC_NewSignerPubKey;
     bytes_format 4 signerUpdateC_TxHash;
     uint64_format 5 signerUpdateC_LogIndex;
     uint64_format 6 signerUpdateC_BlockNumber;
     uint64_format 7 signerUpdateC_Nonce];
  pm_zero := Build_MsgSignerUpdate EmptyString 0 None [] 0 0 0 |}.

Definition validatorExitC_From : Component MsgValidatorExit string :=
  {| get := ve_From; set x '(Build_MsgValidatorExit _ b c d e f g) := Build_MsgValidatorExit x b c d e f g |}.
Definition validatorExitC_ValId : Component MsgValidatorExit Z :=
  {| get := ve_ValId; set x '(Build_MsgValidatorExit a _ c d e f g) := Build_MsgValidatorExit a x c d e f g |}.
Definition validatorExitC_DeactivationEpoch : Component MsgValidatorExit Z :=
  {| get := ve_DeactivationEpoch; set x '(Build_MsgValidatorExit a b _ d e f g) := Build_MsgValidatorExit a b x d e f g |}.
Definition validatorExitC_TxHash : Component MsgValidatorExit bytes :=
  {| get := ve_TxHash; set x '(Build_MsgValidatorExit a b c _ e f g) := Build_MsgValidatorExit a b c x e f g |}.
Definition validatorExitC_LogIndex : Component MsgValidatorExit Z :=
  {| get := ve_LogIndex; set x '(Build_MsgValidatorExit a b c d _ f g) := Build_MsgValidatorExit a b c d x f g |}.
Definition validatorExitC_BlockNumber : Component MsgValidatorExit Z :=
  {| get := ve_BlockNumber; set x '(Build_MsgValidatorExit a b c d e _ g) := Build_MsgValidatorExit a b c d e x g |}.
Definition validatorExitC_Nonce : Component MsgValidatorExit Z :=
  {| get := ve_Nonce; set x '(Build_MsgValidatorExit a b c d e f _) := Build_MsgValidatorExit a b c d e f x |}.
#[export] Instance validatorExit_message : ProtoMessage MsgValidatorExit := {|
  pm_format :=
    [string_format 1 validatorExitC_From;
     uint64_format 2 validatorExitC_ValId;
     uint64_format 3 validatorExitC_DeactivationEpoch;
     bytes_format 4 validatorExitC_TxHash;
     uint64_format 5 validatorExitC_LogIndex;
     uint64_format 6 validatorExitC_BlockNumber;
     uint64_format 7 validatorExitC_Nonce];
  pm_zero := Build_MsgValidatorExit EmptyString 0 0 [] 0 0 0 |}.

(** ** The messages of checkpoint *)

Definition msgCheckpointC_Proposer : Component MsgCheckpoint string :=
  {| get := mc_Proposer; set x '(Build_MsgCheckpoint _ b c d e f) := Build_MsgCheckpoint x b c d e f |}.
Definition msgCheckpointC_StartBlock : Component MsgCheckpoint Z :=
  {| get := mc_StartBlock; set x '(Build_MsgCheckpoint a _ c d e f) := Build_MsgCheckpoint a x c d e f |}.
Definition msgCheckpointC_EndBlock : Component MsgCheckpoint Z :=
  {| get := mc_EndBlock; set x '(Build_MsgCheckpoint a b _ d e f) := Build_MsgCheckpoint a b x d e f |}.
Definition msgCheckpointC_RootHash : Component MsgCheckpoint bytes :=
  {| get := mc_RootHash; set x '(Build_MsgCheckpoint a b c _ e f) := Build_MsgCheckpoint a b c x e f |}.
Definition msgCheckpointC_AccountRootHash : Component MsgCheckpoint bytes :=
  {| get := mc_AccountRootHash; set x '(Build_MsgCheckpoint a b c d _ f) := Build_MsgCheckpoint a b c d x f |}.
Definition msgCheckpointC_BorChainId : Component MsgCheckpoint string :=
  {| get := mc_BorChainId; set x '(Build_MsgCheckpoint a b c d e _) := Build_MsgCheckpoint a b c d e x |}.
#[export] Instance msgCheckpoint_message : ProtoMessage MsgCheckpoint := {|
  pm_format :=
    [string_format 1 msgCheckpointC_Proposer;
     uint64_format 2 msgCheckpointC_StartBlock;
     uint64_format 3 msgCheckpointC_EndBlock;
     bytes_format 4 msgCheckpointC_RootHash;
     bytes_format 5 msgCheckpointC_AccountRootHash;
     string_format 6 msgCheckpointC_BorChainId];
  pm_zero := Build_MsgCheckpoint EmptyString 0 0 [] [] EmptyString |}.

Definition msgCpAckC_From : Component MsgCpAck string :=
  {| get := ma_From; set x '(Build_MsgCpAck _ b c d e f) := Build_MsgCpAck x b c d e f |}.
Definition msgCpAckC_Number : Component MsgCpAck Z :=
  {| get := ma_Number; set x '(Build_MsgCpAck a _ c d e f) := Build_MsgCpAck a x c d e f |}.
Definition msgCpAckC_Proposer : Component MsgCpAck string :=
  {| get := ma_Proposer; set x '(Build_MsgCpAck a b _ d e f) := Build_MsgCpAck a b x d e f |}.
Definition msgCpAckC_StartBlock : Component MsgCpAck Z :=
  {| get := ma_StartBlock; set x '(Build_MsgCpAck a b c _ e f) := Build_MsgCpAck a b c x e f |}.
Definition msgCpAckC_EndBlock : Component MsgCpAck Z :=
  {| get := ma_EndBlock; set x '(Build_MsgCpAck a b c d _ f) := Build_MsgCpAck a b c d x f |}.
Definition msgCpAckC_RootHash : Component MsgCpAck bytes :=
  {| get := ma_RootHash; set x '(Build_MsgCpAck a b c d e _) := Build_MsgCpAck a b c d e x |}.
#[export] Instance msgCpAck_message : ProtoMessage MsgCpAck := {|
  pm_format :=
    [string_format 1 msgCpAckC_From;
     uint64_format 2 msgCpAckC_Number;
     string_format 3 msgCpAckC_Proposer;
     uint64_format 4 msgCpAckC_StartBlock;
     uint64_format 5 msgCpAckC_EndBlock;
     bytes_format 6 msgCpAckC_RootHash];
  pm_zero := Build_MsgCpAck EmptyString 0 EmptyString 0 0 [] |}.

Definition msgCpNoAckC_From : Component MsgCpNoAck string := {| get := mn_From; set x _ := Build_MsgCpNoAck x |}.
#[export] Instance msgCpNoAck_message : ProtoMessage MsgCpNoAck := {|
  pm_format :=
    [string_format 1 msgCpNoAckC_From];
  pm_zero := Build_MsgCpNoAck EmptyString |}.

(** The signatures of a checkpoint: the state holds the list. *)
Definition checkpointSignatureC_ValidatorAddress : Component CheckpointSignature bytes :=
  {| get := sig_ValidatorAddress; set x '(Build_CheckpointSignature _ b) := Build_CheckpointSignature x b |}.
Definition checkpointSignatureC_Signature : Component CheckpointSignature bytes :=
  {| get := sig_Signature; set x '(Build_CheckpointSignature a _) := Build_CheckpointSignature a x |}.
#[export] Instance checkpointSignature_message : ProtoMessage CheckpointSignature := {|
  pm_format :=
    [bytes_format 1 checkpointSignatureC_ValidatorAddress;
     bytes_format 2 checkpointSignatureC_Signature];
  pm_zero := Build_CheckpointSignature [] [] |}.

Record CheckpointSignatures := { css_Signatures : list CheckpointSignature }.
Definition checkpointSignaturesC_Signatures : Component CheckpointSignatures (list CheckpointSignature) := {| get := css_Signatures; set x _ := Build_CheckpointSignatures x |}.
#[export] Instance checkpointSignatures_message : ProtoMessage CheckpointSignatures := {|
  pm_format :=
    [repeated_format 1 checkpointSignaturesC_Signatures];
  pm_zero := Build_CheckpointSignatures [] |}.

(** ** The message of clerk *)

Definition msgEventRecordC_From : Component MsgEventRecord string :=
  {| get := me_From; set x '(Build_MsgEventRecord _ b c d e f g h) := Build_MsgEventRecord x b c d e f g h |}.
Definition msgEventRecordC_TxHash : Component MsgEventRecord string :=
  {| get := me_TxHash; set x '(Build_MsgEventRecord a _ c d e f g h) := Build_MsgEventRecord a x c d e f g h |}.
Definition msgEventRecordC_LogIndex : Component MsgEventRecord Z :=
  {| get := me_LogIndex; set x '(Build_MsgEventRecord a b _ d e f g h) := Build_MsgEventRecord a b x d e f g h |}.
Definition msgEventRecordC_BlockNumber : Component MsgEventRecord Z :=
  {| get := me_BlockNumber; set x '(Build_MsgEventRecord a b c _ e f g h) := Build_MsgEventRecord a b c x e f g h |}.
Definition msgEventRecordC_ContractAddress : Component MsgEventRecord string :=
  {| get := me_ContractAddress; set x '(Build_MsgEventRecord a b c d _ f g h) := Build_MsgEventRecord a b c d x f g h |}.
Definition msgEventRecordC_Data : Component MsgEventRecord bytes :=
  {| get := me_Data; set x '(Build_MsgEventRecord a b c d e _ g h) := Build_MsgEventRecord a b c d e x g h |}.
Definition msgEventRecordC_Id : Component MsgEventRecord Z :=
  {| get := me_Id; set x '(Build_MsgEventRecord a b c d e f _ h) := Build_MsgEventRecord a b c d e f x h |}.
Definition msgEventRecordC_ChainId : Component MsgEventRecord string :=
  {| get := me_ChainId; set x '(Build_MsgEventRecord a b c d e f g _) := Build_MsgEventRecord a b c d e f g x |}.
#[export] Instance msgEventRecord_message : ProtoMessage MsgEventRecord := {|
  pm_format :=
    [string_format 1 msgEventRecordC_From;
     string_format 2 msgEventRecordC_TxHash;
     uint64_format 3 msgEventRecordC_LogIndex;
     uint64_format 4 msgEventRecordC_BlockNumber;
     string_format 5 msgEventRecordC_ContractAddress;
     bytes_format 6 msgEventRecordC_Data;
     uint64_format 7 msgEventRecordC_Id;
     string_format 8 msgEventRecordC_ChainId];
  pm_zero := Build_MsgEventRecord EmptyString EmptyString 0 0 EmptyString [] 0 EmptyString |}.

(** ** The messages of topup *)

Definition msgTopupTxC_Proposer : Component MsgTopupTx string :=
  {| get := tt_Proposer; set x '(Build_MsgTopupTx _ b c d e f) := Build_MsgTopupTx x b c d e f |}.
Definition msgTopupTxC_User : Component MsgTopupTx string :=
  {| get := tt_User; set x '(Build_MsgTopupTx a _ c d e f) := Build_MsgTopupTx a x c d e f |}.
Definition msgTopupTxC_Fee : Component MsgTopupTx MathInt :=
  {| get := tt_Fee; set x '(Build_MsgTopupTx a b _ d e f) := Build_MsgTopupTx a b x d e f |}.
Definition msgTopupTxC_TxHash : Component MsgTopupTx bytes :=
  {| get := tt_TxHash; set x '(Build_MsgTopupTx a b c _ e f) := Build_MsgTopupTx a b c x e f |}.
Definition msgTopupTxC_LogIndex : Component MsgTopupTx Z :=
  {| get := tt_LogIndex; set x '(Build_MsgTopupTx a b c d _ f) := Build_MsgTopupTx a b c d x f |}.
Definition msgTopupTxC_BlockNumber : Component MsgTopupTx Z :=
  {| get := tt_BlockNumber; set x '(Build_MsgTopupTx a b c d e _) := Build_MsgTopupTx a b c d e x |}.
#[export] Instance msgTopupTx_message {SC : StdCodec MathInt} : ProtoMessage MsgTopupTx := {|
  pm_format :=
    [string_format 1 msgTopupTxC_Proposer;
     string_format 2 msgTopupTxC_User;
     custom_format 3 msgTopupTxC_Fee;
     bytes_format 4 msgTopupTxC_TxHash;
     uint64_format 5 msgTopupTxC_LogIndex;
     uint64_format 6 msgTopupTxC_BlockNumber];
  pm_zero := Build_MsgTopupTx EmptyString EmptyString (std_zero : MathInt) [] 0 0 |}.

Definition msgWithdrawFeeTxC_Proposer : Component MsgWithdrawFeeTx string :=
  {| get := wf_Proposer; set x '(Build_MsgWithdrawFeeTx _ b) := Build_MsgWithdrawFeeTx x b |}.
Definition msgWithdrawFeeTxC_Amount : Component MsgWithdrawFeeTx MathInt :=
  {| get := wf_Amount; set x '(Build_MsgWithdrawFeeTx a _) := Build_MsgWithdrawFeeTx a x |}.
#[export] Instance msgWithdrawFeeTx_message {SC : StdCodec MathInt} : ProtoMessage MsgWithdrawFeeTx := {|
  pm_format :=
    [string_format 1 msgWithdrawFeeTxC_Proposer;
     custom_format 2 msgWithdrawFeeTxC_Amount];
  pm_zero := Build_MsgWithdrawFeeTx EmptyString (std_zero : MathInt) |}.

(** ** The messages of bor *)

Definition msgProposeSpanC_SpanId : Component MsgProposeSpan Z :=
  {| get := ps_SpanId; set x '(Build_MsgProposeSpan _ b c d e f g) := Build_MsgProposeSpan x b c d e f g |}.
Definition msgProposeSpanC_Proposer : Component MsgProposeSpan string :=
  {| get := ps_Proposer; set x '(Build_MsgProposeSpan a _ c d e f g) := Build_MsgProposeSpan a x c d e f g |}.
Definition msgProposeSpanC_StartBlock : Component MsgProposeSpan Z :=
  {| get := ps_StartBlock; set x '(Build_MsgProposeSpan a b _ d e f g) := Build_MsgProposeSpan a b x d e f g |}.
Definition msgProposeSpanC_EndBlock : Component MsgProposeSpan Z :=
  {| get := ps_EndBlock; set x '(Build_MsgProposeSpan a b c _ e f g) := Build_MsgProposeSpan a b c x e f g |}.
Definition msgProposeSpanC_ChainId : Component MsgProposeSpan string :=
  {| get := ps_ChainId; set x '(Build_MsgProposeSpan a b c d _ f g) := Build_MsgProposeSpan a b c d x f g |}.
Definition msgProposeSpanC_Seed : Component MsgProposeSpan bytes :=
  {| get := ps_Seed; set x '(Build_MsgProposeSpan a b c d e _ g) := Build_MsgProposeSpan a b c d e x g |}.
Definition msgProposeSpanC_SeedAuthor : Component MsgProposeSpan string :=
  {| get := ps_SeedAuthor; set x '(Build_MsgProposeSpan a b c d e f _) := Build_MsgProposeSpan a b c d e f x |}.
#[export] Instance msgProposeSpan_message : ProtoMessage MsgProposeSpan := {|
  pm_format :=
    [uint64_format 1 msgProposeSpanC_SpanId;
     string_format 2 msgProposeSpanC_Proposer;
     uint64_format 3 msgProposeSpanC_StartBlock;
     uint64_format 4 msgProposeSpanC_EndBlock;
     string_format 5 msgProposeSpanC_ChainId;
     bytes_format 6 msgProposeSpanC_Seed;
     string_format 7 msgProposeSpanC_SeedAuthor];
  pm_zero := Build_MsgProposeSpan 0 EmptyString 0 0 EmptyString [] EmptyString |}.

Definition msgBackfillSpansC_Proposer : Component MsgBackfillSpans string :=
  {| get := bf_Proposer; set x '(Build_MsgBackfillSpans _ b c d) := Build_MsgBackfillSpans x b c d |}.
Definition msgBackfillSpansC_ChainId : Component MsgBackfillSpans string :=
  {| get := bf_ChainId; set x '(Build_MsgBackfillSpans a _ c d) := Build_MsgBackfillSpans a x c d |}.
Definition msgBackfillSpansC_LatestSpanId : Component MsgBackfillSpans Z :=
  {| get := bf_LatestSpanId; set x '(Build_MsgBackfillSpans a b _ d) := Build_MsgBackfillSpans a b x d |}.
Definition msgBackfillSpansC_LatestBorSpanId : Component MsgBackfillSpans Z :=
  {| get := bf_LatestBorSpanId; set x '(Build_MsgBackfillSpans a b c _) := Build_MsgBackfillSpans a b c x |}.
#[export] Instance msgBackfillSpans_message : ProtoMessage MsgBackfillSpans := {|
  pm_format :=
    [string_format 1 msgBackfillSpansC_Proposer;
     string_format 2 msgBackfillSpansC_ChainId;
     uint64_format 3 msgBackfillSpansC_LatestSpanId;
     uint64_format 4 msgBackfillSpansC_LatestBorSpanId];
  pm_zero := Build_MsgBackfillSpans EmptyString EmptyString 0 0 |}.

Definition msgVoteProducersC_Voter : Component MsgVoteProducers string :=
  {| get := vp_Voter; set x '(Build_MsgVoteProducers _ b c) := Build_MsgVoteProducers x b c |}.
Definition msgVoteProducersC_VoterId : Component MsgVoteProducers Z :=
  {| get := vp_VoterId; set x '(Build_MsgVoteProducers a _ c) := Build_MsgVoteProducers a x c |}.
(** A message of its own, around the list. *)
Definition msgVoteProducersC_Votes : Component MsgVoteProducers ProducerVotesMessage :=
  {| get m := {| Votes := vp_Votes m |}; set x '(Build_MsgVoteProducers a b _) := Build_MsgVoteProducers a b (Votes x) |}.
#[export] Instance msgVoteProducers_message : ProtoMessage MsgVoteProducers := {|
  pm_format :=
    [string_format 1 msgVoteProducersC_Voter;
     uint64_format 2 msgVoteProducersC_VoterId;
     message_format 3 msgVoteProducersC_Votes];
  pm_zero := Build_MsgVoteProducers EmptyString 0 [] |}.

Definition msgSetProducerDowntimeC_Producer : Component MsgSetProducerDowntime string :=
  {| get := pd_Producer; set x '(Build_MsgSetProducerDowntime _ b c d) := Build_MsgSetProducerDowntime x b c d |}.
Definition msgSetProducerDowntimeC_DowntimeRange : Component MsgSetProducerDowntime BlockRange :=
  {| get m := {| StartBlock := pd_StartBlock m; EndBlock := pd_EndBlock m |};
     set x '(Build_MsgSetProducerDowntime a _ _ d) := Build_MsgSetProducerDowntime a (StartBlock x) (EndBlock x) d |}.
Definition msgSetProducerDowntimeC_TargetProducerId : Component MsgSetProducerDowntime Z :=
  {| get := pd_TargetProducerId; set x '(Build_MsgSetProducerDowntime a b c _) := Build_MsgSetProducerDowntime a b c x |}.
#[export] Instance msgSetProducerDowntime_message : ProtoMessage MsgSetProducerDowntime := {|
  pm_format :=
    [string_format 1 msgSetProducerDowntimeC_Producer;
     message_format 2 msgSetProducerDowntimeC_DowntimeRange;
     uint64_format 3 msgSetProducerDowntimeC_TargetProducerId];
  pm_zero := Build_MsgSetProducerDowntime EmptyString 0 0 0 |}.

(** ** The changes of parameters *)

Record MsgUpdateParams (P : Type) := { up_Authority : string; up_Params : P }.
Arguments up_Authority {P}. Arguments up_Params {P}. Arguments Build_MsgUpdateParams {P}.
Definition msgUpdateParamsC_Authority {P} : Component (MsgUpdateParams P) string :=
  {| get := up_Authority; set x '(Build_MsgUpdateParams _ b) := Build_MsgUpdateParams x b |}.
Definition msgUpdateParamsC_Params {P} : Component (MsgUpdateParams P) P :=
  {| get := up_Params; set x '(Build_MsgUpdateParams a _) := Build_MsgUpdateParams a x |}.
(** The modules have the same message, each around parameters of its own. *)
#[export] Instance msgUpdateParams_message {P} {PM : ProtoMessage P} : ProtoMessage (MsgUpdateParams P) := {|
  pm_format := [string_format 1 msgUpdateParamsC_Authority; message_format 2 msgUpdateParamsC_Params];
  pm_zero := Build_MsgUpdateParams EmptyString pm_zero |}.
