(* ===== verification/MessagesCorrect.v ===== *)
(** * The encoding of the messages: correctness

    The laws of the two further kinds of fields and of the message types, and with them:
    the messages of transactions, as what the modules store, are read back as written. *)
From S2P Require Import Prelude Helpers External ValidatorSet VoteTypes StakeHandlers Milestone Numerals Dividend Topup Clerk Checkpoint BorTypes BorKeeper BorHandlers ExtendVote Wire VoteCodec VoteCodecCorrect Formats Stored StoredCorrect Messages.
#[local] Open Scope Z_scope.

(** ** The kinds of fields *)

Section kinds.
Context {M : Type} (num : Z) (Hnum : 0 < num < 16).

(** On a buffer that holds the position, a value with methods is written as one of Go's
    library: the number of bytes it answers is its size. *)
Lemma custom_as_std {A} {SC : StdCodec A} {SL : StdLaws A} (c : Component M A) m i d : std_valid (get c m) -> i <= len d ->
  ff_write (custom_format num c) m (i, d) = ff_write (std_format num c) m (i, d).
Proof.
  intros V Hi. cbn [ff_write custom_format std_format]. rewrite (std_size _ V).
  destruct (Z.ltb_spec (i - len (std_bytes (get c m))) 0) as [|H0]; [done|].
  destruct (Z.ltb_spec (len d) (i - len (std_bytes (get c m)))) as [|H1]; [done|]. cbn [orb panic_if].
  rewrite (std_marshal _ _ V); [done|]. unfold len in *. rewrite length_drop. lia.
Qed.
Definition custom_spec {A} {SC : StdCodec A} {SL : StdLaws A} (c : Component M A) : FieldSpec M :=
  comp_spec (custom_format num c) c std_zero std_valid (fun a => field_bytes (tag_of num 2) (std_bytes a)).
Lemma custom_ok {A} {SC : StdCodec A} {SL : StdLaws A} (c : Component M A) : field_ok (custom_spec c).
Proof.
  destruct (std_ok num Hnum c) as [H1 H2 H3 H4]. split; [exact H1|exact H2| |exact H4].
  intros m V H junk hole tail Hh. cbn [fs_format custom_spec comp_spec]. rewrite custom_as_std; [by apply (H3 m V H)|exact V|].
  rewrite (len_app (junk ++ hole)). pose proof (len_nonneg tail). lia.
Qed.

(** Bytes that may be nil; empty bytes that are not nil come back as nil. *)
Definition nilable_spec (c : Component M (option bytes)) : FieldSpec M :=
  comp_spec (nilable_format num c) c None (fun x => x <> Some [])
    (fun x => opt_bytes (0 <? len (default [] x)) (field_bytes (tag_of num 2) (default [] x))).
Lemma nilable_ok c : comp_ok c -> field_ok (nilable_spec c).
Proof.
  intros C. destruct (tag_facts num 2 Hnum) as (T1 & T2 & T3); [by right|]. split; cbn.
  - intros m _. pose proof (len_nonneg (default [] (get c m))). pose proof (opt_sized_above _ H). lia.
  - intros m _ H. pose proof (opt_sized_above _ (len_nonneg (default [] (get c m)))). apply len_opt_bytes. intros _. apply len_field_sized. lia.
  - intros m _ H. pose proof (opt_sized_above _ (len_nonneg (default [] (get c m)))). apply writes_when. intros _. apply writes_bytes_field, bounded_u64. lia.
  - intros field m m0 V _ F E. apply decodes_opt.
    + intros H. destruct (get c m) as [x|]; [|done]. apply (decodes_bytes field _ (fun x => set c (Some x))); rewrite ?T2; try done; lia.
    + intros H%no_bytes. destruct (get c m) as [x|] eqn:Ex; [cbn in H; by subst x|]. rewrite <- E. by apply co_set_get.
Qed.
End kinds.

(** ** The laws of the messages *)

Ltac field_law ::=
  lazymatch goal with
  | |- field_ok (uint64_spec _ _) => apply uint64_ok; [lia|component_law]
  | |- field_ok (string_spec _ _) => apply string_ok; [lia|component_law]
  | |- field_ok (bytes_spec _ _) => apply bytes_ok; [lia|component_law]
  | |- field_ok (message_spec _ _) => apply message_ok; lia
  | |- field_ok (repeated_spec _ _) => apply repeated_ok; [lia|component_law]
  | |- field_ok (custom_spec _ _) => apply custom_ok; lia
  | |- field_ok (nilable_spec _ _) => apply nilable_ok; [lia|component_law]
  end.

#[export] Instance validatorJoin_laws {SC : StdCodec MathInt} {SL : StdLaws MathInt} : ProtoLaws MsgValidatorJoin.
Proof.
  message_laws [string_spec 1 validatorJoinC_From; uint64_spec 2 validatorJoinC_ValId; uint64_spec 3 validatorJoinC_ActivationEpoch; custom_spec 4 validatorJoinC_Amount; nilable_spec 5 validatorJoinC_SignerPubKey; bytes_spec 6 validatorJoinC_TxHash; uint64_spec 7 validatorJoinC_LogIndex; uint64_spec 8 validatorJoinC_BlockNumber; uint64_spec 9 validatorJoinC_Nonce].
Defined.

#[export] Instance stakeUpdate_laws {SC : StdCodec MathInt} {SL : StdLaws MathInt} : ProtoLaws MsgStakeUpdate.
Proof.
  message_laws [string_spec 1 stakeUpdateC_From; uint64_spec 2 stakeUpdateC_ValId; custom_spec 3 stakeUpdateC_NewAmount; bytes_spec 4 stakeUpdateC_TxHash; uint64_spec 5 stakeUpdateC_LogIndex; uint64_spec 6 stakeUpdateC_BlockNumber; uint64_spec 7 stakeUpdateC_Nonce].
Defined.

#[export] Instance signerUpdate_laws : ProtoLaws MsgSignerUpdate.
Proof.
  message_laws [string_spec 1 signerUpdateC_From; uint64_spec 2 signerUpdateC_ValId; nilable_spec 3 signerUpdateC_NewSignerPubKey; bytes_spec 4 signerUpdateC_TxHash; uint64_spec 5 signerUpdateC_LogIndex; uint64_spec 6 signerUpdateC_BlockNumber; uint64_spec 7 signerUpdateC_Nonce].
Defined.

#[export] Instance validatorExit_laws : ProtoLaws MsgValidatorExit.
Proof.
  message_laws [string_spec 1 validatorExitC_From; uint64_spec 2 validatorExitC_ValId; uint64_spec 3 validatorExitC_DeactivationEpoch; bytes_spec 4 validatorExitC_TxHash; uint64_spec 5 validatorExitC_LogIndex; uint64_spec 6 validatorExitC_BlockNumber; uint64_spec 7 validatorExitC_Nonce].
Defined.

#[export] Instance msgCheckpoint_laws : ProtoLaws MsgCheckpoint.
Proof.
  message_laws [string_spec 1 msgCheckpointC_Proposer; uint64_spec 2 msgCheckpointC_StartBlock; uint64_spec 3 msgCheckpointC_EndBlock; bytes_spec 4 msgCheckpointC_RootHash; bytes_spec 5 msgCheckpointC_AccountRootHash; string_spec 6 msgCheckpointC_BorChainId].
Defined.

#[export] Instance msgCpAck_laws : ProtoLaws MsgCpAck.
Proof.
  message_laws [string_spec 1 msgCpAckC_From; uint64_spec 2 msgCpAckC_Number; string_spec 3 msgCpAckC_Proposer; uint64_spec 4 msgCpAckC_StartBlock; uint64_spec 5 msgCpAckC_EndBlock; bytes_spec 6 msgCpAckC_RootHash].
Defined.

#[export] Instance msgCpNoAck_laws : ProtoLaws MsgCpNoAck.
Proof.
  message_laws [string_spec 1 msgCpNoAckC_From].
Defined.

#[export] Instance checkpointSignature_laws : ProtoLaws CheckpointSignature.
Proof.
  message_laws [bytes_spec 1 checkpointSignatureC_ValidatorAddress; bytes_spec 2 checkpointSignatureC_Signature].
Defined.

#[export] Instance checkpointSignatures_laws : ProtoLaws CheckpointSignatures.
Proof.
  message_laws [repeated_spec 1 checkpointSignaturesC_Signatures].
Defined.

#[export] Instance msgEventRecord_laws : ProtoLaws MsgEventRecord.
Proof.
  message_laws [string_spec 1 msgEventRecordC_From; string_spec 2 msgEventRecordC_TxHash; uint64_spec 3 msgEventRecordC_LogIndex; uint64_spec 4 msgEventRecordC_BlockNumber; string_spec 5 msgEventRecordC_ContractAddress; bytes_spec 6 msgEventRecordC_Data; uint64_spec 7 msgEventRecordC_Id; string_spec 8 msgEventRecordC_ChainId].
Defined.

#[export] Instance msgTopupTx_laws {SC : StdCodec MathInt} {SL : StdLaws MathInt} : ProtoLaws MsgTopupTx.
Proof.
  message_laws [string_spec 1 msgTopupTxC_Proposer; string_spec 2 msgTopupTxC_User; custom_spec 3 msgTopupTxC_Fee; bytes_spec 4 msgTopupTxC_TxHash; uint64_spec 5 msgTopupTxC_LogIndex; uint64_spec 6 msgTopupTxC_BlockNumber].
Defined.

#[export] Instance msgWithdrawFeeTx_laws {SC : StdCodec MathInt} {SL : StdLaws MathInt} : ProtoLaws MsgWithdrawFeeTx.
Proof.
  message_laws [string_spec 1 msgWithdrawFeeTxC_Proposer; custom_spec 2 msgWithdrawFeeTxC_Amount].
Defined.

#[export] Instance msgProposeSpan_laws : ProtoLaws MsgProposeSpan.
Proof.
  message_laws [uint64_spec 1 msgProposeSpanC_SpanId; string_spec 2 msgProposeSpanC_Proposer; uint64_spec 3 msgProposeSpanC_StartBlock; uint64_spec 4 msgProposeSpanC_EndBlock; string_spec 5 msgProposeSpanC_ChainId; bytes_spec 6 msgProposeSpanC_Seed; string_spec 7 msgProposeSpanC_SeedAuthor].
Defined.

#[export] Instance msgBackfillSpans_laws : ProtoLaws MsgBackfillSpans.
Proof.
  message_laws [string_spec 1 msgBackfillSpansC_Proposer; string_spec 2 msgBackfillSpansC_ChainId; uint64_spec 3 msgBackfillSpansC_LatestSpanId; uint64_spec 4 msgBackfillSpansC_LatestBorSpanId].
Defined.

#[export] Instance msgVoteProducers_laws : ProtoLaws MsgVoteProducers.
Proof.
  message_laws [string_spec 1 msgVoteProducersC_Voter; uint64_spec 2 msgVoteProducersC_VoterId; message_spec 3 msgVoteProducersC_Votes].
Defined.

#[export] Instance msgSetProducerDowntime_laws : ProtoLaws MsgSetProducerDowntime.
Proof.
  message_laws [string_spec 1 msgSetProducerDowntimeC_Producer; message_spec 2 msgSetProducerDowntimeC_DowntimeRange; uint64_spec 3 msgSetProducerDowntimeC_TargetProducerId].
Defined.

#[export] Instance msgUpdateParams_laws {P} {PM : ProtoMessage P} {PL : ProtoLaws P} : ProtoLaws (MsgUpdateParams P).
Proof.
  message_laws [string_spec 1 msgUpdateParamsC_Authority; message_spec 2 msgUpdateParamsC_Params].
Defined.

(** A goal [typed m] for a message whose numbers are known to fit: one goal is left for each
    component with another condition. *)
Ltac typed_message :=
  unfold typed, specs_typed; cbn [pl_specs validatorJoin_laws stakeUpdate_laws signerUpdate_laws validatorExit_laws msgCheckpoint_laws msgCpAck_laws msgCpNoAck_laws checkpointSignature_laws checkpointSignatures_laws msgEventRecord_laws msgTopupTx_laws msgWithdrawFeeTx_laws msgProposeSpan_laws msgBackfillSpans_laws msgVoteProducers_laws msgSetProducerDowntime_laws msgUpdateParams_laws];
  repeat match goal with H : Forall _ (_ :: _) |- _ => apply Forall_cons in H as [? H] end;
  repeat (lazymatch goal with |- Forall _ (_ :: _) => apply List.Forall_cons; [try done|] end); try apply List.Forall_nil.

(** ** Properties *)

(** A public key that is nil or empty is read back as nil. *)
Definition nil_key (key : option bytes) : option bytes := match key with Some [] => None | key => key end.
Lemma nil_key_not_empty key : nil_key key <> Some [].
Proof. by destruct key as [[]|]. Qed.

(** An empty public key is written as a nil one. *)
Lemma join_read_back {SI : StdCodec MathInt} {LI : StdLaws MathInt} (m : MsgValidatorJoin) :
  let m' := set validatorJoinC_SignerPubKey (nil_key (vj_SignerPubKey m)) m in
  typed m' -> Size m <= MaxInt64 -> read_back_as m m'.
Proof. destruct m as [? ? ? ? [[]|] ? ? ? ?]; intros m' T H; exact (round_trip m' T H). Qed.
Lemma signer_read_back (m : MsgSignerUpdate) :
  let m' := set signerUpdateC_NewSignerPubKey (nil_key (sg_NewSignerPubKey m)) m in
  typed m' -> Size m <= MaxInt64 -> read_back_as m m'.
Proof. destruct m as [? ? [[]|] ? ? ? ?]; intros m' T H; exact (round_trip m' T H). Qed.

(** C40: what is marshalled is read back.  What the modules store ([stored_read_back]) and the
    messages of transactions - the joins, updates, signer changes and exits
    of validators, checkpoints with their acknowledgements, no-acks and signatures, records of
    clerk, topups and withdrawals, and the proposals, backfills, votes and planned downtimes of
    bor - marshal into exactly the buffer of their size and unmarshal to themselves, for every
    value of the Go type whose encoding has a length that fits an int, with amounts that the
    SDK can encode; but for the public key of a join and of a signer change, which comes back
    as nil when it is empty.  (The other bytes are compared without telling nil from empty.)
    So does the change of the parameters of a module around any parameters that do. *)
Theorem messages_are_read_back {ST : StdCodec GoTime} {LT : StdLaws GoTime} {SD : StdCodec Z} {LD : StdLaws Z}
    {SI : StdCodec MathInt} {LI : StdLaws MathInt} :
  stored_read_back (SD := SD) /\
  (forall m : MsgValidatorJoin, Forall in_u64 [vj_ValId m; vj_ActivationEpoch m; vj_LogIndex m; vj_BlockNumber m; vj_Nonce m] ->
     std_valid (vj_Amount m : MathInt) -> Size m <= MaxInt64 ->
     read_back_as m (set validatorJoinC_SignerPubKey (nil_key (vj_SignerPubKey m)) m)) /\
  (forall m : MsgStakeUpdate, Forall in_u64 [su_ValId m; su_LogIndex m; su_BlockNumber m; su_Nonce m] ->
     std_valid (su_NewAmount m : MathInt) -> Size m <= MaxInt64 -> read_back m) /\
  (forall m : MsgSignerUpdate, Forall in_u64 [sg_ValId m; sg_LogIndex m; sg_BlockNumber m; sg_Nonce m] ->
     Size m <= MaxInt64 -> read_back_as m (set signerUpdateC_NewSignerPubKey (nil_key (sg_NewSignerPubKey m)) m)) /\
  (forall m : MsgValidatorExit, Forall in_u64 [ve_ValId m; ve_DeactivationEpoch m; ve_LogIndex m; ve_BlockNumber m; ve_Nonce m] ->
     Size m <= MaxInt64 -> read_back m) /\
  (forall m : MsgCheckpoint, Forall in_u64 [mc_StartBlock m; mc_EndBlock m] -> Size m <= MaxInt64 -> read_back m) /\
  (forall m : MsgCpAck, Forall in_u64 [ma_Number m; ma_StartBlock m; ma_EndBlock m] -> Size m <= MaxInt64 -> read_back m) /\
  (forall m : MsgCpNoAck, Size m <= MaxInt64 -> read_back m) /\
  (forall l, Size {| css_Signatures := l |} <= MaxInt64 -> read_back {| css_Signatures := l |}) /\
  (forall m : MsgEventRecord, Forall in_u64 [me_LogIndex m; me_BlockNumber m; me_Id m] -> Size m <= MaxInt64 -> read_back m) /\
  (forall m : MsgTopupTx, Forall in_u64 [tt_LogIndex m; tt_BlockNumber m] -> std_valid (tt_Fee m : MathInt) ->
     Size m <= MaxInt64 -> read_back m) /\
  (forall m : MsgWithdrawFeeTx, std_valid (wf_Amount m : MathInt) -> Size m <= MaxInt64 -> read_back m) /\
  (forall m : MsgProposeSpan, Forall in_u64 [ps_SpanId m; ps_StartBlock m; ps_EndBlock m] -> Size m <= MaxInt64 -> read_back m) /\
  (forall m : MsgBackfillSpans, Forall in_u64 [bf_LatestSpanId m; bf_LatestBorSpanId m] -> Size m <= MaxInt64 -> read_back m) /\
  (forall m : MsgVoteProducers, Forall in_u64 (vp_VoterId m :: vp_Votes m) -> Size m <= MaxInt64 -> read_back m) /\
  (forall m : MsgSetProducerDowntime, Forall in_u64 [pd_StartBlock m; pd_EndBlock m; pd_TargetProducerId m] ->
     Size m <= MaxInt64 -> read_back m) /\
  (forall P (PM : ProtoMessage P) (PL : ProtoLaws P) (m : MsgUpdateParams P), typed (up_Params m) -> Size m <= MaxInt64 -> read_back m).
Proof.
  split; [apply stored_messages_are_read_back|]. split_and!; intros.
  1: apply join_read_back; [destruct m; typed_message; apply nil_key_not_empty|done].
  2: apply signer_read_back; [destruct m; typed_message; apply nil_key_not_empty|done].
  all: apply round_trip; try done; typed_message.
  - apply (Forall_true typed). intros s. typed_message.
  - apply List.Forall_cons; [assumption|apply List.Forall_nil].
  - apply List.Forall_cons; [assumption|]. apply List.Forall_cons; [assumption|apply List.Forall_nil].
Qed.

(** ** A message *)
Module MessagesDemo.
Import StoredDemo.

(** Amounts as messages of one number. *)
Definition amount_codec : StdCodec MathInt := via_codec (fun a => {| Secs := a; Nanos := 0 |}) Secs.
Definition amount_laws : StdLaws MathInt (SC := amount_codec) := via_laws (fun a => {| Secs := a; Nanos := 0 |}) Secs.

Definition sample_join : MsgValidatorJoin :=
  {| vj_From := "0xaa"; vj_ValId := 3; vj_ActivationEpoch := 1; vj_Amount := 10000; vj_SignerPubKey := Some [Byte.x04; Byte.x05];
     vj_TxHash := [Byte.x01]; vj_LogIndex := 0; vj_BlockNumber := 300; vj_Nonce := 1 |}.
Definition sample_vote : MsgVoteProducers := {| vp_Voter := "0xaa"; vp_VoterId := 3; vp_Votes := [300; 1] |}.
Example sample_vote_round_trips : (bz ← Marshal sample_vote; Unmarshal bz pm_zero) = Ok sample_vote.
Proof. vm_compute. reflexivity. Qed.

Lemma messages_are_read_back_witness : read_back (PM := validatorJoin_message (SC := amount_codec)) sample_join.
Proof.
  refine (proj1 (proj2 (messages_are_read_back (SD := durations) (LD := duration_laws) (SI := amount_codec) (LI := amount_laws))) sample_join _ _ _).
  - repeat constructor; discriminate.
  - split; [|reflexivity]. split; [|vm_compute; discriminate].
    unfold typed, specs_typed. cbn [pl_specs seconds_laws]. repeat constructor; vm_compute; discriminate.
  - vm_compute. discriminate.
Defined.
End MessagesDemo.
