(* ===== verification/AppDemo.v ===== *)
(** * A concrete application

    Concrete instances of the code outside the repository and a small state, on
    which the witnesses of the application's theorems are evaluated. *)
From S2P Require Import Prelude SortedList Helpers External ValidatorSet VoteTypes StakeKeeper StakeHandlers Milestone MilestoneVotes VoteExt VoteExtCorrect Numerals Dividend Topup TopupCorrect Clerk Checkpoint CheckpointHandlers CheckpointCorrect NonRp BorTypes Selection BorKeeper BorHandlers App ExtendVote.
#[local] Open Scope Z_scope.

Module AppDemo.
Export CheckpointDemo.
#[export] Existing Instance TopupDemo.demo_bank.
#[export] Instance fee_bank : BankKeeper TopupDemo.DemoBank := {|
  GetBalance b a := TopupDemo.balance_of b (string_of_list_byte a);
  SendCoins b a a' z := TopupDemo.move b (string_of_list_byte a) (string_of_list_byte a') [("pol"%string, z)] |}.
#[export] Instance addresses : SdkAddress := {|
  ValAddressFromHex s := Ok (list_byte_of_string s); AccAddressFromHex s := Ok (list_byte_of_string s);
  AccAddressString bs := string_of_list_byte bs |}.
#[export] Instance eth_addresses : EthAddress := {| HexToAddress := list_byte_of_string; AddressHex := string_of_list_byte |}.
#[export] Instance no_bor : BorChain := {|
  GetBorChainBlock _ := None; GetBorChainBlockAuthor _ := None; BorBatch _ _ := None |}.
#[export] Instance receipts : ReceiptSource := {|
  Receipt := unit; ReceiptBlockNumber _ := 7; GetConfirmedTxReceipt _ _ := Some tt |}.
#[export] Instance stake_events : StakeEvents := {|
  DecodeValidatorJoinEvent _ _ _ := None; DecodeValidatorStakeUpdateEvent _ _ _ := None;
  DecodeSignerUpdateEvent _ _ _ := None; DecodeValidatorExitEvent _ _ _ := None |}.
#[export] Instance clerk_events : ClerkEvents := {| DecodeStateSyncedEvent _ _ _ := None |}.
#[export] Instance topup_events : TopupEvents := {|
  DecodeValidatorTopupFeesEvent _ _ _ := Some {| tf_User := "0xuser"; tf_Fee := 5 |} |}.
#[export] Instance random : RandSource := {| rand_u64 _ _ := 0 |}.

Definition topup_msg : MsgTopupTx :=
  {| tt_Proposer := "0xaa"; tt_User := "0xuser"; tt_Fee := 5; tt_TxHash := repeat Byte.x07 32; tt_LogIndex := 3; tt_BlockNumber := 7 |}.
(** The second topup repeats the first; the message in between has no handler. *)
#[export] Instance transactions : TxLibrary := {|
  TxDecode tx := if decide (tx = [Byte.x01]) then Some [AOther]
                 else if decide (tx = [Byte.x0c]) then Some [ACheckpoint (MCheckpoint demo_msg)]
                 else if decide (tx = [Byte.x0a]) then Some [ATopup topup_msg]
                 else if decide (tx = [Byte.x0b]) then Some [AOther; ATopup topup_msg] else None;
  tx_hash tx := take 32 (tx ++ repeat Byte.x00 32);
  proto_size tx := Z.of_nat (length tx);
  marshal_commit c := Some [Byte.xff];
  unmarshal_commit bz := if decide (bz = [Byte.xff]) then Some ([], 0) else None |}.

Definition config : Config :=
  {| rioHeight := 1000; tallyFixHeight := 0; disableVPCheckHeight := 0; disableValSetCheckHeight := 0;
     initialHeight := 1; producerDowntimeHeight := 1; phuketHardforkHeight := 1; feeWithdrawValidatorGateHeight := 1;
     zurichHardforkHeight := 1; ithacaHeight := 1; fallbackProducerVotes := [] |}.
Definition chain : ChainInfo := {| ChainID := "heimdall"; VoteExtensionsEnableHeight := 1 |}.
Definition at_height (h : Z) : Ctx := {| BlockHeight := h; BlockTime := 5000 |}.
Definition env (i : nat) : Env := {| env_clock := fun _ => 0; env_caches := demo_caches; env_nanos := 0; env_fuel := 0 |}.

Definition no_milestones : MilestoneState :=
  {| milestone := ∅; milestone_params := None; milestone_count := None; lastMilestoneBlock := None;
     lastPendingBorBlock := None; lastPendingBorBlockId := None; lastPendingBorBlockHeight := None |}.
Definition no_spans : BorState :=
  {| spans := ∅; latestSpan := None; seedLastProducer := ∅; bor_Params := None; ProducerVotes := ∅;
     PerformanceScore := ∅; LatestActiveProducer := ∅; LatestFailedProducer := ∅; LastSpanBlock := None;
     ProducerPlannedDowntime := ∅ |}.
Definition empty_records : ClerkState :=
  {| RecordsWithID := ∅; RecordsWithTime := ∅; RecordSequences := ∅; PendingVisibilityEvents := ∅;
     BlockTimeReverseIndex := ∅; VisibilityHeightByID := ∅ |}.
Definition application : AppState TopupDemo.DemoBank :=
  {| app_milestone := no_milestones; app_bor := no_spans; app_stake := demo_stake; app_checkpoint := demo_state;
     app_clerk := empty_records;
     app_topup := {| topup_sequences := ∅; dividendAccounts := {[ "u"%string := {| User := "u"; FeeAmount := "5" |} ]} |};
     app_bank := {| TopupDemo.balances := ∅; TopupDemo.supply := 0 |};
     app_chain_params := Some demo_chain_params; app_block_proposer := None |}.
End AppDemo.
