(* ===== verification/ExtendVoteCorrect.v ===== *)
(** * Correctness of vote extensions

    When an honest validator's extension is accepted by the others; it signs only for
    a checkpoint it has confirmed. *)
From S2P Require Import Prelude SortedList Helpers External VoteTypes ValidatorSet StakeKeeper StakeHandlers Milestone MilestoneVotes VoteExt Numerals Dividend Topup TopupCorrect Clerk Checkpoint CheckpointHandlers CheckpointCorrect NonRp NonRpCorrect BorTypes Selection BorKeeper BorHandlers App ExtendVote Wire VoteCodec VoteCodecCorrect AppDemo.
#[local] Open Scope Z_scope.

(** ** Responses *)

Definition answers_tx {TL : TxLibrary} (rawTx : bytes) (l : list SideTxResponse) : Prop :=
  Forall (fun r => TxHash r = tx_hash rawTx /\ isVoteValid (Result r) = true) l.

Lemma vote_number_valid v : isVoteValid (vote_number v) = true.
Proof. by destruct v. Qed.

Lemma validate_distinct l : forall seen : gset bytes, NoDup (map TxHash l) ->
  Forall (fun r => TxHash r ∉ seen /\ length (TxHash r) = HashLength /\ isVoteValid (Result r) = true) l ->
  validate_responses seen l = Ok tt.
Proof.
  induction l as [|r l IH]; intros seen ND HF; cbn [validate_responses]; [done|].
  cbn [map] in ND. apply NoDup_cons in ND as [Hn ND]. apply Forall_cons in HF as [(Hs & Hl & Hv) HF].
  rewrite Hl, Nat.eqb_refl, Hv, bool_decide_false by done. cbn [negb fail_if]. apply IH; [done|].
  rewrite Forall_forall in HF |- *. intros r' Hr'. destruct (HF r' Hr') as (Hs' & Hl' & Hv'). split; [|done].
  apply not_elem_of_union. split; [|done]. apply not_elem_of_singleton. intros E. apply Hn. rewrite <- E.
  by apply list_elem_of_fmap_2.
Qed.
Lemma validate_answers l : (length l <= maxSideTxResponsesCount)%nat -> NoDup (map TxHash l) ->
  Forall (fun r => length (TxHash r) = HashLength /\ isVoteValid (Result r) = true) l ->
  validateSideTxResponses l = Ok tt.
Proof.
  intros Hl ND HF. unfold validateSideTxResponses. rewrite (proj2 (Nat.ltb_ge _ _)) by done. cbn [fail_if].
  apply validate_distinct; [done|]. eapply Forall_impl; [exact HF|]. intros r [H1 H2]. split; [apply not_elem_of_empty|done].
Qed.

Section extend.
Context {AC : AddressCodec} {SA : SdkAddress} {EA : EthAddress} {HF : HashFunction} {ML : MerkleLibrary}.
Context {RS : ReceiptSource} {SE : StakeEvents} {CE : ClerkEvents} {TE : TopupEvents}.
Context {BC : BorChain} {BN : BorNode} {RC : RootChain} {TL : TxLibrary}.
Context {B : Type} {FB : FeeBank B} (cfg : Config) (ctx : Ctx) (env : nat -> Env) (s : AppState B).

Lemma side_handler_registered e m : side_handler cfg ctx e s m = None <-> has_side_handler m = false.
Proof. by destruct m. Qed.

(** A checkpoint of the transactions that the validator voted yes on, with the
    extension that signs for it. *)
Definition confirmed_checkpoint (txs : list bytes) (c : MsgCheckpoint) (ext : bytes) : Prop :=
  exists tx msgs i signBytes, tx ∈ txs /\ TxDecode tx = Some msgs /\ ACheckpoint (MCheckpoint c) ∈ msgs /\
    side_handler cfg ctx (env i) s (ACheckpoint (MCheckpoint c)) = Some (Ok VOTE_YES) /\
    GetSideSignBytes c = Ok signBytes /\ ext = packExtensionWithVote signBytes.

Lemma checkpoint_extension_origin ext v m ext' : checkpoint_extension ext v m = Ok ext' ->
  ext' = ext \/ v = VOTE_YES /\ exists c signBytes, m = ACheckpoint (MCheckpoint c) /\
    GetSideSignBytes c = Ok signBytes /\ ext' = packExtensionWithVote signBytes.
Proof.
  unfold checkpoint_extension. destruct m as [|[c|]| | | | | | | |]; intros E; try (injection E as <-; by left).
  case_bool_decide; [|injection E as <-; by left]. ok_step E. injection E as <-. right. split; [done|]. by exists c, a.
Qed.

Lemma answer_msgs_ok raw msgs : forall st st', answer_msgs cfg ctx env s raw st msgs = Ok st' ->
  (length st.1 < maxSideTxResponsesCount)%nat ->
  (exists l, st'.1 = st.1 ++ l /\ answers_tx raw l /\ (length l <= CountSideHandlers msgs)%nat) /\
  (length st'.1 <= maxSideTxResponsesCount)%nat /\
  (st'.2 = st.2 \/ forall all, TxDecode raw = Some all -> msgs ⊆ all -> exists c, confirmed_checkpoint [raw] c st'.2).
Proof.
  induction msgs as [|m msgs IH]; intros st st'; cbn [answer_msgs].
  { intros [= <-] Hl. split; [exists []; rewrite app_nil_r; repeat constructor|]. split; [lia|by left]. }
  destruct (side_handler cfg ctx (env (length st.1)) s m) as [r|] eqn:Hh.
  - assert (has_side_handler m = true) as Hm by (destruct (has_side_handler m) eqn:E; [done|apply side_handler_registered with (e := env (length st.1)) in E; congruence]).
    intros E Hl. ok_step E. rename a into v. subst r. ok_step E. rename a into ext.
    set (res := st.1 ++ [{| TxHash := tx_hash raw; Result := vote_number v |}]) in *.
    assert (length res = S (length st.1)) as Hres by (unfold res; rewrite length_app; cbn; lia).
    assert (CountSideHandlers (m :: msgs) = S (CountSideHandlers msgs)) as Hcount by (unfold CountSideHandlers; cbn; by rewrite Hm).
    assert (ext = st.2 \/ forall all, TxDecode raw = Some all -> m :: msgs ⊆ all -> exists c, confirmed_checkpoint [raw] c ext) as Hext.
    { apply checkpoint_extension_origin in Ha as [->|(-> & c & sb & -> & Hsb & ->)]; [by left|]. right. intros all Hd Hsub.
      exists c, raw, all, (length st.1), sb. split; [by left|]. split; [done|]. split; [apply Hsub; by left|done]. }
    destruct (length res =? maxSideTxResponsesCount)%nat eqn:Hmax.
    + injection E as <-. cbn [fst snd]. apply Nat.eqb_eq in Hmax. split; [|split; [lia|exact Hext]].
      exists [{| TxHash := tx_hash raw; Result := vote_number v |}]. split; [done|]. rewrite Hcount. split; [|cbn; lia].
      repeat constructor. apply vote_number_valid.
    + apply Nat.eqb_neq in Hmax. apply IH in E as ((l & El & Hal & Hlen) & Hle & Ho); [|cbn [fst]; lia]. cbn [fst snd] in *.
      split; [|split; [done|]].
      * exists ({| TxHash := tx_hash raw; Result := vote_number v |} :: l). split; [rewrite El; unfold res; by rewrite <- app_assoc|].
        split; [constructor; [split; [done|apply vote_number_valid]|done]|rewrite Hcount; cbn; lia].
      * destruct Ho as [->|Ho]; [exact Hext|]. right. intros all Hd Hsub. apply (Ho all Hd). set_solver.
  - assert (has_side_handler m = false) as Hm by (by apply side_handler_registered with (e := env (length st.1))).
    intros E Hl. apply IH in E as (H1 & H2 & H3); [|done].
    assert (CountSideHandlers (m :: msgs) = CountSideHandlers msgs) as -> by (unfold CountSideHandlers; cbn; by rewrite Hm).
    split; [done|]. split; [done|]. destruct H3 as [->|H3]; [by left|]. right. intros all Hd Hsub. apply (H3 all Hd). set_solver.
Qed.

Lemma confirmed_mono txs txs' ext : txs ⊆ txs' -> (exists c, confirmed_checkpoint txs c ext) -> exists c, confirmed_checkpoint txs' c ext.
Proof. intros Hs (c & tx & msgs & i & sb & Hin & H). exists c, tx, msgs, i, sb. split; [by apply Hs|done]. Qed.

Lemma answer_txs_ok time_left budget txs : forall i st st', answer_txs cfg time_left budget ctx env s i st txs = Ok st' ->
  (forall tx msgs, tx ∈ txs -> TxDecode tx = Some msgs -> (CountSideHandlers msgs <= 1)%nat) ->
  (length st.1 < maxSideTxResponsesCount)%nat ->
  (exists l, st'.1 = st.1 ++ l /\ sublist (map TxHash l) (map tx_hash txs) /\ Forall (fun r => isVoteValid (Result r) = true) l) /\
  (length st'.1 <= maxSideTxResponsesCount)%nat /\ (st'.2 = st.2 \/ exists c, confirmed_checkpoint txs c st'.2).
Proof.
  induction txs as [|raw txs IH]; intros i st st'; cbn [answer_txs].
  { intros [= <-] _ Hl. split; [exists []; rewrite app_nil_r; repeat constructor|]. split; [lia|by left]. }
  destruct (budget && negb (time_left i)).
  { intros [= <-] _ Hl. split; [exists []; rewrite app_nil_r; split; [done|]; split; [apply sublist_nil_l|constructor]|]. split; [lia|by left]. }
  intros E Hone Hl. ok_step E. apply of_option_ok in Ha. rename a into msgs. ok_step E. rename a into st1.
  apply answer_msgs_ok in Ha0 as ((l & El & Hal & Hlen) & Hle & Ho); [|done].
  specialize (Hone raw msgs ltac:(by left) Ha) as H1.
  assert (sublist (map TxHash l) [tx_hash raw] /\ Forall (fun r => isVoteValid (Result r) = true) l) as [Hsub Hval].
  { destruct l as [|r [|]]; cbn in Hlen; [split; [apply sublist_nil_l|constructor]| |lia].
    apply Forall_cons in Hal as [[E1 E2] _]. split; [cbn; rewrite E1; by constructor|by repeat constructor]. }
  assert (st1.2 = st.2 \/ exists c, confirmed_checkpoint (raw :: txs) c st1.2) as Ho1.
  { destruct Ho as [->|Ho]; [by left|]. right. eapply confirmed_mono; [|apply (Ho msgs Ha); done]. set_solver. }
  destruct (length st1.1 =? maxSideTxResponsesCount)%nat eqn:Hmax.
  - injection E as <-. split; [|split; [exact Hle|exact Ho1]]. exists l. split; [done|]. split; [|exact Hval].
    etrans; [exact Hsub|]. apply sublist_skip, sublist_nil_l.
  - apply Nat.eqb_neq in Hmax. apply IH in E as ((l' & El' & Hsub' & Hval') & Hle' & Ho'); [| |lia].
    2:{ intros tx ms Hin. apply Hone. by right. }
    split; [|split; [done|]].
    + exists (l ++ l'). split; [rewrite El', El; by rewrite app_assoc|]. rewrite map_app.
      split; [by apply (sublist_app _ [tx_hash raw])|by apply Forall_app].
    + destruct Ho' as [->|Ho']; [done|]. right. eapply confirmed_mono; [|exact Ho']. set_solver.
Qed.

Lemma own_proposition_valid p : own_proposition cfg ctx s = Ok p ->
  ValidateMilestoneProposition (app_milestone s) p = Ok tt.
Proof.
  unfold own_proposition. destruct (GenMilestoneProposition _ _ _ _ _) as [prop| |]; [|by intros [= <-]|done].
  destruct (ValidateMilestoneProposition _ (Some prop)) as [[]| |] eqn:E; [by intros [= <-]|by intros [= <-]|done].
Qed.
End extend.

(** ** The checkpoint that was confirmed *)

Lemma confirmed_params {AC : AddressCodec} {HF : HashFunction} {ML : MerkleLibrary} {BN : BorNode} clock caches accounts params ss cs c :
  SideHandleMsgCheckpoint clock caches accounts params ss cs c = Ok VOTE_YES ->
  exists p cp, params = Some p /\ GetCheckpointParams cs = Ok cp /\ BorChainId p = mc_BorChainId c /\
    bor_confirms clock caches p cp c = Ok true.
Proof.
  unfold SideHandleMsgCheckpoint, ValidateChainID. intros E. yes_inv E. bool_hyps. subst a4.
  match goal with H : (_ =? _)%string = true |- _ => apply String.eqb_eq in H end. by exists a, a0.
Qed.

(** What the other checks leave to the check of the extension without replay protection. *)
Lemma extension_verified {AC : AddressCodec} {SA : SdkAddress} {EA : EthAddress} {HF : HashFunction}
    {ML : MerkleLibrary} {RS : ReceiptSource} {SE : StakeEvents} {CE : ClerkEvents} {TE : TopupEvents} {BC : BorChain}
    {BN : BorNode} {RC : RootChain} {TL : TxLibrary} {VE : VoteEncoder} {VC : VoteCodec} {B : Type} {FB : FeeBank B}
    (cfg : Config) time_left clock caches env ctx ch (s : AppState B) req bz ext :
  (forall v b, marshal_ve v = Some b -> vx_BlockHash v <> Some [] -> unmarshal_ve b = Some v /\ has_unknown_fields b = false) ->
  (forall tx, length (tx_hash tx) = HashLength) ->
  NoDup (map tx_hash (tail (ev_Txs req))) -> ev_Hash req <> [] ->
  (forall tx msgs, tx ∈ tail (ev_Txs req) -> TxDecode tx = Some msgs -> (CountSideHandlers msgs <= 1)%nat) ->
  ExtendVote cfg time_left clock caches env ctx ch s req = Ok (bz, ext) ->
  (ext = GetDummyNonRpVoteExtension (ev_Height req) (ChainID ch) \/
   exists c, confirmed_checkpoint cfg ctx env s (tail (ev_Txs req)) c ext) /\
  forall BN' clock' caches' address a, BytesToString address = Ok a ->
    VerifyVoteExtension (BN := BN') cfg clock' caches' ch s
      {| vr_Height := ev_Height req; vr_Hash := ev_Hash req; vr_Address := address; vr_VoteExtension := bz;
         vr_NonRpVoteExtension := ext |}
    = nonrp_data_accepted cfg (ev_Height req)
        (validateNonRpVoteExtensionData (BN := BN') clock' caches' ch (app_chain_params s) (app_checkpoint s)
           (ev_Height req) ext).
Proof.
  intros Hcodec Hlen ND Hh Hone E. unfold ExtendVote in E. ok_step E. destruct a.
  destruct (ev_Txs req) as [|bz0 txs]; [done|]. cbn [tail] in *. ok_step E. ok_step E. destruct a0 as [res ext'].
  ok_step E. rename a0 into prop. ok_step E. rename a0 into bz'. apply of_option_ok in Ha3.
  assert (bz' = bz /\ ext' = ext) as [-> ->].
  { destruct (validateNonRpVoteExtensionData _ _ _ _ _ _ _); [by injection E as <- <-|by injection E as <- <-|done]. }
  clear E. apply answer_txs_ok in Ha1 as ((l & El & Hsub & Hval) & Hmax & Ho); [|done|cbn; unfold maxSideTxResponsesCount; lia].
  cbn [fst snd app] in El, Hmax, Ho. subst l. split; [exact Ho|]. intros BN' clock' caches' address adr Hadr.
  destruct (Hcodec _ _ Ha3) as [Hu Hk]; [cbn; congruence|].
  unfold VerifyVoteExtension. cbn [vr_Height vr_Hash vr_Address vr_VoteExtension vr_NonRpVoteExtension].
  rewrite Ha, Hadr, Hk, Hu. cbn [mbind outcome_bind vx_Height vx_BlockHash SideTxResponses vx_MilestoneProposition default].
  rewrite Z.eqb_refl, bool_decide_true by done. cbn [negb].
  rewrite validate_answers; [|done|by eapply sublist_NoDup|].
  2:{ rewrite Forall_forall in Hval |- *. intros r Hr. split; [|by apply Hval].
      assert (TxHash r ∈ map tx_hash txs) as Hin by (eapply sublist_subseteq; [exact Hsub|by apply list_elem_of_fmap_2]).
      apply list_elem_of_fmap in Hin as (tx & -> & _). apply Hlen. }
  assert (ValidateMilestoneProposition (app_milestone s) prop = Ok tt) as ->.
  { destruct (IsZurichHardfork cfg (ev_Height req) && _); [by injection Ha2 as <-|by eapply own_proposition_valid]. }
  destruct (validateNonRpVoteExtensionData _ _ _ _ _ _ _); cbn; [done|by destruct (accept_nonrp_data_error _ _ _)|done].
Qed.

(** ** Properties *)

(** C31: when the extension of an honest validator is accepted.  For a block whose
    transactions are distinct and hold at most one side message each, what [ExtendVote]
    answers signs for no checkpoint, and then every validator accepts it; or for a
    checkpoint the validator voted yes on, and then a validator accepts it whose own Bor
    node confirms the checkpoint, and from Phuket on one that finds another root rejects
    it; one that cannot ask its node accepts it as far as such errors are tolerated. *)
Theorem honest_extension_verified {AC : AddressCodec} {SA : SdkAddress} {EA : EthAddress} {HF : HashFunction}
    {ML : MerkleLibrary} {RS : ReceiptSource} {SE : StakeEvents} {CE : ClerkEvents} {TE : TopupEvents} {BC : BorChain}
    {BN : BorNode} {RC : RootChain} {TL : TxLibrary} {VE : VoteEncoder} {VC : VoteCodec} {B : Type} {FB : FeeBank B}
    (cfg : Config) time_left clock caches env ctx ch (s : AppState B) req bz ext :
  (forall v b, marshal_ve v = Some b -> vx_BlockHash v <> Some [] -> unmarshal_ve b = Some v /\ has_unknown_fields b = false) ->
  (forall tx, length (tx_hash tx) = HashLength) -> (String.length (ChainID ch) <= 400)%nat ->
  NoDup (map tx_hash (tail (ev_Txs req))) -> ev_Hash req <> [] ->
  (forall tx msgs, tx ∈ tail (ev_Txs req) -> TxDecode tx = Some msgs -> (CountSideHandlers msgs <= 1)%nat) ->
  ExtendVote cfg time_left clock caches env ctx ch s req = Ok (bz, ext) ->
  let verified BN' clock' caches' address :=
    VerifyVoteExtension (BN := BN') cfg clock' caches' ch s
      {| vr_Height := ev_Height req; vr_Hash := ev_Hash req; vr_Address := address; vr_VoteExtension := bz;
         vr_NonRpVoteExtension := ext |} in
  (ext = GetDummyNonRpVoteExtension (ev_Height req) (ChainID ch) /\
   forall BN' clock' caches' address, is_ok (BytesToString address) = true -> verified BN' clock' caches' address = Ok true) \/
  (exists c p cp, confirmed_checkpoint cfg ctx env s (tail (ev_Txs req)) c ext /\
   app_chain_params s = Some p /\ GetCheckpointParams (app_checkpoint s) = Ok cp /\
   forall BN' clock' caches' address, is_ok (BytesToString address) = true -> signable c ->
     verified BN' clock' caches' address =
       match bor_confirms (BN := BN') clock' caches' p cp c with
       | Ok valid => Ok (valid || negb (IsPhuketHardfork cfg (ev_Height req)))
       | Err e => Ok (accept_nonrp_data_error cfg (ev_Height req) e)
       | Panic => Panic
       end).
Proof.
  intros Hcodec Hlen Hch ND Hh Hone E verified.
  destruct (extension_verified cfg time_left clock caches env ctx ch s req bz ext Hcodec Hlen ND Hh Hone E) as [[Ed|(c & Hc)] HV].
  - left. split; [done|]. intros BN' clock' caches' address Ha. destruct (BytesToString address) as [a| |] eqn:Eb; [|done..].
    unfold verified. rewrite (HV BN' clock' caches' address a Eb), Ed, dummy_valid by done. done.
  - right. pose proof Hc as (tx & msgs & i & sb & _ & _ & _ & Hy & Hsb & Eext). cbn [side_handler] in Hy. injection Hy as Hy.
    destruct (confirmed_params _ _ _ _ _ _ _ Hy) as (p & cp & Ep & Ecp & Eid & _). exists c, p, cp.
    split; [done|]. split; [done|]. split; [done|]. intros BN' clock' caches' address Ha Hsig.
    destruct (BytesToString address) as [a| |] eqn:Eb; [|done..]. unfold verified. rewrite (HV BN' clock' caches' address a Eb).
    rewrite Eext, Ep, (checkpoint_data_checked clock' caches' ch p cp _ (ev_Height req) c sb Hsig Hsb Eid Ecp).
    destruct (bor_confirms _ _ _ _ _) as [[]|e|]; cbn; try done.
    unfold accept_nonrp_data_error. rewrite !bool_decide_false by done. by rewrite andb_false_r, andb_true_r.
Qed.

(** ** Witness: a validator confirms a checkpoint *)

Module ExtendVoteDemo.
Import AppDemo.
#[export] Instance proposition_eq_dec : EqDecision MilestoneProposition.
Proof. solve_decision. Defined.
#[export] Instance response_eq_dec : EqDecision SideTxResponse.
Proof. solve_decision. Defined.
#[export] Instance extension_eq_dec : EqDecision VoteExtension.
Proof. solve_decision. Defined.

Definition demo_extension : VoteExtension :=
  {| vx_BlockHash := Some [Byte.x09]; vx_Height := 100;
     SideTxResponses := [{| TxHash := tx_hash [Byte.x0c]; Result := 1 |}]; vx_MilestoneProposition := None |}.
Definition no_unknown_field (b : bytes) : bool := false.
#[export] Instance encoder : VoteEncoder := heimdall_encoder.
#[export] Instance decoder : VoteCodec := heimdall_codec no_unknown_field.
Definition encoded : bytes := extension_bytes demo_extension.
(** A checkpoint of the proposer "abcdefghijklmnopqrst". *)
Definition proposed : MsgCheckpoint :=
  {| mc_Proposer := "abcdefghijklmnopqrst"; mc_StartBlock := 0; mc_EndBlock := 99; mc_RootHash := repeat Byte.x01 32;
     mc_AccountRootHash := repeat Byte.x00 31 ++ [Byte.x75]; mc_BorChainId := "137" |}.
#[export] Instance block_transactions : TxLibrary := {|
  TxDecode tx := if decide (tx = [Byte.x01]) then Some [AOther]
                 else if decide (tx = [Byte.x0c]) then Some [ACheckpoint (MCheckpoint proposed)] else None;
  tx_hash tx := take 32 (tx ++ repeat Byte.x00 32);
  proto_size tx := Z.of_nat (length tx);
  marshal_commit c := Some [Byte.xff];
  unmarshal_commit bz := if decide (bz = [Byte.xff]) then Some ([], 0) else None |}.
Definition proposer : Validator := demo_validator 1 "abcdefghijklmnopqrst".
Definition app_with_proposer : AppState TopupDemo.DemoBank :=
  with_stake application
    {| validators := ∅; signer := ∅; sequences := ∅; previousSet := None; penultimateSet := None; lastBlockTxs := None;
       validatorSet := Some {| Validators := [proposer]; Proposer := Some proposer; TotalVotingPower := 10 |} |}
    (app_bank application).
Definition block : ExtendRequest := {| ev_Height := 100; ev_Hash := [Byte.x09]; ev_Txs := [[Byte.xff]; [Byte.x01]; [Byte.x0c]] |}.
Definition extended : outcome (bytes * bytes) :=
  ExtendVote config (fun _ => true) (fun _ => 0) demo_caches env (at_height 100) chain app_with_proposer block.
Definition signed_for : bytes := match GetSideSignBytes proposed with Ok b => packExtensionWithVote b | _ => [] end.
(** A validator whose Bor node has other blocks. *)
Definition other_node : BorNode := {|
  HeaderByNumber n := Ok (Some {| Number := n; HeaderHash := []; HeaderParentHash := [] |});
  RootHashOf start end_ := Ok "0202020202020202020202020202020202020202020202020202020202020202"%string;
|}.
Definition verification (BN : BorNode) : outcome bool :=
  VerifyVoteExtension (BN := BN) config (fun _ => 0) demo_caches chain app_with_proposer
    {| vr_Height := 100; vr_Hash := [Byte.x09]; vr_Address := []; vr_VoteExtension := encoded;
       vr_NonRpVoteExtension := signed_for |}.

Lemma proposed_signable : signable proposed.
Proof.
  split; cbn; unfold in_u64, MaxUint64; try done; [|exists 137; by split].
  exists (list_byte_of_string "abcdefghijklmnopqrst"). by split_and!.
Qed.
Lemma honest_extension_verified_witness :
  extended = Ok (encoded, signed_for) /\ verification demo_node = Ok true /\ verification other_node = Ok false.
Proof.
  assert (extended = Ok (encoded, signed_for)) as E by (vm_compute; reflexivity). split; [exact E|].
  destruct (honest_extension_verified config (fun _ => true) (fun _ => 0) demo_caches env (at_height 100) chain
    app_with_proposer block encoded signed_for) as [[Ed _]|(c & p & cp & Hc & Ep & Ecp & H)].
  - intros v b Hm Hnil. split; [exact (codec_round_trips no_unknown_field v b Hm Hnil)|reflexivity].
  - intros tx. unfold tx_hash, block_transactions. rewrite length_take, length_app.
    change (length (repeat Byte.x00 32)) with 32%nat. unfold HashLength. lia.
  - cbn. lia.
  - apply (bool_decide_unpack _). vm_compute. exact I.
  - discriminate.
  - intros tx msgs Hin. apply list_elem_of_In in Hin. destruct Hin as [<-|[<-|[]]]; cbn; intros [= <-]; cbn; lia.
  - exact E.
  - vm_compute in Ed. discriminate Ed.
  - injection Ep as <-. injection Ecp as <-.
    assert (c = proposed) as ->.
    { destruct Hc as (tx & msgs & i & sb & Hin & Hd & Hm & _). apply list_elem_of_In in Hin.
      destruct Hin as [<-|[<-|[]]]; vm_compute in Hd; injection Hd as <-; apply list_elem_of_singleton in Hm;
        [discriminate Hm|injection Hm as ->; reflexivity]. }
    split; [refine (eq_trans (H demo_node (fun _ => 0) demo_caches [] eq_refl proposed_signable) _)
           |refine (eq_trans (H other_node (fun _ => 0) demo_caches [] eq_refl proposed_signable) _)]; vm_compute; reflexivity.
Defined.
End ExtendVoteDemo.
