(* ===== verification/Receipts.v ===== *)
(** * Receipts of the main chain

    Models the part of [helper/call.go] and [helper/receipt.go] behind the side handlers: the
    receipt of a transaction, fetched or prefetched for a round of [ExtendVote], its
    finality with the header cached for the round, and the search of an event in it.  The
    client's answers are functions of the number of calls made so far; unpacking an event is
    the ABI library's.  At the end the interfaces the side handlers use ([ReceiptSource],
    [StakeEvents], [ClerkEvents], [TopupEvents]) are implemented by these functions. *)
From S2P Require Import Prelude Helpers External VoteTypes ValidatorSet StakeKeeper StakeHandlers Numerals Dividend Topup Clerk BorKeeper.
#[local] Open Scope Z_scope.

(** ** The client *)

Class MainChainClient := {
  MReceipt : Type;
  MLog : Type;
  mr_BlockNumber : MReceipt -> option Z;     (* a big integer, or nil *)
  mr_Logs : MReceipt -> list MLog;
  ml_Index : MLog -> Z;                      (* uint *)
  ml_Address : MLog -> bytes;
  TransactionReceipt : nat -> bytes -> outcome (option MReceipt);     (* None: nil *)
  BatchReceipts : nat -> list bytes -> outcome (list (option MReceipt));    (* None: an error, or no receipt *)
  FinalizedBlock : nat -> option Z;          (* None: an error, no header, or one without a number *)
  LatestBlock : nat -> outcome (option Z);   (* None: no header, or one without a number *)
}.

Section caller.
Context {MC : MainChainClient}.

Record ContractCaller := {
  cc_calls : nat;
  prefetchedReceipts : gmap bytes MReceipt;
  finalizedHeaderCache : option Z;
}.
Definition called (c : ContractCaller) : ContractCaller :=
  {| cc_calls := S (cc_calls c); prefetchedReceipts := prefetchedReceipts c; finalizedHeaderCache := finalizedHeaderCache c |}.
Definition with_receipts (c : ContractCaller) (receipts : gmap bytes MReceipt) : ContractCaller :=
  {| cc_calls := cc_calls c; prefetchedReceipts := receipts; finalizedHeaderCache := finalizedHeaderCache c |}.
Definition with_finalized (c : ContractCaller) (number : Z) : ContractCaller :=
  {| cc_calls := cc_calls c; prefetchedReceipts := prefetchedReceipts c; finalizedHeaderCache := Some number |}.

(** ** A round *)

Definition BeginPrefetchRound (c : ContractCaller) : ContractCaller :=
  {| cc_calls := cc_calls c; prefetchedReceipts := ∅; finalizedHeaderCache := None |}.
Definition EndPrefetchRound (c : ContractCaller) : ContractCaller :=
  {| cc_calls := cc_calls c; prefetchedReceipts := ∅; finalizedHeaderCache := None |}.

(** The receipts of a batch that were answered and have a block number. *)
Fixpoint collect_receipts (results : gmap bytes MReceipt) (txHashes : list bytes) (batch : list (option MReceipt))
    : gmap bytes MReceipt :=
  match txHashes, batch with
  | tx :: txHashes, elem :: batch =>
      let results := match elem with
                     | Some receipt => if mr_BlockNumber receipt then <[tx := receipt]> results else results
                     | None => results
                     end in
      collect_receipts results txHashes batch
  | _, _ => results
  end.
Definition BatchGetMainChainTxReceipts (c : ContractCaller) (txHashes : list bytes) : ContractCaller * gmap bytes MReceipt :=
  if (length txHashes =? 0)%nat then (c, ∅)
  else (called c, match BatchReceipts (cc_calls c) txHashes with
                  | Ok batch => collect_receipts ∅ txHashes batch
                  | _ => ∅
                  end).
Definition PrefetchReceipts (c : ContractCaller) (txHashes : list bytes) : ContractCaller :=
  if (length txHashes =? 0)%nat then c
  else let '(c, receipts) := BatchGetMainChainTxReceipts c txHashes in with_receipts c receipts.

(** ** Confirmed receipts *)

Definition getOrFetchReceipt (c : ContractCaller) (tx : bytes) : ContractCaller * outcome MReceipt :=
  match prefetchedReceipts c !! tx with
  | Some receipt => (c, Ok receipt)
  | None =>
      (called c,
       receipt ← TransactionReceipt (cc_calls c) tx;
       of_option (ErrText "ethereum tx receipt not found") receipt)
  end.

(** Without the finalized block: a number of confirmations. *)
Definition confirmed_by_depth (c : ContractCaller) (receipt : MReceipt) (receiptBlockNumber requiredConfirmations : Z)
    : ContractCaller * outcome MReceipt :=
  (called c,
   latestBlock ← LatestBlock (cc_calls c);
   number ← of_option (ErrText "latest main chain block header or number is nil") latestBlock;
   let latestNum := u64 number in
   return_if latestNum <? receiptBlockNumber with ErrText "receipt block number is ahead of latest main chain block" ;;
   return_if u64 (latestNum - receiptBlockNumber) <? requiredConfirmations with ErrText "not enough confirmations" ;;
   Ok receipt).
Definition GetConfirmedTxReceipt_call (c : ContractCaller) (tx : bytes) (requiredConfirmations : Z) : ContractCaller * outcome MReceipt :=
  match getOrFetchReceipt c tx with
  | (c, Err e) => (c, Err e)
  | (c, Panic) => (c, Panic)
  | (c, Ok receipt) =>
      match mr_BlockNumber receipt with
      | None => (c, Err (ErrText "receipt has nil block number"))
      | Some blockNumber =>
          let receiptBlockNumber := u64 blockNumber in
          if (match finalizedHeaderCache c with Some number => receiptBlockNumber <=? u64 number | None => false end)
          then (c, Ok receipt)
          else
            match FinalizedBlock (cc_calls c) with
            | Some number =>
                (with_finalized (called c) number,
                 if u64 number <? receiptBlockNumber
                 then Err (ErrText "receipt block number is ahead of latest finalized main chain block") else Ok receipt)
            | None => confirmed_by_depth (called c) receipt receiptBlockNumber requiredConfirmations
            end
      end
  end.
Definition IsTxConfirmed (c : ContractCaller) (tx : bytes) (requiredConfirmations : Z) : ContractCaller * bool :=
  let '(c, r) := GetConfirmedTxReceipt_call c tx requiredConfirmations in (c, is_ok r).

(** ** The events of a receipt *)

Section events.
Context {EA : EthAddress}.

(** The log of the contract at the index, unpacked. *)
Definition decode_event {E} (UnpackLog : MLog -> option E) (contractAddress : string) (receipt : MReceipt) (logIndex : Z) : option E :=
  match List.find (fun vLog => (u64 (ml_Index vLog) =? logIndex) &&
                          bool_decide (ml_Address vLog = HexToAddress contractAddress)) (mr_Logs receipt) with
  | Some vLog => UnpackLog vLog
  | None => None
  end.
End events.
End caller.

(** [UnpackLog] for the events of the contracts. *)
Class EventUnpackers {MC : MainChainClient} := {
  unpack_Staked : MLog -> option StakingInfoStaked;
  unpack_StakeUpdate : MLog -> option StakingInfoStakeUpdate;
  unpack_SignerChange : MLog -> option StakingInfoSignerChange;
  unpack_UnstakeInit : MLog -> option StakingInfoUnstakeInit;
  unpack_StateSynced : MLog -> option StatesenderStateSynced;
  unpack_TopUpFee : MLog -> option StakinginfoTopUpFee;
}.

(** ** The interfaces of the side handlers *)

Section interfaces.
Context {MC : MainChainClient} {EA : EthAddress} {EU : EventUnpackers}.

(** The receipts as a handler sees them that runs when the caller is [c]. *)
Definition caller_receipts (c : ContractCaller) : ReceiptSource := {|
  Receipt := MReceipt;
  ReceiptBlockNumber r := default 0 (mr_BlockNumber r);
  GetConfirmedTxReceipt tx confirmations :=
    match (GetConfirmedTxReceipt_call c (BytesToHash tx) confirmations).2 with Ok receipt => Some receipt | _ => None end |}.
Definition caller_stake_events (c : ContractCaller) : StakeEvents (RS := caller_receipts c) :=
  Build_StakeEvents (caller_receipts c) (decode_event unpack_Staked) (decode_event unpack_StakeUpdate)
    (decode_event unpack_SignerChange) (decode_event unpack_UnstakeInit).
Definition caller_clerk_events (c : ContractCaller) : ClerkEvents (RS := caller_receipts c) :=
  Build_ClerkEvents (caller_receipts c) (decode_event unpack_StateSynced).
Definition caller_topup_events (c : ContractCaller) : TopupEvents (RS := caller_receipts c) :=
  Build_TopupEvents (caller_receipts c) (decode_event unpack_TopUpFee).
End interfaces.
