(* ===== verification/ReceiptsCorrect.v ===== *)
(** * Receipts of the main chain: correctness

    A receipt the caller confirms was answered by the main chain in the round, and its block
    is final: not after a finalized block that was answered in the round or, where that
    is unknown, deep enough under the latest block.  So is then the event behind
    every yes vote on a message that claims one. *)
From S2P Require Import Prelude SortedList Helpers External VoteTypes ValidatorSet StakeKeeper StakeHandlers StakeCorrect Milestone MilestoneVotes VoteExt Numerals Dividend Topup Clerk ClerkCorrect Checkpoint CheckpointHandlers NonRp BorTypes Selection BorKeeper BorHandlers App ExtendVote CheckpointCorrect AppDemo TopupCorrect Receipts.
#[local] Open Scope Z_scope.

Section rounds.
Context {MC : MainChainClient}.
Implicit Types c : ContractCaller.

(** ** What the round was answered *)

(** The calls of the round are those from number [start] up to the caller's count. *)
Definition in_round (start : nat) c (n : nat) : Prop := (start <= n < cc_calls c)%nat.

(** The receipt is the chain's answer for the transaction, alone or in a batch. *)
Definition answered (start : nat) c (tx : bytes) (receipt : MReceipt) : Prop :=
  exists n, in_round start c n /\
    (TransactionReceipt n tx = Ok (Some receipt) \/
     exists txs batch i, BatchReceipts n txs = Ok batch /\ txs !! i = Some tx /\ batch !! i = Some (Some receipt)).

(** The block is not after a finalized one. *)
Definition finalized (start : nat) c (block : Z) : Prop :=
  exists n number, in_round start c n /\ FinalizedBlock n = Some number /\ block <= u64 number.
(** Where the finalized block is unknown, the block has the confirmations. *)
Definition buried (start : nat) c (block confirmations : Z) : Prop :=
  exists n number, in_round start c n /\ in_round start c (S n) /\ FinalizedBlock n = None /\
    LatestBlock (S n) = Ok (Some number) /\ block + confirmations <= u64 number.

Definition confirmed (start : nat) c (tx : bytes) (confirmations : Z) (receipt : MReceipt) : Prop :=
  answered start c tx receipt /\
  exists number, mr_BlockNumber receipt = Some number /\
    (finalized start c (u64 number) \/ buried start c (u64 number) confirmations).

(** ** The caches of the round *)

Record round_inv (start : nat) c : Prop := {
  ri_calls : (start <= cc_calls c)%nat;
  ri_receipts : forall tx receipt, prefetchedReceipts c !! tx = Some receipt -> answered start c tx receipt;
  ri_header : forall number, finalizedHeaderCache c = Some number ->
    exists n, in_round start c n /\ FinalizedBlock n = Some number;
}.

Lemma in_round_mono start c c' n : (cc_calls c <= cc_calls c')%nat -> in_round start c n -> in_round start c' n.
Proof. unfold in_round. lia. Qed.
Lemma answered_mono start c c' tx receipt : (cc_calls c <= cc_calls c')%nat ->
  answered start c tx receipt -> answered start c' tx receipt.
Proof. intros Hle (n & Hn & H). exists n. eauto using in_round_mono. Qed.

Lemma round_inv_called start c : round_inv start c -> round_inv start (called c).
Proof.
  intros [H1 H2 H3]. split; cbn [cc_calls called prefetchedReceipts finalizedHeaderCache]; [lia| |].
  - intros tx receipt H. eapply answered_mono, H2, H. cbn. lia.
  - intros number H. destruct (H3 number H) as (n & Hn & E). exists n. split; [|done].
    eapply in_round_mono, Hn. cbn. lia.
Qed.
Lemma round_inv_begin c : round_inv (cc_calls c) (BeginPrefetchRound c).
Proof. by split. Qed.

(** The receipts of a batch are its answers. *)
Lemma collect_receipts_lookup txHashes batch results tx receipt :
  collect_receipts results txHashes batch !! tx = Some receipt ->
  results !! tx = Some receipt \/ exists i, txHashes !! i = Some tx /\ batch !! i = Some (Some receipt).
Proof.
  revert batch results. induction txHashes as [|h txHashes IH]; intros [|elem batch] results; cbn [collect_receipts]; eauto.
  intros H. apply IH in H as [H|(i & H1 & H2)]; [|by right; exists (S i)].
  destruct elem as [r|]; [|by left]. destruct (mr_BlockNumber r); [|by left].
  destruct (decide (h = tx)) as [->|Hne]; [|rewrite lookup_insert_ne in H by done; by left].
  rewrite lookup_insert_eq in H. injection H as ->. right. by exists 0%nat.
Qed.

Lemma prefetch_round start c txHashes : round_inv start c -> round_inv start (PrefetchReceipts c txHashes).
Proof.
  intros H. unfold PrefetchReceipts, BatchGetMainChainTxReceipts. destruct (_ =? _)%nat; [done|].
  pose proof (round_inv_called _ _ H) as [H1 H2 H3]. split; [done| |done].
  intros tx receipt. cbn [with_receipts prefetchedReceipts].
  destruct (BatchReceipts (cc_calls c) txHashes) as [batch|e|] eqn:E; [|by rewrite lookup_empty..].
  intros [Hl|(i & Hi & Hb)]%collect_receipts_lookup; [by rewrite lookup_empty in Hl|].
  exists (cc_calls c). split; [destruct H; unfold in_round; cbn; lia|]. right. eauto 6.
Qed.

Lemma fetch_round start c c' tx q : round_inv start c -> getOrFetchReceipt c tx = (c', q) ->
  round_inv start c' /\ (cc_calls c <= cc_calls c')%nat /\ forall receipt, q = Ok receipt -> answered start c' tx receipt.
Proof.
  intros HI. unfold getOrFetchReceipt. destruct (prefetchedReceipts c !! tx) as [r|] eqn:E; intros [= <- <-].
  - split_and!; [done..|]. intros receipt [= <-]. by apply HI.
  - split_and!; [by apply round_inv_called|cbn; lia|]. intros receipt H. ok_inv H.
    destruct HI. exists (cc_calls c). split; [unfold in_round; cbn; lia|]. left. unfold of_option in H.
    by destruct a; simplify_eq.
Qed.

(** ** A confirmed receipt *)

Lemma confirmed_round start c c' tx confirmations q : 0 <= confirmations -> round_inv start c ->
  GetConfirmedTxReceipt_call c tx confirmations = (c', q) ->
  round_inv start c' /\ forall receipt, q = Ok receipt -> confirmed start c' tx confirmations receipt.
Proof.
  intros Hconf HI. unfold GetConfirmedTxReceipt_call. destruct (getOrFetchReceipt c tx) as [c1 q1] eqn:E1.
  destruct (fetch_round _ _ _ _ _ HI E1) as (HI1 & Hle & Ha). destruct q1 as [receipt|e|]; [|by intros [= <- <-]..].
  specialize (Ha receipt eq_refl). destruct (mr_BlockNumber receipt) as [block|] eqn:Eb; [|by intros [= <- <-]].
  destruct (match finalizedHeaderCache c1 with Some number => _ | None => _ end) eqn:Ecache.
  { intros [= <- <-]. split; [done|]. intros ? [= <-]. split; [done|]. exists block. split; [done|]. left.
    destruct (finalizedHeaderCache c1) as [number|] eqn:Eh; [|done]. bool_hyps.
    destruct (ri_header _ _ HI1 number Eh) as (n & Hn & Ef). exists n, number. done. }
  pose proof (round_inv_called _ _ HI1) as HI2.
  assert (in_round start (called c1) (cc_calls c1)) as Hin by (destruct HI1; unfold in_round; cbn; lia).
  destruct (FinalizedBlock (cc_calls c1)) as [number|] eqn:Ef.
  - intros [= <- <-]. split.
    { split; [apply HI2|apply HI2|]. cbn. intros ? [= <-]. eauto. }
    intros r. destruct (Z.ltb_spec (u64 number) (u64 block)); [done|]. intros [= <-].
    split; [eapply answered_mono, Ha; cbn; lia|]. exists block. split; [done|]. left. exists (cc_calls c1), number. done.
  - unfold confirmed_by_depth. intros [= <- <-]. split; [by apply round_inv_called|].
    intros r H. ok_inv H. unfold of_option in *. destruct a as [latest|]; simplify_eq. bool_hyps.
    split; [eapply answered_mono, Ha; cbn; lia|]. exists block. split; [done|]. right.
    exists (cc_calls c1), a0. destruct HI1. split_and!; try done; [unfold in_round; cbn; lia..|].
    pose proof (u64_range a0) as Hu0. pose proof (u64_range block) as Hblock. unfold in_u64 in *.
    rewrite u64_id in * by (unfold in_u64; lia). lia.
Qed.

(** ** A round *)

Inductive RoundOp := Prefetch (txHashes : list bytes) | Confirm (tx : bytes) (confirmations : Z).
Definition round_step c (op : RoundOp) : ContractCaller :=
  match op with
  | Prefetch txHashes => PrefetchReceipts c txHashes
  | Confirm tx confirmations => (GetConfirmedTxReceipt_call c tx confirmations).1
  end.
Definition confirmations_ok (op : RoundOp) : Prop :=
  match op with Prefetch _ => True | Confirm _ confirmations => 0 <= confirmations end.
Definition round (c : ContractCaller) (ops : list RoundOp) : ContractCaller := fold_left round_step ops (BeginPrefetchRound c).

Lemma round_inv_of c ops : Forall confirmations_ok ops -> round_inv (cc_calls c) (round c ops).
Proof.
  unfold round. generalize (round_inv_begin c). generalize (BeginPrefetchRound c). generalize (cc_calls c).
  induction ops as [|op ops IH]; intros start c' HI H; [done|]. apply Forall_cons in H as [Hop H].
  cbn [fold_left]. apply IH; [|done]. destruct op as [txHashes|tx confirmations]; cbn [round_step].
  - by apply prefetch_round.
  - destruct (GetConfirmedTxReceipt_call c' tx confirmations) as [c2 q] eqn:E. cbn [fst].
    by destruct (confirmed_round start c' c2 tx confirmations q Hop HI E).
Qed.
End rounds.

(** ** The votes of the side handlers *)

Section votes.
Context {AC : AddressCodec} {SA : SdkAddress} {EA : EthAddress} {HF : HashFunction} {ML : MerkleLibrary}.
Context {MC : MainChainClient} {EU : EventUnpackers} {BC : BorChain} {BN : BorNode} {RC : RootChain}.

(** The event a message claims: the hash of its transaction, its contract, the number of
    its block and the index of its log. *)
Record EventClaim := { ec_tx : bytes; ec_contract : string; ec_block : Z; ec_index : Z }.
Definition event_claim (params : ChainManagerParams) (m : AppMsg) : option EventClaim :=
  let claim tx contract block index :=
    Some {| ec_tx := BytesToHash tx; ec_contract := contract; ec_block := block; ec_index := index |} in
  match m with
  | AStake (MValidatorJoin m) => claim (vj_TxHash m) (StakingInfoAddress params) (vj_BlockNumber m) (vj_LogIndex m)
  | AStake (MStakeUpdate m) => claim (su_TxHash m) (StakingInfoAddress params) (su_BlockNumber m) (su_LogIndex m)
  | AStake (MSignerUpdate m) => claim (sg_TxHash m) (StakingInfoAddress params) (sg_BlockNumber m) (sg_LogIndex m)
  | AStake (MValidatorExit m) => claim (ve_TxHash m) (StakingInfoAddress params) (ve_BlockNumber m) (ve_LogIndex m)
  | AClerk m => claim (HexToHash (me_TxHash m)) (StateSenderAddress params) (me_BlockNumber m) (me_LogIndex m)
  | ATopup m => claim (tt_TxHash m) (StakingInfoAddress params) (tt_BlockNumber m) (tt_LogIndex m)
  | _ => None
  end.

(** The claimed event is in a receipt of its transaction that the round confirmed. *)
Definition event_is_final (c : ContractCaller) (ops : list RoundOp) (confirmations : Z) (claim : EventClaim) : Prop :=
  exists receipt number vLog,
    confirmed (cc_calls c) (round c (ops ++ [Confirm (ec_tx claim) confirmations])) (ec_tx claim) confirmations receipt /\
    mr_BlockNumber receipt = Some number /\ u64 number = ec_block claim /\
    vLog ∈ mr_Logs receipt /\ u64 (ml_Index vLog) = ec_index claim /\ ml_Address vLog = HexToAddress (ec_contract claim).

Lemma decode_event_log {T} (unpack : MLog -> option T) contract receipt index ev :
  decode_event unpack contract receipt index = Some ev ->
  exists vLog, vLog ∈ mr_Logs receipt /\ u64 (ml_Index vLog) = index /\ ml_Address vLog = HexToAddress contract.
Proof.
  unfold decode_event. destruct (List.find _ _) as [vLog|] eqn:E; [|done]. intros _.
  apply find_some in E as [Hin Hb]. bool_hyps. exists vLog. split; [by apply list_elem_of_In|done].
Qed.

Lemma event_final {T} (unpack : MLog -> option T) c ops tx contract block index confirmations receipt ev :
  Forall confirmations_ok ops -> 0 <= confirmations ->
  GetConfirmedTxReceipt (ReceiptSource := caller_receipts (round c ops)) tx confirmations = Some receipt ->
  u64 (ReceiptBlockNumber (ReceiptSource := caller_receipts (round c ops)) receipt) = block ->
  decode_event unpack contract receipt index = Some ev ->
  event_is_final c ops confirmations {| ec_tx := BytesToHash tx; ec_contract := contract; ec_block := block; ec_index := index |}.
Proof.
  intros Hops Hconf Hr Hn Hev. apply decode_event_log in Hev as (vLog & Hin & Hidx & Haddr).
  cbn [GetConfirmedTxReceipt caller_receipts ReceiptBlockNumber] in Hr, Hn.
  destruct (GetConfirmedTxReceipt_call (round c ops) (BytesToHash tx) confirmations) as [c' q] eqn:E. cbn [snd] in Hr.
  destruct q as [r|e|]; [|done..]. injection Hr as ->.
  destruct (confirmed_round _ _ _ _ _ _ Hconf (round_inv_of c ops Hops) E) as [_ Hc]. specialize (Hc receipt eq_refl).
  pose proof (proj2 Hc) as (number & Hnum & _). rewrite Hnum in Hn. cbn in Hn.
  exists receipt, number, vLog. cbn [ec_tx ec_block ec_index ec_contract]. split; [|done].
  unfold round at 1. rewrite fold_left_app. cbn [fold_left round_step]. fold (round c ops). by rewrite E.
Qed.

Context {B : Type} {FB : FeeBank B}.

(** C35: a validator votes yes on a message that claims an event of the main chain
    only for an event it can rely on: the receipt of the claimed transaction was
    answered by the main chain in the same round of extending the vote, its block has
    the claimed number and is final - not after a finalized block answered in the round
    or, where the chain tells none, under the required number of confirmations -
    and it has a log of the right contract at the claimed index.  So it is whatever
    the round prefetched and confirmed before. *)
Theorem main_chain_votes_are_final (cfg : Config) (ctx : Ctx) (env : Env) (s : AppState B) (m : AppMsg)
    (params : ChainManagerParams) (claim : EventClaim) (c : ContractCaller) (ops : list RoundOp) :
  Forall confirmations_ok ops -> 0 <= MainChainTxConfirmations params ->
  app_chain_params s = Some params -> event_claim params m = Some claim ->
  side_handler (RS := caller_receipts (round c ops)) (SE := caller_stake_events (round c ops))
    (CE := caller_clerk_events (round c ops)) (TE := caller_topup_events (round c ops)) cfg ctx env s m
    = Some (Ok VOTE_YES) ->
  event_is_final c ops (MainChainTxConfirmations params) claim.
Proof.
  intros Hops Hconf Hp Hclaim Hside.
  destruct m as [[m|m|m|m]| | | |m|m| | | |]; try discriminate Hclaim;
    cbn [event_claim] in Hclaim; injection Hclaim as <-; cbn [side_handler] in Hside; injection Hside as Hside; rewrite Hp in Hside.
  - apply side_join_yes in Hside as (_ & _ & _ & _ & p & [= <-] & r & ev & a & b & Hr & Hn & Hev & _).
    apply (event_final unpack_Staked _ _ _ _ _ _ _ r ev Hops Hconf Hr Hn Hev).
  - apply side_stake_update_yes in Hside as (_ & p & [= <-] & r & ev & Hr & Hn & Hev & _). apply (event_final unpack_StakeUpdate _ _ _ _ _ _ _ r ev Hops Hconf Hr Hn Hev).
  - apply side_signer_update_yes in Hside as (_ & p & [= <-] & r & ev & a & b & Hr & Hn & Hev & _). apply (event_final unpack_SignerChange _ _ _ _ _ _ _ r ev Hops Hconf Hr Hn Hev).
  - apply side_exit_yes in Hside as (_ & p & [= <-] & r & ev & Hr & Hn & Hev & _). apply (event_final unpack_UnstakeInit _ _ _ _ _ _ _ r ev Hops Hconf Hr Hn Hev).
  - apply side_event_yes in Hside as (_ & p & [= <-] & r & ev & a & Hr & Hn & Hev & _). apply (event_final unpack_StateSynced _ _ _ _ _ _ _ r ev Hops Hconf Hr Hn Hev).
  - unfold SideHandleTopupTx in Hside. yes_inv Hside. bool_hyps. simplify_eq.
    match goal with H : External.FetchAndValidateReceipt _ _ _ = Some _ |- _ => apply FetchAndValidateReceipt_some in H as [Hr Hn] end.
    match goal with H : DecodeValidatorTopupFeesEvent _ _ _ = Some ?ev |- _ => apply (event_final unpack_TopUpFee _ _ _ _ _ _ _ _ ev Hops Hconf Hr Hn H) end.
Qed.
End votes.

(** ** Witness *)

Module ReceiptsDemo.
Export AppDemo.

(** A chain that answers one receipt, in a batch; its block is 7. *)
Definition receipt_log : Z * string := (3, StakingInfoAddress demo_chain_params).
#[export] Instance client : MainChainClient := {|
  MReceipt := Z * list (Z * string); MLog := Z * string;
  mr_BlockNumber r := Some r.1; mr_Logs r := r.2; ml_Index l := l.1; ml_Address l := list_byte_of_string l.2;
  TransactionReceipt _ _ := Ok None;
  BatchReceipts _ txs := Ok (map (fun _ => Some (7, [(2, "0x99"%string); receipt_log])) txs);
  FinalizedBlock n := if (n =? 6)%nat then None else Some 9;
  LatestBlock _ := Ok (Some 500) |}.
#[export] Instance unpackers : EventUnpackers := {|
  unpack_Staked _ := None; unpack_StakeUpdate _ := None; unpack_SignerChange _ := None; unpack_UnstakeInit _ := None;
  unpack_StateSynced _ := None; unpack_TopUpFee _ := Some {| tf_User := "0xuser"; tf_Fee := 10 ^ 18 |} |}.
Definition caller : ContractCaller := {| cc_calls := 5; prefetchedReceipts := ∅; finalizedHeaderCache := Some 1000 |}.
Definition ops : list RoundOp := [Prefetch [tt_TxHash topup_msg; repeat Byte.x08 32]; Confirm (repeat Byte.x08 32) 6].
Definition fee_topup : MsgTopupTx :=
  {| tt_Proposer := "0xaa"; tt_User := "0xuser"; tt_Fee := 10 ^ 18; tt_TxHash := tt_TxHash topup_msg; tt_LogIndex := 3; tt_BlockNumber := 7 |}.

Lemma main_chain_votes_are_final_witness :
  event_is_final caller ops 6
    {| ec_tx := tt_TxHash topup_msg; ec_contract := StakingInfoAddress demo_chain_params; ec_block := 7; ec_index := 3 |}.
Proof.
  refine (main_chain_votes_are_final config (at_height 50) (env 0) application (ATopup fee_topup) demo_chain_params _ caller ops _ _ _ _ _).
  - repeat constructor; done.
  - done.
  - reflexivity.
  - vm_compute. reflexivity.
  - vm_compute. reflexivity.
Defined.
End ReceiptsDemo.
