(* ===== verification/PreBlock.v ===== *)
(** * The pre-blocker

    Models [PreBlocker] ([app/abci.go]): at the start of a block the votes of the
    previous height, which are its first transaction, decide on a milestone (or on
    the rotation of the span), on the side transactions of the previous block and
    on the signatures of a checkpoint; then the post-handlers of the approved
    transactions run.  No module registers a pre-blocker of its own, so
    [ModuleManager.PreBlock] changes nothing. *)
From S2P Require Import Prelude SortedList Helpers External VoteTypes ValidatorSet StakeKeeper StakeHandlers Milestone MilestoneVotes VoteExt Numerals Dividend Topup Clerk Checkpoint CheckpointHandlers NonRp BorTypes Selection BorKeeper BorHandlers Rotation App.
#[local] Open Scope Z_scope.

(** The migration that removes a milestone ([helper/config.go]). *)
Record MilestoneMigration := { milestoneDeletionHeight : Z; faultyMilestoneNumber : Z }.
(** [sdk.HexifyAddressBytes] *)
Class AddressHexifier := { HexifyAddressBytes : bytes -> outcome string }.

Record FinalizeRequest := { fb_Height : Z; fb_Txs : list bytes; fb_ProposerAddress : bytes }.

Definition delete_faulty_milestone (mig : MilestoneMigration) (height : Z) (ms : MilestoneState) : outcome MilestoneState :=
  if (height =? milestoneDeletionHeight mig) && negb (milestoneDeletionHeight mig =? -1) then
    let milestoneNumber := u64 (faultyMilestoneNumber mig) in
    match GetMilestoneByNumber ms milestoneNumber with
    | Panic => Panic
    | Err _ => Ok ms
    | Ok m =>
        if IsFaultyMilestone m then
          match DeleteMilestone ms milestoneNumber with (_, Panic) => Panic | (ms, _) => Ok ms end
        else Ok ms
    end
  else Ok ms.

(** The end and the hash of the last milestone. *)
Definition last_milestone_of (ms : MilestoneState) : outcome (option Z * bytes) :=
  if HasMilestone ms then m ← GetLastMilestone ms; Ok (Some (mi_EndBlock m), mi_Hash m) else Ok (None, []).

Section preblock.
Context {AC : AddressCodec} {VC : VoteCodec} {HF : HashFunction} {TL : TxLibrary}.
Context {SA : SdkAddress} {AH : AddressHexifier} {EA : EthAddress} {RSrc : RandSource}.
Context {B : Type} {BK : BankKeeper B} {FB : FeeBank B} (cfg : Config).

(** ** Milestones *)

(** Whether a proposition with the majority becomes a milestone: it is valid, and
    no span was created in the previous block. *)
Definition becomes_milestone (ctx : Ctx) (ms : MilestoneState) (bs : BorState) (prop : MilestoneProposition) : outcome bool :=
  let lastSpanHeimdallBlock := if IsRio cfg (StartBlockNumber prop) then GetLastSpanBlock bs else 0 in
  match ValidateMilestoneProposition ms (Some prop) with
  | Panic => Panic
  | Err _ => Ok false
  | Ok _ => Ok (negb (IsRio cfg (StartBlockNumber prop) && (BlockHeight ctx =? i64 (i64 lastSpanHeimdallBlock + 1))))
  end.

(** The milestone of a proposition, with what the votes and the chain add to it. *)
Definition milestone_record (ctx : Ctx) (params : ChainManagerParams) (prop : MilestoneProposition)
    (aggregatedProposers : bytes) (proposer : string) : outcome MilestoneRecord :=
  hash ← must (last (BlockHashes prop));
  td ← must (BlockTds prop !! (length (BlockHashes prop) - 1)%nat);
  Ok {| mi_Proposer := proposer; mi_StartBlock := StartBlockNumber prop; mi_EndBlock := proposition_end prop;
        mi_Hash := hash; mi_BorChainId := BorChainId params; mi_MilestoneId := Bytes2Hex aggregatedProposers;
        mi_Timestamp := u64 (BlockTime ctx); mi_TotalDifficulty := td |}.

(** The branch with a milestone. *)
Definition finalise_milestone (ctx : Ctx) (s : AppState B) (result : MajorityResult) : outcome (AppState B) :=
  let '(prop, aggregatedProposers, proposer, supportingValidatorIDs) := result in
  params ← of_option ErrNotFound (app_chain_params s);
  m ← milestone_record ctx params prop aggregatedProposers proposer;
  let ms := AddMilestone (app_milestone s) m in
  lastSpan ← GetLastSpan (app_bor s);
  let rio := IsRio cfg (u64 (span_StartBlock lastSpan + 1)) in
  let ms := if rio then SetLastMilestoneBlock ms (u64 (BlockHeight ctx)) else ms in
  let bs := if rio
            then updateBlockProducerStatus
                   (UpdateValidatorPerformanceScore (app_bor s) supportingValidatorIDs (Z.of_nat (length (BlockHashes prop))))
                   supportingValidatorIDs
            else app_bor s in
  bs ← checkAndAddFutureSpan cfg ctx (stake_of s) bs prop lastSpan supportingValidatorIDs;
  Ok (with_spans s ms bs).

(** The branch without one: the span may be rotated. *)
Definition without_milestone (iteration_order : gset string -> list string) (ctx : Ctx) (s : AppState B)
    (validatorSet : ValidatorSet) (extVoteInfo : list ExtendedVoteInfo) (totalVotingPower : Z)
    (lastEndBlock : option Z) (lastEndHash : bytes) : outcome (AppState B) :=
  let minMajorityVP := i64 (Z.quot totalVotingPower 3 + 1) in
  pendingMilestone ← GetMajorityMilestoneProposition cfg iteration_order ctx validatorSet extVoteInfo minMajorityVP
                       lastEndBlock lastEndHash;
  '(ms, bs) ← (match pendingMilestone with
               | None => checkAndRotateCurrentSpan cfg ctx (stake_of s) (app_milestone s) (app_bor s)
               | Some _ => handlePendingMilestone cfg ctx (stake_of s) (app_milestone s) (app_bor s) validatorSet
                             extVoteInfo minMajorityVP
               end);
  Ok (with_spans s ms bs).

(** The milestone part of the pre-blocker; the two aggregations may visit the parents
    in different orders. *)
Definition milestone_step (iteration_order : nat -> gset string -> list string) (ctx : Ctx) (s : AppState B)
    (validatorSet : ValidatorSet) (extVoteInfo : list ExtendedVoteInfo) : outcome (AppState B) :=
  '(lastEndBlock, lastEndHash) ← last_milestone_of (app_milestone s);
  '(totalVotingPower, validatorSet) ← GetTotalVotingPower validatorSet;
  let majorityVP := i64 (Z.quot (i64 (totalVotingPower * 2)) 3 + 1) in
  majorityMilestone ← GetMajorityMilestoneProposition cfg (iteration_order 0%nat) ctx validatorSet extVoteInfo majorityVP
                        lastEndBlock lastEndHash;
  (match majorityMilestone with
   | None => Ok false
   | Some r => becomes_milestone ctx (app_milestone s) (app_bor s) r.1.1.1
   end) ≫= fun isValidMilestone : bool =>
  match majorityMilestone with
  | Some r => if isValidMilestone then finalise_milestone ctx s r
              else without_milestone (iteration_order 1%nat) ctx s validatorSet extVoteInfo totalVotingPower lastEndBlock lastEndHash
  | None => without_milestone (iteration_order 1%nat) ctx s validatorSet extVoteInfo totalVotingPower lastEndBlock lastEndHash
  end.

(** ** The signatures of a checkpoint

    The text of the hash of the checkpoint transaction that the majority signed for,
    empty when there is none. *)
Definition store_signatures (ctx : Ctx) (height : Z) (cs : CheckpointState) (validatorSet : ValidatorSet)
    (extVoteInfo : list ExtendedVoteInfo) (approvedTxsMap : gset string) (txs : list bytes)
    : outcome (CheckpointState * string) :=
  match getMajorityNonRpVoteExtension cfg ctx extVoteInfo validatorSet with
  | Panic => Panic
  | Err e => if IsPhuketHardfork cfg height then Ok (cs, EmptyString) else Err e
  | Ok majorityExt =>
      if (length majorityExt <? 2)%nat then Ok (cs, EmptyString)
      else
        checkpointTxHash ← findCheckpointTx txs (drop 1 majorityExt);
        if String.eqb checkpointTxHash "" then Ok (cs, checkpointTxHash)
        else if bool_decide (checkpointTxHash ∈ approvedTxsMap) then
          Ok (SetCheckpointSignatures (SetCheckpointSignaturesTxHash cs checkpointTxHash)
                (getCheckpointSignatures cfg height majorityExt extVoteInfo), checkpointTxHash)
        else Ok (cs, checkpointTxHash)
  end.

(** ** Post-handlers *)

(** The messages of an approved transaction: the first one with a post-handler is
    executed, on a cached store that is written when it succeeds; a checkpoint only
    when its transaction is the one that was signed for. *)
Fixpoint execute_msgs (ctx : Ctx) (env : Env) (checkpointTxHash txHash : string) (s : AppState B) (msgs : list AppMsg)
    : outcome (AppState B) :=
  match msgs with
  | [] => Ok s
  | m :: rest =>
      if IsCheckpointMsg m && negb (String.eqb checkpointTxHash txHash)
      then execute_msgs ctx env checkpointTxHash txHash s rest
      else match post_handler cfg ctx env s m VOTE_YES with
           | None => execute_msgs ctx env checkpointTxHash txHash s rest
           | Some (Ok s) => Ok s
           | Some (Err _) => Ok s
           | Some Panic => Panic
           end
  end.
Fixpoint execute_txs (ctx : Ctx) (env : Env) (approvedTxsMap : gset string) (checkpointTxHash : string) (s : AppState B)
    (txs : list bytes) : outcome (AppState B) :=
  match txs with
  | [] => Ok s
  | rawTx :: rest =>
      msgs ← of_option (ErrText "decoding tx bytes") (TxDecode rawTx);
      let txHash := Bytes2Hex (tx_hash rawTx) in
      s ← (if bool_decide (txHash ∈ approvedTxsMap) then execute_msgs ctx env checkpointTxHash txHash s msgs else Ok s);
      execute_txs ctx env approvedTxsMap checkpointTxHash s rest
  end.

(** ** The whole *)

(** What follows once the votes are enabled: [txs] are the transactions of the block
    after the votes. *)
Definition process_votes (iteration_order : nat -> gset string -> list string) (ctx : Ctx) (env : Env) (s : AppState B)
    (height : Z) (proposer : bytes) (txs : list bytes) (extVoteInfo : list ExtendedVoteInfo) : outcome (AppState B) :=
  lastBlockTxs ← GetLastBlockTxs (app_stake s);
  let s := with_stake s (SetLastBlockTxs (app_stake s) txs) (app_bank s) in
  validatorSet ← getValidatorSetForHeight cfg (app_stake s) height;
  s ← milestone_step iteration_order ctx s validatorSet extVoteInfo;
  '(approvedTxs, _, _) ← tallyVotes cfg extVoteInfo validatorSet height;
  let approvedTxsMap := list_to_set (map Bytes2Hex approvedTxs) in
  '(cs, checkpointTxHash) ← store_signatures ctx height (app_checkpoint s) validatorSet extVoteInfo approvedTxsMap lastBlockTxs;
  s ← execute_txs ctx env approvedTxsMap checkpointTxHash (with_checkpoint s cs (app_stake s)) lastBlockTxs;
  addr ← HexifyAddressBytes proposer;
  account ← AccAddressFromHex addr;
  Ok (SetBlockProposer s account).

Definition PreBlocker (mig : MilestoneMigration) (iteration_order : nat -> gset string -> list string) (ctx : Ctx)
    (ch : ChainInfo) (env : Env) (s : AppState B) (req : FinalizeRequest) : outcome (AppState B) :=
  checkIfVoteExtensionsDisabled ch (i64 (fb_Height req + 1)) ≫= fun _ =>
  ms ← delete_faulty_milestone mig (fb_Height req) (app_milestone s);
  let s := with_spans s ms (app_bor s) in
  let s := if IsZurichHardfork cfg (fb_Height req)
           then with_clerk s (StoreBlockTime ctx (ProcessPendingVisibilityEvents ctx (app_clerk s))) else s in
  match fb_Txs req with
  | [] => Err (ErrText "no txs found in the pre-blocker")
  | bz :: txs =>
      '(extVoteInfo, _) ← of_option (ErrText "unmarshalling ExtendedCommitInfo") (unmarshal_commit bz);
      if fb_Height req <=? VoteExtensionsEnableHeight ch then
        return_if negb (length extVoteInfo =? 0)%nat with ErrText "non-empty VEs found in the initial height's pre-blocker" ;;
        Ok s
      else process_votes iteration_order ctx env s (fb_Height req) (fb_ProposerAddress req) txs extVoteInfo
  end.
End preblock.
