(* ===== verification/PreBlockCorrect.v ===== *)
(** * Correctness of the pre-blocker

    Milestones only advance and each is backed by more than two thirds of the
    power; the post-handlers that run are those of the side transactions that more
    than two thirds of the power approved. *)
From S2P Require Import Prelude SortedList Helpers External ValidatorSet ValidatorSetFacts VoteTypes StakeKeeper StakeHandlers Milestone MilestoneVotes MilestoneCollect MilestoneCorrect MilestoneFinality VoteExt VoteExtCorrect Numerals Dividend Topup TopupCorrect Clerk Checkpoint CheckpointHandlers CheckpointCorrect NonRp BorTypes Selection BorKeeper BorHandlers Rotation App Proposal AppDemo PreBlock.
#[local] Open Scope Z_scope.

(** ** The range of a milestone *)

Section range.
Context {AC : AddressCodec} {VC : VoteCodec} {HF : HashFunction} (cfg : Config).

(** The blocks the votes agree on do not reach the end of the 64-bit range. *)
Lemma majority_range order ctx vs votes m lastEnd lastHash prop agg proposer ids :
  codec_ok -> wf vs ->
  GetMajorityMilestoneProposition cfg order ctx vs votes m lastEnd lastHash = Ok (Some (prop, agg, proposer, ids)) ->
  in_u64 (StartBlockNumber prop) /\ BlockHashes prop <> [] /\
  StartBlockNumber prop + Z.of_nat (length (BlockHashes prop)) <= MaxUint64.
Proof.
  intros HC Hwf H.
  destruct (majority_result _ _ _ _ _ _ _ _ _ _ _ _ HC Hwf H)
    as (c0 & bs & blocks0 & Hbs & Hsame & Ebl0 & Hne & Hin & _ & _ & _ & _).
  unfold GetMajorityMilestoneProposition in H. ok_step H. rename a into c.
  destruct (majority_blocks c m) as [|first rest] eqn:Emb; [done|].
  set (start := match lastEnd with Some e => if u64 (e + 1) <? first then first else u64 (e + 1) | None => 0 end) in *.
  destruct (negb (bool_decide _)) eqn:Est; [done|]. apply negb_false_iff, bool_decide_eq_true in Est.
  destruct (negb (parent_supported _ _ _ _ _ _ _ _)); [done|].
  destruct (blocks_between _ start _) as [blocks|] eqn:Ebl; [|done].
  destruct (_ <? m); [done|]. destruct (sort_by _ _) as [|pr ranked]; [done|].
  destruct (split_all _) as [[hs tds]| |] eqn:Esp; [|done..]. cbn [mbind outcome_bind] in H. injection H as <- <- <- <-.
  cbn [StartBlockNumber BlockHashes] in *.
  assert (in_u64 start) as Hsu.
  { apply majority_blocks_elem in Hin as (p & E & _).
    assert (keys_u64 (fold_left collect_ballot bs empty_collected)) as Hk.
    { apply keys_u64_ballots; [|by eapply ballots_u64]. intros b Hb. cbn in Hb. rewrite lookup_empty in Hb. by destruct Hb. }
    apply Hk. destruct Hsame as [<- _]. rewrite E. eauto. }
  destruct (split_all_ok _ _ _ Esp) as (L1 & _ & _). rewrite length_map in L1.
  pose proof (blocks_between_seq _ _ _ _ Hsu Ebl) as Eseq. rewrite Eseq, length_seqZ in L1.
  split; [done|]. split; [intros ->; apply Hne; rewrite Ebl0; done|].
  set (e := range_end start (first :: rest)) in *.
  destruct (Z.le_gt_cases MaxUint64 e) as [He|He]; [by rewrite blocks_between_max in Ebl|].
  destruct hs as [|h hs]; [exfalso; apply Hne; rewrite Ebl0; done|]. cbn [length] in *. lia.
Qed.
End range.

(** ** The store of milestones *)

(** The milestones are numbered from 1 to the count, each is a range of blocks
    below the end of the 64-bit range, and each starts after those before it end. *)
Record milestones_ok (ms : MilestoneState) : Prop := {
  mo_numbers n : is_Some (milestone ms !! n) <-> 1 <= n <= GetMilestoneCount ms;
  mo_count : 0 <= GetMilestoneCount ms;
  mo_range n m : milestone ms !! n = Some m -> 0 <= mi_StartBlock m <= mi_EndBlock m /\ mi_EndBlock m < MaxUint64 /\ n <= mi_EndBlock m + 1;
  mo_order i j m m' : i < j -> milestone ms !! i = Some m -> milestone ms !! j = Some m' -> mi_EndBlock m < mi_StartBlock m';
}.
Definition same_milestones (ms ms' : MilestoneState) : Prop :=
  milestone ms' = milestone ms /\ milestone_count ms' = milestone_count ms.

Lemma milestones_ok_same ms ms' : same_milestones ms ms' -> milestones_ok ms -> milestones_ok ms'.
Proof.
  intros [E1 E2] [H1 H2 H3 H4]. assert (GetMilestoneCount ms' = GetMilestoneCount ms) as E by (unfold GetMilestoneCount; by rewrite E2).
  split; rewrite ?E1, ?E; done.
Qed.

(** Adding a milestone after the last one. *)
Lemma milestones_ok_add ms m : milestones_ok ms ->
  0 <= mi_StartBlock m <= mi_EndBlock m -> mi_EndBlock m < MaxUint64 ->
  (forall l, GetLastMilestone ms = Ok l -> mi_EndBlock l < mi_StartBlock m) ->
  milestones_ok (AddMilestone ms m) /\ GetMilestoneCount (AddMilestone ms m) = GetMilestoneCount ms + 1 /\
  milestone (AddMilestone ms m) = <[GetMilestoneCount ms + 1 := with_mi_proposer m (FormatAddress (mi_Proposer m))]> (milestone ms).
Proof.
  intros [Hn Hc Hr Ho] Hm Hmax Hlast. set (c := GetMilestoneCount ms) in *.
  assert (c = 0 \/ exists l, milestone ms !! c = Some l /\ mi_EndBlock l < mi_StartBlock m) as Hl.
  { destruct (Z.eq_dec c 0); [by left|]. right. destruct (proj2 (Hn c)) as [l El]; [lia|]. exists l. split; [done|].
    apply Hlast. unfold GetLastMilestone, GetMilestoneByNumber. fold c. rewrite (proj2 (Z.eqb_neq c 0)) by done.
    cbn [fail_if]. by rewrite El. }
  assert (c <= mi_EndBlock m) as Hle.
  { destruct Hl as [->|(l & El & Hlt)]; [lia|]. destruct (Hr _ _ El) as (? & ? & ?). lia. }
  assert (u64 (c + 1) = c + 1) as Eu by (apply u64_id; unfold in_u64; lia).
  assert (GetMilestoneCount (AddMilestone ms m) = c + 1) as Ec by (cbn; exact Eu).
  assert (milestone (AddMilestone ms m) = <[c + 1 := with_mi_proposer m (FormatAddress (mi_Proposer m))]> (milestone ms)) as Em
    by (unfold AddMilestone; cbn; fold c; by rewrite Eu).
  split; [|done]. assert (forall i l, milestone ms !! i = Some l -> i <= c) as Hic by (intros i l Ei; apply Hn; eauto).
  split; rewrite ?Ec, ?Em; [| lia | |].
  - intros n. rewrite lookup_insert_is_Some. rewrite Hn. split; [intros [<-|[? ?]]; lia|]. intros ?. destruct (Z.eq_dec (c + 1) n); [by left|right; split; [done|lia]].
  - intros n k. rewrite lookup_insert_Some. intros [[<- <-]|[_ E]]; [cbn; lia|by apply Hr].
  - intros i j k k' Hij. rewrite !lookup_insert_Some. intros [[<- <-]|[_ Ei]] [[<- <-]|[_ Ej]].
    + lia.
    + apply Hic in Ej. lia.
    + cbn [mi_StartBlock with_mi_proposer]. destruct Hl as [E0|(l & El & Hlt)]; [apply Hic in Ei as Hi; destruct (proj1 (Hn i)) as [? ?]; [eauto|lia]|].
      apply Hic in Ei as Hi. destruct (Z.eq_dec i c) as [->|Hne]; [congruence|].
      assert (mi_EndBlock k < mi_StartBlock l) by (eapply Ho; [|exact Ei|exact El]; lia). destruct (Hr _ _ El). lia.
    + by eapply Ho.
Qed.

(** ** What leaves the milestones alone *)

Lemma debounce_same cfg ctx ms h : same_milestones ms (debouncePendingStallClock cfg ctx ms h).
Proof. unfold debouncePendingStallClock. destruct (negb _); [done|]. cbn. by destruct (_ =? 0). Qed.

Section frame.
Context {K : Type} {SK : StakeKeeperI K} (cfg : Config).

Lemma rotate_current_same ctx (sk : K) ms bs m ms' bs' : rotate_current_span cfg ctx sk ms bs m = Ok (ms', bs') -> same_milestones ms ms'.
Proof.
  unfold rotate_current_span. intros E. ok_step E. ok_step E. ok_step E. ok_step E.
  destruct (AddNewVeBlopSpan _ _ _ _ _ _ _ _ _ _ _ _ _); [|by injection E as <- <-|done]. injection E as <- <-.
  destruct (debounce_same cfg ctx (SetLastMilestoneBlock ms (debounce_height cfg ctx)) (debounce_height cfg ctx)) as [E1 E2]. by split.
Qed.
Lemma checkAndRotate_same ctx (sk : K) ms bs ms' bs' : checkAndRotateCurrentSpan cfg ctx sk ms bs = Ok (ms', bs') -> same_milestones ms ms'.
Proof.
  unfold checkAndRotateCurrentSpan. intros E. ok_step E. destruct a as [m|]; [|by injection E as <- <-].
  destruct (_ && _); [by eapply rotate_current_same|by injection E as <- <-].
Qed.
Lemma rotate_pending_same ctx (sk : K) ms bs h hid ms' bs' : rotateSpanFromPendingHead cfg ctx sk ms bs h hid = Ok (ms', bs') -> same_milestones ms ms'.
Proof.
  unfold rotateSpanFromPendingHead. intros E. ok_step E. destruct (_ <? h); [by injection E as <- <-|].
  destruct (h =? MaxUint64); [by injection E as <- <-|]. ok_step E. ok_step E. destruct a1; [|by injection E as <- <-].
  ok_step E. destruct (AddNewVeBlopSpan _ _ _ _ _ _ _ _ _ _ _ _ _); [|by injection E as <- <-|done].
  unfold recordPendingStallRotation in E. by injection E as <- <-.
Qed.
Lemma handle_pending_same {AC : AddressCodec} {VC : VoteCodec} ctx (sk : K) ms bs vs votes m ms' bs' :
  handlePendingMilestone cfg ctx sk ms bs vs votes m = Ok (ms', bs') -> same_milestones ms ms'.
Proof.
  unfold handlePendingMilestone. destruct (IsIthaca _ _); [|by intros [= <- <-]]. intros E. ok_step E. ok_step E.
  destruct a0 as [[h hh] found]. destruct (negb found); [by injection E as <- <-|]. revert E. unfold checkAndRotateOnPendingStall.
  cbn. destruct (_ || _); [by intros [= <- <-]|]. destruct (_ <=? _); [by intros [= <- <-]|]. apply rotate_pending_same.
Qed.
End frame.

Section milestones.
Context {AC : AddressCodec} {VC : VoteCodec} {HF : HashFunction} {TL : TxLibrary}.
Context {SA : SdkAddress} {AH : AddressHexifier} {EA : EthAddress} {RSrc : RandSource}.
Context {B : Type} {BK : BankKeeper B} {FB : FeeBank B} (cfg : Config).

(** Distinct validators with more than two thirds of the power voted for exactly the
    blocks of the milestone, the last of which it records. *)
Definition backed (ctx : Ctx) (vs : ValidatorSet) (votes : list ExtendedVoteInfo) (m : MilestoneRecord) : Prop :=
  exists bs sup hashes tds, ballots_of cfg ctx vs ∅ votes = Ok bs /\ NoDup (map b_addr bs) /\ sup ⊆+ bs /\
    2 * powers (Validators vs) < 3 * Zsum (map b_power sup) /\
    (forall b, b ∈ sup -> agrees (mi_StartBlock m) hashes tds b) /\
    last hashes = Some (mi_Hash m) /\ mi_EndBlock m = mi_StartBlock m + Z.of_nat (length hashes) - 1.

(** The milestones of a block: the same, or one more. *)
Definition milestones_step (ctx : Ctx) (ss : StakeState) (height : Z) (votes : list ExtendedVoteInfo) (ms ms' : MilestoneState) : Prop :=
  same_milestones ms ms' \/
  exists vs m, getValidatorSetForHeight cfg ss height = Ok vs /\ backed ctx vs votes m /\
    GetMilestoneCount ms' = GetMilestoneCount ms + 1 /\ milestone ms' = <[GetMilestoneCount ms + 1 := m]> (milestone ms).

Lemma milestone_record_ok ctx params prop agg proposer m : milestone_record ctx params prop agg proposer = Ok m ->
  mi_StartBlock m = StartBlockNumber prop /\ mi_EndBlock m = proposition_end prop /\ last (BlockHashes prop) = Some (mi_Hash m).
Proof. unfold milestone_record. intros E. ok_step E. ok_step E. injection E as <-. cbn. destruct (last _); [by injection Ha as ->|done]. Qed.

Lemma majority_power t : 0 <= t <= MaxTotalVotingPower -> i64 (Z.quot (i64 (t * 2)) 3 + 1) = 2 * t / 3 + 1.
Proof.
  intros Ht. pose proof MaxTotalVotingPower_eq. rewrite (i64_id (t * 2)) by (unfold in_i64, MinInt64, MaxInt64; lia).
  rewrite Z.quot_div_nonneg by lia. rewrite (Z.mul_comm t 2). apply i64_id.
  pose proof (Z.div_lt_upper_bound (2 * t) 3 (2 * t + 1)). pose proof (Z.div_pos (2 * t) 3).
  unfold in_i64, MinInt64, MaxInt64. lia.
Qed.

Lemma finalise_ok order ctx (s : AppState B) vs votes lastEnd lastHash r s' :
  codec_ok -> wf vs -> milestones_ok (app_milestone s) -> last_milestone_of (app_milestone s) = Ok (lastEnd, lastHash) ->
  GetMajorityMilestoneProposition cfg order ctx vs votes (2 * powers (Validators vs) / 3 + 1) lastEnd lastHash = Ok (Some r) ->
  finalise_milestone cfg ctx s r = Ok s' ->
  milestones_ok (app_milestone s') /\ exists m, backed ctx vs votes m /\
    GetMilestoneCount (app_milestone s') = GetMilestoneCount (app_milestone s) + 1 /\
    milestone (app_milestone s') = <[GetMilestoneCount (app_milestone s) + 1 := m]> (milestone (app_milestone s)).
Proof.
  destruct r as [[[prop agg] proposer] ids]. intros HC Hwf Hok Hlast Hmaj E.
  destruct (majority_range _ _ _ _ _ _ _ _ _ _ _ _ HC Hwf Hmaj) as (Hs & Hne & Hmax).
  destruct (finalised_support _ _ _ _ _ _ _ _ _ _ _ _ HC Hwf Hmaj) as (bs & sup & Hbs & ND & Hsub & Hpow & Hag & _ & _ & Hnext & _).
  unfold finalise_milestone in E. ok_step E. ok_step E. rename a0 into m. apply milestone_record_ok in Ha0 as (Es & Ee & Eh).
  ok_step E. ok_step E. injection E as <-. cbn [app_milestone with_spans].
  assert (0 < Z.of_nat (length (BlockHashes prop))) as Hlen by (destruct (BlockHashes prop); [done|cbn; lia]).
  assert (mi_EndBlock m = mi_StartBlock m + Z.of_nat (length (BlockHashes prop)) - 1) as Eend.
  { rewrite Ee, Es. unfold proposition_end, in_u64 in *. rewrite (u64_id (Z.of_nat _ - 1)) by (unfold in_u64; lia).
    rewrite u64_id by (unfold in_u64; lia). lia. }
  unfold in_u64 in Hs. destruct (milestones_ok_add (app_milestone s) m Hok) as (Hok' & Ec & Em); [lia|lia| |].
  { intros l El. unfold last_milestone_of in Hlast. destruct (HasMilestone (app_milestone s)) eqn:HM.
    - rewrite El in Hlast. cbn in Hlast. injection Hlast as <- <-. specialize (Hnext _ eq_refl).
      assert (exists n, milestone (app_milestone s) !! n = Some l) as [n En].
      { unfold GetLastMilestone in El. ok_step El. unfold GetMilestoneByNumber in El. apply of_option_ok in El. eauto. }
      destruct (mo_range _ Hok _ _ En) as (? & ? & _). rewrite u64_id in Hnext by (unfold in_u64; lia). lia.
    - unfold GetLastMilestone in El. ok_step El. unfold HasMilestone in HM. rewrite Hg in HM. done. }
  set (rio := IsRio cfg _). assert (same_milestones (AddMilestone (app_milestone s) m)
    (if rio then SetLastMilestoneBlock (AddMilestone (app_milestone s) m) (u64 (BlockHeight ctx)) else AddMilestone (app_milestone s) m)) as Hsame
    by (by destruct rio).
  split; [by eapply milestones_ok_same|]. exists (with_mi_proposer m (FormatAddress (mi_Proposer m))).
  destruct Hsame as [S1 S2]. split; [|split; [|by rewrite S1]].
  - exists bs, sup, (BlockHashes prop), (BlockTds prop). cbn [mi_StartBlock mi_EndBlock mi_Hash with_mi_proposer].
    split_and!; try done.
    + pose proof (two_thirds (powers (Validators vs)) (Zsum (map b_power sup)) (powers_nonneg _ (wf_power_nonneg _ Hwf))). lia.
    + intros b Hb. rewrite Es. apply Hag; [by eapply elem_of_submseteq|done].
  - unfold GetMilestoneCount in Ec |- *. by rewrite S2.
Qed.

Lemma without_milestone_ok order ctx (s : AppState B) vs votes total lastEnd lastHash s' :
  without_milestone cfg order ctx s vs votes total lastEnd lastHash = Ok s' -> same_milestones (app_milestone s) (app_milestone s').
Proof.
  unfold without_milestone. intros E. ok_step E. ok_step E. destruct a0 as [ms bs]. injection E as <-. cbn [app_milestone with_spans].
  destruct a; [by eapply handle_pending_same|by eapply checkAndRotate_same].
Qed.

(** The cached total does not matter to the ballots. *)
Lemma ballots_of_total ctx vs t votes : forall processed,
  ballots_of cfg ctx (with_total vs t) processed votes = ballots_of cfg ctx vs processed votes.
Proof.
  induction votes as [|v votes IH]; intros processed; cbn [ballots_of]; [done|].
  change (get_val (with_total vs t)) with (get_val vs).
  destruct (negb _); [apply IH|]. destruct (of_option _ _) as [ve| |]; [|done..]. cbn [mbind outcome_bind].
  destruct (vx_MilestoneProposition ve); [|apply IH]. destruct (BytesToString _) as [a| |]; [|done..]. cbn [mbind outcome_bind].
  destruct (bool_decide _); [apply IH|]. destruct (get_val vs a); by rewrite IH.
Qed.
Lemma backed_total ctx vs t votes m : backed ctx (with_total vs t) votes m -> backed ctx vs votes m.
Proof. intros (bs & sup & hs & tds & H & H'). exists bs, sup, hs, tds. by rewrite ballots_of_total in H. Qed.

Lemma milestone_step_ok order ctx (s : AppState B) vs votes s' : codec_ok -> wf vs -> milestones_ok (app_milestone s) ->
  milestone_step cfg order ctx s vs votes = Ok s' ->
  milestones_ok (app_milestone s') /\ (same_milestones (app_milestone s) (app_milestone s') \/
    exists m, backed ctx vs votes m /\ GetMilestoneCount (app_milestone s') = GetMilestoneCount (app_milestone s) + 1 /\
      milestone (app_milestone s') = <[GetMilestoneCount (app_milestone s) + 1 := m]> (milestone (app_milestone s))).
Proof.
  intros HC Hwf Hok E. unfold milestone_step in E. ok_step E. destruct a as [lastEnd lastHash].
  rewrite GetTotalVotingPower_wf in E by done. cbn [mbind outcome_bind] in E.
  rewrite majority_power in E by (split; [by apply powers_nonneg, wf_power_nonneg|by apply wf_sum]).
  ok_step E. rename a into r. ok_step E. rename a into valid.
  assert (forall vs' (k : AppState B), without_milestone cfg (order 1%nat) ctx s vs' votes (powers (Validators vs)) lastEnd lastHash = Ok k ->
    milestones_ok (app_milestone k) /\ (same_milestones (app_milestone s) (app_milestone k) \/
    exists m, backed ctx vs votes m /\ GetMilestoneCount (app_milestone k) = GetMilestoneCount (app_milestone s) + 1 /\
      milestone (app_milestone k) = <[GetMilestoneCount (app_milestone s) + 1 := m]> (milestone (app_milestone s)))) as Hsame.
  { intros vs' k Hk%without_milestone_ok. split; [by eapply milestones_ok_same|by left]. }
  destruct r as [r|]; [|by eapply Hsame]. destruct valid; [|by eapply Hsame].
  destruct (finalise_ok (order 0%nat) ctx s (with_total vs (powers (Validators vs))) votes lastEnd lastHash r s' HC) as [H1 (m & Hb & H2)];
    [by apply wf_with_total|done..|]. split; [done|]. right. exists m. split; [by eapply backed_total|done].
Qed.
End milestones.

(** ** The execution of the approved transactions *)

Section execution.
Context {AC : AddressCodec} {TL : TxLibrary} {SA : SdkAddress} {EA : EthAddress} {RSrc : RandSource}.
Context {B : Type} {BK : BankKeeper B} {FB : FeeBank B} (cfg : Config) (ctx : Ctx) (env : Env).

(** The message of a transaction that is executed: the first one with a post-handler,
    but a checkpoint only from the transaction that was signed for. *)
Definition due_msg (checkpointTxHash : string) (rawTx : bytes) : option AppMsg :=
  msgs ← TxDecode rawTx;
  List.find (fun m => has_side_handler m
                      && negb (IsCheckpointMsg m && negb (String.eqb checkpointTxHash (Bytes2Hex (tx_hash rawTx))))) msgs.
(** The messages to execute, in the order of the transactions. *)
Definition due (approved : gset string) (checkpointTxHash : string) (txs : list bytes) : list (bytes * AppMsg) :=
  omap (fun rawTx => if bool_decide (Bytes2Hex (tx_hash rawTx) ∈ approved)
                     then m ← due_msg checkpointTxHash rawTx; Some (rawTx, m) else None) txs.

(** Executing messages one after the other; the second list are those whose
    post-handler succeeded, the only ones that change the state. *)
Inductive executes : AppState B -> list (bytes * AppMsg) -> list (bytes * AppMsg) -> AppState B -> Prop :=
| executes_nil s : executes s [] [] s
| executes_ok s s1 s2 tx m l log : post_handler cfg ctx env s m VOTE_YES = Some (Ok s1) -> executes s1 l log s2 ->
    executes s ((tx, m) :: l) ((tx, m) :: log) s2
| executes_err s e s2 tx m l log : post_handler cfg ctx env s m VOTE_YES = Some (Err e) -> executes s l log s2 ->
    executes s ((tx, m) :: l) log s2.

(** What failed left no trace: the log alone leads to the same state. *)
Lemma executes_log s l log s2 : executes s l log s2 -> executes s log log s2 /\ sublist log l.
Proof.
  induction 1 as [s|s s1 s2 tx m l log H HE [IH1 IH2]|s e s2 tx m l log H HE [IH1 IH2]].
  - split; constructor.
  - split; [by econstructor|by constructor].
  - split; [done|by constructor].
Qed.

Lemma post_handler_registered s m v : post_handler cfg ctx env s m v = None <-> has_side_handler m = false.
Proof. by destruct m. Qed.

Lemma post_handler_milestones s m v s' : post_handler cfg ctx env s m v = Some (Ok s') -> app_milestone s' = app_milestone s.
Proof.
  destruct m; cbn [post_handler]; try done; intros [= E]; ok_step E;
    repeat match goal with x : _ * _ |- _ => destruct x end; by injection E as <-.
Qed.
Lemma executes_milestones s l log s2 : executes s l log s2 -> app_milestone s2 = app_milestone s.
Proof. induction 1; [done| |done]. apply post_handler_milestones in H. congruence. Qed.

Lemma execute_msgs_due cp hash s msgs s' : execute_msgs cfg ctx env cp hash s msgs = Ok s' ->
  match List.find (fun m => has_side_handler m && negb (IsCheckpointMsg m && negb (String.eqb cp hash))) msgs with
  | None => s' = s
  | Some m => post_handler cfg ctx env s m VOTE_YES = Some (Ok s') \/
              exists e, post_handler cfg ctx env s m VOTE_YES = Some (Err e) /\ s' = s
  end.
Proof.
  induction msgs as [|m msgs IH]; cbn [execute_msgs List.find]; [by intros [= <-]|].
  destruct (IsCheckpointMsg m && negb (String.eqb cp hash)) eqn:Ec; [by rewrite andb_false_r|]. cbn [negb]. rewrite andb_true_r.
  destruct (post_handler cfg ctx env s m VOTE_YES) as [r|] eqn:Ep.
  - assert (has_side_handler m = true) as -> by (destruct (has_side_handler m) eqn:E; [done|apply (post_handler_registered s m VOTE_YES) in E; congruence]).
    intros E. rewrite Ep. destruct r as [s1|e|]; [injection E as <-; by left|injection E as <-; by right; exists e|done].
  - apply post_handler_registered in Ep as ->. exact IH.
Qed.

Lemma execute_txs_executes approved cp txs : forall s s', execute_txs cfg ctx env approved cp s txs = Ok s' ->
  exists log, executes s (due approved cp txs) log s'.
Proof.
  induction txs as [|tx txs IH]; intros s s' E; cbn [execute_txs] in E; [injection E as <-; exists []; constructor|].
  ok_step E. apply of_option_ok in Ha. rename a into msgs. ok_step E. rename a into s1. apply IH in E as [log Hlog].
  unfold due in *. cbn [omap list_omap]. case_bool_decide; [|injection Ha0 as <-; by exists log].
  unfold due_msg at 1. rewrite Ha. cbn [mbind option_bind]. apply execute_msgs_due in Ha0.
  destruct (List.find _ msgs) as [m|]; [|subst s1; by exists log].
  destruct Ha0 as [Hp|(e & Hp & ->)]; eexists; econstructor; eassumption.
Qed.
End execution.

(** ** The parts of the pre-blocker *)

Section parts.
Context {AC : AddressCodec} {VC : VoteCodec} {HF : HashFunction} {TL : TxLibrary}.
Context {SA : SdkAddress} {AH : AddressHexifier} {EA : EthAddress} {RSrc : RandSource}.
Context {B : Type} {BK : BankKeeper B} {FB : FeeBank B} (cfg : Config).

Lemma process_votes_inv order ctx env (s s' : AppState B) height proposer txs votes :
  process_votes cfg order ctx env s height proposer txs votes = Ok s' ->
  exists lastTxs vs s1 a r k cs cp s2 account,
    GetLastBlockTxs (app_stake s) = Ok lastTxs /\ getValidatorSetForHeight cfg (app_stake s) height = Ok vs /\
    milestone_step cfg order ctx (with_stake s (SetLastBlockTxs (app_stake s) txs) (app_bank s)) vs votes = Ok s1 /\
    tallyVotes cfg votes vs height = Ok (a, r, k) /\
    store_signatures cfg ctx height (app_checkpoint s1) vs votes (list_to_set (map Bytes2Hex a)) lastTxs = Ok (cs, cp) /\
    execute_txs cfg ctx env (list_to_set (map Bytes2Hex a)) cp (with_checkpoint s1 cs (app_stake s1)) lastTxs = Ok s2 /\
    (addr ← HexifyAddressBytes proposer; AccAddressFromHex addr) = Ok account /\ s' = SetBlockProposer s2 account.
Proof.
  unfold process_votes. intros E. ok_step E. rename a into lastTxs. ok_step E. rename a into vs. ok_step E. rename a into s1.
  ok_step E. destruct a as [[a r] k]. ok_step E. destruct a0 as [cs cp]. ok_step E. rename a0 into s2.
  ok_step E. ok_step E. injection E as <-. exists lastTxs, vs, s1, a, r, k, cs, cp, s2, a1. by rewrite Ha5.
Qed.

(** The milestone part changes milestones and spans, nothing else. *)
Lemma milestone_step_writes order ctx (s : AppState B) vs votes s' : milestone_step cfg order ctx s vs votes = Ok s' ->
  exists ms bs, s' = with_spans s ms bs.
Proof.
  unfold milestone_step. intros E. ok_step E. destruct a as [lastEnd lastHash]. ok_step E. destruct a as [t vs']. ok_step E.
  ok_step E. rename a into r.
  assert (forall o v vts t, without_milestone cfg o ctx s v vts t lastEnd lastHash = Ok s' -> exists ms bs, s' = with_spans s ms bs)
    as Hwithout.
  { intros o v vts tot. unfold without_milestone. intros Ew. ok_step Ew. ok_step Ew. destruct a1 as [ms bs]. injection Ew as <-.
    by exists ms, bs. }
  destruct r as [r|]; [|by eapply Hwithout]. destruct a0; [|by eapply Hwithout].
  destruct r as [[[prop agg] proposer] ids]. unfold finalise_milestone in E. do 4 ok_step E. injection E as <-. eauto.
Qed.

(** The checkpoint transaction whose signatures are stored is named by the extension
    the majority signed. *)
Lemma store_signatures_named ctx height cs vs votes approved txs cs' cp :
  store_signatures cfg ctx height cs vs votes approved txs = Ok (cs', cp) ->
  cp = EmptyString \/ exists ext, getMajorityNonRpVoteExtension cfg ctx votes vs = Ok ext /\
    (2 <= length ext)%nat /\ findCheckpointTx txs (drop 1 ext) = Ok cp.
Proof.
  unfold store_signatures. destruct (getMajorityNonRpVoteExtension _ _ _ _) as [ext|e|]; [|destruct (IsPhuketHardfork _ _); [intros [= <- <-]; by left|done]|done].
  destruct (length ext <? 2)%nat eqn:El; [intros [= <- <-]; by left|]. apply Nat.ltb_ge in El. intros E. ok_step E.
  destruct (String.eqb a "") eqn:Ea; [injection E as <- <-; left; by apply String.eqb_eq|]. right. exists ext.
  destruct (bool_decide _); by injection E as <- <-.
Qed.

Lemma store_signatures_frame ctx height cs vs votes approved txs cs' cp :
  store_signatures cfg ctx height cs vs votes approved txs = Ok (cs', cp) ->
  checkpoints cs' = checkpoints cs /\ bufferedCheckpoint cs' = bufferedCheckpoint cs /\ ackCount cs' = ackCount cs.
Proof.
  unfold store_signatures. destruct (getMajorityNonRpVoteExtension _ _ _ _) as [ext|e|]; [|destruct (IsPhuketHardfork _ _); [by intros [= <- <-]|done]|done].
  destruct (length ext <? 2)%nat; [by intros [= <- <-]|]. intros E. ok_step E. destruct (String.eqb a ""); [by injection E as <- <-|].
  destruct (bool_decide _); by injection E as <- <-.
Qed.

(** The state in which the votes are processed. *)
Lemma preblock_inv mig order ctx ch env (s s' : AppState B) req :
  PreBlocker cfg mig order ctx ch env s req = Ok s' ->
  exists bz txs votes round ms ks, fb_Txs req = bz :: txs /\ unmarshal_commit bz = Some (votes, round) /\
    delete_faulty_milestone mig (fb_Height req) (app_milestone s) = Ok ms /\
    ks = (if IsZurichHardfork cfg (fb_Height req) then StoreBlockTime ctx (ProcessPendingVisibilityEvents ctx (app_clerk s))
          else app_clerk s) /\
    let s0 := with_clerk (with_spans s ms (app_bor s)) ks in
    if fb_Height req <=? VoteExtensionsEnableHeight ch then s' = s0
    else process_votes cfg order ctx env s0 (fb_Height req) (fb_ProposerAddress req) txs votes = Ok s'.
Proof.
  unfold PreBlocker. intros E. ok_step E. ok_step E. rename a0 into ms. destruct (fb_Txs req) as [|bz txs]; [done|].
  ok_step E. destruct a0 as [votes round]. apply of_option_ok in Ha1. cbn zeta.
  exists bz, txs, votes, round, ms.
  exists (if IsZurichHardfork cfg (fb_Height req) then StoreBlockTime ctx (ProcessPendingVisibilityEvents ctx (app_clerk s)) else app_clerk s).
  split; [done|]. split; [done|]. split; [done|]. split; [done|].
  assert (with_clerk (with_spans s ms (app_bor s)) (app_clerk s) = with_spans s ms (app_bor s)) as Eid by done.
  destruct (IsZurichHardfork cfg (fb_Height req)); rewrite ?Eid;
    (destruct (fb_Height req <=? _); [ok_step E; by injection E as <-|exact E]).
Qed.

Lemma process_votes_milestones order ctx env (s s' : AppState B) height proposer txs votes vs :
  codec_ok -> wf vs -> getValidatorSetForHeight cfg (app_stake s) height = Ok vs -> milestones_ok (app_milestone s) ->
  process_votes cfg order ctx env s height proposer txs votes = Ok s' ->
  milestones_ok (app_milestone s') /\ milestones_step cfg ctx (app_stake s) height votes (app_milestone s) (app_milestone s').
Proof.
  intros HC Hwf Hvs Hok E. apply process_votes_inv in E as (lastTxs & vs' & s1 & a & r & k & cs & cp & s2 & account & _ & Hvs' & Hm & _ & _ & Hx & _ & ->).
  rewrite Hvs in Hvs'. injection Hvs' as <-.
  apply execute_txs_executes in Hx as [log Hx%executes_milestones]. cbn [app_milestone with_checkpoint SetBlockProposer] in *. rewrite Hx.
  apply milestone_step_ok in Hm as [Hok' Hstep]; [|done..]. split; [done|].
  destruct Hstep as [Hs|(m & Hm)]; [by left|right; by exists vs, m].
Qed.

Lemma executes_votes_tallied (vs : ValidatorSet) votes height a r k :
  (forall h, h ∈ a <-> 2 * powers (Validators vs) < 3 * power_voting (side_ballots vs votes) h 1) ->
  tallyVotes cfg votes vs height = Ok (a, r, k) ->
  forall tx, Bytes2Hex (tx_hash tx) ∈ (list_to_set (map Bytes2Hex a) : gset string) <->
    2 * powers (Validators vs) < 3 * power_voting (side_ballots vs votes) (tx_hash tx) 1.
Proof.
  intros Ha _ tx. rewrite <- Ha, elem_of_list_to_set. change (map Bytes2Hex a) with (Bytes2Hex <$> a). rewrite list_elem_of_fmap. split.
  - intros (h & E & Hh). apply Bytes2Hex_inj in E. by subst h.
  - intros Hh. by exists (tx_hash tx).
Qed.

(** A block that the validators accepted has valid votes. *)
Lemma accepted_votes {R : Type} {TR : TxRunner R} {CL : ConsensusLayer} {BN : BorNode} clock caches ctx ch (s : AppState B) (run : R) req :
  ProcessProposal cfg clock caches ctx ch s run req = Ok true ->
  exists vs bz txs votes, getValidatorSetForHeight cfg (app_stake s) (rp_Height req) = Ok vs /\
    rp_Txs req = bz :: txs /\ unmarshal_commit bz = Some (votes, rp_Round req) /\
    ValidateVoteExtensions cfg ctx ch (app_milestone s) (rp_Height req) votes (rp_Round req) vs = Ok tt.
Proof.
  unfold ProcessProposal. intros E. ok_step E. rename a into vs. destruct (rp_Txs req) as [|bz txs]; [done|].
  destruct (unmarshal_commit bz) as [[votes round]|] eqn:Eu; [|done]. destruct (negb _) eqn:Er; [done|]. bool_hyps. subst round.
  destruct (if IsPhuketHardfork cfg (rp_Height req) then _ else _) as [[]| |]; [|done..]. cbn [or_reject] in E.
  destruct (ValidateVoteExtensions _ _ _ _ _ _ _ _) as [[]| |] eqn:Ev; [|done..]. by exists vs, bz, txs, votes.
Qed.

(** The state in which the votes of a block are processed. *)
Definition voting_state (ctx : Ctx) (s : AppState B) (height : Z) (ms : MilestoneState) : AppState B :=
  with_clerk (with_spans s ms (app_bor s))
    (if IsZurichHardfork cfg height then StoreBlockTime ctx (ProcessPendingVisibilityEvents ctx (app_clerk s)) else app_clerk s).

(** [s1] is the state in which the approved transactions execute when the votes are
    processed in [s0], and [cp] names the checkpoint transaction that was signed for. *)
Record execution_start (order : nat -> gset string -> list string) (ctx : Ctx) (s0 : AppState B) (height : Z)
    (txs lastTxs : list bytes) (vs : ValidatorSet) (votes : list ExtendedVoteInfo) (approved : gset string) (cp : string)
    (s1 : AppState B) : Prop := {
  es_computed : exists m cs,
    milestone_step cfg order ctx (with_stake s0 (SetLastBlockTxs (app_stake s0) txs) (app_bank s0)) vs votes = Ok m /\
    store_signatures cfg ctx height (app_checkpoint m) vs votes approved lastTxs = Ok (cs, cp) /\
    s1 = with_checkpoint m cs (app_stake m);
  es_stake : app_stake s1 = SetLastBlockTxs (app_stake s0) txs;
  es_bank : app_bank s1 = app_bank s0;
  es_topup : app_topup s1 = app_topup s0;
  es_clerk : app_clerk s1 = app_clerk s0;
  es_params : app_chain_params s1 = app_chain_params s0;
  es_checkpoints : checkpoints (app_checkpoint s1) = checkpoints (app_checkpoint s0);
  es_buffer : bufferedCheckpoint (app_checkpoint s1) = bufferedCheckpoint (app_checkpoint s0);
  es_acks : ackCount (app_checkpoint s1) = ackCount (app_checkpoint s0);
  es_signed : cp = EmptyString \/ exists ext, getMajorityNonRpVoteExtension cfg ctx votes vs = Ok ext /\
    (2 <= length ext)%nat /\ findCheckpointTx lastTxs (drop 1 ext) = Ok cp;
}.
Lemma execution_starts order ctx (s0 : AppState B) height txs lastTxs vs votes approved cp m cs :
  milestone_step cfg order ctx (with_stake s0 (SetLastBlockTxs (app_stake s0) txs) (app_bank s0)) vs votes = Ok m ->
  store_signatures cfg ctx height (app_checkpoint m) vs votes approved lastTxs = Ok (cs, cp) ->
  execution_start order ctx s0 height txs lastTxs vs votes approved cp (with_checkpoint m cs (app_stake m)).
Proof.
  intros Hm Hs. pose proof (milestone_step_writes _ _ _ _ _ _ Hm) as (ms & bs & Em).
  pose proof (store_signatures_frame _ _ _ _ _ _ _ _ _ Hs) as (F1 & F2 & F3).
  pose proof (store_signatures_named _ _ _ _ _ _ _ _ _ Hs) as Hn.
  split; [by exists m, cs|..]; subst m; try done.
Qed.
End parts.

(** ** Properties *)

(** C32: milestones only advance.  A block keeps the stored milestones or adds one
    under the next number; it starts after the last one ends, and distinct
    validators with more than two thirds of the power voted in this block for
    exactly its blocks; so the milestones stay numbered without a gap and disjoint. *)
Theorem milestones_advance {AC : AddressCodec} {VC : VoteCodec} {HF : HashFunction} {TL : TxLibrary} {SA : SdkAddress}
    {AH : AddressHexifier} {EA : EthAddress} {RSrc : RandSource} {B : Type} {BK : BankKeeper B} {FB : FeeBank B}
    (cfg : Config) mig order ctx ch env (s s' : AppState B) req :
  codec_ok -> (forall vs, getValidatorSetForHeight cfg (app_stake s) (fb_Height req) = Ok vs -> wf vs) ->
  fb_Height req <> milestoneDeletionHeight mig -> milestones_ok (app_milestone s) ->
  PreBlocker cfg mig order ctx ch env s req = Ok s' ->
  milestones_ok (app_milestone s') /\
  exists bz txs votes round, fb_Txs req = bz :: txs /\ unmarshal_commit bz = Some (votes, round) /\
    milestones_step cfg ctx (app_stake s) (fb_Height req) votes (app_milestone s) (app_milestone s').
Proof.
  intros HC Hwf Hdel Hok E. apply preblock_inv in E as (bz & txs & votes & round & ms & ks & Et & Eu & Hd & _ & E).
  assert (ms = app_milestone s) as ->.
  { unfold delete_faulty_milestone in Hd. rewrite (proj2 (Z.eqb_neq _ _)) in Hd by done. by injection Hd as <-. }
  cbn zeta in E. destruct (fb_Height req <=? VoteExtensionsEnableHeight ch).
  { subst s'. split; [done|]. exists bz, txs, votes, round. split; [done|]. split; [done|]. by left. }
  pose proof E as E'. apply process_votes_inv in E' as (lastTxs & vs & _ & _ & _ & _ & _ & _ & _ & _ & _ & Hvs & _).
  edestruct process_votes_milestones as [H1 H2]; [exact HC|by apply Hwf|exact Hvs| |exact E|]; [done|].
  split; [done|]. by exists bz, txs, votes, round.
Qed.

(** C2: what was approved is executed, and nothing else.  After a block the validators
    accepted, the pre-blocker runs the post-handlers of the transactions of the previous
    block that more than two thirds of the power voted yes on, one message each and in
    order; a handler that fails leaves no trace: the successful ones alone lead to the same
    state.  They start from the state the milestone part leaves, with the signatures of the
    checkpoint stored: until then no module but those of milestones and spans has changed,
    but for the transactions of this block and the events that become visible; after them
    only the proposer of the block is noted. *)
Theorem approved_transactions_execute {AC : AddressCodec} {VC : VoteCodec} {HF : HashFunction} {TL : TxLibrary} {SA : SdkAddress}
    {AH : AddressHexifier} {EA : EthAddress} {RSrc : RandSource} {B : Type} {BK : BankKeeper B} {FB : FeeBank B}
    {CL : ConsensusLayer} {BN : BorNode} {R : Type} {TR : TxRunner R}
    (cfg : Config) mig order ctx ch env (s s' : AppState B) req clock caches (run : R) canonical round :
  formatted_codec -> (forall vs, getValidatorSetForHeight cfg (app_stake s) (fb_Height req) = Ok vs -> wf vs) ->
  VoteExtensionsEnableHeight ch < fb_Height req ->
  ProcessProposal cfg clock caches ctx ch s run
    {| rp_Height := fb_Height req; rp_Txs := fb_Txs req; rp_CommitVotes := canonical; rp_Round := round |} = Ok true ->
  PreBlocker cfg mig order ctx ch env s req = Ok s' ->
  exists bz txs lastTxs vs votes ms approved checkpointTxHash s1 s2 log account,
    fb_Txs req = bz :: txs /\ unmarshal_commit bz = Some (votes, round) /\
    GetLastBlockTxs (app_stake s) = Ok lastTxs /\ getValidatorSetForHeight cfg (app_stake s) (fb_Height req) = Ok vs /\
    delete_faulty_milestone mig (fb_Height req) (app_milestone s) = Ok ms /\
    (forall tx, Bytes2Hex (tx_hash tx) ∈ approved <->
       2 * powers (Validators vs) < 3 * power_voting (side_ballots vs votes) (tx_hash tx) 1) /\
    execution_start cfg order ctx (voting_state cfg ctx s (fb_Height req) ms) (fb_Height req) txs lastTxs vs votes
      approved checkpointTxHash s1 /\
    executes cfg ctx env s1 (due approved checkpointTxHash lastTxs) log s2 /\ executes cfg ctx env s1 log log s2 /\
    (addr ← HexifyAddressBytes (fb_ProposerAddress req); AccAddressFromHex addr) = Ok account /\
    s' = SetBlockProposer s2 account.
Proof.
  intros HC Hwf Hen HP E. apply accepted_votes in HP as (vs & bz & txs & votes & Hvs & Et & Eu & HV). cbn [rp_Height rp_Txs rp_Round] in *.
  apply preblock_inv in E as (bz' & txs' & votes' & round' & ms & ks & Et' & Eu' & Hd & -> & E).
  rewrite Et in Et'. injection Et' as <- <-. rewrite Eu in Eu'. injection Eu' as <- <-. cbn zeta in E.
  destruct (Z.leb_spec (fb_Height req) (VoteExtensionsEnableHeight ch)); [lia|].
  apply process_votes_inv in E as (lastTxs & vs' & m & a & r & k & cs & cp & s2 & account & Hl & Hvs' & Hm & Ht & Hs & Hx & Hacc & ->).
  cbn [app_stake with_clerk with_spans] in Hl, Hvs'. rewrite Hvs in Hvs'. injection Hvs' as <-.
  destruct (validated_tally cfg _ _ _ _ _ _ _ HC (Hwf _ Hvs) Hen HV) as (a' & r' & k' & Ht' & _ & _ & Hspec).
  rewrite Ht in Ht'. injection Ht' as <- <- <-. apply execute_txs_executes in Hx as [log Hx].
  exists bz, txs, lastTxs, vs, votes, ms, (list_to_set (map Bytes2Hex a)), cp, (with_checkpoint m cs (app_stake m)), s2, log, account.
  do 5 (split; [done|]). split; [eapply executes_votes_tallied; [intros h; apply Hspec|exact Ht]|].
  split; [by eapply execution_starts|]. split; [done|]. split; [by eapply executes_log|done].
Qed.

(** ** Witnesses

    A block that adds the first milestone and executes a topup; the second
    transaction repeats the event of the first. *)

Module PreBlockDemo.
#[export] Existing Instance VoteDemo.demo_codec.
#[export] Existing Instance VoteDemo.demo_consensus.
#[export] Existing Instance TopupDemo.demo_bank.
#[export] Existing Instance AppDemo.fee_bank.
#[export] Existing Instance AppDemo.addresses.
#[export] Existing Instance AppDemo.eth_addresses.
#[export] Existing Instance AppDemo.random.
#[export] Existing Instance CheckpointDemo.demo_hash.
#[export] Existing Instance CheckpointDemo.demo_node.
Definition topup_tx : bytes := [Byte.x0a].
Definition again_tx : bytes := [Byte.x0b].
Definition hash_of (tx : bytes) : bytes := take 32 (tx ++ repeat Byte.x00 32).
Definition proposition : MilestoneProposition :=
  {| BlockHashes := [repeat Byte.x01 32; repeat Byte.x02 32]; StartBlockNumber := 0; ParentHash := []; BlockTds := [7; 8];
     LatestBlockNumber := 0; LatestBlockHash := [] |}.
Definition extension : VoteExtension :=
  {| vx_BlockHash := Some [Byte.x05]; vx_Height := 99;
     SideTxResponses := [{| TxHash := hash_of topup_tx; Result := 1 |}; {| TxHash := hash_of again_tx; Result := 1 |}];
     vx_MilestoneProposition := Some proposition |}.
(** The empty bytes of a placeholder decode to the zero value. *)
Definition no_extension : VoteExtension :=
  {| vx_BlockHash := None; vx_Height := 0; SideTxResponses := []; vx_MilestoneProposition := None |}.
#[export] Instance decoder : VoteCodec := {|
  unmarshal_ve b := if decide (b = VoteDemo.raw_ve) then Some extension
                    else if decide (b = []) then Some no_extension else None;
  has_unknown_fields _ := false |}.
#[export] Instance transactions : TxLibrary := {|
  TxDecode tx := if decide (tx = topup_tx) then Some [ATopup AppDemo.topup_msg]
                 else if decide (tx = again_tx) then Some [AOther; ATopup AppDemo.topup_msg]
                 else if decide (tx = [Byte.x01]) then Some [AOther] else None;
  tx_hash := hash_of; proto_size tx := Z.of_nat (length tx); marshal_commit _ := None;
  unmarshal_commit bz := if decide (bz = [Byte.xff]) then Some (VoteDemo.kept_votes, 0) else None |}.
#[export] Instance hexifier : AddressHexifier := {| HexifyAddressBytes b := Ok (string_of_list_byte b) |}.
#[export] Instance runner : TxRunner unit := {| PrepareProposalVerifyTx r _ := Ok r; ProcessProposalVerifyTx r _ := Ok r |}.

Definition first_span : Span :=
  {| span_Id := 0; span_StartBlock := 0; span_EndBlock := 255; span_ValidatorSet := VoteDemo.demo_set; SelectedProducers := [];
     span_BorChainId := "137" |}.
Definition before : AppState TopupDemo.DemoBank :=
  {| app_milestone :=
       {| milestone := ∅; milestone_params := Some {| MaxMilestonePropositionLength := 10; FfMilestoneThreshold := 1000; FfMilestoneBlockInterval := 250 |};
          milestone_count := None; lastMilestoneBlock := None; lastPendingBorBlock := None; lastPendingBorBlockId := None;
          lastPendingBorBlockHeight := None |};
     app_bor := set_spans AppDemo.no_spans {[ 0 := first_span ]} (Some 0);
     app_stake := {| validators := ∅; signer := ∅; sequences := ∅; validatorSet := Some VoteDemo.demo_set;
                     previousSet := Some VoteDemo.demo_set; penultimateSet := Some VoteDemo.demo_set;
                     lastBlockTxs := Some [topup_tx; [Byte.x01]; again_tx] |};
     app_checkpoint := CheckpointDemo.demo_state; app_clerk := AppDemo.empty_records;
     app_topup := {| topup_sequences := ∅; dividendAccounts := ∅ |};
     app_bank := {| TopupDemo.balances := ∅; TopupDemo.supply := 0 |};
     app_chain_params := Some CheckpointDemo.demo_chain_params; app_block_proposer := None |}.
Definition migration : MilestoneMigration := {| milestoneDeletionHeight := 0; faultyMilestoneNumber := 0 |}.
Definition block : FinalizeRequest := {| fb_Height := 100; fb_Txs := [[Byte.xff]; topup_tx]; fb_ProposerAddress := [Byte.x61] |}.
Definition after : outcome (AppState TopupDemo.DemoBank) :=
  PreBlocker VoteDemo.demo_config migration (fun _ => elements) VoteDemo.demo_ctx VoteDemo.demo_chain (AppDemo.env 0) before block.

Lemma codec : codec_ok.
Proof.
  split; [exact VoteDemo.vote_formatted|]. intros b ve p. cbn.
  case_decide; [|case_decide; [by intros [= <-]|done]]. intros [= <-]. cbn. intros [= <-]. cbn.
  unfold in_u64, MaxUint64. split; [lia|]. repeat constructor; lia.
Qed.
Lemma sets_wf vs : getValidatorSetForHeight VoteDemo.demo_config (app_stake before) (fb_Height block) = Ok vs -> wf vs.
Proof. intros [= <-]. exact VoteDemo.vote_set_wf. Qed.

Lemma milestones_advance_witness : exists s', after = Ok s' /\ milestones_ok (app_milestone s') /\
  option_map mi_EndBlock (milestone (app_milestone s') !! 1) = Some 1.
Proof.
  destruct after as [s'|e|] eqn:E; [|vm_compute in E; discriminate E..]. exists s'. split; [reflexivity|].
  destruct (milestones_advance VoteDemo.demo_config migration (fun _ => elements) VoteDemo.demo_ctx VoteDemo.demo_chain
    (AppDemo.env 0) before s' block) as [H _].
  - exact codec.
  - exact sets_wf.
  - discriminate.
  - split; cbn; [|lia|done|done]. intros n. rewrite lookup_empty. split; [by intros [? ?]|lia].
  - exact E.
  - split; [exact H|]. vm_compute in E. injection E as <-. vm_compute. reflexivity.
Defined.

Lemma approved_transactions_execute_witness : exists s' s1 s2 log, after = Ok s' /\
  executes VoteDemo.demo_config VoteDemo.demo_ctx (AppDemo.env 0) s1
    [(topup_tx, ATopup AppDemo.topup_msg); (again_tx, ATopup AppDemo.topup_msg)] log s2 /\
  TopupDemo.supply (app_bank s') = 5.
Proof.
  destruct after as [s'|e|] eqn:E; [|vm_compute in E; discriminate E..].
  destruct (approved_transactions_execute VoteDemo.demo_config migration (fun _ => elements) VoteDemo.demo_ctx VoteDemo.demo_chain
    (AppDemo.env 0) before s' block (fun _ => 0) CheckpointDemo.demo_caches tt VoteDemo.demo_commit 0)
    as (bz & txs & lastTxs & vs & votes & ms & approved & cp & s1 & s2 & log & account & Et & Hv & Hl & Hvs & Hms & Ha & Hs & Hx & _ & _ & _).
  - exact VoteDemo.vote_formatted.
  - exact sets_wf.
  - reflexivity.
  - vm_compute. reflexivity.
  - exact E.
  - exists s', s1, s2, log. split; [reflexivity|]. split; [|vm_compute in E; injection E as <-; vm_compute; reflexivity].
    injection Et as <- <-. injection Hl as <-. injection Hvs as <-. injection Hv as <-.
    assert (Bytes2Hex (tx_hash topup_tx) ∈ approved) as H1 by (apply Ha; vm_compute; reflexivity).
    assert (Bytes2Hex (tx_hash again_tx) ∈ approved) as H2 by (apply Ha; vm_compute; reflexivity).
    unfold due in Hx. cbn [omap list_omap] in Hx. rewrite (bool_decide_true _ H1), (bool_decide_true _ H2) in Hx.
    destruct (bool_decide (Bytes2Hex (tx_hash [Byte.x01]) ∈ approved)); exact Hx.
Defined.
End PreBlockDemo.
