(* ===== verification/Failover.v ===== *)
(** * Failover between the endpoints of the Bor node

    Models [x/bor/failover] ([health.go], [prober.go]), the identity checks of the
    two transports ([x/bor/grpc/failover.go], [helper/bor_failover_http.go]) and the
    budget of a call.  Requests and the prober run concurrently: every operation
    that takes the lock of [Health] is one step, a request in flight is a
    [CallState], a probe in flight a [ProbeState], and [step] interleaves them.

    The identity check of a probe reads and writes atomic variables only; it takes
    effect at one of these accesses, so it is one step here. *)
From S2P Require Import Prelude Helpers.
#[local] Open Scope Z_scope.

(** ** The health of the endpoints *)

Record endpointHealth := {
  healthy : bool; consecutiveSuccess : Z;
  healthySince : option Z;      (* [None]: the zero time *)
  lastErr : option error;
}.
Record Health := { health : list endpointHealth; active : nat }.
(** The fields [SetTuning] sets; times are in nanoseconds. *)
Record Tuning := { consecutiveThreshold : Z; promotionCooldown : Z }.
Definition DefaultConsecutiveThreshold : Z := 3.
Definition DefaultPromotionCooldown : Z := 60 * 10 ^ 9.
Definition default_tuning : Tuning :=
  {| consecutiveThreshold := DefaultConsecutiveThreshold; promotionCooldown := DefaultPromotionCooldown |}.

Definition untested : endpointHealth :=
  {| healthy := false; consecutiveSuccess := 0; healthySince := None; lastErr := None |}.
(** [New]: only the primary is trusted. *)
Definition NewHealth (n : nat) : outcome Health :=
  match n with
  | O => Panic
  | S k => Ok {| health := {| healthy := true; consecutiveSuccess := 0; healthySince := None; lastErr := None |}
                           :: repeat untested k;
                 active := 0%nat |}
  end.

(** [time.Since], which saturates. *)
Definition since (now : Z) (t : option Z) : Z :=
  match t with None => MaxInt64 | Some t => Z.max MinInt64 (Z.min MaxInt64 (now - t)) end.

Section health.
Variable tn : Tuning.

(** An access to [h.health[i]]. *)
Definition on_endpoint (h : Health) (i : nat) (f : endpointHealth -> endpointHealth) : outcome Health :=
  match health h !! i with
  | None => Panic
  | Some e => Ok {| health := <[i := f e]> (health h); active := active h |}
  end.
Definition SetActive (h : Health) (i : nat) : Health := {| health := health h; active := i |}.

Definition unhealthy_with (err : option error) (e : endpointHealth) : endpointHealth :=
  {| healthy := false; consecutiveSuccess := 0; healthySince := healthySince e; lastErr := err |}.
Definition MarkUnhealthy (h : Health) (i : nat) (err : error) : outcome Health :=
  on_endpoint h i (unhealthy_with (Some err)).

(** [markSuccessLocked] on the endpoint. *)
Definition succeed (now : Z) (e : endpointHealth) : endpointHealth :=
  let c := if consecutiveSuccess e <? consecutiveThreshold tn then consecutiveSuccess e + 1 else consecutiveSuccess e in
  if negb (healthy e) && (consecutiveThreshold tn <=? c)
  then {| healthy := true; consecutiveSuccess := c; healthySince := Some now; lastErr := None |}
  else {| healthy := healthy e; consecutiveSuccess := c; healthySince := healthySince e; lastErr := None |}.
Definition MarkSuccess (now : Z) (h : Health) (i : nat) : outcome Health := on_endpoint h i (succeed now).

(** The endpoints that lose their trust keep their last error. *)
Definition demote (e : endpointHealth) : endpointHealth :=
  {| healthy := false; consecutiveSuccess := 0; healthySince := healthySince e; lastErr := lastErr e |}.
Definition trusted (now : Z) : endpointHealth :=
  {| healthy := true; consecutiveSuccess := consecutiveThreshold tn; healthySince := Some now; lastErr := None |}.
Definition Reclaim (now : Z) (h : Health) (i : nat) : outcome Health :=
  match health h !! i with
  | None => Panic
  | Some _ => Ok {| health := <[i := trusted now]> (map demote (health h)); active := i |}
  end.

Definition cooled (now : Z) (e : endpointHealth) : bool := promotionCooldown tn <=? since now (healthySince e).
(** The indices of the endpoints with a property, in priority order. *)
Definition indices (p : endpointHealth -> bool) (h : Health) : list nat :=
  List.filter (fun i => match health h !! i with Some e => p e | None => false end) (seq 0 (length (health h))).
Definition Candidates (now : Z) (h : Health) (failed : nat) : list nat :=
  let others p := List.filter (fun i => negb (i =? failed)%nat) (indices p h) in
  others (fun e => healthy e && cooled now e) ++ others (fun e => healthy e && negb (cooled now e)).

Definition Promote (now : Z) (h : Health) (to : nat) : outcome (Health * bool) :=
  match health h !! to with
  | None => Panic
  | Some e =>
      if negb (healthy e) then Ok (h, false)
      else h ← MarkSuccess now (SetActive h to) to; Ok (h, true)
  end.

(** ** The prober *)

Definition applyProbe (now : Z) (h : Health) (i : nat) (err : option error) : outcome Health :=
  match err with
  | Some e => on_endpoint h i (unhealthy_with (Some e))
  | None => MarkSuccess now h i
  end.
Definition healthyCount (h : Health) : nat := length (List.filter healthy (health h)).
Definition maybePromote (now : Z) (h : Health) : Health :=
  match List.filter (fun i => (i <? active h)%nat) (indices (fun e => healthy e && cooled now e) h) with
  | [] => h
  | i :: _ => SetActive h i
  end.
Definition bestHealthy (now : Z) (h : Health) : option nat :=
  let others p := List.filter (fun i => negb (i =? active h)%nat) (indices p h) in
  match others (fun e => healthy e && cooled now e), others healthy with
  | i :: _, _ => Some i
  | [], i :: _ => Some i
  | [], [] => None
  end.
Definition maybeProactiveSwitch (now : Z) (h : Health) : outcome Health :=
  match health h !! active h with
  | None => Panic
  | Some e =>
      if healthy e then Ok h
      else match bestHealthy now h with Some i => Ok (SetActive h i) | None => Ok h end
  end.

(** ** A request

    What an attempt on an endpoint came to: a usable answer, one to return as it
    is, or a failure to try the next endpoint for. *)
Inductive Verdict := Succeeded | Final | Retry (e : error).
Record Transport (A : Type) := { verdict : A -> Verdict; refused : nat -> A -> A }.
Arguments verdict {A}. Arguments refused {A}.

(** [Call] and [callCandidates]; [RoundTrip] and [cascade].  In [CActive i] and in
    [CCascade failed last (i :: rest)] an attempt on [i] is under way. *)
Inductive CallState (A : Type) :=
| CStart
| CActive (i : nat)
| CSuccess (i : nat) (a : A)                        (* before [MarkSuccess] *)
| CFailure (i : nat) (a : A) (e : error)            (* before [MarkUnhealthy] *)
| CCandidates (failed : nat) (last : A)             (* before [Candidates] *)
| CCascade (failed : nat) (last : A) (rest : list nat)
| CPromote (failed : nat) (last a : A) (i : nat) (rest : list nat)     (* before [Promote] *)
| CUnhealthy (failed : nat) (last : A) (e : error) (i : nat) (rest : list nat)   (* before [MarkUnhealthy] *)
| CDone (a : A).
Arguments CStart {A}. Arguments CActive {A}. Arguments CSuccess {A}. Arguments CFailure {A}. Arguments CCandidates {A}.
Arguments CCascade {A}. Arguments CPromote {A}. Arguments CUnhealthy {A}. Arguments CDone {A}.

(** One step; [attempt i] is what an attempt on [i] that ends now comes to. *)
Definition call_step {A} (T : Transport A) (now : Z) (attempt : nat -> A) (c : CallState A) (h : Health)
    : outcome (CallState A * Health) :=
  match c with
  | CStart => Ok (CActive (active h), h)
  | CActive i =>
      let a := attempt i in
      Ok (match verdict T a with Succeeded => CSuccess i a | Final => CDone a | Retry e => CFailure i a e end, h)
  | CSuccess i a => h ← MarkSuccess now h i; Ok (CDone a, h)
  | CFailure i a e => h ← MarkUnhealthy h i e; Ok (CCandidates i a, h)
  | CCandidates failed last => Ok (CCascade failed last (Candidates now h failed), h)
  | CCascade failed last [] => Ok (CDone last, h)
  | CCascade failed last (i :: rest) =>
      let a := attempt i in
      Ok (match verdict T a with
          | Succeeded => CPromote failed last a i rest
          | Final => CDone a
          | Retry e => CUnhealthy failed a e i rest
          end, h)
  | CPromote failed last a i rest =>
      Promote now h i ≫= fun r : Health * bool =>
      Ok (if r.2 then CDone a else CCascade failed (refused T i last) rest, r.1)
  | CUnhealthy failed last e i rest => h ← MarkUnhealthy h i e; Ok (CCascade failed last rest, h)
  | CDone a => Ok (CDone a, h)
  end.

(** A request that nothing interferes with. *)
Fixpoint run_call {A} (T : Transport A) (fuel : nat) (now : Z) (attempt : nat -> A) (c : CallState A) (h : Health)
    : outcome (CallState A * Health) :=
  match fuel, c with
  | O, _ => Ok (c, h)
  | _, CDone a => Ok (CDone a, h)
  | S fuel, _ => call_step T now attempt c h ≫= fun r : CallState A * Health => run_call T fuel now attempt r.1 r.2
  end.
(** Three steps for the active endpoint, one for the candidates, two for each. *)
Definition call_fuel (h : Health) : nat := 2 * length (health h) + 6.

(** The transport of [Call]: the value or the error, and whether the context of the
    caller is done. *)
Definition call_transport {V} (retriable : error -> bool) : Transport (outcome V * bool) :=
  {| verdict := fun a : outcome V * bool =>
       match a.1 with
       | Ok _ => Succeeded
       | Err e => if a.2 || negb (retriable e) then Final else Retry e
       | Panic => Final
       end;
     refused := fun _ last => last |}.
(** The transport of [RoundTrip]: the status of the response or the error. *)
Definition succeeded (r : outcome Z) : bool := match r with Ok status => status <? 500 | _ => false end.
Definition http_transport : Transport (outcome Z * bool) :=
  {| verdict := fun a : outcome Z * bool =>
       if succeeded (fst a) then Succeeded
       else if a.2 then Final
       else Retry (match a.1 with Err e => e | _ => ErrText "bor endpoint returned http error" end);
     refused := fun _ (last : outcome Z * bool) => (Err (ErrText "bor endpoint no longer healthy"), last.2) |}.
End health.
Arguments verdict {A}. Arguments refused {A}.
Arguments CStart {A}. Arguments CActive {A}. Arguments CSuccess {A}. Arguments CFailure {A}. Arguments CCandidates {A}.
Arguments CCascade {A}. Arguments CPromote {A}. Arguments CUnhealthy {A}. Arguments CDone {A}.

(** The errors of gRPC that are worth another endpoint. *)
Inductive Code := Unavailable | DeadlineExceeded | ResourceExhausted | OtherCode.
Class GrpcStatus := { status_Code : error -> Code }.
Definition retriable {G : GrpcStatus} (e : error) : bool :=
  match status_Code e with Unavailable | DeadlineExceeded | ResourceExhausted => true | OtherCode => false end.

(** ** The identity of the chain

    The chain id over HTTP, the hash of the genesis block over gRPC. *)

Definition primaryEndpoint : nat := 0.
Definition primaryAnchorFailureThreshold : Z := 2.
Definition i32 (z : Z) : Z := (z + 2 ^ 31) mod 2 ^ 32 - 2 ^ 31.

Section identity.
Context {I : Type} `{EqDecision I}.

Record Anchor := { expected : option I; expectedByPrimary : bool; primaryProbeFailures : Z }.

Definition with_failures (an : Anchor) (n : Z) : Anchor :=
  {| expected := expected an; expectedByPrimary := expectedByPrimary an; primaryProbeFailures := n |}.
Definition recordProbeFailure (an : Anchor) (i : nat) : Anchor :=
  if (i =? primaryEndpoint)%nat then with_failures an (i32 (primaryProbeFailures an + 1)) else an.
Definition recordProbeSuccess (an : Anchor) (i : nat) : Anchor :=
  if (i =? primaryEndpoint)%nat then with_failures an 0 else an.
Definition canAnchor (an : Anchor) (i : nat) : bool :=
  (i =? primaryEndpoint)%nat || (primaryAnchorFailureThreshold <=? primaryProbeFailures an).

(** [captureExpectedChainID], [captureExpectedGenesis]: the answer of the primary at
    the start. *)
Definition captureExpected (answer : option I) : Anchor :=
  {| expected := answer; expectedByPrimary := bool_decide (is_Some answer); primaryProbeFailures := 0 |}.

(** [checkChainID], [checkGenesis] *)
Definition checkIdentity (an : Anchor) (i : nat) (got : I) : Anchor * option error :=
  if (i =? primaryEndpoint)%nat && negb (expectedByPrimary an)
  then ({| expected := Some got; expectedByPrimary := true; primaryProbeFailures := primaryProbeFailures an |}, None)
  else
    match expected an with
    | None =>
        if canAnchor an i
        then ({| expected := Some got; expectedByPrimary := expectedByPrimary an;
                 primaryProbeFailures := primaryProbeFailures an |}, None)
        else (an, Some (ErrText "expected identity not yet known"))
    | Some e => (an, if bool_decide (e = got) then None else Some (ErrText "identity mismatch"))
    end.
Definition reclaims (an : Anchor) (i : nat) : bool := (i =? primaryEndpoint)%nat && negb (expectedByPrimary an).

(** ** Probes *)

Inductive ProbeState :=
| PAsked                                (* the endpoint is asked for its identity *)
| PValidating (reclaiming : bool)       (* the validators run *)
| PReclaiming                           (* before [Reclaim] *)
| PResult (r : option error)            (* before [applyProbe] *)
| PApplied.

(** What the endpoint and the validators answer. *)
Record ProbeAnswer := { pa_identity : outcome I; pa_validators : option error }.

(** [probe] of the HTTP transport. *)
Definition http_asked (an : Anchor) (i : nat) (ans : ProbeAnswer) : Anchor * ProbeState :=
  match pa_identity ans with
  | Ok id =>
      let an := recordProbeSuccess an i in
      let '(an', r) := checkIdentity an i id in
      (an', match r with Some e => PResult (Some e) | None => if reclaims an i then PReclaiming else PResult None end)
  | Err e => (recordProbeFailure an i, PResult (Some e))
  | Panic => (recordProbeFailure an i, PResult (Some (ErrText "no answer")))
  end.
(** [probe] of the gRPC transport, up to the validators. *)
Definition grpc_asked (an : Anchor) (i : nat) (ans : ProbeAnswer) : Anchor * ProbeState :=
  match pa_identity ans with
  | Ok id =>
      let '(an', r) := checkIdentity an i id in
      (an', match r with Some e => PResult (Some e) | None => PValidating (reclaims an i) end)
  | Err e => (recordProbeFailure an i, PResult (Some e))
  | Panic => (recordProbeFailure an i, PResult (Some (ErrText "no answer")))
  end.
(** The validators and what follows. *)
Definition validated (an : Anchor) (i : nat) (reclaiming : bool) (ans : ProbeAnswer) : Anchor * ProbeState :=
  match pa_validators ans with
  | Some e => (recordProbeFailure an i, PResult (Some e))
  | None => (recordProbeSuccess an i, if reclaiming then PReclaiming else PResult None)
  end.

Definition probe_step (asked : Anchor -> nat -> ProbeAnswer -> Anchor * ProbeState) (tn : Tuning) (now : Z) (i : nat)
    (ans : ProbeAnswer) (p : ProbeState) (h : Health) (an : Anchor) : outcome (ProbeState * Health * Anchor) :=
  match p with
  | PAsked => let '(an, p) := asked an i ans in Ok (p, h, an)
  | PValidating reclaiming => let '(an, p) := validated an i reclaiming ans in Ok (p, h, an)
  | PReclaiming => h ← Reclaim tn now h primaryEndpoint; Ok (PResult None, h, an)
  | PResult r => h ← applyProbe tn now h i r; Ok (PApplied, h, an)
  | PApplied => Ok (PApplied, h, an)
  end.

(** ** The whole

    The prober waits, probes every endpoint at once, may promote and may switch;
    requests run all the while. *)

Inductive ProberState := Waiting | Probing | Switching.
Record System (A : Type) := {
  sy_health : Health; sy_anchor : Anchor; sy_prober : ProberState; sy_probes : list ProbeState; sy_calls : list (CallState A);
}.
End identity.
Arguments Anchor : clear implicits. Arguments ProbeAnswer : clear implicits. Arguments System : clear implicits.
Arguments sy_health {I A}. Arguments sy_anchor {I A}. Arguments sy_prober {I A}. Arguments sy_probes {I A}.
Arguments sy_calls {I A}. Arguments Build_System {I A}.

Definition in_flight {A} (c : CallState A) : bool := match c with CDone _ => false | _ => true end.

Section system.
Context {I A : Type} `{EqDecision I}.
Variables (tn : Tuning) (T : Transport A) (asked : Anchor I -> nat -> ProbeAnswer I -> Anchor I * ProbeState).
(** The network each endpoint is on, the endpoints that the validators may refuse,
    and the most requests that run at once. *)
Variables (net : nat -> I) (refusable : nat -> Prop) (max_calls : nat).

(** An endpoint that answers reports its own network. *)
Definition answers_as (i : nat) (ans : ProbeAnswer I) : Prop :=
  (forall id, pa_identity ans = Ok id -> id = net i) /\ (pa_validators ans = None \/ refusable i).

Inductive step : System I A -> System I A -> Prop :=
| step_tick h an ps cs :
    (1 < length (health h))%nat ->
    step (Build_System h an Waiting ps cs) (Build_System h an Probing (repeat PAsked (length (health h))) cs)
| step_probe now h an ps cs i ans p p' h' an' :
    ps !! i = Some p -> answers_as i ans ->
    probe_step asked tn now i ans p h an = Ok (p', h', an') ->
    step (Build_System h an Probing ps cs) (Build_System h' an' Probing (<[i := p']> ps) cs)
| step_promote now h an ps cs :
    Forall (fun p => p = PApplied) ps ->
    step (Build_System h an Probing ps cs) (Build_System (maybePromote tn now h) an Switching ps cs)
| step_switch now h an ps cs h' :
    maybeProactiveSwitch tn now h = Ok h' ->
    step (Build_System h an Switching ps cs) (Build_System h' an Waiting ps cs)
| step_request h an pr ps cs :
    (length (List.filter in_flight cs) < max_calls)%nat ->
    step (Build_System h an pr ps cs) (Build_System h an pr ps (cs ++ [CStart]))
| step_call now attempt h an pr ps cs k c c' h' :
    cs !! k = Some c -> call_step tn T now attempt c h = Ok (c', h') ->
    step (Build_System h an pr ps cs) (Build_System h' an pr ps (<[k := c']> cs)).

(** The start: [n] endpoints, and what the primary answered. *)
Inductive initial : System I A -> Prop :=
| initial_intro n h answer :
    NewHealth n = Ok h -> (forall id, answer = Some id -> id = net primaryEndpoint) ->
    initial (Build_System h (captureExpected answer) Waiting [] []).

Inductive reachable : System I A -> Prop :=
| reachable_initial s : initial s -> reachable s
| reachable_step s s' : reachable s -> step s s' -> reachable s'.
End system.

(** ** The budget of a call *)

Definition maxBudgetedEndpoints : Z := 3.
Definition maxBorChainCallBudget : Z := 9 * 10 ^ 9.
Definition MaxBorRPCTimeout : Z := Z.quot maxBorChainCallBudget maxBudgetedEndpoints.
Definition clampBorRPCTimeout (timeout : Z) : Z :=
  if timeout <=? 0 then 10 ^ 9 else if MaxBorRPCTimeout <? timeout then MaxBorRPCTimeout else timeout.

(** [parseURLs]: the parts between commas, trimmed of white space (of ASCII), without
    the empty ones. *)
Definition is_space (c : ascii) : bool :=
  bool_decide (c ∈ [" "; "009"; "010"; "011"; "012"; "013"]%char).
Fixpoint trim_left (s : string) : string :=
  match s with
  | EmptyString => EmptyString
  | String c r => if is_space c then trim_left r else s
  end.
Fixpoint trim_right (s : string) : string :=
  match s with
  | EmptyString => EmptyString
  | String c r => match trim_right r with
                  | EmptyString => if is_space c then EmptyString else String c EmptyString
                  | r => String c r
                  end
  end.
Fixpoint split_commas (s : string) : list string :=
  match s with
  | EmptyString => [EmptyString]
  | String c r =>
      match split_commas r with
      | [] => []
      | p :: ps => if Ascii.eqb c "," then EmptyString :: p :: ps else String c p :: ps
      end
  end.
Definition parseURLs (s : string) : list string :=
  List.filter (fun p => negb (String.eqb p "")) (map (fun p => trim_right (trim_left p)) (split_commas s)).

Record CustomConfig := { BorRPCUrl : string; BorGRPCUrl : string; BorGRPCFlag : bool; BorRPCTimeout : Z }.
Definition BorFailoverConfigured (c : CustomConfig) : bool :=
  (2 <=? length (parseURLs (BorRPCUrl c)))%nat
  || (BorGRPCFlag c && (2 <=? length (parseURLs (BorGRPCUrl c)))%nat).
Definition GetBorChainCallTimeout (c : CustomConfig) : Z :=
  let n := Z.of_nat (length (parseURLs (BorRPCUrl c))) in
  let n := if BorGRPCFlag c then Z.max n (Z.of_nat (length (parseURLs (BorGRPCUrl c)))) else n in
  let n := Z.min maxBudgetedEndpoints (Z.max 1 n) in
  i64 (clampBorRPCTimeout (BorRPCTimeout c) * n).
