(* ===== verification/FailoverCorrect.v ===== *)
(** * Correctness of the failover

    Once the primary has answered, no endpoint of another network is trusted,
    however requests and probes interleave; and a request is answered by the first
    endpoint that can. *)
From S2P Require Import Prelude Helpers Failover.
#[local] Open Scope Z_scope.

(** ** Endpoints *)

Lemma lookup_on_endpoint h i f h' j : on_endpoint h i f = Ok h' ->
  active h' = active h /\ length (health h') = length (health h) /\
  health h' !! j = if decide (i = j) then f <$> health h !! j else health h !! j.
Proof.
  unfold on_endpoint. destruct (health h !! i) as [e|] eqn:E; [|done]. intros [= <-]. cbn. rewrite length_insert.
  split; [done|]. split; [done|]. case_decide as D; [subst j|by rewrite list_lookup_insert_ne].
  rewrite E. cbn. by rewrite list_lookup_insert_eq by (eapply lookup_lt_Some; eauto).
Qed.

Lemma elem_of_indices p h i : i ∈ indices p h <-> exists e, health h !! i = Some e /\ p e = true.
Proof.
  unfold indices. rewrite list_elem_of_In, filter_In, in_seq. split.
  - intros [_ H]. destruct (health h !! i) as [e|]; [by exists e|done].
  - intros (e & H & Hp). rewrite H. split; [|done]. apply lookup_lt_Some in H. lia.
Qed.

Lemma repeat_elem {A} (x y : A) n : x ∈ repeat y n -> x = y.
Proof. rewrite list_elem_of_In. apply repeat_spec. Qed.
Lemma filter_head {A} (f : A -> bool) l x r : List.filter f l = x :: r -> x ∈ l.
Proof. intros E. assert (x ∈ List.filter f l) as H by (rewrite E; by left). by apply list_filter_elem in H as [? _]. Qed.

Section tuning.
Variable tn : Tuning.

Lemma elem_of_Candidates now h failed i : i ∈ Candidates tn now h failed <->
  i <> failed /\ exists e, health h !! i = Some e /\ healthy e = true.
Proof.
  unfold Candidates. rewrite elem_of_app, !list_filter_elem, !elem_of_indices, negb_true_iff, Nat.eqb_neq. split.
  - intros [[(e & He & Hp) Hn]|[(e & He & Hp) Hn]]; apply andb_true_iff in Hp as [Hp _]; (split; [done|by exists e]).
  - intros (Hn & e & He & Hp). destruct (cooled tn now e) eqn:Hc; [left|right]; (split; [exists e|done]); by rewrite Hp, Hc.
Qed.

Lemma maybePromote_healthy now h : health (maybePromote tn now h) = health h /\
  (active (maybePromote tn now h) = active h \/
   exists e, health h !! active (maybePromote tn now h) = Some e /\ healthy e = true).
Proof.
  unfold maybePromote. destruct (List.filter _ _) as [|i l] eqn:E; [split; [done|by left]|]. split; [done|]. right.
  apply filter_head, elem_of_indices in E as (e & He & [Hp _]%andb_true_iff). by exists e.
Qed.

Lemma bestHealthy_healthy now h i : bestHealthy tn now h = Some i ->
  exists e, health h !! i = Some e /\ healthy e = true.
Proof.
  unfold bestHealthy. destruct (List.filter _ (indices (fun e => healthy e && _) h)) as [|k l] eqn:E1.
  - destruct (List.filter _ (indices healthy h)) as [|k l] eqn:E2; [done|]. intros [= <-].
    by apply filter_head, elem_of_indices in E2.
  - intros [= <-]. apply filter_head, elem_of_indices in E1 as (e & He & [Hp _]%andb_true_iff). by exists e.
Qed.

(** ** The trust of a fallback

    [credit e c]: the endpoint is not healthy and [c] more successes do not change that. *)
Definition credit (e : endpointHealth) (c : Z) : Prop := 
  healthy e = false /\ 0 <= consecutiveSuccess e /\ consecutiveSuccess e + c < consecutiveThreshold tn.

Lemma credit_weaken e c c' : c' <= c -> credit e c -> credit e c'.
Proof. unfold credit. intros ? (? & ? & ?). split; [done|lia]. Qed.
Lemma credit_succeed now e c : credit e (c + 1) -> 0 <= c -> credit (succeed tn now e) c.
Proof.
  unfold credit, succeed. intros (Hh & H0 & Hc) Hp. rewrite Hh. cbn [negb andb].
  destruct (Z.ltb_spec (consecutiveSuccess e) (consecutiveThreshold tn)); [|lia].
  destruct (Z.leb_spec (consecutiveThreshold tn) (consecutiveSuccess e + 1)); [lia|]. cbn. split; [done|lia].
Qed.
Lemma credit_reset e c : c < consecutiveThreshold tn -> healthy e = false -> consecutiveSuccess e = 0 -> credit e c.
Proof. unfold credit. intros ? -> ->. split; [done|lia]. Qed.
End tuning.

(** ** The invariant *)

Section invariant.
Context {I A : Type} `{EqDecision I}.
Variables (tn : Tuning) (T : Transport A) (asked : Anchor I -> nat -> ProbeAnswer I -> Anchor I * ProbeState).
Variables (net : nat -> I) (refusable : nat -> Prop) (max_calls : nat).
Implicit Types (s : System I A) (c : CallState A) (p : ProbeState) (an : Anchor I).

(** The requests that will mark a success of [j] when their attempt succeeds. *)
Definition on_call (j : nat) c : Z :=
  match c with CActive i | CSuccess i _ => if (i =? j)%nat then 1 else 0 | _ => 0 end.
(** A probe that may still report a success, by an identity it has already compared. *)
Definition compared (p : ProbeState) : bool := match p with PResult None | PValidating false => true | _ => false end.
Definition pending (j : nat) (ps : list ProbeState) : Z :=
  match ps !! j with Some p => if compared p then 1 else 0 | None => 0 end.
Definition successes_due (j : nat) (ps : list ProbeState) (cs : list (CallState A)) : Z :=
  pending j ps + Zsum (map (on_call j) cs).

(** An endpoint that is not trusted, not active and cannot become so. *)
Definition distrusted (j : nat) (h : Health) (ps : list ProbeState) (cs : list (CallState A)) : Prop :=
  active h <> j /\ forall e, health h !! j = Some e -> credit tn e (successes_due j ps cs).
Definition reclaims_next (p : ProbeState) : bool := match p with PReclaiming | PValidating true => true | _ => false end.
Definition about_to_reclaim (ps : list ProbeState) : Prop := exists p, ps !! primaryEndpoint = Some p /\ reclaims_next p = true.

Record ok s : Prop := {
  ok_requests : (length (List.filter in_flight (sy_calls s)) <= max_calls)%nat;
  ok_probes : forall i p, sy_probes s !! i = Some p -> reclaims_next p = true ->
    i = primaryEndpoint /\ sy_prober s = Probing /\ expectedByPrimary (sy_anchor s) = true;
  ok_anchor : expectedByPrimary (sy_anchor s) = true -> expected (sy_anchor s) = Some (net primaryEndpoint);
  ok_distrusted : expectedByPrimary (sy_anchor s) = true -> about_to_reclaim (sy_probes s) \/
    forall j, net j <> net primaryEndpoint -> distrusted j (sy_health s) (sy_probes s) (sy_calls s);
}.

Lemma on_call_range j c : 0 <= on_call j c <= 1.
Proof. destruct c; cbn; try lia; destruct (_ =? _)%nat; lia. Qed.
Lemma on_call_in_flight j cs : 0 <= Zsum (map (on_call j) cs) <= Z.of_nat (length (List.filter in_flight cs)).
Proof.
  induction cs as [|c cs IH]; [cbn; lia|]. cbn [map List.filter]. rewrite Zsum_cons.
  destruct c; cbn [in_flight on_call length]; try (destruct (_ =? _)%nat); lia.
Qed.
Lemma pending_range j ps : 0 <= pending j ps <= 1.
Proof. unfold pending. destruct (ps !! j) as [p|]; [destruct (compared p)|]; lia. Qed.

Lemma successes_due_range j ps cs :
  0 <= successes_due j ps cs <= 1 + Z.of_nat (length (List.filter in_flight cs)).
Proof. unfold successes_due. pose proof (pending_range j ps). pose proof (on_call_in_flight j cs). lia. Qed.

(** Changes that keep an endpoint distrusted. *)
Lemma distrusted_due j h ps cs ps' cs' : successes_due j ps' cs' <= successes_due j ps cs ->
  distrusted j h ps cs -> distrusted j h ps' cs'.
Proof. intros Hle [Ha Hc]. split; [done|]. intros e He. eapply credit_weaken; [exact Hle|by apply Hc]. Qed.
Lemma distrusted_health j h h' ps cs : (active h' = active h \/ exists e, health h !! active h' = Some e /\ healthy e = true) ->
  health h' = health h -> distrusted j h ps cs -> distrusted j h' ps cs.
Proof.
  intros Ha Hh [Hn Hc]. split; [|by rewrite Hh]. destruct Ha as [->|(e & He & Ht)]; [done|].
  intros <-. destruct (Hc e He). congruence.
Qed.
Lemma distrusted_endpoint j h i f h' ps cs ps' cs' : on_endpoint h i f = Ok h' -> distrusted j h ps cs ->
  (forall e, i = j -> credit tn e (successes_due j ps cs) -> credit tn (f e) (successes_due j ps' cs')) ->
  (i <> j -> successes_due j ps' cs' <= successes_due j ps cs) -> distrusted j h' ps' cs'.
Proof.
  intros E [Hn Hc] Hf Hle. destruct (lookup_on_endpoint _ _ _ _ j E) as (Ha & _ & Hl).
  split; [congruence|]. intros e He. rewrite Hl in He. case_decide as D.
  - destruct (health h !! j) as [e0|] eqn:E0; cbn in He; [|done]. injection He as <-. by apply Hf; [|apply Hc].
  - eapply credit_weaken; [by apply Hle|by apply Hc].
Qed.
Lemma credit_unhealthy err e due due' : due' <= due -> credit tn e due -> credit tn (unhealthy_with err e) due'.
Proof. intros Hle (_ & H0 & Hc). apply credit_reset; [lia|done|done]. Qed.

(** A success of [j] is one that was due. *)
Lemma distrusted_success now j h i h' ps cs ps' cs' : MarkSuccess tn now h i = Ok h' -> distrusted j h ps cs ->
  successes_due j ps' cs' = successes_due j ps cs - (if decide (i = j) then 1 else 0) -> distrusted j h' ps' cs'.
Proof.
  intros E Hd Hs. eapply distrusted_endpoint; [exact E|exact Hd| |].
  - intros e <- Hc. apply credit_succeed; [|apply successes_due_range]. rewrite decide_True in Hs by done.
    eapply credit_weaken; [|exact Hc]. lia.
  - intros Hn. rewrite decide_False in Hs by done. lia.
Qed.

(** [Reclaim] distrusts every fallback. *)
Lemma reclaim_distrusts now j h h' ps cs : Reclaim tn now h primaryEndpoint = Ok h' -> j <> primaryEndpoint ->
  successes_due j ps cs < consecutiveThreshold tn -> distrusted j h' ps cs.
Proof.
  unfold Reclaim. destruct (health h !! primaryEndpoint) as [e0|]; [|done]. intros [= <-] Hj Hs. split; [cbn; congruence|].
  cbn [health]. intros e He. rewrite list_lookup_insert_ne in He by done. change (map demote (health h)) with (demote <$> health h) in He.
  rewrite list_lookup_fmap in He.
  destruct (health h !! j); cbn in He; [|done]. injection He as <-. by apply credit_reset.
Qed.

(** ** Steps of a request *)

Lemma successes_due_call j ps cs k c c' : cs !! k = Some c ->
  successes_due j ps (<[k := c']> cs) = successes_due j ps cs - on_call j c + on_call j c'.
Proof. intros E. unfold successes_due. rewrite (Zsum_insert _ _ _ _ _ E). lia. Qed.

Lemma in_flight_insert cs k c c' : cs !! k = Some c -> (in_flight c' = true -> in_flight c = true) ->
  (length (List.filter in_flight (<[k := c']> cs)) <= length (List.filter in_flight cs))%nat.
Proof.
  revert k. induction cs as [|d cs IH]; intros [|k] E Hc; cbn in E; try done.
  - injection E as ->. change (<[0%nat := c']> (c :: cs)) with (c' :: cs). cbn [List.filter].
    destruct (in_flight c'); [rewrite Hc by done|destruct (in_flight c)]; cbn [length]; lia.
  - change (<[S k := c']> (d :: cs)) with (d :: <[k := c']> cs). cbn [List.filter].
    specialize (IH _ E Hc). destruct (in_flight d); cbn [length]; lia.
Qed.
Lemma call_step_in_flight now attempt c h c' h' : call_step tn T now attempt c h = Ok (c', h') ->
  in_flight c' = true -> in_flight c = true.
Proof. intros E. destruct c; try done. cbn in E. by injection E as <- <-. Qed.

Lemma call_keeps_distrust j now attempt ps cs k c h c' h' : cs !! k = Some c ->
  call_step tn T now attempt c h = Ok (c', h') -> distrusted j h ps cs -> distrusted j h' ps (<[k := c']> cs).
Proof.
  intros Hk E Hd. pose proof (fun c' => successes_due_call j ps cs k c c' Hk) as Hs.
  assert (forall c', on_call j c' <= on_call j c -> distrusted j h ps (<[k := c']> cs)) as Hsame.
  { intros d Hle. eapply distrusted_due; [|exact Hd]. rewrite Hs. lia. }
  destruct c as [|i|i a|i a e|failed last|failed last [|i rest]|failed last a i rest|failed last e i rest|a]; cbn [call_step] in E.
  - injection E as <- <-. apply Hsame. cbn. destruct Hd as [Hn _]. by rewrite (proj2 (Nat.eqb_neq _ _) Hn).
  - injection E as <- <-. apply Hsame. pose proof (on_call_range j (CActive (A := A) i)). destruct (verdict T _); cbn in *; lia.
  - ok_step E. injection E as <- <-. eapply distrusted_success; [exact Ha|exact Hd|]. rewrite Hs. cbn.
    destruct (Nat.eqb_spec i j), (decide (i = j)); try done; lia.
  - ok_step E. injection E as <- <-. eapply distrusted_endpoint; [exact Ha|exact Hd| |]; rewrite Hs; cbn; [|lia].
    intros e0 _. apply credit_unhealthy. lia.
  - injection E as <- <-. by apply Hsame.
  - injection E as <- <-. by apply Hsame.
  - injection E as <- <-. apply Hsame. by destruct (verdict T _).
  - ok_step E. destruct a0 as [h1 b]. injection E as <- <-. cbn [fst snd]. unfold Promote in Ha.
    destruct (health h !! i) as [e|] eqn:Ei; [|done]. destruct (healthy e) eqn:He; cbn [negb] in Ha.
    + ok_step Ha. injection Ha as <- <-. eapply distrusted_success; [exact Ha0| |rewrite Hs; cbn].
      * apply (distrusted_health j h); [right; by exists e|done|exact Hd].
      * rewrite decide_False; [lia|]. intros ->. destruct Hd as [_ Hc]. destruct (Hc _ Ei). congruence.
    + injection Ha as <- <-. by apply Hsame.
  - ok_step E. injection E as <- <-. eapply distrusted_endpoint; [exact Ha|exact Hd| |]; rewrite Hs; cbn; [|lia].
    intros e0 _. apply credit_unhealthy. lia.
  - injection E as <- <-. by apply Hsame.
Qed.

(** ** Steps of a probe *)

Hypothesis transports : asked = http_asked \/ asked = grpc_asked.
Hypothesis unrefused : ~ refusable primaryEndpoint.
Hypothesis few_calls : Z.of_nat max_calls + 1 < consecutiveThreshold tn.

Lemma failures_keep an i : expected (recordProbeFailure an i) = expected an /\
  expectedByPrimary (recordProbeFailure an i) = expectedByPrimary an.
Proof. unfold recordProbeFailure. by destruct (i =? _)%nat. Qed.
Lemma successes_keep an i : expected (recordProbeSuccess an i) = expected an /\
  expectedByPrimary (recordProbeSuccess an i) = expectedByPrimary an.
Proof. unfold recordProbeSuccess. by destruct (i =? _)%nat. Qed.

(** Once the primary has answered, a probe of another network fails its check. *)
Lemma asked_anchored an i ans an' p' : asked an i ans = (an', p') -> answers_as net refusable i ans ->
  expectedByPrimary an = true -> expected an = Some (net primaryEndpoint) ->
  expectedByPrimary an' = true /\ expected an' = expected an /\ reclaims_next p' = false /\
  (net i <> net primaryEndpoint -> compared p' = false).
Proof.
  intros E [Hid _] Hp Hx.
  assert (forall an, expectedByPrimary an = true -> expected an = Some (net primaryEndpoint) ->
    forall id, pa_identity ans = Ok id -> reclaims an i = false /\
    checkIdentity an i id = (an, if bool_decide (net primaryEndpoint = id) then None else Some (ErrText "identity mismatch"))) as Hc.
  { intros an0 Hp0 Hx0 id _. unfold reclaims, checkIdentity. by rewrite Hp0, andb_false_r, Hx0. }
  destruct (failures_keep an i) as [Hf1 Hf2], (successes_keep an i) as [Hs1 Hs2].
  destruct transports as [->| ->]; unfold http_asked, grpc_asked in E;
    destruct (pa_identity ans) as [id|e|] eqn:Ei; try (injection E as <- <-; by rewrite Hf1, Hf2).
  - destruct (Hc (recordProbeSuccess an i) ltac:(congruence) ltac:(congruence) id eq_refl) as [_ Hk].
    destruct (Hc an Hp Hx id eq_refl) as [Hr _]. assert (reclaims (recordProbeSuccess an i) i = false) as Hr'
      by (unfold reclaims in *; by rewrite Hs2).
    rewrite Hk in E. injection E as <- <-. rewrite Hs1, Hs2. split; [done|]. split; [done|].
    rewrite (Hid _ eq_refl), Hr'. destruct (decide (net primaryEndpoint = net i)) as [e|e];
      [rewrite bool_decide_true by done; split; [done|congruence]|by rewrite bool_decide_false by done].
  - destruct (Hc an Hp Hx id eq_refl) as [Hr Hk]. rewrite Hk in E. injection E as <- <-. split; [done|]. split; [done|].
    rewrite (Hid _ eq_refl), Hr. destruct (decide (net primaryEndpoint = net i)) as [e|e];
      [rewrite bool_decide_true by done; split; [done|congruence]|by rewrite bool_decide_false by done].
Qed.

(** Before, only an answer of the primary anchors, and then it reclaims. *)
Lemma asked_unanchored an i ans an' p' : asked an i ans = (an', p') -> answers_as net refusable i ans ->
  expectedByPrimary an = false ->
  expectedByPrimary an' = false /\ reclaims_next p' = false \/
  i = primaryEndpoint /\ expectedByPrimary an' = true /\ expected an' = Some (net primaryEndpoint) /\ reclaims_next p' = true.
Proof.
  intros E [Hid _] Hp. destruct (failures_keep an i) as [Hf1 Hf2], (successes_keep an i) as [Hs1 Hs2].
  assert (forall an0, expectedByPrimary an0 = false -> forall id a r, pa_identity ans = Ok id -> checkIdentity an0 i id = (a, r) ->
    i = primaryEndpoint /\ r = None /\ reclaims an0 i = true /\ expectedByPrimary a = true /\ expected a = Some (net primaryEndpoint) \/
    reclaims an0 i = false /\ expectedByPrimary a = false) as Hc.
  { intros an0 Hp0 id a r Ei. apply Hid in Ei. unfold checkIdentity, reclaims. rewrite Hp0. cbn [negb].
    destruct (Nat.eqb_spec i primaryEndpoint) as [->|]; cbn [andb].
    - intros [= <- <-]. left. subst id. by repeat split.
    - right. split; [done|]. destruct (expected an0); [by injection H as <- <-|].
      destruct (canAnchor an0 i); by injection H as <- <-. }
  destruct transports as [->| ->]; unfold http_asked, grpc_asked in E;
    destruct (pa_identity ans) as [id|e|] eqn:Ei; try (injection E as <- <-; left; by rewrite Hf2).
  - destruct (checkIdentity (recordProbeSuccess an i) i id) as [a r] eqn:Ec. injection E as <- <-.
    destruct (Hc (recordProbeSuccess an i) ltac:(congruence) id a r eq_refl Ec) as [(-> & -> & Hr & Ha & Hx)|[Hr Ha]].
    + right. by rewrite Hr.
    + left. split; [done|]. destruct r; [done|by rewrite Hr].
  - destruct (checkIdentity an i id) as [a r] eqn:Ec. injection E as <- <-.
    destruct (Hc an Hp id a r eq_refl Ec) as [(-> & -> & Hr & Ha & Hx)|[Hr Ha]].
    + right. by rewrite Hr.
    + left. split; [done|]. destruct r; [done|by rewrite Hr].
Qed.

Lemma successes_due_probe j ps cs i p p' : ps !! i = Some p ->
  successes_due j (<[i := p']> ps) cs = successes_due j ps cs
    - (if decide (i = j) then if compared p then 1 else 0 else 0)
    + (if decide (i = j) then if compared p' then 1 else 0 else 0).
Proof.
  intros E. unfold successes_due, pending. destruct (decide (i = j)) as [->|Hn].
  - rewrite list_lookup_insert_eq by (eapply lookup_lt_Some; eauto). rewrite E. lia.
  - rewrite list_lookup_insert_ne by done. lia.
Qed.

Lemma about_to_reclaim_insert i p p' ps : ps !! i = Some p -> reclaims_next p = false \/ reclaims_next p' = true ->
  about_to_reclaim ps -> about_to_reclaim (<[i := p']> ps).
Proof.
  intros E Hp (q & Hq & Hr). destruct (decide (i = primaryEndpoint)) as [->|Hn].
  - exists p'. rewrite list_lookup_insert_eq by (eapply lookup_lt_Some; eauto). split; [done|].
    destruct Hp as [Hp|Hp]; [congruence|done].
  - exists q. by rewrite list_lookup_insert_ne.
Qed.

(** A step that changes a probe keeps the invariant. *)
Lemma ok_probe_intro h an ps cs i p h' an' p' :
  ok (Build_System h an Probing ps cs) -> ps !! i = Some p ->
  (reclaims_next p' = true -> i = primaryEndpoint /\ expectedByPrimary an' = true) ->
  (expectedByPrimary an = true -> expectedByPrimary an' = true) ->
  (expectedByPrimary an' = true -> expected an' = Some (net primaryEndpoint)) ->
  (expectedByPrimary an' = true ->
     (expectedByPrimary an = true -> about_to_reclaim ps -> about_to_reclaim (<[i := p']> ps) \/
        forall j, net j <> net primaryEndpoint -> distrusted j h' (<[i := p']> ps) cs) /\
     (expectedByPrimary an = true -> forall j, net j <> net primaryEndpoint -> distrusted j h ps cs ->
        distrusted j h' (<[i := p']> ps) cs) /\
     (expectedByPrimary an = false -> about_to_reclaim (<[i := p']> ps))) ->
  ok (Build_System h' an' Probing (<[i := p']> ps) cs).
Proof.
  intros [H1 H2 H3 H4] Ei Hr Hp Hx Hd. cbn [sy_health sy_anchor sy_prober sy_probes sy_calls] in *. split; cbn; [done| |done|].
  - intros k q Hk Hq. destruct (decide (i = k)) as [<-|Hn].
    + rewrite list_lookup_insert_eq in Hk by (eapply lookup_lt_Some; eauto). injection Hk as <-. by destruct (Hr Hq).
    + rewrite list_lookup_insert_ne in Hk by done. destruct (H2 k q Hk Hq) as (? & ? & ?). auto.
  - intros Ha. destruct (Hd Ha) as (D1 & D2 & D3). destruct (expectedByPrimary an) eqn:Hb; [|left; by apply D3].
    destruct (H4 eq_refl) as [Hab|Hdis]; [by apply D1|right]. intros j Hj. by apply D2, Hdis.
Qed.

Lemma probe_ok now h an ps cs i ans p p' h' an' :
  ok (Build_System h an Probing ps cs) -> ps !! i = Some p -> answers_as net refusable i ans ->
  probe_step asked tn now i ans p h an = Ok (p', h', an') -> ok (Build_System h' an' Probing (<[i := p']> ps) cs).
Proof.
  intros Hok Ei Ha E. pose proof Hok as [H1 H2 H3 H4]. cbn [sy_health sy_anchor sy_prober sy_probes sy_calls] in *.
  pose proof (fun j p' => successes_due_probe j ps cs i p p' Ei) as Hs.
  destruct p as [|rc| |r|]; cbn [probe_step] in E.
  - destruct (asked an i ans) as [an1 p1] eqn:Eask. injection E as -> <- ->.
    destruct (expectedByPrimary an) eqn:Hb.
    + destruct (asked_anchored an i ans an' p' Eask Ha Hb (H3 eq_refl)) as (Hb' & Hx & Hr & Hc).
      eapply ok_probe_intro; [exact Hok|exact Ei|congruence|done|intros; rewrite Hx; by apply H3|]. intros _.
      split; [intros _ Hab; left; eapply about_to_reclaim_insert; eauto|]. split; [|congruence].
      intros _ j Hj Hd. eapply distrusted_due; [|exact Hd]. rewrite Hs. cbn [compared].
      case_decide as D; [subst j; rewrite (Hc Hj)|]; lia.
    + destruct (asked_unanchored an i ans an' p' Eask Ha Hb) as [[Hb' Hr]|(-> & Hb' & Hx & Hr)];
        (eapply ok_probe_intro; [exact Hok|exact Ei|intros; first [congruence|by split]|congruence|congruence|]).
      * congruence.
      * intros _. split; [congruence|]. split; [congruence|]. intros _. exists p'. split; [|done].
        apply list_lookup_insert_eq. eapply lookup_lt_Some; eauto.
  - unfold validated in E. destruct (failures_keep an i) as [Hf1 Hf2], (successes_keep an i) as [Hs1 Hs2].
    destruct rc.
    + destruct (H2 i _ Ei eq_refl) as (-> & _ & Hb). destruct Ha as [_ [Hv|Hv]]; [|done]. rewrite Hv in E.
      injection E as <- <- <-. eapply ok_probe_intro; [exact Hok|exact Ei|by rewrite Hs2|by rewrite Hs2|by rewrite Hs1, Hs2|].
      intros _. split; [intros _ Hab; left; eapply about_to_reclaim_insert; eauto|]. split; [|congruence].
      intros _ j Hj Hd. eapply distrusted_due; [|exact Hd]. rewrite Hs. cbn. case_decide; lia.
    + assert (exists r, p' = PResult r /\ h' = h /\ expectedByPrimary an' = expectedByPrimary an /\ expected an' = expected an)
        as (r & -> & -> & Hb & Hx) by (destruct (pa_validators ans); injection E as <- <- <-; eauto).
      eapply ok_probe_intro; [exact Hok|exact Ei|done|by rewrite Hb|by rewrite Hb, Hx|]. intros Hb'. rewrite Hb in Hb'.
      split; [intros _ Hab; left; eapply about_to_reclaim_insert; eauto|]. split; [|congruence].
      intros _ j Hj Hd. eapply distrusted_due; [|exact Hd]. rewrite Hs. cbn. destruct r; case_decide; lia.
  - destruct (H2 i _ Ei eq_refl) as (-> & _ & Hb). ok_step E. injection E as <- <- <-.
    assert (forall j, net j <> net primaryEndpoint -> distrusted j a (<[primaryEndpoint := PResult None]> ps) cs) as Hd.
    { intros j Hj. eapply reclaim_distrusts; [exact Ha0|congruence|].
      pose proof (successes_due_range j (<[primaryEndpoint := PResult None]> ps) cs). lia. }
    eapply ok_probe_intro; [exact Hok|exact Ei|done|done|done|]. intros _. split; [by right|]. split; [auto|congruence].
  - ok_step E. injection E as <- <- <-.
    eapply ok_probe_intro; [exact Hok|exact Ei|done|done|done|]. intros Hb.
    split; [intros _ Hab; left; eapply about_to_reclaim_insert; eauto|]. split; [|congruence].
    intros _ j Hj Hd. destruct r as [e|]; cbn [applyProbe] in Ha0.
    + eapply distrusted_endpoint; [exact Ha0|exact Hd|intros e0 _; apply credit_unhealthy|]; rewrite Hs; cbn; case_decide; lia.
    + eapply distrusted_success; [exact Ha0|exact Hd|]. rewrite Hs. cbn. case_decide; lia.
  - injection E as <- <- <-. by rewrite list_insert_id.
Qed.

(** ** Reachable states *)

Lemma initial_ok s : initial net s -> ok s.
Proof.
  intros [n h answer Hn Ha]. split; cbn; [lia|done| |].
  - intros Hb. apply bool_decide_eq_true in Hb as [id Hid]. rewrite Hid. by rewrite (Ha id).
  - intros _. right. intros j Hj. destruct n as [|n]; [done|]. injection Hn as <-.
    assert (j <> 0%nat) as H0 by (intros ->; by apply Hj). split; [cbn; congruence|].
    destruct j as [|j]; [done|]. cbn. intros e He. apply list_elem_of_lookup_2, repeat_elem in He as ->.
    apply credit_reset; [|done|done]. unfold successes_due, pending. rewrite lookup_nil. cbn. lia.
Qed.

(** A step that leaves the probes alone or forgets them. *)
Lemma ok_keep h h' an pr pr' ps ps' cs cs' : ok (Build_System h an pr ps cs) ->
  (length (List.filter in_flight cs') <= max_calls)%nat ->
  (ps' = ps /\ (pr' = pr \/ Forall (fun p => reclaims_next p = false) ps) \/
   pr <> Probing /\ Forall (fun p => p = PAsked) ps') ->
  (forall j, distrusted j h ps cs -> distrusted j h' ps' cs') ->
  ok (Build_System h' an pr' ps' cs').
Proof.
  intros [H1 H2 H3 H4] Hm Hps Hd. cbn [sy_health sy_anchor sy_prober sy_probes sy_calls] in *. split; cbn; [done| |done|].
  - intros i q Hi Hq. destruct Hps as [[-> [->|HF]]|[_ HF]]; [by eauto| |].
    + rewrite (Forall_lookup_1 _ _ _ _ HF Hi) in Hq. done.
    + by rewrite (Forall_lookup_1 _ _ _ _ HF Hi) in Hq.
  - intros Hb. destruct (H4 Hb) as [(q & Hq & Hr)|Hdis].
    + destruct Hps as [[-> _]|[Hpr _]]; [left; by exists q|]. by destruct (H2 _ _ Hq Hr) as (_ & ? & _).
    + right. intros j Hj. by apply Hd, Hdis.
Qed.

Lemma pending_asked j n : pending j (repeat PAsked n) = 0.
Proof.
  unfold pending. destruct (repeat PAsked n !! j) as [p|] eqn:E; [|done].
  by apply list_elem_of_lookup_2, repeat_elem in E as ->.
Qed.

Lemma step_ok s s' : step tn T asked net refusable max_calls s s' -> ok s -> ok s'.
Proof.
  intros Hstep Hok. destruct Hstep as [h an ps cs Hn|now h an ps cs i ans p p' h' an' Ei Ha E|now h an ps cs HF
    |now h an ps cs h' E|h an pr ps cs Hm|now attempt h an pr ps cs k c c' h' Hk E]; pose proof (ok_requests _ Hok) as Hreq;
    cbn [sy_calls] in Hreq.
  - eapply ok_keep; [exact Hok|done|right; split; [done|apply Forall_forall; by intros p Hp%repeat_elem]|].
    intros j. apply distrusted_due. unfold successes_due. rewrite pending_asked. pose proof (pending_range j ps). lia.
  - by eapply probe_ok.
  - eapply ok_keep; [exact Hok|done|left; split; [done|right; eapply Forall_impl; [exact HF|by intros p ->]]|].
    intros j. destruct (maybePromote_healthy tn now h) as [Hh Ha]. by apply distrusted_health.
  - eapply ok_keep; [exact Hok|done|left; split; [done|right]|].
    + apply Forall_lookup_2. intros i p Hi. destruct (reclaims_next p) eqn:Hr; [|done].
      by destruct (ok_probes _ Hok i p Hi Hr) as (_ & ? & _).
    + intros j. unfold maybeProactiveSwitch in E. destruct (health h !! active h) as [e|]; [|done].
      destruct (healthy e); [by injection E as <-|]. destruct (bestHealthy tn now h) as [i|] eqn:Eb; injection E as <-; [|done].
      apply distrusted_health; [right|done]. by eapply bestHealthy_healthy.
  - eapply ok_keep; [exact Hok| |left; split; [done|by left]|].
    + rewrite List.filter_app, length_app. cbn. lia.
    + intros j. apply distrusted_due. unfold successes_due. rewrite map_app, Zsum_app. cbn. lia.
  - eapply ok_keep; [exact Hok| |left; split; [done|by left]|].
    + etransitivity; [|exact Hreq]. eapply in_flight_insert; [exact Hk|by eapply call_step_in_flight].
    + intros j. by eapply call_keeps_distrust.
Qed.

Lemma reachable_ok s : reachable tn T asked net refusable max_calls s -> ok s.
Proof. induction 1 as [s Hi|s s' _ IH Hs]; [by apply initial_ok|by eapply step_ok]. Qed.
End invariant.

(** ** Properties *)

(** C19: no endpoint of another network is trusted.  Once the primary has answered
    and reclaimed the identity, every endpoint that is active or that a request may
    fail over to is on the network of the primary, however the steps of the probes
    and of at most [max_calls] concurrent requests interleave, as long as the
    requests and one probe are fewer than the successes that make an endpoint
    healthy, and the validators do not refuse the primary. *)
Theorem trusted_on_primary_network {I A : Type} `{EqDecision I} tn (T : Transport A) asked (net : nat -> I) refusable max_calls
    (s : System I A) now failed j :
  asked = http_asked \/ asked = grpc_asked -> ~ refusable primaryEndpoint ->
  Z.of_nat max_calls + 1 < consecutiveThreshold tn ->
  reachable tn T asked net refusable max_calls s ->
  expectedByPrimary (sy_anchor s) = true -> ~ about_to_reclaim (sy_probes s) ->
  j = active (sy_health s) \/ j ∈ Candidates tn now (sy_health s) failed ->
  net j = net primaryEndpoint.
Proof.
  intros HT HU HM HR Hb Hab Hj. destruct (reachable_ok _ T asked _ _ _ HT HU HM s HR) as [_ _ _ Hd].
  destruct (Hd Hb) as [?|Hdis]; [done|]. destruct (decide (net j = net primaryEndpoint)) as [|Hn]; [done|exfalso].
  destruct (Hdis j Hn) as [Ha Hc]. destruct Hj as [->|(Hf & e & He & Ht)%elem_of_Candidates]; [done|].
  destruct (Hc e He). congruence.
Qed.

(** ** A request alone *)

Lemma filter_filter {A} (f g : A -> bool) l : List.filter f (List.filter g l) = List.filter (fun x => g x && f x) l.
Proof. induction l as [|x l IH]; [done|]. cbn. destruct (g x); cbn; [|done]. by rewrite IH. Qed.

Section alone.
Context {A : Type} (tn : Tuning) (T : Transport A) (now : Z) (attempt : nat -> A).

(** The candidates do not depend on the endpoint that failed. *)
Lemma Candidates_others h h' failed : length (health h') = length (health h) ->
  (forall i, i <> failed -> health h' !! i = health h !! i) ->
  Candidates tn now h' failed = Candidates tn now h failed.
Proof.
  intros Hl Hi. unfold Candidates, indices. rewrite !filter_filter, Hl.
  assert (forall p : endpointHealth -> bool, List.filter (fun i => match health h' !! i with Some e => p e | None => false end
      && negb (i =? failed)%nat) (seq 0 (length (health h)))
    = List.filter (fun i => match health h !! i with Some e => p e | None => false end && negb (i =? failed)%nat)
        (seq 0 (length (health h)))) as Hext.
  { intros p. apply filter_ext. intros i. destruct (Nat.eqb_spec i failed); [by rewrite !andb_false_r|by rewrite Hi]. }
  f_equal; apply Hext.
Qed.
Lemma Candidates_NoDup h failed : NoDup (Candidates tn now h failed).
Proof.
  unfold Candidates, indices. rewrite !filter_filter. apply NoDup_app. split; [|split].
  - apply NoDup_ListNoDup, List.NoDup_filter, seq_NoDup.
  - intros i. rewrite !list_filter_elem. intros [_ H1] [_ H2]. destruct (health h !! i) as [e|]; [|done].
    destruct (healthy e), (cooled tn now e); done.
  - apply NoDup_ListNoDup, List.NoDup_filter, seq_NoDup.
Qed.

(** What a request comes to that tries the endpoints of a list in order, and the
    endpoint that served it. *)
Fixpoint first_answer (last : A) (l : list nat) : A * option nat :=
  match l with
  | [] => (last, None)
  | i :: rest =>
      match verdict T (attempt i) with
      | Succeeded => (attempt i, Some i)
      | Final => (attempt i, None)
      | Retry _ => first_answer (attempt i) rest
      end
  end.

Lemma run_call_done fuel a h : run_call tn T fuel now attempt (CDone a) h = Ok (CDone a, h).
Proof. by destruct fuel. Qed.
Lemma on_endpoint_ok h i f : (i < length (health h))%nat ->
  on_endpoint h i f = Ok {| health := alter f i (health h); active := active h |}.
Proof.
  intros Hi. unfold on_endpoint. destruct (lookup_lt_is_Some_2 _ _ Hi) as [e He]. rewrite He. f_equal. f_equal.
  apply list_eq. intros k. destruct (decide (i = k)) as [<-|Hn].
  - by rewrite list_lookup_insert_eq, list_lookup_alter_eq, He.
  - by rewrite list_lookup_insert_ne, list_lookup_alter_ne.
Qed.

Lemma run_cascade failed rest : forall last h fuel, (2 * length rest + 1 <= fuel)%nat -> NoDup rest ->
  (forall i, i ∈ rest -> exists e, health h !! i = Some e /\ healthy e = true) ->
  exists h', run_call tn T fuel now attempt (CCascade failed last rest) h = Ok (CDone (first_answer last rest).1, h') /\
    active h' = default (active h) (first_answer last rest).2.
Proof.
  induction rest as [|i rest IH]; intros last h fuel Hf ND Hh; (destruct fuel as [|fuel]; [cbn in Hf; lia|]).
  - cbn. rewrite run_call_done. by exists h.
  - apply NoDup_cons in ND as [Hn ND]. destruct (Hh i ltac:(by left)) as (e & He & Ht).
    pose proof (lookup_lt_Some _ _ _ He) as Hi. cbn [length] in Hf. destruct fuel as [|fuel]; [lia|].
    cbn [run_call call_step mbind outcome_bind first_answer fst snd]. destruct (verdict T (attempt i)) as [| |e'] eqn:Ev.
    + cbn [fst snd call_step]. unfold Promote, MarkSuccess. rewrite He, Ht. cbn [negb].
      rewrite on_endpoint_ok by done. cbn. rewrite run_call_done. by eexists.
    + cbn. exists h. by destruct fuel.
    + cbn [fst snd call_step]. unfold MarkUnhealthy. rewrite on_endpoint_ok by done. cbn [mbind outcome_bind fst snd].
      edestruct (IH (attempt i) {| health := alter (unhealthy_with (Some e')) i (health h); active := active h |} fuel)
        as (h' & Hr & Ha); [lia|done| |by exists h'].
      intros k Hk. cbn. rewrite list_lookup_alter_ne by (intros ->; done). apply Hh. by right.
Qed.
End alone.

(** A request is answered by the first endpoint that can: the active one, then
    the healthy ones, those past the cooldown first and in the order of their
    priority, each at most once, up to the first that answers or fails for good;
    the one that answers is active then, and the request ends without a panic
    within [call_fuel] steps. *)
Theorem request_served_by_first {A : Type} tn (T : Transport A) now (attempt : nat -> A) (h : Health) :
  (active h < length (health h))%nat ->
  let r := first_answer T attempt (attempt (active h)) (active h :: Candidates tn now h (active h)) in
  NoDup (active h :: Candidates tn now h (active h)) /\
  exists h', run_call tn T (call_fuel h) now attempt CStart h = Ok (CDone r.1, h') /\ active h' = default (active h) r.2.
Proof.
  intros Hact r. set (a := active h) in *. assert (a ∉ Candidates tn now h a) as Hna by (rewrite elem_of_Candidates; tauto).
  pose proof (Candidates_NoDup tn now h a) as ND. split; [by apply NoDup_cons|].
  assert (length (Candidates tn now h a) <= length (health h))%nat as Hlen.
  { rewrite <- (length_seq (length (health h)) 0). apply submseteq_length, NoDup_submseteq; [done|].
    intros i (_ & e & He & _)%elem_of_Candidates. apply elem_of_seq. apply lookup_lt_Some in He. lia. }
  unfold call_fuel. replace (2 * length (health h) + 6)%nat with (S (S (S (S (2 * length (health h) + 2))))) by lia.
  cbn [run_call call_step mbind outcome_bind fst snd]. fold a. unfold r. cbn [first_answer].
  destruct (verdict T (attempt a)) as [| |e]; cbn [run_call call_step mbind outcome_bind fst snd].
  - unfold MarkSuccess. rewrite on_endpoint_ok by done. cbn. by eexists.
  - by exists h.
  - unfold MarkUnhealthy. rewrite on_endpoint_ok by done. cbn [run_call call_step mbind outcome_bind fst snd].
    match goal with |- context [run_call _ _ _ _ _ _ ?x] => set (h1 := x) end.
    assert (Candidates tn now h1 a = Candidates tn now h a) as Hc.
    { apply Candidates_others; cbn; [apply length_alter|]. intros i Hi. by rewrite list_lookup_alter_ne. }
    rewrite Hc. edestruct (run_cascade tn T now attempt a (Candidates tn now h a) (attempt a) h1) as (h' & Hr & Ha);
      [|exact ND| |rewrite Hr; by exists h']; [lia|].
    intros i (Hi & e0 & He0 & Ht)%elem_of_Candidates. exists e0. cbn. by rewrite list_lookup_alter_ne.
Qed.

(** ** Schedules

    A schedule is a list of steps; [run_schedule] executes it. *)

Module FailoverDemo.
Definition Reply : Type := outcome Z * bool.

Inductive event :=
| ETick
| EProbe (now : Z) (i : nat) (ans : ProbeAnswer Z)
| EPromote (now : Z)
| ESwitch (now : Z)
| ERequest
| ECall (now : Z) (k : nat) (a : Reply).

Section exec.
Variables (asked : Anchor Z -> nat -> ProbeAnswer Z -> Anchor Z * ProbeState) (net : nat -> Z) (max_calls : nat).
(** The validators may refuse the endpoints of [refusable]. *)
Variable refusable : nat -> bool.

Definition answer_ok (i : nat) (ans : ProbeAnswer Z) : bool :=
  match pa_identity ans with Ok id => id =? net i | _ => true end
  && match pa_validators ans with None => true | Some _ => refusable i end.
Definition applied (p : ProbeState) : bool := match p with PApplied => true | _ => false end.

Definition exec (e : event) (s : System Z Reply) : option (System Z Reply) :=
  let 'Build_System h an pr ps cs := s in
  match e, pr with
  | ETick, Waiting => if (1 <? length (health h))%nat
      then Some (Build_System h an Probing (repeat PAsked (length (health h))) cs) else None
  | EProbe now i ans, Probing =>
      match ps !! i with
      | Some p =>
          if answer_ok i ans then
            match probe_step asked default_tuning now i ans p h an with
            | Ok (p', h', an') => Some (Build_System h' an' Probing (<[i := p']> ps) cs)
            | _ => None
            end
          else None
      | None => None
      end
  | EPromote now, Probing =>
      if forallb applied ps then Some (Build_System (maybePromote default_tuning now h) an Switching ps cs) else None
  | ESwitch now, Switching =>
      match maybeProactiveSwitch default_tuning now h with Ok h' => Some (Build_System h' an Waiting ps cs) | _ => None end
  | ERequest, _ =>
      if (length (List.filter in_flight cs) <? max_calls)%nat then Some (Build_System h an pr ps (cs ++ [CStart])) else None
  | ECall now k a, _ =>
      match cs !! k with
      | Some c => match call_step default_tuning http_transport now (fun _ => a) c h with
                  | Ok (c', h') => Some (Build_System h' an pr ps (<[k := c']> cs))
                  | _ => None
                  end
      | None => None
      end
  | _, _ => None
  end.
Definition run_schedule (l : list event) (s : System Z Reply) : option (System Z Reply) :=
  foldl (fun o e => s ← o; exec e s) (Some s) l.

#[local] Abbreviation step := (step default_tuning http_transport asked net (fun i => refusable i = true) max_calls).

Lemma exec_step e s s' : exec e s = Some s' -> step s s'.
Proof.
  destruct s as [h an pr ps cs]. destruct e as [|now i ans|now|now| |now k a], pr; cbn [exec]; try done; intros H.
  - destruct (Nat.ltb_spec 1 (length (health h))); [|done]. injection H as <-. by constructor.
  - destruct (ps !! i) as [p|] eqn:Ei; [|done]. destruct (answer_ok i ans) eqn:Ha; [|done].
    destruct (probe_step _ _ _ _ _ _ _ _) as [[[p' h'] an']| |] eqn:E; try done. injection H as <-.
    eapply step_probe; [exact Ei| |exact E]. unfold answer_ok in Ha. apply andb_true_iff in Ha as [Ha Hv]. split.
    + intros id Hid. rewrite Hid in Ha. by apply Z.eqb_eq in Ha.
    + destruct (pa_validators ans); [by right|by left].
  - destruct (forallb applied ps) eqn:HF; [|done]. injection H as <-. constructor. rewrite forallb_forall in HF.
    apply Forall_forall. intros p Hp%list_elem_of_In%HF. by destruct p.
  - destruct (maybeProactiveSwitch _ _ _) as [h'| |] eqn:E; try done. injection H as <-. by eapply step_switch.
  - destruct (Nat.ltb_spec (length (List.filter in_flight cs)) max_calls); [|done]. injection H as <-. by constructor.
  - destruct (Nat.ltb_spec (length (List.filter in_flight cs)) max_calls); [|done]. injection H as <-. by constructor.
  - destruct (Nat.ltb_spec (length (List.filter in_flight cs)) max_calls); [|done]. injection H as <-. by constructor.
  - destruct (cs !! k) as [c|] eqn:Ek; [|done]. destruct (call_step _ _ _ _ _ _) as [[c' h']| |] eqn:E; try done.
    injection H as <-. by eapply step_call.
  - destruct (cs !! k) as [c|] eqn:Ek; [|done]. destruct (call_step _ _ _ _ _ _) as [[c' h']| |] eqn:E; try done.
    injection H as <-. by eapply step_call.
  - destruct (cs !! k) as [c|] eqn:Ek; [|done]. destruct (call_step _ _ _ _ _ _) as [[c' h']| |] eqn:E; try done.
    injection H as <-. by eapply step_call.
Qed.
Lemma run_schedule_reachable l s s' :
  reachable default_tuning http_transport asked net (fun i => refusable i = true) max_calls s -> run_schedule l s = Some s' ->
  reachable default_tuning http_transport asked net (fun i => refusable i = true) max_calls s'.
Proof.
  unfold run_schedule. revert s. induction l as [|e l IH]; intros s HR E; cbn [foldl] in E; [by injection E as <-|].
  destruct (exec e s) as [s1|] eqn:E1; cbn in E; rewrite ?E1 in E; [|exfalso; clear -E; by induction l].
  eapply IH; [|exact E]. eapply reachable_step; [exact HR|by eapply exec_step].
Qed.
End exec.

(** Two endpoints; the fallback is on another network, the primary is down at first. *)
Definition demo_net (i : nat) : Z := if (i =? 0)%nat then 137 else 80002.
Definition demo_health : Health :=
  {| health := [{| healthy := true; consecutiveSuccess := 0; healthySince := None; lastErr := None |}; untested];
     active := 0 |}.
Definition demo_start : System Z Reply := Build_System demo_health (captureExpected None) Waiting [] [].
Definition no_answer : ProbeAnswer Z := {| pa_identity := Err (ErrText "down"); pa_validators := None |}.
Definition answer (i : nat) : ProbeAnswer Z := {| pa_identity := Ok (demo_net i); pa_validators := None |}.
(** A cycle of the prober in which a probe takes as many steps as are listed. *)
Definition cycle_with (now : Z) (l : list (nat * ProbeAnswer Z)) : list event :=
  ETick :: map (fun p => EProbe now p.1 p.2) l ++ [EPromote now; ESwitch now].
Definition primary_down (now : Z) : list event :=
  cycle_with now [(0, no_answer); (0, no_answer); (1, answer 1); (1, answer 1)]%nat.
Definition primary_back (now : Z) : list event :=
  cycle_with now [(0, answer 0); (0, answer 0); (0, answer 0); (1, answer 1); (1, answer 1)]%nat.
Definition served : Reply := (Ok 200, false).
Definition request (k : nat) : list event := [ECall 0 k served; ECall 0 k served; ECall 0 k served].

Lemma demo_initial : initial demo_net demo_start.
Proof. by apply (initial_intro demo_net 2). Qed.

(** The primary is down for four cycles, the fallback serves, then the primary is
    back and the request that was under way ends. *)
Definition demo_schedule : list event :=
  primary_down 10 ++ primary_down 20 ++ primary_down 30 ++ primary_down 40 ++
  [ERequest; ECall 41 0 served] ++ primary_back 50 ++ [ECall 51 0 served; ECall 52 0 served].
Definition demo_end : option (System Z Reply) := run_schedule http_asked demo_net 1 (fun _ => false) demo_schedule demo_start.

Lemma trusted_on_primary_network_witness :
  exists s, demo_end = Some s /\ active (sy_health s) = 0%nat /\ demo_net (active (sy_health s)) = demo_net primaryEndpoint.
Proof.
  destruct demo_end as [s|] eqn:E; [|vm_compute in E; discriminate E]. exists s. split; [reflexivity|].
  assert (expectedByPrimary (sy_anchor s) = true /\ active (sy_health s) = 0%nat /\ ~ about_to_reclaim (sy_probes s)) as (Hp & Ha & Hs).
  { vm_compute in E. injection E as <-. split; [reflexivity|]. split; [reflexivity|].
    intros (p & Hp & Hr). injection Hp as <-. discriminate Hr. }
  split; [exact Ha|].
  apply (trusted_on_primary_network default_tuning http_transport http_asked demo_net (fun i => false = true) 1 s 60 0).
  - by left.
  - done.
  - reflexivity.
  - eapply run_schedule_reachable; [apply reachable_initial, demo_initial|exact E].
  - exact Hp.
  - exact Hs.
  - by left.
Defined.

Lemma request_served_by_first_witness :
  exists h', run_call default_tuning http_transport (call_fuel demo_health) 5 (fun i => (Ok (if (i =? 0)%nat then 503 else 200), false)) CStart
      demo_health = Ok (CDone (Ok 503, false), h') /\ active h' = 0%nat.
Proof.
  destruct (request_served_by_first default_tuning http_transport 5 (fun i => (Ok (if (i =? 0)%nat then 503 else 200), false)) demo_health)
    as (_ & h' & H1 & H2); [cbn; lia|]. exists h'. split; [exact H1|exact H2].
Defined.

(** The bound on the requests is needed: three requests that the fallback of another
    network was serving when the primary came back make it a candidate again, though
    no probe confirmed it since. *)
Lemma stale_requests_revalidate :
  exists s, reachable default_tuning http_transport http_asked demo_net (fun i => false = true) 3 s /\
    expectedByPrimary (sy_anchor s) = true /\ sy_probes s = [PApplied; PApplied] /\
    1%nat ∈ Candidates default_tuning 60 (sy_health s) 0 /\ demo_net 1 <> demo_net primaryEndpoint.
Proof.
  destruct (run_schedule http_asked demo_net 3 (fun _ => false)
    (primary_down 10 ++ primary_down 20 ++ primary_down 30 ++ primary_down 40 ++
     [ERequest; ERequest; ERequest; ECall 41 0 served; ECall 41 1 served; ECall 41 2 served] ++ primary_back 50 ++
     [ECall 51 0 served; ECall 52 0 served; ECall 51 1 served; ECall 52 1 served; ECall 51 2 served; ECall 52 2 served])
    demo_start) as [s|] eqn:E; [|vm_compute in E; discriminate E].
  exists s. split; [eapply run_schedule_reachable; [apply reachable_initial, demo_initial|exact E]|].
  vm_compute in E. injection E as <-. repeat split; try reflexivity; [vm_compute; set_solver|done].
Qed.

(** So is the condition on the validators: over gRPC a primary that answers but that
    its validators refuse takes the identity without reclaiming it, and a fallback
    of another network stays active. *)
Lemma refused_primary_keeps_fallback :
  exists s, reachable default_tuning http_transport grpc_asked demo_net (fun i => (i =? 0)%nat = true) 0 s /\
    expectedByPrimary (sy_anchor s) = true /\ ~ about_to_reclaim (sy_probes s) /\
    active (sy_health s) = 1%nat /\ demo_net 1 <> demo_net primaryEndpoint.
Proof.
  set (refused := {| pa_identity := Ok (demo_net 0); pa_validators := Some (ErrText "hash mismatch") |}).
  set (down now := cycle_with now [(0, no_answer); (0, no_answer); (1, answer 1); (1, answer 1); (1, answer 1)]%nat).
  set (early now := cycle_with now [(0, no_answer); (0, no_answer); (1, answer 1); (1, answer 1)]%nat).
  destruct (run_schedule grpc_asked demo_net 0 (fun i => (i =? 0)%nat)
    (early 10 ++ down 20 ++ down 30 ++ down 40 ++
     [ETick; EProbe 50 1 (answer 1); EProbe 50 1 (answer 1); EProbe 50 1 (answer 1); EProbe 50 0 refused; EProbe 50 0 refused; EProbe 50 0 refused;
      EPromote 50; ESwitch 50]) demo_start) as [s|] eqn:E; [|vm_compute in E; discriminate E].
  exists s. split; [eapply run_schedule_reachable; [apply reachable_initial, demo_initial|exact E]|].
  vm_compute in E. injection E as <-. split; [reflexivity|]. split; [|by split].
  intros (p & Hp & Hr). injection Hp as <-. discriminate Hr.
Qed.
End FailoverDemo.
