(* ===== verification/Parity.v ===== *)
(** * The parity of Bor's two transports

    Models the check that gRPC and HTTP answer the same headers: the background loop at the
    start of a node ([helper/config.go], [runBorGRPCHashParityCheckWith]) and the validator of
    the failover client, which keeps an endpoint with other headers out of use
    ([helper/bor_failover_config.go], [x/bor/grpc/failover.go]).  The endpoints' answers are
    functions of the number of calls made so far; timeouts and pauses only decide them. *)
From S2P Require Import Prelude Helpers Failover.
#[local] Open Scope Z_scope.

(** Headers as the two transports answer them; [None]: an error, or no header. *)
Class ParityNodes := {
  PHeader : Type;
  ph_Number : PHeader -> Z;                                (* a big integer *)
  ph_Hash : PHeader -> bytes;
  http_header : nat -> option Z -> option PHeader;         (* call, number or the latest *)
  grpc_header : nat -> nat -> Z -> option PHeader;         (* call, endpoint, block *)
}.

Definition borGRPCParityMaxAttempts : nat := 60.
Definition borGRPCParityDepth : Z := 32.
Definition borGRPCParityMismatchStreak : Z := 3.

Section check.
Context {PN : ParityNodes}.

(** A function that asks: the calls made before and after. *)
Definition resolveParityTargetHeight (n : nat) : nat * option Z :=
  (S n, match http_header n None with
        | None => None
        | Some latest =>
            let latestNum := i64 (ph_Number latest) in
            if latestNum <? borGRPCParityDepth then None else Some (latestNum - borGRPCParityDepth)
        end).
(** The header of HTTP and that of gRPC; [None]: unavailable, or a reorganisation meanwhile. *)
Definition fetchStableHeadersAtHeight (i : nat) (targetNum : Z) (n : nat) : nat * option (PHeader * PHeader) :=
  match http_header n (Some targetNum) with
  | None => (S n, None)
  | Some httpHeader =>
      match grpc_header (S n) i targetNum with
      | None => (S (S n), None)
      | Some grpcHeader =>
          (S (S (S n)),
           match http_header (S (S n)) (Some targetNum) with
           | None => None
           | Some httpHeader2 =>
               if negb (bool_decide (ph_Hash httpHeader2 = ph_Hash httpHeader)) then None else Some (httpHeader, grpcHeader)
           end)
      end
  end.

(** [ok] and [mismatch] of a check. *)
Definition checkBorGRPCHashParityOnce (i : nat) (n : nat) : nat * (bool * bool) :=
  match resolveParityTargetHeight n with
  | (n, None) => (n, (false, false))
  | (n, Some targetNum) =>
      match fetchStableHeadersAtHeight i targetNum n with
      | (n, None) => (n, (false, false))
      | (n, Some (httpHeader, grpcHeader)) =>
          (n, if negb (bool_decide (ph_Hash grpcHeader = ph_Hash httpHeader)) then (false, true) else (true, false))
      end
  end.

Definition updateParityMismatchStreak (current : Z) (mismatch : bool) (streakLimit : Z) : Z * bool :=
  if negb mismatch then (0, false) else (current + 1, streakLimit <=? current + 1).

(** ** The loop at the start *)

(** The transports agree; the node is halted after that many mismatches in a row; or the
    attempts are used up. *)
Inductive ParityEnd := ParityPassed | ParityFatal (consecutiveMismatches : Z) | ParityGaveUp.

Fixpoint parity_attempts (i : nat) (attempts : nat) (mismatches : Z) (n : nat) : nat * ParityEnd :=
  match attempts with
  | O => (n, ParityGaveUp)
  | S attempts =>
      let '(n, (ok, mismatch)) := checkBorGRPCHashParityOnce i n in
      if ok then (n, ParityPassed)
      else
        let '(next, fatal) := updateParityMismatchStreak mismatches mismatch borGRPCParityMismatchStreak in
        if fatal then (n, ParityFatal next) else parity_attempts i attempts next n
  end.
Definition runBorGRPCHashParityCheckWith (i : nat) (maxAttempts : nat) (n : nat) : nat * ParityEnd :=
  parity_attempts i maxAttempts 0 n.

(** ** The validator of a probe *)

(** The calls made and the mismatches of the primary in a row. *)
Record ParityState := { pv_calls : nat; primaryMismatches : Z }.

(** Whether [fatalFunc] was called, and the error. *)
Definition borGRPCParityValidator (i : nat) (st : ParityState) : ParityState * (bool * option error) :=
  let '(n, (_, mismatch)) := checkBorGRPCHashParityOnce i (pv_calls st) in
  let '(next, fatal) :=
    if (i =? primaryEndpoint)%nat then updateParityMismatchStreak (primaryMismatches st) mismatch borGRPCParityMismatchStreak
    else (primaryMismatches st, false) in
  ({| pv_calls := n; primaryMismatches := next |},
   (fatal, if mismatch then Some (ErrText "bor gRPC endpoint hash mismatch with HTTP") else None)).
Definition borGRPCParityValidators (httpClient : bool) : list (nat -> ParityState -> ParityState * (bool * option error)) :=
  if negb httpClient then [] else [borGRPCParityValidator].

(** The validators of a probe, up to the first error; a validator may be missing. *)
Fixpoint validateEndpoint (validators : list (option (nat -> ParityState -> ParityState * (bool * option error))))
    (i : nat) (st : ParityState) : ParityState * (bool * option error) :=
  match validators with
  | [] => (st, (false, None))
  | None :: validators => validateEndpoint validators i st
  | Some validate :: validators =>
      let '(st, (fatal, err)) := validate i st in
      match err with
      | Some e => (st, (fatal, Some e))
      | None => let '(st, (fatal', err)) := validateEndpoint validators i st in (st, (fatal || fatal', err))
      end
  end.
End check.

(** * The parity check is exact

    A mismatch is a real disagreement, and the checks end as their results in a row say:
    with the first agreement, or with three mismatches in a row, whatever comes first. *)
Section parity.
Context {PN : ParityNodes}.

(** ** One check *)

(** HTTP told the same header for a settled height before and after gRPC was asked for it. *)
Definition compared (i : nat) (httpHeader grpcHeader : PHeader) : Prop :=
  exists n latest targetNum httpHeader2,
    http_header n None = Some latest /\ targetNum = i64 (ph_Number latest) - borGRPCParityDepth /\ 0 <= targetNum /\
    http_header (S n) (Some targetNum) = Some httpHeader /\ grpc_header (S (S n)) i targetNum = Some grpcHeader /\
    http_header (S (S (S n))) (Some targetNum) = Some httpHeader2 /\ ph_Hash httpHeader2 = ph_Hash httpHeader.
Definition disagreement (i : nat) : Prop :=
  exists httpHeader grpcHeader, compared i httpHeader grpcHeader /\ ph_Hash grpcHeader <> ph_Hash httpHeader.
Definition agreement (i : nat) : Prop :=
  exists httpHeader grpcHeader, compared i httpHeader grpcHeader /\ ph_Hash grpcHeader = ph_Hash httpHeader.

Definition result_meant (i : nat) (r : bool * bool) : Prop :=
  (r.1 = true -> agreement i /\ r.2 = false) /\ (r.2 = true -> disagreement i /\ r.1 = false).

Lemma check_meant i n n' r : checkBorGRPCHashParityOnce i n = (n', r) -> result_meant i r.
Proof.
  unfold checkBorGRPCHashParityOnce, resolveParityTargetHeight, fetchStableHeadersAtHeight, result_meant.
  destruct (http_header n None) as [latest|] eqn:E1; [|by intros [= <- <-]].
  destruct (Z.ltb_spec (i64 (ph_Number latest)) borGRPCParityDepth) as [|Hd]; [by intros [= <- <-]|].
  destruct (http_header (S n) _) as [a|] eqn:E2; [|by intros [= <- <-]].
  destruct (grpc_header _ _ _) as [b|] eqn:E3; [|by intros [= <- <-]].
  destruct (http_header (S (S (S n))) _) as [c|] eqn:E4; [|by intros [= <- <-]].
  destruct (bool_decide (ph_Hash c = ph_Hash a)) eqn:E5; cbn [negb]; [|by intros [= <- <-]].
  apply bool_decide_eq_true in E5.
  assert (compared i a b) as Hc by (exists n, latest, (i64 (ph_Number latest) - borGRPCParityDepth), c; split_and!; done || lia).
  destruct (bool_decide (ph_Hash b = ph_Hash a)) eqn:E6; cbn [negb]; intros [= <- <-]; cbn.
  - apply bool_decide_eq_true in E6. split; [|done]. intros _. split; [|done]. by exists a, b.
  - apply bool_decide_eq_false in E6. split; [done|]. intros _. split; [|done]. by exists a, b.
Qed.

(** ** Checks in a row *)

Fixpoint check_results (i : nat) (attempts n : nat) : list (bool * bool) :=
  match attempts with
  | O => []
  | S attempts => let '(n, r) := checkBorGRPCHashParityOnce i n in r :: check_results i attempts n
  end.
Lemma check_results_meant i attempts n : Forall (result_meant i) (check_results i attempts n).
Proof.
  revert n. induction attempts as [|attempts IH]; intros n; cbn [check_results]; [done|].
  destruct (checkBorGRPCHashParityOnce i n) as [n' r] eqn:E. constructor; [by eapply check_meant|done].
Qed.

(** The checks at [k] and the two after it are mismatches. *)
Definition three_mismatches (results : list (bool * bool)) (k : nat) : Prop :=
  forall j, (k <= j < k + 3)%nat -> exists ok, results !! j = Some (ok, true).
Definition no_agreement_before (results : list (bool * bool)) (k : nat) : Prop :=
  forall j r, (j < k)%nat -> results !! j = Some r -> r.1 = false.

(** What the results of all attempts say about the end. *)
Definition verdict (results : list (bool * bool)) (e : ParityEnd) : Prop :=
  match e with
  | ParityPassed => exists k mismatch, results !! k = Some (true, mismatch) /\ no_agreement_before results k /\
      forall j, (j + 3 <= k)%nat -> ~ three_mismatches results j
  | ParityFatal consecutive => consecutive = borGRPCParityMismatchStreak /\
      exists k, three_mismatches results k /\ no_agreement_before results (k + 3) /\
      forall j, (j < k)%nat -> ~ three_mismatches results j
  | ParityGaveUp => no_agreement_before results (length results) /\ forall j, ~ three_mismatches results j
  end.

(** The loop is in the middle of the results: the last ones are a streak of mismatches. *)
Record in_streak (results : list (bool * bool)) (k : nat) (mismatches : Z) : Prop := {
  is_bounds : 0 <= mismatches < 3 /\ mismatches <= Z.of_nat k;
  is_no_ok : no_agreement_before results k;
  is_mismatch : forall j, (k <= j + Z.to_nat mismatches)%nat -> (j < k)%nat -> exists ok, results !! j = Some (ok, true);
  is_break : (Z.to_nat mismatches < k)%nat ->
    exists ok, results !! (k - S (Z.to_nat mismatches))%nat = Some (ok, false);
  is_none : forall j, (j + 3 <= k)%nat -> ~ three_mismatches results j;
}.

Lemma agreement_step results k r : no_agreement_before results k -> results !! k = Some r -> r.1 = false ->
  no_agreement_before results (S k).
Proof.
  intros H Hk Hr j r' Hj E. destruct (decide (j = k)) as [->|]; [congruence|]. apply (H j); [lia|done].
Qed.

(** Another check without an end. *)
Lemma in_streak_step results k mismatches mismatch next : in_streak results k mismatches ->
  results !! k = Some (false, mismatch) ->
  updateParityMismatchStreak mismatches mismatch borGRPCParityMismatchStreak = (next, false) ->
  in_streak results (S k) next.
Proof.
  intros [Hb Hok Hm Hbr Hno] Hk. unfold updateParityMismatchStreak, borGRPCParityMismatchStreak.
  pose proof (agreement_step _ _ _ Hok Hk eq_refl) as Hok'.
  destruct mismatch; cbn [negb]; intros [= <-].
  - assert (mismatches + 1 < 3) as Hlt by lia.
    assert (Z.to_nat (mismatches + 1) = S (Z.to_nat mismatches)) as En by lia.
    assert (forall j, (S k <= j + Z.to_nat (mismatches + 1))%nat -> (j < S k)%nat -> exists ok, results !! j = Some (ok, true)) as Hm'.
    { intros j H1 H2. destruct (decide (j = k)) as [->|]; [eauto|]. apply Hm; lia. }
    split; [lia|done|done| |].
    + intros H. rewrite En. rewrite Nat.sub_succ. apply Hbr. lia.
    + intros j Hj H3. destruct (decide (j + 3 = S k)%nat) as [Ej|]; [|apply (Hno j); [lia|done]].
      destruct Hbr as (ok & E); [lia|]. destruct (H3 (k - S (Z.to_nat mismatches))%nat) as (ok' & E'); [lia|]. congruence.
  - split; [lia|done| | |].
    + intros j H1 H2. lia.
    + intros _. cbn. rewrite Nat.sub_0_r. eauto.
    + intros j Hj H3. destruct (decide (j + 3 = S k)%nat) as [Ej|]; [|apply (Hno j); [lia|done]].
      destruct (H3 k) as (ok' & E'); [lia|]. congruence.
Qed.
(** The check that makes the streak full. *)
Lemma in_streak_full results k mismatches mismatch next : in_streak results k mismatches ->
  results !! k = Some (false, mismatch) ->
  updateParityMismatchStreak mismatches mismatch borGRPCParityMismatchStreak = (next, true) ->
  verdict results (ParityFatal next).
Proof.
  intros [Hb Hok Hm Hbr Hno] Hk. unfold updateParityMismatchStreak, borGRPCParityMismatchStreak.
  destruct mismatch; cbn [negb]; intros [= <- Hf]. bool_hyps. assert (mismatches = 2) as -> by lia.
  split; [done|]. exists (k - 2)%nat. split; [|split].
  - intros j Hj. destruct (decide (j = k)) as [->|]; [eauto|]. apply Hm; lia.
  - replace (k - 2 + 3)%nat with (S k) by lia. by eapply agreement_step.
  - intros j Hj. apply Hno. lia.
Qed.

Lemma attempts_verdict i attempts results mismatches n k : in_streak results k mismatches ->
  drop k results = check_results i attempts n -> verdict results (parity_attempts i attempts mismatches n).2.
Proof.
  revert results mismatches n k. induction attempts as [|attempts IH]; intros results mismatches n k HI Hd; cbn [parity_attempts].
  - cbn [check_results] in Hd. assert (length results <= k)%nat as Hlen.
    { apply (f_equal length) in Hd. rewrite length_drop in Hd. cbn in Hd. lia. }
    split.
    + intros j r Hj. apply (is_no_ok _ _ _ HI). lia.
    + intros j H3. apply (is_none _ _ _ HI j); [|done]. destruct (H3 (j + 2)%nat) as (ok & E); [lia|].
      apply lookup_lt_Some in E. lia.
  - cbn [check_results] in Hd. destruct (checkBorGRPCHashParityOnce i n) as [n' [ok mismatch]] eqn:E.
    assert (results !! k = Some (ok, mismatch)) as Hk by (rewrite <- (Nat.add_0_r k), <- lookup_drop, Hd; done).
    destruct ok.
    + exists k, mismatch. split; [done|]. split; apply HI.
    + destruct (updateParityMismatchStreak mismatches mismatch borGRPCParityMismatchStreak) as [next []] eqn:Eu.
      * by eapply in_streak_full.
      * apply (IH _ _ _ (S k)); [by eapply in_streak_step|].
        replace (S k) with (k + 1)%nat by lia. rewrite <- drop_drop, Hd. done.
Qed.

(** ** The probes of the primary *)

Lemma validator_verdict i st st' fatal err : borGRPCParityValidator i st = (st', (fatal, err)) ->
  (is_Some err -> disagreement i) /\
  (fatal = true -> i = primaryEndpoint /\ is_Some err /\ primaryMismatches st' = primaryMismatches st + 1).
Proof.
  unfold borGRPCParityValidator. destruct (checkBorGRPCHashParityOnce i (pv_calls st)) as [n [ok mismatch]] eqn:E.
  apply check_meant in E as [_ H]. cbn in H.
  destruct (Nat.eqb_spec i primaryEndpoint) as [->|]; destruct mismatch; cbn; intros [= <- <- <-]; cbn;
    split; try done; try (by intros []); intros _; try by apply H.
Qed.

(** ** Properties *)

(** The check of the transports ends exactly as its results say.  Whatever the endpoints
    answer, from any call on and for any number of attempts: it passes at the first
    agreement that no three mismatches in a row precede, it halts the node at the first
    three mismatches in a row that no agreement precedes, and it gives up when all
    attempts show neither.  An agreement (a mismatch) is one of equal (different)
    headers of a settled height, with HTTP's header the same before and after; so a node is
    never halted while the transports agree. *)
Theorem parity_check_is_exact (i maxAttempts n : nat) :
  verdict (check_results i maxAttempts n) (runBorGRPCHashParityCheckWith i maxAttempts n).2 /\
  Forall (result_meant i) (check_results i maxAttempts n) /\
  (~ disagreement i -> forall consecutive, (runBorGRPCHashParityCheckWith i maxAttempts n).2 <> ParityFatal consecutive).
Proof.
  assert (verdict (check_results i maxAttempts n) (runBorGRPCHashParityCheckWith i maxAttempts n).2) as H.
  { apply attempts_verdict with 0%nat; [|done]. split; cbn; [lia|intros ??; lia|intros; lia|lia|]. intros j Hj. lia. }
  split; [done|]. split; [apply check_results_meant|]. intros Hd c Hc. rewrite Hc in H.
  destruct H as (_ & k & H & _). destruct (H k) as (ok & E); [lia|]. apply Hd.
  eapply Forall_lookup_1 in E; [|apply check_results_meant]. by apply E.
Qed.
End parity.

(** ** Examples *)

Module ParityDemo.
(** The head is at 40; gRPC has other headers in the calls from 4 to 17. *)
#[export] Instance nodes : ParityNodes := {|
  PHeader := Z * bytes; ph_Number := fst; ph_Hash := snd;
  http_header n number := Some (default 40 number, [Byte.x01]);
  grpc_header n i number := if (4 <=? n)%nat && (n <=? 17)%nat then Some (number, [Byte.x02])
                            else if (n =? 2)%nat then None else Some (number, [Byte.x01]) |}.
Example halted_after_three : runBorGRPCHashParityCheckWith 0 borGRPCParityMaxAttempts 0 = (15%nat, ParityFatal 3).
Proof. vm_compute. reflexivity. Qed.
Example passes_later : runBorGRPCHashParityCheckWith 0 borGRPCParityMaxAttempts 9 = (21%nat, ParityPassed).
Proof. vm_compute. reflexivity. Qed.
Example wrong_endpoint_refused :
  validateEndpoint (map Some (borGRPCParityValidators true)) 1 {| pv_calls := 4; primaryMismatches := 2 |}
  = ({| pv_calls := 8; primaryMismatches := 2 |}, (false, Some (ErrText "bor gRPC endpoint hash mismatch with HTTP"))).
Proof. vm_compute. reflexivity. Qed.
End ParityDemo.
