(* ===== verification/Listener.v ===== *)
(** * The listeners of the bridge

    Models [bridge/listener]: the root chain listener, which hands the logs of the
    main chain to the task queue and keeps the last block it has handled
    ([rootchain.go], [rootchain_log.go]), the heimdall listener, which does so with
    the events of heimdall's blocks ([heimdall.go]), and the delay of a task
    ([bridge/util]).
    The chains, the node's answers and the database are parameters; whether a
    query, a read or a write fails is an input of each call. *)
From S2P Require Import Prelude Helpers External VoteTypes Numerals.
#[local] Open Scope Z_scope.

(** ** The node

    What the heimdall node and the configuration answer while a log is handled. *)
Record NodeView := {
  nv_pubKey : bytes;                        (* helper.GetPubKey *)
  nv_address : bytes;                       (* helper.GetAddress *)
  nv_validators : option (list string);     (* the signers of the current set, or an error *)
  nv_unconfirmed : Z;                       (* the transactions of the mempool *)
  nv_signer_of : Z -> option string;        (* the signer of a validator id, or an error *)
}.

Definition TaskDelayBetweenEachVal : Z := 10 * 10 ^ 9.
Definition mempoolTxnCountDivisor : Z := 1000.

Section node.
Context {AC : AddressCodec}.

(** The position of the address among the signers, from 1; [None] when a signer
    before it is not an address. *)
Fixpoint position_of (address : bytes) (i : Z) (signers : list string) : option Z :=
  match signers with
  | [] => Some 0
  | signer :: rest =>
      match StringToBytes signer with
      | Ok b => if bool_decide (b = address) then Some i else position_of address (i + 1) rest
      | _ => None
      end
  end.
Definition CalculateTaskDelay (nv : NodeView) : bool * Z :=
  match nv_validators nv with
  | None => (false, 0)
  | Some signers =>
      match position_of (nv_address nv) 1 signers with
      | None => (false, 0)
      | Some valPosition =>
          let mempoolFactor := Z.quot (nv_unconfirmed nv) mempoolTxnCountDivisor in
          (negb (valPosition =? 0), i64 (i64 (valPosition * TaskDelayBetweenEachVal) * (mempoolFactor + 1)))
      end
  end.
Definition IsEventSender (nv : NodeView) (validatorID : Z) : bool :=
  match nv_signer_of nv validatorID with
  | None => false
  | Some signer => match StringToBytes signer with Ok b => bool_decide (b = nv_address nv) | _ => false end
  end.
End node.

(** ** Logs and tasks *)

(** The logs of the main chain and their encodings: the fields of an event, when
    the log unpacks; [FilterLogs n] is the answer to the query number [n]. *)
Class BridgeLogs := {
  Log : Type;
  log_Topics : Log -> list bytes;
  log_marshals : Log -> bool;
  event_SignerPubkey : string -> Log -> option bytes;
  event_ValidatorId : string -> Log -> option Z;
  event_User : Log -> option bytes;
  event_StateSynced : Log -> bool;
  FilterLogs : nat -> Z -> Z -> outcome (list Log);
}.

Definition NewHeaderBlockEvent : string := "NewHeaderBlock".
Definition TopUpFeeEvent : string := "TopUpFee".
Definition StakedEvent : string := "Staked".
Definition StakeUpdateEvent : string := "StakeUpdate".
Definition UnstakeInitEvent : string := "UnstakeInit".
Definition SignerChangeEvent : string := "SignerChange".
Definition StateSyncedEvent : string := "StateSynced".
Definition SlashedEvent : string := "Slashed".
Definition UnJailedEvent : string := "UnJailed".
Definition rootChainEvents : list string :=
  [NewHeaderBlockEvent; StakedEvent; StakeUpdateEvent; SignerChangeEvent; UnstakeInitEvent; StateSyncedEvent;
   TopUpFeeEvent; SlashedEvent; UnJailedEvent].

Section logs.
Context {AC : AddressCodec} {BL : BridgeLogs}.

Record Task := { task_name : string; task_event : string; task_log : Log; task_delay : Z }.

(** The task of a current validator, after its delay and [extra]. *)
Definition staggered (nv : NodeView) (task event : string) (extra : Z) (l : Log) : list Task :=
  let '(isCurrentValidator, delay) := CalculateTaskDelay nv in
  if isCurrentValidator then [{| task_name := task; task_event := event; task_log := l; task_delay := i64 (delay + extra) |}]
  else [].
Definition at_once (task event : string) (delay : Z) (l : Log) : list Task :=
  [{| task_name := task; task_event := event; task_log := l; task_delay := delay |}].

Definition handleNewHeaderBlockLog (nv : NodeView) (l : Log) : list Task :=
  staggered nv "sendCheckpointAckToHeimdall" NewHeaderBlockEvent 0 l.
Definition handleStakedLog (nv : NodeView) (l : Log) : list Task :=
  match event_SignerPubkey StakedEvent l with
  | None => []
  | Some key =>
      match nv_pubKey nv with
      | [] => []
      | _ :: own =>
          if bool_decide (key = own)
          then at_once "sendValidatorJoinToHeimdall" StakedEvent TaskDelayBetweenEachVal l
          else staggered nv "sendValidatorJoinToHeimdall" StakedEvent TaskDelayBetweenEachVal l
      end
  end.
(** The logs of a validator: at once on the node of its signer. *)
Definition of_validator (nv : NodeView) (task event : string) (l : Log) : list Task :=
  match event_ValidatorId event l with
  | None => []
  | Some id => if IsEventSender nv (u64 id) then at_once task event 0 l else staggered nv task event 0 l
  end.
Definition handleStakeUpdateLog (nv : NodeView) : Log -> list Task := of_validator nv "sendStakeUpdateToHeimdall" StakeUpdateEvent.
Definition handleUnstakeInitLog (nv : NodeView) : Log -> list Task := of_validator nv "sendUnstakeInitToHeimdall" UnstakeInitEvent.
Definition handleUnJailedLog (nv : NodeView) : Log -> list Task := of_validator nv "sendUnjailToHeimdall" UnJailedEvent.
(** [pubKey[1:]] panics without a key. *)
Definition handleSignerChangeLog (nv : NodeView) (l : Log) : outcome (list Task) :=
  match event_SignerPubkey SignerChangeEvent l with
  | None => Ok []
  | Some key =>
      match nv_pubKey nv with
      | [] => Panic
      | first :: own =>
          Ok (if bool_decide (key = own) && IsPubKeyFirstByteValid [first]
              then at_once "sendSignerChangeToHeimdall" SignerChangeEvent 0 l
              else staggered nv "sendSignerChangeToHeimdall" SignerChangeEvent 0 l)
      end
  end.
Definition handleStateSyncedLog (nv : NodeView) (l : Log) : list Task :=
  if event_StateSynced l then staggered nv "sendStateSyncedToHeimdall" StateSyncedEvent 0 l else [].
Definition handleTopUpFeeLog (nv : NodeView) (l : Log) : list Task :=
  match event_User l with
  | None => []
  | Some user =>
      if bool_decide (user = nv_address nv) then at_once "sendTopUpFeeToHeimdall" TopUpFeeEvent 0 l
      else staggered nv "sendTopUpFeeToHeimdall" TopUpFeeEvent 0 l
  end.
Definition handleSlashedLog (nv : NodeView) (l : Log) : list Task := staggered nv "sendTickAckToHeimdall" SlashedEvent 0 l.

Definition handleLog (nv : NodeView) (l : Log) (event : string) : outcome (list Task) :=
  if negb (log_marshals l) then Ok []
  else if String.eqb event NewHeaderBlockEvent then Ok (handleNewHeaderBlockLog nv l)
  else if String.eqb event StakedEvent then Ok (handleStakedLog nv l)
  else if String.eqb event StakeUpdateEvent then Ok (handleStakeUpdateLog nv l)
  else if String.eqb event SignerChangeEvent then handleSignerChangeLog nv l
  else if String.eqb event UnstakeInitEvent then Ok (handleUnstakeInitLog nv l)
  else if String.eqb event StateSyncedEvent then Ok (handleStateSyncedLog nv l)
  else if String.eqb event TopUpFeeEvent then Ok (handleTopUpFeeLog nv l)
  else if String.eqb event SlashedEvent then Ok (handleSlashedLog nv l)
  else if String.eqb event UnJailedEvent then Ok (handleUnJailedLog nv l)
  else Ok [].

(** ** The root chain listener *)

Definition lastRootBlockKey : string := "rootchain-last-block".
Definition maxRootChainBlockRange : Z := 5000.

(** The database, how often it was written and the main chain was asked, and what
    was handled: the logs with their events, and the tasks sent. *)
Record RootState := {
  rs_db : gmap string string; rs_puts : nat; rs_queries : nat;
  rs_handled : list (Log * string); rs_tasks : list Task;
}.
Definition Result : Type := RootState * outcome unit.

Definition queried (st : RootState) : RootState :=
  {| rs_db := rs_db st; rs_puts := rs_puts st; rs_queries := S (rs_queries st); rs_handled := rs_handled st; rs_tasks := rs_tasks st |}.
Definition log_handled (st : RootState) (l : Log) (event : string) (tasks : list Task) : RootState :=
  {| rs_db := rs_db st; rs_puts := rs_puts st; rs_queries := rs_queries st; rs_handled := rs_handled st ++ [(l, event)];
     rs_tasks := rs_tasks st ++ tasks |}.
Definition stored (st : RootState) (ok : bool) (key value : string) : RootState :=
  {| rs_db := if ok then <[key := value]> (rs_db st) else rs_db st; rs_puts := S (rs_puts st); rs_queries := rs_queries st;
     rs_handled := rs_handled st; rs_tasks := rs_tasks st |}.

(** [eventMap]: the events of the contracts by topic; [views n]: the node when [n]
    logs have been handled; [puts n]: the write number [n] succeeds; [connected]:
    there is a main-chain client. *)
Variables (eventMap : gmap bytes string) (views : nat -> NodeView) (puts : nat -> bool) (connected : bool).

Definition rootChainEventTopics : list bytes :=
  map fst (List.filter (fun p => existsb (String.eqb p.2) rootChainEvents) (map_to_list eventMap)).

(** The event of a log, if any. *)
Definition selected (l : Log) : option string :=
  match log_Topics l with [] => None | topic :: _ => eventMap !! topic end.
Fixpoint handle_logs (st : RootState) (logs : list Log) : Result :=
  match logs with
  | [] => (st, Ok tt)
  | l :: rest =>
      match selected l with
      | None => handle_logs st rest
      | Some event =>
          match handleLog (views (length (rs_handled st))) l event with
          | Ok tasks => handle_logs (log_handled st l event tasks) rest
          | _ => (st, Panic)
          end
      end
  end.
Definition queryAndBroadcastEvents (st : RootState) (fromBlock toBlock : Z) : Result :=
  if negb connected then (st, Err (ErrText "main chain client is nil"))
  else if (length rootChainEventTopics =? 0)%nat then (st, Err (ErrText "no supported rootChain event topics configured"))
  else
    match FilterLogs (rs_queries st) fromBlock toBlock with
    | Ok logs => handle_logs (queried st) logs
    | Err e => (queried st, Err e)
    | Panic => (queried st, Panic)
    end.
Definition persistLastRootBlock (st : RootState) (block : Z) : Result :=
  let ok := puts (rs_puts st) in
  (stored st ok lastRootBlockKey (BigString block), if ok then Ok tt else Err (ErrText "error persisting last root block")).

Definition splitBlockRange (fromBlock toBlock : Z) : Z := fromBlock + big_div (toBlock - fromBlock) 2.
(** The recursion stops at ranges of one block; the fuel is the length of the range. *)
Fixpoint process_range (fuel : nat) (st : RootState) (fromBlock toBlock : Z) : Result :=
  match fuel with
  | O => (st, Panic)
  | S fuel =>
      match queryAndBroadcastEvents st fromBlock toBlock with
      | (st, Ok _) => persistLastRootBlock st toBlock
      | (st, Panic) => (st, Panic)
      | (st, Err e) =>
          if toBlock <=? fromBlock then (st, Err e)
          else
            let midBlock := splitBlockRange fromBlock toBlock in
            match process_range fuel st fromBlock midBlock with
            | (st, Ok _) => process_range fuel st (midBlock + 1) toBlock
            | r => r
            end
      end
  end.
Definition processRootChainBlockRange (st : RootState) (fromBlock toBlock : Z) : Result :=
  process_range (Z.to_nat (toBlock - fromBlock + 1)) st fromBlock toBlock.

(** The loop over the chunks; the fuel is the number of blocks. *)
Fixpoint process_chunks (fuel : nat) (st : RootState) (chunkFrom to : Z) : Result :=
  match fuel with
  | O => (st, Ok tt)
  | S fuel =>
      if to <? chunkFrom then (st, Ok tt)
      else
        let chunkTo := Z.min (chunkFrom + (maxRootChainBlockRange - 1)) to in
        match processRootChainBlockRange st chunkFrom chunkTo with
        | (st, Ok _) => process_chunks fuel st (chunkTo + 1) to
        | r => r
        end
  end.

(** How the database answers [Has] and [Get] for the cursor. *)
Inductive DbRead := ReadFine | HasFails | GetFails.
(** A header of the main chain, with what its handling meets. *)
Record RootHeader := {
  rh_number : Z; rh_isFinalized : bool;
  rh_params : option Z;        (* [MainChainTxConfirmations], or an error *)
  rh_read : DbRead;
}.
Definition ProcessHeader (st : RootState) (h : RootHeader) : Result :=
  match rh_params h with
  | None => (st, Ok tt)
  | Some requiredConfirmations =>
      if negb (rh_isFinalized h) && (rh_number h <=? requiredConfirmations) then (st, Ok tt)
      else
        let headerNumber := if rh_isFinalized h then rh_number h else rh_number h - requiredConfirmations in
        let run from := let from := if headerNumber <? from then headerNumber else from in
          process_chunks (Z.to_nat (headerNumber - from + 1)) st from headerNumber in
        match rh_read h, rs_db st !! lastRootBlockKey with
        | HasFails, _ | _, None => run headerNumber
        | GetFails, Some _ => (st, Ok tt)
        | ReadFine, Some lastBlock =>
            match ParseUint lastBlock with
            | (result, true) => if u64 headerNumber <=? result then (st, Ok tt) else run (u64 (result + 1))
            | (_, false) => run headerNumber
            end
        end
  end.
(** The headers one after the other; an error leaves the rest to the next header. *)
Definition process_headers (st : RootState) (headers : list RootHeader) : Result :=
  foldl (fun r h => match r with (st, Panic) => (st, Panic) | (st, _) => ProcessHeader st h end) (st, Ok tt) headers.

End logs.

(** ** The heimdall listener *)

Definition heimdallLastBlockKey : string := "heimdall-last-block".

Section heimdall.
Context {E : Type}.

(** What the node answers: its earliest and latest block, and the events of a
    block (which waits for a block to come); [running i]: the listener is not
    stopped before block [i]. *)
Record HeimdallView := {
  hv_status : option (Z * Z); hv_events : Z -> outcome (list E); hv_running : Z -> bool; hv_read : DbRead; hv_put : bool;
}.
Record HeimdallState := { hs_db : gmap string string; hs_sent : list (E * Z) }.
(** Whether an event is the one of a checkpoint. *)
Variables (is_checkpoint : E -> bool) (initialBlockHeight : Z).

Definition fetchFromAndToBlock (hv : HeimdallView) (st : HeimdallState) : outcome (Z * Z) :=
  '(earliest, latest) ← of_option (ErrText "node status") (hv_status hv);
  fromBlock ← (match hv_read hv, hs_db st !! heimdallLastBlockKey with
    | HasFails, _ | _, None => Ok initialBlockHeight
    | GetFails, Some _ => Err (ErrText "error while fetching last block bytes")
    | ReadFine, Some lastBlock =>
        match ParseUint lastBlock with
        | (result, true) => Ok (if initialBlockHeight <=? result then u64 (result + 1) else initialBlockHeight)
        | (_, false) => Err (ErrText "error while parsing last block bytes")
        end
    end);
  let earliestBlock := u64 earliest in
  let fromBlock := if (0 <? earliestBlock) && (fromBlock <? earliestBlock) then earliestBlock else fromBlock in
  let toBlock := u64 latest in
  Ok (fromBlock, if toBlock <=? fromBlock then u64 (fromBlock + 1) else toBlock).

(** [ProcessBlockEvent] for the events of a block. *)
Definition ProcessBlockEvents (events : list E) (height : Z) : list (E * Z) :=
  map (fun e => (e, height)) (List.filter is_checkpoint events).
(** The loop over the blocks: the events found, and whether it ran to the end. *)
Fixpoint process_blocks (hv : HeimdallView) (fuel : nat) (i toBlock : Z) (sent : list (E * Z)) : list (E * Z) * bool :=
  match fuel with
  | O => (sent, true)
  | S fuel =>
      if toBlock <? i then (sent, true)
      else if negb (hv_running hv i) then (sent, false)
      else match hv_events hv i with
           | Ok events => process_blocks hv fuel (i + 1) toBlock (sent ++ ProcessBlockEvents events (i64 i))
           | _ => process_blocks hv fuel (i + 1) toBlock sent
           end
  end.
(** One tick of [StartPolling]. *)
Definition heimdall_tick (hv : HeimdallView) (st : HeimdallState) : HeimdallState :=
  match fetchFromAndToBlock hv st with
  | Ok (fromBlock, toBlock) =>
      if fromBlock <? toBlock then
        let '(sent, finished) := process_blocks hv (Z.to_nat (toBlock - fromBlock + 1)) fromBlock toBlock (hs_sent st) in
        {| hs_db := if finished && hv_put hv then <[heimdallLastBlockKey := FormatUint toBlock]> (hs_db st) else hs_db st;
           hs_sent := sent |}
      else st
  | _ => st
  end.
End heimdall.
