(* ===== verification/ListenerCorrect.v ===== *)
(** * Correctness of the listeners

    No event of the main chain between the first block handled and the stored
    block is lost, whatever queries and writes fail, as long as the listener can ask its
    database whether there is a stored block; each is handled once when the writes
    succeed.  When that question fails, the blocks up to the header are skipped. *)
From S2P Require Import Prelude Helpers External VoteTypes Numerals Listener.
#[local] Open Scope Z_scope.

(** ** Ranges of blocks *)

Lemma seqZ_split a m b : a <= m + 1 -> m <= b -> seqZ a (b - a + 1) = seqZ a (m - a + 1) ++ seqZ (m + 1) (b - m).
Proof. intros. replace (b - a + 1) with ((m - a + 1) + (b - m)) by lia. rewrite seqZ_app by lia. do 2 f_equal. lia. Qed.

Lemma ParseUint_BigString n : in_u64 n -> ParseUint (BigString n) = (n, true).
Proof.
  intros Hn. rewrite <- (ParseUint_FormatUint n Hn). f_equal. unfold BigString, FormatUint. unfold in_u64 in Hn.
  destruct n as [|p|p]; [done|done|lia].
Qed.

Section listener.
Context {AC : AddressCodec} {BL : BridgeLogs}.
Variables (eventMap : gmap bytes string) (views : nat -> NodeView) (puts : nat -> bool) (connected : bool).
(** The logs of each block of the main chain. *)
Variable logs_in : Z -> list Log.
Hypothesis filter_complete : forall n a b l, FilterLogs n a b = Ok l -> l = flat_map logs_in (seqZ a (b - a + 1)).
Hypothesis filter_answers : forall n a b, FilterLogs n a b <> Panic.
Hypothesis has_key : forall n, nv_pubKey (views n) <> [].

(** The supported events of a range, in the order of the chain. *)
Definition events_of (a b : Z) : list (Log * string) :=
  omap (fun l => option_map (pair l) (selected eventMap l)) (flat_map logs_in (seqZ a (b - a + 1))).

Lemma events_of_empty a b : b < a -> events_of a b = [].
Proof. intros. unfold events_of. by rewrite seqZ_nil by lia. Qed.
Lemma events_of_app a m b : a <= m + 1 -> m <= b -> events_of a b = events_of a m ++ events_of (m + 1) b.
Proof.
  intros. unfold events_of. rewrite (seqZ_split a m b) by lia. rewrite flat_map_app, omap_app.
  do 4 f_equal. lia.
Qed.

(** The tasks of the logs handled, the first of them with the node's view [n]. *)
Fixpoint tasks_from (n : nat) (l : list (Log * string)) : list Task :=
  match l with
  | [] => []
  | p :: l => match handleLog (views n) p.1 p.2 with Ok ts => ts | _ => [] end ++ tasks_from (S n) l
  end.
Lemma tasks_from_app n l k : tasks_from n (l ++ k) = tasks_from n l ++ tasks_from (n + length l) k.
Proof.
  revert n. induction l as [|p l IH]; intros n; cbn; [by rewrite Nat.add_0_r|].
  rewrite IH, app_assoc. do 2 f_equal. lia.
Qed.
Definition tasks_ok (st : RootState) : Prop := rs_tasks st = tasks_from 0 (rs_handled st).

Lemma handleLog_total n l event : exists ts, handleLog (views n) l event = Ok ts.
Proof.
  unfold handleLog. repeat (case_match; [by eexists|]); try by eexists.
  all: repeat case_match; try by eexists.
  unfold handleSignerChangeLog. destruct (event_SignerPubkey _ _); [|by eexists].
  destruct (nv_pubKey (views n)) eqn:E; [by apply has_key in E|by eexists].
Qed.

Lemma handle_logs_spec logs : forall st, tasks_ok st -> exists st', handle_logs eventMap views st logs = (st', Ok tt) /\
  rs_handled st' = rs_handled st ++ omap (fun l => option_map (pair l) (selected eventMap l)) logs /\
  rs_db st' = rs_db st /\ rs_puts st' = rs_puts st /\ tasks_ok st'.
Proof.
  induction logs as [|l logs IH]; intros st Ht; cbn [handle_logs].
  { exists st. cbn. by rewrite app_nil_r. }
  cbn [omap list_omap]. destruct (selected eventMap l) as [event|]; cbn [option_map]; [|by apply IH].
  destruct (handleLog_total (length (rs_handled st)) l event) as [ts Hts]. rewrite Hts.
  destruct (IH (log_handled st l event ts)) as (st' & E & Hh & Hd & Hp & Ht').
  { unfold tasks_ok, log_handled. cbn. rewrite tasks_from_app, Ht. cbn. by rewrite Hts, app_nil_r. }
  exists st'. split; [done|]. rewrite Hh. cbn. by rewrite <- app_assoc.
Qed.

#[local] Abbreviation process_range := (process_range eventMap views puts connected).

(** What a range comes to: the events up to block [k] are handled, and the stored
    block is [m], or as before when none of the range was stored. *)
Record covered (st st' : RootState) (a k m : Z) : Prop := {
  cov_range : a - 1 <= m <= k;
  cov_handled : rs_handled st' = rs_handled st ++ events_of a k;
  cov_db : rs_db st' = if decide (m = a - 1) then rs_db st else <[lastRootBlockKey := BigString m]> (rs_db st);
  cov_puts : (forall n, puts n = true) -> m = k;
  cov_tasks : tasks_ok st';
}.

Lemma covered_none st st' a : rs_handled st' = rs_handled st -> rs_db st' = rs_db st -> tasks_ok st' -> covered st st' a (a - 1) (a - 1).
Proof. intros Hh Hd Ht. split; [lia|by rewrite events_of_empty, app_nil_r by lia|by rewrite decide_True|done|done]. Qed.

Lemma covered_trans st1 st2 st3 a b k m : a <= b + 1 -> covered st1 st2 a b b -> covered st2 st3 (b + 1) k m -> covered st1 st3 a k m.
Proof.
  intros Hab [R1 H1 D1 _ _] [R2 H2 D2 P2 T2]. split; [lia| | |done|done].
  - rewrite H2, H1, <- app_assoc. by rewrite (events_of_app a b k) by lia.
  - rewrite D2, D1. destruct (decide (m = b + 1 - 1)), (decide (b = a - 1)), (decide (m = a - 1)); try done; try lia; try (f_equal; f_equal; lia).
    by rewrite insert_insert_eq.
Qed.

Lemma query_spec st a b : tasks_ok st -> exists st' r, queryAndBroadcastEvents eventMap views connected st a b = (st', r) /\
  rs_db st' = rs_db st /\ rs_puts st' = rs_puts st /\ tasks_ok st' /\
  (r = Ok tt /\ rs_handled st' = rs_handled st ++ events_of a b \/ (exists e, r = Err e) /\ rs_handled st' = rs_handled st).
Proof.
  intros Ht. unfold queryAndBroadcastEvents. destruct connected; cbn [negb]; [|do 2 eexists; split; [done|]; eauto 10].
  destruct (_ =? _)%nat; [do 2 eexists; split; [done|]; eauto 10|].
  destruct (FilterLogs (rs_queries st) a b) as [logs|e|] eqn:E.
  - destruct (handle_logs_spec logs (queried st)) as (st' & -> & Hh & Hd & Hp & Ht'); [done|].
    exists st', (Ok tt). split; [done|]. split; [done|]. split; [done|]. split; [done|]. left. split; [done|].
    rewrite Hh. cbn. by rewrite (filter_complete _ _ _ _ E).
  - exists (queried st), (Err e). split; [done|]. repeat split; try done. right. split; [by exists e|done].
  - by apply filter_answers in E.
Qed.

Lemma persist_spec st0 st a b : a <= b -> rs_handled st = rs_handled st0 ++ events_of a b -> rs_db st = rs_db st0 -> tasks_ok st ->
  exists st' r m, persistLastRootBlock puts st b = (st', r) /\ covered st0 st' a b m /\ r <> Panic /\ (r = Ok tt -> m = b).
Proof.
  intros Hab Hh Hd Ht. unfold persistLastRootBlock. destruct (puts (rs_puts st)) eqn:Hp.
  - exists (stored st true lastRootBlockKey (BigString b)), (Ok tt), b. split; [done|]. split; [|done].
    split; cbn; [lia|done| |done|done]. rewrite decide_False by lia. by rewrite Hd.
  - exists (stored st false lastRootBlockKey (BigString b)), (Err (ErrText "error persisting last root block")), (a - 1).
    split; [done|]. split; [|done]. split; cbn; [lia|done|by rewrite decide_True|by intros H; rewrite H in Hp|done].
Qed.

Lemma range_spec fuel : forall st a b, tasks_ok st -> a <= b -> b - a + 1 <= Z.of_nat fuel ->
  exists st' r k m, process_range fuel st a b = (st', r) /\ covered st st' a k m /\ k <= b /\ r <> Panic /\ (r = Ok tt -> k = b /\ m = b).
Proof.
  induction fuel as [|fuel IH]; intros st a b Ht Hab Hf; [lia|]. cbn [Listener.process_range].
  destruct (query_spec st a b Ht) as (st1 & r & -> & Hd & Hp & Ht1 & [[-> Hh]|[[e ->] Hh]]).
  - destruct (persist_spec st st1 a b Hab Hh Hd Ht1) as (st' & r & m & -> & Hc & Hr & Hm).
    exists st', r, b, m. split; [done|]. split; [done|]. split; [lia|]. split; [done|]. intros E. split; [done|by apply Hm].
  - destruct (Z.leb_spec b a).
    + exists st1, (Err e), (a - 1), (a - 1). split; [done|]. split; [by apply covered_none|]. by split; [lia|].
    + set (mid := splitBlockRange a b). assert (a <= mid < b) as Hmid.
      { unfold mid, splitBlockRange, big_div. cbn. pose proof (Z.div_mod (b - a) 2 ltac:(lia)).
        pose proof (Z.mod_pos_bound (b - a) 2 ltac:(lia)). lia. }
      destruct (IH st1 a mid Ht1 ltac:(lia) ltac:(lia)) as (st2 & r & k & m & -> & Hc & Hk & Hr & Hok).
      assert (covered st st2 a k m) as Hc0 by (destruct Hc as [R H' D P T]; split; [done|congruence|by rewrite <- Hd|done|done]).
      destruct r as [[]|e'|]; [|exists st2, (Err e'), k, m; split; [done|]; split; [done|]; by split; [lia|]|done].
      destruct (Hok eq_refl) as [-> ->].
      destruct (IH st2 (mid + 1) b (cov_tasks _ _ _ _ _ Hc) ltac:(lia) ltac:(lia)) as (st3 & r3 & k3 & m3 & -> & Hc3 & Hk3 & Hr3 & Hok3).
      exists st3, r3, k3, m3. split; [done|]. split; [|done]. by eapply covered_trans; [|exact Hc0|exact Hc3]; lia.
Qed.

Lemma chunks_spec fuel : forall st a b, tasks_ok st -> b - a + 1 <= Z.of_nat fuel ->
  exists st' r k m, process_chunks eventMap views puts connected fuel st a b = (st', r) /\ covered st st' a k m /\ k <= Z.max (a - 1) b /\
    r <> Panic /\ (r = Ok tt -> a <= b -> k = b /\ m = b).
Proof.
  assert (forall st a b, tasks_ok st -> b < a -> exists st' r k m, (st, Ok tt) = (st', r) /\ covered st st' a k m /\ k <= Z.max (a - 1) b /\
    r <> Panic /\ (r = Ok tt -> a <= b -> k = b /\ m = b)) as Hnone.
  { intros st a b Ht Hl. exists st, (Ok tt), (a - 1), (a - 1). split; [done|]. split; [by apply covered_none|]. by repeat split; try lia. }
  induction fuel as [|fuel IH]; intros st a b Ht Hf; cbn [process_chunks]; [apply Hnone; [done|lia]|].
  destruct (Z.ltb_spec b a); [by apply Hnone|]. set (c := Z.min (a + (maxRootChainBlockRange - 1)) b).
  assert (a <= c <= b) as Hc by (unfold c, maxRootChainBlockRange; lia).
  unfold processRootChainBlockRange.
  destruct (range_spec (Z.to_nat (c - a + 1)) st a c Ht ltac:(lia) ltac:(lia)) as (st1 & r & k & m & -> & Hcov & Hk & Hr & Hok).
  destruct r as [[]|e|]; [|exists st1, (Err e), k, m; split; [done|]; split; [done|]; by split; [lia|]|done].
  destruct (Hok eq_refl) as [-> ->].
  destruct (IH st1 (c + 1) b (cov_tasks _ _ _ _ _ Hcov) ltac:(lia)) as (st2 & r2 & k2 & m2 & -> & Hc2 & Hk2 & Hr2 & Hok2).
  exists st2, r2, k2, m2. split; [done|]. split; [by eapply covered_trans; [|exact Hcov|exact Hc2]; lia|].
  split; [lia|]. split; [done|]. intros E _. destruct (Z.lt_ge_cases b (c + 1)) as [Hl|Hl]; [|by apply Hok2].
  destruct Hc2 as [R _ _ _ _]. lia.
Qed.

(** ** Headers *)

(** A header of the main chain; [knows_cursor]: the database can be asked whether there
    is a stored block. *)
Definition header_ok (h : RootHeader) : Prop := in_u64 (rh_number h) /\ forall c, rh_params h = Some c -> 0 <= c.
Definition knows_cursor (h : RootHeader) : Prop := rh_read h <> HasFails.
(** The block up to which a header is final. *)
Definition final_block (h : RootHeader) (requiredConfirmations : Z) : Z :=
  if rh_isFinalized h then rh_number h else rh_number h - requiredConfirmations.
(** The header is too early to finalise a block. *)
Definition too_early (h : RootHeader) (requiredConfirmations : Z) : bool :=
  negb (rh_isFinalized h) && (rh_number h <=? requiredConfirmations).

(** A listener with a stored block. *)
Record steady (c : Z) (st : RootState) : Prop := {
  sd_cursor : rs_db st !! lastRootBlockKey = Some (BigString c);
  sd_range : in_u64 c;
  sd_tasks : tasks_ok st;
}.
Lemma steady_covered c st st' a k m : steady c st -> covered st st' a k m -> (m = a - 1 \/ in_u64 m) -> exists c', steady c' st'.
Proof.
  intros [Hc Hu Ht] [R _ D _ T] Hm. destruct (decide (m = a - 1)); [by exists c; split; [rewrite D|..]|].
  destruct Hm as [|Hm]; [done|]. exists m. split; [rewrite D; by rewrite lookup_insert_eq|done|done].
Qed.

(** What a header comes to: the blocks from the one after the stored one, or, when the
    database cannot say whether there is one, the final block alone. *)
Lemma header_covered c st h : steady c st -> header_ok h ->
  exists st' r a k m, ProcessHeader eventMap views puts connected st h = (st', r) /\ r <> Panic /\ covered st st' a k m /\
    (m = a - 1 \/ in_u64 m) /\
    (knows_cursor h -> a = c + 1 /\ (c <= k -> in_u64 k) /\
       (r = Ok tt -> rh_read h = ReadFine -> forall conf, rh_params h = Some conf -> final_block h conf <= m)) /\
    (rh_read h = HasFails -> r = Ok tt -> forall conf, rh_params h = Some conf -> too_early h conf = false ->
       a = final_block h conf /\ k = a /\ m = a).
Proof.
  intros [Hcur Hu Ht] (Hn & Hconf). unfold ProcessHeader. unfold in_u64 in *.
  assert (covered st st (c + 1) (c + 1 - 1) (c + 1 - 1)) as Hno by (by apply covered_none).
  assert (forall r, r <> Panic -> (rh_read h = HasFails -> forall conf, rh_params h = Some conf -> too_early h conf = true) ->
    (r = Ok tt -> rh_read h = ReadFine -> forall conf, rh_params h = Some conf -> final_block h conf <= c) ->
    exists st' r' a k m, (st, r) = (st', r') /\ r' <> Panic /\ covered st st' a k m /\ (m = a - 1 \/ 0 <= m <= MaxUint64) /\
    (knows_cursor h -> a = c + 1 /\ (c <= k -> 0 <= k <= MaxUint64) /\
       (r' = Ok tt -> rh_read h = ReadFine -> forall conf, rh_params h = Some conf -> final_block h conf <= m)) /\
    (rh_read h = HasFails -> r' = Ok tt -> forall conf, rh_params h = Some conf -> too_early h conf = false ->
       a = final_block h conf /\ k = a /\ m = a)) as Hnothing.
  { intros r Hr He Hp. exists st, r, (c + 1), (c + 1 - 1), (c + 1 - 1). split; [done|]. split; [done|]. split; [done|]. split; [by left|]. split.
    - intros _. split; [done|]. split; [lia|]. intros E1 E2 conf E3. specialize (Hp E1 E2 conf E3). lia.
    - intros E1 _ conf E2 E3. by rewrite (He E1 conf E2) in E3. }
  destruct (rh_params h) as [conf|] eqn:Ep; [|by apply Hnothing]. specialize (Hconf _ eq_refl).
  change (negb (rh_isFinalized h) && (rh_number h <=? conf)) with (too_early h conf). destruct (too_early h conf) eqn:Hg.
  { apply Hnothing; [done|by intros _ ? [= <-]|]. intros _ _ ? [= <-]. unfold final_block. unfold too_early in Hg.
    apply andb_true_iff in Hg as [Hf%negb_true_iff Hle%Z.leb_le]. rewrite Hf. lia. }
  fold (final_block h conf). rewrite Hcur.
  assert (0 <= final_block h conf <= MaxUint64) as Hfb.
  { unfold final_block. unfold too_early in Hg. apply andb_false_iff in Hg as [Hf%negb_false_iff|Hle%Z.leb_gt]; [rewrite Hf; lia|].
    destruct (rh_isFinalized h); lia. }
  destruct (rh_read h) eqn:Er; [| |by apply Hnothing].
  - rewrite ParseUint_BigString by done. rewrite (u64_id (final_block h conf)) by done.
    destruct (Z.leb_spec (final_block h conf) c); [apply Hnothing; [done..|by intros _ _ ? [= <-]]|].
    rewrite u64_id by (unfold in_u64; lia). rewrite (proj2 (Z.ltb_ge _ _)) by lia.
    destruct (chunks_spec (Z.to_nat (final_block h conf - (c + 1) + 1)) st (c + 1) (final_block h conf) Ht ltac:(lia))
      as (st' & r & k & m & E & Hc & Hk & Hr' & Hok).
    exists st', r, (c + 1), k, m. split; [done|]. split; [done|]. split; [done|]. pose proof (cov_range _ _ _ _ _ Hc).
    split; [lia|]. split; [|done]. intros _. split; [done|]. split; [lia|]. intros E' _ conf' [= <-]. destruct (Hok E' ltac:(lia)). lia.
  - rewrite Z.ltb_irrefl. destruct (chunks_spec (Z.to_nat (final_block h conf - final_block h conf + 1)) st (final_block h conf) (final_block h conf)
      Ht ltac:(lia)) as (st' & r & k & m & E & Hc & Hk & Hr' & Hok).
    exists st', r, (final_block h conf), k, m. split; [done|]. split; [done|]. split; [done|]. pose proof (cov_range _ _ _ _ _ Hc).
    split; [lia|]. split; [by intros Hkc; destruct (Hkc Er)|]. intros _ E' conf' [= <-] _. destruct (Hok E' ltac:(lia)). done.
Qed.

(** The state of a listener that started after block [c0] and has stored block [c]. *)
Record synced (c0 c : Z) (st : RootState) : Prop := {
  sync_steady : steady c st;
  sync_range : 0 <= c0 <= c;
  sync_once : sublist (events_of (c0 + 1) c) (rs_handled st);
  sync_exact : (forall n, puts n = true) -> rs_handled st = events_of (c0 + 1) c;
}.

Lemma synced_covered c0 c st st' k m : synced c0 c st -> covered st st' (c + 1) k m -> (c <= k -> in_u64 k) -> synced c0 m st'.
Proof.
  unfold in_u64. intros [[Hc Hu Ht] Hr Ho Hx] [R H D P T] Hk. unfold in_u64 in *. split; [split| | |].
  - rewrite D. case_decide as Hd; [|by rewrite lookup_insert_eq]. by replace m with c by lia.
  - unfold in_u64. lia.
  - done.
  - lia.
  - rewrite H, (events_of_app (c0 + 1) c m) by lia. apply sublist_app; [done|].
    rewrite (events_of_app (c + 1) m k) by lia. by apply sublist_inserts_r.
  - intros Hp. rewrite H, (Hx Hp). specialize (P Hp). subst k. by rewrite (events_of_app (c0 + 1) c m) by lia.
Qed.

Lemma header_spec c0 c st h : synced c0 c st -> header_ok h -> knows_cursor h ->
  exists st' r c', ProcessHeader eventMap views puts connected st h = (st', r) /\ r <> Panic /\ synced c0 c' st' /\
    (r = Ok tt -> rh_read h = ReadFine -> forall conf, rh_params h = Some conf -> final_block h conf <= c').
Proof.
  intros Hs Hh Hk. destruct (header_covered c st h (sync_steady _ _ _ Hs) Hh) as (st' & r & a & k & m & E & Hr & Hc & _ & Hkc & _).
  destruct (Hkc Hk) as (-> & Hu & Hp). exists st', r, m. split; [done|]. split; [done|]. split; [by eapply synced_covered|done].
Qed.

(** No header makes the listener panic, or send a task of another event. *)
Lemma headers_steady headers : forall c st r0, steady c st -> r0 <> Panic -> Forall header_ok headers ->
  exists st' r c', foldl (fun r h => match r with (st, Panic) => (st, Panic) | (st, _) =>
      ProcessHeader eventMap views puts connected st h end) (st, r0) headers = (st', r) /\ r <> Panic /\ steady c' st'.
Proof.
  induction headers as [|h headers IH]; intros c st r0 Hs Hr HF; cbn [foldl]; [by exists st, r0, c|].
  apply Forall_cons in HF as [Hh HF]. destruct (header_covered c st h Hs Hh) as (st1 & r1 & a & k & m & E & Hr1 & Hc & Hm & _).
  replace (match r0 with Panic => _ | _ => _ end) with (st1, r1) by (destruct r0; [done|done|by destruct Hr]).
  destruct (steady_covered _ _ _ _ _ _ Hs Hc Hm) as [c1 Hs1]. by eapply IH.
Qed.

Lemma headers_spec c0 headers : forall c st r0, synced c0 c st -> r0 <> Panic -> Forall header_ok headers -> Forall knows_cursor headers ->
  exists st' r c', foldl (fun r h => match r with (st, Panic) => (st, Panic) | (st, _) =>
      ProcessHeader eventMap views puts connected st h end) (st, r0) headers = (st', r) /\ synced c0 c' st' /\
    (forall h conf, last headers = Some h -> r = Ok tt -> rh_read h = ReadFine -> rh_params h = Some conf -> final_block h conf <= c').
Proof.
  induction headers as [|h headers IH]; intros c st r0 Hs Hr HF HK; cbn [foldl]; [by exists st, r0, c|].
  apply Forall_cons in HF as [Hh HF]. apply Forall_cons in HK as [Hk HK]. destruct (header_spec c0 c st h Hs Hh Hk) as (st1 & r1 & c1 & E & Hr1 & Hs1 & Hprog).
  replace (match r0 with Panic => _ | _ => _ end) with (st1, r1) by (destruct r0; [done|done|by destruct Hr]).
  destruct headers as [|h2 headers].
  - exists st1, r1, c1. split; [done|]. split; [done|]. intros h' conf [= <-] Hok Hrf Hp. by apply Hprog.
  - destruct (IH c1 st1 r1 Hs1 Hr1 HF HK) as (st' & r & c' & E' & Hs' & Hlast). by exists st', r, c'.
Qed.
End listener.

(** ** Properties *)

(** C18: what the root chain listener handles.  Whatever headers it is given, and whatever
    queries, reads and writes fail, it does not panic, and the tasks it sends are those of
    the events it handled.  As long as the database can be asked whether there is a stored
    block, it loses no event: it has handled every supported event of the main chain up to
    the block it stores, in the order of the chain, each exactly once when the writes
    succeed; a header handled without an error brings the stored block up to the last block
    that is final.  When the question fails, a header that is handled without an error
    handles its final block alone and stores it: the blocks in between are lost. *)
Theorem root_chain_events_handled {AC : AddressCodec} {BL : BridgeLogs} eventMap views puts connected logs_in
    (st st' : RootState) headers r c0 :
  (forall n a b l, FilterLogs n a b = Ok l -> l = flat_map logs_in (seqZ a (b - a + 1))) ->
  (forall n a b, FilterLogs n a b <> Panic) -> (forall n, nv_pubKey (views n) <> []) ->
  Forall header_ok headers -> in_u64 c0 ->
  rs_db st !! lastRootBlockKey = Some (BigString c0) -> rs_handled st = [] -> rs_tasks st = [] ->
  process_headers eventMap views puts connected st headers = (st', r) ->
  r <> Panic /\ rs_tasks st' = tasks_from views 0 (rs_handled st') /\
  (Forall knows_cursor headers -> exists c, rs_db st' !! lastRootBlockKey = Some (BigString c) /\ c0 <= c /\
    sublist (events_of eventMap logs_in (c0 + 1) c) (rs_handled st') /\
    ((forall n, puts n = true) -> rs_handled st' = events_of eventMap logs_in (c0 + 1) c) /\
    (forall h conf, last headers = Some h -> r = Ok tt -> rh_read h = ReadFine -> rh_params h = Some conf ->
       final_block h conf <= c)) /\
  (forall h conf st'', header_ok h -> rh_read h = HasFails -> rh_params h = Some conf -> too_early h conf = false ->
     ProcessHeader eventMap views puts connected st' h = (st'', Ok tt) ->
     rs_handled st'' = rs_handled st' ++ events_of eventMap logs_in (final_block h conf) (final_block h conf) /\
     rs_db st'' !! lastRootBlockKey = Some (BigString (final_block h conf))).
Proof.
  intros HF HP HK Hh H0 Hdb Hhd Htk E. unfold process_headers in E.
  assert (steady views c0 st) as Hst by (split; [done..|by unfold tasks_ok; rewrite Hhd]).
  destruct (headers_steady eventMap views puts connected logs_in HF HP HK headers c0 st (Ok tt) Hst) as (st1 & r1 & c & E1 & Hr & Hs1); [done..|].
  rewrite E in E1. injection E1 as <- <-. split; [done|]. split; [apply Hs1|]. split.
  - intros Hknow. assert (synced eventMap views puts logs_in c0 c0 st) as Hs.
    { unfold in_u64 in H0. split; [done|lia| |]; [rewrite events_of_empty by lia; apply sublist_nil_l|].
      intros _. by rewrite events_of_empty by lia. }
    destruct (headers_spec eventMap views puts connected logs_in HF HP HK c0 headers c0 st (Ok tt) Hs) as (st1 & r1 & c1 & E1 & Hsy & Hl); [done..|].
    rewrite E in E1. injection E1 as <- <-. destruct Hsy as [[Hc _ _] Hr1 Ho Hx]. exists c1. repeat split; try done; lia.
  - intros h conf st'' Hok Hread Hp Hte Eh.
    destruct (header_covered eventMap views puts connected logs_in HF HP HK c st' h Hs1 Hok) as (st2 & r2 & a & k & m & E2 & _ & Hc & _ & _ & Hfail).
    rewrite Eh in E2. injection E2 as <- <-. destruct (Hfail Hread eq_refl conf Hp Hte) as (-> & -> & ->).
    destruct Hc as [_ Hh' Hd _ _]. split; [done|]. rewrite Hd, decide_False by lia. by rewrite lookup_insert_eq.
Qed.

(** ** A node and a chain

    Blocks with a log each, behind a node that refuses ranges of more than two. *)
Module ListenerDemo.

#[export] Instance demo_codec : AddressCodec := {|
  PubKeyAddress := Some; AddressString := fun _ => EmptyString; BytesToString := fun _ => Ok EmptyString;
  StringToBytes := fun _ => Ok [Byte.x01] |}.

Definition demo_topic : bytes := [Byte.x07].
Definition demo_logs_in (block : Z) : list Z := [block].
#[export] Instance demo_logs : BridgeLogs := {|
  Log := Z; log_Topics := fun _ => [demo_topic]; log_marshals := fun _ => true;
  event_SignerPubkey := fun _ _ => None; event_ValidatorId := fun _ _ => None;
  event_User := fun _ => None; event_StateSynced := fun _ => true;
  FilterLogs := fun n a b => if 1 <? b - a then Err (ErrText "range too wide") else Ok (flat_map demo_logs_in (seqZ a (b - a + 1)))
|}.
Definition demo_events : gmap bytes string := {[ demo_topic := StateSyncedEvent ]}.
Definition demo_view (n : nat) : NodeView :=
  {| nv_pubKey := [Byte.x04]; nv_address := [Byte.x01]; nv_validators := Some [EmptyString]; nv_unconfirmed := 0;
     nv_signer_of := fun _ => None |}.
Definition demo_start : RootState :=
  {| rs_db := {[ lastRootBlockKey := BigString 10 ]}; rs_puts := 0; rs_queries := 0; rs_handled := []; rs_tasks := [] |}.
Definition demo_header (n : Z) (isFinalized : bool) (read : DbRead) : RootHeader :=
  {| rh_number := n; rh_isFinalized := isFinalized; rh_params := Some 6; rh_read := read |}.

(** The writes of the database fail the first time. *)
Definition demo_puts (n : nat) : bool := negb (n =? 0)%nat.
Definition demo_headers : list RootHeader := [demo_header 15 true ReadFine; demo_header 16 true GetFails; demo_header 22 false ReadFine].

Lemma root_chain_events_handled_witness :
  exists st', process_headers demo_events demo_view demo_puts true demo_start demo_headers = (st', Ok tt) /\
    rs_db st' !! lastRootBlockKey = Some "16" /\ sublist [11; 12; 13; 14; 15; 16] (map fst (rs_handled st')).
Proof.
  destruct (process_headers demo_events demo_view demo_puts true demo_start demo_headers) as [st' r] eqn:E.
  destruct (root_chain_events_handled (BL := demo_logs) demo_events demo_view demo_puts true demo_logs_in demo_start st' demo_headers r 10)
    as (Hr & _ & H & _).
  - intros n a b l. cbn. destruct (1 <? b - a); [done|]. by intros [= <-].
  - intros n a b. cbn. by destruct (1 <? b - a).
  - done.
  - unfold demo_headers. repeat (apply Forall_cons_2; [split; [unfold in_u64, MaxUint64; cbn; lia|cbn; intros c [= <-]; lia]|]). apply Forall_nil_2.
  - by unfold in_u64.
  - reflexivity.
  - reflexivity.
  - reflexivity.
  - exact E.
  - destruct H as (c & Hc & _ & Hsub & _); [repeat constructor; discriminate|].
    exists st'. vm_compute in E. injection E as <- <-. split; [reflexivity|]. split; [reflexivity|].
    vm_compute. repeat constructor.
Defined.

(** A failing [Has] is taken for a database without a cursor: the blocks between the
    stored one and the header are never handled, though the cursor passes them. *)
Lemma failed_has_skips_blocks :
  exists st', process_headers demo_events demo_view (fun _ => true) true demo_start [demo_header 15 true HasFails] = (st', Ok tt) /\
    rs_db st' !! lastRootBlockKey = Some "15" /\ map fst (rs_handled st') = [15].
Proof. eexists. split; [vm_compute; reflexivity|]. by split. Qed.

(** The heimdall listener moves its cursor past a block whose events it could not
    fetch: they are never sent. *)
Lemma unfetched_block_is_skipped :
  let hv read := {| hv_status := Some (1, 12); hv_events := fun i => if i =? 11 then read else Ok [i]; hv_running := fun _ => true;
                    hv_read := ReadFine; hv_put := true |} in
  let st := {| hs_db := {[ heimdallLastBlockKey := FormatUint 10 ]}; hs_sent := [] |} in
  let st' := heimdall_tick (fun _ : Z => true) 0 (hv (Err (ErrText "timeout"))) st in
  hs_sent st' = [(12, 12)] /\ hs_db st' !! heimdallLastBlockKey = Some "12".
Proof. vm_compute. by split. Qed.
End ListenerDemo.
