(* ===== verification/BorClient.v ===== *)
(** * The client of the Bor node

    The two transports by which a validator reads the Bor chain - JSON-RPC over HTTP
    ([src/helper/call.go]) and gRPC ([src/x/bor/grpc/query.go]) - with the conversion of the
    headers, the batch of a range of blocks in both shapes, and the calls of the contract
    caller that choose between them.  What the servers answer and the conversions of the
    shared message types are parameters. *)
From S2P Require Import Prelude Helpers External VoteTypes Numerals.
#[local] Open Scope Z_scope.

(** ** Headers *)

(** A header of go-ethereum; the number is a pointer. *)
Record EthHeader := {
  eh_ParentHash : bytes; eh_UncleHash : bytes; eh_Coinbase : bytes; eh_Root : bytes; eh_TxHash : bytes; eh_ReceiptHash : bytes;
  eh_Bloom : bytes; eh_Difficulty : Z; eh_Number : option Z; eh_GasLimit : Z; eh_GasUsed : Z; eh_Time : Z; eh_Extra : bytes;
  eh_MixDigest : bytes; eh_Nonce : bytes; eh_BaseFee : option Z; eh_WithdrawalsHash : option bytes; eh_BlobGasUsed : option Z;
  eh_ExcessBlobGas : option Z; eh_ParentBeaconRoot : option bytes; eh_RequestsHash : option bytes;
}.

(** The hashes and addresses of the messages of Bor, in halves that may be nil:
    whether the halves that are read are there, and the value. *)
Class PolyProto := {
  H256 : Type; h256_whole : H256 -> bool; ConvertH256ToHash : H256 -> bytes;
  H160 : Type; h160_whole : H160 -> bool; ConvertH160toAddress : H160 -> bytes;
}.

Definition BloomByteLength : nat := 256.
Definition BlockNonceLength : nat := 8.

Section proto.
Context {PP : PolyProto}.

(** The header as gRPC carries it. *)
Record ProtoHeader := {
  ph_Number : Z; ph_ParentHash : option H256; ph_UncleHash : option H256; ph_Coinbase : option H160; ph_StateRoot : option H256;
  ph_TxRoot : option H256; ph_ReceiptRoot : option H256; ph_Bloom : bytes; ph_Difficulty : bytes; ph_GasLimit : Z; ph_GasUsed : Z;
  ph_Time : Z; ph_ExtraData : bytes; ph_MixDigest : option H256; ph_Nonce : bytes; ph_BaseFee : bytes;
  ph_WithdrawalsHash : option H256; ph_BlobGasUsed : option Z; ph_ExcessBlobGas : option Z;
  ph_ParentBeaconBlockRoot : option H256; ph_RequestsHash : option H256;
}.

Definition zero_hash256 : bytes := repeat Byte.x00 32.
Definition protoH256ToHash (h : option H256) : bytes :=
  match h with Some h => if h256_whole h then ConvertH256ToHash h else zero_hash256 | None => zero_hash256 end.
Definition protoH160ToAddress (a : option H160) : bytes :=
  match a with Some a => if h160_whole a then ConvertH160toAddress a else zero_address | None => zero_address end.
(** A hash that is left out when nil. *)
Definition optional_hash (h : option H256) : option bytes := match h with Some _ => Some (protoH256ToHash h) | None => None end.

(** [copy] into an array of zeros, of bytes that are missing or fill it. *)
Definition fixed_bytes (n : nat) (b : bytes) : bytes := if (length b =? 0)%nat then repeat Byte.x00 n else b.
Definition protoHeaderToEthHeader (p : option ProtoHeader) : option EthHeader :=
  match p with
  | None => None
  | Some p =>
      if negb (length (ph_Bloom p) =? 0)%nat && negb (length (ph_Bloom p) =? BloomByteLength)%nat then None
      else if (32 <? length (ph_Difficulty p))%nat || (32 <? length (ph_BaseFee p))%nat then None
      else if negb (length (ph_Nonce p) =? 0)%nat && negb (length (ph_Nonce p) =? BlockNonceLength)%nat then None
      else Some {|
        eh_ParentHash := protoH256ToHash (ph_ParentHash p); eh_UncleHash := protoH256ToHash (ph_UncleHash p);
        eh_Coinbase := protoH160ToAddress (ph_Coinbase p); eh_Root := protoH256ToHash (ph_StateRoot p);
        eh_TxHash := protoH256ToHash (ph_TxRoot p); eh_ReceiptHash := protoH256ToHash (ph_ReceiptRoot p);
        eh_Bloom := fixed_bytes BloomByteLength (ph_Bloom p); eh_Difficulty := be_value (ph_Difficulty p);
        eh_Number := Some (ph_Number p); eh_GasLimit := ph_GasLimit p; eh_GasUsed := ph_GasUsed p; eh_Time := ph_Time p;
        eh_Extra := ph_ExtraData p; eh_MixDigest := protoH256ToHash (ph_MixDigest p);
        eh_Nonce := fixed_bytes BlockNonceLength (ph_Nonce p);
        eh_BaseFee := if (0 <? length (ph_BaseFee p))%nat then Some (be_value (ph_BaseFee p)) else None;
        eh_WithdrawalsHash := optional_hash (ph_WithdrawalsHash p); eh_BlobGasUsed := ph_BlobGasUsed p;
        eh_ExcessBlobGas := ph_ExcessBlobGas p; eh_ParentBeaconRoot := optional_hash (ph_ParentBeaconBlockRoot p);
        eh_RequestsHash := optional_hash (ph_RequestsHash p) |}
  end.
End proto.

(** ** The servers *)

(** [ToBlockNumArg]: the latest block, a number, the name that go-ethereum gives a negative
    number (that of -2 is the latest), or an invalid text. *)
Inductive BlockTag := TagLatest | TagNumber (n : Z) | TagNamed (n : Z) | TagInvalid (n : Z).
Definition LatestBlockNumber : Z := -2.
Definition ToBlockNumArg (number : option Z) : BlockTag :=
  match number with
  | None => TagLatest
  | Some n =>
      if 0 <=? n then TagNumber n
      else if MinInt64 <=? n then (if n =? LatestBlockNumber then TagLatest else TagNamed n)
      else TagInvalid n
  end.

(** A receipt over gRPC, and that of go-ethereum without blooms and logs. *)
Record ProtoReceipt {PP : PolyProto} := {
  pr_Type : Z; pr_PostState : bytes; pr_Status : Z; pr_CumulativeGasUsed : Z; pr_TxHash : option H256; pr_ContractAddress : option H160;
  pr_GasUsed : Z; pr_EffectiveGasPrice : Z; pr_BlobGasUsed : Z; pr_BlobGasPrice : Z; pr_BlockHash : option H256; pr_BlockNumber : Z;
  pr_TransactionIndex : Z;
}.
Record EthReceipt := {
  er_Type : Z; er_PostState : bytes; er_Status : Z; er_CumulativeGasUsed : Z; er_TxHash : bytes; er_ContractAddress : bytes; er_GasUsed : Z;
  er_EffectiveGasPrice : Z; er_BlobGasUsed : Z; er_BlobGasPrice : Z; er_BlockHash : bytes; er_BlockNumber : Z; er_TransactionIndex : Z;
}.
Definition receiptResponseToTypesReceipt {PP : PolyProto} (r : ProtoReceipt) : option EthReceipt :=
  if 255 <? pr_Type r then None
  else Some {|
    er_Type := pr_Type r; er_PostState := pr_PostState r; er_Status := pr_Status r; er_CumulativeGasUsed := pr_CumulativeGasUsed r;
    er_TxHash := protoH256ToHash (pr_TxHash r); er_ContractAddress := protoH160ToAddress (pr_ContractAddress r); er_GasUsed := pr_GasUsed r;
    er_EffectiveGasPrice := pr_EffectiveGasPrice r; er_BlobGasUsed := pr_BlobGasUsed r; er_BlobGasPrice := pr_BlobGasPrice r;
    er_BlockHash := protoH256ToHash (pr_BlockHash r); er_BlockNumber := pr_BlockNumber r; er_TransactionIndex := pr_TransactionIndex r |}.

(** An answer over gRPC: a message, which may be nil, the status NotFound, or an error. *)
Inductive GrpcAnswer (A : Type) := GrpcMessage (a : option A) | GrpcNotFound | GrpcError (e : error).
Arguments GrpcMessage {A}. Arguments GrpcNotFound {A}. Arguments GrpcError {A}.

(** A block of a batch over gRPC. *)
Record ProtoBlock {PP : PolyProto} := { pb_Header : option ProtoHeader; pb_TotalDifficulty : Z; pb_Author : option H160 }.
Class BorGrpcServer {PP : PolyProto} := {
  gs_HeaderByNumber : BlockTag -> GrpcAnswer (option ProtoHeader);
  gs_GetAuthor : BlockTag -> GrpcAnswer (option H160);
  gs_GetTdByHash : bytes -> GrpcAnswer Z;
  gs_GetTdByNumber : BlockTag -> GrpcAnswer Z;
  gs_BlockByNumber : BlockTag -> GrpcAnswer (option (option ProtoHeader));
  gs_TransactionReceipt : bytes -> GrpcAnswer (option ProtoReceipt);
  gs_BorBlockReceipt : bytes -> GrpcAnswer (option ProtoReceipt);
  gs_GetRootHash : Z -> Z -> GrpcAnswer string;
  gs_GetVoteOnHash : Z -> Z -> string -> string -> GrpcAnswer bool;
  gs_GetBlockInfoInBatch : Z -> Z -> GrpcAnswer (list (option ProtoBlock));
}.

(** A request of a JSON-RPC batch and the slot of its result; the reply to a request: an
    error, and what was decoded into the slot. *)
Inductive BatchMethod := eth_getHeaderByNumber | eth_getTdByNumber | bor_getAuthor.
Record BatchElem := { be_Method : BatchMethod; be_Block : Z; be_Slot : Z }.
Record BatchReply := { br_Error : bool; br_Header : option EthHeader; br_Td : option Z; br_Author : option bytes }.
#[export] Instance BatchMethod_dec : EqDecision BatchMethod.
Proof. solve_decision. Defined.

(** The total difficulty in the answer to [eth_getTdByHash]. *)
Inductive TdValue := TdMissing | TdText (s : string) | TdOther.
(** [BatchCallContext] answers each request in its place. *)
Class BorHttpServer := {
  hs_HeaderByNumber : option Z -> outcome EthHeader;
  hs_getAuthor : BlockTag -> outcome (option bytes);
  hs_getTdByHash : bytes -> outcome TdValue;
  hs_BlockByNumber : Z -> outcome EthHeader;
  hs_TransactionReceipt : bytes -> outcome EthReceipt;
  hs_GetVoteOnHash : Z -> Z -> string -> string -> outcome bool;
  hs_batch : outcome (BatchElem -> BatchReply);
  DecodeUint64 : string -> option Z;
}.

Definition ErrEthNotFound : error := ErrText "not found".

(** ** The client over gRPC *)

Section grpc.
Context {PP : PolyProto} {GS : BorGrpcServer}.

(** The status NotFound and the nil message become [ethereum.NotFound]. *)
Definition grpc_answer {A} (a : GrpcAnswer A) : outcome A :=
  match a with GrpcMessage (Some a) => Ok a | GrpcMessage None | GrpcNotFound => Err ErrEthNotFound | GrpcError e => Err e end.
(** The checks on the header of an answer, shared by the headers and the blocks. *)
Definition checked_header (blockID : Z) (header : option ProtoHeader) : outcome EthHeader :=
  h ← of_option ErrEthNotFound (protoHeaderToEthHeader header);
  number ← must (eh_Number h);
  return_if (0 <=? blockID) && negb (i64 number =? blockID) with ErrText "server returned another block" ;;
  Ok h.
Definition grpc_HeaderByNumber (blockID : Z) : outcome EthHeader :=
  res ← grpc_answer (gs_HeaderByNumber (ToBlockNumArg (Some blockID)));
  checked_header blockID res.
(** A block has its header only. *)
Definition grpc_BlockByNumber (blockID : Z) : outcome EthHeader :=
  res ← grpc_answer (gs_BlockByNumber (ToBlockNumArg (Some blockID)));
  match res with None => Err ErrEthNotFound | Some header => checked_header blockID header end.
Definition read_receipt (a : GrpcAnswer (option ProtoReceipt)) : outcome EthReceipt :=
  res ← grpc_answer a;
  match res with None => Err ErrEthNotFound | Some r => of_option ErrEthNotFound (receiptResponseToTypesReceipt r) end.
Definition grpc_TransactionReceipt (txHash : bytes) : outcome EthReceipt := read_receipt (gs_TransactionReceipt txHash).
Definition grpc_BorBlockReceipt (txHash : bytes) : outcome EthReceipt := read_receipt (gs_BorBlockReceipt txHash).
Definition grpc_GetAuthor (blockNum : option Z) : outcome bytes :=
  res ← grpc_answer (gs_GetAuthor (ToBlockNumArg blockNum));
  match res with None => Err ErrEthNotFound | Some a => Ok (protoH160ToAddress (Some a)) end.
Definition grpc_GetTdByHash (hash : bytes) : outcome Z := grpc_answer (gs_GetTdByHash hash).

Definition grpc_GetTdByNumber (blockNum : option Z) : outcome Z := grpc_answer (gs_GetTdByNumber (ToBlockNumArg blockNum)).
(** Here the status NotFound is passed on. *)
Definition raw_answer {A} (a : GrpcAnswer A) : outcome A :=
  match a with
  | GrpcMessage (Some a) => Ok a
  | GrpcMessage None => Err ErrEthNotFound
  | GrpcNotFound => Err (ErrText "rpc error: NotFound")
  | GrpcError e => Err e
  end.
Definition grpc_GetRootHash (startBlock endBlock : Z) : outcome string := raw_answer (gs_GetRootHash startBlock endBlock).
Definition grpc_GetVoteOnHash (startBlock endBlock : Z) (rootHash milestoneId : string) : outcome bool :=
  raw_answer (gs_GetVoteOnHash startBlock endBlock rootHash milestoneId).

Definition MaxBlockInfoBatchSize : Z := 256.
(** The blocks up to the first that is missing, malformed, of another number or without an
    author; [k] are collected. *)
Fixpoint collate_grpc (start maxLen : Z) (blocks : list (option ProtoBlock)) (k : Z) : list (EthHeader * Z * bytes) :=
  match blocks with
  | [] => []
  | b :: blocks =>
      if maxLen <=? k then []
      else match b with
      | None => []
      | Some b =>
          match pb_Header b, protoHeaderToEthHeader (pb_Header b) with
          | Some p, Some h =>
              if negb (ph_Number p =? u64 (u64 start + k)) then []
              else if match pb_Author b with None => negb (ph_Number p =? 0) | Some _ => false end then []
              else (h, pb_TotalDifficulty b, protoH160ToAddress (pb_Author b)) :: collate_grpc start maxLen blocks (k + 1)
          | _, _ => []
          end
      end
  end.
Definition unzip3 {A B C} (l : list (A * B * C)) : list A * list B * list C := (map (fun x => x.1.1) l, map (fun x => x.1.2) l, map snd l).
Definition grpc_GetBlockInfoInBatch (start end_ : Z) : outcome (list EthHeader * list Z * list bytes) :=
  return_if (start <? 0) || (end_ <? 0) || (end_ <? start) with ErrText "invalid range" ;;
  return_if MaxBlockInfoBatchSize - 1 <? end_ - start with ErrText "range too large" ;;
  blocks ← raw_answer (gs_GetBlockInfoInBatch (u64 start) (u64 end_));
  Ok (unzip3 (collate_grpc start (end_ - start + 1) blocks 0)).
End grpc.

(** ** The client over HTTP *)

Section http.
Context {HS : BorHttpServer}.

Definition buildBorBatchElems (start end_ : Z) : list BatchElem :=
  let range := seqZ start (end_ - start + 1) in
  let elem method i := {| be_Method := method; be_Block := i; be_Slot := i - start |} in
  map (elem eth_getHeaderByNumber) range ++ map (elem eth_getTdByNumber) range
  ++ map (elem bor_getAuthor) (List.filter (fun i => 0 <? i) range).

(** The batch after the call: each request with its reply; a slot holds what the request for
    it was answered. *)
Definition Batch : Type := list (BatchElem * BatchReply).
Definition slot_value {A} (get : BatchReply -> option A) (method : BatchMethod) (batch : Batch) (i : Z) : option A :=
  '(_, reply) ← List.find (fun b => bool_decide (be_Method b.1 = method) && (be_Slot b.1 =? i)) batch; get reply.
Definition batchElem (batch : Batch) (i : Z) : outcome BatchReply :=
  panic_when i <? 0 ;; b ← must (batch !! Z.to_nat i); Ok b.2.

Definition borAuthorFromBatch (i start totalBlocks : Z) (batch : Batch) : outcome (option bytes) :=
  let authorReqIndex := 2 * totalBlocks + i in
  let authorReqIndex := if start =? 0 then authorReqIndex - 1 else authorReqIndex in
  elem ← batchElem batch authorReqIndex;
  Ok (if br_Error elem then None else slot_value br_Author bor_getAuthor batch i).
(** [collateBorBatchResults] on the flat batch, from index [i]. *)
Fixpoint collate_http (start totalBlocks : Z) (batch : Batch) (i : Z) (n : nat) : outcome (list (EthHeader * Z * bytes)) :=
  match n with
  | O => Ok []
  | S n =>
      let blockNum := start + i in
      elemHeader ← batchElem batch i;
      elemTd ← batchElem batch (i + totalBlocks);
      match slot_value br_Header eth_getHeaderByNumber batch i, slot_value br_Td eth_getTdByNumber batch i with
      | Some h, Some td =>
          if br_Error elemHeader || br_Error elemTd then Ok []
          else if match eh_Number h with None => true | Some number => negb (u64 number =? u64 blockNum) end then Ok []
          else
            author ← (if 0 <? blockNum then borAuthorFromBatch i start totalBlocks batch else Ok (Some zero_address));
            match author with
            | None => Ok []
            | Some author => rest ← collate_http start totalBlocks batch (i + 1) n; Ok ((h, td, author) :: rest)
            end
      | _, _ => Ok []
      end
  end.
Definition getBorChainBlockInfoInBatchHTTP (start end_ : Z) : outcome (list EthHeader * list Z * list bytes) :=
  let totalBlocks := end_ - start + 1 in
  answer ← hs_batch;
  let batch := map (fun elem => (elem, answer elem)) (buildBorBatchElems start end_) in
  l ← collate_http start totalBlocks batch 0 (Z.to_nat totalBlocks);
  Ok (unzip3 l).

Definition http_GetTdByHash (hash : bytes) : outcome Z :=
  resp ← hs_getTdByHash hash;
  match resp with
  | TdMissing => Err ErrEthNotFound
  | TdOther => Err (ErrText "unexpected totalDifficulty type")
  | TdText s => of_option (ErrText "failed to decode totalDifficulty") (DecodeUint64 s)
  end.
Definition http_GetAuthor (blockNum : option Z) : outcome bytes :=
  author ← hs_getAuthor (ToBlockNumArg blockNum); of_option ErrEthNotFound author.
End http.

(** ** The contract caller *)

Section caller.
Context {PP : PolyProto} {GS : BorGrpcServer} {HS : BorHttpServer}.

(** Whether gRPC is configured, and whether its client could be built. *)
Record BorCaller := { BorChainGrpcFlag : bool; BorChainGrpcClient : bool }.

Definition over {A} (c : BorCaller) (grpc http : outcome A) : outcome A :=
  if BorChainGrpcFlag c then
    return_if negb (BorChainGrpcClient c) with ErrText "bor grpc client is nil while bor grpc flag is enabled" ;; grpc
  else http.
Definition GetBorChainBlock_call (c : BorCaller) (blockNum : option Z) : outcome EthHeader :=
  over c (grpc_HeaderByNumber (match blockNum with None => LatestBlockNumber | Some n => i64 n end)) (hs_HeaderByNumber blockNum).
Definition CheckIfBlocksExist_call (c : BorCaller) (number : Z) : outcome bool :=
  match over c (grpc_HeaderByNumber (i64 number)) (hs_HeaderByNumber (Some (i64 number))) with
  | Ok h => Ok (match eh_Number h with None => false | Some n => number =? u64 n end)
  | Err e => if bool_decide (e = ErrEthNotFound) then Ok false else Err e
  | Panic => Panic
  end.
Definition GetBorChainBlockTd_call (c : BorCaller) (blockHash : bytes) : outcome Z :=
  over c (grpc_GetTdByHash blockHash) (http_GetTdByHash blockHash).
Definition GetBorChainBlockAuthor_call (c : BorCaller) (blockNum : option Z) : outcome bytes :=
  over c (grpc_GetAuthor blockNum) (http_GetAuthor blockNum).
(** A block has its header only, over gRPC as here. *)
Definition GetBlockByNumber_call (c : BorCaller) (blockNumber : Z) : outcome EthHeader :=
  over c (grpc_BlockByNumber (i64 blockNumber)) (hs_BlockByNumber (i64 blockNumber)).
Definition GetBorTxReceipt_call (c : BorCaller) (txHash : bytes) : outcome EthReceipt :=
  over c (grpc_TransactionReceipt txHash) (hs_TransactionReceipt txHash).
Definition GetVoteOnHash_call (c : BorCaller) (start end_ : Z) (hash milestoneID : string) : outcome bool :=
  return_if end_ <? start with ErrText "Start block number is greater than the end block number" ;;
  match over c (grpc_GetVoteOnHash start end_ hash milestoneID) (hs_GetVoteOnHash start end_ hash milestoneID) with
  | Err e => if negb (BorChainGrpcClient c) && BorChainGrpcFlag c then Err e else Err (ErrText "Error in fetching vote from bor chain")
  | o => o
  end.
Definition GetBorChainBlockInfoInBatch_call (c : BorCaller) (start end_ : Z) : outcome (list EthHeader * list Z * list bytes) :=
  return_if (start <? 0) || (end_ <? 0) || (end_ <? start) with ErrText "invalid range" ;;
  return_if MaxBlockInfoBatchSize - 1 <? end_ - start with ErrText "range too large" ;;
  over c (grpc_GetBlockInfoInBatch start end_) (getBorChainBlockInfoInBatchHTTP start end_).
End caller.
