(* ===== verification/BorClientCorrect.v ===== *)
(** * Correctness of the client of the Bor node

    The flat batch over HTTP finds for each block its own replies, the conversion of a header
    over gRPC gives the header back, and so the two transports answer the same for a node
    that shows the same chain on both; and whatever a server answers, a batch lists blocks
    with the numbers that were asked for.  The client is then an implementation of the
    interface through which the modules see Bor, and what they prove of an honest
    proposition holds over either transport. *)
From S2P Require Import Prelude SortedList Helpers External VoteTypes ValidatorSet Milestone MilestoneProposal Numerals BorClient.
#[local] Open Scope Z_scope.

(** ** Headers *)

Section headers.
Context {PP : PolyProto}.

Definition hash_field (o : option H256) (x : bytes) : Prop :=
  exists v, o = Some v /\ h256_whole v = true /\ ConvertH256ToHash v = x.
Definition optional_hash_field (o : option H256) (x : option bytes) : Prop :=
  match x with None => o = None | Some x => hash_field o x end.
Definition address_field (o : option H160) (x : bytes) : Prop :=
  exists v, o = Some v /\ h160_whole v = true /\ ConvertH160toAddress v = x.
Definition number_field (b : bytes) (z : Z) : Prop := be_value b = z /\ (length b <= 32)%nat.
Definition array_field (n : nat) (b x : bytes) : Prop := b = x /\ length x = S n.

(** The message carries the header: every field in its encoding. *)
Record carries_header (p : ProtoHeader) (h : EthHeader) : Prop := {
  ch_hashes : hash_field (ph_ParentHash p) (eh_ParentHash h) /\ hash_field (ph_UncleHash p) (eh_UncleHash h) /\
    hash_field (ph_StateRoot p) (eh_Root h) /\ hash_field (ph_TxRoot p) (eh_TxHash h) /\
    hash_field (ph_ReceiptRoot p) (eh_ReceiptHash h) /\ hash_field (ph_MixDigest p) (eh_MixDigest h);
  ch_optional : optional_hash_field (ph_WithdrawalsHash p) (eh_WithdrawalsHash h) /\
    optional_hash_field (ph_ParentBeaconBlockRoot p) (eh_ParentBeaconRoot h) /\ optional_hash_field (ph_RequestsHash p) (eh_RequestsHash h);
  ch_coinbase : address_field (ph_Coinbase p) (eh_Coinbase h);
  ch_arrays : array_field 255 (ph_Bloom p) (eh_Bloom h) /\ array_field 7 (ph_Nonce p) (eh_Nonce h);
  ch_difficulty : number_field (ph_Difficulty p) (eh_Difficulty h);
  ch_baseFee : match eh_BaseFee h with None => ph_BaseFee p = [] | Some f => ph_BaseFee p <> [] /\ number_field (ph_BaseFee p) f end;
  ch_plain : eh_Number h = Some (ph_Number p) /\ eh_GasLimit h = ph_GasLimit p /\ eh_GasUsed h = ph_GasUsed p /\
    eh_Time h = ph_Time p /\ eh_Extra h = ph_ExtraData p /\ eh_BlobGasUsed h = ph_BlobGasUsed p /\ eh_ExcessBlobGas h = ph_ExcessBlobGas p;
}.

Lemma hash_field_read o x : hash_field o x -> protoH256ToHash o = x.
Proof. intros (v & -> & Hw & <-). cbn. by rewrite Hw. Qed.
Lemma optional_hash_field_read o x : optional_hash_field o x -> optional_hash o = x.
Proof. destruct x as [x|]; [|by intros ->]. intros H. pose proof (hash_field_read _ _ H) as E. destruct H as (v & -> & _). cbn. by rewrite <- E. Qed.
Lemma address_field_read o x : address_field o x -> protoH160ToAddress o = x.
Proof. intros (v & -> & Hw & <-). cbn. by rewrite Hw. Qed.

Lemma header_carried p h : carries_header p h -> protoHeaderToEthHeader (Some p) = Some h.
Proof.
  intros [(H1 & H2 & H3 & H4 & H5 & H6) (O1 & O2 & O3) Hc ([Eb Lb] & [En Ln]) [Ed Ld] Hf (P1 & P2 & P3 & P4 & P5 & P6 & P7)].
  apply hash_field_read in H1, H2, H3, H4, H5, H6. apply optional_hash_field_read in O1, O2, O3. apply address_field_read in Hc.
  assert (length (ph_BaseFee p) <= 32)%nat as Lf by (destruct (eh_BaseFee h); [apply Hf|rewrite Hf; cbn; lia]).
  assert ((if (0 <? length (ph_BaseFee p))%nat then Some (be_value (ph_BaseFee p)) else None) = eh_BaseFee h) as Ef.
  { destruct (eh_BaseFee h) as [f|]; [|by rewrite Hf]. destruct Hf as (Hne & <- & _). by destruct (ph_BaseFee p). }
  cbn [protoHeaderToEthHeader]. rewrite Eb, En, Lb, Ln, (proj2 (Nat.ltb_ge _ _) Ld), (proj2 (Nat.ltb_ge _ _) Lf).
  cbn [Nat.eqb negb andb orb BloomByteLength BlockNonceLength]. rewrite H1, H2, H3, H4, H5, H6, O1, O2, O3, Hc, Ef, Ed.
  unfold fixed_bytes. rewrite Lb, Ln. cbn [Nat.eqb]. rewrite <- P1, <- P2, <- P3, <- P4, <- P5, <- P6, <- P7. by destruct h.
Qed.
End headers.

(** ** Whatever a server answers *)

(** The blocks of a batch have the numbers from [start] on. *)
Definition numbered (start : Z) (l : list (EthHeader * Z * bytes)) : Prop :=
  forall i x, l !! i = Some x -> exists n, eh_Number x.1.1 = Some n /\ u64 n = u64 (start + Z.of_nat i).
Lemma numbered_nil start : numbered start [].
Proof. by intros []. Qed.
Lemma numbered_cons start x l n : eh_Number x.1.1 = Some n -> u64 n = u64 start -> numbered (start + 1) l -> numbered start (x :: l).
Proof.
  intros E En Hl [|i] y; cbn; [intros [= <-]; exists n; by rewrite Z.add_0_r|].
  intros Hy. destruct (Hl i y Hy) as (m & Em & Hm). exists m. split; [done|]. rewrite Hm. f_equal. lia.
Qed.

Section any.
Context {PP : PolyProto} {HS : BorHttpServer}.

Lemma collate_grpc_numbered start maxLen blocks : forall k, 0 <= k <= maxLen ->
  let l := collate_grpc start maxLen blocks k in numbered (start + k) l /\ Z.of_nat (length l) <= maxLen - k.
Proof.
  induction blocks as [|b blocks IH]; intros k Hk; cbn [collate_grpc]; [split; [apply numbered_nil|cbn; lia]|].
  destruct (Z.leb_spec maxLen k); [split; [apply numbered_nil|cbn; lia]|].
  destruct b as [b|]; [|split; [apply numbered_nil|cbn; lia]]. destruct (pb_Header b) as [p|]; [|split; [apply numbered_nil|cbn; lia]].
  destruct (protoHeaderToEthHeader (Some p)) as [h|] eqn:Eh; [|split; [apply numbered_nil|cbn; lia]].
  destruct (Z.eqb_spec (ph_Number p) (u64 (u64 start + k))) as [En|]; cbn [negb]; [|split; [apply numbered_nil|cbn; lia]].
  destruct (match pb_Author b with None => _ | Some _ => _ end); [split; [apply numbered_nil|cbn; lia]|].
  destruct (IH (k + 1) ltac:(lia)) as [IH1 IH2]. split; [|cbn [length]; lia].
  apply (numbered_cons _ _ _ (ph_Number p)); [cbn in Eh; repeat case_match; by simplify_eq| |by rewrite <- Z.add_assoc].
  rewrite En. unfold u64. by rewrite Zmod_mod, Zplus_mod_idemp_l.
Qed.

Lemma collate_http_numbered start total batch n : forall i l, collate_http start total batch i n = Ok l ->
  numbered (start + i) l /\ (length l <= n)%nat.
Proof.
  induction n as [|n IH]; intros i l; cbn [collate_http]; [intros [= <-]; split; [apply numbered_nil|cbn; lia]|].
  intros E. ok_step E. ok_step E.
  assert (forall l : list (EthHeader * Z * bytes), Ok [] = Ok l -> numbered (start + i) l /\ (length l <= S n)%nat) as Hnil.
  { intros l' [= <-]. split; [apply numbered_nil|cbn; lia]. }
  destruct (slot_value br_Header _ _ _) as [h|]; [|by apply Hnil]. destruct (slot_value br_Td _ _ _) as [td|]; [|by apply Hnil].
  destruct (_ || _); [by apply Hnil|]. destruct (eh_Number h) as [number|] eqn:En; [|by apply Hnil].
  destruct (Z.eqb_spec (u64 number) (u64 (start + i))) as [Eu|]; cbn [negb] in E; [|by apply Hnil].
  ok_step E. destruct a1 as [author|]; [|by apply Hnil]. ok_step E. injection E as <-.
  destruct (IH (i + 1) _ Ha2) as [IH1 IH2]. split; [|cbn; lia]. eapply numbered_cons; [exact En|done|]. by rewrite <- Z.add_assoc.
Qed.
End any.

(** ** The flat batch *)

Section flat.
Context (answer : BatchElem -> BatchReply) (start end_ : Z) (Hrange : 0 <= start <= end_).
#[local] Notation total := (end_ - start + 1).
Definition reply_of (method : BatchMethod) (j : Z) : BatchElem * BatchReply :=
  let e := {| be_Method := method; be_Block := j; be_Slot := j - start |} in (e, answer e).
Definition authored : list Z := List.filter (fun i => 0 <? i) (seqZ start total).
Definition flat : Batch := map (reply_of eth_getHeaderByNumber) (seqZ start total) ++ map (reply_of eth_getTdByNumber) (seqZ start total)
  ++ map (reply_of bor_getAuthor) authored.

Lemma flat_batch : map (fun e => (e, answer e)) (buildBorBatchElems start end_) = flat.
Proof. unfold buildBorBatchElems, flat, reply_of. by rewrite !map_app, !map_map. Qed.

Lemma authored_range : authored = if start =? 0 then seqZ 1 (total - 1) else seqZ start total.
Proof.
  unfold authored. assert (forall a n, 0 < a -> List.filter (fun i => 0 <? i) (seqZ a n) = seqZ a n) as Hpos.
  { intros a n Ha. apply List.forallb_filter_id, forallb_forall. intros x Hx%list_elem_of_In%elem_of_seqZ. lia. }
  destruct (Z.eqb_spec start 0) as [E|]; [|apply Hpos; lia].
  rewrite (seqZ_cons start total) by lia. rewrite E. cbn [List.filter]. rewrite Hpos by lia. f_equal; lia.
Qed.

Lemma find_method m m' i (l : list Z) : m <> m' ->
  List.find (fun b => bool_decide (be_Method b.1 = m) && (be_Slot b.1 =? i)) (map (reply_of m') l) = None.
Proof. intros Hm. induction l as [|j l IH]; [done|]. cbn. by rewrite bool_decide_eq_false_2 by (by intros <-). Qed.
Lemma find_slot m i (l : list Z) : start + i ∈ l ->
  List.find (fun b => bool_decide (be_Method b.1 = m) && (be_Slot b.1 =? i)) (map (reply_of m) l) = Some (reply_of m (start + i)).
Proof.
  induction l as [|j l IH]; intros Hin; [by apply not_elem_of_nil in Hin|]. cbn. rewrite bool_decide_eq_true_2 by done. cbn.
  destruct (Z.eqb_spec (j - start) i) as [<-|Hj]; [by replace (start + (j - start)) with j by lia|].
  apply IH. apply elem_of_cons in Hin as [Hin|]; [lia|done].
Qed.

Lemma in_range i : 0 <= i < total -> start + i ∈ seqZ start total.
Proof. intros. apply elem_of_seqZ. lia. Qed.
Lemma find_app {A} (f : A -> bool) l k : List.find f (l ++ k) = match List.find f l with Some x => Some x | None => List.find f k end.
Proof. induction l as [|x l IH]; [done|]. cbn. by destruct (f x). Qed.

Lemma slot_header i : 0 <= i < total -> slot_value br_Header eth_getHeaderByNumber flat i = br_Header (reply_of eth_getHeaderByNumber (start + i)).2.
Proof. intros Hi. unfold slot_value, flat. rewrite find_app, find_slot by by apply in_range. done. Qed.
Lemma slot_td i : 0 <= i < total -> slot_value br_Td eth_getTdByNumber flat i = br_Td (reply_of eth_getTdByNumber (start + i)).2.
Proof. intros Hi. unfold slot_value, flat. rewrite find_app, find_method, find_app, find_slot by (done || by apply in_range). done. Qed.
Lemma slot_author i : 0 <= i < total -> 0 < start + i -> slot_value br_Author bor_getAuthor flat i = br_Author (reply_of bor_getAuthor (start + i)).2.
Proof.
  intros Hi Hp. unfold slot_value, flat. rewrite find_app, find_method, find_app, find_method, find_slot; [done| |done|done].
  unfold authored. apply list_elem_of_In, filter_In. split; [by apply list_elem_of_In, in_range|]. by apply Z.ltb_lt.
Qed.

Lemma lookup_elem m a n j : 0 <= j < n -> map (reply_of m) (seqZ a n) !! Z.to_nat j = Some (reply_of m (a + j)).
Proof. intros Hj. rewrite list_lookup_fmap, lookup_seqZ_lt by lia. cbn. do 2 f_equal. lia. Qed.
Lemma length_elems m a n : 0 <= n -> Z.of_nat (length (map (reply_of m) (seqZ a n))) = n.
Proof. intros. rewrite length_map, length_seqZ. lia. Qed.

Lemma elem_at (l : list (BatchElem * BatchReply)) i x : 0 <= i -> l !! Z.to_nat i = Some x -> batchElem l i = Ok x.2.
Proof. intros Hi Hl. unfold batchElem. rewrite (proj2 (Z.ltb_ge _ _)) by lia. cbn. unfold Batch. by rewrite Hl. Qed.
Lemma elem_header i : 0 <= i < total -> batchElem flat i = Ok (reply_of eth_getHeaderByNumber (start + i)).2.
Proof.
  intros Hi. apply elem_at; [lia|]. unfold flat. pose proof (length_elems eth_getHeaderByNumber start total ltac:(lia)).
  rewrite lookup_app_l by lia. by rewrite lookup_elem.
Qed.
Lemma elem_td i : 0 <= i < total -> batchElem flat (i + total) = Ok (reply_of eth_getTdByNumber (start + i)).2.
Proof.
  intros Hi. apply elem_at; [lia|]. unfold flat.
  pose proof (length_elems eth_getHeaderByNumber start total ltac:(lia)) as L1. pose proof (length_elems eth_getTdByNumber start total ltac:(lia)) as L2.
  rewrite lookup_app_r by lia. rewrite lookup_app_l by lia. replace (_ - _)%nat with (Z.to_nat i) by lia. by rewrite lookup_elem.
Qed.
Lemma third_part {A} (l1 l2 l3 : list A) n j : Z.of_nat (length l1) = n -> Z.of_nat (length l2) = n -> 0 <= j ->
  (l1 ++ l2 ++ l3) !! Z.to_nat (2 * n + j) = l3 !! Z.to_nat j.
Proof. intros H1 H2 Hj. rewrite !lookup_app_r by lia. f_equal. lia. Qed.
(** The shift of the authors when the first block is the genesis block. *)
Lemma author_found i : 0 <= i < total -> 0 < start + i ->
  borAuthorFromBatch i start total flat = Ok (let r := (reply_of bor_getAuthor (start + i)).2 in if br_Error r then None else br_Author r).
Proof.
  intros Hi Hp. unfold borAuthorFromBatch. rewrite slot_author by done.
  pose proof (length_elems eth_getHeaderByNumber start total ltac:(lia)) as L1. pose proof (length_elems eth_getTdByNumber start total ltac:(lia)) as L2.
  assert (batchElem flat (if start =? 0 then 2 * total + i - 1 else 2 * total + i) = Ok (reply_of bor_getAuthor (start + i)).2) as ->; [|done].
  apply elem_at; [destruct (Z.eqb_spec start 0); lia|]. unfold flat. rewrite authored_range. destruct (Z.eqb_spec start 0) as [E|].
  - rewrite <- Z.add_sub_assoc, third_part by (done || lia). rewrite lookup_elem by lia. by replace (1 + (i - 1)) with (start + i) by lia.
  - rewrite third_part by (done || lia). by rewrite lookup_elem.
Qed.
End flat.

(** ** One node, two transports *)

(** A block as the node knows it. *)
Record NodeBlock := { nb_Header : EthHeader; nb_Td : Z; nb_Author : bytes }.
Definition entry (b : NodeBlock) : EthHeader * Z * bytes := (nb_Header b, nb_Td b, nb_Author b).
(** The blocks from [start] on, up to the first that the node does not have. *)
Fixpoint found (chain : Z -> option NodeBlock) (start : Z) (n : nat) : list NodeBlock :=
  match n with
  | O => []
  | S n => match chain start with None => [] | Some b => b :: found chain (start + 1) n end
  end.

Section node.
Context {PP : PolyProto} {GS : BorGrpcServer} {HS : BorHttpServer} (chain : Z -> option NodeBlock) (head : option NodeBlock) (td : bytes -> option Z).

Definition at_tag (t : BlockTag) : option NodeBlock := match t with TagLatest => head | TagNumber n => chain n | _ => None end.
Definition known_tag (t : BlockTag) : Prop := match t with TagLatest | TagNumber _ => True | _ => False end.
(** An answer over gRPC that carries a value, or that it is not found. *)
Definition carries_answer {A B} (carries : A -> B -> Prop) (a : GrpcAnswer A) (b : option B) : Prop :=
  match b with None => a = GrpcNotFound \/ a = GrpcMessage None | Some b => exists m, a = GrpcMessage (Some m) /\ carries m b end.
Definition carries_some_header (m : option ProtoHeader) (b : NodeBlock) : Prop := exists p, m = Some p /\ carries_header p (nb_Header b).
(** The author of the genesis block may be left out. *)
Definition carries_block (m : option ProtoBlock) (b : NodeBlock) : Prop :=
  exists pb, m = Some pb /\ carries_some_header (pb_Header pb) b /\ pb_TotalDifficulty pb = nb_Td b /\
    (address_field (pb_Author pb) (nb_Author b) \/ pb_Author pb = None /\ eh_Number (nb_Header b) = Some 0 /\ nb_Author b = zero_address).
Definition replies (e : BatchElem) (r : BatchReply) : Prop :=
  match chain (be_Block e) with
  | Some b => br_Error r = false /\
      match be_Method e with
      | eth_getHeaderByNumber => br_Header r = Some (nb_Header b)
      | eth_getTdByNumber => br_Td r = Some (nb_Td b)
      | bor_getAuthor => br_Author r = Some (nb_Author b)
      end
  | None => br_Error r = true \/ br_Header r = None /\ br_Td r = None /\ br_Author r = None
  end.

(** Both servers show the chain of the node. *)
Record same_node : Prop := {
  sn_numbers : forall n b, chain n = Some b -> 0 <= n /\ eh_Number (nb_Header b) = Some n;
  sn_genesis : forall b, chain 0 = Some b -> nb_Author b = zero_address;
  sn_http_header : forall n, 0 <= n -> hs_HeaderByNumber (Some n) = match chain n with Some b => Ok (nb_Header b) | None => Err ErrEthNotFound end;
  sn_http_head : hs_HeaderByNumber None = match head with Some b => Ok (nb_Header b) | None => Err ErrEthNotFound end;
  sn_grpc_header : forall t, known_tag t -> carries_answer carries_some_header (gs_HeaderByNumber t) (at_tag t);
  sn_http_author : forall t, known_tag t -> hs_getAuthor t = Ok (nb_Author <$> at_tag t);
  sn_grpc_author : forall t, known_tag t -> carries_answer address_field (gs_GetAuthor t) (nb_Author <$> at_tag t);
  sn_http_td : forall h, match td h with Some d => exists s, hs_getTdByHash h = Ok (TdText s) /\ DecodeUint64 s = Some d | None => hs_getTdByHash h = Ok TdMissing end;
  sn_grpc_td : forall h, carries_answer eq (gs_GetTdByHash h) (td h);
  sn_http_batch : exists answer, hs_batch = Ok answer /\ forall e, replies e (answer e);
  sn_grpc_batch : forall start end_, 0 <= start <= end_ ->
    exists blocks, gs_GetBlockInfoInBatch start end_ = GrpcMessage (Some blocks) /\
      Forall2 carries_block blocks (found chain start (Z.to_nat (end_ - start + 1)));
}.

Context (SN : same_node).

Lemma grpc_answered {A B} (carries : A -> B -> Prop) a b : carries_answer carries a b ->
  match b with Some b => exists m, grpc_answer a = Ok m /\ carries m b | None => grpc_answer a = Err ErrEthNotFound end.
Proof. destruct b as [b|]; [intros (m & -> & Hm); by exists m|by intros [-> | ->]]. Qed.
Lemma known_number n : 0 <= n -> ToBlockNumArg (Some n) = TagNumber n.
Proof. intros. cbn. by rewrite (proj2 (Z.leb_le _ _)). Qed.

Lemma grpc_header_shown n : 0 <= n < 2 ^ 63 -> grpc_HeaderByNumber n = match chain n with Some b => Ok (nb_Header b) | None => Err ErrEthNotFound end.
Proof.
  intros Hn. unfold grpc_HeaderByNumber, checked_header. rewrite known_number by lia.
  pose proof (grpc_answered _ _ _ (sn_grpc_header SN (TagNumber n) I)) as G. cbn [at_tag] in G.
  destruct (chain n) as [b|] eqn:Eb; [|by rewrite G]. destruct G as (m & -> & p & -> & Hp). cbn [mbind outcome_bind].
  rewrite (header_carried _ _ Hp). cbn. destruct (sn_numbers SN n b Eb) as [_ ->]. cbn.
  rewrite (proj2 (Z.leb_le _ _)) by lia. cbn. by rewrite i64_id, Z.eqb_refl by (unfold in_i64, MinInt64, MaxInt64; lia).
Qed.
Lemma grpc_head_shown : grpc_HeaderByNumber LatestBlockNumber = match head with Some b => Ok (nb_Header b) | None => Err ErrEthNotFound end.
Proof.
  unfold grpc_HeaderByNumber, checked_header. pose proof (grpc_answered _ _ _ (sn_grpc_header SN TagLatest I)) as G. cbn [at_tag] in G.
  change (ToBlockNumArg _) with TagLatest. destruct head as [b|]; [|by rewrite G]. destruct G as (m & -> & p & -> & Hp).
  cbn [mbind outcome_bind]. rewrite (header_carried _ _ Hp). cbn. by rewrite (proj1 (ch_plain _ _ Hp)).
Qed.
Lemma grpc_author_shown t : known_tag t ->
  match grpc_answer (gs_GetAuthor t) with Ok (Some a) => Ok (protoH160ToAddress (Some a)) | Ok None => Err ErrEthNotFound | Err e => Err e | Panic => Panic end
  = match nb_Author <$> at_tag t with Some a => Ok a | None => Err ErrEthNotFound end.
Proof.
  intros Ht. pose proof (grpc_answered _ _ _ (sn_grpc_author SN t Ht)) as G. destruct (nb_Author <$> at_tag t) as [a|]; [|by rewrite G].
  destruct G as (m & -> & v & -> & Hw & <-). cbn. by rewrite Hw.
Qed.

Lemma entry_carried m b : carries_block m b -> exists pb p, m = Some pb /\ pb_Header pb = Some p /\ protoHeaderToEthHeader (Some p) = Some (nb_Header b) /\ eh_Number (nb_Header b) = Some (ph_Number p) /\ pb_TotalDifficulty pb = nb_Td b /\ protoH160ToAddress (pb_Author pb) = nb_Author b /\
  (pb_Author pb = None -> ph_Number p = 0).
Proof.
  intros (pb & -> & (p & Ep & Hp) & Et & Ha). exists pb, p. pose proof (proj1 (ch_plain _ _ Hp)) as En.
  split_and!; [done|done|by apply header_carried|done|done| |].
  - destruct Ha as [Ha|(-> & _ & ->)]; [by apply address_field_read|done].
  - destruct Ha as [(v & -> & _)|(_ & E & _)]; [done|]. intros _. congruence.
Qed.
Lemma collate_grpc_found start maxLen n : forall k blocks, 0 <= start -> 0 <= k -> start + maxLen < 2 ^ 64 -> k + Z.of_nat n = maxLen ->
  Forall2 carries_block blocks (found chain (start + k) n) -> collate_grpc start maxLen blocks k = map entry (found chain (start + k) n).
Proof.
  induction n as [|n IH]; intros k blocks Hs Hk Hm Hn HF; cbn [found] in *; [apply Forall2_nil_inv_r in HF as ->; done|].
  destruct (chain (start + k)) as [b|] eqn:Eb; [|apply Forall2_nil_inv_r in HF as ->; done].
  apply Forall2_cons_inv_r in HF as (m & blocks' & Hb & HF & ->).
  destruct (entry_carried m b Hb) as (pb & p & -> & Ep & Eh & En & Et & Ea & Ez). cbn [collate_grpc].
  rewrite (proj2 (Z.leb_gt _ _)) by lia. rewrite Ep, Eh.
  destruct (sn_numbers SN _ _ Eb) as [_ Enb]. assert (ph_Number p = start + k) as -> by congruence.
  rewrite (u64_id start), (u64_id (start + k)), Z.eqb_refl by (unfold in_u64, MaxUint64; lia). cbn [negb].
  assert ((match pb_Author pb with None => negb (start + k =? 0) | Some _ => false end) = false) as ->.
  { destruct (pb_Author pb); [done|]. assert (ph_Number p = 0) as E by auto. rewrite E in En. rewrite Enb in En. injection En as ->. done. }
  cbn [map]. rewrite (IH (k + 1)) by (try lia; by rewrite Z.add_assoc). unfold entry at 2. by rewrite Et, Ea, Z.add_assoc.
Qed.

Lemma collate_http_found answer start end_ n : forall i, (forall e, replies e (answer e)) -> 0 <= start <= end_ -> end_ < 2 ^ 63 ->
  0 <= i -> i + Z.of_nat n = end_ - start + 1 ->
  collate_http start (end_ - start + 1) (map (fun e => (e, answer e)) (buildBorBatchElems start end_)) i n = Ok (map entry (found chain (start + i) n)).
Proof.
  induction n as [|n IH]; intros i Hr Hse He Hi Hn; [done|]. cbn [collate_http found]. specialize (IH (i + 1) Hr Hse He).
  rewrite flat_batch in * by done. assert (0 <= i < end_ - start + 1) as Hin by lia. rewrite (elem_header answer start end_ Hse i Hin), (elem_td answer start end_ Hse i Hin), slot_header, slot_td by done. cbn [mbind outcome_bind snd reply_of].
  pose proof (Hr {| be_Method := eth_getHeaderByNumber; be_Block := start + i; be_Slot := start + i - start |}) as Rh.
  pose proof (Hr {| be_Method := eth_getTdByNumber; be_Block := start + i; be_Slot := start + i - start |}) as Rt.
  pose proof (Hr {| be_Method := bor_getAuthor; be_Block := start + i; be_Slot := start + i - start |}) as Ra.
  unfold replies in Rh, Rt, Ra. cbn [be_Block be_Method] in Rh, Rt, Ra. destruct (chain (start + i)) as [b|] eqn:Eb.
  - destruct Rh as [-> ->], Rt as [-> ->], Ra as [Ra1 Ra2]. cbn [orb]. destruct (sn_numbers SN _ _ Eb) as [_ ->]. rewrite Z.eqb_refl. cbn [negb].
    rewrite IH by lia. rewrite Z.add_assoc. destruct (Z.ltb_spec 0 (start + i)) as [Hp|Hp].
    + rewrite author_found by lia. cbn [snd reply_of]. rewrite Ra1, Ra2. done.
    + assert (start + i = 0) as E by lia. rewrite E in Eb. cbn [mbind outcome_bind map]. unfold entry at 2. by rewrite (sn_genesis SN b Eb).
  - destruct Rh as [-> | (-> & _)]; [|done]. cbn [orb]. by repeat case_match.
Qed.

(** What the node has, as the contract caller reports it. *)
Definition shown (b : option NodeBlock) : outcome EthHeader := match b with Some b => Ok (nb_Header b) | None => Err ErrEthNotFound end.
Definition block_of (blockNum : option Z) : option NodeBlock := match blockNum with None => head | Some n => chain n end.
Definition wide (blockNum : option Z) : Prop := match blockNum with None => True | Some n => 0 <= n < 2 ^ 63 end.

(** C39: a validator sees the same chain whichever transport is configured: for a node whose two servers show
    one chain, the header of a block or of the head, whether a block exists, a total difficulty, an author, and
    the batch of a range (headers, difficulties and authors up to the first block the node lacks, the errors of
    a bad range included) are what the node has, over gRPC and over HTTP alike. *)
Theorem transports_show_the_chain c : (BorChainGrpcFlag c = true -> BorChainGrpcClient c = true) ->
  (forall o, wide o -> GetBorChainBlock_call c o = shown (block_of o)) /\
  (forall n, 0 <= n < 2 ^ 63 -> CheckIfBlocksExist_call c n = Ok (bool_decide (is_Some (chain n)))) /\
  (forall h, GetBorChainBlockTd_call c h = of_option ErrEthNotFound (td h)) /\
  (forall o, wide o -> GetBorChainBlockAuthor_call c o = of_option ErrEthNotFound (nb_Author <$> block_of o)) /\
  (forall start end_, end_ < 2 ^ 63 -> GetBorChainBlockInfoInBatch_call c start end_ =
    if (start <? 0) || (end_ <? 0) || (end_ <? start) then Err (ErrText "invalid range")
    else if MaxBlockInfoBatchSize - 1 <? end_ - start then Err (ErrText "range too large")
    else Ok (unzip3 (map entry (found chain start (Z.to_nat (end_ - start + 1)))))).
Proof.
  intros Hc. assert (forall A (g h x : outcome A), g = x -> h = x -> over c g h = x) as Hover.
  { intros A g h x -> ->. unfold over. destruct (BorChainGrpcFlag c); [|done]. by rewrite Hc. }
  assert (forall n, 0 <= n < 2 ^ 63 -> i64 n = n) as Hi by (intros; apply i64_id; unfold in_i64, MinInt64, MaxInt64; lia).
  split_and!.
  - intros o Ho. apply Hover; destruct o as [n|]; cbn in Ho |- *.
    + rewrite Hi by done. by apply grpc_header_shown.
    + apply grpc_head_shown.
    + apply (sn_http_header SN). lia.
    + apply (sn_http_head SN).
  - intros n Hn. unfold CheckIfBlocksExist_call. rewrite Hi by done. rewrite (Hover _ _ _ (shown (chain n))) by
      (apply grpc_header_shown || apply (sn_http_header SN); lia). destruct (chain n) as [b|] eqn:Eb; cbn; [|done].
    destruct (sn_numbers SN n b Eb) as [_ ->]. by rewrite u64_id, Z.eqb_refl by (unfold in_u64, MaxUint64; lia).
  - intros h. apply Hover.
    + pose proof (grpc_answered _ _ _ (sn_grpc_td SN h)) as G. unfold grpc_GetTdByHash. destruct (td h) as [d|]; [|done]. by destruct G as (m & -> & ->).
    + pose proof (sn_http_td SN h) as G. unfold http_GetTdByHash. destruct (td h) as [d|]; [|by rewrite G]. destruct G as (x & -> & Hx). cbn. by rewrite Hx.
  - intros o Ho. assert (known_tag (ToBlockNumArg o) /\ at_tag (ToBlockNumArg o) = block_of o) as [Kt <-].
    { destruct o as [n|]; [|done]. by rewrite known_number by apply Ho. }
    apply Hover.
    + transitivity (match nb_Author <$> at_tag (ToBlockNumArg o) with Some a => Ok a | None => Err ErrEthNotFound end); [|by destruct (nb_Author <$> _)].
      rewrite <- grpc_author_shown by done. unfold grpc_GetAuthor. by destruct (grpc_answer _) as [[|]| |].
    + unfold http_GetAuthor. by rewrite (sn_http_author SN _ Kt).
  - intros start end_ He. unfold GetBorChainBlockInfoInBatch_call. destruct (_ || _ || _) eqn:E1; cbn [fail_if]; [done|].
    destruct (MaxBlockInfoBatchSize - 1 <? end_ - start) eqn:E2; [done|]. cbn [fail_if].
    assert (0 <= start <= end_ /\ end_ - start <= 255) as [Hr Hs] by (unfold MaxBlockInfoBatchSize in E2; lia). apply Hover.
    + unfold grpc_GetBlockInfoInBatch. rewrite E1, E2. cbn [fail_if].
      rewrite !u64_id by (unfold in_u64, MaxUint64; lia). destruct (sn_grpc_batch SN start end_ Hr) as (blocks & -> & HF). cbn [raw_answer mbind outcome_bind].
      rewrite (collate_grpc_found start _ (Z.to_nat (end_ - start + 1))) by (try rewrite Z.add_0_r; done || lia). by rewrite Z.add_0_r.
    + unfold getBorChainBlockInfoInBatchHTTP. destruct (sn_http_batch SN) as (answer & -> & Hr'). cbn [mbind outcome_bind].
      rewrite (collate_http_found answer start end_) by (done || lia). by rewrite Z.add_0_r.
Qed.
End node.

(** Whatever the servers answer, a batch lists blocks under the numbers that were asked for, as many as asked
    for at most. *)
Theorem batches_are_numbered {PP : PolyProto} {GS : BorGrpcServer} {HS : BorHttpServer} c start end_ headers tds authors :
  GetBorChainBlockInfoInBatch_call c start end_ = Ok (headers, tds, authors) ->
  0 <= start <= end_ /\ Z.of_nat (length headers) <= end_ - start + 1 <= 256 /\ length tds = length headers /\ length authors = length headers /\
  forall i h, headers !! i = Some h -> exists n, eh_Number h = Some n /\ u64 n = u64 (start + Z.of_nat i).
Proof.
  assert (forall A (x y : A), Ok x = Ok y -> x = y) as Hok by congruence.
  intros E. unfold GetBorChainBlockInfoInBatch_call in E. ok_step E. ok_step E. apply orb_false_iff in Hg as [Hg Hg3].
  apply orb_false_iff in Hg as [Hg1 Hg2]. assert (0 <= start <= end_ /\ end_ - start + 1 <= 256) as [Hr Hs] by (unfold MaxBlockInfoBatchSize in *; lia).
  assert (exists l, unzip3 l = (headers, tds, authors) /\ numbered start l /\ Z.of_nat (length l) <= end_ - start + 1) as (l & El & Hn & Hl).
  - unfold over in E. destruct (BorChainGrpcFlag c).
    + ok_step E. unfold grpc_GetBlockInfoInBatch in E. ok_step E. ok_step E. ok_step E. rename a into blocks. apply Hok in E. destruct (collate_grpc_numbered start (end_ - start + 1) blocks 0 ltac:(lia)) as [Hn Hl].
      rewrite Z.add_0_r in Hn. eexists. split_and!; [exact E|done|lia].
    + unfold getBorChainBlockInfoInBatchHTTP in E. ok_step E. ok_step E. apply Hok in E.
      destruct (collate_http_numbered _ _ _ _ _ _ Ha0) as [Hn Hl]. rewrite Z.add_0_r in Hn. eexists. split_and!; [exact E|done|lia].
  - injection El as <- <- <-. rewrite !length_map. split_and!; [lia|lia|lia|lia|done|done|].
    intros i h Hh. apply list_lookup_fmap_Some in Hh as (x & -> & Hx). by apply Hn.
Qed.

(** ** A node with two blocks *)

Module TwoBlocks.
#[export] Instance plain_proto : PolyProto := {|
  H256 := bytes; h256_whole _ := true; ConvertH256ToHash h := h; H160 := bytes; h160_whole _ := true; ConvertH160toAddress a := a |}.
Definition hash (x : Byte.byte) : bytes := repeat x 32.
Definition header (n : Z) (parent : bytes) (fee : option Z) : EthHeader := {|
  eh_ParentHash := parent; eh_UncleHash := hash Byte.x02; eh_Coinbase := zero_address; eh_Root := hash Byte.x03; eh_TxHash := hash Byte.x04;
  eh_ReceiptHash := hash Byte.x05; eh_Bloom := repeat Byte.x00 256; eh_Difficulty := 3; eh_Number := Some n; eh_GasLimit := 30000000;
  eh_GasUsed := 21000; eh_Time := 1700000000 + n; eh_Extra := [Byte.x07]; eh_MixDigest := hash Byte.x08; eh_Nonce := repeat Byte.x00 8;
  eh_BaseFee := fee; eh_WithdrawalsHash := None; eh_BlobGasUsed := None; eh_ExcessBlobGas := None; eh_ParentBeaconRoot := None; eh_RequestsHash := None |}.
Definition genesis : NodeBlock := {| nb_Header := header 0 (hash Byte.x00) None; nb_Td := 3; nb_Author := zero_address |}.
Definition first : NodeBlock := {| nb_Header := header 1 (hash Byte.x01) (Some 25); nb_Td := 6; nb_Author := repeat Byte.x0a 20 |}.
Definition chain (n : Z) : option NodeBlock := if n =? 0 then Some genesis else if n =? 1 then Some first else None.
Definition td (h : bytes) : option Z := if bool_decide (h = hash Byte.x01) then Some 3 else None.

Definition proto (n : Z) (parent : bytes) (fee : bytes) : ProtoHeader := {|
  ph_Number := n; ph_ParentHash := Some parent; ph_UncleHash := Some (hash Byte.x02); ph_Coinbase := Some zero_address;
  ph_StateRoot := Some (hash Byte.x03); ph_TxRoot := Some (hash Byte.x04); ph_ReceiptRoot := Some (hash Byte.x05); ph_Bloom := repeat Byte.x00 256;
  ph_Difficulty := [Byte.x03]; ph_GasLimit := 30000000; ph_GasUsed := 21000; ph_Time := 1700000000 + n; ph_ExtraData := [Byte.x07];
  ph_MixDigest := Some (hash Byte.x08); ph_Nonce := repeat Byte.x00 8; ph_BaseFee := fee; ph_WithdrawalsHash := None; ph_BlobGasUsed := None;
  ph_ExcessBlobGas := None; ph_ParentBeaconBlockRoot := None; ph_RequestsHash := None |}.
Definition genesis_proto : ProtoHeader := proto 0 (hash Byte.x00) [].
Definition first_proto : ProtoHeader := proto 1 (hash Byte.x01) [Byte.x19].
Definition proto_of (n : Z) : option ProtoHeader := if n =? 0 then Some genesis_proto else if n =? 1 then Some first_proto else None.
Definition tag_number (t : BlockTag) : Z := match t with TagLatest => 1 | TagNumber n => n | _ => -1 end.

#[export] Instance grpc_server : BorGrpcServer := {|
  gs_HeaderByNumber t := match proto_of (tag_number t) with Some p => GrpcMessage (Some (Some p)) | None => GrpcNotFound end;
  gs_GetAuthor t := match chain (tag_number t) with Some b => GrpcMessage (Some (Some (nb_Author b))) | None => GrpcMessage None end;
  gs_GetTdByNumber _ := GrpcNotFound; gs_BlockByNumber _ := GrpcNotFound; gs_TransactionReceipt _ := GrpcNotFound;
  gs_BorBlockReceipt _ := GrpcNotFound; gs_GetRootHash _ _ := GrpcNotFound; gs_GetVoteOnHash _ _ _ _ := GrpcNotFound;
  gs_GetTdByHash h := match td h with Some d => GrpcMessage (Some d) | None => GrpcNotFound end;
  gs_GetBlockInfoInBatch start end_ := GrpcMessage (Some
    ((if start =? 0 then [Some {| pb_Header := Some genesis_proto; pb_TotalDifficulty := 3; pb_Author := None |}] else [])
     ++ (if (start <=? 1) && (1 <=? end_) then [Some {| pb_Header := Some first_proto; pb_TotalDifficulty := 6; pb_Author := Some (nb_Author first) |}] else []))) |}.
Definition answer (e : BatchElem) : BatchReply :=
  match chain (be_Block e) with
  | None => {| br_Error := false; br_Header := None; br_Td := None; br_Author := None |}
  | Some b => {| br_Error := false; br_Header := Some (nb_Header b); br_Td := Some (nb_Td b); br_Author := Some (nb_Author b) |}
  end.
#[export] Instance http_server : BorHttpServer := {|
  hs_HeaderByNumber o := match chain (match o with Some n => n | None => 1 end) with Some b => Ok (nb_Header b) | None => Err ErrEthNotFound end;
  hs_getAuthor t := Ok (nb_Author <$> chain (tag_number t));
  hs_getTdByHash h := match td h with Some _ => Ok (TdText "0x3") | None => Ok TdMissing end;
  hs_BlockByNumber _ := Err ErrEthNotFound; hs_TransactionReceipt _ := Err ErrEthNotFound; hs_GetVoteOnHash _ _ _ _ := Err ErrEthNotFound;
  hs_batch := Ok answer;
  DecodeUint64 s := if bool_decide (s = "0x3"%string) then Some 3 else None |}.

Lemma genesis_carried : carries_header genesis_proto (nb_Header genesis).
Proof. split; repeat split; try (by eexists); try done; cbn; lia. Qed.
Lemma first_carried : carries_header first_proto (nb_Header first).
Proof. split; repeat split; try (by eexists); try done; cbn; lia. Qed.
Lemma chain_cases n : n = 0 /\ chain n = Some genesis /\ proto_of n = Some genesis_proto \/ n = 1 /\ chain n = Some first /\ proto_of n = Some first_proto \/
  n <> 0 /\ n <> 1 /\ chain n = None /\ proto_of n = None.
Proof. unfold chain, proto_of. destruct (Z.eqb_spec n 0) as [->|]; [by left|]. destruct (Z.eqb_spec n 1) as [->|]; [by right; left|]. by do 2 right. Qed.
Lemma tag_shown t : known_tag t -> at_tag chain (Some first) t = chain (tag_number t).
Proof. by destruct t. Qed.

Lemma two_blocks : same_node chain (Some first) td.
Proof.
  split.
  - intros n b Hb. destruct (chain_cases n) as [(-> & E & _)|[(-> & E & _)|(_ & _ & E & _)]]; rewrite E in Hb; by simplify_eq.
  - by intros b [= <-].
  - done.
  - done.
  - intros t Ht. rewrite tag_shown by done. cbn. destruct (chain_cases (tag_number t)) as [(_ & -> & ->)|[(_ & -> & ->)|(_ & _ & -> & ->)]]; cbn.
    + eexists. split; [done|]. eexists. split; [done|apply genesis_carried].
    + eexists. split; [done|]. eexists. split; [done|apply first_carried].
    + by left.
  - intros t Ht. by rewrite tag_shown.
  - intros t Ht. rewrite tag_shown by done. cbn. destruct (chain (tag_number t)) as [b|]; cbn; [|by right]. eexists. split; [done|]. by eexists.
  - intros h. cbn. unfold td. case_bool_decide; [by eexists|done].
  - intros h. cbn. unfold td. case_bool_decide; cbn; [by eexists|by left].
  - exists answer. split; [done|]. intros e. unfold replies, answer. destruct (chain _); [by destruct (be_Method e)|by right].
  - intros start end_ Hr. eexists. split; [reflexivity|].
    assert (forall a k, 2 <= a -> found chain a k = []) as Hnone.
    { intros a [|k] Ha; [done|]. cbn. destruct (chain_cases a) as [(-> & _)|[(-> & _)|(_ & _ & -> & _)]]; done || lia. }
    assert (carries_block (Some {| pb_Header := Some first_proto; pb_TotalDifficulty := 6; pb_Author := Some (nb_Author first) |}) first) as H1.
    { eexists. split_and!; [done|eexists; split; [done|apply first_carried]|done|]. left. by eexists. }
    assert (carries_block (Some {| pb_Header := Some genesis_proto; pb_TotalDifficulty := 3; pb_Author := None |}) genesis) as H0.
    { eexists. split_and!; [done|eexists; split; [done|apply genesis_carried]|done|]. by right. }
    replace (Z.to_nat (end_ - start + 1)) with (S (Z.to_nat (end_ - start))) by lia.
    destruct (Z.eq_dec start 0) as [->|]; [|destruct (Z.eq_dec start 1) as [->|]].
    + rewrite Z.sub_0_r. destruct (Z.to_nat end_) as [|k] eqn:Ek; cbn [found chain Z.eqb Z.leb].
      * rewrite (proj2 (Z.leb_gt 1 end_)) by lia. by repeat constructor.
      * rewrite (proj2 (Z.leb_le 1 end_)) by lia. cbn. rewrite Hnone by lia. by repeat constructor.
    + rewrite (proj2 (Z.leb_le 1 end_)) by lia. cbn. rewrite Hnone by lia. by repeat constructor.
    + rewrite Hnone by lia. rewrite (proj2 (Z.eqb_neq start 0)), (proj2 (Z.leb_gt start 1)) by lia. constructor.
Qed.

Definition over_grpc : BorCaller := {| BorChainGrpcFlag := true; BorChainGrpcClient := true |}.
Definition over_http : BorCaller := {| BorChainGrpcFlag := false; BorChainGrpcClient := false |}.
(** The first blocks over either transport, the answer listing the two there are. *)
Lemma transports_show_the_chain_witness :
  GetBorChainBlockInfoInBatch_call over_grpc 0 5 = Ok (map nb_Header [genesis; first], [3; 6], [zero_address; nb_Author first]) /\
  GetBorChainBlockInfoInBatch_call over_http 0 5 = GetBorChainBlockInfoInBatch_call over_grpc 0 5 /\
  CheckIfBlocksExist_call over_grpc 2 = Ok false.
Proof.
  destruct (transports_show_the_chain chain (Some first) td two_blocks over_grpc (fun _ => eq_refl)) as (_ & G2 & _ & _ & G5).
  destruct (transports_show_the_chain chain (Some first) td two_blocks over_http ltac:(discriminate)) as (_ & _ & _ & _ & H5).
  rewrite (G5 0 5), (H5 0 5) by reflexivity. rewrite (G2 2) by lia. split_and!; reflexivity.
Defined.
Lemma batches_are_numbered_witness : GetBorChainBlockInfoInBatch_call over_http 1 3 = Ok ([nb_Header first], [6], [nb_Author first]) /\
  exists n, eh_Number (nb_Header first) = Some n /\ u64 n = u64 (1 + Z.of_nat 0).
Proof.
  assert (GetBorChainBlockInfoInBatch_call over_http 1 3 = Ok ([nb_Header first], [6], [nb_Author first])) as E by (vm_compute; reflexivity).
  split; [exact E|]. by apply (batches_are_numbered over_http 1 3 _ _ _ E) with (i := 0%nat).
Defined.
End TwoBlocks.

(** * The client as the view of the Bor chain

    The interface through which the milestone and span modules see Bor ([BorChain] of
    [External]) implemented by the calls of the contract caller, and the law that those
    modules rely on ([chain_view]) discharged for it: their theorems then hold for a
    validator with either transport. *)
Section view.
Context {PP : PolyProto} {GS : BorGrpcServer} {HS : BorHttpServer} (hash : EthHeader -> bytes).

(** What the modules read of a header: [Number], [Hash()] and [ParentHash]. *)
Definition header_view (h : EthHeader) : option Header :=
  n ← eh_Number h; Some {| Number := n; HeaderHash := hash h; HeaderParentHash := eh_ParentHash h |}.
Definition answered {A} (o : outcome A) : option A := match o with Ok a => Some a | _ => None end.
(** The lists of a batch in the slots of their blocks. *)
Definition client_slots (start : Z) (l : list EthHeader * list Z * list bytes) (n : Z) : option (Header * Z) * option bytes :=
  let i := Z.to_nat (n - start) in
  if n <? start then (None, None)
  else (h ← l.1.1 !! i; v ← header_view h; td ← l.1.2 !! i; Some (v, td), l.2 !! i).
(** The numbers of a range are of type [int64]. *)
#[local] Instance client_chain (c : BorCaller) : BorChain := {|
  GetBorChainBlock o := h ← answered (GetBorChainBlock_call c o); header_view h;
  GetBorChainBlockAuthor n := answered (GetBorChainBlockAuthor_call c (Some n));
  BorBatch first last := if MaxInt64 <? last then None else l ← answered (GetBorChainBlockInfoInBatch_call c first last); Some (client_slots first l) |}.

(** The chain of the node: the blocks up to its head. *)
Definition full_chain (blocks : Z -> NodeBlock) (top : Z) (chain : Z -> option NodeBlock) : Prop :=
  forall n b, chain n = Some b <-> 0 <= n <= top /\ b = blocks n.
Context (blocks : Z -> NodeBlock) (top : Z) (chain : Z -> option NodeBlock) (td : bytes -> option Z) (c : BorCaller).
Context (FC : full_chain blocks top chain) (SN : same_node chain (chain top) td) (Hc : BorChainGrpcFlag c = true -> BorChainGrpcClient c = true).

(** A block as the modules see it. *)
Definition seen (b : NodeBlock) : Header :=
  {| Number := default 0 (eh_Number (nb_Header b)); HeaderHash := hash (nb_Header b); HeaderParentHash := eh_ParentHash (nb_Header b) |}.
Definition seen_entry (b : NodeBlock) : Header * Z * bytes := (seen b, nb_Td b, nb_Author b).

Lemma known_Some n b : chain n = Some b -> 0 <= n <= top /\ b = blocks n /\ header_view (nb_Header b) = Some (seen b) /\ Number (seen b) = n.
Proof.
  intros Hb. pose proof (sn_numbers _ _ _ SN n b Hb) as [_ En]. destruct (proj1 (FC n b) Hb) as [Hn ->].
  unfold header_view, seen. rewrite En. split_and!; done || lia.
Qed.
Lemma known_in n : 0 <= n <= top -> chain n = Some (blocks n).
Proof. intros. by apply FC. Qed.
Lemma found_lookup n : forall start i b, found chain start n !! i = Some b -> chain (start + Z.of_nat i) = Some b.
Proof.
  induction n as [|n IH]; intros start i b; cbn; [done|]. destruct (chain start) as [b'|] eqn:E; [|done].
  destruct i as [|i]; cbn; [intros [= <-]; by rewrite Z.add_0_r|]. intros Hl%IH. rewrite <- Hl. f_equal. lia.
Qed.
Lemma found_length n : forall start, (length (found chain start n) <= n)%nat.
Proof. induction n as [|n IH]; intros start; cbn; [lia|]. destruct (chain start); cbn; [|lia]. specialize (IH (start + 1)). lia. Qed.

(** The slots of the blocks found, and empty slots after them. *)
Lemma slot_found start l i : client_slots start (unzip3 (map entry l)) (start + Z.of_nat i) =
  match l !! i with Some b => ((v ← header_view (nb_Header b); Some (v, nb_Td b)), Some (nb_Author b)) | None => (None, None) end.
Proof.
  unfold client_slots, unzip3. cbn [fst snd]. rewrite (proj2 (Z.ltb_ge _ _)) by lia. replace (Z.to_nat _) with i by lia.
  rewrite !map_map. change (@map ?A ?B ?f l) with (f <$> l). rewrite !list_lookup_fmap. by destruct (l !! i) as [b|].
Qed.
Lemma collate_slots start n m : forall i, (i + m = n)%nat -> let l := found chain start n in
  collateBorBatchResults (client_slots start (unzip3 (map entry l))) (start + Z.of_nat i) m = map seen_entry (drop i l).
Proof.
  induction m as [|m IH]; intros i Hi l; cbn [collateBorBatchResults].
  - rewrite drop_ge; [done|]. pose proof (found_length n start). unfold l. lia.
  - rewrite slot_found. destruct (l !! i) as [b|] eqn:El; [|by rewrite drop_ge by by apply lookup_ge_None].
    destruct (known_Some _ _ (found_lookup _ _ _ _ El)) as (Hr & Eb & Ev & En). cbn [fst snd]. rewrite Ev. cbn [mbind option_bind].
    rewrite En, Z.eqb_refl. cbn [negb]. rewrite (drop_S l b i El). cbn [map]. unfold seen_entry at 1.
    specialize (IH (S i) ltac:(lia)). cbn zeta in IH. unfold l in *. rewrite <- IH. replace (start + Z.of_nat (S i)) with (start + Z.of_nat i + 1) by lia.
    destruct (Z.ltb_spec 0 (start + Z.of_nat i)); [done|]. assert (start + Z.of_nat i = 0) as E0 by lia.
    rewrite (sn_genesis _ _ _ SN b); [done|]. rewrite <- E0. by apply found_lookup in El.
Qed.

Lemma client_batch first last : 0 <= first -> last < 2 ^ 63 -> first <= last -> last - first < 256 ->
  BorBatch (BorChain := client_chain c) first last = Some (client_slots first (unzip3 (map entry (found chain first (Z.to_nat (last - first + 1)))))).
Proof.
  intros H1 H2 H3 H4. destruct (transports_show_the_chain chain (chain top) td SN c Hc) as (_ & _ & _ & _ & G). cbn. rewrite (proj2 (Z.ltb_ge _ _)), G by (unfold MaxInt64; lia).
  rewrite (proj2 (orb_false_iff _ _)) by lia. by rewrite (proj2 (Z.ltb_ge _ _)) by (unfold MaxBlockInfoBatchSize; lia).
Qed.
End view.

Section law.
Context {PP : PolyProto} {GS : BorGrpcServer} {HS : BorHttpServer} (hash : EthHeader -> bytes).

(** With either transport, the calls of a validator's client are a consistent view of the chain of its node, and
    the batch the modules collate is that of the client: the prefix of the range that the node has. *)
Theorem client_is_a_view blocks top chain td c : full_chain blocks top chain -> same_node chain (chain top) td -> 0 <= top < MaxInt64 ->
  (BorChainGrpcFlag c = true -> BorChainGrpcClient c = true) ->
  (forall n, 0 <= n <= top -> length (hash (nb_Header (blocks n))) = HashLength) ->
  (forall n k, 0 <= n <= top -> 0 <= k <= top -> hash (nb_Header (blocks n)) = hash (nb_Header (blocks k)) -> n = k) ->
  let BC := client_chain hash c in
  chain_view (fun n => (seen hash (blocks n), nb_Td (blocks n))) top /\
  forall first last, 0 <= first <= last -> last - first < 256 -> last < 2 ^ 63 ->
    GetBorChainBlockInfoInBatch first last = Some (unzip3 (map (seen_entry hash) (found chain first (Z.to_nat (last - first + 1))))).
Proof.
  intros FC SN Htop Hc Hlen Hinj BC.
  assert (forall first last, 0 <= first <= last -> last - first < 256 -> last < 2 ^ 63 ->
    BorBatch first last = Some (client_slots hash first (unzip3 (map entry (found chain first (Z.to_nat (last - first + 1))))))) as HB.
  { intros. eapply client_batch; [exact SN|exact Hc|lia..]. }
  split; [split|].
  - done.
  - intros n Hn. apply (known_Some hash _ _ _ _ FC SN). by apply (known_in _ _ _ FC).
  - exact Hlen.
  - exact Hinj.
  - cbn. destruct (transports_show_the_chain _ _ _ SN c Hc) as (-> & _); [|done]. unfold shown, block_of. rewrite (known_in _ _ _ FC) by lia.
    cbn [answered mbind option_bind]. apply (known_Some hash _ _ _ _ FC SN top). apply (known_in _ _ _ FC). lia.
  - intros first last slot n b Hs Hn Hb. destruct (Z.ltb_spec MaxInt64 last) as [Hl|Hl].
    { cbn in Hs. by rewrite (proj2 (Z.ltb_lt _ _) Hl) in Hs. }
    assert (0 <= first /\ last - first < 256) as [Hf Hd].
    { cbn in Hs. rewrite (proj2 (Z.ltb_ge _ _) Hl) in Hs. unfold GetBorChainBlockInfoInBatch_call in Hs.
      destruct (_ || _ || _) eqn:E1; [done|]. destruct (MaxBlockInfoBatchSize - 1 <? _) eqn:E2; [done|]. unfold MaxBlockInfoBatchSize in E2. lia. }
    rewrite HB in Hs by (unfold MaxInt64 in *; lia). injection Hs as <-. replace n with (first + Z.of_nat (Z.to_nat (n - first))) in Hb by lia.
    rewrite slot_found in Hb. destruct (_ !! _) as [x|] eqn:Ex; [|done]. apply found_lookup in Ex. replace (first + _) with n in Ex by lia.
    destruct (known_Some hash _ _ _ _ FC SN _ _ Ex) as (_ & -> & Ev & _). cbn in Hb. rewrite Ev in Hb. cbn in Hb. congruence.
  - intros first last Hr H256 H63. unfold GetBorChainBlockInfoInBatch. rewrite (proj2 (orb_false_iff _ _)) by lia.
    rewrite (proj2 (Z.ltb_ge _ _)) by (unfold BorBatchSizeCap; lia). rewrite HB by done.
    pose proof (collate_slots hash _ _ _ _ FC SN first (Z.to_nat (last - first + 1)) (Z.to_nat (last - first + 1)) 0 eq_refl) as E. cbn [drop] in E.
    rewrite Z.add_0_r in E. by rewrite E.
Qed.

(** So the proposition of an honest validator lists, over either transport, blocks of the chain its node shows, and
    passes the validation of the others. *)
Corollary client_proposes_its_chain blocks top chain td c : full_chain blocks top chain -> same_node chain (chain top) td -> 0 <= top < MaxInt64 ->
  (BorChainGrpcFlag c = true -> BorChainGrpcClient c = true) ->
  (forall n, 0 <= n <= top -> length (hash (nb_Header (blocks n))) = HashLength) ->
  (forall n k, 0 <= n <= top -> 0 <= k <= top -> hash (nb_Header (blocks n)) = hash (nb_Header (blocks k)) -> n = k) ->
  let BC := client_chain hash c in
  forall cfg ctx s params canVote author p,
    milestone_params s = Some params -> 0 < MaxMilestonePropositionLength params <= BorBatchSizeCap ->
    GenMilestoneProposition cfg ctx s canVote author = Ok p ->
    of_chain (fun n => (seen hash (blocks n), nb_Td (blocks n))) (StartBlockNumber p) (BlockHashes p) (BlockTds p) /\
    ValidateMilestoneProposition s (Some p) = Ok tt.
Proof.
  intros FC SN Htop Hc Hlen Hinj BC cfg ctx s params canVote author p.
  destruct (client_is_a_view blocks top chain td c FC SN Htop Hc Hlen Hinj) as [CV _]. by apply honest_proposition_spec with top.
Qed.
End law.

Import TwoBlocks.
(** The view of the node with two blocks. *)
Lemma two_blocks_view (c : BorCaller) : (BorChainGrpcFlag c = true -> BorChainGrpcClient c = true) ->
  let blocks n := if n =? 0 then genesis else first in
  let hash (h : EthHeader) := eh_ParentHash h in
  chain_view (BC := client_chain hash c) (fun n => (seen hash (blocks n), nb_Td (blocks n))) 1.
Proof.
  intros Hc blocks hash. apply (client_is_a_view hash blocks 1 chain td c); try done.
  - intros n b. unfold chain, blocks. split.
    + destruct (Z.eqb_spec n 0) as [->|]; [intros [= <-]; by split|]. destruct (Z.eqb_spec n 1) as [->|]; [intros [= <-]; by split|done].
    + intros [Hn ->]. destruct (Z.eqb_spec n 0); [done|]. by rewrite (proj2 (Z.eqb_eq n 1)) by lia.
  - apply two_blocks.
  - intros n _. unfold blocks. by destruct (n =? 0).
  - intros n k Hn Hk. unfold blocks. destruct (Z.eqb_spec n 0), (Z.eqb_spec k 0); try done; lia.
Qed.
