(* ===== verification/NodeService.v ===== *)
(** * Services of a node

    The health of a node as its server reports it ([performHealthChecks] of [src/app/app.go],
    [src/app/util.go]), the lookups of transactions and block events over CometBFT
    ([src/helper/query.go]) and helpers of [src/helper/util.go]; with what they promise. *)
From S2P Require Import Prelude Helpers External.
#[local] Open Scope Z_scope.

(** ** Health *)

Module Health.
Inductive HealthStatusLevel := StatusOK | StatusWarn | StatusCritical.
#[export] Instance level_dec : EqDecision HealthStatusLevel.
Proof. solve_decision. Defined.
Definition level_String (h : HealthStatusLevel) : string :=
  match h with StatusOK => "OK" | StatusWarn => "WARN" | StatusCritical => "CRITICAL" end.
Definition level_Code (h : HealthStatusLevel) : Z := match h with StatusOK => 0 | StatusWarn => 1 | StatusCritical => 2 end.
Definition quote : ascii := ascii_of_nat 34.
Definition MarshalJSON (h : HealthStatusLevel) : string := String quote (level_String h ++ String quote EmptyString).
(** The quotes are dropped, when both are there; an unknown text is [StatusOK]. *)
Definition unquoted (str : string) : string :=
  if (2 <=? String.length str)%nat && bool_decide (String.get 0 str = Some quote)
     && bool_decide (String.get (String.length str - 1) str = Some quote)
  then String.substring 1 (String.length str - 2) str else str.
Definition UnmarshalJSON (data : string) : HealthStatusLevel :=
  let str := unquoted data in
  if bool_decide (str = "OK"%string) then StatusOK
  else if bool_decide (str = "WARN"%string) then StatusWarn
  else if bool_decide (str = "CRITICAL"%string) then StatusCritical
  else StatusOK.

Record HealthStatus := { Level : HealthStatusLevel; hs_Code : Z; Message : string }.
(** Thresholds of the configuration, of type [int]; 0 turns one off. *)
Record Thresholds := { MaxGoRoutineThreshold : Z; WarnGoRoutineThreshold : Z; MinPeerThreshold : Z; WarnPeerThreshold : Z }.

(** What the response holds: the counts that are there and have their types. *)
Definition performHealthChecks (cfg : Thresholds) (goroutinesCount peerCount : option Z) : HealthStatus :=
  let '(overallStatus, statusMessages) :=
    match goroutinesCount with
    | Some n =>
        if negb (MaxGoRoutineThreshold cfg =? 0) && (MaxGoRoutineThreshold cfg <? n)
        then (StatusCritical, ["number of goroutines above the maximum threshold"%string])
        else if negb (WarnGoRoutineThreshold cfg =? 0) && (WarnGoRoutineThreshold cfg <? n)
        then (StatusWarn, ["number of goroutines above the warning threshold"%string])
        else (StatusOK, [])
    | None => (StatusOK, [])
    end in
  let '(overallStatus, statusMessages) :=
    match peerCount with
    | Some n =>
        if negb (MinPeerThreshold cfg =? 0) && (n <? MinPeerThreshold cfg)
        then (StatusCritical, statusMessages ++ ["number of peers below the minimum threshold"%string])
        else if negb (WarnPeerThreshold cfg =? 0) && (n <? WarnPeerThreshold cfg)
        then (if bool_decide (overallStatus <> StatusCritical) then StatusWarn else overallStatus,
              statusMessages ++ ["number of peers below the warning threshold"%string])
        else (overallStatus, statusMessages)
    | None => (overallStatus, statusMessages)
    end in
  {| Level := overallStatus; hs_Code := level_Code overallStatus; Message := String.concat ", " statusMessages |}.

(** The level of one check, by its thresholds. *)
Definition graded (critical warn : bool) : Z := if critical then 2 else if warn then 1 else 0.
Definition crossed (threshold : Z) (count : option Z) (past : Z -> Z -> bool) : bool :=
  match count with Some n => negb (threshold =? 0) && past threshold n | None => false end.

(** The status is that of the worse check, whatever the order of the checks, and its text survives JSON. *)
Theorem health_is_the_worst cfg g p :
  let s := performHealthChecks cfg g p in
  let above t n := t <? n in let below t n := n <? t in
  hs_Code s = Z.max (graded (crossed (MaxGoRoutineThreshold cfg) g above) (crossed (WarnGoRoutineThreshold cfg) g above))
                    (graded (crossed (MinPeerThreshold cfg) p below) (crossed (WarnPeerThreshold cfg) p below)) /\
  hs_Code s = level_Code (Level s) /\ UnmarshalJSON (MarshalJSON (Level s)) = Level s /\
  (Message s = EmptyString <-> Level s = StatusOK).
Proof.
  cbn zeta. unfold performHealthChecks, crossed, graded. destruct g as [g|], p as [p|]; repeat case_match; simplify_eq; by repeat split.
Qed.
End Health.

(** ** Lookups over CometBFT *)

Section lookups.
(** [Tx.Hash] of CometBFT. *)
Context (tx_Hash : bytes -> bytes).
Fixpoint findTxInBlock (txs : list bytes) (hash : bytes) : outcome bytes :=
  match txs with
  | [] => Err (ErrText "tx not found in block")
  | raw :: txs => if bool_decide (tx_Hash raw = hash) then Ok raw else findTxInBlock txs hash
  end.
(** [getNode] is the connection, [block] the answer to the request for the block, which may be nil. *)
Definition QueryTxBytesFromBlock (getNode : outcome unit) (block : Z -> outcome (option (list bytes))) (hash : bytes) (height : Z) : outcome bytes :=
  getNode ;;
  blk ← block height;
  match blk with None => Err (ErrText "block not available") | Some txs => findTxInBlock txs hash end.

(** The transaction found is the first of the block with the hash; there is none exactly when the query fails on
    a block that is available. *)
Theorem query_finds_the_transaction block hash height txs : block height = Ok (Some txs) ->
  match QueryTxBytesFromBlock (Ok tt) block hash height with
  | Ok raw => exists before after, txs = before ++ raw :: after /\ tx_Hash raw = hash /\ Forall (fun t => tx_Hash t <> hash) before
  | Err _ => Forall (fun t => tx_Hash t <> hash) txs
  | Panic => False
  end.
Proof.
  intros Hb. unfold QueryTxBytesFromBlock. cbn. rewrite Hb. cbn. clear Hb. induction txs as [|t txs IH]; cbn; [done|].
  case_bool_decide as E; [by exists [], txs|]. destruct (findTxInBlock txs hash) as [raw| |]; [|by constructor|done].
  destruct IH as (before & after & -> & Hh & HF). exists (t :: before), after. split_and!; [done|done|by constructor].
Qed.
End lookups.

(** What the subscription delivers, in order: new blocks with their events, or an event of another type; then
    the context is cancelled or the time of the call is up. *)
Section events.
Context {Events : Type}.
Inductive SubscriptionEvent := NewBlock (height : Z) (events : Events) | OtherEvent.
Inductive SubscriptionEnd := ContextDone (e : error) | CallTimedOut.
Record NodeAnswers := {
  na_BlockResults : Z -> outcome (option Events);
  na_LatestHeight : outcome (option Z);
  na_Subscribe : outcome (list SubscriptionEvent * SubscriptionEnd);
}.

Fixpoint await_block (height : Z) (eventCh : list SubscriptionEvent) (end_ : SubscriptionEnd) : outcome Events :=
  match eventCh with
  | [] => Err (match end_ with ContextDone e => e | CallTimedOut => ErrText "timed out waiting for event" end)
  | NewBlock h events :: eventCh => if h =? height then Ok events else await_block height eventCh end_
  | OtherEvent :: _ => Err (ErrText "unexpected event type")
  end.
(** A block whose results are not there: only one ahead of the node is awaited. *)
Definition await_future (n : NodeAnswers) (height : Z) : outcome Events :=
  match na_LatestHeight n with
  | Ok (Some latest) =>
      if height <=? latest then Err (ErrText "BlockResults failed")
      else '(eventCh, end_) ← na_Subscribe n; await_block height eventCh end_
  | Panic => Panic
  | _ => Err (ErrText "BlockResults failed")
  end.
(** A result that is nil counts as an error. *)
Definition GetBeginBlockEvents (n : NodeAnswers) (height : Z) : outcome Events :=
  match na_BlockResults n height with
  | Ok (Some events) => Ok events
  | Panic => Panic
  | _ => await_future n height
  end.

(** The events are those of the block: its results, or, for a block that was ahead of the node when asked, what
    came with it on the subscription. *)
Theorem events_are_of_the_block n height events : GetBeginBlockEvents n height = Ok events ->
  na_BlockResults n height = Ok (Some events) \/
  exists latest eventCh end_, na_LatestHeight n = Ok (Some latest) /\ latest < height /\
    na_Subscribe n = Ok (eventCh, end_) /\ NewBlock height events ∈ eventCh.
Proof.
  assert (forall eventCh end_, await_block height eventCh end_ = Ok events -> NewBlock height events ∈ eventCh) as Hawait.
  { intros eventCh end_. induction eventCh as [|[h e|] eventCh IH]; cbn; [done| |done].
    destruct (Z.eqb_spec h height) as [->|]; [intros [= ->]; left|right; auto]. }
  assert (await_future n height = Ok events -> exists latest eventCh end_, na_LatestHeight n = Ok (Some latest) /\ latest < height /\
    na_Subscribe n = Ok (eventCh, end_) /\ NewBlock height events ∈ eventCh) as Hsub.
  { unfold await_future. destruct (na_LatestHeight n) as [[latest|]| |]; [|done..]. destruct (Z.leb_spec height latest) as [|Hl]; [done|].
    destruct (na_Subscribe n) as [[eventCh end_]| |]; [|done..]. intros E. exists latest, eventCh, end_. split_and!; [done..|by apply (Hawait _ end_)]. }
  unfold GetBeginBlockEvents. destruct (na_BlockResults n height) as [[results|]| |]; [by intros [= ->]; left|auto|auto|done].
Qed.

(** A block that is committed between the query of the head and the subscription is missed: its events are not
    on the subscription, and the call ends with an error although the block is there. *)
Theorem block_in_between_is_missed n height e latest eventCh end_ :
  na_BlockResults n height = Err e -> na_LatestHeight n = Ok (Some latest) -> latest < height ->
  na_Subscribe n = Ok (eventCh, end_) -> Forall (fun ev => exists h x, ev = NewBlock h x /\ height < h) eventCh ->
  GetBeginBlockEvents n height = Err (match end_ with ContextDone e => e | CallTimedOut => ErrText "timed out waiting for event" end).
Proof.
  intros H1 H2 Hl H3 HF. unfold GetBeginBlockEvents, await_future. rewrite H1, H2, H3, (proj2 (Z.leb_gt _ _) Hl). cbn. clear H3.
  induction HF as [|ev eventCh (h & x & -> & Hh) _ IH]; [done|]. cbn. rewrite (proj2 (Z.eqb_neq h height)) by lia. exact IH.
Qed.
End events.

(** ** Helpers *)

(** [copy] into an array of 32 bytes. *)
Definition ToBytes32 (x : bytes) : bytes := take 32 x ++ repeat Byte.x00 (32 - length x).
Lemma ToBytes32_length x : length (ToBytes32 x) = 32%nat.
Proof. unfold ToBytes32. rewrite length_app, length_take, repeat_length. lia. Qed.

(** The values of the arguments of a contract call, unpacked by name: bytes or something else. *)
Inductive AbiValue := AbiBytes (b : bytes) | AbiOther.
Definition abi_bytes (v : option AbiValue) : outcome bytes := match v with None => Ok [] | Some (AbiBytes b) => Ok b | Some AbiOther => Panic end.
(** [inputs] unpacks the arguments of [submitHeaderBlock], where the ABI has the method. *)
Definition UnpackSigAndVotes (payload : bytes) (inputs : option (bytes -> outcome (string -> option AbiValue))) : outcome (bytes * bytes * bytes) :=
  UnpackIntoMap ← of_option (ErrText "submitHeaderBlock method not found in ABI") inputs;
  return_if (length payload <? 4)%nat with ErrText "payload too short" ;;
  inputDataMap ← UnpackIntoMap (drop 4 payload);
  data ← abi_bytes (inputDataMap "data");
  sigs ← abi_bytes (inputDataMap "sigs");
  Ok (data, sigs, []).
(** The transaction by its hash: whether it is pending, and its data. *)
Definition GetCheckpointSign (TransactionByHash : bytes -> outcome (bool * bytes)) (inputs : option (bytes -> outcome (string -> option AbiValue)))
    (txHash : bytes) : outcome (bytes * bytes * bytes) :=
  '(isPending, payload) ← TransactionByHash txHash;
  return_if isPending with ErrText "transaction is still pending" ;;
  UnpackSigAndVotes payload inputs.

(** [rand.Int], of a number that is positive. *)
Definition SecureRandomInt (rand : Z -> outcome Z) (minValue maxLimit : Z) : outcome Z :=
  return_if maxLimit <? minValue with ErrText "invalid range: minValue cannot be greater than maxLimit" ;;
  if minValue =? maxLimit then Ok minValue
  else
    let rangeSize := maxLimit - minValue + 1 in
    return_if rangeSize <=? 0 with ErrText "invalid range: non-positive range size" ;;
    n ← rand rangeSize;
    Ok (i64 (n + minValue)).
(** The number drawn lies in the range, over the whole width of [int64], and every number of the range is drawn for
    some random value. *)
Theorem random_in_range rand minValue maxLimit r : in_i64 minValue -> in_i64 maxLimit ->
  (forall n k, rand n = Ok k -> 0 <= k < n) -> SecureRandomInt rand minValue maxLimit = Ok r -> minValue <= r <= maxLimit.
Proof.
  intros Hm HM Hr E. unfold SecureRandomInt in E. ok_step E. destruct (Z.eqb_spec minValue maxLimit); [injection E as <-; lia|].
  ok_step E. ok_step E. injection E as <-. apply Hr in Ha. unfold in_i64 in *. rewrite i64_id by (unfold in_i64; lia). lia.
Qed.
Lemma random_covers_range minValue maxLimit r : in_i64 minValue -> in_i64 maxLimit -> minValue <= r <= maxLimit ->
  SecureRandomInt (fun _ => Ok (r - minValue)) minValue maxLimit = Ok r.
Proof.
  intros Hm HM Hr. unfold SecureRandomInt. rewrite (proj2 (Z.ltb_ge _ _)) by lia. cbn [fail_if].
  destruct (Z.eqb_spec minValue maxLimit); [f_equal; lia|]. rewrite (proj2 (Z.leb_gt _ _)) by lia. cbn [fail_if mbind outcome_bind].
  replace (r - minValue + minValue) with r by lia. rewrite i64_id; [done|]. unfold in_i64 in *. lia.
Qed.
