(* ===== verification/SelfHeal.v ===== *)
(** * Self-healing of the root chain listener

    Models [bridge/listener/rootchain_selfheal.go] and [rootchain_selfheal_graph.go]: on a
    timer the listener compares heimdall with what a subgraph has indexed of the root chain,
    and hands the events that heimdall missed to the task queue again; with
    [helper.ExponentialBackoff].  The answers of the subgraph, of the chains and of the node
    may differ from call to call: they are functions of the number of calls made so far. *)
From S2P Require Import Prelude Helpers External VoteTypes Numerals Listener.
#[local] Open Scope Z_scope.

(** ** What the subgraph answers *)

Record stateSynced := { ss_StateId : string; ss_LogIndex : string; ss_TransactionHash : string }.
Record newHeaderBlock := { nhb_HeaderBlockId : string; nhb_LogIndex : string; nhb_TransactionHash : string }.
Record txAndLogIndex := { hit_TransactionHash : string; hit_LogIndex : string }.
(** A response: the rows, and the messages of the errors array. *)
Record stateSyncedsResponse := { StateSynceds : list stateSynced; ss_Errors : list string }.
Record newHeaderBlocksResponse := { NewHeaderBlocks : list newHeaderBlock; nhb_Errors : list string }.
Record stakeEventMaxNonceResponse := {
  mn_StakeUpdates : list string; mn_SignerChanges : list string; mn_UnstakeInits : list string; mn_Errors : list string }.
Record stakeEventByNonceResponse := {
  se_StakeUpdates : list txAndLogIndex; se_SignerChanges : list txAndLogIndex; se_UnstakeInits : list txAndLogIndex;
  se_Errors : list string }.

(** [first: 1, orderBy: stateId, orderDirection: desc], or the event of a state id. *)
Inductive StateSyncedQuery := LatestStateSynced | StateSyncedOf (stateId : Z).

(** ** The world *)

Section selfheal.
Context {AC : AddressCodec} {BL : BridgeLogs}.

Record L1Receipt := { rcp_Status : Z; rcp_Logs : list Log }.
Definition ReceiptStatusSuccessful : Z := 1.

(** What is asked, by the number of the call: the subgraph (an error stands for a failed
    request, a status other than 200 and a body that is not the response), the main chain,
    the state receiver of Bor, the API of heimdall, and the clock. *)
Class SelfHealWorld := {
  w_stateSynceds : nat -> StateSyncedQuery -> outcome stateSyncedsResponse;
  w_newHeaderBlocks : nat -> outcome newHeaderBlocksResponse;
  w_maxNonce : nat -> Z -> outcome stakeEventMaxNonceResponse;
  w_stakeEvent : nat -> Z -> Z -> outcome stakeEventByNonceResponse;
  w_TransactionReceipt : nat -> bytes -> outcome (option L1Receipt);    (* None: nil *)
  w_BlockTime : nat -> Z -> outcome Z;                                  (* of a main-chain block, in nanoseconds *)
  w_now : nat -> Z;
  w_LastStateId : nat -> outcome Z;
  w_stakingInfo : nat -> outcome bytes;                                 (* the address in the parameters *)
  w_childBlockInterval : nat -> outcome Z;
  w_ackCount : nat -> outcome Z;
  w_bufferedCheckpointId : nat -> outcome Z;
  w_validatorNonce : nat -> Z -> outcome Z;
  w_record : nat -> Z -> bool;                                          (* heimdall has the record of a state id *)
  w_running : nat -> bool;                                              (* the context is not done *)
  w_view : nat -> NodeView;
  log_Index : Log -> Z;                                                 (* uint *)
  log_Address : Log -> bytes;
  log_BlockNumber : Log -> Z;
  unset_big : string -> Z;      (* [SetString] leaves a value undefined when it fails *)
}.
Context {SW : SelfHealWorld}.

(** The calls made so far, and what was handed on. *)
Record ShState := { sh_calls : nat; sh_tasks : list Task; sh_handled : list Log }.
Definition SH (A : Type) : Type := ShState -> ShState * outcome A.

Definition ret {A} (a : A) : SH A := fun st => (st, Ok a).
#[export] Instance sh_bind : MBind SH := fun _ _ f m st =>
  match m st with
  | (st, Ok a) => f a st
  | (st, Err e) => (st, Err e)
  | (st, Panic) => (st, Panic)
  end.
Definition ask {A} (answer : nat -> outcome A) : SH A := fun st =>
  ({| sh_calls := S (sh_calls st); sh_tasks := sh_tasks st; sh_handled := sh_handled st |}, answer (sh_calls st)).
Definition lift {A} (o : outcome A) : SH A := fun st => (st, o).
(** What a function that logs the error of [m] does next. *)
Definition try {A B} (m : SH A) (failed : SH B) (ok : A -> SH B) : SH B := fun st =>
  match m st with
  | (st, Ok a) => ok a st
  | (st, Err _) => failed st
  | (st, Panic) => (st, Panic)
  end.
Definition send (ts : list Task) : SH unit := fun st =>
  ({| sh_calls := sh_calls st; sh_tasks := sh_tasks st ++ ts; sh_handled := sh_handled st |}, Ok tt).

(** ** Trying again *)

Definition TenMinutes : Z := 600 * 10 ^ 9.
(** [err] is what the last attempt answered. *)
Fixpoint ExponentialBackoff {A} (action : SH A) (maxValue : nat) (wait : Z) (err : outcome A) : SH A :=
  match maxValue with
  | O => lift err
  | S n => fun st =>
      match action st with
      | (st, Err e) => if TenMinutes <? wait then (st, Err e)
                       else ExponentialBackoff action n (i64 (wait * 2)) (Err e) st
      | r => r
      end
  end.
(** Three attempts, the first wait a second; [zero] is the variable before the first. *)
Definition three_times {A} (zero : A) (action : SH A) : SH A := ExponentialBackoff action 3 (10 ^ 9) (Ok zero).

(** ** Asking the subgraph *)

Definition refused (errors : list string) : bool := negb (length errors =? 0)%nat.
Definition ErrGraph : error := ErrText "self-healing: subgraph returned errors".

Definition getLatestStateID : SH Z :=
  response ← ask (fun n => w_stateSynceds n LatestStateSynced);
  lift (return_if refused (ss_Errors response) with ErrGraph ;;
        match StateSynceds response with
        | [] => Ok 0
        | s :: _ => Ok (match ParseBig (ss_StateId s) with Some stateId => stateId | None => unset_big (ss_StateId s) end)
        end).
Definition getCurrentStateID : SH Z := ask w_LastStateId.

Fixpoint findLogByIndex (logs : list Log) (target : string) : option Log :=
  match logs with
  | [] => None
  | l :: rest => if String.eqb (BigString (i64 (log_Index l))) target then Some l else findLogByIndex rest target
  end.
(** [receipt.Logs] of a nil receipt panics. *)
Definition logs_of (receipt : option L1Receipt) : outcome (list Log) :=
  match receipt with Some r => Ok (rcp_Logs r) | None => Panic end.

Definition getStateSynced (stateId : Z) : SH Log :=
  response ← ask (fun n => w_stateSynceds n (StateSyncedOf stateId));
  s ← lift (return_if refused (ss_Errors response) with ErrGraph ;;
            of_option (ErrText "self-healing: no state synced event found") (head (StateSynceds response)));
  receipt ← ask (fun n => w_TransactionReceipt n (HexToHash (ss_TransactionHash s)));
  lift (logs ← logs_of receipt;
        of_option (ErrText "self-healing: no log found for given log index") (findLogByIndex logs (ss_LogIndex s))).

(** The highest nonce of the first rows. *)
Fixpoint max_nonce (maxNonce : Z) (batches : list (list string)) : outcome Z :=
  match batches with
  | [] => Ok maxNonce
  | [] :: rest => max_nonce maxNonce rest
  | (nonce :: _) :: rest =>
      match ParseUint nonce with
      | (n, true) => max_nonce (if maxNonce <? n then n else maxNonce) rest
      | (_, false) => Err (ErrText "self-healing: malformed nonce")
      end
  end.
Definition maxNonceFromResponse (r : stakeEventMaxNonceResponse) : outcome Z :=
  max_nonce 0 [mn_StakeUpdates r; mn_SignerChanges r; mn_UnstakeInits r].
Definition getMaxL1NonceForValidator (validatorId : Z) : SH Z :=
  response ← ask (fun n => w_maxNonce n validatorId);
  lift (return_if refused (mn_Errors response) with ErrGraph ;; maxNonceFromResponse response).

Definition pickStakeEventHit (r : stakeEventByNonceResponse) : option txAndLogIndex :=
  match se_StakeUpdates r, se_SignerChanges r, se_UnstakeInits r with
  | hit :: _, _, _ | [], hit :: _, _ | [], [], hit :: _ => Some hit
  | [], [], [] => None
  end.
Definition getStakeEventRefByNonce (validatorId nonce : Z) : SH txAndLogIndex :=
  response ← ask (fun n => w_stakeEvent n validatorId nonce);
  lift (return_if refused (se_Errors response) with ErrGraph ;;
        of_option (ErrText "self-healing: no stake event found") (pickStakeEventHit response)).

Definition validateStakeEventReceipt (receipt : option L1Receipt) (expectedAddr : bytes) (hit : txAndLogIndex) : outcome Log :=
  match receipt with
  | None => Err (ErrText "nil receipt")
  | Some r =>
      return_if negb (rcp_Status r =? ReceiptStatusSuccessful) with ErrText "tx reverted" ;;
      log ← of_option (ErrText "no log found for log index") (findLogByIndex (rcp_Logs r) (hit_LogIndex hit));
      return_if negb (bool_decide (log_Address log = expectedAddr)) with ErrText "log address does not match" ;;
      Ok log
  end.
Definition fetchAndValidateStakeEventLog (hit : txAndLogIndex) : SH Log :=
  expectedAddr ← ask w_stakingInfo;
  receipt ← three_times None (ask (fun n => w_TransactionReceipt n (HexToHash (hit_TransactionHash hit))));
  lift (validateStakeEventReceipt receipt expectedAddr hit).

Definition getLatestCheckpointFromL1 : SH newHeaderBlock :=
  response ← ask w_newHeaderBlocks;
  lift (return_if refused (nhb_Errors response) with ErrGraph ;;
        of_option (ErrText "self-healing: no header block event found") (head (NewHeaderBlocks response))).

(** ** Handing an event on *)

Variables (eventMap : gmap bytes string) (SHMaxDepthDuration : Z).

Definition hand_on (vLog : Log) (event : string) : SH unit := fun st =>
  match handleLog (w_view (sh_calls st)) vLog event with
  | Ok ts => ({| sh_calls := sh_calls st; sh_tasks := sh_tasks st ++ ts; sh_handled := sh_handled st ++ [vLog] |}, Ok tt)
  | _ => (st, Panic)
  end.
(** [true]: the event is too recent.  ([err] is nil there.) *)
Definition processEvent (vLog : Log) : SH bool :=
  blockTime ← ask (fun n => w_BlockTime n (log_BlockNumber vLog));
  now ← ask (fun n => Ok (w_now n));
  if now - blockTime <? SHMaxDepthDuration then ret true
  else
    match selected eventMap vLog with
    | None => ret false
    | Some event => _ ← hand_on vLog event; ret false
    end.

(** ** Checkpoint acknowledgements *)

Definition processCheckpointAck : SH unit :=
  try getLatestCheckpointFromL1 (ret tt) (fun latestL1Checkpoint =>
  match ParseUint (nhb_HeaderBlockId latestL1Checkpoint) with
  | (_, false) => ret tt
  | (headerBlockId, true) =>
      try (ask w_childBlockInterval) (ret tt) (fun childChainBlockInterval =>
      if childChainBlockInterval =? 0 then lift Panic
      else
        let l1HeaderBlockId := headerBlockId / childChainBlockInterval in
        try (ask w_ackCount) (ret tt) (fun ackCount =>
        if l1HeaderBlockId =? ackCount then ret tt
        else try (ask w_bufferedCheckpointId) (ret tt) (fun bufferedId =>
        if (bufferedId =? 0) || negb (l1HeaderBlockId =? bufferedId) then ret tt
        else try (ask (fun n => w_TransactionReceipt n (HexToHash (nhb_TransactionHash latestL1Checkpoint)))) (ret tt) (fun receipt =>
        logs ← lift (logs_of receipt);
        match findLogByIndex logs (nhb_LogIndex latestL1Checkpoint) with
        | None => ret tt
        | Some targetLog =>
            if log_marshals targetLog
            then send (at_once "sendCheckpointAckToHeimdall" NewHeaderBlockEvent 0 targetLog)
            else ret tt
        end))))
  end).

(** ** Stake events *)

Definition maxStakeNoncesPerCycle : Z := 10.

Definition fetchValidatorNonces (id : Z) : SH (option (Z * Z)) :=
  try (ask (fun n => w_validatorNonce n id)) (ret None) (fun heimdallNonce =>
  try (three_times 0 (getMaxL1NonceForValidator id)) (ret None) (fun l1MaxNonce =>
  ret (Some (heimdallNonce, l1MaxNonce)))).
Definition replayStakeEvent (id nonce : Z) : SH bool :=
  try (three_times {| hit_TransactionHash := ""; hit_LogIndex := "" |} (getStakeEventRefByNonce id nonce)) (ret false) (fun hit =>
  try (fetchAndValidateStakeEventLog hit) (ret false) (fun stakeEventLog =>
  try (processEvent stakeEventLog) (ret false) (fun skipped =>
  ret (negb skipped)))).
Definition pauseBetweenReplays : SH bool := ask (fun n => Ok (w_running n)).

(** The loop over the nonces: the nonces queued, in order.  The fuel is the most nonces of
    a cycle. *)
Fixpoint replay_from (id l1MaxNonce : Z) (fuel : nat) (queued nonce : Z) : SH Z :=
  match fuel with
  | O => ret queued
  | S fuel =>
      if (nonce <=? l1MaxNonce) && (queued <? maxStakeNoncesPerCycle) then
        (if 0 <? queued then pauseBetweenReplays else ret true) ≫= fun running : bool =>
        if negb running then ret queued
        else
          replayStakeEvent id nonce ≫= fun ok : bool =>
          if ok then replay_from id l1MaxNonce fuel (queued + 1) (u64 (nonce + 1)) else ret queued
      else ret queued
  end.
(** The answer is the number of nonces queued. *)
Definition recoverStakeEventsForValidator (id : Z) : SH Z :=
  fetchValidatorNonces id ≫= fun nonces : option (Z * Z) =>
  match nonces with
  | None => ret 0
  | Some (heimdallNonce, l1MaxNonce) =>
      if l1MaxNonce <=? heimdallNonce then ret 0
      else replay_from id l1MaxNonce (Z.to_nat maxStakeNoncesPerCycle) 0 (u64 (heimdallNonce + 1))
  end.
Definition perCycleLimitHit (queued l1MaxNonce heimdallNonce : Z) : bool :=
  if queued <? maxStakeNoncesPerCycle then false else maxStakeNoncesPerCycle <? u64 (l1MaxNonce - heimdallNonce).

(** ** State-sync events *)

Definition maxRetriesPerState : nat := 3.
Definition maxStatusChecks : nat := 15.

(** A second's sleep; [false]: the context is done. *)
Definition sleep : SH bool := ask (fun n => Ok (w_running n)).

(** Polling heimdall for the record; [None]: the context is done. *)
Fixpoint poll (fuel : nat) (i : Z) : SH (option bool) :=
  match fuel with
  | O => ret (Some false)
  | S fuel =>
      ask (fun n => Ok (w_record n i)) ≫= fun found : bool =>
      if found then ret (Some true)
      else sleep ≫= fun running : bool => if running then poll fuel i else ret None
  end.
(** The attempts for a state id: whether it was synced; [None]: the context is done. *)
Fixpoint attempts (fuel : nat) (i : Z) (stateSynced : Log) : SH (option bool) :=
  match fuel with
  | O => ret (Some false)
  | S fuel =>
      try (processEvent stateSynced) (attempts fuel i stateSynced) (fun ignore =>
      if ignore then ret (Some true)
      else
        sleep ≫= fun running : bool =>
        if negb running then ret None
        else
          poll maxStatusChecks i ≫= fun confirmed : option bool =>
          match confirmed with
          | None => ret None
          | Some true => ret (Some true)
          | Some false => attempts fuel i stateSynced
          end)
  end.
(** The loop over the state ids. *)
Fixpoint sync_states (fuel : nat) (i last : Z) : SH unit :=
  if last <? i then ret tt
  else
    match fuel with
    | O => lift (Err (ErrText "out of fuel"))
    | S fuel =>
        ask (fun n => Ok (w_record n i)) ≫= fun known : bool =>
        if known then sync_states fuel (i64 (i + 1)) last
        else try (three_times None (l ← getStateSynced i; ret (Some l))) (sync_states fuel (i64 (i + 1)) last) (fun event =>
          match event with
          | None => lift Panic       (* a nil log *)
          | Some stateSynced =>
              attempts maxRetriesPerState i stateSynced ≫= fun synced : option bool =>
              match synced with
              | None => ret tt
              | Some _ => sync_states fuel (i64 (i + 1)) last
              end
          end)
    end.
(** The fuel is the number of state ids between the two chains. *)
Definition processStateSynced : SH unit :=
  try getCurrentStateID (ret tt) (fun latestPolygonStateId =>
  try getLatestStateID (ret tt) (fun latestEthereumStateId =>
  if latestEthereumStateId <=? latestPolygonStateId then ret tt
  else
    let first := i64 (i64 latestPolygonStateId + 1) in
    let last := i64 latestEthereumStateId in
    sync_states (Z.to_nat (last - first + 1)) first last)).

(** ** All validators

    [processStakeEvents] recovers the events of the validators concurrently; they share the
    task queue only, so what is sent is an interleaving of what each sends. *)
Inductive interleaving {A} : list (list A) -> list A -> Prop :=
| interleaving_nil runs : Forall (fun r => r = []) runs -> interleaving runs []
| interleaving_cons before x r after l :
    interleaving (before ++ r :: after) l -> interleaving (before ++ (x :: r) :: after) (x :: l).
End selfheal.

Section validators.
Context {AC : AddressCodec} {BL : BridgeLogs}.
Variables (eventMap : gmap bytes string) (SHMaxDepthDuration : Z).
Definition no_calls : ShState := {| sh_calls := 0; sh_tasks := []; sh_handled := [] |}.
(** The run of each validator, against the answers it sees; [None] when the set of
    validators cannot be fetched. *)
Definition processStakeEvents (worlds : Z -> SelfHealWorld) (validatorIds : outcome (list Z)) : list (ShState * outcome Z) :=
  match validatorIds with
  | Ok ids => map (fun id => recoverStakeEventsForValidator (SW := worlds id) eventMap SHMaxDepthDuration id no_calls) ids
  | _ => []
  end.
Definition stake_events_sent (runs : list (ShState * outcome Z)) (sent : list Task) : Prop :=
  interleaving (map (fun r => sh_tasks r.1) runs) sent.
End validators.

