(* ===== verification/SelfHealCorrect.v ===== *)
(** * Correctness of the self-healing

    What the listener replays is authentic and in order, and nothing that is missing is left
    out when the answers come within the attempts: the stake events of a validator, nonce
    after nonce, and the state-sync events that heimdall lacks. *)
From S2P Require Import Prelude Helpers External VoteTypes Numerals Listener SelfHeal.
#[local] Open Scope Z_scope.

Section selfheal.
Context {AC : AddressCodec} {BL : BridgeLogs} {SW : SelfHealWorld}.
Variables (eventMap : gmap bytes string) (SHMaxDepthDuration : Z).

#[local] Arguments three_times : simpl never.
#[local] Arguments processEvent : simpl never.

(** ** Computations that hand nothing on *)

Definition quiet {A} (m : SH A) : Prop := forall st,
  sh_tasks (m st).1 = sh_tasks st /\ sh_handled (m st).1 = sh_handled st.

Lemma quiet_ask {A} (f : nat -> outcome A) : quiet (ask f).
Proof. done. Qed.
Lemma quiet_lift {A} (o : outcome A) : quiet (lift o).
Proof. done. Qed.
Lemma quiet_ret {A} (a : A) : quiet (ret a).
Proof. done. Qed.
Lemma quiet_bind {A B} (m : SH A) (f : A -> SH B) : quiet m -> (forall a, quiet (f a)) -> quiet (m ≫= f).
Proof.
  intros Hm Hf st. unfold mbind, sh_bind. specialize (Hm st). destruct (m st) as [st1 [a| |]]; cbn in *; [|done..].
  destruct (Hf a st1) as [E1 E2]. by rewrite E1, E2.
Qed.
Lemma quiet_try {A B} (m : SH A) (k : SH B) f : quiet m -> quiet k -> (forall a, quiet (f a)) -> quiet (try m k f).
Proof.
  intros Hm Hk Hf st. unfold try. specialize (Hm st). destruct (m st) as [st1 [a| |]]; cbn in *; [|  |done].
  - destruct (Hf a st1) as [E1 E2]. by rewrite E1, E2.
  - destruct (Hk st1) as [E1 E2]. by rewrite E1, E2.
Qed.
Lemma quiet_backoff {A} (action : SH A) n w err : quiet action -> quiet (ExponentialBackoff action n w err).
Proof.
  intros Ha. revert w err. induction n as [|n IH]; intros w err; cbn [ExponentialBackoff]; [done|].
  intros st. specialize (Ha st). destruct (action st) as [st1 [a|e|]]; cbn in *; [done| |done].
  destruct (_ <? _); [done|]. destruct (IH (i64 (w * 2)) (Err e) st1) as [E1 E2]. by rewrite E1, E2.
Qed.
#[local] Hint Resolve quiet_ask quiet_lift quiet_ret quiet_bind quiet_try quiet_backoff : quiet.

(** A value of the retried action is a value of an attempt. *)
Lemma backoff_S {A} (action : SH A) n w err st : ExponentialBackoff action (S n) w err st =
  match action st with
  | (st, Err e) => if TenMinutes <? w then (st, Err e) else ExponentialBackoff action n (i64 (w * 2)) (Err e) st
  | r => r
  end.
Proof. done. Qed.
Lemma backoff_ok {A} (action : SH A) n w err st st' a :
  ExponentialBackoff action (S n) w err st = (st', Ok a) -> exists st1, (action st1).2 = Ok a.
Proof.
  revert w err st. induction n as [|n IH]; intros w err st; rewrite backoff_S;
    destruct (action st) as [st1 [b|e|]] eqn:E; try done;
    try (intros [= _ ->]; exists st; by rewrite E); destruct (_ <? _); try done.
  apply IH.
Qed.
Lemma three_times_ok {A} zero (action : SH A) st st' a :
  three_times zero action st = (st', Ok a) -> exists st1, (action st1).2 = Ok a.
Proof. apply backoff_ok. Qed.

(** ** Logs and receipts *)

Lemma findLogByIndex_ok logs target l : findLogByIndex logs target = Some l ->
  l ∈ logs /\ BigString (i64 (log_Index l)) = target.
Proof.
  induction logs as [|x logs IH]; cbn; [done|]. destruct (String.eqb_spec (BigString (i64 (log_Index x))) target) as [E|].
  - intros [= <-]. split; [by left|done].
  - intros H. destruct (IH H). split; [by right|done].
Qed.

(** The log of the stake event with a nonce: the subgraph located it, in a successful
    transaction of the main chain, and the staking contract emitted it. *)
Definition authentic (id nonce : Z) (l : Log) : Prop := exists n1 n2 n3 response hit receipt,
  w_stakeEvent n1 id nonce = Ok response /\ se_Errors response = [] /\ pickStakeEventHit response = Some hit /\
  w_TransactionReceipt n2 (HexToHash (hit_TransactionHash hit)) = Ok (Some receipt) /\
  rcp_Status receipt = ReceiptStatusSuccessful /\ l ∈ rcp_Logs receipt /\
  BigString (i64 (log_Index l)) = hit_LogIndex hit /\ w_stakingInfo n3 = Ok (log_Address l).
(** The block of a log is old enough. *)
Definition deep (l : Log) : Prop := exists n1 n2 t,
  w_BlockTime n1 (log_BlockNumber l) = Ok t /\ SHMaxDepthDuration <= w_now n2 - t.
(** What is sent for a log. *)
Definition sent_for (l : Log) (ts : list Task) : Prop :=
  match selected eventMap l with
  | None => ts = []
  | Some event => exists n, handleLog (w_view n) l event = Ok ts
  end.

Lemma refused_nil errors : refused errors = false -> errors = [].
Proof. unfold refused. by destruct errors. Qed.

Lemma processEvent_ok l st st' r : processEvent eventMap SHMaxDepthDuration l st = (st', r) ->
  match r with
  | Ok false => deep l /\ exists ts, sent_for l ts /\ sh_tasks st' = sh_tasks st ++ ts /\
      sh_handled st' = sh_handled st ++ (if selected eventMap l then [l] else [])
  | _ => sh_tasks st' = sh_tasks st /\ sh_handled st' = sh_handled st
  end.
Proof.
  unfold processEvent, mbind, sh_bind, ask. cbn. destruct (w_BlockTime _ _) as [t|e|] eqn:Et; cbn; [|by intros [= <- <-]..].
  destruct (Z.ltb_spec (w_now (S (sh_calls st)) - t) SHMaxDepthDuration) as [L|L]; [by intros [= <- <-]|].
  assert (deep l) as D by (exists (sh_calls st), (S (sh_calls st)), t; done).
  unfold sent_for. destruct (selected eventMap l) as [event|] eqn:Es; cbn.
  - unfold hand_on. destruct (handleLog _ l event) as [ts| |] eqn:Eh; intros [= <- <-]; cbn; [|done..].
    split; [exact D|]. exists ts. split; [by eexists|done].
  - intros [= <- <-]. cbn. split; [exact D|]. exists []. by rewrite !app_nil_r.
Qed.

Lemma replayStakeEvent_ok id nonce st st' r : replayStakeEvent eventMap SHMaxDepthDuration id nonce st = (st', r) ->
  match r with
  | Ok true => exists l ts, authentic id nonce l /\ deep l /\ sent_for l ts /\ sh_tasks st' = sh_tasks st ++ ts
  | _ => sh_tasks st' = sh_tasks st
  end.
Proof.
  unfold replayStakeEvent, try at 1.
  assert (quiet (three_times {| hit_TransactionHash := ""; hit_LogIndex := "" |} (getStakeEventRefByNonce id nonce))) as Q1.
  { apply quiet_backoff, quiet_bind; auto with quiet. }
  specialize (Q1 st). destruct (three_times _ _ st) as [st1 [hit|e|]] eqn:E1; cbn in Q1; destruct Q1 as [Q1 _];
    [|by intros [= <- <-]..].
  apply three_times_ok in E1 as [s1 E1]. unfold getStakeEventRefByNonce, mbind, sh_bind, ask, lift in E1. cbn in E1.
  destruct (w_stakeEvent _ id nonce) as [response| |] eqn:Er; cbn in E1; [|done..]. ok_inv E1. apply refused_nil in Hg.
  unfold try at 1. unfold fetchAndValidateStakeEventLog, mbind, sh_bind, ask. cbn.
  destruct (w_stakingInfo _) as [expected| |] eqn:Ea; cbn; [|by intros [= <- <-]..].
  match goal with |- context [three_times None ?m ?s] =>
    assert (quiet (three_times None m)) as Q2 by (apply quiet_backoff; intros ?; done); specialize (Q2 s);
    destruct (three_times None m s) as [st2 [receipt|e|]] eqn:E2; cbn in Q2; destruct Q2 as [Q2 _]
  end; [|intros [= <- <-]; by rewrite Q2..].
  apply three_times_ok in E2 as [s2 E2]. cbn in E2. unfold lift.
  destruct (validateStakeEventReceipt receipt expected hit) as [l|e|] eqn:Ev; [|intros [= <- <-]; by rewrite Q2..].
  unfold validateStakeEventReceipt in Ev. destruct receipt as [rc|]; [|done]. ok_inv Ev. bool_hyps. subst a.
  apply of_option_ok, findLogByIndex_ok in Ha as [Hl Hi].
  unfold try. destruct (processEvent _ _ l st2) as [st3 p] eqn:Ep. apply processEvent_ok in Ep.
  destruct p as [[|]| |]; cbn; try (intros [= <- <-]; destruct Ep as [Ep _]; by rewrite Ep, Q2).
  intros [= <- <-]. destruct Ep as (D & ts & Hs & Et & _). exists l, ts. split; [|split; [done|split; [done|by rewrite Et, Q2, Q1]]].
  exists (sh_calls s1), (sh_calls s2), (sh_calls st1), response, hit, rc. rewrite Ea, Hg1. done.
Qed.

(** ** The nonces of a validator *)

(** The logs handed on for the nonces from [first], with what was sent for each. *)
Definition replayed (id first : Z) (steps : list (Log * list Task)) : Prop :=
  forall k l ts, steps !! k = Some (l, ts) ->
    authentic id (u64 (first + Z.of_nat k)) l /\ deep l /\ sent_for l ts.

Lemma replayed_cons id first l ts steps : in_u64 first ->
  authentic id first l -> deep l -> sent_for l ts -> replayed id (u64 (first + 1)) steps ->
  replayed id first ((l, ts) :: steps).
Proof.
  intros Hf A D S R [|k] l' ts'; cbn [lookup list_lookup].
  - intros [= <- <-]. by rewrite Z.add_0_r, u64_id.
  - intros H. apply R in H. unfold u64 in *. rewrite Zplus_mod_idemp_l in H.
    replace (first + 1 + Z.of_nat k) with (first + Z.of_nat (Datatypes.S k)) in H by lia. done.
Qed.

Lemma replay_from_ok id l1MaxNonce fuel : forall queued nonce st st' r, in_u64 nonce ->
  replay_from eventMap SHMaxDepthDuration id l1MaxNonce fuel queued nonce st = (st', r) ->
  exists steps, sh_tasks st' = sh_tasks st ++ concat (map snd steps) /\ replayed id nonce steps /\
    (length steps <= fuel)%nat /\ (forall q, r = Ok q -> q = queued + Z.of_nat (length steps)).
Proof.
  assert (forall queued nonce st st' (r : outcome Z), sh_tasks st' = sh_tasks st -> (forall q, r = Ok q -> q = queued) ->
    forall fuel, exists steps, sh_tasks st' = sh_tasks st ++ concat (map snd steps) /\ replayed id nonce steps /\
    (length steps <= fuel)%nat /\ (forall q, r = Ok q -> q = queued + Z.of_nat (length steps))) as Stop.
  { intros queued nonce st st' r E Hr f. exists []. cbn. rewrite app_nil_r. split_and!; [done|by intros [|]|lia|].
    intros q Hq. rewrite (Hr q Hq). lia. }
  induction fuel as [|fuel IH]; intros queued nonce st st' r Hn; cbn [replay_from].
  { intros [= <- <-]. apply Stop; [done|by intros q [= <-]]. }
  destruct (_ && _); [|intros [= <- <-]; apply Stop; [done|by intros q [= <-]]].
  unfold mbind at 1, sh_bind at 1.
  destruct ((if 0 <? queued then pauseBetweenReplays else ret true) st) as [st1 [running|e|]] eqn:E1;
    assert (sh_tasks st1 = sh_tasks st) as T1 by (destruct (0 <? queued); injection E1 as <-; done);
    [|intros [= <- <-]; by apply Stop..].
  destruct running; cbn [negb]; [|intros [= <- <-]; apply Stop; [done|by intros q [= <-]]].
  unfold mbind, sh_bind. destruct (replayStakeEvent _ _ id nonce st1) as [st2 p] eqn:E2. apply replayStakeEvent_ok in E2.
  destruct p as [[|]| |]; [|intros [= <- <-]; apply Stop; [congruence|by intros q [= <-]]|intros [= <- <-]; apply Stop; [congruence|done]..].
  intros E3. destruct E2 as (l & ts & A & D & S & T2). apply IH in E3 as (steps & T3 & R & Hl & Hq); [|apply u64_range].
  exists ((l, ts) :: steps). split_and!.
  - rewrite T3, T2, T1. cbn. by rewrite <- app_assoc.
  - by apply replayed_cons.
  - cbn. lia.
  - intros q Hr. rewrite (Hq q Hr). cbn [length]. lia.
Qed.

Lemma fetchValidatorNonces_ok id st st' r : fetchValidatorNonces id st = (st', r) ->
  sh_tasks st' = sh_tasks st /\
  (forall h m, r = Ok (Some (h, m)) -> (exists n, w_validatorNonce n id = Ok h) /\
     exists n response, w_maxNonce n id = Ok response /\ maxNonceFromResponse response = Ok m).
Proof.
  unfold fetchValidatorNonces. intros E. split.
  - assert (quiet (fetchValidatorNonces id)) as Q.
    { apply quiet_try; [apply quiet_ask|apply quiet_ret|]. intros h. apply quiet_try; [|apply quiet_ret|intros; apply quiet_ret].
      apply quiet_backoff, quiet_bind; [apply quiet_ask|intros; apply quiet_lift]. }
    specialize (Q st). unfold fetchValidatorNonces in Q. rewrite E in Q. apply Q.
  - intros h m ->. unfold try, ask in E. cbn in E. destruct (w_validatorNonce _ id) as [h'| |] eqn:Eh; [|done..].
    destruct (three_times 0 _ _) as [st1 [m'| |]] eqn:E2; [|done..]. injection E as _ <- <-. split; [by eexists|].
    apply three_times_ok in E2 as [s1 E2]. unfold getMaxL1NonceForValidator, mbind, sh_bind, ask, lift in E2. cbn in E2.
    destruct (w_maxNonce _ id) as [response| |] eqn:Em; cbn in E2; [|done..]. apply fail_if_ok in E2 as [_ E2]. by exists (sh_calls s1), response.
Qed.
End selfheal.

(** C34: what the self-healing replays for a validator is authentic and in order.  At most
    ten events are handed on in a cycle: the events of the nonces after heimdall's, one after
    the other without a gap, each located by the subgraph in a successful transaction of the
    main chain, emitted by the staking contract and old enough; what is sent is what the
    listener sends for these logs, and nothing else, whatever queries fail. *)
Theorem stake_events_replayed_in_order {AC : AddressCodec} {BL : BridgeLogs} {SW : SelfHealWorld}
    (eventMap : gmap bytes string) (SHMaxDepthDuration id q : Z) (st st' : ShState) :
  (forall n h, w_validatorNonce n id = Ok h -> in_u64 h) ->
  recoverStakeEventsForValidator eventMap SHMaxDepthDuration id st = (st', Ok q) ->
  exists steps : list (Log * list Task),
    q = Z.of_nat (length steps) /\ q <= 10 /\ sh_tasks st' = sh_tasks st ++ concat (map snd steps) /\
    (steps <> [] -> exists heimdallNonce n, w_validatorNonce n id = Ok heimdallNonce /\
       forall k l ts, steps !! k = Some (l, ts) ->
         authentic id (u64 (heimdallNonce + 1 + Z.of_nat k)) l /\ deep SHMaxDepthDuration l /\ sent_for eventMap l ts).
Proof.
  intros Hu E. unfold recoverStakeEventsForValidator, mbind, sh_bind in E.
  destruct (fetchValidatorNonces id st) as [st1 [nonces| |]] eqn:En; [|done..].
  apply fetchValidatorNonces_ok in En as [T1 Hn]. destruct nonces as [[h m]|].
  2:{ injection E as <- <-. exists []. cbn. rewrite app_nil_r. by split_and!. }
  destruct (Hn h m eq_refl) as [[n Hh] _]. destruct (m <=? h).
  { injection E as <- <-. exists []. cbn. rewrite app_nil_r. by split_and!. }
  apply replay_from_ok in E as (steps & T2 & R & Hl & Hq); [|apply u64_range].
  specialize (Hq q eq_refl). exists steps. split_and!; [lia|unfold maxStakeNoncesPerCycle in Hl; lia|by rewrite T2, T1|].
  intros _. exists h, n. split; [done|]. intros k l ts Hk. apply R in Hk. unfold u64 in *. by rewrite Zplus_mod_idemp_l in Hk.
Qed.

(** ** When the answers come *)

Section live.
Context {AC : AddressCodec} {BL : BridgeLogs} {SW : SelfHealWorld}.
Variables (eventMap : gmap bytes string) (SHMaxDepthDuration : Z).

(** [f] answers [a], or fails, but not three times in a row. *)
Definition within_three {A} (f : nat -> outcome A) (a : A) : Prop := forall n,
  (f n = Ok a \/ exists e, f n = Err e) /\ (f n = Ok a \/ f (S n) = Ok a \/ f (S (S n)) = Ok a).

Definition same_queue (st st' : ShState) : Prop := sh_tasks st' = sh_tasks st /\ sh_handled st' = sh_handled st.

Lemma bind_ask_lift {A B} (f : nat -> outcome A) (g : A -> outcome B) st :
  (ask f ≫= fun r => lift (g r)) st = ask (fun n => f n ≫= g) st.
Proof. unfold mbind at 1, sh_bind, ask, lift. by destruct (f (sh_calls st)). Qed.

Lemma three_times_within {A} zero (action : SH A) f a st :
  (forall st, action st = ask f st) -> within_three f a ->
  exists st', three_times zero action st = (st', Ok a) /\ same_queue st st'.
Proof.
  intros Ha W. unfold three_times. rewrite backoff_S, Ha. unfold ask. cbn.
  destruct (W (sh_calls st)) as [[E1|[e1 E1]] W3]; rewrite E1; [by eexists|]. cbn.
  rewrite Ha. unfold ask. cbn. destruct (W (S (sh_calls st))) as [[E2|[e2 E2]] _]; rewrite E2; [by eexists|]. cbn.
  rewrite Ha. unfold ask. cbn. destruct W3 as [E|[E|E]]; [congruence..|]. rewrite E. by eexists.
Qed.

Lemma within_bind {A B} (f : nat -> outcome A) (g : A -> outcome B) a b :
  within_three f a -> g a = Ok b -> within_three (fun n => f n ≫= g) b.
Proof.
  intros W G n. destruct (W n) as [H1 H2].
  assert (forall k, f k = Ok a -> (f k ≫= g) = Ok b) as Bind by (intros k ->; done). split.
  - destruct H1 as [H1|[e H1]]; [left; by apply Bind|right]. exists e. by rewrite H1.
  - destruct H2 as [H|[H|H]]; [left|right; left|right; right]; by apply Bind.
Qed.

(** A log is old enough, and its event is one of the listener's: [ts] is sent for it. *)
Definition ripe (l : Log) (ts : list Task) : Prop := exists t event,
  (forall n, w_BlockTime n (log_BlockNumber l) = Ok t) /\ (forall n, SHMaxDepthDuration <= w_now n - t) /\
  selected eventMap l = Some event /\ (forall n, handleLog (w_view n) l event = Ok ts).

Lemma processEvent_ripe l ts st : ripe l ts -> exists st',
  processEvent eventMap SHMaxDepthDuration l st = (st', Ok false) /\
  sh_tasks st' = sh_tasks st ++ ts /\ sh_handled st' = sh_handled st ++ [l].
Proof.
  intros (t & event & Ht & Hd & Hs & Hh). unfold processEvent, mbind, sh_bind, ask. cbn. rewrite Ht. cbn.
  rewrite (proj2 (Z.ltb_ge _ _)) by auto. rewrite Hs. unfold hand_on. cbn. rewrite Hh. by eexists.
Qed.

(** The event of a nonce is found within the attempts, and [ts] is sent for it. *)
Definition replayable (id : Z) (addr : bytes) (nonce : Z) (ts : list Task) : Prop := exists response hit receipt l,
  within_three (fun n => w_stakeEvent n id nonce) response /\ se_Errors response = [] /\
  pickStakeEventHit response = Some hit /\
  within_three (fun n => w_TransactionReceipt n (HexToHash (hit_TransactionHash hit))) (Some receipt) /\
  validateStakeEventReceipt (Some receipt) addr hit = Ok l /\ ripe l ts.

Lemma replayStakeEvent_replayable id addr nonce ts st : (forall n, w_stakingInfo n = Ok addr) ->
  replayable id addr nonce ts -> exists st',
  replayStakeEvent eventMap SHMaxDepthDuration id nonce st = (st', Ok true) /\ sh_tasks st' = sh_tasks st ++ ts.
Proof.
  intros Ha (response & hit & receipt & l & W1 & He & Hp & W2 & Hv & R). unfold replayStakeEvent, try at 1.
  destruct (three_times_within {| hit_TransactionHash := ""; hit_LogIndex := "" |} (getStakeEventRefByNonce id nonce)
    (fun n => w_stakeEvent n id nonce ≫= fun response => return_if refused (se_Errors response) with ErrGraph ;;
        of_option (ErrText "self-healing: no stake event found") (pickStakeEventHit response)) hit st) as (st1 & -> & T1 & _).
  { intros s. apply bind_ask_lift. }
  { eapply within_bind; [exact W1|]. by rewrite He, Hp. }
  unfold try at 1, fetchAndValidateStakeEventLog, mbind, sh_bind, ask at 1. rewrite Ha.
  match goal with |- context [three_times None ?m ?s] =>
    destruct (three_times_within None m (fun n => w_TransactionReceipt n (HexToHash (hit_TransactionHash hit))) (Some receipt) s)
      as (st2 & E2 & T2 & _); [done|exact W2|] end.
  rewrite E2. unfold lift. rewrite Hv. unfold try.
  destruct (processEvent_ripe l ts st2 R) as (st3 & -> & T3 & _). eexists. split; [done|]. by rewrite T3, T2, <- T1.
Qed.

Lemma replay_from_all id addr l1MaxNonce (sends : Z -> list Task) fuel : forall queued nonce st,
  (forall n, w_running n = true) -> (forall n, w_stakingInfo n = Ok addr) -> l1MaxNonce < MaxUint64 -> 0 <= nonce ->
  (forall k, nonce <= k <= l1MaxNonce -> replayable id addr k (sends k)) ->
  0 <= queued -> queued + Z.of_nat fuel = maxStakeNoncesPerCycle ->
  let count := Z.max 0 (Z.min (Z.of_nat fuel) (l1MaxNonce - nonce + 1)) in
  exists st', replay_from eventMap SHMaxDepthDuration id l1MaxNonce fuel queued nonce st = (st', Ok (queued + count)) /\
    sh_tasks st' = sh_tasks st ++ concat (map sends (seqZ nonce count)).
Proof.
  induction fuel as [|fuel IH]; intros queued nonce st Hr Ha Hm H0 Hk Hq Hf; cbn zeta; cbn [replay_from].
  { replace (Z.max 0 _) with 0 by lia. exists st. cbn. rewrite Z.add_0_r, app_nil_r. done. }
  destruct (Z.leb_spec nonce l1MaxNonce) as [L|L]; cbn [andb].
  2:{ replace (Z.max 0 _) with 0 by lia. exists st. cbn. rewrite Z.add_0_r, app_nil_r. done. }
  rewrite (proj2 (Z.ltb_lt queued _)) by lia. unfold mbind at 1, sh_bind at 1.
  assert (exists st1, (if 0 <? queued then pauseBetweenReplays else ret true) st = (st1, Ok true) /\ sh_tasks st1 = sh_tasks st)
    as (st1 & -> & T1).
  { destruct (0 <? queued); [|by exists st]. unfold pauseBetweenReplays, ask. rewrite Hr. by eexists. }
  cbn [negb]. unfold mbind, sh_bind.
  destruct (replayStakeEvent_replayable id addr nonce (sends nonce) st1 Ha (Hk nonce ltac:(lia))) as (st2 & -> & T2).
  rewrite u64_id by (unfold in_u64; lia).
  destruct (IH (queued + 1) (nonce + 1) st2) as (st3 & E3 & T3); try done; [lia|intros; apply Hk; lia|lia..|].
  rewrite E3. exists st3. split; [do 2 f_equal; lia|]. rewrite T3, T2, T1.
  replace (Z.max 0 (Z.min (Z.of_nat (S fuel)) (l1MaxNonce - nonce + 1)))
    with (Z.succ (Z.max 0 (Z.min (Z.of_nat fuel) (l1MaxNonce - (nonce + 1) + 1)))) by lia.
  rewrite (seqZ_cons nonce) by lia. cbn [map concat]. rewrite <- app_assoc, Z.pred_succ. do 4 f_equal. 
Qed.
End live.

#[local] Arguments replay_from : simpl never.

(** No stake event stays missing.  When heimdall's nonce of a validator lags behind the
    main chain, and every answer of the subgraph and of the main chain comes within three
    attempts, a cycle hands on the events of the next nonces up to the highest of the main
    chain, ten at most, in order; so every validator that keeps lagging advances by ten
    nonces a cycle. *)
Theorem missing_stake_events_are_replayed {AC : AddressCodec} {BL : BridgeLogs} {SW : SelfHealWorld}
    (eventMap : gmap bytes string) (SHMaxDepthDuration id heimdallNonce l1MaxNonce : Z) (addr : bytes)
    (response : stakeEventMaxNonceResponse) (sends : Z -> list Task) (st : ShState) :
  (forall n, w_validatorNonce n id = Ok heimdallNonce) ->
  within_three (fun n => w_maxNonce n id) response ->
  mn_Errors response = [] -> maxNonceFromResponse response = Ok l1MaxNonce ->
  (forall n, w_stakingInfo n = Ok addr) -> (forall n, w_running n = true) ->
  0 <= heimdallNonce < l1MaxNonce -> l1MaxNonce < MaxUint64 ->
  (forall nonce, heimdallNonce < nonce <= l1MaxNonce ->
     replayable eventMap SHMaxDepthDuration id addr nonce (sends nonce)) ->
  let count := Z.min 10 (l1MaxNonce - heimdallNonce) in
  exists st', recoverStakeEventsForValidator eventMap SHMaxDepthDuration id st = (st', Ok count) /\
    sh_tasks st' = sh_tasks st ++ concat (map sends (seqZ (heimdallNonce + 1) count)).
Proof.
  intros Hh W He Hm Ha Hr Hlt Hmax Hk count. unfold recoverStakeEventsForValidator, mbind, sh_bind.
  unfold fetchValidatorNonces, try, ask at 1. rewrite Hh.
  match goal with |- context [three_times 0 ?m ?s] =>
    destruct (three_times_within 0 m (fun n => w_maxNonce n id ≫= fun response =>
      return_if refused (mn_Errors response) with ErrGraph ;; maxNonceFromResponse response) l1MaxNonce s) as (st1 & E1 & T1 & _) end.
  { intros s. apply bind_ask_lift. }
  { eapply within_bind; [exact W|]. by rewrite He. }
  rewrite E1. cbn. rewrite (proj2 (Z.leb_gt _ _)) by lia. rewrite u64_id by (unfold in_u64; lia).
  destruct (replay_from_all eventMap SHMaxDepthDuration id addr l1MaxNonce sends 10 0 (heimdallNonce + 1) st1) as (st2 & E2 & T2);
    try done; [lia|intros; apply Hk; lia|].
  change (Z.to_nat maxStakeNoncesPerCycle) with 10%nat. rewrite E2. exists st2. rewrite T2, T1.
  assert (Z.max 0 (Z.min (Z.of_nat 10) (l1MaxNonce - (heimdallNonce + 1) + 1)) = count) as -> by (unfold count; lia).
  done.
Qed.

(** ** State-sync events *)

Section states.
Context {AC : AddressCodec} {BL : BridgeLogs} {SW : SelfHealWorld}.
Variables (eventMap : gmap bytes string) (SHMaxDepthDuration : Z).
Hypothesis running : forall n, w_running n = true.

Lemma poll_ends fuel i st : exists st' b, poll fuel i st = (st', Ok (Some b)) /\ same_queue st st' /\
  (b = true -> exists n, w_record n i = true).
Proof.
  revert st. induction fuel as [|fuel IH]; intros st; cbn [poll]; [by exists st, false|].
  unfold mbind at 1, sh_bind at 1, ask. destruct (w_record (sh_calls st) i) eqn:E.
  { eexists _, true. split; [done|]. split; [done|]. intros _. by exists (sh_calls st). }
  unfold mbind, sh_bind, sleep, ask. cbn [sh_calls]. rewrite running.
  match goal with |- context [poll fuel i ?s] => destruct (IH s) as (st' & b & -> & [Q1 Q2] & H) end.
  exists st', b. by split_and!.
Qed.

(** Each attempt hands the event on. *)
Lemma attempts_ripe fuel i l ts st : ripe eventMap SHMaxDepthDuration l ts -> exists st' b k,
  attempts eventMap SHMaxDepthDuration fuel i l st = (st', Ok (Some b)) /\ (k <= fuel)%nat /\ (fuel <> O -> k <> O) /\
  sh_handled st' = sh_handled st ++ repeat l k /\ sh_tasks st' = sh_tasks st ++ concat (repeat ts k).
Proof.
  intros R. revert st. induction fuel as [|fuel IH]; intros st; cbn [attempts].
  { exists st, false, O. cbn. rewrite !app_nil_r. by split_and!. }
  unfold try. destruct (processEvent_ripe eventMap SHMaxDepthDuration l ts st R) as (st1 & -> & T1 & H1).
  unfold mbind, sh_bind, sleep, ask. rewrite running. cbn [negb].
  match goal with |- context [poll ?f i ?s] => destruct (poll_ends f i s) as (st2 & b & -> & [Q1 Q2] & _) end.
  cbn [sh_tasks sh_handled] in Q1, Q2. destruct b.
  - exists st2, true, 1%nat. cbn. rewrite Q1, Q2, T1, H1, app_nil_r. split_and!; (done || lia).
  - destruct (IH st2) as (st3 & b & k & -> & Hk & _ & H3 & T3). exists st3, b, (S k).
    cbn. rewrite H3, T3, Q1, Q2, T1, H1, <- !app_assoc. split_and!; (done || lia).
Qed.

(** The event of a state id is found, and [ts] is sent for it. *)
Definition findable (i : Z) (l : Log) : Prop := exists response s receipt,
  (forall n, w_stateSynceds n (StateSyncedOf i) = Ok response) /\ ss_Errors response = [] /\
  head (StateSynceds response) = Some s /\
  (forall n, w_TransactionReceipt n (HexToHash (ss_TransactionHash s)) = Ok (Some receipt)) /\
  findLogByIndex (rcp_Logs receipt) (ss_LogIndex s) = Some l.

Lemma getStateSynced_found i l st : findable i l -> exists st',
  three_times None (l ← getStateSynced i; ret (Some l)) st = (st', Ok (Some l)) /\ same_queue st st'.
Proof.
  intros (response & s & receipt & Hq & He & Hh & Hr & Hl). unfold three_times. rewrite backoff_S.
  unfold mbind, sh_bind, getStateSynced, ask, lift, mbind, sh_bind. rewrite Hq, He, Hh. cbn. rewrite Hr. cbn. rewrite Hl. cbn.
  by eexists.
Qed.

(** What was handed on for the state ids from [i]: each event at most three times, and at
    least once unless heimdall has its record. *)
Inductive covered (events : Z -> Log) (sends : Z -> list Task) : Z -> nat -> list Log -> list Task -> Prop :=
| covered_none i : covered events sends i O [] []
| covered_next i m k logs ts : (k <= 3)%nat -> (k = O -> exists n, w_record n i = true) ->
    covered events sends (i + 1) m logs ts ->
    covered events sends i (S m) (repeat (events i) k ++ logs) (concat (repeat (sends i) k) ++ ts).

Lemma sync_states_covers events sends fuel i last st :
  (forall j, i <= j <= last -> findable j (events j) /\ ripe eventMap SHMaxDepthDuration (events j) (sends j)) ->
  MinInt64 <= i -> last < MaxInt64 -> Z.of_nat fuel = Z.max 0 (last - i + 1) ->
  exists st' logs ts, sync_states eventMap SHMaxDepthDuration fuel i last st = (st', Ok tt) /\
    covered events sends i fuel logs ts /\
    sh_handled st' = sh_handled st ++ logs /\ sh_tasks st' = sh_tasks st ++ ts.
Proof.
  revert i st. induction fuel as [|fuel IH]; intros i st Hj Hi Hl Hf; cbn [sync_states].
  { rewrite (proj2 (Z.ltb_lt _ _)) by lia. exists st, [], []. rewrite !app_nil_r. split_and!; (done || constructor). }
  rewrite (proj2 (Z.ltb_ge _ _)) by lia. unfold mbind at 1, sh_bind at 1, ask.
  rewrite i64_id by (unfold in_i64, MinInt64 in *; lia).
  assert (forall st1, exists st' logs ts, sync_states eventMap SHMaxDepthDuration fuel (i + 1) last st1 = (st', Ok tt) /\
    covered events sends (i + 1) fuel logs ts /\
    sh_handled st' = sh_handled st1 ++ logs /\ sh_tasks st' = sh_tasks st1 ++ ts) as Rest.
  { intros st1. apply IH; [intros; apply Hj; lia|lia..]. }
  destruct (w_record (sh_calls st) i) eqn:Ek.
  { match goal with |- context [sync_states _ _ fuel (i + 1) last ?s] => destruct (Rest s) as (st' & logs & ts & -> & C & H1 & H2) end.
    exists st', logs, ts. split_and!; [done| |done..]. apply (covered_next _ _ i fuel 0); [lia|by exists (sh_calls st)|done]. }
  destruct (Hj i ltac:(lia)) as [F R]. unfold try.
  match goal with |- context [three_times None ?m ?s] =>
    destruct (getStateSynced_found i (events i) s F) as (st1 & E1 & [T1 H1]) end.
  rewrite E1. unfold mbind, sh_bind.
  destruct (attempts_ripe maxRetriesPerState i (events i) (sends i) st1 R) as (st2 & b & k & -> & Hk & Hk0 & H2 & T2).
  destruct (Rest st2) as (st' & logs & ts & -> & C & H3 & T3).
  exists st', (repeat (events i) k ++ logs), (concat (repeat (sends i) k) ++ ts). split_and!; [done| | |].
  - apply covered_next; [done|intros ->; by destruct Hk0|done].
  - rewrite H3, H2, H1. by rewrite <- app_assoc.
  - rewrite T3, T2, T1. by rewrite <- app_assoc.
Qed.
End states.

Lemma covered_elem {AC : AddressCodec} {BL : BridgeLogs} {SW : SelfHealWorld} events sends i m logs ts j :
  covered events sends i m logs ts -> i <= j < i + Z.of_nat m -> events j ∈ logs \/ exists n, w_record n j = true.
Proof.
  induction 1 as [|i m k logs ts Hk H0 C IH]; intros Hj; [lia|].
  destruct (decide (j = i)) as [->|].
  - destruct k as [|k]; [right; by apply H0|left]. apply elem_of_app. left. cbn. by left.
  - destruct IH as [IH|IH]; [lia|left; apply elem_of_app; by right|by right].
Qed.

(** No state-sync event stays missing.  When Bor lags behind the main chain and the
    answers come, a cycle goes through the state ids in between, in order, and hands on the
    event of each that heimdall has no record of: at least once, at most three times; it
    ends, and sends nothing else. *)
Theorem missing_states_are_replayed {AC : AddressCodec} {BL : BridgeLogs} {SW : SelfHealWorld}
    (eventMap : gmap bytes string) (SHMaxDepthDuration polygon ethereum : Z) (response : stateSyncedsResponse) (s : stateSynced)
    (events : Z -> Log) (sends : Z -> list Task) (st : ShState) :
  (forall n, w_running n = true) -> (forall n, w_LastStateId n = Ok polygon) ->
  (forall n, w_stateSynceds n LatestStateSynced = Ok response) ->
  ss_Errors response = [] -> head (StateSynceds response) = Some s -> ParseBig (ss_StateId s) = Some ethereum ->
  0 <= polygon < ethereum -> ethereum < MaxInt64 ->
  (forall i, polygon < i <= ethereum ->
     findable i (events i) /\ ripe eventMap SHMaxDepthDuration (events i) (sends i)) ->
  exists st' logs ts, processStateSynced eventMap SHMaxDepthDuration st = (st', Ok tt) /\
    sh_handled st' = sh_handled st ++ logs /\ sh_tasks st' = sh_tasks st ++ ts /\
    covered events sends (polygon + 1) (Z.to_nat (ethereum - polygon)) logs ts /\
    forall i, polygon < i <= ethereum -> events i ∈ logs \/ exists n, w_record n i = true.
Proof.
  intros Hr Hp Hq He Hh Hs Hlt Hmax Hj. unfold processStateSynced, try, getCurrentStateID, getLatestStateID, mbind, sh_bind, ask, lift.
  rewrite Hp. cbn [sh_calls]. rewrite Hq, He. destruct (StateSynceds response) as [|s' rest]; [done|]. injection Hh as ->.
  cbn [refused length Nat.eqb negb fail_if]. rewrite Hs. rewrite (proj2 (Z.leb_gt _ _)) by lia.
  rewrite (i64_id polygon), (i64_id ethereum), (i64_id (polygon + 1)) by (unfold in_i64, MinInt64, MaxInt64 in *; lia).
  replace (ethereum - (polygon + 1) + 1) with (ethereum - polygon) by lia.
  match goal with |- context [sync_states _ _ ?f _ _ ?s0] =>
    destruct (sync_states_covers eventMap SHMaxDepthDuration Hr events sends f (polygon + 1) ethereum s0)
      as (st' & logs & ts & -> & C & H & T) end;
    [intros; apply Hj; lia|unfold MinInt64; lia|done|lia|].
  exists st', logs, ts. split_and!; [done..|]. intros i Hi. eapply covered_elem; [exact C|lia].
Qed.

(** ** What a cycle sends, whatever fails *)

Section healed.
Context {AC : AddressCodec} {BL : BridgeLogs} {SW : SelfHealWorld}.
Variables (eventMap : gmap bytes string) (SHMaxDepthDuration : Z).
#[local] Arguments processEvent : simpl never.

(** The log of the event of a state id: the subgraph located it in a transaction of the
    main chain. *)
Definition located (i : Z) (l : Log) : Prop := exists n1 n2 response s receipt,
  w_stateSynceds n1 (StateSyncedOf i) = Ok response /\ ss_Errors response = [] /\ head (StateSynceds response) = Some s /\
  w_TransactionReceipt n2 (HexToHash (ss_TransactionHash s)) = Ok (Some receipt) /\
  l ∈ rcp_Logs receipt /\ BigString (i64 (log_Index l)) = ss_LogIndex s.
(** The log of the last header block: heimdall has its checkpoint in the buffer and has
    not counted it. *)
Definition unacknowledged (l : Log) : Prop := exists n1 n2 n3 n4 n5 response header number interval count receipt,
  w_newHeaderBlocks n1 = Ok response /\ head (NewHeaderBlocks response) = Some header /\
  ParseUint (nhb_HeaderBlockId header) = (number, true) /\ w_childBlockInterval n2 = Ok interval /\
  w_ackCount n3 = Ok count /\ number / interval <> count /\
  w_bufferedCheckpointId n4 = Ok (number / interval) /\ number / interval <> 0 /\
  w_TransactionReceipt n5 (HexToHash (nhb_TransactionHash header)) = Ok (Some receipt) /\
  l ∈ rcp_Logs receipt /\ BigString (i64 (log_Index l)) = nhb_LogIndex header.

(** A task that a cycle sends, by its ticker. *)
Definition healed_stake (id : Z) (t : Task) : Prop := exists nonce l ts,
  authentic id nonce l /\ deep SHMaxDepthDuration l /\ sent_for eventMap l ts /\ t ∈ ts.
Definition healed_state (t : Task) : Prop := exists i l ts,
  located i l /\ deep SHMaxDepthDuration l /\ sent_for eventMap l ts /\ t ∈ ts.
Definition healed_ack (t : Task) : Prop := exists l,
  unacknowledged l /\ t ∈ at_once "sendCheckpointAckToHeimdall" NewHeaderBlockEvent 0 l.

(** A computation that sends only such tasks. *)
Definition sends_only {A} (P : Task -> Prop) (m : SH A) : Prop := forall st,
  exists ts, sh_tasks (m st).1 = sh_tasks st ++ ts /\ Forall P ts.
Lemma sends_quiet {A} P (m : SH A) : quiet m -> sends_only P m.
Proof. intros Q st. exists []. rewrite app_nil_r. split; [apply Q|constructor]. Qed.
Lemma sends_after {A B} P (m : SH A) (st : ShState) (k : ShState -> ShState * outcome B) st1 ts1 :
  sh_tasks st1 = sh_tasks st ++ ts1 -> Forall P ts1 -> (exists ts, sh_tasks (k st1).1 = sh_tasks st1 ++ ts /\ Forall P ts) ->
  exists ts, sh_tasks (k st1).1 = sh_tasks st ++ ts /\ Forall P ts.
Proof. intros E1 F1 (ts & E & F). exists (ts1 ++ ts). rewrite E, E1, app_assoc. split; [done|by apply Forall_app]. Qed.
Lemma sends_bind {A B} P (m : SH A) (f : A -> SH B) : sends_only P m ->
  (forall a st st', m st = (st', Ok a) -> sends_only P (f a)) -> sends_only P (m ≫= f).
Proof.
  intros Hm Hf st. unfold mbind, sh_bind. destruct (Hm st) as (ts & E & F). destruct (m st) as [st1 [a| |]] eqn:Em; cbn in *; [|by exists ts..].
  eapply (sends_after P m st (f a)); [done..|]. by eapply Hf.
Qed.
Lemma sends_try {A B} P (m : SH A) (k : SH B) f : sends_only P m -> sends_only P k ->
  (forall a st st', m st = (st', Ok a) -> sends_only P (f a)) -> sends_only P (try m k f).
Proof.
  intros Hm Hk Hf st. unfold try. destruct (Hm st) as (ts & E & F). destruct (m st) as [st1 [a|e|]] eqn:Em; cbn in *; [| |by exists ts].
  - eapply (sends_after P m st (f a)); [done..|]. by eapply Hf.
  - eapply (sends_after P m st k); [done..|]. apply Hk.
Qed.
#[local] Hint Resolve sends_quiet sends_bind sends_try quiet_ask quiet_lift quiet_ret quiet_bind quiet_try quiet_backoff : sends.

Lemma processEvent_sends P l : (forall ts, deep SHMaxDepthDuration l -> sent_for eventMap l ts -> Forall P ts) ->
  sends_only P (processEvent eventMap SHMaxDepthDuration l).
Proof.
  intros HP st. destruct (processEvent _ _ l st) as [st' r] eqn:E. apply processEvent_ok in E. cbn.
  destruct r as [[]|e|]; try (exists []; rewrite app_nil_r; by destruct E). destruct E as (D & ts & S & E & _). exists ts. eauto.
Qed.

Lemma poll_quiet fuel i : quiet (poll fuel i).
Proof.
  induction fuel as [|fuel IH]; [apply quiet_ret|]. cbn [poll]. apply quiet_bind; [apply quiet_ask|]. intros [].
  - apply quiet_ret.
  - apply quiet_bind; [apply quiet_ask|]. intros []; [done|apply quiet_ret].
Qed.

Lemma attempts_sends P fuel i l : (forall ts, deep SHMaxDepthDuration l -> sent_for eventMap l ts -> Forall P ts) ->
  sends_only P (attempts eventMap SHMaxDepthDuration fuel i l).
Proof.
  intros HP. induction fuel as [|fuel IH]; cbn [attempts]; [auto with sends|].
  apply sends_try; [by apply processEvent_sends|done|]. intros [] _ _ _; [auto with sends|].
  apply sends_bind; [apply sends_quiet, quiet_ask|]. intros [] _ _ _; cbn [negb]; [|auto with sends].
  apply sends_bind; [apply sends_quiet, poll_quiet|]. intros [[]|] _ _ _; auto with sends.
Qed.

Lemma getStateSynced_located i st st' l : getStateSynced i st = (st', Ok l) -> located i l.
Proof.
  unfold getStateSynced, mbind, sh_bind, ask, lift. destruct (w_stateSynceds _ _) as [response| |] eqn:E1; [|done..]. cbn [sh_calls].
  destruct (fail_if _ _ _) as [s| |] eqn:E2; [|done..]. apply fail_if_ok in E2 as [Hr E2%of_option_ok]. apply refused_nil in Hr.
  destruct (w_TransactionReceipt _ _) as [[receipt|]| |] eqn:E3; cbn; [|done..]. intros [= _ E4].
  apply of_option_ok, findLogByIndex_ok in E4 as [Hl Hi]. by eexists _, _, response, s, receipt.
Qed.

Lemma getStateSynced_quiet i : quiet (getStateSynced i).
Proof. unfold getStateSynced. auto 6 with sends. Qed.

Lemma sync_states_sends fuel i last : sends_only healed_state (sync_states eventMap SHMaxDepthDuration fuel i last).
Proof.
  revert i. induction fuel as [|fuel IH]; intros i; cbn [sync_states]; destruct (last <? i); auto with sends.
  apply sends_bind; [auto with sends|]. intros [] _ _ _; [done|]. apply sends_try; [|done|].
  - apply sends_quiet, quiet_backoff, quiet_bind; [apply getStateSynced_quiet|intros; apply quiet_ret].
  - intros [l|] st st' E; [|auto with sends]. apply three_times_ok in E as [s1 E]. unfold mbind, sh_bind in E.
    destruct (getStateSynced i s1) as [s2 [l'| |]] eqn:El; [|done..]. injection E as ->. apply getStateSynced_located in El.
    apply sends_bind; [|intros [] _ _ _; auto with sends]. apply attempts_sends. intros ts D S. apply Forall_forall.
    intros t Ht. by exists i, l, ts.
Qed.

Lemma processStateSynced_sends : sends_only healed_state (processStateSynced eventMap SHMaxDepthDuration).
Proof.
  unfold processStateSynced. apply sends_try; [apply sends_quiet, quiet_ask|auto with sends|]. intros polygon _ _ _.
  apply sends_try; [apply sends_quiet, quiet_bind; auto with sends|auto with sends|]. intros ethereum _ _ _.
  destruct (_ <=? _); [auto with sends|apply sync_states_sends].
Qed.

Lemma recover_sends id : sends_only (healed_stake id) (recoverStakeEventsForValidator eventMap SHMaxDepthDuration id).
Proof.
  unfold recoverStakeEventsForValidator. apply sends_bind.
  - intros st. destruct (fetchValidatorNonces id st) as [st' r] eqn:E. apply fetchValidatorNonces_ok in E as [E _].
    exists []. by rewrite app_nil_r.
  - intros [[h m]|] _ _ _; [|auto with sends]. destruct (m <=? h); [auto with sends|]. intros st.
    destruct (replay_from _ _ _ _ _ _ _ st) as [st' r] eqn:E. apply replay_from_ok in E as (steps & E & R & _); [|apply u64_range].
    exists (concat (map snd steps)). split; [done|]. apply Forall_concat, Forall_map, Forall_lookup. intros k [l ts] Hk.
    destruct (R _ _ _ Hk) as (A & D & S). apply Forall_forall. intros t Ht. by eexists _, l, ts.
Qed.
End healed.

#[local] Arguments try : simpl never.

(** An acknowledgement is sent for the header block the main chain has last, when heimdall
    has not counted it and holds its checkpoint in the buffer. *)
Theorem self_healed_ack_is_buffered {AC : AddressCodec} {BL : BridgeLogs} {SW : SelfHealWorld} (st st' : ShState) r :
  processCheckpointAck st = (st', r) ->
  sh_tasks st' = sh_tasks st \/
  exists l, unacknowledged l /\
    sh_tasks st' = sh_tasks st ++ at_once "sendCheckpointAckToHeimdall" NewHeaderBlockEvent 0 l.
Proof.
  unfold processCheckpointAck, try at 1, getLatestCheckpointFromL1, mbind, sh_bind, ask, lift.
  destruct (w_newHeaderBlocks _) as [response| |] eqn:E1; cbn; [|intros [= <- <-]; by left..].
  destruct (fail_if _ _ _) as [header| |] eqn:E2; cbn; [|intros [= <- <-]; by left..].
  apply fail_if_ok in E2 as [_ E2%of_option_ok].
  destruct (ParseUint _) as [number [|]] eqn:E3; cbn; [|intros [= <- <-]; by left].
  unfold try at 1. destruct (w_childBlockInterval _) as [interval| |] eqn:E4; cbn; [|intros [= <- <-]; by left..].
  destruct (interval =? 0); [intros [= <- <-]; by left|]. unfold try at 1.
  destruct (w_ackCount _) as [count| |] eqn:E5; cbn; [|intros [= <- <-]; by left..].
  destruct (number / interval =? count) eqn:E6; [intros [= <- <-]; by left|]. unfold try at 1.
  destruct (w_bufferedCheckpointId _) as [buffered| |] eqn:E7; cbn; [|intros [= <- <-]; by left..].
  destruct (_ || _) eqn:E8; [intros [= <- <-]; by left|]. unfold try at 1.
  destruct (w_TransactionReceipt _ _) as [[receipt|]| |] eqn:E9; cbn; [|intros [= <- <-]; by left..].
  destruct (findLogByIndex _ _) as [l|] eqn:E10; [|intros [= <- <-]; by left].
  destruct (log_marshals l); [|intros [= <- <-]; by left]. intros [= <- <-]. right. bool_hyps. subst buffered.
  apply findLogByIndex_ok in E10 as [Hl Hi]. cbn.
  exists l. split; [|done]. eexists _, _, _, _, _, response, header, number, interval, count, receipt. by split_and!.
Qed.

(** ** Witnesses

    A validator at nonce 10 whose events 11 to 13 heimdall missed, and a Bor chain at state
    id 10 behind the main chain at 12; every second query fails. *)
Module SelfHealDemo.
#[export] Instance demo_codec : AddressCodec := {|
  PubKeyAddress := Some; AddressString := fun _ => EmptyString; BytesToString := fun _ => Ok EmptyString;
  StringToBytes := fun _ => Ok [Byte.x01] |}.
Definition topic : bytes := [Byte.x07].
#[export] Instance demo_logs : BridgeLogs := {|
  Log := Z; log_Topics := fun _ => [topic]; log_marshals := fun _ => true;
  event_SignerPubkey := fun _ _ => None; event_ValidatorId := fun _ _ => Some 5;
  event_User := fun _ => None; event_StateSynced := fun _ => true; FilterLogs := fun _ _ _ => Ok [] |}.
Definition stake_events : gmap bytes string := {[ topic := StakeUpdateEvent ]}.
Definition state_events : gmap bytes string := {[ topic := StateSyncedEvent ]}.
Definition view : NodeView :=
  {| nv_pubKey := [Byte.x04]; nv_address := [Byte.x01]; nv_validators := Some [EmptyString]; nv_unconfirmed := 0;
     nv_signer_of := fun _ => Some EmptyString |}.

Definition every_second {A} (a : A) (n : nat) : outcome A := if Nat.even n then Err (ErrText "timeout") else Ok a.
Lemma every_second_within {A} (a : A) : within_three (every_second a) a.
Proof.
  intros n. unfold every_second. rewrite Nat.even_succ, <- Nat.negb_even. split; destruct (Nat.even n); cbn; eauto.
Qed.

Definition hit (nonce : Z) : txAndLogIndex := {| hit_TransactionHash := "0x0a"; hit_LogIndex := BigString nonce |}.
Definition receipt : L1Receipt := {| rcp_Status := 1; rcp_Logs := [11; 12; 13] |}.
Definition nonces : stakeEventMaxNonceResponse :=
  {| mn_StakeUpdates := ["12"]; mn_SignerChanges := []; mn_UnstakeInits := ["13"]; mn_Errors := [] |}.
Definition located (nonce : Z) : stakeEventByNonceResponse :=
  {| se_StakeUpdates := []; se_SignerChanges := [hit nonce]; se_UnstakeInits := []; se_Errors := [] |}.
Definition synced (id : Z) : stateSynced :=
  {| ss_StateId := BigString id; ss_LogIndex := BigString id; ss_TransactionHash := "0x0b" |}.
Definition synceds (id : Z) : stateSyncedsResponse := {| StateSynceds := [synced id]; ss_Errors := [] |}.
(** Heimdall learns of state id 11 while it is polled, and never of 12. *)
Definition world (receipts : nat -> outcome (option L1Receipt)) : SelfHealWorld := {|
  w_stateSynceds n q := match q with LatestStateSynced => Ok (synceds 12) | StateSyncedOf i => Ok (synceds i) end;
  w_newHeaderBlocks n := Err (ErrText "timeout");
  w_maxNonce n id := every_second nonces n; w_stakeEvent n id nonce := every_second (located nonce) n;
  w_TransactionReceipt n hash := receipts n; w_BlockTime n block := Ok (block * 1000); w_now n := 10 ^ 9;
  w_LastStateId n := Ok 10; w_stakingInfo n := Ok [Byte.x0c]; w_childBlockInterval n := Ok 10000; w_ackCount n := Ok 1;
  w_bufferedCheckpointId n := Ok 0; w_validatorNonce n id := Ok 10;
  w_record n i := (i =? 11) && (10 <? n)%nat; w_running n := true; w_view n := view;
  log_Index l := l; log_Address l := [Byte.x0c]; log_BlockNumber l := l; unset_big _ := 0 |}.
Definition start : ShState := {| sh_calls := 0; sh_tasks := []; sh_handled := [] |}.
Definition stake_task (nonce : Z) : list Task := at_once "sendStakeUpdateToHeimdall" StakeUpdateEvent 0 nonce.

Definition stake_run : ShState * outcome Z :=
  recoverStakeEventsForValidator (SW := world (every_second (Some receipt))) stake_events 1000 5 start.

Lemma stake_events_replayed_in_order_witness :
  stake_run.2 = Ok 3 /\ exists steps : list (Z * list Task), length steps = 3%nat /\ sh_tasks stake_run.1 = concat (map snd steps).
Proof.
  assert (stake_run.2 = Ok 3) as E by (vm_compute; reflexivity). split; [exact E|].
  destruct (stake_events_replayed_in_order (SW := world (every_second (Some receipt))) stake_events 1000 5 3 start stake_run.1)
    as (steps & H1 & _ & H2 & _).
  - intros n h [= <-]. vm_compute. split; discriminate.
  - rewrite <- E. apply surjective_pairing.
  - exists steps. split; [apply Nat2Z.inj; symmetry; exact H1|exact H2].
Defined.

Lemma missing_stake_events_are_replayed_witness : exists st',
  recoverStakeEventsForValidator (SW := world (every_second (Some receipt))) stake_events 1000 5 start = (st', Ok 3) /\
  sh_tasks st' = stake_task 11 ++ stake_task 12 ++ stake_task 13.
Proof.
  apply (missing_stake_events_are_replayed (SW := world (every_second (Some receipt))) stake_events 1000 5 10 13 [Byte.x0c] nonces
    stake_task start).
  - reflexivity.
  - apply every_second_within.
  - reflexivity.
  - vm_compute. reflexivity.
  - reflexivity.
  - reflexivity.
  - lia.
  - reflexivity.
  - intros nonce Hn. exists (located nonce), (hit nonce), receipt, nonce.
    split; [apply every_second_within|]. split; [reflexivity|]. split; [reflexivity|]. split; [apply every_second_within|].
    assert (nonce = 11 \/ nonce = 12 \/ nonce = 13) as [-> | [-> | ->]] by lia;
      (split; [vm_compute; reflexivity|]; eexists _, StakeUpdateEvent; split; [reflexivity|];
       split; [intros n; vm_compute; discriminate|]; split; reflexivity).
Defined.

Definition state_task (id : Z) : list Task := staggered view "sendStateSyncedToHeimdall" StateSyncedEvent 0 id.
Definition state_receipts (n : nat) : outcome (option L1Receipt) := Ok (Some receipt).

Lemma missing_states_are_replayed_witness : exists st',
  processStateSynced (SW := world state_receipts) state_events 1000 start = (st', Ok tt) /\
  sh_handled st' = [11; 12; 12; 12].
Proof.
  destruct (missing_states_are_replayed (SW := world state_receipts) state_events 1000 10 12 (synceds 12) (synced 12)
    (fun i => i) state_task start) as (st' & logs & ts & E & H & _).
  - reflexivity.
  - reflexivity.
  - reflexivity.
  - reflexivity.
  - reflexivity.
  - vm_compute. reflexivity.
  - lia.
  - reflexivity.
  - intros i Hi. split.
    + exists (synceds i), (synced i), receipt.
      assert (i = 11 \/ i = 12) as [-> | ->] by lia; (split; [reflexivity|]; split; [reflexivity|]; split; [reflexivity|];
        split; [reflexivity|]; vm_compute; reflexivity).
    + assert (i = 11 \/ i = 12) as [-> | ->] by lia; (eexists _, StateSyncedEvent; split; [reflexivity|];
       split; [intros n; vm_compute; discriminate|]; split; reflexivity).
  - exists st'. split; [exact E|].
    assert (processStateSynced (SW := world state_receipts) state_events 1000 start = (st', Ok tt)) as E' by exact E.
    vm_compute in E'. injection E' as <-. reflexivity.
Defined.
End SelfHealDemo.
