(* ===== verification/Bridge.v ===== *)
(** * The bridge as a running service

    What runs at once in the bridge: the tasks that the processors register
    ([bridge/processor]), the worker of the task queue ([bridge/queue/connector.go]), the
    polling of a chain and the handling of its headers ([bridge/listener/base.go]), the
    root chain listener with its self-healing ([bridge/listener/rootchain.go]), the
    polling for no-acks and for spans, of which one run goes at a time
    ([bridge/processor/checkpoint.go], [span.go]), and the services from their start to
    their shutdown ([bridge/service/bridge.go]).  Each is a step relation: a step is what
    a goroutine does between two points where another may run. *)
From S2P Require Import Prelude Helpers External VoteTypes Numerals Listener SelfHeal.
#[local] Open Scope Z_scope.

(** ** The tasks of the processors *)

Inductive ProcessorKind := CheckpointProcessor | StakingProcessor | ClerkProcessor | FeeProcessor | SpanProcessor.

Definition processor_tasks (p : ProcessorKind) : list string :=
  match p with
  | CheckpointProcessor => ["sendCheckpointToHeimdall"; "sendCheckpointToRootchain"; "sendCheckpointAckToHeimdall"]
  | StakingProcessor =>
      ["sendValidatorJoinToHeimdall"; "sendUnstakeInitToHeimdall"; "sendStakeUpdateToHeimdall"; "sendSignerChangeToHeimdall"]
  | ClerkProcessor => ["sendStateSyncedToHeimdall"]
  | FeeProcessor => ["sendTopUpFeeToHeimdall"]
  | SpanProcessor => []
  end%string.
Definition processor_named (service : string) : option ProcessorKind :=
  if String.eqb service "checkpoint" then Some CheckpointProcessor
  else if String.eqb service "staking" then Some StakingProcessor
  else if String.eqb service "clerk" then Some ClerkProcessor
  else if String.eqb service "fee" then Some FeeProcessor
  else if String.eqb service "span" then Some SpanProcessor
  else None.

(** The service of the processors: which were selected, whether their tasks are
    registered, and the names the task server knows. *)
Record ProcessorService := { processors : list ProcessorKind; registerTasksOnce : bool; registered : gset string }.
Definition NewProcessorService (startAll : bool) (onlyServices : list string) : outcome ProcessorService :=
  let processors :=
    if startAll then [CheckpointProcessor; StakingProcessor; ClerkProcessor; FeeProcessor; SpanProcessor]
    else omap processor_named onlyServices in
  panic_when (length processors =? 0)%nat ;;
  Ok {| processors := processors; registerTasksOnce := false; registered := ∅ |}.
Definition RegisterTasks (s : ProcessorService) : ProcessorService :=
  if registerTasksOnce s then s
  else {| processors := processors s; registerTasksOnce := true;
          registered := registered s ∪ list_to_set (flat_map processor_tasks (processors s)) |}.

(** ** The worker of the queue

    A worker is known by the number of its creation. *)

(** The connector; [qc_quitting]: the workers that [StopWorker] took out and has not yet
    told to quit; [qc_consuming]: the workers that take tasks; [qc_reports]: the workers
    that ended and whose watcher has not seen it. *)
Record Connector := {
  qc_worker : option nat; qc_created : nat; qc_quitting : gset nat; qc_consuming : gset nat; qc_reports : gset nat;
}.
Definition NewConnector : Connector :=
  {| qc_worker := None; qc_created := 0; qc_quitting := ∅; qc_consuming := ∅; qc_reports := ∅ |}.
Definition StartWorker (qc : Connector) : Connector :=
  match qc_worker qc with
  | Some _ => qc
  | None => {| qc_worker := Some (qc_created qc); qc_created := S (qc_created qc); qc_quitting := qc_quitting qc;
               qc_consuming := {[ qc_created qc ]} ∪ qc_consuming qc; qc_reports := qc_reports qc |}
  end.
(** The part of [StopWorker] under the lock, and the call of [Quit] after it, which waits
    until the worker has ended. *)
Definition StopWorker (qc : Connector) : Connector :=
  match qc_worker qc with
  | None => qc
  | Some w => {| qc_worker := None; qc_created := qc_created qc; qc_quitting := {[ w ]} ∪ qc_quitting qc;
                 qc_consuming := qc_consuming qc; qc_reports := qc_reports qc |}
  end.
Definition worker_ended (w : nat) (qc : Connector) : Connector :=
  {| qc_worker := qc_worker qc; qc_created := qc_created qc; qc_quitting := qc_quitting qc;
     qc_consuming := qc_consuming qc ∖ {[ w ]};
     qc_reports := if bool_decide (w ∈ qc_consuming qc) then {[ w ]} ∪ qc_reports qc else qc_reports qc |}.
Definition worker_quit (w : nat) (qc : Connector) : Connector :=
  let qc := worker_ended w qc in
  {| qc_worker := qc_worker qc; qc_created := qc_created qc; qc_quitting := qc_quitting qc ∖ {[ w ]};
     qc_consuming := qc_consuming qc; qc_reports := qc_reports qc |}.
(** The watcher of [worker] has received its error. *)
Definition watchWorker (worker : nat) (qc : Connector) : Connector :=
  {| qc_worker := if bool_decide (qc_worker qc = Some worker) then None else qc_worker qc;
     qc_created := qc_created qc; qc_quitting := qc_quitting qc; qc_consuming := qc_consuming qc;
     qc_reports := qc_reports qc ∖ {[ worker ]} |}.

Inductive queue_step : Connector -> Connector -> Prop :=
| queue_start qc : queue_step qc (StartWorker qc)
| queue_stop qc : queue_step qc (StopWorker qc)
| queue_quit w qc : w ∈ qc_quitting qc -> queue_step qc (worker_quit w qc)
| queue_end w qc : w ∈ qc_consuming qc -> queue_step qc (worker_ended w qc)
| queue_watch w qc : w ∈ qc_reports qc -> queue_step qc (watchWorker w qc).

(** ** One run at a time

    The polling for no-acks and the proposal of a span start a goroutine per tick, behind
    an atomic flag that is set by [CompareAndSwap] and reset when the goroutine ends. *)

(** The runs that go on, and those that have ended without having reset the flag. *)
Record SingleFlight := { inProgress : bool; running : nat; returning : nat; skipCount : Z; started : nat }.
Definition NewSingleFlight : SingleFlight := {| inProgress := false; running := 0; returning := 0; skipCount := 0; started := 0 |}.
(** A tick of [startPollingForNoAck]; [noAckSkipCount] is a [uint64]. *)
Definition poll_no_ack (f : SingleFlight) : SingleFlight :=
  if inProgress f then
    {| inProgress := true; running := running f; returning := returning f; skipCount := u64 (skipCount f + 1); started := started f |}
  else {| inProgress := true; running := S (running f); returning := returning f; skipCount := skipCount f; started := S (started f) |}.
(** The end of [checkAndPropose], which counts nothing. *)
Definition start_propose (f : SingleFlight) : SingleFlight :=
  if inProgress f then f
  else {| inProgress := true; running := S (running f); returning := returning f; skipCount := skipCount f; started := S (started f) |}.
Definition run_returns (f : SingleFlight) : SingleFlight :=
  {| inProgress := inProgress f; running := pred (running f); returning := S (returning f); skipCount := skipCount f; started := started f |}.
Definition run_resets (f : SingleFlight) : SingleFlight :=
  {| inProgress := false; running := running f; returning := pred (returning f); skipCount := skipCount f; started := started f |}.

Inductive flight_step (tick : SingleFlight -> SingleFlight) : SingleFlight -> SingleFlight -> Prop :=
| flight_tick f : flight_step tick f (tick f)
| flight_returns f : (0 < running f)%nat -> flight_step tick f (run_returns f)
| flight_resets f : (0 < returning f)%nat -> flight_step tick f (run_resets f).

(** ** Polling a chain *)

(** The answer to [HeaderByNumber]: the number of a header, or no header. *)
Definition HeaderAnswer : Type := outcome (option Z).
(** A header as it is sent through the channel, with [isFinalized]. *)
Definition blockHeader : Type := Z * bool.

(** A tick of [StartPolling]; [finalized]: a number is asked for, which is that of the
    finalized block; [answer] is the first answer, [latest] the one of the fallback. *)
Definition poll_header (finalized : bool) (answer latest : HeaderAnswer) : option blockHeader :=
  match answer with
  | Ok (Some number) => Some (number, finalized)
  | Ok None => None
  | _ =>
      if finalized then match latest with Ok (Some number) => Some (number, false) | _ => None end
      else None
  end.

(** [ProcessHeader] of the listener of the Bor chain: the task of a header, if it can be
    marshalled. *)
Definition bor_ProcessHeader {H} (marshalled : option H) : list (string * H) :=
  match marshalled with Some headerBytes => [("sendCheckpointToHeimdall"%string, headerBytes)] | None => [] end.

Section pipeline.
Context {AC : AddressCodec} {BL : BridgeLogs}.
Variables (eventMap : gmap bytes string) (views : nat -> NodeView) (puts : nat -> bool) (connected : bool).

(** The two goroutines of a listener that share its channel: the one that polls, with the
    header it is sending, if any; the one that handles headers, with the header it handles;
    and the state they leave.  The channel has no buffer. *)
Record Pipeline := {
  pl_polling : bool; pl_sending : option blockHeader;
  pl_processing : bool; pl_handling : option blockHeader;
  pl_state : RootState; pl_cancelled : bool;
}.
Definition StartPipeline (st : RootState) : Pipeline :=
  {| pl_polling := true; pl_sending := None; pl_processing := true; pl_handling := None; pl_state := st; pl_cancelled := false |}.

(** What the goroutines do, visibly: a poll that gives a header, and a header handled. *)
Inductive PipelineEvent := Polled (answer latest : HeaderAnswer) | Handled (h : RootHeader) (r : outcome unit).

Inductive pipeline_step : Pipeline -> list PipelineEvent -> Pipeline -> Prop :=
| pipeline_poll answer latest pr hd st c :
    pipeline_step (Build_Pipeline true None pr hd st c) [Polled answer latest]
                  (Build_Pipeline true (poll_header true answer latest) pr hd st c)
| pipeline_receive h st c :
    pipeline_step (Build_Pipeline true (Some h) true None st c) [] (Build_Pipeline true None true (Some h) st c)
| pipeline_handle po sd h st c st' r :
    ProcessHeader eventMap views puts connected st h = (st', r) -> r <> Panic ->
    pipeline_step (Build_Pipeline po sd true (Some (rh_number h, rh_isFinalized h)) st c) [Handled h r]
                  (Build_Pipeline po sd true None st' c)
| pipeline_stop po sd pr hd st :
    pipeline_step (Build_Pipeline po sd pr hd st false) [] (Build_Pipeline po sd pr hd st true)
| pipeline_poll_ends pr hd st :
    pipeline_step (Build_Pipeline true None pr hd st true) [] (Build_Pipeline false None pr hd st true)
| pipeline_process_ends po sd st :
    pipeline_step (Build_Pipeline po sd true None st true) [] (Build_Pipeline po sd false None st true).

Inductive pipeline_run : Pipeline -> list PipelineEvent -> Pipeline -> Prop :=
| pipeline_run_start pl : pipeline_run pl [] pl
| pipeline_run_step pl1 es pl2 e pl3 : pipeline_run pl1 es pl2 -> pipeline_step pl2 e pl3 -> pipeline_run pl1 (es ++ e) pl3.

(** *** The root chain listener

    Its third goroutine heals.  A cycle is run against the answers it gets, which are
    known by the number of the cycle (and, where the validators are served concurrently, by
    the validator). *)
Variables (SHMaxDepthDuration : Z) (validatorSets : nat -> outcome (list Z))
  (stakeWorlds : nat -> Z -> SelfHealWorld) (worlds : nat -> SelfHealWorld).

Definition is_panic {A} (r : outcome A) : bool := match r with Panic => true | _ => false end.
(** The tasks that cycle [n] sends, and whether it then panics, by the ticker that fired. *)
Inductive heal_cycle (n : nat) : list Task -> bool -> Prop :=
| heal_stakeEvents runs sent :
    runs = processStakeEvents eventMap SHMaxDepthDuration (stakeWorlds n) (validatorSets n) ->
    stake_events_sent runs sent -> heal_cycle n sent (existsb (fun run => is_panic run.2) runs)
| heal_stateSynced st r :
    processStateSynced (SW := worlds n) eventMap SHMaxDepthDuration no_calls = (st, r) -> heal_cycle n (sh_tasks st) (is_panic r)
| heal_checkpointAck st r :
    processCheckpointAck (SW := worlds n) no_calls = (st, r) -> heal_cycle n (sh_tasks st) (is_panic r).

(** The goroutine: not running; waiting for a ticker; or in a cycle with these tasks still
    to send.  A cycle that panics ends the process, so nothing follows it. *)
Inductive Healing := HealingOff | HealingIdle | HealingCycle (unsent : list Task) (panics : bool).
Definition startSelfHealing (EnableSH : bool) (SubGraphUrl : string) : Healing :=
  if negb EnableSH || String.eqb SubGraphUrl "" then HealingOff else HealingIdle.

Record RootListener := { rl_pipeline : Pipeline; rl_healing : Healing; rl_cycles : nat }.
Definition StartListener (EnableSH : bool) (SubGraphUrl : string) (st : RootState) : RootListener :=
  {| rl_pipeline := StartPipeline st; rl_healing := startSelfHealing EnableSH SubGraphUrl; rl_cycles := 0 |}.

(** An event of the listener: one of the pipeline, or a task that the healing sends. *)
Inductive listener_step : RootListener -> list (PipelineEvent + Task) -> RootListener -> Prop :=
| listener_pipeline pl es pl' hl n :
    pipeline_step pl es pl' -> listener_step (Build_RootListener pl hl n) (map inl es) (Build_RootListener pl' hl n)
| listener_heals pl n unsent panics :
    heal_cycle n unsent panics ->
    listener_step (Build_RootListener pl HealingIdle n) [] (Build_RootListener pl (HealingCycle unsent panics) (S n))
| listener_sends pl n t unsent panics :
    listener_step (Build_RootListener pl (HealingCycle (t :: unsent) panics) n) [inr t]
                  (Build_RootListener pl (HealingCycle unsent panics) n)
| listener_healed pl n :
    listener_step (Build_RootListener pl (HealingCycle [] false) n) [] (Build_RootListener pl HealingIdle n)
| listener_healing_ends pl n :
    pl_cancelled pl = true -> listener_step (Build_RootListener pl HealingIdle n) [] (Build_RootListener pl HealingOff n).

Inductive listener_run : RootListener -> list (PipelineEvent + Task) -> RootListener -> Prop :=
| listener_run_start rl : listener_run rl [] rl
| listener_run_step rl1 es rl2 e rl3 : listener_run rl1 es rl2 -> listener_step rl2 e rl3 -> listener_run rl1 (es ++ e) rl3.
End pipeline.

(** ** The services *)

(** A service of CometBFT: its state, and where the goroutine that runs it is.  [Start]
    marks the service as started before its [OnStart] runs; [Stop] marks it as stopped and
    runs its [OnStop]; [IsRunning] is started and not stopped. *)
Inductive ServiceStatus := Fresh | Started | Stopped.
Inductive ServiceThread := Starts | InOnStart | Waits | Done.
Record Service := { sv_status : ServiceStatus; sv_thread : ServiceThread }.
Definition new_service : Service := {| sv_status := Fresh; sv_thread := Starts |}.
Definition IsRunning (s : Service) : bool := match sv_status s with Started => true | _ => false end.

(** The shutdown controller: it waits, stops the services one after the other, then the
    client, and runs the cleanup with the result in hand. *)
Inductive ControllerState := Listening | StoppingService (i : nat) | CleaningUp (r : outcome unit) | Returned.
(** The group: its services, its controller, whether its context is cancelled, the first
    error, and what the shutdown has done. *)
Record Group := {
  gr_services : list Service; gr_controller : ControllerState; gr_cancelled : bool; gr_error : option error;
  gr_workerStopped : bool; gr_clientStopped : bool; gr_closed : bool;
}.
Definition runServices_start (n : nat) : Group :=
  {| gr_services := repeat new_service n; gr_controller := Listening; gr_cancelled := false; gr_error := None;
     gr_workerStopped := false; gr_clientStopped := false; gr_closed := false |}.

Definition with_service (g : Group) (i : nat) (s : Service) : Group :=
  {| gr_services := <[i := s]> (gr_services g); gr_controller := gr_controller g; gr_cancelled := gr_cancelled g;
     gr_error := gr_error g; gr_workerStopped := gr_workerStopped g; gr_clientStopped := gr_clientStopped g; gr_closed := gr_closed g |}.
Definition with_controller (g : Group) (c : ControllerState) : Group :=
  {| gr_services := gr_services g; gr_controller := c; gr_cancelled := gr_cancelled g;
     gr_error := gr_error g; gr_workerStopped := gr_workerStopped g; gr_clientStopped := gr_clientStopped g; gr_closed := gr_closed g |}.
(** A goroutine of the group returns: an error cancels the context, the first one is kept. *)
Definition returns (g : Group) (r : outcome unit) : Group :=
  match r with
  | Err e =>
      {| gr_services := gr_services g; gr_controller := gr_controller g; gr_cancelled := true;
         gr_error := match gr_error g with None => Some e | e => e end;
         gr_workerStopped := gr_workerStopped g; gr_clientStopped := gr_clientStopped g; gr_closed := gr_closed g |}
  | _ => g
  end.

(** A step of the goroutine of service [i]; [onStart] is what its [OnStart] answers. *)
Definition service_step (i : nat) (onStart : outcome unit) (g : Group) : option Group :=
  s ← gr_services g !! i;
  match sv_thread s, onStart with
  | Starts, _ => Some (with_service g i {| sv_status := Started; sv_thread := InOnStart |})
  | InOnStart, Err e =>
      let status := match sv_status s with Stopped => Stopped | _ => Fresh end in
      Some (returns (with_service g i {| sv_status := status; sv_thread := Done |}) (Err e))
  | InOnStart, _ => Some (with_service g i {| sv_status := sv_status s; sv_thread := Waits |})
  | Waits, _ =>
      if gr_cancelled g || match sv_status s with Stopped => true | _ => false end
      then Some (with_service g i {| sv_status := sv_status s; sv_thread := Done |}) else None
  | Done, _ => None
  end.

(** A step of the controller: [stopBridge]; [stop] is what the [Stop] at hand answers. *)
Definition stop_service (g : Group) (i : nat) (s : Service) (stop : outcome unit) : Group :=
  if IsRunning s then
    match stop with
    | Err e => with_controller g (CleaningUp (Err e))
    | _ => with_controller (with_service g i {| sv_status := Stopped; sv_thread := sv_thread s |}) (StoppingService (S i))
    end
  else with_controller g (StoppingService (S i)).
Definition stop_client (g : Group) (stop : outcome unit) : Group :=
  {| gr_services := gr_services g; gr_controller := CleaningUp stop; gr_cancelled := gr_cancelled g; gr_error := gr_error g;
     gr_workerStopped := gr_workerStopped g; gr_clientStopped := is_ok stop; gr_closed := gr_closed g |}.
Definition begin_stop (g : Group) : Group :=
  {| gr_services := gr_services g; gr_controller := StoppingService 0; gr_cancelled := gr_cancelled g; gr_error := gr_error g;
     gr_workerStopped := true; gr_clientStopped := gr_clientStopped g; gr_closed := gr_closed g |}.
Definition closeBridgeResources (g : Group) : Group :=
  {| gr_services := gr_services g; gr_controller := Returned; gr_cancelled := gr_cancelled g; gr_error := gr_error g;
     gr_workerStopped := gr_workerStopped g; gr_clientStopped := gr_clientStopped g; gr_closed := true |}.
Definition controller_step (stop : outcome unit) (g : Group) : option Group :=
  match gr_controller g with
  | Listening => if gr_cancelled g then Some (begin_stop g) else None
  | StoppingService i =>
      Some (match gr_services g !! i with Some s => stop_service g i s stop | None => stop_client g stop end)
  | CleaningUp r => Some (returns (closeBridgeResources g) r)
  | Returned => None
  end.
Definition cancel (g : Group) : Group :=
  {| gr_services := gr_services g; gr_controller := gr_controller g; gr_cancelled := true; gr_error := gr_error g;
     gr_workerStopped := gr_workerStopped g; gr_clientStopped := gr_clientStopped g; gr_closed := gr_closed g |}.

Inductive group_step : Group -> Group -> Prop :=
| group_service i onStart g g' : service_step i onStart g = Some g' -> group_step g g'
| group_controller stop g g' : stop <> Panic -> controller_step stop g = Some g' -> group_step g g'
| group_cancel g : gr_cancelled g = false -> group_step g (cancel g).

(** [g.Wait] returns when every goroutine of the group has. *)
Definition finished (g : Group) : Prop := Forall (fun s => sv_thread s = Done) (gr_services g) /\ gr_controller g = Returned.

(** ** The start *)

(** How the wait for the node ends: the context is cancelled at a turn, or the node answers
    whether it catches up ([None]: it does not answer). *)
Inductive SyncTurn := TurnCancelled | TurnStatus (catchingUp : option bool).
Definition IsCatchingUp (status : option bool) : bool := default true status.
(** [None]: it still waits after these turns. *)
Fixpoint waitUntilSynced (turns : list SyncTurn) : option (outcome unit) :=
  match turns with
  | [] => None
  | TurnCancelled :: _ => Some (Err (ErrText "context canceled"))
  | TurnStatus status :: turns => if IsCatchingUp status then waitUntilSynced turns else Some (Ok tt)
  end.
(** The network of the node's status, or an error. *)
Definition resolveChainID (chainID : string) (network : outcome string) : outcome string :=
  if negb (String.eqb chainID "") then Ok chainID
  else
    network ← network;
    return_if String.eqb network "" with ErrText "network is empty in node status" ;;
    Ok network.

(** The resources of [StartWithCtx] until the services run: how it ends ([Ok]: with
    [runServices]), the client that was started and whether it was stopped, and the queue. *)
Record StartState := { ss_client : bool; ss_clientStopped : bool; ss_queue : Connector; ss_service : option ProcessorService }.
(** The deferred cleanup, which runs unless the services were reached. *)
Definition early_return (s : StartState) (r : outcome unit) : StartState * outcome unit :=
  ({| ss_client := ss_client s; ss_clientStopped := ss_client s; ss_queue := StopWorker (ss_queue s); ss_service := ss_service s |}, r).
Definition StartWithCtx (codec client : outcome unit) (chainID : string) (network : outcome string) (turns : list SyncTurn)
    (startAll : bool) (onlyServices : list string) : option (StartState * outcome unit) :=
  let fresh := {| ss_client := false; ss_clientStopped := false; ss_queue := NewConnector; ss_service := None |} in
  match codec, client with
  | Ok _, Ok _ =>
      let s := {| ss_client := true; ss_clientStopped := false; ss_queue := NewConnector; ss_service := None |} in
      match resolveChainID chainID network with
      | Ok _ =>
          turn ← waitUntilSynced turns;
          match turn with
          | Ok _ =>
              match NewProcessorService startAll onlyServices with
              | Ok service =>
                  Some ({| ss_client := true; ss_clientStopped := false; ss_queue := StartWorker NewConnector;
                           ss_service := Some (RegisterTasks service) |}, Ok tt)
              | Err e => Some (early_return s (Err e))
              | Panic => Some (early_return s Panic)
              end
          | r => Some (early_return s r)
          end
      | Err e => Some (early_return s (Err e))
      | Panic => Some (early_return s Panic)
      end
  | Ok _, Err e => Some (fresh, Err e)
  | _, _ => Some (fresh, Panic)
  end.
