(* ===== verification/BridgeCorrect.v ===== *)
(** * Correctness of the running bridge

    Under every interleaving: at most one worker takes tasks, one run of a poll goes at a
    time, the headers of the main chain are handled in the order of the polls, what the root
    chain listener queues is of a settled block or sent by its healing, and the shutdown
    ends and stops the services that had begun before it passed them. *)
From S2P Require Import Prelude Helpers External VoteTypes Numerals Listener ListenerCorrect SelfHeal SelfHealCorrect Bridge.
#[local] Open Scope Z_scope.

(** ** Tasks *)

(** The event of a task that no processor registers. *)
Definition unserved (event : string) : bool := String.eqb event SlashedEvent || String.eqb event UnJailedEvent.

Lemma all_tasks startAll only s : NewProcessorService startAll only = Ok s -> startAll = true ->
  registered (RegisterTasks s) = list_to_set (flat_map processor_tasks
    [CheckpointProcessor; StakingProcessor; ClerkProcessor; FeeProcessor; SpanProcessor]).
Proof. intros E ->. injection E as <-. cbn [registered RegisterTasks registerTasksOnce processors]. by rewrite (left_id_L ∅ (∪)). Qed.

Lemma RegisterTasks_once s : RegisterTasks (RegisterTasks s) = RegisterTasks s.
Proof. unfold RegisterTasks. by destruct (registerTasksOnce s) eqn:E; [rewrite E|]. Qed.

Section tasks.
Context {AC : AddressCodec} {BL : BridgeLogs}.

Lemma staggered_name nv task event extra l t : t ∈ staggered nv task event extra l -> task_name t = task.
Proof.
  unfold staggered. destruct (CalculateTaskDelay nv) as [[] d]; [|by intros ?%not_elem_of_nil].
  by intros ->%list_elem_of_singleton.
Qed.
Lemma at_once_name task event d l t : t ∈ at_once task event d l -> task_name t = task.
Proof. by intros ->%list_elem_of_singleton. Qed.
Lemma of_validator_name nv task event l t : t ∈ of_validator nv task event l -> task_name t = task.
Proof.
  unfold of_validator. destruct (event_ValidatorId event l) as [id|]; [|by intros ?%not_elem_of_nil].
  destruct (IsEventSender nv (u64 id)); [apply at_once_name|apply staggered_name].
Qed.
End tasks.
#[export] Hint Resolve staggered_name at_once_name of_validator_name : task_names.

(** The name of the task of an event. *)
Definition task_for (event : string) : string :=
  if String.eqb event NewHeaderBlockEvent then "sendCheckpointAckToHeimdall"
  else if String.eqb event StakedEvent then "sendValidatorJoinToHeimdall"
  else if String.eqb event StakeUpdateEvent then "sendStakeUpdateToHeimdall"
  else if String.eqb event SignerChangeEvent then "sendSignerChangeToHeimdall"
  else if String.eqb event UnstakeInitEvent then "sendUnstakeInitToHeimdall"
  else if String.eqb event StateSyncedEvent then "sendStateSyncedToHeimdall"
  else if String.eqb event TopUpFeeEvent then "sendTopUpFeeToHeimdall"
  else if String.eqb event SlashedEvent then "sendTickAckToHeimdall"
  else "sendUnjailToHeimdall".

Lemma handleLog_task {AC : AddressCodec} {BL : BridgeLogs} nv l event ts t :
  handleLog nv l event = Ok ts -> t ∈ ts -> task_name t = task_for event /\ event ∈ rootChainEvents.
Proof.
  intros E Ht. unfold handleLog, task_for in *. destruct (log_marshals l); cbn [negb] in E; [|by injection E as <-; apply not_elem_of_nil in Ht].
  repeat (lazymatch type of E with (if String.eqb ?e ?k then _ else _) = _ =>
            destruct (String.eqb_spec e k) as [->|]; [split; [|unfold rootChainEvents; set_solver]|] end).
  all: try (injection E as <-; unfold handleNewHeaderBlockLog, handleStakeUpdateLog, handleUnstakeInitLog, handleUnJailedLog, handleSlashedLog,
      handleStakedLog, handleStateSyncedLog, handleTopUpFeeLog in Ht; repeat case_match; eauto with task_names; by apply not_elem_of_nil in Ht).
  - unfold handleSignerChangeLog in E. repeat case_match; try done; injection E as <-; eauto with task_names. by apply not_elem_of_nil in Ht.
Qed.

(** With all processors, the tasks of the supported events have a handler, but for those
    of a slashing and of an unjailing. *)
Lemma tasks_have_handlers {AC : AddressCodec} {BL : BridgeLogs} only s nv l event ts t :
  NewProcessorService true only = Ok s -> handleLog nv l event = Ok ts -> t ∈ ts ->
  task_name t ∈ registered (RegisterTasks s) <-> unserved event = false.
Proof.
  intros Hs E Ht. destruct (handleLog_task nv l event ts t E Ht) as [-> He]. rewrite (all_tasks _ _ _ Hs eq_refl).
  rewrite elem_of_list_to_set. revert He. clear. intros He.
  assert (forall n : string, n ∈ flat_map processor_tasks [CheckpointProcessor; StakingProcessor; ClerkProcessor; FeeProcessor; SpanProcessor] <->
    bool_decide (n ∈ flat_map processor_tasks [CheckpointProcessor; StakingProcessor; ClerkProcessor; FeeProcessor; SpanProcessor]) = true) as ->
    by (intros n; by rewrite bool_decide_eq_true).
  unfold rootChainEvents in He. rewrite !elem_of_cons in He. repeat destruct He as [->|He]; try by vm_compute. by apply not_elem_of_nil in He.
Qed.

(** ** The worker *)

(** A worker that takes tasks is the current one or is about to be told to quit, the
    current one takes tasks unless its end has not been seen. *)
Record queue_ok (qc : Connector) : Prop := {
  queue_serving : forall w, w ∈ qc_consuming qc -> qc_worker qc = Some w \/ w ∈ qc_quitting qc;
  queue_current : forall w, qc_worker qc = Some w -> w ∈ qc_consuming qc \/ w ∈ qc_reports qc;
  queue_kept : forall w, qc_worker qc = Some w -> w ∉ qc_quitting qc;
  queue_apart : qc_consuming qc ## qc_reports qc;
  queue_numbers : forall w, qc_worker qc = Some w \/ w ∈ qc_quitting qc \/ w ∈ qc_consuming qc \/ w ∈ qc_reports qc -> (w < qc_created qc)%nat;
}.

Lemma queue_ok_new : queue_ok NewConnector.
Proof. split; cbn; set_solver. Qed.

Lemma queue_ok_ended w qc : queue_ok qc -> queue_ok (worker_ended w qc).
Proof.
  intros [H1 H2 H3 H4 H5]. split; cbn.
  - intros v Hv. apply H1. set_solver.
  - intros v Hv. case_bool_decide; destruct (decide (v = w)); subst; destruct (H2 _ Hv); set_solver.
  - done.
  - case_bool_decide; set_solver.
  - intros v Hv. apply H5. case_bool_decide; set_solver.
Qed.

Lemma queue_ok_start qc : queue_ok qc -> queue_ok (StartWorker qc).
Proof.
  intros [H1 H2 H3 H4 H5]. unfold StartWorker. destruct (qc_worker qc) as [w|] eqn:E; [by split; rewrite ?E|].
  assert (forall v, v ∈ qc_quitting qc \/ v ∈ qc_consuming qc \/ v ∈ qc_reports qc -> v <> qc_created qc) as Hn.
  { intros v Hv ->. specialize (H5 (qc_created qc)). lia || (destruct (Nat.lt_irrefl (qc_created qc)); apply H5; tauto). }
  split; cbn.
  - intros v [->%elem_of_singleton|Hv]%elem_of_union; [by left|]. destruct (H1 _ Hv); [done|by right].
  - intros v [= <-]. set_solver.
  - intros v [= <-] Hv. by apply (Hn (qc_created qc)); [left|].
  - set_solver.
  - intros v Hv. destruct (decide (v = qc_created qc)) as [->|Hd]; [lia|]. apply Nat.lt_lt_succ_r, H5. set_solver.
Qed.

Lemma queue_ok_stop qc : queue_ok qc -> queue_ok (StopWorker qc).
Proof.
  intros [H1 H2 H3 H4 H5]. unfold StopWorker. destruct (qc_worker qc) as [w|] eqn:E; [|by split; rewrite ?E].
  split; cbn; try done.
  - intros v Hv. destruct (H1 _ Hv) as [[= ->]|]; set_solver.
  - intros v [Hv|[Hv|Hv]]; [done| |by apply H5; tauto].
    apply elem_of_union in Hv as [->%elem_of_singleton|Hv]; apply H5; tauto.
Qed.

Lemma queue_ok_quit w qc : queue_ok qc -> queue_ok (worker_quit w qc).
Proof.
  intros Hq. destruct (queue_ok_ended w qc Hq) as [H1 H2 H3 H4 H5]. split; cbn in *; try done.
  - intros v Hv. destruct (H1 _ Hv); [by left|]. right. set_solver.
  - intros v Hv. specialize (H3 _ Hv). set_solver.
  - intros v Hv. apply H5. set_solver.
Qed.

Lemma queue_ok_watch w qc : w ∈ qc_reports qc -> queue_ok qc -> queue_ok (watchWorker w qc).
Proof.
  intros Hw [H1 H2 H3 H4 H5]. split; cbn.
  - intros v Hv. case_bool_decide as E; [|by apply H1]. destruct (H1 _ Hv) as [E'|]; [|by right]. set_solver.
  - intros v. case_bool_decide as E; [done|]. intros E'. destruct (H2 _ E'); [by left|]. right. set_solver.
  - intros v. case_bool_decide; [done|apply H3].
  - set_solver.
  - intros v Hv. apply H5. case_bool_decide; set_solver.
Qed.

Lemma queue_reachable qc : rtc queue_step NewConnector qc -> queue_ok qc.
Proof.
  intros Hr. apply (rtc_ind_r (R := queue_step) queue_ok NewConnector); [apply queue_ok_new| |done].
  intros qc1 qc2 _ [] Hq; auto using queue_ok_start, queue_ok_stop, queue_ok_quit, queue_ok_ended, queue_ok_watch.
Qed.

(** ** One run at a time *)

(** The flag is set exactly while a run goes on or has yet to reset it. *)
Definition flight_ok (f : SingleFlight) : Prop := (running f + returning f = if inProgress f then 1 else 0)%nat.

Lemma flight_reachable tick f : tick = poll_no_ack \/ tick = start_propose ->
  rtc (flight_step tick) NewSingleFlight f -> flight_ok f.
Proof.
  intros Htick Hr. apply (rtc_ind_r (R := flight_step tick) flight_ok NewSingleFlight); [done| |done].
  intros f1 f2 _ Hs Hf. unfold flight_ok in *. destruct Hs as [g|g ?|g ?]; cbn.
  - destruct Htick as [-> | ->]; unfold poll_no_ack, start_propose; destruct g as [[] ? ? ? ?]; cbn in *; lia.
  - lia.
  - destruct (inProgress g); lia.
Qed.

(** Every tick of the polling for no-acks starts a run or is counted as skipped. *)
Definition flight_ticks (f : SingleFlight) : Z := u64 (Z.of_nat (started f) + skipCount f).
Lemma no_ack_tick_counted f : flight_ticks (poll_no_ack f) = u64 (flight_ticks f + 1).
Proof.
  unfold flight_ticks, poll_no_ack. destruct (inProgress f); cbn [started skipCount]; unfold u64; rewrite ?Nat2Z.inj_succ.
  - rewrite Zplus_mod_idemp_r, Zplus_mod_idemp_l. f_equal. lia.
  - rewrite Zplus_mod_idemp_l. f_equal. lia.
Qed.

(** ** The polling of the main chain *)

Lemma poll_header_flag finalized answer latest n :
  poll_header finalized answer latest = Some (n, true) -> finalized = true /\ answer = Ok (Some n).
Proof.
  unfold poll_header. destruct answer as [[m|]|e|]; [by intros [= -> ->]|done|..]; destruct finalized; repeat case_match; intros; simplify_eq; done.
Qed.
Lemma poll_header_fallback answer latest n :
  poll_header true answer latest = Some (n, false) -> is_ok answer = false /\ latest = Ok (Some n).
Proof. unfold poll_header. destruct answer as [[m|]|e|]; try done; repeat case_match; intros; simplify_eq; done. Qed.

(** The headers of the polls and those handled, in a run. *)
Definition polled (e : PipelineEvent) : option blockHeader :=
  match e with Polled answer latest => poll_header true answer latest | Handled _ _ => None end.
Definition handled (e : PipelineEvent) : option RootHeader :=
  match e with Handled h _ => Some h | Polled _ _ => None end.
Definition as_polled (h : RootHeader) : blockHeader := (rh_number h, rh_isFinalized h).

Section pipeline.
Context {AC : AddressCodec} {BL : BridgeLogs}.
Variables (eventMap : gmap bytes string) (views : nat -> NodeView) (puts : nat -> bool) (connected : bool).
#[local] Abbreviation pipeline_run := (pipeline_run eventMap views puts connected).
#[local] Abbreviation process_headers := (process_headers eventMap views puts connected).

Lemma process_headers_app st headers h st1 r1 st2 r2 : process_headers st headers = (st1, r1) -> r1 <> Panic ->
  ProcessHeader eventMap views puts connected st1 h = (st2, r2) -> process_headers st (headers ++ [h]) = (st2, r2).
Proof. unfold Listener.process_headers. rewrite foldl_app. intros -> Hr E. cbn. by destruct r1. Qed.

(** The headers in the hands of the goroutines. *)
Definition in_flight (pl : Pipeline) : list blockHeader := option_list (pl_handling pl) ++ option_list (pl_sending pl).

Lemma pipeline_in_order st0 es pl : pipeline_run (StartPipeline st0) es pl ->
  map as_polled (omap handled es) ++ in_flight pl = omap polled es /\
  exists r, process_headers st0 (omap handled es) = (pl_state pl, r) /\ r <> Panic.
Proof.
  intros Hr. remember (StartPipeline st0) as pl0 eqn:E0. induction Hr as [|pl1 es pl2 e pl3 Hr IH Hs]; subst.
  { split; [done|]. by exists (Ok tt). }
  destruct (IH eq_refl) as (Ho & r & Hp & Hrp). clear IH. rewrite !omap_app, map_app.
  destruct Hs as [answer latest pr hd st c|h st c|po sd h st c st' r' E Hr'|po sd pr hd st|pr hd st|po sd st];
    cbn [omap list_omap handled polled map app pl_state in_flight pl_handling pl_sending option_list] in *; rewrite ?app_nil_r in *.
  - rewrite <- Ho. split; [|by exists r]. unfold in_flight. cbn. rewrite ?app_nil_r. rewrite <- app_assoc. f_equal.
  - split; [by rewrite <- Ho|by exists r].
  - rewrite <- Ho, <- app_assoc. split; [done|]. exists r'. split; [|done]. by eapply process_headers_app.
  - split; [by rewrite <- Ho|by exists r].
  - split; [by rewrite <- Ho|by exists r].
  - split; [by rewrite <- Ho|by exists r].
Qed.

(** *** Settled blocks *)

Variable logs_in : Z -> list Log.
Hypothesis filter_complete : forall n a b l, FilterLogs n a b = Ok l -> l = flat_map logs_in (seqZ a (b - a + 1)).
Hypothesis filter_answers : forall n a b, FilterLogs n a b <> Panic.
Hypothesis has_key : forall n, nv_pubKey (views n) <> [].

Lemma elem_of_events a b p : p ∈ events_of eventMap logs_in a b -> exists block, block <= b /\ p.1 ∈ logs_in block.
Proof.
  unfold events_of. rewrite list_elem_of_omap. intros (l & Hl & Hs). destruct (selected eventMap l); [|done].
  injection Hs as <-. rewrite list_elem_of_In, in_flat_map in Hl. destruct Hl as (block & Hb & Hl).
  apply list_elem_of_In in Hb, Hl. apply elem_of_seqZ in Hb. exists block. cbn. split; [lia|done].
Qed.

(** A header adds events of blocks that are final for it. *)
Definition adds_final (h : RootHeader) (st st' : RootState) : Prop :=
  rs_handled st' = rs_handled st \/
  exists conf a k, rh_params h = Some conf /\ k <= final_block h conf /\ rs_handled st' = rs_handled st ++ events_of eventMap logs_in a k.

Lemma chunks_add_final h conf st from st' r : rh_params h = Some conf -> tasks_ok views st -> from <= final_block h conf ->
  process_chunks eventMap views puts connected (Z.to_nat (final_block h conf - from + 1)) st from (final_block h conf) = (st', r) ->
  adds_final h st st' /\ tasks_ok views st'.
Proof.
  intros Hp Ht Hf E.
  destruct (chunks_spec eventMap views puts connected logs_in filter_complete filter_answers has_key
              (Z.to_nat (final_block h conf - from + 1)) st from (final_block h conf) Ht ltac:(lia)) as (st1 & r1 & k & m & E1 & Hc & Hk & _).
  rewrite E in E1. injection E1 as <- <-. destruct Hc as [R H _ _ T]. split; [|done]. right. exists conf, from, k. split; [done|].
  split; [lia|done].
Qed.

Lemma header_adds_final st h st' r : tasks_ok views st -> ProcessHeader eventMap views puts connected st h = (st', r) ->
  adds_final h st st' /\ tasks_ok views st'.
Proof.
  intros Ht. unfold ProcessHeader. destruct (rh_params h) as [conf|] eqn:Hp; [|by intros [= <- <-]; split; [left|]].
  destruct (_ && _); [by intros [= <- <-]; split; [left|]|]. fold (final_block h conf).
  assert (forall from : Z, (if final_block h conf <? from then final_block h conf else from) <= final_block h conf) as Hle.
  { intros from. destruct (Z.ltb_spec (final_block h conf) from); lia. }
  destruct (rh_read h), (rs_db st !! lastRootBlockKey) as [c|]; repeat case_match;
    first [by intros [= <- <-]; split; [left|]|intros E; revert E; apply chunks_add_final; auto; by apply Hle|idtac].
  all: try (intros E; revert E; apply chunks_add_final; auto; lia).
Qed.

Lemma headers_add_final headers : forall st st' r, tasks_ok views st -> process_headers st headers = (st', r) -> r <> Panic ->
  tasks_ok views st' /\ forall p, p ∈ rs_handled st' -> p ∈ rs_handled st \/
    exists h conf block, h ∈ headers /\ rh_params h = Some conf /\ block <= final_block h conf /\ p.1 ∈ logs_in block.
Proof.
  induction headers as [|h headers IH] using rev_ind; intros st st' r Ht E Hr.
  { injection E as <- <-. split; [done|]. by left. }
  unfold Listener.process_headers in E. rewrite foldl_app in E. cbn in E.
  destruct (foldl _ (st, Ok tt) headers) as [st1 r1] eqn:E1. assert (r1 <> Panic) as Hr1 by (intros ->; by injection E as <- <-).
  destruct (IH st st1 r1 Ht E1 Hr1) as [Ht1 Hp1].
  assert (ProcessHeader eventMap views puts connected st1 h = (st', r)) as E' by by destruct r1.
  destruct (header_adds_final st1 h st' r Ht1 E') as [Ha Ht']. split; [done|]. intros p Hp.
  assert (p ∈ rs_handled st1 \/ exists conf block, rh_params h = Some conf /\ block <= final_block h conf /\ p.1 ∈ logs_in block)
    as [Hp0|(conf & block & Hb)].
  { destruct Ha as [Ha|(conf & a & k & Hc & Hk & Ha)]; rewrite Ha in Hp; [by left|]. apply elem_of_app in Hp as [Hp|Hp]; [by left|].
    apply elem_of_events in Hp as (block & Hb & Hl). right. exists conf, block. split; [done|]. split; [lia|done]. }
  - destruct (Hp1 p Hp0) as [Hp'|(h' & conf & block & Hh & Hx)]; [by left|]. right. exists h', conf, block.
    split; [|done]. apply elem_of_app. by left.
  - right. exists h, conf, block. split; [|done]. apply elem_of_app. right. by left.
Qed.
End pipeline.

(** A block is settled for a poll: up to the finalized block it was answered, or, when it
    was answered an error, [confirmations] below the latest one. *)
Definition settled (answer latest : HeaderAnswer) (confirmations block : Z) : Prop :=
  match answer with
  | Ok (Some number) => block <= number
  | Ok None => False
  | _ => exists number, latest = Ok (Some number) /\ block <= number - confirmations
  end.

Lemma final_is_settled answer latest h conf block : poll_header true answer latest = Some (as_polled h) ->
  block <= final_block h conf -> settled answer latest conf block.
Proof.
  unfold as_polled, final_block. destruct (rh_isFinalized h).
  - intros [_ ->]%poll_header_flag Hb. exact Hb.
  - intros [Ha Hl]%poll_header_fallback Hb. unfold settled. destruct answer; [done|..]; by eexists.
Qed.

(** *** The healing *)

Section events.
Context {AC : AddressCodec} {BL : BridgeLogs}.
Definition of_pipeline (e : PipelineEvent + Task) : option PipelineEvent := match e with inl e => Some e | inr _ => None end.
Definition replayed_task (e : PipelineEvent + Task) : option Task := match e with inl _ => None | inr t => Some t end.

Lemma omap_of_pipeline es : omap of_pipeline (map inl es) = es.
Proof. induction es; by f_equal/=. Qed.
Lemma omap_replayed_task es : omap replayed_task (map inl es) = [].
Proof. by induction es. Qed.
End events.

Lemma interleaving_elem {A} (runs : list (list A)) l x : interleaving runs l -> x ∈ l -> exists run, run ∈ runs /\ x ∈ run.
Proof.
  induction 1 as [|before y r after l _ IH]; [by intros ?%not_elem_of_nil|]. intros [->|Hx]%elem_of_cons.
  - exists (y :: r). split; [set_solver|by left].
  - destruct (IH Hx) as (run & Hr & Hxr). apply elem_of_app in Hr as [Hr|[->|Hr]%elem_of_cons];
      [exists run; set_solver|exists (y :: r); set_solver|exists run; set_solver].
Qed.

Lemma elem_of_tasks_from {AC : AddressCodec} {BL : BridgeLogs} views n l t : t ∈ tasks_from views n l ->
  exists k log event ts, l !! k = Some (log, event) /\ handleLog (views (n + k)%nat) log event = Ok ts /\ t ∈ ts.
Proof.
  revert n. induction l as [|[log event] l IH]; intros n; cbn [tasks_from]; [by intros ?%not_elem_of_nil|]. intros [Ht|Ht]%elem_of_app.
  - cbn in Ht. destruct (handleLog _ _ _) as [ts| |] eqn:E; [|by apply not_elem_of_nil in Ht..].
    exists 0%nat, log, event, ts. by rewrite Nat.add_0_r.
  - destruct (IH _ Ht) as (k & log' & event' & ts & Hk & E & H). exists (S k), log', event', ts. by rewrite Nat.add_succ_r.
Qed.

Section listener.
Context {AC : AddressCodec} {BL : BridgeLogs}.
Variables (eventMap : gmap bytes string) (views : nat -> NodeView) (puts : nat -> bool) (connected : bool)
  (SHMaxDepthDuration : Z) (validatorSets : nat -> outcome (list Z))
  (stakeWorlds : nat -> Z -> SelfHealWorld) (worlds : nat -> SelfHealWorld).
#[local] Abbreviation listener_run :=
  (listener_run eventMap views puts connected SHMaxDepthDuration validatorSets stakeWorlds worlds).

(** A task that cycle [n] sends: of a stake event of a validator, of a state-sync event, or
    the acknowledgement of the buffered checkpoint. *)
Definition healed (n : nat) (t : Task) : Prop :=
  (exists ids id, validatorSets n = Ok ids /\ id ∈ ids /\ healed_stake (SW := stakeWorlds n id) eventMap SHMaxDepthDuration id t) \/
  healed_state (SW := worlds n) eventMap SHMaxDepthDuration t \/
  healed_ack (SW := worlds n) t.

Lemma sends_from_none {A} {SW : SelfHealWorld} P (m : SH A) st r t : sends_only P m -> m no_calls = (st, r) -> t ∈ sh_tasks st -> P t.
Proof. intros Hm E Ht. destruct (Hm no_calls) as (ts & Ets & F). rewrite E in Ets. cbn in Ets. subst. by eapply Forall_forall in F. Qed.

Lemma heal_cycle_healed n sent panics t :
  heal_cycle eventMap SHMaxDepthDuration validatorSets stakeWorlds worlds n sent panics -> t ∈ sent -> healed n t.
Proof.
  intros [runs sent' -> Hs|st r E|st r E] Ht.
  - left. destruct (interleaving_elem _ _ _ Hs Ht) as (run & Hr & Htr). unfold processStakeEvents in Hr.
    destruct (validatorSets n) as [ids| |]; [|by apply not_elem_of_nil in Hr..]. rewrite map_map in Hr.
    apply list_elem_of_fmap in Hr as (id & -> & Hid). exists ids, id. do 2 (split; [done|]).
    destruct (recoverStakeEventsForValidator (SW := stakeWorlds n id) _ _ id no_calls) as [st r] eqn:E.
    eapply (sends_from_none (SW := stakeWorlds n id)); [apply recover_sends|exact E|done].
  - right. left. eapply (sends_from_none (SW := worlds n)); [apply processStateSynced_sends|exact E|done].
  - right. right. apply (self_healed_ack_is_buffered (SW := worlds n)) in E as [E|(l & U & E)]; rewrite E in Ht;
      [by apply not_elem_of_nil in Ht|]. by exists l.
Qed.

(** The tasks a cycle has yet to send. *)
Definition unsent_tasks (h : Healing) : list Task := match h with HealingCycle unsent _ => unsent | _ => [] end.

Lemma listener_runs EnableSH SubGraphUrl st0 es rl : listener_run (StartListener EnableSH SubGraphUrl st0) es rl ->
  pipeline_run eventMap views puts connected (StartPipeline st0) (omap of_pipeline es) (rl_pipeline rl) /\
  (rl_healing rl <> HealingOff -> EnableSH = true /\ SubGraphUrl <> "") /\
  forall t, t ∈ omap replayed_task es ++ unsent_tasks (rl_healing rl) ->
    EnableSH = true /\ SubGraphUrl <> "" /\ exists n, (n < rl_cycles rl)%nat /\ healed n t.
Proof.
  intros Hr. remember (StartListener EnableSH SubGraphUrl st0) as rl0 eqn:E0. induction Hr as [|rl1 es rl2 e rl3 Hr IH Hs]; subst.
  { split; [constructor|]. unfold StartListener, startSelfHealing. cbn. destruct EnableSH; cbn; [|split; [done|by intros t ?%not_elem_of_nil]].
    destruct (String.eqb_spec SubGraphUrl ""); cbn; (split; [done|by intros t ?%not_elem_of_nil]). }
  destruct (IH eq_refl) as (Hp & Hon & Ht). clear IH. rewrite !omap_app.
  destruct Hs as [pl e pl' hl n Hs|pl n unsent panics Hc|pl n t unsent panics|pl n|pl n Hc];
    cbn [rl_pipeline rl_healing rl_cycles omap list_omap of_pipeline replayed_task] in *; rewrite ?app_nil_r in *.
  - rewrite omap_of_pipeline, omap_replayed_task, app_nil_r. split; [by eapply pipeline_run_step|done].
  - split; [done|]. destruct Hon as [H1 H2]; [done|]. split; [done|]. intros t [H|H]%elem_of_app.
    + destruct (Ht t H) as (_ & _ & k & Hk & Hh). do 2 (split; [done|]). exists k. split; [lia|done].
    + do 2 (split; [done|]). exists n. split; [lia|]. by eapply heal_cycle_healed.
  - split; [done|]. split; [by intros _; apply Hon|]. intros t' H. apply Ht. cbn [unsent_tasks] in *. rewrite <- app_assoc in H. done.
  - split; [done|]. split; [by intros _; apply Hon|]. intros t H. by apply Ht.
  - split; [done|]. split; [done|]. intros t H. apply Ht. done.
Qed.
End listener.

(** ** The shutdown *)

(** What is left to do: the steps of each goroutine, of the controller, and the
    cancellation. *)
Definition thread_work (s : Service) : Z := match sv_thread s with Starts => 3 | InOnStart => 2 | Waits => 1 | Done => 0 end.
Definition controller_work (n : nat) (c : ControllerState) : Z :=
  match c with
  | Listening => Z.of_nat n + 3
  | StoppingService i => Z.of_nat (n - i) + 2
  | CleaningUp _ => 1
  | Returned => 0
  end.
Definition work (g : Group) : Z :=
  Zsum (map thread_work (gr_services g)) + controller_work (length (gr_services g)) (gr_controller g) + (if gr_cancelled g then 0 else 1).

Lemma thread_work_nonneg l : 0 <= Zsum (map thread_work l).
Proof. apply Zsum_nonneg, Forall_map, Forall_true. intros [? []]; cbn; lia. Qed.
Lemma controller_work_nonneg n c : 0 <= controller_work n c.
Proof. destruct c; cbn; lia. Qed.
Lemma work_nonneg g : 0 <= work g.
Proof.
  unfold work. pose proof (thread_work_nonneg (gr_services g)).
  pose proof (controller_work_nonneg (length (gr_services g)) (gr_controller g)). destruct (gr_cancelled g); lia.
Qed.

Lemma work_service g i s s' : gr_services g !! i = Some s -> work (with_service g i s') = work g - thread_work s + thread_work s'.
Proof. intros E. unfold work. cbn. rewrite (Zsum_insert thread_work _ _ _ _ E), length_insert. lia. Qed.
Lemma work_returns g r : work (returns g r) <= work g.
Proof.
  destruct r; [done| |done]. unfold work. cbn [returns gr_services gr_controller gr_cancelled].
  destruct (gr_cancelled g); lia.
Qed.
Lemma work_controller g c : work (with_controller g c) =
  work g - controller_work (length (gr_services g)) (gr_controller g) + controller_work (length (gr_services g)) c.
Proof. unfold work. cbn [with_controller gr_services gr_controller gr_cancelled]. lia. Qed.

Lemma service_step_works i onStart g g' : service_step i onStart g = Some g' -> work g' < work g.
Proof.
  unfold service_step. destruct (gr_services g !! i) as [s|] eqn:E; [|done]. cbn [mbind option_bind].
  destruct (sv_thread s) eqn:Et, onStart; intros Eg; repeat case_match; simplify_eq;
    try (lazymatch goal with |- work (returns _ _) < _ => eapply Z.le_lt_trans; [apply work_returns|] end); rewrite (work_service _ _ _ _ E); unfold thread_work; rewrite Et; cbn; lia.
Qed.
Lemma controller_step_works stop g g' : controller_step stop g = Some g' -> work g' < work g.
Proof.
  unfold controller_step. destruct (gr_controller g) as [|i|r|] eqn:Ec; intros Eg; repeat case_match; simplify_eq.
  - unfold work. cbn [begin_stop gr_services gr_controller gr_cancelled]. rewrite Ec. cbn [controller_work]. lia.
  - assert (i < length (gr_services g))%nat as Hi by (by eapply lookup_lt_Some).
    unfold stop_service. repeat case_match; rewrite work_controller; cbn [gr_services gr_controller with_service]; rewrite ?length_insert, ?Ec;
      try (erewrite work_service by done; unfold thread_work; cbn [sv_thread]); cbn [controller_work]; lia.
  - unfold work. cbn [stop_client gr_services gr_controller gr_cancelled]. rewrite Ec. cbn [controller_work]. lia.
  - eapply Z.le_lt_trans; [apply work_returns|]. unfold work. cbn [closeBridgeResources gr_services gr_controller gr_cancelled]. rewrite Ec. cbn [controller_work]. lia.
Qed.
Lemma group_step_works g g' : group_step g g' -> work g' < work g.
Proof.
  intros [i onStart g1 g2 E|stop g1 g2 _ E|g1 E]; eauto using service_step_works, controller_step_works.
  unfold work. cbn [cancel gr_services gr_controller gr_cancelled]. rewrite E. lia.
Qed.
Lemma group_runs_end k : forall g g', nsteps group_step k g g' -> Z.of_nat k <= work g.
Proof.
  induction k as [|k IH]; intros g g' Hk; [pose proof (work_nonneg g); lia|].
  inversion Hk as [|? ? g1 ? Hs Hn]; subst. apply IH in Hn. apply group_step_works in Hs. lia.
Qed.
Lemma work_start n : work (runServices_start n) = 4 * Z.of_nat n + 4.
Proof.
  unfold work. cbn [runServices_start gr_services gr_controller gr_cancelled controller_work]. rewrite repeat_length. enough (Zsum (map thread_work (repeat new_service n)) = 3 * Z.of_nat n) by lia.
  induction n as [|n IH]; [done|]. cbn [repeat map]. rewrite Zsum_cons, IH. unfold thread_work. cbn [new_service sv_thread]. lia.
Qed.

(** A cancelled group that is not finished can go on. *)
Lemma group_progress g : gr_cancelled g = true -> (forall g', ~ group_step g g') -> finished g.
Proof.
  intros Hc Hn. split.
  - apply Forall_lookup. intros i s Hi. destruct (sv_thread s) eqn:Et; [..|done]; exfalso;
      (eapply Hn, (group_service i (Ok tt)); unfold service_step; rewrite Hi; cbn [mbind option_bind]; rewrite Et, ?Hc; reflexivity).
  - destruct (gr_controller g) eqn:Ec; [..|done]; exfalso; (eapply Hn, (group_controller (Ok tt)); [done|]; unfold controller_step; rewrite Ec, ?Hc; reflexivity).
Qed.

(** *** What the shutdown leaves *)

Definition begun (s : Service) : Prop := sv_thread s <> Starts.
Definition at_rest (s : Service) : Prop := IsRunning s = false.
(** The controller has left service [i] behind. *)
Definition passed (i : nat) (c : ControllerState) : Prop :=
  match c with Listening => False | StoppingService j => (i < j)%nat | _ => True end.

(** Service [i] began before the controller passed it. *)
Definition will_rest (i : nat) (g : Group) : Prop := exists s, gr_services g !! i = Some s /\ begun s /\
  match gr_controller g with
  | Listening | CleaningUp (Err _) => True
  | StoppingService j => (i < j)%nat -> at_rest s
  | CleaningUp (Ok _) => at_rest s
  | CleaningUp Panic => False
  | Returned => gr_error g = None -> at_rest s
  end.
(** It had not: it runs, or has yet to begin, unless something failed. *)
Definition runs_on (i : nat) (g : Group) : Prop := exists s, gr_services g !! i = Some s /\ passed i (gr_controller g) /\
  (sv_thread s = Starts \/ IsRunning s = true \/ gr_error g <> None).
(** The client was stopped with the answer that the cleanup has in hand. *)
Definition client_down (g : Group) : Prop :=
  match gr_controller g with
  | CleaningUp (Ok _) => gr_clientStopped g = true
  | CleaningUp Panic => False
  | Returned => gr_error g = None -> gr_clientStopped g = true
  | _ => True
  end.

Lemma returns_services g r : gr_services (returns g r) = gr_services g.
Proof. by destruct r. Qed.
Lemma returns_controller g r : gr_controller (returns g r) = gr_controller g.
Proof. by destruct r. Qed.
Lemma returns_client g r : gr_clientStopped (returns g r) = gr_clientStopped g.
Proof. by destruct r. Qed.
Lemma returns_error g r : gr_error (returns g r) = None -> gr_error g = None.
Proof. destruct r; [done| |done]. cbn. by destruct (gr_error g). Qed.
Lemma returns_failed g e : gr_error (returns g (Err e)) <> None.
Proof. cbn. by destruct (gr_error g). Qed.
Lemma returns_keeps_failed g r : gr_error g <> None -> gr_error (returns g r) <> None.
Proof. intros H E. by apply returns_error in E. Qed.

(** The step of a service: its own state changes, and an error it returns is kept. *)
Lemma service_step_shape k onStart g g' : service_step k onStart g = Some g' ->
  exists s s' r, gr_services g !! k = Some s /\ g' = returns (with_service g k s') r /\ begun s' /\
    (at_rest s -> begun s -> at_rest s') /\ (at_rest s' -> at_rest s /\ begun s \/ exists e, r = Err e).
Proof.
  unfold service_step, begun, at_rest, IsRunning. destruct (gr_services g !! k) as [[status thread]|] eqn:E; [|done]. cbn [mbind option_bind sv_thread sv_status].
  destruct thread, onStart as [[]|e|]; intros Eg; try destruct status; try destruct (gr_cancelled g); try done; apply (inj Some) in Eg as <-.
  all: eexists _, _; lazymatch goal with |- context [returns _ (Err ?e)] => exists (Err e) | |- _ => exists (Ok tt) end;
    (split; [done|]); (split; [reflexivity|]); cbn; naive_solver.
Qed.

Lemma with_service_other g k s i : i <> k -> gr_services (with_service g k s) !! i = gr_services g !! i.
Proof. intros Hn. cbn. by rewrite list_lookup_insert_ne. Qed.
Lemma with_service_this g k s s0 : gr_services g !! k = Some s0 -> gr_services (with_service g k s) !! k = Some s.
Proof. intros E. cbn. rewrite list_lookup_insert_eq; [done|by eapply lookup_lt_Some]. Qed.

Lemma service_keeps_client k onStart g g' : service_step k onStart g = Some g' -> client_down g -> client_down g'.
Proof.
  intros (s & s' & r & _ & -> & _)%service_step_shape Hc. unfold client_down in *. rewrite returns_controller, returns_client. cbn.
  destruct (gr_controller g) as [|j|[]|]; try done. intros H%returns_error. by apply Hc.
Qed.
Lemma service_keeps_rest i k onStart g g' : service_step k onStart g = Some g' -> will_rest i g -> will_rest i g'.
Proof.
  intros (s & s' & r & E & -> & Hb & Hr & _)%service_step_shape (t & Et & Hbt & Hc). unfold will_rest. rewrite returns_services, returns_controller.
  assert (exists t', gr_services (with_service g k s') !! i = Some t' /\ begun t' /\ (at_rest t -> at_rest t')) as (t' & Et' & Hb' & Hr').
  { destruct (decide (i = k)) as [->|]; [|exists t; by rewrite with_service_other].
    exists s'. split; [by eapply with_service_this|]. split; [done|]. intros Ht. apply Hr; congruence. }
  exists t'. split; [done|]. split; [done|]. cbn [with_service gr_controller].
  destruct (gr_controller g) as [|j|[]|]; try done; try (by auto). intros H%returns_error. auto.
Qed.
Lemma service_keeps_running i k onStart g g' : service_step k onStart g = Some g' -> runs_on i g -> runs_on i g'.
Proof.
  intros (s & s' & r & E & -> & Hb & _ & Hr)%service_step_shape (t & Et & Hp & Hc). unfold runs_on. rewrite returns_services, returns_controller.
  destruct (decide (i = k)) as [->|Hn].
  - exists s'. split; [by eapply with_service_this|]. split; [done|]. destruct (IsRunning s') eqn:Es; [by right; left|].
    destruct (Hr Es) as [[H1 H2]|[e ->]]; [|right; right; apply returns_failed]. rewrite Et in E. injection E as ->. unfold at_rest in H1.
    destruct Hc as [Hc|[Hc|Hc]]; [done|congruence|right; right; by apply returns_keeps_failed].
  - exists t. rewrite with_service_other by done. split; [done|]. split; [done|].
    destruct Hc as [|[|]]; [by left|by right; left|right; right; by apply returns_keeps_failed].
Qed.

(** The controller, past service [i] or not. *)
Lemma controller_keeps_client stop g g' : stop <> Panic -> controller_step stop g = Some g' -> client_down g -> client_down g'.
Proof.
  intros Hs. unfold controller_step, client_down. destruct (gr_controller g) as [|k|r|] eqn:Ec; intros E Hc; [| | |done].
  - destruct (gr_cancelled g); [|done]. by injection E as <-.
  - injection E as <-. destruct (gr_services g !! k) as [s|]; [unfold stop_service; repeat case_match; cbn in *; simplify_eq; done|].
    cbn. by destruct stop.
  - injection E as <-. rewrite returns_controller, returns_client. cbn. destruct r as [|e|]; [done| |done]. intros H. by apply returns_failed in H.
Qed.
Lemma controller_keeps_rest i stop g g' : stop <> Panic -> controller_step stop g = Some g' -> will_rest i g -> will_rest i g'.
Proof.
  intros Hs. unfold controller_step. intros E (t & Et & Hb & Hc). destruct (gr_controller g) as [|k|r|] eqn:Ec; [| | |done].
  - destruct (gr_cancelled g); [|done]. injection E as <-. exists t. split; [done|]. split; [done|]. cbn. lia.
  - injection E as <-. destruct (gr_services g !! k) as [s|] eqn:Ek.
    + unfold stop_service. destruct (IsRunning s) eqn:Er.
      * destruct stop; [|by exists t|done]. destruct (decide (i = k)) as [->|Hn].
        -- eexists. split; [by eapply with_service_this|]. rewrite Et in Ek. injection Ek as ->. by split.
        -- exists t. cbn [with_controller gr_services]. rewrite with_service_other by done. split; [done|]. split; [done|]. cbn. intros. apply Hc. lia.
      * exists t. split; [done|]. split; [done|]. cbn. intros Hi. destruct (decide (i = k)) as [->|]; [|apply Hc; lia]. unfold at_rest. congruence.
    + exists t. split; [done|]. split; [done|]. cbn. apply lookup_ge_None in Ek. apply lookup_lt_Some in Et as Hi.
      destruct stop; [|done..]. apply Hc. lia.
  - injection E as <-. exists t. rewrite returns_services, returns_controller. split; [done|]. split; [done|].
    cbn [closeBridgeResources gr_controller]. destruct r as [|e|]; [done| |done]. intros H. by apply returns_failed in H.
Qed.
Lemma controller_keeps_running i stop g g' : controller_step stop g = Some g' -> runs_on i g -> runs_on i g'.
Proof.
  unfold controller_step. intros E (t & Et & Hp & Hc). destruct (gr_controller g) as [|k|r|] eqn:Ec; [done| | |done].
  - injection E as <-. cbn in Hp. destruct (gr_services g !! k) as [s|] eqn:Ek.
    + unfold stop_service. destruct (IsRunning s); [destruct stop|].
      1, 3: exists t; cbn [with_controller gr_services]; rewrite with_service_other by lia; cbn; split_and!; (done || lia).
      all: exists t; cbn; split_and!; (done || lia).
    + by exists t.
  - injection E as <-. exists t. rewrite returns_services, returns_controller. split; [done|]. split; [done|].
    destruct Hc as [|[|]]; [by left|by right; left|right; right; by apply returns_keeps_failed].
Qed.

Lemma group_keeps (P : Group -> Prop) :
  (forall k onStart g g', service_step k onStart g = Some g' -> P g -> P g') ->
  (forall stop g g', stop <> Panic -> controller_step stop g = Some g' -> P g -> P g') ->
  (forall g, P g -> P (cancel g)) ->
  forall g g', rtc group_step g g' -> P g -> P g'.
Proof. intros H1 H2 H3 g g'. induction 1 as [|g1 g2 g3 Hs _ IH]; [done|]. intros Hp. apply IH. destruct Hs; eauto. Qed.
Lemma group_keeps_client g g' : rtc group_step g g' -> client_down g -> client_down g'.
Proof. apply group_keeps; eauto using service_keeps_client, controller_keeps_client. Qed.
Lemma group_keeps_rest i g g' : rtc group_step g g' -> will_rest i g -> will_rest i g'.
Proof. apply group_keeps; eauto using service_keeps_rest, controller_keeps_rest. Qed.
Lemma group_keeps_running i g g' : rtc group_step g g' -> runs_on i g -> runs_on i g'.
Proof. apply group_keeps; eauto using service_keeps_running, controller_keeps_running. Qed.

Lemma group_keeps_services g g' : rtc group_step g g' -> length (gr_services g') = length (gr_services g).
Proof.
  intros Hr. apply (group_keeps (fun g' => length (gr_services g') = length (gr_services g))) with g; [| |done..].
  - intros k onStart g1 g2 (s & s' & r & _ & -> & _)%service_step_shape <-. rewrite returns_services. apply length_insert.
  - intros stop g1 g2 _ E <-. unfold controller_step, stop_service in E. repeat case_match; simplify_eq; rewrite ?returns_services; cbn;
      rewrite ?length_insert; done.
Qed.

(** The controller has stopped the worker and, when it has returned, closed the rest. *)
Definition controlled (g : Group) : Prop :=
  match gr_controller g with
  | Listening => True
  | Returned => gr_workerStopped g = true /\ gr_closed g = true
  | _ => gr_workerStopped g = true
  end.
Lemma controlled_returns g r : controlled g -> controlled (returns g r).
Proof. by destruct r. Qed.
Lemma group_controlled n g : rtc group_step (runServices_start n) g -> controlled g.
Proof.
  intros Hr. apply (rtc_ind_r (R := group_step) controlled (runServices_start n)); [done| |done].
  intros g1 g2 _ [i onStart g3 g4 E|stop g3 g4 _ E|g3 _] Hg; [| |done].
  - unfold service_step in E. destruct (gr_services g3 !! i) as [s|]; [|done]. cbn [mbind option_bind] in E.
    destruct (sv_thread s), onStart; repeat case_match; try done; apply (inj Some) in E as <-; try apply controlled_returns; exact Hg.
  - unfold controller_step in E. unfold controlled in Hg. destruct (gr_controller g3) as [|k|r|]; repeat case_match; try done;
      apply (inj Some) in E as <-; try apply controlled_returns; unfold controlled; cbn; try done.
    unfold stop_service. repeat case_match; done.
Qed.

(** A service that starts after the controller has passed it runs on: with its context
    cancelled at once, the group returns without an error, and the service still runs. *)
Lemma late_service_runs_on : exists g, rtc group_step (runServices_start 1) g /\ finished g /\ gr_error g = None /\
  gr_closed g = true /\ map IsRunning (gr_services g) = [true].
Proof.
  eexists. split.
  - eapply rtc_l; [by apply group_cancel|]. do 4 (eapply rtc_l; [by apply (group_controller (Ok tt))|]).
    do 3 (eapply rtc_l; [by apply (group_service 0 (Ok tt))|]). apply rtc_refl.
  - split; [split; [by repeat constructor|done]|]. done.
Qed.

(** ** The start *)

(** A start that does not reach the services leaves nothing running; one that does has
    the tasks registered and a worker that takes them. *)
Lemma start_leaves_nothing codec client chainID network turns startAll only s r :
  StartWithCtx codec client chainID network turns startAll only = Some (s, r) ->
  if is_ok r then exists service, ss_service s = Some service /\ processors service <> [] /\
      list_to_set (flat_map processor_tasks (processors service)) ⊆ registered service /\
      ss_clientStopped s = false /\ qc_worker (ss_queue s) = Some 0%nat /\ qc_consuming (ss_queue s) = {[ 0%nat ]}
  else ss_clientStopped s = ss_client s /\ qc_worker (ss_queue s) = None /\ qc_consuming (ss_queue s) = ∅ /\ ss_service s = None.
Proof.
  unfold StartWithCtx. destruct codec, client; try (by intros [= <- <-]). destruct (resolveChainID chainID network); try (by intros [= <- <-]).
  destruct (waitUntilSynced turns) as [[[]|e|]|]; try (by intros [= <- <-]). cbn [mbind option_bind].
  unfold NewProcessorService. set (ps := if startAll then _ else _). destruct (Nat.eqb_spec (length ps) 0) as [|Hp]; cbn; intros [= <- <-]; [done|].
  eexists. split; [done|]. cbn. split; [by destruct ps|]. rewrite (left_id_L ∅ (∪)), (right_id_L ∅ (∪)). split; [set_solver|done].
Qed.

(** ** Properties *)

(** C37: what the root chain listener queues is settled or healed.  Whatever its polling,
    its handling, its healing and its stopping interleave, the headers are handled one at
    a time in the order in which the polls gave them, and every event that was handled is
    of a block that lies, by a poll before, at or below the finalized block of the main
    chain, or, if the poll was answered an error, the required confirmations below the
    latest one.  Every task of the queue is of such an event, or was sent by a cycle of the
    healing, which is enabled then.  A healed task asks for no finality: a stake event or a
    state-sync event was located by the subgraph and its block was, when the cycle looked,
    older than [SHMaxDepthDuration]; an acknowledgement is for the last header block the
    subgraph names, whose checkpoint is the one heimdall holds in the buffer. *)
Theorem queued_tasks_are_settled_or_healed {AC : AddressCodec} {BL : BridgeLogs} eventMap views puts connected
    SHMaxDepthDuration validatorSets (stakeWorlds : nat -> Z -> SelfHealWorld) (worlds : nat -> SelfHealWorld) logs_in
    EnableSH SubGraphUrl (st0 : RootState) es rl queue :
  (forall n a b l, FilterLogs n a b = Ok l -> l = flat_map logs_in (seqZ a (b - a + 1))) ->
  (forall n a b, FilterLogs n a b <> Panic) -> (forall n, nv_pubKey (views n) <> []) ->
  rs_handled st0 = [] -> rs_tasks st0 = [] ->
  listener_run eventMap views puts connected SHMaxDepthDuration validatorSets stakeWorlds worlds
    (StartListener EnableSH SubGraphUrl st0) es rl ->
  let st := pl_state (rl_pipeline rl) in
  let events := omap of_pipeline es in
  interleaving [rs_tasks st; omap replayed_task es] queue ->
  map as_polled (omap handled events) `prefix_of` omap polled events /\
  (exists r, process_headers eventMap views puts connected st0 (omap handled events) = (st, r)) /\
  rs_tasks st = tasks_from views 0 (rs_handled st) /\
  (forall l event, (l, event) ∈ rs_handled st ->
    exists answer latest h r conf block, Polled answer latest ∈ events /\ Handled h r ∈ events /\
      poll_header true answer latest = Some (as_polled h) /\ rh_params h = Some conf /\
      l ∈ logs_in block /\ settled answer latest conf block) /\
  forall t, t ∈ queue ->
    (exists k l event ts, rs_handled st !! k = Some (l, event) /\ handleLog (views k) l event = Ok ts /\ t ∈ ts) \/
    (EnableSH = true /\ SubGraphUrl <> ""%string /\
     exists n, (n < rl_cycles rl)%nat /\ healed eventMap SHMaxDepthDuration validatorSets stakeWorlds worlds n t).
Proof.
  intros HF HP HK Hh0 Ht0 Hl st events Hq.
  destruct (listener_runs _ _ _ _ _ _ _ _ _ _ _ _ _ Hl) as (Hr & _ & Hheal). fold events in Hr.
  destruct (pipeline_in_order _ _ _ _ _ _ _ Hr) as (Ho & r & Hp & Hrp). fold st in Hp.
  assert (tasks_ok views st0) as Ht by (unfold tasks_ok; by rewrite Hh0).
  destruct (headers_add_final eventMap views puts connected logs_in HF HP HK _ _ _ _ Ht Hp Hrp) as [Ht' Hall].
  split; [by exists (in_flight (rl_pipeline rl))|]. split; [by exists r|]. split; [done|]. split; [intros l event He|intros t Htq].
  - destruct (Hall _ He) as [Hin|(h & conf & block & Hh & Hc & Hb & Hlb)]; [rewrite Hh0 in Hin; by apply not_elem_of_nil in Hin|].
    assert (as_polled h ∈ omap polled events) as Hpoll by (rewrite <- Ho; apply elem_of_app; left; by apply list_elem_of_fmap_2).
    apply list_elem_of_omap in Hpoll as ([answer latest|] & Hpl & Hpe); [|done].
    apply list_elem_of_omap in Hh as ([|h' r'] & He' & Hh'); [done|]. injection Hh' as ->.
    exists answer, latest, h, r', conf, block. do 5 (split; [done|]). by eapply final_is_settled.
  - destruct (interleaving_elem _ _ _ Hq Htq) as (run & [->|[->|[]%not_elem_of_nil]%elem_of_cons]%elem_of_cons & Htr).
    + left. rewrite Ht' in Htr. apply elem_of_tasks_from in Htr as (k & l & event & ts & Hk & E & H). by exists k, l, event, ts.
    + right. apply Hheal. apply elem_of_app. by left.
Qed.

(** C38: the shutdown of the bridge ends, and stops the services that had begun.  Of [n]
    services, whatever their starts and their stops answer and however the goroutines
    interleave: every run ends within a bound; once the context is cancelled, a group that
    cannot go on has finished; whenever it has, the worker of the queue is stopped and the
    databases and clients are closed.  If it finishes without an error the client is
    stopped, and a service that had begun to start before the controller passed it does not
    run; but one that had not begun when the controller passed it does, then: the shutdown
    leaves it running. *)
Theorem bridge_shuts_down n g : rtc group_step (runServices_start n) g ->
  (forall k g', nsteps group_step k (runServices_start n) g' -> Z.of_nat k <= 4 * Z.of_nat n + 4) /\
  (gr_cancelled g = true -> (forall g', ~ group_step g g') -> finished g) /\
  (finished g -> gr_workerStopped g = true /\ gr_closed g = true) /\
  forall g', rtc group_step g g' -> finished g' -> gr_error g' = None ->
    gr_clientStopped g' = true /\
    forall i s, gr_services g !! i = Some s -> exists s', gr_services g' !! i = Some s' /\
      (begun s -> ~ passed i (gr_controller g) -> IsRunning s' = false) /\
      (~ begun s -> passed i (gr_controller g) -> IsRunning s' = true).
Proof.
  intros Hr. split; [|split; [apply group_progress|split]].
  - intros k g' Hk. rewrite <- work_start. by eapply group_runs_end.
  - intros [_ Hc]. pose proof (group_controlled n g Hr) as H. unfold controlled in H. by rewrite Hc in H.
  - intros g' Hr' [Hd Hc] He. split.
    { assert (client_down g') as H by (eapply (group_keeps_client (runServices_start n)); [by etrans|done]). unfold client_down in H. rewrite Hc in H. auto. }
    intros i s Hi. assert (is_Some (gr_services g' !! i)) as [s' Hs'] by
      (apply lookup_lt_is_Some; rewrite (group_keeps_services g g' Hr'); by eapply lookup_lt_Some). exists s'. split; [done|]. split.
    + intros Hb Hp. destruct (group_keeps_rest i g g' Hr') as (t & Et & _ & H).
      { exists s. split; [done|]. split; [done|]. destruct (gr_controller g) as [|j|[]|]; try done; by destruct Hp. }
      rewrite Hc in H. rewrite Hs' in Et. injection Et as ->. by apply H.
    + intros Hb Hp. destruct (group_keeps_running i g g' Hr') as (t & Et & _ & H).
      { exists s. split; [done|]. split; [done|]. left. unfold begun in Hb. destruct (sv_thread s); [done|exfalso; by apply Hb..]. }
      rewrite Hs' in Et. injection Et as ->. destruct H as [H|[H|H]]; [|done|done]. rewrite Forall_lookup in Hd. apply Hd in Hs'. congruence.
Qed.

(** One worker takes tasks.  Whatever starts, stops, ends and watches of workers
    interleave, a worker that takes tasks is the current one or one that a stop is about to
    tell to quit; the watcher of a worker that ended never drops another; and when no end
    is left to be seen, the current worker does take tasks. *)
Theorem queue_has_one_worker qc : rtc queue_step NewConnector qc ->
  (forall w, w ∈ qc_consuming qc -> qc_worker qc = Some w \/ w ∈ qc_quitting qc) /\
  (forall w v, w ∈ qc_reports qc -> qc_worker qc = Some v -> v <> w -> qc_worker (watchWorker w qc) = Some v) /\
  (qc_reports qc = ∅ -> forall w, qc_worker qc = Some w -> w ∈ qc_consuming qc).
Proof.
  intros [H1 H2 _ _ _]%queue_reachable. split; [done|]. split.
  - intros w v _ E Hn. unfold watchWorker. cbn. rewrite E, bool_decide_eq_false_2; congruence.
  - intros He w E. destruct (H2 w E) as [|H]; [done|]. rewrite He in H. by apply not_elem_of_empty in H.
Qed.

(** One no-ack check and one proposal of a span run at a time, whatever ticks and ends of runs
    interleave; while none runs the flag is free, so that the next tick starts one. *)
Theorem one_run_at_a_time tick f : tick = poll_no_ack \/ tick = start_propose -> rtc (flight_step tick) NewSingleFlight f ->
  (running f <= 1)%nat /\ (running f = 0%nat -> returning f = 0%nat -> running (tick f) = 1%nat).
Proof.
  intros Ht Hr. pose proof (flight_reachable tick f Ht Hr) as Hf. unfold flight_ok in Hf.
  split; [destruct (inProgress f); lia|]. intros Hn Hm. destruct (inProgress f) eqn:E; [lia|].
  destruct Ht as [-> | ->]; unfold poll_no_ack, start_propose; rewrite E; cbn; lia.
Qed.

(** ** Runs *)
Module BridgeDemo.
Import ListenerDemo.

(** The controller passes the first service before it begins; the second has begun. *)
Lemma bridge_shuts_down_witness :
  let passing := {| gr_services := [new_service; {| sv_status := Started; sv_thread := Waits |}];
                    gr_controller := StoppingService 1; gr_cancelled := true; gr_error := None;
                    gr_workerStopped := true; gr_clientStopped := false; gr_closed := false |} in
  exists g, rtc group_step (runServices_start 2) passing /\ rtc group_step passing g /\ finished g /\ gr_error g = None /\
    gr_clientStopped g = true /\ (exists s, gr_services g !! 0%nat = Some s /\ IsRunning s = true) /\
    exists s, gr_services g !! 1%nat = Some s /\ IsRunning s = false.
Proof.
  intros passing.
  assert (rtc group_step (runServices_start 2) passing) as Hr.
  { do 2 (eapply rtc_l; [by apply (group_service 1 (Ok tt))|]). eapply rtc_l; [by apply group_cancel|].
    do 2 (eapply rtc_l; [by apply (group_controller (Ok tt))|]). apply rtc_refl. }
  set (g := {| gr_services := [{| sv_status := Started; sv_thread := Done |}; {| sv_status := Stopped; sv_thread := Done |}];
               gr_controller := Returned; gr_cancelled := true; gr_error := None;
               gr_workerStopped := true; gr_clientStopped := true; gr_closed := true |}).
  assert (rtc group_step passing g) as Hd.
  { do 3 (eapply rtc_l; [by apply (group_service 0 (Ok tt))|]). do 3 (eapply rtc_l; [by apply (group_controller (Ok tt))|]).
    eapply rtc_l; [by apply (group_service 1 (Ok tt))|]. apply rtc_refl. }
  exists g. split; [exact Hr|]. split; [exact Hd|]. split; [by repeat constructor|]. split; [reflexivity|].
  destruct (bridge_shuts_down 2 passing Hr) as (_ & _ & _ & Hx).
  destruct (Hx g Hd ltac:(by repeat constructor) eq_refl) as [Hc Hs]. split; [exact Hc|]. split.
  - destruct (Hs 0%nat _ eq_refl) as (s & Es & _ & H). exists s. split; [exact Es|]. apply H; [intros []; reflexivity|cbn; lia].
  - destruct (Hs 1%nat _ eq_refl) as (s & Es & H & _). exists s. split; [exact Es|]. apply H; [discriminate|cbn; lia].
Defined.

(** The queue, restarted before the watcher of the first worker has run. *)
Lemma queue_has_one_worker_witness :
  let qc := worker_quit 0 (StartWorker (StopWorker (StartWorker NewConnector))) in
  0%nat ∈ qc_reports qc /\ qc_worker (watchWorker 0 qc) = Some 1%nat.
Proof.
  intros qc. assert (rtc queue_step NewConnector qc) as Hr.
  { eapply rtc_l; [apply queue_start|]. eapply rtc_l; [apply queue_stop|]. eapply rtc_l; [apply queue_start|].
    eapply rtc_l; [apply (queue_quit 0); by vm_compute|]. apply rtc_refl. }
  destruct (queue_has_one_worker qc Hr) as (_ & Hw & _). assert (0%nat ∈ qc_reports qc) as H0 by (vm_compute; done).
  split; [exact H0|]. by apply Hw.
Defined.

Lemma one_run_at_a_time_witness :
  let f := poll_no_ack (run_returns (poll_no_ack NewSingleFlight)) in
  (running f <= 1)%nat /\ skipCount f = 1.
Proof.
  intros f. assert (rtc (flight_step poll_no_ack) NewSingleFlight f) as Hr.
  { eapply rtc_l; [apply flight_tick|]. eapply rtc_l; [apply flight_returns; cbn; lia|]. eapply rtc_l; [apply flight_tick|]. apply rtc_refl. }
  destruct (one_run_at_a_time poll_no_ack f (or_introl eq_refl) Hr) as [H _]. by split.
Defined.

(** What the healing asks: the subgraph names the header block of checkpoint 2, which is in
    heimdall's buffer, in a transaction with log 9. *)
Definition demo_world (n : nat) : SelfHealWorld := {|
  w_stateSynceds n q := Err (ErrText "timeout");
  w_newHeaderBlocks n := Ok {| NewHeaderBlocks := [{| nhb_HeaderBlockId := "20000"; nhb_LogIndex := "9"; nhb_TransactionHash := "0x0a" |}];
                               nhb_Errors := [] |};
  w_maxNonce n id := Err (ErrText "timeout"); w_stakeEvent n id nonce := Err (ErrText "timeout");
  w_TransactionReceipt n hash := Ok (Some {| rcp_Status := 1; rcp_Logs := [8; 9] |}); w_BlockTime n block := Err (ErrText "timeout");
  w_now n := 0; w_LastStateId n := Err (ErrText "timeout"); w_stakingInfo n := Err (ErrText "timeout");
  w_childBlockInterval n := Ok 10000; w_ackCount n := Ok 1; w_bufferedCheckpointId n := Ok 2; w_validatorNonce n id := Err (ErrText "timeout");
  w_record n i := false; w_running n := true; w_view n := demo_view n;
  log_Index l := l; log_Address l := []; log_BlockNumber l := l; unset_big _ := 0 |}.
Definition demo_ack : Task := {| task_name := "sendCheckpointAckToHeimdall"; task_event := NewHeaderBlockEvent; task_log := 9; task_delay := 0 |}.

(** A header is polled while the main chain does not answer for its finalized block, and
    handled; a cycle of the healing sends the acknowledgement in between; the next header
    waits in the hands of the poller. *)
Definition demo_run : list (PipelineEvent + Task) :=
  [inl (Polled (Err (ErrText "not found")) (Ok (Some 17))); inl (Polled (Ok (Some 12)) (Err (ErrText "not asked"))); inr demo_ack;
   inl (Handled (demo_header 17 false ReadFine) (Ok tt))].
Definition demo_listener_run : RootListener -> list (PipelineEvent + Task) -> RootListener -> Prop :=
  listener_run demo_events demo_view (fun _ => true) true 1000 (fun _ => Err (ErrText "timeout")) (fun n _ => demo_world n) demo_world.
Definition demo_end (st : RootState) : RootListener :=
  Build_RootListener (Build_Pipeline true (Some (12, true)) true None st false) (HealingCycle [] false) 1.

Lemma demo_runs st : ProcessHeader demo_events demo_view (fun _ => true) true demo_start (demo_header 17 false ReadFine) = (st, Ok tt) ->
  demo_listener_run (StartListener true "https://graph" demo_start) demo_run (demo_end st).
Proof.
  intros E. change demo_run with (((((([] ++ map inl [Polled (Err (ErrText "not found")) (Ok (Some 17))]) ++ map inl [])
      ++ map inl [Polled (Ok (Some 12)) (Err (ErrText "not asked"))]) ++ []) ++ [inr demo_ack])
      ++ map inl [Handled (demo_header 17 false ReadFine) (Ok tt)]).
  eapply listener_run_step; [|by apply listener_pipeline, (pipeline_handle _ _ _ _ _ _ (demo_header 17 false ReadFine) _ _ _ _ E)].
  eapply listener_run_step; [|by apply listener_sends].
  eapply listener_run_step; [|apply listener_heals; destruct (processCheckpointAck (SW := demo_world 0) no_calls) as [sh r] eqn:Es;
    assert (sh_tasks sh = [demo_ack] /\ is_panic r = false) as [<- <-] by (vm_compute in Es; by injection Es as <- <-);
    by eapply heal_checkpointAck].
  do 3 (eapply listener_run_step; [|apply listener_pipeline; constructor]). apply listener_run_start.
Qed.

Lemma queued_tasks_are_settled_or_healed_witness :
  let st := (ProcessHeader demo_events demo_view (fun _ => true) true demo_start (demo_header 17 false ReadFine)).1 in
  demo_listener_run (StartListener true "https://graph" demo_start) demo_run (demo_end st) /\
  rs_handled st = [(11, StateSyncedEvent)] /\ settled (Err (ErrText "not found")) (Ok (Some 17)) 6 11 /\
  (exists conf block, 11 ∈ demo_logs_in block /\ block <= 17 - conf) /\
  exists n, healed demo_events 1000 (fun _ => Err (ErrText "timeout")) (fun n _ => demo_world n) demo_world n demo_ack.
Proof.
  intros st.
  assert (ProcessHeader demo_events demo_view (fun _ => true) true demo_start (demo_header 17 false ReadFine) = (st, Ok tt)) as E
    by (vm_compute; reflexivity).
  assert (rs_handled st = [(11, StateSyncedEvent)]) as Hst by (vm_compute; reflexivity).
  pose proof (demo_runs st E) as Hr. split; [exact Hr|]. split; [exact Hst|]. split; [exists 17; split; [reflexivity|lia]|].
  destruct (queued_tasks_are_settled_or_healed (BL := demo_logs) demo_events demo_view (fun _ => true) true 1000 (fun _ => Err (ErrText "timeout"))
    (fun n _ => demo_world n) demo_world demo_logs_in true "https://graph" demo_start demo_run (demo_end st) (rs_tasks st ++ [demo_ack]))
    as (_ & _ & _ & Hx & Hq).
  - intros n a b l. cbn. destruct (1 <? b - a); [done|]. by intros [= <-].
  - intros n a b. cbn. by destruct (1 <? b - a).
  - done.
  - reflexivity.
  - reflexivity.
  - exact Hr.
  - cbn [rl_pipeline demo_end pl_state]. destruct (rs_tasks st) as [|t []] eqn:Et; [vm_compute in Et; discriminate Et| |vm_compute in Et; discriminate Et].
    apply (interleaving_cons [] t [] [[demo_ack]]), (interleaving_cons [[]] demo_ack [] []), interleaving_nil. by repeat constructor.
  - cbn [rl_pipeline demo_end pl_state] in Hx, Hq. rewrite Hst in Hx.
    destruct (Hx 11 StateSyncedEvent ltac:(by left)) as (a & l & h & r & conf & block & _ & Hh & _ & Hc & Hb & _). split.
    + exists conf, block. split; [exact Hb|]. cbn in Hh.
      repeat (apply elem_of_cons in Hh as [Hh|Hh]; [try discriminate Hh|]); [|by apply not_elem_of_nil in Hh].
      injection Hh as -> _. injection Hc as <-. apply list_elem_of_singleton in Hb as <-. lia.
    + destruct (Hq demo_ack) as [(k & l' & event & ts & Hk & Ehl & Hts)|(_ & _ & n & _ & Hn)]; [apply elem_of_app; right; by left| |by exists n].
      rewrite Hst in Hk. destruct k as [|k]; [|done]. injection Hk as <- <-. vm_compute in Ehl. injection Ehl as <-. apply list_elem_of_singleton in Hts. discriminate Hts.
Defined.

(** A poller that holds a header when the handling has stopped waits for ever. *)
Lemma stopped_poller_is_stuck h st e pl :
  ~ pipeline_step demo_events demo_view (fun _ => true) true (Build_Pipeline true (Some h) false None st true) e pl.
Proof. intros H. inversion H. Qed.
End BridgeDemo.
