(* ===== verification/Queries.v ===== *)
(** * The queries of the modules

    Models the query servers of the stake, checkpoint, topup, bor and milestone
    modules ([x/<module>/keeper/grpc_query.go]) with the proofs of dividend accounts
    ([types/dividend_account.go]).  A request is [None] when it is nil; the status
    codes of the errors are left out.  The pages of a collection are the SDK's; the
    queries of the clerk are with that module. *)
From S2P Require Import Prelude SortedList Helpers External VoteTypes ValidatorSet StakeKeeper StakeHandlers Numerals Dividend Topup Checkpoint Clerk Milestone BorTypes Selection BorKeeper.
#[local] Open Scope Z_scope.

Definition errEmptyRequest : error := ErrText "empty request".
Definition internal : error := ErrText "internal".
Definition not_found : error := ErrText "not found".

(** ** Stake *)
Section stake.
Context {AC : AddressCodec} {RS : ReceiptSource} (IsHexAddress : string -> bool).

Definition GetCurrentValidatorSet (s : StakeState) : outcome ValidatorSet := or_err (GetValidatorSet s) internal.
Definition GetSignerByAddress (s : StakeState) (request : option string) : outcome Validator :=
  address ← of_option errEmptyRequest request;
  return_if negb (IsHexAddress address) with ErrText "invalid validator address" ;;
  or_err (StringToBytes address) (ErrText "invalid validator address") ≫= fun _ =>
  or_err (GetValidatorInfo s address) not_found.
Definition GetValidatorById (s : StakeState) (request : option Z) : outcome Validator :=
  id ← of_option errEmptyRequest request;
  return_if id <=? 0 with ErrText "invalid validator id" ;;
  or_err (GetValidatorFromValID s id) not_found.
Definition GetValidatorStatusByAddress (s : StakeState) (ackCount : Z) (request : option string) : outcome bool :=
  address ← of_option errEmptyRequest request;
  or_err (StringToBytes address) (ErrText "invalid validator address") ≫= fun _ =>
  IsCurrentValidatorByAddress s ackCount address.
Definition GetTotalPower_query (s : StakeState) : outcome Z := GetTotalPower s.

(** The sequence of the log of a confirmed transaction. *)
Definition log_sequence (params : option ChainManagerParams) (txHash : string) (logIndex : Z) : outcome string :=
  params ← of_option internal params;
  receipt ← of_option (ErrText "receipt not found") (GetConfirmedTxReceipt (HexToHash txHash) (MainChainTxConfirmations params));
  Ok (CalculateSequence (ReceiptBlockNumber receipt) logIndex).
Definition IsStakeTxOld (params : option ChainManagerParams) (s : StakeState) (request : option (string * Z)) : outcome bool :=
  '(txHash, logIndex) ← of_option errEmptyRequest request;
  return_if negb (IsTxHashNonEmpty txHash) with ErrText "invalid tx hash" ;;
  return_if MaxInt64 <=? logIndex with ErrText "invalid log index" ;;
  sequence ← log_sequence params txHash logIndex;
  Ok (HasStakingSequence s sequence).

(** The proposers of the next [n] turns; the set is a copy of the stored one. *)
Fixpoint next_proposers (n : nat) (vs : ValidatorSet) : outcome (list Validator) :=
  match n with
  | O => Ok []
  | S n =>
      '(p, vs) ← GetProposer vs;
      p ← must p;
      vs ← IncrementProposerPriority vs 1;
      rest ← next_proposers n vs;
      Ok (p :: rest)
  end.
Definition GetProposersByTimes (s : StakeState) (request : option Z) : outcome (list Validator) :=
  times ← of_option errEmptyRequest request;
  return_if MaxInt64 <=? times with ErrText "times exceeds MaxInt64" ;;
  return_if times =? 0 with ErrText "times is 0" ;;
  vs ← or_err (GetValidatorSet s) internal;
  next_proposers (Nat.min (Z.to_nat times) (length (Validators vs))) vs.
Definition GetCurrentProposer_query (s : StakeState) : outcome Validator :=
  p ← GetCurrentProposer s; of_option (ErrText "current proposer not found") p.
End stake.

(** ** Pages of a collection *)

Section pages.
(** [CollectionPaginate] of the SDK, on the values in the order of their keys. *)
Context (paginate : forall A, list A -> PageRequest -> outcome (list A * option bytes)).

Definition page_of {A} (limit : Z) (values : list A) (request : option PageRequest) : outcome (list A * option bytes) :=
  pagination ← of_option errEmptyRequest request;
  return_if isPaginationEmpty pagination with ErrText "pagination request is empty" ;;
  return_if (Limit pagination =? 0) || (limit <? Limit pagination) with ErrText "invalid limit" ;;
  or_err (paginate A values pagination) (ErrText "error in pagination").
Definition MaxCheckpointListLimit : Z := 10000.
Definition MaxSpanListLimit : Z := 1000.
Definition GetCheckpointList (s : CheckpointState) : option PageRequest -> outcome (list Checkpoint * option bytes) :=
  page_of MaxCheckpointListLimit (GetCheckpoints s).
Definition GetSpanList (s : BorState) : option PageRequest -> outcome (list Span * option bytes) :=
  page_of MaxSpanListLimit (GetAllSpans s).
End pages.

(** ** Checkpoint *)
Section checkpoint.
Context {AC : AddressCodec} {HF : HashFunction} {ML : MerkleLibrary} {BN : BorNode}.

Definition GetCheckpointParams_query (s : CheckpointState) : outcome CheckpointParams := or_err (GetCheckpointParams s) internal.
Definition GetAckCount_query (s : CheckpointState) : Z := GetAckCount s.
Definition GetCheckpoint (s : CheckpointState) (number : Z) : outcome Checkpoint := or_err (GetCheckpointByNumber s number) internal.
Definition GetCheckpointLatest (s : CheckpointState) : outcome Checkpoint := or_err (GetLastCheckpoint s) internal.
Definition GetCheckpointBuffer (s : CheckpointState) : Checkpoint := GetCheckpointFromBuffer s.
Definition GetLastNoAck_query (s : CheckpointState) : Z := GetLastNoAck s.

Definition GetNextCheckpoint (params : option ChainManagerParams) (ss : StakeState) (ts : TopupState) (s : CheckpointState)
    : outcome MsgCheckpoint :=
  chainParams ← of_option internal params;
  validatorSet ← or_err (GetValidatorSet ss) internal;
  r ← GetProposer validatorSet;
  proposer ← of_option (ErrText "could not get proposer from validator set") r.1;
  let ackCount := GetAckCount s in
  params ← or_err (GetCheckpointParams s) internal;
  start ← (if ackCount =? 0 then Ok 0
           else lastCheckpoint ← or_err (GetCheckpointByNumber s ackCount) internal; Ok (u64 (cp_EndBlock lastCheckpoint + 1)));
  let endBlockNumber := u64 (start + AvgCheckpointLength params) in
  rootHash ← or_err (GetRootHash start endBlockNumber (MaxCheckpointLength params)) internal;
  accRootHash ← or_err (GetAccountRootHash (GetAllDividendAccounts ts)) internal;
  Ok {| mc_Proposer := Signer proposer; mc_StartBlock := start; mc_EndBlock := endBlockNumber; mc_RootHash := rootHash;
        mc_AccountRootHash := accRootHash; mc_BorChainId := BorChainId chainParams |}.

(** What the overview shows: the ack count, the last no-ack, the buffer and the set. *)
Definition GetCheckpointOverview (ss : StakeState) (s : CheckpointState) : outcome (Z * Z * Checkpoint * Z * ValidatorSet) :=
  validatorSet ← or_err (GetValidatorSet ss) internal;
  Ok (GetAckCount s, GetLastNoAck s, GetCheckpointFromBuffer s, Z.of_nat (length (Validators validatorSet)), validatorSet).
Definition GetCheckpointSignatures_query (s : CheckpointState) (request : option string) : outcome (list CheckpointSignature) :=
  requested ← of_option errEmptyRequest request;
  return_if negb (IsTxHashNonEmpty requested) with ErrText "invalid tx hash" ;;
  txHash ← or_err (GetCheckpointSignaturesTxHash s) internal;
  return_if negb (String.eqb requested txHash) with ErrText "checkpoint signatures not set for the given tx hash" ;;
  signatures ← or_err (GetCheckpointSignatures s) internal;
  return_if (length signatures =? 0)%nat with ErrText "checkpoint signatures not set" ;;
  Ok signatures.
End checkpoint.

(** ** Topup *)

(** [GetMerklePath] on the leaf with an index: the hashes along its branch. *)
Class MerklePaths := { merkle_path : list bytes -> nat -> list bytes }.
(** The account state root of the staking contract at an address: whether it can be
    bound, and what it answers. *)
Class StakingInfoRoots := { GetStakingInfoInstance : string -> bool; CurrentAccountStateRoot : string -> outcome bytes }.

Section proofs.
Context {AC : AddressCodec} {HF : HashFunction} {ML : MerkleLibrary} {MP : MerklePaths}.

(** [strings.EqualFold] on the texts of addresses. *)
Definition EqualFold (a b : string) : bool :=
  bool_decide (map ascii_to_lower (list_ascii_of_string a) = map ascii_to_lower (list_ascii_of_string b)).
(** The last account with the address and its position, the empty account and 0 when
    there is none; then the first leaf with the same user. *)
Fixpoint find_account (userAddr : string) (i : Z) (l : list DividendAccount) (found : DividendAccount * Z) : DividendAccount * Z :=
  match l with
  | [] => found
  | da :: rest => find_account userAddr (i + 1) rest (if EqualFold (User da) userAddr then (da, i) else found)
  end.
Fixpoint leaf_of (user : string) (i : nat) (l : list DividendAccount) : option nat :=
  match l with
  | [] => None
  | da :: rest => if String.eqb (User da) user then Some i else leaf_of user (S i) rest
  end.
Definition GetAccountProof (dividendAccounts : list DividendAccount) (userAddr : string) : outcome (bytes * Z) :=
  dividendAccounts ← SortDividendAccountByAddress dividendAccounts;
  let '(account, index) := find_account userAddr 0 dividendAccounts ({| User := ""; FeeAmount := "" |}, 0) in
  hs ← leaf_hashes dividendAccounts;
  of_option (ErrText "cannot construct tree with no content") (merkle_root hs) ≫= fun _ =>
  Ok (AppendBytes32 (match leaf_of (User account) 0 dividendAccounts with Some i => merkle_path hs i | None => [] end), index).
Definition VerifyAccountProof (dividendAccounts : list DividendAccount) (userAddr proofToVerify : string) : outcome bool :=
  match GetAccountProof dividendAccounts userAddr with
  | Ok (proof, _) => Ok (bool_decide (FromHex proofToVerify = proof))
  | Err _ => Ok false
  | Panic => Panic
  end.

Definition MaxProofLength : nat := 1024.
Definition ValidateProof (proof : string) : outcome unit :=
  let proofBytes := FromHex proof in
  return_if (length proofBytes =? 0)%nat with ErrText "proof is empty or invalid hex" ;;
  return_if negb (length proofBytes mod 32 =? 0)%nat with ErrText "proof length must be a multiple of 32 bytes" ;;
  return_if (MaxProofLength <? length proofBytes)%nat with ErrText "proof exceeds maximum allowed size" ;;
  Ok tt.
End proofs.

Section topup.
Context {AC : AddressCodec} {HF : HashFunction} {ML : MerkleLibrary} {MP : MerklePaths} {RS : ReceiptSource} {SR : StakingInfoRoots}.
Context (IsHexAddress : string -> bool).

Definition topup_sequence (params : option ChainManagerParams) (request : option (string * Z)) : outcome string :=
  '(txHash, logIndex) ← of_option errEmptyRequest request;
  return_if negb (IsTxHashNonEmpty txHash) with ErrText "invalid tx hash" ;;
  log_sequence params txHash logIndex.
Definition GetTopupTxSequence (params : option ChainManagerParams) (s : TopupState) (request : option (string * Z)) : outcome string :=
  sequence ← topup_sequence params request;
  return_if negb (HasTopupSequence s sequence) with not_found ;; Ok sequence.
Definition IsTopupTxOld (params : option ChainManagerParams) (s : TopupState) (request : option (string * Z)) : outcome bool :=
  sequence ← topup_sequence params request; Ok (HasTopupSequence s sequence).
Definition GetDividendAccountByAddress (s : TopupState) (request : option string) : outcome DividendAccount :=
  address ← of_option errEmptyRequest request;
  return_if negb (IsHexAddress address) with ErrText "invalid address" ;;
  return_if negb (HasDividendAccount s address) with not_found ;;
  or_err (GetDividendAccount s address) internal.
Definition GetDividendAccountRootHash (s : TopupState) : outcome bytes :=
  accountRoot ← or_err (GetAccountRootHash (GetAllDividendAccounts s)) internal;
  return_if (length accountRoot =? 0)%nat with ErrText "account root not found" ;; Ok accountRoot.
Definition VerifyAccountProofByAddress (s : TopupState) (request : option (string * string)) : outcome bool :=
  '(address, proof) ← of_option errEmptyRequest request;
  return_if negb (IsHexAddress address) with ErrText "invalid address" ;;
  or_err (ValidateProof proof) (ErrText "invalid proof") ≫= fun _ =>
  or_err (VerifyAccountProof (GetAllDividendAccounts s) address proof) internal.
Definition GetAccountProofByAddress (params : option ChainManagerParams) (s : TopupState) (request : option string)
    : outcome (string * bytes * Z) :=
  address ← of_option errEmptyRequest request;
  return_if negb (IsHexAddress address) with ErrText "invalid address" ;;
  params ← of_option internal params;
  return_if negb (GetStakingInfoInstance (StakingInfoAddress params)) with internal ;;
  accountRootOnChain ← or_err (CurrentAccountStateRoot (StakingInfoAddress params)) internal;
  currentStateAccountRoot ← or_err (GetAccountRootHash (GetAllDividendAccounts s)) internal;
  return_if negb (bool_decide (accountRootOnChain = currentStateAccountRoot))
    with ErrText "accountRootOnChain does not match with currentStateAccountRoot" ;;
  r ← or_err (GetAccountProof (GetAllDividendAccounts s) address) internal;
  Ok (address, r.1, r.2).
End topup.

(** ** Bor *)
Section bor.
Context {K : Type} {SK : StakeKeeperI K} {BC : BorChain} {EA : EthAddress} {RSrc : RandSource}.

Definition GetLatestSpan (s : BorState) : outcome Span := or_err (GetLastSpan s) internal.
(** [fuel] bounds the walk for the seed and the random draws. *)
Definition GetNextSpan (cfg : Config) (fuel : nat) (sk : K) (s : BorState) (request : option (Z * Z * string)) : outcome Span :=
  '(spanId, startBlock, borChainId) ← of_option errEmptyRequest request;
  lastSpan ← or_err (GetLastSpan s) internal;
  return_if negb (spanId =? u64 (span_Id lastSpan + 1)) with ErrText "invalid span id" ;;
  return_if negb (startBlock =? u64 (span_EndBlock lastSpan + 1)) with ErrText "invalid start block while getting next span" ;;
  return_if negb (String.eqb borChainId (span_BorChainId lastSpan)) with ErrText "invalid chain id" ;;
  params ← or_err (FetchParams s) internal;
  validatorSet ← or_err (sk_GetValidatorSet sk) internal;
  r ← or_err (FetchNextSpanSeed fuel s spanId) internal;
  selectedProducers ← or_err (SelectNextProducers fuel sk s r.1 (Validators validatorSet)) internal;
  Ok {| span_Id := spanId; span_StartBlock := startBlock; span_EndBlock := u64 (u64 (startBlock + SpanDuration params) - 1);
        span_ValidatorSet := validatorSet; SelectedProducers := bor_SortValidatorByAddress selectedProducers;
        span_BorChainId := borChainId |}.
Definition GetNextSpanSeed (fuel : nat) (s : BorState) (request : option Z) : outcome (bytes * string) :=
  id ← of_option errEmptyRequest request;
  r ← or_err (FetchNextSpanSeed fuel s id) internal;
  Ok (r.1, AddressHex r.2).
(** [strconv.Atoi] of 64 bits; a negative identifier wraps around. *)
Definition Atoi (s : string) : outcome Z :=
  n ← of_option internal (ParseBig s);
  return_if (n <? MinInt64) || (MaxInt64 <? n) with internal ;; Ok n.
Definition GetSpanById (s : BorState) (request : option string) : outcome Span :=
  id ← of_option errEmptyRequest request;
  spanId ← Atoi id;
  or_err (GetSpan s (u64 spanId)) internal.
Definition GetBorParams (s : BorState) : outcome BorParams := or_err (FetchParams s) internal.
Definition GetProducerVotesByValidatorId (s : BorState) (request : option Z) : outcome (list Z) :=
  id ← of_option errEmptyRequest request; Ok (GetProducerVotes s id).
Definition GetProducerVotes_query (sk : K) (s : BorState) : outcome (gmap Z (list Z)) :=
  validatorSet ← or_err (sk_GetValidatorSet sk) internal;
  Ok (fold_left (fun m v => <[ValId v := GetProducerVotes s (ValId v)]> m) (Validators validatorSet) ∅).
Definition GetProducerPlannedDowntime (s : BorState) (request : option Z) : outcome (Z * Z) :=
  id ← of_option errEmptyRequest request; of_option not_found (ProducerPlannedDowntime s !! id).
Definition GetValidatorPerformanceScore (s : BorState) : gmap Z Z := GetAllValidatorPerformanceScore s.
End bor.

(** ** Milestone *)

Definition GetMilestoneParams_query (s : MilestoneState) : outcome MilestoneParams := or_err (GetMilestoneParams s) internal.
Definition GetMilestoneCount_query (s : MilestoneState) : Z := GetMilestoneCount s.
Definition GetLatestMilestone (s : MilestoneState) : outcome MilestoneRecord := or_err (GetLastMilestone s) internal.
Definition GetMilestoneByNumber_query (s : MilestoneState) (request : option Z) : outcome MilestoneRecord :=
  number ← of_option errEmptyRequest request;
  let count := GetMilestoneCount s in
  return_if (number =? 0) || (count <? number) with ErrText "milestone number out of range" ;;
  GetMilestoneByNumber s number.

(** ** Clerk *)

(** The contract of the state sender and its counter, which may be nil. *)
Definition GetLatestRecordId {Sender : Type} (GetStateSenderInstance : string -> option Sender) (CurrentStateCounter : Sender -> option Z)
    (params : option ChainManagerParams) (s : ClerkState) : outcome (Z * bool) :=
  chainParams ← of_option internal params;
  stateSenderInstance ← of_option internal (GetStateSenderInstance (StateSenderAddress chainParams));
  stateCounter ← of_option internal (CurrentStateCounter stateSenderInstance);
  let latestRecordId := u64 stateCounter in
  Ok (latestRecordId, HasEventRecord s latestRecordId).

(** A span is found under the decimal text of its identifier, below the width of [int]. *)
Lemma span_by_id_found s id span : 0 <= id <= MaxInt64 -> GetSpan s id = Ok span -> GetSpanById s (Some (BigString id)) = Ok span.
Proof.
  intros Hid Hs. unfold GetSpanById, Atoi. cbn. rewrite ParseBig_BigString. cbn [of_option mbind outcome_bind].
  rewrite (proj2 (orb_false_iff _ _)) by (unfold MinInt64, MaxInt64 in *; lia). cbn.
  rewrite u64_id by (unfold in_u64, MaxInt64, MaxUint64 in *; lia). by rewrite Hs.
Qed.
