(* ===== verification/Processor.v ===== *)
(** * The processors of the bridge

    Models [bridge/processor] (checkpoint, stake, clerk, topup and span processors),
    [bridge/broadcaster] and the questions of [bridge/util] they ask: each task reads
    the node's API and the chains and comes to at most one message to broadcast.  The
    API answers are the queries of [Queries] on the state of the node, where the
    endpoint answers; the registration of the tasks and their retrying are the
    queue's. *)
From S2P Require Import Prelude SortedList Helpers External VoteTypes ValidatorSet StakeKeeper StakeHandlers Numerals Dividend Topup Checkpoint CheckpointHandlers Clerk BorTypes Selection BorKeeper BorHandlers Queries.
From Stdlib Require Import Floats.SpecFloat.
#[local] Open Scope Z_scope.

(** ** The node a task asks *)

Record BridgeNode := {
  bn_own : bytes;                        (* helper.GetAddress *)
  bn_pubKey : bytes;                     (* helper.GetPubKey *)
  bn_producers : list Z;                 (* helper.GetProducerVotes *)
  bn_params : option ChainManagerParams;
  bn_stake : StakeState; bn_checkpoint : CheckpointState; bn_topup : TopupState; bn_clerk : ClerkState; bn_bor : BorState;
  bn_up : string -> bool;                (* whether an endpoint answers *)
  bn_account : string -> bool;           (* whether an account exists *)
}.

(** [FetchFromAPI]: an error of the query, or of the connection, is an error. *)
Definition ErrFetch : error := ErrText "error fetching data from the API".
Definition FetchFromAPI {A} (n : BridgeNode) (url : string) (answer : outcome A) : outcome A :=
  if bn_up n url then match answer with Ok a => Ok a | _ => Err ErrFetch end else Err ErrFetch.

Inductive BridgeMsg :=
| BCheckpoint (msg : MsgCheckpoint) | BCpAck (msg : MsgCpAck) | BCpNoAck (msg : MsgCpNoAck)
| BStake (msg : StakeMsg) | BEventRecord (msg : MsgEventRecord) | BTopup (msg : MsgTopupTx)
| BProposeSpan (msg : MsgProposeSpan) | BVoteProducers (msg : MsgVoteProducers).
(** What a task comes to. *)
Inductive TaskResult := Nothing | Send (msg : BridgeMsg) | RetryLater (delay : Z).

Definition RetryTaskDelay : Z := 12 * Second.
Definition RetryStateSyncTaskDelay : Z := 24 * Second.
Definition StakeNonceRetryDelay : Z := 15 * Second.

(** A log of the main chain. *)
Record VLog := { vl_TxHash : bytes; vl_Index : Z; vl_BlockNumber : Z }.
Definition TxHashString (h : bytes) : string := "0x" ++ Bytes2Hex h.

Section node.
Context {AC : AddressCodec} (n : BridgeNode).

Definition GetAddressString : outcome string := BytesToString (bn_own n).
Definition GetFromAddress : outcome string := match GetAddressString with Ok s => Ok s | _ => Panic end.

Definition IsProposer : outcome bool :=
  proposers ← FetchFromAPI n "/stake/proposers/1" (GetProposersByTimes (bn_stake n) (Some 1));
  p ← must (head proposers);
  signerBytes ← StringToBytes (Signer p);
  Ok (bool_decide (signerBytes = bn_own n)).
Fixpoint find_own (proposers : list Validator) : outcome bool :=
  match proposers with
  | [] => Ok false
  | p :: rest =>
      signerBytes ← StringToBytes (Signer p);
      if bool_decide (signerBytes = bn_own n) then Ok true else find_own rest
  end.
(** The proposers after the current one. *)
Definition IsInProposerList (count : Z) : outcome bool :=
  proposers ← FetchFromAPI n "/stake/proposers" (GetProposersByTimes (bn_stake n) (Some (u64 (count + 1))));
  find_own (take (Z.to_nat (i64 count)) (drop 1 proposers)).
Definition IsCurrentProposer : outcome bool :=
  p ← FetchFromAPI n "/stake/proposers/current" (GetCurrentProposer_query (bn_stake n));
  signerBytes ← StringToBytes (Signer p);
  Ok (bool_decide (signerBytes = bn_own n)).
Definition GetValidatorNonce (validatorID : Z) : outcome Z :=
  v ← FetchFromAPI n "/stake/validator" (GetValidatorById (bn_stake n) (Some validatorID)); Ok (Nonce v).
Definition AppendPrefix (signerPubKey : bytes) : bytes := Byte.x04 :: signerPubKey.
Definition GetChainmanagerParams : outcome ChainManagerParams :=
  FetchFromAPI n "/chainmanager/params" (of_option ErrNotFound (bn_params n)).
End node.

(** ** The checkpoint processor *)

(** What the root chain contract answers besides its header blocks: the current header
    block and the last child block, and the creation time of a header block. *)
Class RootChainHead := {
  CurrentHeaderBlockOf : string -> outcome Z;
  LastChildBlockOf : string -> outcome Z;
  CreatedAtOf : string -> Z -> Z;
}.
(** A transaction of a block of heimdall, decoded: its messages; [None] is a message
    of another type.  The parts of a signature, as the root chain takes them. *)
Class HeimdallBlocks := {
  TxInBlock : bytes -> Z -> outcome (list (option MsgCheckpoint));
  SignatureValues : bytes -> outcome (Z * Z * Z);
}.

Section checkpoint.
Context {AC : AddressCodec} {HF : HashFunction} {ML : MerkleLibrary} {BN : BorNode} {RC : RootChain} {RH : RootChainHead}.
Context (out_of_range : spec_float -> Z) (n : BridgeNode).

Definition getCheckpointContext : outcome (ChainManagerParams * CheckpointParams) :=
  chainmanagerParams ← GetChainmanagerParams n;
  checkpointParams ← FetchFromAPI n "/checkpoints/params" (GetCheckpointParams_query (bn_checkpoint n));
  Ok (chainmanagerParams, checkpointParams).

Definition CurrentHeaderBlock (address : string) (childBlockInterval : Z) : outcome Z :=
  currentHeaderBlock ← CurrentHeaderBlockOf address;
  if childBlockInterval =? 0 then Panic else Ok (u64 currentHeaderBlock / childBlockInterval).

(** The end of the next checkpoint from [start]: whole multiples of the average length,
    up to the maximum. *)
Definition expected_end (start latestChildBlock : Z) (params : CheckpointParams) : outcome Z :=
  let diff := u64 (u64 (latestChildBlock - start) + 1) in
  if 0 <? diff then
    if AvgCheckpointLength params =? 0 then Panic
    else
      let expectedDiff := diff - diff mod AvgCheckpointLength params in
      let expectedDiff := if 0 <? expectedDiff then expectedDiff - 1 else expectedDiff in
      let expectedDiff := if MaxCheckpointLength params <? expectedDiff then u64 (MaxCheckpointLength params - 1) else expectedDiff in
      Ok (u64 (expectedDiff + start))
  else Ok 0.
Definition nextExpectedCheckpoint (context : ChainManagerParams * CheckpointParams) (latestChildBlock : Z) : outcome (Z * Z) :=
  let address := RootChainAddress context.1 in
  return_if negb (GetRootChainInstance address) with ErrText "root chain instance" ;;
  currentHeaderBlock ← CurrentHeaderBlock address (ChildChainBlockInterval context.2);
  '(root, currentStart, currentEnd, proposer) ← GetHeaderInfo address currentHeaderBlock (ChildChainBlockInterval context.2);
  let start := if 0 <? currentEnd then u64 (currentEnd + 1) else currentEnd in
  end_ ← expected_end start latestChildBlock context.2;
  Ok (start, end_).

Definition fetchDividendAccountRoot : outcome bytes :=
  FetchFromAPI n "/topup/dividend-account-root" (GetDividendAccountRootHash (bn_topup n)).
Definition createAndSendCheckpointToHeimdall (context : ChainManagerParams * CheckpointParams) (start end_ : Z) : outcome TaskResult :=
  if (end_ =? 0) || (end_ <=? start) then Ok Nothing
  else
    root ← GetRootHash start end_ (MaxCheckpointLength context.2);
    accountRootHash ← fetchDividendAccountRoot;
    address ← GetAddressString n;
    Ok (Send (BCheckpoint {| mc_Proposer := FormatAddress address; mc_StartBlock := start; mc_EndBlock := end_; mc_RootHash := root;
                             mc_AccountRootHash := accountRootHash; mc_BorChainId := BorChainId context.1 |})).

(** Whether the buffered checkpoint keeps a new one back, at a time. *)
Definition buffer_busy (params : CheckpointParams) (timeStamp : Z) : bool :=
  let checkpointBufferTime := uint_of out_of_range (Seconds (CheckpointBufferTime params)) in
  match FetchFromAPI n "/checkpoints/buffer" (Ok (GetCheckpointBuffer (bn_checkpoint n))) with
  | Ok buffered => negb (cp_Timestamp buffered =? 0)
                   && ((timeStamp <=? cp_Timestamp buffered) || (u64 (timeStamp - cp_Timestamp buffered) <? checkpointBufferTime))
  | _ => false
  end.
Definition sendCheckpointToHeimdall (now : GoTime) (headerNumber : Z) : outcome TaskResult :=
  isProposer ← IsProposer n;
  if negb isProposer then Ok Nothing
  else
    context ← getCheckpointContext;
    let latestConfirmedChildBlock := u64 (u64 headerNumber - BorChainTxConfirmations context.1) in
    return_if latestConfirmedChildBlock <=? 0 with ErrText "number of blocks on childChain is less than confirmations required" ;;
    '(start, end_) ← nextExpectedCheckpoint context latestConfirmedChildBlock;
    if buffer_busy context.2 (u64 (unix_of now)) then Ok Nothing
    else createAndSendCheckpointToHeimdall context start end_.

(** The task of an event of a confirmed checkpoint: what is submitted to the root
    chain, the signed bytes and the signatures in the order of the signers. *)
Context {HB : HeimdallBlocks}.
Definition parseCheckpointSignatures (signatures : list CheckpointSignature) : outcome (list (Z * Z * Z)) :=
  return_if (length signatures =? 0)%nat with ErrText "no checkpoint sigs found" ;;
  foldr (fun s acc => v ← SignatureValues (sig_Signature s); vs ← acc; Ok (v :: vs)) (Ok []) (sort_by sig_ValidatorAddress signatures).
Definition createAndSendCheckpointToRootChain (height : Z) (txHash : bytes) : outcome (option (bytes * list (Z * Z * Z))) :=
  msgs ← TxInBlock txHash (i64 (height - 1));
  msg ← must (head msgs);
  match msg with
  | None => Ok None
  | Some msg =>
      sideTxData ← GetSideSignBytes msg;
      signatures ← FetchFromAPI n "/checkpoints/signatures" (GetCheckpointSignatures_query (bn_checkpoint n) (Some (Bytes2Hex txHash)));
      sigs ← parseCheckpointSignatures signatures;
      Ok (Some (sideTxData, sigs))
  end.
Definition shouldSendCheckpoint (context : ChainManagerParams * CheckpointParams) (start : Z) : outcome bool :=
  let address := RootChainAddress context.1 in
  return_if negb (GetRootChainInstance address) with ErrText "root chain instance" ;;
  currentChildBlock ← LastChildBlockOf address;
  let currentChildBlock := u64 currentChildBlock in
  Ok ((u64 (currentChildBlock + 1) =? start) || ((currentChildBlock =? 0) && (start =? 0))).
Definition sendCheckpointToRootChain (startBlock : Z) (txHash : string) (height : Z) : outcome (option (bytes * list (Z * Z * Z))) :=
  isCurrentProposer ← IsCurrentProposer n;
  context ← getCheckpointContext;
  shouldSend ← shouldSendCheckpoint context startBlock;
  if shouldSend && isCurrentProposer then createAndSendCheckpointToRootChain height (FromHex txHash) else Ok None.
End checkpoint.

(** ** Acknowledgements and no-acks *)

(** The event of a header block; the numbers are big integers, the proposer a text. *)
Record RootchainNewHeaderBlock := { nh_HeaderBlockId : Z; nh_Start : Z; nh_End : Z; nh_Proposer : string; nh_Root : bytes }.

Section acks.
Context {AC : AddressCodec} {BN : BorNode} {RC : RootChain} {RH : RootChainHead}.
Context (out_of_range : spec_float -> Z) (n : BridgeNode).

(** A log that does not unpack is dropped. *)
Definition sendCheckpointAckToHeimdall (event : option RootchainNewHeaderBlock) : outcome TaskResult :=
  context ← getCheckpointContext n;
  match event with
  | None => Ok Nothing
  | Some event =>
      checkpointNumber ← (if ChildChainBlockInterval context.2 =? 0 then Panic
                          else Ok (big_div (nh_HeaderBlockId event) (ChildChainBlockInterval context.2)));
      let latestCheckpoint := FetchFromAPI n "/checkpoints/latest" (GetCheckpointLatest (bn_checkpoint n)) in
      if match latestCheckpoint with Ok c => u64 (nh_End event) <=? cp_EndBlock c | _ => false end then Ok Nothing
      else
        from ← GetFromAddress n;
        Ok (Send (BCpAck {| ma_From := FormatAddress from; ma_Number := u64 checkpointNumber; ma_Proposer := nh_Proposer event;
                            ma_StartBlock := u64 (nh_Start event); ma_EndBlock := u64 (nh_End event); ma_RootHash := nh_Root event |}))
  end.

Definition getLatestCheckpointTime (context : ChainManagerParams * CheckpointParams) : outcome Z :=
  let address := RootChainAddress context.1 in
  return_if negb (GetRootChainInstance address) with ErrText "root chain instance" ;;
  lastHeaderNumber ← CurrentHeaderBlock address (ChildChainBlockInterval context.2);
  _ ← GetHeaderInfo address lastHeaderNumber (ChildChainBlockInterval context.2);
  Ok (i64 (u64 (CreatedAtOf address (lastHeaderNumber * ChildChainBlockInterval context.2)))).
Definition getLastNoAckTime : Z :=
  match FetchFromAPI n "/checkpoints/last-no-ack" (Ok (GetLastNoAck_query (bn_checkpoint n))) with Ok t => t | _ => 0 end.
(** Whether a no-ack is due, and for how many turns.  The quotient is taken when it is
    at least one, so that its floor is its integral part. *)
Definition checkIfNoAckIsRequired (params : CheckpointParams) (currentTime : GoTime) (lastCreatedAt : Z) : bool * Z :=
  let bufferTime := Seconds (CheckpointBufferTime params) in
  let timeDiff := Seconds (time_Sub currentTime (time_Unix lastCreatedAt 0)) in
  let index :=
    if lastCreatedAt =? 0 then f64_of_Z 1
    else if SFleb bufferTime timeDiff then f64_div timeDiff bufferTime else f64_of_Z 0 in
  let count := uint_of out_of_range index in
  if bool_decide (f64_floor index = Some 0) then (false, count)
  else
    let lastNoAck := getLastNoAckTime in
    let sinceNoAck := Seconds (time_Sub currentTime (time_Unix (i64 lastNoAck) 0)) in
    if SFltb sinceNoAck bufferTime && negb (lastNoAck =? 0) then (false, count) else (true, count).
Definition handleCheckpointNoAck (now : GoTime) : outcome TaskResult :=
  context ← getCheckpointContext n;
  lastCreatedAt ← getLatestCheckpointTime context;
  let '(isNoAckRequired, count) := checkIfNoAckIsRequired context.2 now lastCreatedAt in
  if negb isNoAckRequired then Ok Nothing
  else
    isProposer ← IsInProposerList n count;
    if negb isProposer then Ok Nothing
    else address ← GetAddressString n; Ok (Send (BCpNoAck {| mn_From := FormatAddress address |})).
End acks.

(** ** The stake, topup and clerk processors *)

(** The staking messages and the names of their actions, by which the node's index of
    transactions is asked. *)
Definition stakingTxnMsgMap : list (string * string) :=
  [("validator-stake-update", "stake-update"); ("validator-join", "validator-join");
   ("signer-update", "signer-update"); ("validator-exit", "validator-exit")]%string.
(** How many transactions of a message and a validator the index holds, and the order in
    which the map of messages is iterated. *)
Class TxIndex := {
  QueryTxsByEvents : string -> string -> Z -> outcome Z;
  iterated : list (string * string);
  iterated_all : Permutation iterated stakingTxnMsgMap;
}.
(** The messages of the transactions waiting at the node. *)
Class Mempool := { UnconfirmedTxs : outcome (list (option (list BridgeMsg))) }.

Section events.
Context {AC : AddressCodec} {RS : ReceiptSource} {TI : TxIndex} {MP : Mempool} (n : BridgeNode).

Definition isOldTx_staking (vLog : VLog) : outcome bool :=
  FetchFromAPI n "/stake/is-old-tx" (IsStakeTxOld (bn_params n) (bn_stake n) (Some (TxHashString (vl_TxHash vLog), vl_Index vLog))).
Definition isOldTx_topup (vLog : VLog) : outcome bool :=
  FetchFromAPI n "/topup/is-old-tx" (IsTopupTxOld (bn_params n) (bn_topup n) (Some (TxHashString (vl_TxHash vLog), vl_Index vLog))).
(** An error counts as a transaction that is new. *)
Definition is_old (o : outcome bool) : bool := match o with Ok b => b | _ => false end.

Fixpoint query_actions (actions : list (string * string)) (validatorId : Z) : outcome Z :=
  match actions with
  | [] => Ok 0
  | (msg, action) :: rest =>
      count ← QueryTxsByEvents msg action validatorId;
      if negb (count =? 0) then Ok count else query_actions rest validatorId
  end.
Definition queryTxCount (validatorId : Z) : outcome Z := query_actions iterated validatorId.
(** Whether the nonce is the next one, and otherwise for how many delays to wait. *)
Definition checkValidNonce (validatorId txNonce : Z) : outcome (bool * Z) :=
  currentNonce ← GetValidatorNonce n validatorId;
  if negb (u64 (currentNonce + 1) =? txNonce) then Ok (false, Z.min (u64 (txNonce - currentNonce)) 10)
  else
    stakingTxnCount ← queryTxCount validatorId;
    Ok (if negb (stakingTxnCount =? 0) then (false, 1) else (true, 0)).

Definition with_prefix (signerPubKey : bytes) : bytes :=
  if (length signerPubKey =? 64)%nat then AppendPrefix signerPubKey else signerPubKey.
(** The message of a valid nonce, a retry otherwise. *)
Definition in_order (validatorId nonce : Z) (msg : string -> StakeMsg) : outcome TaskResult :=
  '(validNonce, nonceDelay) ← checkValidNonce validatorId nonce;
  if negb validNonce then Ok (RetryLater (i64 (StakeNonceRetryDelay * i64 nonceDelay)))
  else address ← GetAddressString n; Ok (Send (BStake (msg (FormatAddress address)))).

Definition sendValidatorJoinToHeimdall (vLog : VLog) (event : option StakingInfoStaked) : outcome TaskResult :=
  match event with
  | None => Ok Nothing
  | Some event =>
      if is_old (isOldTx_staking vLog) then Ok Nothing
      else if negb (bn_account n (st_Signer event)) then Ok (RetryLater RetryTaskDelay)
      else
        address ← GetAddressString n;
        Ok (Send (BStake (MValidatorJoin
          {| vj_From := FormatAddress address; vj_ValId := u64 (st_ValidatorId event); vj_ActivationEpoch := u64 (st_ActivationEpoch event);
             vj_Amount := st_Amount event; vj_SignerPubKey := Some (with_prefix (st_SignerPubkey event)); vj_TxHash := vl_TxHash vLog;
             vj_LogIndex := vl_Index vLog; vj_BlockNumber := vl_BlockNumber vLog; vj_Nonce := u64 (st_Nonce event) |})))
  end.
Definition sendUnstakeInitToHeimdall (vLog : VLog) (event : option StakingInfoUnstakeInit) : outcome TaskResult :=
  match event with
  | None => Ok Nothing
  | Some event =>
      if is_old (isOldTx_staking vLog) then Ok Nothing
      else in_order (u64 (ui_ValidatorId event)) (u64 (ui_Nonce event)) (fun from => MValidatorExit
        {| ve_From := from; ve_ValId := u64 (ui_ValidatorId event); ve_DeactivationEpoch := u64 (ui_DeactivationEpoch event);
           ve_TxHash := vl_TxHash vLog; ve_LogIndex := vl_Index vLog; ve_BlockNumber := vl_BlockNumber vLog; ve_Nonce := u64 (ui_Nonce event) |})
  end.
Definition sendStakeUpdateToHeimdall (vLog : VLog) (event : option StakingInfoStakeUpdate) : outcome TaskResult :=
  match event with
  | None => Ok Nothing
  | Some event =>
      if is_old (isOldTx_staking vLog) then Ok Nothing
      else in_order (u64 (sue_ValidatorId event)) (u64 (sue_Nonce event)) (fun from => MStakeUpdate
        {| su_From := from; su_ValId := u64 (sue_ValidatorId event); su_NewAmount := sue_NewAmount event;
           su_TxHash := vl_TxHash vLog; su_LogIndex := vl_Index vLog; su_BlockNumber := vl_BlockNumber vLog; su_Nonce := u64 (sue_Nonce event) |})
  end.
Definition sendSignerChangeToHeimdall (vLog : VLog) (event : option StakingInfoSignerChange) : outcome TaskResult :=
  match event with
  | None => Ok Nothing
  | Some event =>
      let newSignerPubKey := with_prefix (sc_SignerPubkey event) in
      return_if negb (IsPubKeyFirstByteValid newSignerPubKey) with ErrText "invalid signer pubkey" ;;
      isOldTx_staking vLog ≫= fun isOld : bool =>
      if isOld then Ok Nothing
      else in_order (u64 (sc_ValidatorId event)) (u64 (sc_Nonce event)) (fun from => MSignerUpdate
        {| sg_From := from; sg_ValId := u64 (sc_ValidatorId event); sg_NewSignerPubKey := Some newSignerPubKey;
           sg_TxHash := vl_TxHash vLog; sg_LogIndex := vl_Index vLog; sg_BlockNumber := vl_BlockNumber vLog; sg_Nonce := u64 (sc_Nonce event) |})
  end.

Definition sendTopUpFeeToHeimdall (vLog : VLog) (event : option StakinginfoTopUpFee) : outcome TaskResult :=
  match event with
  | None => Ok Nothing
  | Some event =>
      if is_old (isOldTx_topup vLog) then Ok Nothing
      else
        from ← GetFromAddress n;
        Ok (Send (BTopup {| tt_Proposer := FormatAddress from; tt_User := tf_User event; tt_Fee := tf_Fee event;
                            tt_TxHash := vl_TxHash vLog; tt_LogIndex := vl_Index vLog; tt_BlockNumber := vl_BlockNumber vLog |}))
  end.

(** The record is in a transaction that waits: the first message of one. *)
Definition checkTxAgainstMempool (msg : MsgEventRecord) : bool :=
  match UnconfirmedTxs with
  | Ok txs => existsb (fun tx => match tx with
                        | Some (BEventRecord m :: _) => String.eqb (me_TxHash m) (me_TxHash msg) && (me_LogIndex m =? me_LogIndex msg)
                        | _ => false
                        end) txs
  | _ => false
  end.
(** [contract]: the bytes of the contract's address. *)
Definition sendStateSyncedToHeimdall (vLog : VLog) (contract : bytes) (event : option StatesenderStateSynced) : outcome TaskResult :=
  params ← GetChainmanagerParams n;
  match event with
  | None => Ok Nothing
  | Some event =>
      let existing := FetchFromAPI n "/clerk/event-records" (GetRecordById (bn_clerk n) (Some (u64 (i64 (ss_Id event))))) in
      if match existing with Ok r => negb (er_Id r =? 0) | _ => false end then Ok Nothing
      else
        let data := if (MaxStateSyncSize <? length (ss_Data event))%nat then [] else ss_Data event in
        address ← GetAddressString n;
        let msg := {| me_From := FormatAddress address; me_TxHash := TxHashString (vl_TxHash vLog); me_LogIndex := vl_Index vLog;
                      me_BlockNumber := vl_BlockNumber vLog;
                      me_ContractAddress := match BytesToString contract with Ok s => s | _ => "" end;
                      me_Data := data; me_Id := u64 (ss_Id event); me_ChainId := BorChainId params |} in
        if checkTxAgainstMempool msg then Ok (RetryLater RetryStateSyncTaskDelay) else Ok (Send (BEventRecord msg))
  end.
End events.

(** ** The span processor *)
Section spans.
Context {K : Type} {SK : StakeKeeperI K} {AC : AddressCodec} {BC : BorChain} {EA : EthAddress} {RSrc : RandSource}.
Context (cfg : Config) (fuel : nat) (sk : K) (n : BridgeNode).

Definition getLastSpan : outcome Span := FetchFromAPI n "/bor/spans/latest" (GetLatestSpan (bn_bor n)).
Definition fetchNextSpanDetails (id start : Z) : outcome Span :=
  configParams ← GetChainmanagerParams n;
  FetchFromAPI n "/bor/spans/prepare" (GetNextSpan cfg fuel sk (bn_bor n) (Some (id, start, BorChainId configParams))).
Definition fetchNextSpanSeed (id : Z) : outcome (bytes * string) :=
  FetchFromAPI n "/bor/spans/seed" (GetNextSpanSeed fuel (bn_bor n) (Some id)).
(** [currentBlock]: the number of the latest Bor block when the proposal is made. *)
Definition propose (currentBlock : outcome Z) (lastSpan nextSpanMsg : Span) : outcome TaskResult :=
  currentBlock ← currentBlock;
  if (span_StartBlock lastSpan <=? currentBlock) && (currentBlock <=? span_EndBlock lastSpan) then
    r ← fetchNextSpanSeed (span_Id nextSpanMsg);
    address ← GetAddressString n;
    Ok (Send (BProposeSpan {| ps_SpanId := span_Id nextSpanMsg; ps_Proposer := address; ps_StartBlock := span_StartBlock nextSpanMsg;
                              ps_EndBlock := span_EndBlock nextSpanMsg; ps_ChainId := span_BorChainId nextSpanMsg;
                              ps_Seed := r.1; ps_SeedAuthor := r.2 |}))
  else Ok Nothing.
(** [latestBlock] is the block number at the check, [inProgress] whether an earlier
    proposal still runs. *)
Definition checkAndPropose (inProgress : bool) (latestBlock currentBlock : outcome Z) : outcome TaskResult :=
  isProposer ← IsProposer n;
  if negb isProposer then Ok Nothing
  else
    lastSpan ← getLastSpan;
    latestBorBlockNumber ← latestBlock;
    if latestBorBlockNumber <? span_StartBlock lastSpan then Ok Nothing
    else
      nextSpanMsg ← fetchNextSpanDetails (u64 (span_Id lastSpan + 1)) (u64 (span_EndBlock lastSpan + 1));
      if inProgress then Ok Nothing else propose currentBlock lastSpan nextSpanMsg.
Definition checkAndVoteProducers : outcome TaskResult :=
  lastSpan ← getLastSpan;
  match find (fun v => bool_decide (PubKey v = bn_pubKey n)) (Validators (span_ValidatorSet lastSpan)) with
  | None => Ok Nothing
  | Some validator =>
      producerVotes ← FetchFromAPI n "/bor/producer-votes" (GetProducerVotesByValidatorId (bn_bor n) (Some (ValId validator)));
      if bool_decide (bn_producers n = producerVotes) then Ok Nothing
      else
        address ← GetAddressString n;
        Ok (Send (BVoteProducers {| vp_Voter := address; vp_VoterId := ValId validator; vp_Votes := bn_producers n |}))
  end.
End spans.

(** ** The broadcaster *)

(** The next sequence number of the node's account, as the broadcaster counts. *)
Record Broadcaster := { accNum : Z; lastSeqNo : Z }.
(** What a broadcast meets: whether it can be prepared, the account's sequence before,
    the code of the answer to the transaction, the account's sequence after a failure. *)
Record BroadcastView := {
  bw_ready : bool; bw_sequence : outcome Z; bw_answer : Z -> outcome Z; bw_sequence_after : outcome Z;
}.
Definition with_sequence (tb : Broadcaster) (sequence : Z) : Broadcaster := {| accNum := accNum tb; lastSeqNo := sequence |}.
Definition updateAccountSequence (tb : Broadcaster) (view : BroadcastView) (e : error) : Broadcaster * outcome unit :=
  match bw_sequence_after view with
  | Ok sequence => (with_sequence tb sequence, Err e)
  | Err e' => (tb, Err e')
  | Panic => (tb, Panic)
  end.
(** The broadcaster afterwards, the sequence number the transaction was sent with, and
    the outcome. *)
Definition BroadcastToHeimdall (tb : Broadcaster) (view : BroadcastView) : Broadcaster * option Z * outcome unit :=
  if negb (bw_ready view) then (tb, None, Err (ErrText "cannot prepare the transaction"))
  else
    match bw_sequence view with
    | Err e => (tb, None, Err e)
    | Panic => (tb, None, Panic)
    | Ok sequence =>
        let tb := if lastSeqNo tb <? sequence then with_sequence tb sequence else tb in
        let sent := Some (lastSeqNo tb) in
        match bw_answer view (lastSeqNo tb) with
        | Err e => let '(tb, r) := updateAccountSequence tb view e in (tb, sent, r)
        | Panic => (tb, sent, Panic)
        | Ok code =>
            if negb (code =? 0) then
              let '(tb, r) := updateAccountSequence tb view (ErrText "received non-ok response code") in (tb, sent, r)
            else (with_sequence tb (u64 (lastSeqNo tb + 1)), sent, Ok tt)
        end
    end.
