(* ===== verification/ProcessorCorrect.v ===== *)
(** * Correctness of the bridge's processors

    What a bridge proposes is what the validators accept: the checkpoint its proposer
    computes passes the message server, the vote and the post-handler; so does the
    acknowledgement of a header block; the staking messages carry the next nonce; and
    the broadcaster finds the account's sequence number again after a failure. *)
From S2P Require Import Prelude SortedList Helpers External VoteTypes ValidatorSet StakeKeeper StakeHandlers Numerals Dividend Topup Checkpoint CheckpointHandlers Clerk Queries Processor.
#[local] Open Scope Z_scope.

(** The texts of an address differ in their case and their prefix only. *)
Class AddressCodecLaws {AC : AddressCodec} : Prop := {
  codec_format s b t : StringToBytes s = Ok b -> BytesToString b = Ok t -> FormatAddress t = FormatAddress s;
  codec_parse b t : BytesToString b = Ok t -> StringToBytes (FormatAddress t) = Ok b;
  codec_formatted s b : StringToBytes s = Ok b -> StringToBytes (FormatAddress s) = Ok b;
}.

(** ** The range of the next checkpoint *)

Lemma u64_add_l a b : u64 (u64 a + b) = u64 (a + b).
Proof. unfold u64. by rewrite Z.add_mod_idemp_l. Qed.

(** From a start on the chain, the blocks up to the latest confirmed one are cut to a
    multiple of the average length, or to the maximum. *)
Lemma expected_end_spec start latest params e : 0 <= start <= latest + 1 -> latest <= MaxInt64 ->
  0 < AvgCheckpointLength params <= MaxCheckpointLength params -> MaxCheckpointLength params <= MaxUint64 ->
  expected_end start latest params = Ok e ->
  (latest - start + 1 < AvgCheckpointLength params /\ (e = 0 \/ e = start)) \/
  (AvgCheckpointLength params <= latest - start + 1 /\ start <= e <= latest /\
   ((e - start + 1) mod AvgCheckpointLength params = 0 /\ e - start + 1 <= MaxCheckpointLength params + 1 \/
    e - start + 1 = MaxCheckpointLength params)).
Proof.
  unfold expected_end. set (avg := AvgCheckpointLength params). set (max := MaxCheckpointLength params).
  intros Hs Hl Ha Hm. unfold MaxInt64, MaxUint64 in *.
  rewrite u64_add_l, (u64_id (latest - start + 1)) by (unfold in_u64, MaxUint64; lia). set (diff := latest - start + 1).
  destruct (Z.ltb_spec 0 diff); [|intros [= <-]; left; split; [lia|by left]].
  rewrite (proj2 (Z.eqb_neq avg 0)) by lia.
  pose proof (Z.div_mod diff avg ltac:(lia)) as Hdm. pose proof (Z.mod_pos_bound diff avg ltac:(lia)) as Hr.
  assert (0 <= diff / avg) by (apply Z.div_pos; lia).
  destruct (Z.lt_ge_cases diff avg) as [Hlt|Hge].
  { rewrite Z.mod_small, Z.sub_diag by lia. cbn [Z.ltb Z.compare]. rewrite (proj2 (Z.ltb_ge max 0)) by lia.
    intros [= <-]. rewrite u64_id by (unfold in_u64, MaxUint64; lia). left. split; [lia|]. right. lia. }
  assert (1 <= diff / avg) by (apply Z.div_le_lower_bound; lia).
  set (k := diff - diff mod avg). assert (k = avg * (diff / avg)) as Hk by (unfold k; lia).
  rewrite (proj2 (Z.ltb_lt 0 k)) by nia. intros [= <-]. right. split; [done|].
  destruct (Z.ltb_spec max (k - 1)).
  - rewrite (u64_id (max - 1)), u64_id by (unfold in_u64, MaxUint64; lia). split; [lia|]. right. lia.
  - rewrite u64_id by (unfold in_u64, MaxUint64; nia). split; [nia|]. left. split; [|lia].
    replace (k - 1 + start - start + 1) with (diff / avg * avg) by lia. by rewrite Z.mod_mul by lia.
Qed.

(** ** Asking the node *)

Lemma fetch_ok {A} n url (answer : outcome A) a : FetchFromAPI n url answer = Ok a -> answer = Ok a.
Proof. unfold FetchFromAPI. destruct (bn_up n url); [|done]. by destruct answer. Qed.
Lemma fetch_up {A} n url (answer : outcome A) a : bn_up n url = true -> answer = Ok a -> FetchFromAPI n url answer = Ok a.
Proof. unfold FetchFromAPI. by intros -> ->. Qed.
(** The first of the next proposers is the one stored with the set. *)
Lemma next_proposers_head n vs p l : Proposer vs = Some p -> next_proposers (S n) vs = Ok l -> head l = Some p.
Proof.
  intros Hp. cbn [next_proposers]. unfold GetProposer. destruct (IsNilOrEmpty vs); [done|]. rewrite Hp. cbn.
  destruct (IncrementProposerPriority vs 1) as [vs'|e|]; cbn; try done.
  destruct (next_proposers n vs'); cbn; try done. by intros [= <-].
Qed.

Lemma next_proposers_length k : forall vs l, next_proposers k vs = Ok l -> length l = k.
Proof.
  induction k as [|k IH]; intros vs l H; cbn [next_proposers] in H; [by injection H as <-|]. repeat ok_step H.
  destruct a as [p vs']. ok_inv H. subst l. cbn. f_equal. by eapply IH.
Qed.

Lemma IsProposer_spec {AC : AddressCodec} n vs p : validatorSet (bn_stake n) = Some vs -> Proposer vs = Some p ->
  IsProposer n = Ok true -> StringToBytes (Signer p) = Ok (bn_own n).
Proof.
  intros Hvs Hp. unfold IsProposer. destruct (FetchFromAPI n _ _) as [l|e|] eqn:E; cbn; try done.
  apply fetch_ok in E. unfold GetProposersByTimes, GetValidatorSet in E. rewrite Hvs in E. cbn -[next_proposers] in E.
  destruct (length (Validators vs)) eqn:Hlen; cbn [Nat.min] in E.
  { cbn in E. injection E as <-. done. }
  apply (next_proposers_head _ _ _ _ Hp) in E. rewrite E. cbn.
  destruct (StringToBytes (Signer p)) as [b|e|]; cbn; try done. intros [= Hb%bool_decide_eq_true_1]. by subst b.
Qed.

(** ** A checkpoint *)

Section checkpoint.
Context {AC : AddressCodec} {AL : AddressCodecLaws} {HF : HashFunction} {ML : MerkleLibrary} {BN : BorNode} {RC : RootChain} {RH : RootChainHead}.
Context (out_of_range : SpecFloat.spec_float -> Z) (n : BridgeNode) (params : ChainManagerParams) (cpParams : CheckpointParams).
Context (vs : ValidatorSet) (p : Validator) (lastEnd headerNumber : Z).
#[local] Abbreviation s := (bn_checkpoint n).
#[local] Abbreviation confirmed := (headerNumber - BorChainTxConfirmations params).
#[local] Abbreviation accounts := (GetAllDividendAccounts (bn_topup n)).

(** The block up to which checkpoints are stored, and after which the next one starts. *)
Inductive stored_up_to : Z -> Prop :=
| stored_none : GetLastCheckpoint s = Err ErrNoCheckpointFound -> stored_up_to 0
| stored_last c : GetLastCheckpoint s = Ok c -> 0 < cp_EndBlock c -> stored_up_to (cp_EndBlock c).
Definition next_block : Z := if 0 <? lastEnd then lastEnd + 1 else 0.

(** The node's parameters are those of the chain, its validators know their proposer,
    the root chain has the checkpoints heimdall has, and they end before the confirmed
    blocks, which exist on every Bor node. *)
Record in_step : Prop := {
  is_params : bn_params n = Some params;
  is_cp_params : GetCheckpointParams s = Ok cpParams;
  is_lengths : 2 <= AvgCheckpointLength cpParams <= MaxCheckpointLength cpParams /\ MaxCheckpointLength cpParams <= MaxInt64;
  is_set : validatorSet (bn_stake n) = Some vs;
  is_proposer : Proposer vs = Some p;
  is_stored : stored_up_to lastEnd;
  is_header : exists cur root st prop, CurrentHeaderBlock (RootChainAddress params) (ChildChainBlockInterval cpParams) = Ok cur /\
    GetHeaderInfo (RootChainAddress params) cur (ChildChainBlockInterval cpParams) = Ok (root, st, lastEnd, prop);
  is_confirmed : 0 <= lastEnd < confirmed /\ 0 <= BorChainTxConfirmations params /\ headerNumber <= MaxInt64;
  is_blocks : forall m, 0 <= m <= headerNumber -> exists h, HeaderByNumber m = Ok (Some h) /\ u64 (Number h) = m;
  is_chain_id : (ParseUint (BorChainId params)).2 = true;
}.

(** The cached roots are those of the Bor node. *)
Definition honest_cache (caches : CheckpointCaches) : Prop :=
  forall start end_ len item, rootCache caches !! (start, end_, len) = Some item -> GetRootHash start end_ len = Ok (Value item).

Lemma blocks_exist m : in_step -> 0 <= m <= headerNumber -> CheckIfBlocksExist m = Ok true.
Proof.
  intros H Hm. pose proof (is_blocks H m Hm) as (h & Hh & Hn). pose proof (is_confirmed H) as (_ & _ & Hi).
  unfold CheckIfBlocksExist. rewrite i64_id by (unfold in_i64, MinInt64, MaxInt64 in *; lia). rewrite Hh. cbn.
  by rewrite Hn, Z.eqb_refl.
Qed.

Lemma valid_checkpoint clock caches start end_ root : in_step -> honest_cache caches -> 0 <= end_ <= confirmed ->
  GetRootHash start end_ (MaxCheckpointLength cpParams) = Ok root ->
  (IsValidCheckpoint clock caches start end_ root (MaxCheckpointLength cpParams) (BorChainTxConfirmations params)).1 = Ok true.
Proof.
  intros H Hcache He Hroot. pose proof (is_confirmed H) as (Hl & Hc & Hi). unfold IsValidCheckpoint.
  assert (exists caches', exists_checked clock caches end_ (BorChainTxConfirmations params) = (Ok tt, caches') /\
    rootCache caches' = rootCache caches) as (caches' & -> & Hsame).
  { unfold exists_checked. destruct (cache_Get _ _ _) as [cached ec]. destruct cached as [[]|]; [by eexists| |].
    all: rewrite u64_id by (unfold in_u64, MaxUint64, MaxInt64 in *; lia); rewrite blocks_exist by (done || lia); by eexists. }
  unfold root_checked, cache_Get. rewrite Hsame. destruct (rootCache caches !! _) as [item|] eqn:Ei.
  - apply Hcache in Ei. rewrite Hroot in Ei. injection Ei as ->. destruct (Expiration item <? clock 2%nat).
    + rewrite Hroot. cbn. by rewrite bool_decide_true.
    + cbn. by rewrite bool_decide_true.
  - rewrite Hroot. cbn. by rewrite bool_decide_true.
Qed.

(** What the network does with a checkpoint message, in the block of [ctx]: its basic
    validation, the message server, the votes, the post-handler. *)
Definition accepted (ctx : Ctx) (msg : MsgCheckpoint) : Prop :=
  ValidateBasic_Checkpoint msg = Ok tt /\
  MsgServer_Checkpoint out_of_range ctx accounts (bn_stake n) s msg = Ok (FlushCheckpointBuffer s) /\
  (forall clock caches, honest_cache caches ->
     SideHandleMsgCheckpoint clock caches accounts (Some params) (bn_stake n) s msg = Ok VOTE_YES) /\
  exists s' c, PostHandleMsgCheckpoint ctx (FlushCheckpointBuffer s) msg VOTE_YES = Ok s' /\ bufferedCheckpoint s' = Some c /\
    cp_StartBlock c = mc_StartBlock msg /\ cp_EndBlock c = mc_EndBlock msg /\ cp_RootHash c = mc_RootHash msg.

Lemma continuity_holds st e : stored_up_to lastEnd -> 0 <= lastEnd < MaxUint64 -> GetLastCheckpoint st = GetLastCheckpoint s ->
  continuity st next_block e = Ok tt.
Proof.
  intros Hs Hl E. unfold continuity, next_block. rewrite E. inversion Hs as [Hn Hz|c Hc Hpos Hz]; rewrite Hn || rewrite Hc.
  - rewrite bool_decide_true by done. by destruct (Z.ltb_spec 0 0).
  - rewrite (proj2 (Z.ltb_lt 0 (cp_EndBlock c))) by done. rewrite u64_id by (unfold in_u64; lia). by rewrite Z.eqb_refl.
Qed.

Lemma proposer_holds address : in_step -> StringToBytes (Signer p) = Ok (bn_own n) -> BytesToString (bn_own n) = Ok address ->
  check_proposer (bn_stake n) (FormatAddress address) = Ok tt.
Proof.
  intros H Hown Ha. unfold check_proposer, GetValidatorSet. rewrite (is_set H). cbn. rewrite (is_proposer H).
  rewrite format_address_idem, (codec_format _ _ _ Hown Ha), String.eqb_refl. done.
Qed.

(** A new checkpoint waits for the one in the buffer; later it may go on. *)
Lemma buffer_free now ctx : bn_up n "/checkpoints/buffer" = true -> buffer_busy out_of_range n cpParams now = false ->
  now <= u64 (BlockTime ctx) -> 0 <= cp_Timestamp (GetCheckpointFromBuffer s) -> in_u64 now ->
  (cp_Timestamp (GetCheckpointFromBuffer s) =? 0)
  || ((cp_Timestamp (GetCheckpointFromBuffer s) <? u64 (BlockTime ctx))
      && (uint_seconds out_of_range (CheckpointBufferTime cpParams) <=? u64 (BlockTime ctx) - cp_Timestamp (GetCheckpointFromBuffer s))) = true.
Proof.
  intros Hup. unfold buffer_busy, FetchFromAPI, GetCheckpointBuffer, uint_seconds. rewrite Hup.
  set (t := cp_Timestamp _). set (b := uint_of _ _). destruct (Z.eqb_spec t 0); [done|]. cbn [negb andb orb].
  intros [H1%Z.leb_gt H2%Z.ltb_ge]%orb_false_iff Hnow Ht Hin. rewrite u64_id in H2 by (unfold in_u64 in *; lia).
  apply andb_true_iff. split; [apply Z.ltb_lt|apply Z.leb_le]; lia.
Qed.

Lemma post_checkpoint_holds ctx msg : stored_up_to lastEnd -> 0 <= lastEnd < MaxUint64 -> mc_StartBlock msg = next_block ->
  exists s' c, PostHandleMsgCheckpoint ctx (FlushCheckpointBuffer s) msg VOTE_YES = Ok s' /\ bufferedCheckpoint s' = Some c /\
    cp_StartBlock c = mc_StartBlock msg /\ cp_EndBlock c = mc_EndBlock msg /\ cp_RootHash c = mc_RootHash msg.
Proof.
  intros Hs Hl Hstart. unfold PostHandleMsgCheckpoint. cbn [IsSideTxApproved negb fail_if].
  rewrite Hstart, continuity_holds by done. cbn.
  set (l := last_id _). unfold SetCheckpointBuffer. cbn [cp_Id with_cp_proposer].
  destruct (u64 (l + 1) =? 0) eqn:E; [|eexists _, _; by repeat split].
  inversion Hs as [Hn Hz|c Hc Hpos Hz].
  - exfalso. revert E. unfold l, last_id. change (GetLastCheckpoint (FlushCheckpointBuffer s)) with (GetLastCheckpoint s).
    rewrite Hn. done.
  - change (GetLastCheckpoint (FlushCheckpointBuffer s)) with (GetLastCheckpoint s). rewrite Hc. cbn.
    eexists _, _. by repeat split.
Qed.

Lemma account_root_holds root msg : fetchDividendAccountRoot n = Ok root -> mc_AccountRootHash msg = root ->
  check_account_root accounts msg = Ok tt.
Proof.
  intros H%fetch_ok Hr. unfold GetDividendAccountRootHash in H. unfold check_account_root. rewrite Hr.
  destruct (GetAccountRootHash accounts) as [r|e|]; cbn in *; [|done..]. destruct (length r =? 0)%nat; [done|].
  cbn in H. injection H as ->. by rewrite bool_decide_true.
Qed.

Lemma root_hash_shape start end_ len root : GetRootHash start end_ len = Ok root ->
  length root = HashLength /\ root <> zero_hash /\ u64 (u64 (end_ - start) + 1) <= len.
Proof.
  unfold GetRootHash. intros H. apply fail_if_ok in H as [_ H]. apply fail_if_ok in H as [Hlen H].
  destruct (RootHashOf start end_); cbn in H; [|done..]. apply fail_if_ok in H as [Hl H]. apply fail_if_ok in H as [Hz H].
  injection H as <-. apply negb_false_iff, Nat.eqb_eq in Hl. apply bool_decide_eq_false in Hz. apply Z.ltb_ge in Hlen. done.
Qed.

(** The range of a checkpoint the processor creates. *)
Definition whole_range (start end_ : Z) : Prop :=
  start < end_ <= confirmed /\ end_ - start + 1 <= MaxCheckpointLength cpParams /\
  ((end_ - start + 1) mod AvgCheckpointLength cpParams = 0 \/ end_ - start + 1 = MaxCheckpointLength cpParams).

Lemma created_accepted ctx end_ msg : in_step -> StringToBytes (Signer p) = Ok (bn_own n) -> bn_own n <> [] ->
  expected_end next_block confirmed cpParams = Ok end_ ->
  (cp_Timestamp (GetCheckpointFromBuffer s) =? 0)
  || ((cp_Timestamp (GetCheckpointFromBuffer s) <? u64 (BlockTime ctx))
      && (uint_seconds out_of_range (CheckpointBufferTime cpParams) <=? u64 (BlockTime ctx) - cp_Timestamp (GetCheckpointFromBuffer s))) = true ->
  createAndSendCheckpointToHeimdall n (params, cpParams) next_block end_ = Ok (Send (BCheckpoint msg)) ->
  mc_StartBlock msg = next_block /\ whole_range next_block (mc_EndBlock msg) /\ accepted ctx msg.
Proof.
  intros H Hown Hne He Hbuf. unfold createAndSendCheckpointToHeimdall. cbn [fst snd]. destruct ((end_ =? 0) || _) eqn:Hg; [done|].
  apply orb_false_iff in Hg as [He0%Z.eqb_neq Hse%Z.leb_gt].
  destruct (GetRootHash _ _ _) as [root|e|] eqn:Hroot; cbn; [|done..].
  destruct (fetchDividendAccountRoot n) as [ar|e|] eqn:Har; cbn; [|done..].
  destruct (GetAddressString n) as [address|e|] eqn:Haddr; cbn; [|done..]. intros [= <-]. cbn [mc_StartBlock mc_EndBlock].
  pose proof (is_confirmed H) as (Hl & Hc & Hi). pose proof (is_lengths H) as (Hlen & Hmax). pose proof (is_stored H) as Hst.
  pose proof (root_hash_shape _ _ _ _ Hroot) as (Hr1 & Hr2 & Hr3). unfold MaxInt64 in *.
  assert (0 <= next_block <= confirmed) as Hnb by (unfold next_block; destruct (Z.ltb_spec 0 lastEnd); lia).
  destruct (expected_end_spec next_block confirmed cpParams end_ ltac:(lia) ltac:(unfold MaxInt64; lia) ltac:(lia)
    ltac:(unfold MaxUint64; lia) He) as [[_ [?|?]]|(_ & Hrange & Hmod)]; [lia|lia|].
  rewrite u64_add_l, u64_id in Hr3 by (unfold in_u64, MaxUint64; lia).
  assert (next_block < end_) by lia. split; [done|]. split; [|unfold accepted; split_and!].
  - split; [lia|]. split; [lia|]. destruct Hmod as [[Hmod _]|Hmod]; [by left|by right].
  - unfold ValidateBasic_Checkpoint. cbn. rewrite (is_chain_id H). cbn. rewrite bool_decide_false by done.
    rewrite Hr1. cbn. unfold valid_from. rewrite (codec_parse _ _ Haddr). rewrite bool_decide_false by done. cbn.
    rewrite (proj2 (Z.leb_gt end_ next_block)), (proj2 (Z.eqb_neq end_ 0)) by lia. done.
  - unfold MsgServer_Checkpoint. rewrite (is_cp_params H). cbn. rewrite Hbuf. cbn.
    rewrite continuity_holds by (done || (unfold MaxUint64; lia)). cbn.
    erewrite account_root_holds by done. cbn. by rewrite proposer_holds.
  - intros clock caches Hcache. unfold SideHandleMsgCheckpoint. cbn [some_or_no mc_BorChainId mc_StartBlock mc_EndBlock mc_RootHash mc_Proposer].
    rewrite (is_cp_params H). cbn [or_no]. unfold ValidateChainID. rewrite String.eqb_refl. cbn [negb no_if].
    rewrite continuity_holds by (done || (unfold MaxUint64; lia)). cbn [or_no]. rewrite proposer_holds by done. cbn [or_no].
    erewrite account_root_holds by done. cbn [or_no]. by rewrite (valid_checkpoint clock caches next_block end_ root) by (done || lia).
  - apply post_checkpoint_holds; [done|unfold MaxUint64; lia|done].
Qed.

(** The node is the proposer's, its API and the chains answer, and no checkpoint is in
    the way at the time [now]. *)
Record able (now : GoTime) : Prop := {
  ab_up : forall url, bn_up n url = true;
  ab_own : StringToBytes (Signer p) = Ok (bn_own n) /\ bn_own n <> [] /\ is_ok (BytesToString (bn_own n)) = true;
  ab_turn : Validators vs <> [] /\ is_ok (IncrementProposerPriority vs 1) = true;
  ab_instance : GetRootChainInstance (RootChainAddress params) = true;
  ab_accounts : exists root, GetAccountRootHash accounts = Ok root /\ root <> [];
  ab_roots : forall a b, 0 <= a < b -> b <= confirmed -> b - a + 1 <= MaxCheckpointLength cpParams ->
    is_ok (GetRootHash a b (MaxCheckpointLength cpParams)) = true;
  ab_buffer : buffer_busy out_of_range n cpParams (u64 (unix_of now)) = false;
}.

Lemma is_proposer_here now : in_step -> able now -> IsProposer n = Ok true.
Proof.
  intros H [Hup (Hown & _) (Hne & Hturn) _ _ _ _]. unfold IsProposer, FetchFromAPI. rewrite Hup.
  unfold GetProposersByTimes, GetValidatorSet. rewrite (is_set H). cbn -[next_proposers].
  destruct (Validators vs) as [|v l] eqn:Ev; [done|]. cbn -[next_proposers].
  change (MaxInt64 <=? 1) with false. change (Z.to_nat 1 `min` S (length l))%nat with 1%nat. cbn.
  unfold GetProposer, IsNilOrEmpty. rewrite Ev. cbn. rewrite (is_proposer H). cbn.
  destruct (IncrementProposerPriority vs 1); [|done..]. cbn. rewrite Hown. cbn. by rewrite bool_decide_true.
Qed.

Lemma expected_end_due : in_step -> (MaxCheckpointLength cpParams + 1) mod AvgCheckpointLength cpParams <> 0 ->
  AvgCheckpointLength cpParams <= confirmed - next_block + 1 ->
  exists end_, expected_end next_block confirmed cpParams = Ok end_ /\ next_block < end_ <= confirmed /\
    end_ - next_block + 1 <= MaxCheckpointLength cpParams.
Proof.
  intros H Hmod Hdue. pose proof (is_confirmed H) as (Hl & Hc & Hi). pose proof (is_lengths H) as (Hlen & Hmax).
  unfold MaxInt64 in *. assert (0 <= next_block <= confirmed) as Hnb by (unfold next_block; destruct (Z.ltb_spec 0 lastEnd); lia).
  destruct (expected_end next_block confirmed cpParams) as [end_|e|] eqn:E.
  2,3: exfalso; revert E; unfold expected_end; rewrite (proj2 (Z.eqb_neq (AvgCheckpointLength cpParams) 0)) by lia; by case_match.
  exists end_. split; [done|].
  destruct (expected_end_spec next_block confirmed cpParams end_ ltac:(lia) ltac:(unfold MaxInt64; lia) ltac:(lia)
    ltac:(unfold MaxUint64; lia) E) as [[? _]|(_ & Hrange & [[Hm Hle]|Hm])]; [lia| |lia].
  assert (end_ - next_block + 1 <> MaxCheckpointLength cpParams + 1) by (intros Heq; rewrite Heq in Hm; done).
  assert (end_ <> next_block); [|lia]. intros ->. rewrite Z.sub_diag in Hm.
  rewrite Z.mod_small in Hm by lia. lia.
Qed.

Lemma next_expected_due end_ : in_step -> GetRootChainInstance (RootChainAddress params) = true ->
  expected_end next_block confirmed cpParams = Ok end_ ->
  nextExpectedCheckpoint (params, cpParams) confirmed = Ok (next_block, end_).
Proof.
  intros H Hi He. pose proof (is_header H) as (cur & root & st & prop & Hc & Hh).
  pose proof (is_confirmed H) as (Hl & Hcf & Hm). unfold MaxInt64 in Hm.
  unfold nextExpectedCheckpoint. cbn [fst snd]. rewrite Hi. cbn. rewrite Hc. cbn. rewrite Hh. cbn.
  replace (if 0 <? lastEnd then u64 (lastEnd + 1) else lastEnd) with next_block; [by rewrite He|].
  unfold next_block. destruct (Z.ltb_spec 0 lastEnd); [|lia]. by rewrite u64_id by (unfold in_u64, MaxUint64; lia).
Qed.

(** C20: a checkpoint that is due is made, and the network takes it.  With at least the
    average number of new confirmed Bor blocks, the proposer's bridge sends a checkpoint
    that starts after the last one, ends at a confirmed block and has a multiple of the
    average length, or the maximum; its basic validation, the message server and the
    votes of the others accept it and its approval puts it in the buffer. *)
Theorem due_checkpoint_is_accepted now ctx :
  in_step -> able now -> (MaxCheckpointLength cpParams + 1) mod AvgCheckpointLength cpParams <> 0 ->
  AvgCheckpointLength cpParams <= confirmed - next_block + 1 ->
  u64 (unix_of now) <= u64 (BlockTime ctx) -> 0 <= cp_Timestamp (GetCheckpointFromBuffer s) ->
  exists msg, sendCheckpointToHeimdall out_of_range n now headerNumber = Ok (Send (BCheckpoint msg)) /\
    mc_StartBlock msg = next_block /\ whole_range next_block (mc_EndBlock msg) /\ accepted ctx msg.
Proof.
  intros H Hable Hmod Hdue Htime Hts. pose proof Hable as [Hup (Hown & Hne & Hstr) _ Hinst (ar & Har & Harne) Hroots Hbusy].
  destruct (expected_end_due H Hmod Hdue) as (end_ & He & Hrange & Hlen).
  pose proof (is_confirmed H) as (Hl & Hc & Hm). unfold MaxInt64 in Hm.
  assert (0 <= next_block) by (unfold next_block; destruct (Z.ltb_spec 0 lastEnd); lia).
  pose proof (buffer_free _ ctx (Hup _) Hbusy Htime Hts (u64_range _)) as Hfree.
  destruct (BytesToString (bn_own n)) as [address|e|] eqn:Haddr; [|done..].
  destruct (GetRootHash next_block end_ (MaxCheckpointLength cpParams)) as [root|e|] eqn:Hroot;
    [|by specialize (Hroots next_block end_ ltac:(lia) ltac:(lia) Hlen); rewrite Hroot in Hroots..].
  eassert (createAndSendCheckpointToHeimdall n (params, cpParams) next_block end_ = Ok (Send (BCheckpoint _))) as Hsend.
  { unfold createAndSendCheckpointToHeimdall. cbn [fst snd].
    rewrite (proj2 (Z.eqb_neq end_ 0)), (proj2 (Z.leb_gt end_ next_block)) by lia. cbn [orb]. rewrite Hroot. cbn.
    unfold fetchDividendAccountRoot, GetAddressString. erewrite fetch_up; [|by apply Hup|].
    - rewrite Haddr. reflexivity.
    - unfold GetDividendAccountRootHash. rewrite Har. cbn. by destruct ar. }
  eexists. split; [|by eapply created_accepted].
  unfold sendCheckpointToHeimdall. rewrite (is_proposer_here now) by done. cbn -[createAndSendCheckpointToHeimdall nextExpectedCheckpoint getCheckpointContext].
  unfold getCheckpointContext, GetChainmanagerParams. cbn -[createAndSendCheckpointToHeimdall nextExpectedCheckpoint].
  rewrite (fetch_up n _ _ params) by (rewrite ?(is_params H); done). cbn -[createAndSendCheckpointToHeimdall nextExpectedCheckpoint].
  rewrite (fetch_up n _ _ cpParams) by (unfold GetCheckpointParams_query; rewrite ?(is_cp_params H); done).
  cbn -[createAndSendCheckpointToHeimdall nextExpectedCheckpoint].
  rewrite (u64_id headerNumber), (u64_id confirmed) by (unfold in_u64, MaxUint64; lia).
  rewrite (proj2 (Z.leb_gt _ _)) by lia. cbn -[createAndSendCheckpointToHeimdall nextExpectedCheckpoint].
  rewrite (next_expected_due end_) by done. cbn -[createAndSendCheckpointToHeimdall]. rewrite Hbusy. exact Hsend.
Qed.
End checkpoint.

(** ** An acknowledgement *)

Section ack.
Context {AC : AddressCodec} {AL : AddressCodecLaws} {BN : BorNode} {RC : RootChain}.
Context (n : BridgeNode) (params : ChainManagerParams) (cpParams : CheckpointParams) (event : RootchainNewHeaderBlock) (number : Z) (c : Checkpoint).
#[local] Abbreviation s := (bn_checkpoint n).

(** The event of the header block [number] of the root chain, the next one of heimdall,
    for the checkpoint [c] in the buffer: it starts where [c] does, and has the root of
    [c] when it ends there too. *)
Record next_header : Prop := {
  nx_params : bn_params n = Some params;
  nx_cp_params : GetCheckpointParams s = Ok cpParams;
  nx_instance : GetRootChainInstance (RootChainAddress params) = true;
  nx_interval : 0 < ChildChainBlockInterval cpParams;
  nx_id : nh_HeaderBlockId event = number * ChildChainBlockInterval cpParams;
  nx_header : exists prop, HeaderBlocks (RootChainAddress params) (number * ChildChainBlockInterval cpParams)
                = Some (nh_Root event, nh_Start event, nh_End event, prop) /\ FormatAddress (nh_Proposer event) = FormatAddress prop;
  nx_range : in_u64 (nh_Start event) /\ in_u64 (nh_End event) /\ nh_Start event < nh_End event;
  nx_root : length (nh_Root event) = HashLength /\ nh_Root event <> zero_hash;
  nx_proposer : exists b, StringToBytes (nh_Proposer event) = Ok b /\ b <> [];
  nx_number : 0 < number <= MaxUint64 /\ expected_number s = Ok number /\ GetAckCount s + 1 = number /\ checkpoints s !! number = None;
  nx_last : forall last, GetLastCheckpoint s = Ok last -> cp_EndBlock last < nh_End event;
  nx_buffer : bufferedCheckpoint s = Some c /\ IsBufferedCheckpointZero c = false /\ cp_StartBlock c = nh_Start event /\
    (cp_EndBlock c = nh_End event -> cp_RootHash c = nh_Root event);
}.

Definition ack_of (address : string) : MsgCpAck :=
  {| ma_From := FormatAddress address; ma_Number := number; ma_Proposer := nh_Proposer event; ma_StartBlock := nh_Start event;
     ma_EndBlock := nh_End event; ma_RootHash := nh_Root event |}.

Lemma ack_sent address : next_header -> (forall url, bn_up n url = true) -> BytesToString (bn_own n) = Ok address ->
  sendCheckpointAckToHeimdall n (Some event) = Ok (Send (BCpAck (ack_of address))).
Proof.
  intros H Hup Haddr. unfold sendCheckpointAckToHeimdall, getCheckpointContext, GetChainmanagerParams.
  rewrite (fetch_up n _ _ params) by (rewrite ?(nx_params H); done). cbn.
  rewrite (fetch_up n _ _ cpParams) by (unfold GetCheckpointParams_query; rewrite ?(nx_cp_params H); done). cbn.
  pose proof (nx_interval H). rewrite (proj2 (Z.eqb_neq (ChildChainBlockInterval cpParams) 0)) by lia. cbn.
  pose proof (nx_range H) as (Hs & He & _). rewrite (u64_id (nh_End event)), (u64_id (nh_Start event)) by done.
  assert (big_div (nh_HeaderBlockId event) (ChildChainBlockInterval cpParams) = number) as ->.
  { rewrite (nx_id H). unfold big_div. rewrite (proj2 (Z.ltb_lt _ _)) by lia. by rewrite Z.div_mul by lia. }
  rewrite u64_id by (pose proof (nx_number H); unfold in_u64; lia).
  assert (match FetchFromAPI n "/checkpoints/latest" (GetCheckpointLatest s) with
          | Ok c0 => nh_End event <=? cp_EndBlock c0 | _ => false end = false) as ->.
  { destruct (FetchFromAPI _ _ _) as [l|e|] eqn:E; [|done..]. apply fetch_ok, or_err_ok, (nx_last H) in E. by apply Z.leb_gt. }
  unfold GetFromAddress, GetAddressString. by rewrite Haddr.
Qed.

Lemma ack_matches address : next_header -> ack_matches_buffer s (ack_of address) = Ok c.
Proof.
  intros H. pose proof (nx_buffer H) as (Hb & Hz & Hs & Hr). unfold ack_matches_buffer, GetCheckpointFromBuffer. rewrite Hb, Hz. cbn.
  rewrite Hs, Z.eqb_refl. cbn. destruct (Z.eqb_spec (nh_End event) (cp_EndBlock c)); [|done].
  by rewrite Hr, bool_decide_true.
Qed.

Lemma ack_accepted address ss ss' vs r : next_header -> BytesToString (bn_own n) = Ok address -> bn_own n <> [] ->
  IncrementAccum ss 1 = Ok ss' -> GetValidatorSet ss' = Ok vs -> GetProposer vs = Ok r ->
  ValidateBasic_CpAck (ack_of address) = Ok tt /\ MsgServer_CheckpointAck s (ack_of address) = Ok tt /\
  SideHandleMsgCheckpointAck (Some params) s (ack_of address) = Ok VOTE_YES /\
  exists s' c', PostHandleMsgCheckpointAck ss s (ack_of address) VOTE_YES = Ok (s', ss') /\ GetLastCheckpoint s' = Ok c' /\
    bufferedCheckpoint s' = None /\ cp_Id c' = number /\ cp_StartBlock c' = nh_Start event /\ cp_EndBlock c' = nh_End event /\
    cp_RootHash c' = nh_Root event.
Proof.
  intros H Haddr Hne Hss Hvs Hr. pose proof (nx_range H) as (Hs & He & Hlt). pose proof (nx_root H) as (Hl & Hz).
  pose proof (nx_number H) as (Hpos & Hexp & Hack & Hnone). pose proof (nx_proposer H) as (b & Hb & Hbne).
  assert ((nh_End event <=? nh_Start event) = false) as Hle by (by apply Z.leb_gt). split_and!.
  - unfold ValidateBasic_CpAck. cbn. unfold valid_from. rewrite (codec_parse _ _ Haddr), Hb. cbn -[bool_decide].
    rewrite (bool_decide_false (bn_own n = [])) by done. cbn -[bool_decide]. rewrite (bool_decide_false (b = [])) by done. cbn.
    rewrite Hle, Hl. cbn. by rewrite bool_decide_false.
  - unfold MsgServer_CheckpointAck. cbn [ma_EndBlock ma_StartBlock ack_of]. rewrite Hle, Hexp. cbn. rewrite Z.eqb_refl. cbn.
    by rewrite ack_matches.
  - unfold SideHandleMsgCheckpointAck. cbn [ma_EndBlock ma_StartBlock ma_Number ack_of]. rewrite Hle, Hexp. cbn.
    rewrite Z.eqb_refl. cbn. rewrite ack_matches by done. cbn. rewrite (nx_cp_params H). cbn. rewrite (nx_instance H). cbn.
    pose proof (nx_header H) as (prop & Hh & Hp). unfold GetHeaderInfo. rewrite Hh. cbn.
    rewrite !u64_id, !Z.eqb_refl, Hp, String.eqb_refl, bool_decide_true by done. done.
  - unfold PostHandleMsgCheckpointAck. cbn [IsSideTxApproved negb fail_if]. rewrite ack_matches by done. cbn.
    unfold AddCheckpoint. rewrite bool_decide_false by (cbn; rewrite Hnone; by intros [? ?]). cbn. rewrite Hss. cbn.
    rewrite Hvs. cbn. rewrite Hr. cbn. eexists _, _. split; [done|].
    unfold GetLastCheckpoint, GetCheckpointByNumber. cbn. change (GetAckCount (FlushCheckpointBuffer _)) with (GetAckCount s).
    rewrite Hack, u64_id by (unfold in_u64; lia). rewrite (proj2 (Z.eqb_neq number 0)) by lia. cbn. rewrite lookup_insert_eq. cbn.
    split; [done|]. pose proof (nx_buffer H) as (_ & _ & Hst & Hroot). cbn. rewrite Hst.
    destruct (Z.eqb_spec (cp_EndBlock c) (nh_End event)) as [Heq|]; cbn; [|done]. by rewrite Heq, Hroot.
Qed.
End ack.

(** The event of a header block of the root chain brings its checkpoint home.  When
    the block follows heimdall's last checkpoint and starts where the buffered one does,
    a bridge sends the acknowledgement; its basic validation, the message server and the
    votes accept it, and its approval stores the checkpoint with the range and the root
    of the header block, under its number, as the last one, and empties the buffer. *)
Theorem header_event_is_acknowledged {AC : AddressCodec} {AL : AddressCodecLaws} {BN : BorNode} {RC : RootChain}
    n params cpParams event number c address ss ss' vs r :
  next_header n params cpParams event number c -> (forall url, bn_up n url = true) ->
  BytesToString (bn_own n) = Ok address -> bn_own n <> [] ->
  IncrementAccum ss 1 = Ok ss' -> GetValidatorSet ss' = Ok vs -> GetProposer vs = Ok r ->
  exists msg, sendCheckpointAckToHeimdall n (Some event) = Ok (Send (BCpAck msg)) /\
    ValidateBasic_CpAck msg = Ok tt /\ MsgServer_CheckpointAck (bn_checkpoint n) msg = Ok tt /\
    SideHandleMsgCheckpointAck (Some params) (bn_checkpoint n) msg = Ok VOTE_YES /\
    exists s' c', PostHandleMsgCheckpointAck ss (bn_checkpoint n) msg VOTE_YES = Ok (s', ss') /\
      GetLastCheckpoint s' = Ok c' /\ bufferedCheckpoint s' = None /\ cp_Id c' = number /\
      cp_StartBlock c' = nh_Start event /\ cp_EndBlock c' = nh_End event /\ cp_RootHash c' = nh_Root event.
Proof.
  intros H Hup Haddr Hne Hss Hvs Hr. exists (ack_of event number address).
  split; [by eapply ack_sent|]. by eapply ack_accepted.
Qed.

(** ** Staking messages *)

Lemma FromHex_prefixed b : FromHex ("0x" ++ Bytes2Hex b) = b.
Proof.
  change (FromHex _) with (Hex2Bytes (if Nat.odd (String.length (Bytes2Hex b)) then String "0" (Bytes2Hex b) else Bytes2Hex b)).
  rewrite length_Bytes2Hex.
  replace (Nat.odd (2 * length b)) with false; [apply Hex2Bytes_Bytes2Hex|].
  symmetry. rewrite <- Nat.negb_even. by rewrite Nat.even_mul.
Qed.

Lemma drop_spaces_end l c : ascii_is_space c = false -> drop_spaces (l ++ [c]) <> [].
Proof.
  intros Hc. induction l as [|x l IH]; cbn; [by rewrite Hc|]. by destruct (ascii_is_space x).
Qed.
Lemma TxHashString_nonempty h : IsTxHashNonEmpty (TxHashString h) = true.
Proof.
  unfold IsTxHashNonEmpty, TxHashString, trim_space. cbn [String.append list_ascii_of_string drop_spaces].
  change (ascii_is_space "0") with false. cbn iota. cbn [rev].
  pose proof (drop_spaces_end (rev (list_ascii_of_string (Bytes2Hex h)) ++ ["x"%char]) "0" eq_refl) as Hne.
  destruct (drop_spaces _) as [|c l]; [done|]. cbn. destruct (rev l ++ [c]) eqn:E; [by destruct (rev l)|done].
Qed.

Section stake.
Context {AC : AddressCodec} {AL : AddressCodecLaws} {RS : ReceiptSource} {SE : StakeEvents} {TI : TxIndex}.
Context (n : BridgeNode) (params : ChainManagerParams) (vLog : VLog) (receipt : Receipt).
#[local] Abbreviation ss := (bn_stake n).

(** The log of a confirmed transaction of the main chain, for a node whose API answers. *)
Record confirmed_log : Prop := {
  cl_up : forall url, bn_up n url = true;
  cl_params : bn_params n = Some params;
  cl_receipt : GetConfirmedTxReceipt (vl_TxHash vLog) (MainChainTxConfirmations params) = Some receipt;
  cl_block : ReceiptBlockNumber receipt = vl_BlockNumber vLog /\ in_u64 (vl_BlockNumber vLog);
  cl_hash : length (vl_TxHash vLog) = HashLength;
  cl_index : 0 <= vl_Index vLog < MaxInt64;
  cl_own : bn_own n <> [];
}.

Lemma is_old_exact : confirmed_log ->
  isOldTx_staking n vLog = Ok (HasStakingSequence ss (CalculateSequence (vl_BlockNumber vLog) (vl_Index vLog))).
Proof.
  intros H. unfold isOldTx_staking. apply fetch_up; [apply (cl_up H)|]. unfold IsStakeTxOld. cbn -[IsTxHashNonEmpty TxHashString].
  pose proof (cl_index H). pose proof (cl_block H) as [Hb _].
  rewrite TxHashString_nonempty. cbn -[TxHashString]. rewrite (proj2 (Z.leb_gt MaxInt64 (vl_Index vLog))) by lia.
  cbn -[TxHashString]. unfold log_sequence. rewrite (cl_params H). cbn -[TxHashString].
  assert (HexToHash (TxHashString (vl_TxHash vLog)) = vl_TxHash vLog) as ->.
  { unfold HexToHash, TxHashString, BytesToHash. rewrite FromHex_prefixed, (cl_hash H). by rewrite Nat.sub_diag. }
  rewrite (cl_receipt H). cbn. by rewrite Hb.
Qed.

Lemma receipt_validated : confirmed_log ->
  FetchAndValidateReceipt (vl_TxHash vLog) (vl_BlockNumber vLog) (MainChainTxConfirmations params) = Some receipt.
Proof.
  intros H. pose proof (cl_block H) as [Hb Hu]. unfold FetchAndValidateReceipt. rewrite (cl_receipt H), Hb, u64_id by done.
  by rewrite Z.eqb_refl.
Qed.

(** A message goes out only with the next nonce of its validator. *)
Lemma in_order_sent id nonce mk m : in_order n id nonce mk = Ok (Send (BStake m)) ->
  exists v address, GetValidatorFromValID ss id = Ok v /\ nonce = u64 (Nonce v + 1) /\ BytesToString (bn_own n) = Ok address /\
    m = mk (FormatAddress address).
Proof.
  unfold in_order, checkValidNonce, GetValidatorNonce. destruct (FetchFromAPI n _ _) as [v|e|] eqn:E; cbn -[queryTxCount]; [|done..].
  apply fetch_ok in E. unfold GetValidatorById in E. cbn in E. apply fail_if_ok in E as [_ E]. apply or_err_ok in E.
  destruct (Z.eqb_spec (u64 (Nonce v + 1)) nonce) as [Hn|]; cbn -[queryTxCount]; [|intros [=]].
  destruct (queryTxCount id) as [count|e|]; cbn -[queryTxCount]; [|done..]. destruct (negb (count =? 0)); cbn -[queryTxCount]; [intros [=]|].
  unfold GetAddressString. destruct (BytesToString (bn_own n)) as [address|e|]; cbn -[queryTxCount]; [|done..]. intros [= <-]. by exists v, address.
Qed.

(** An event of the staking contract that carries a nonce, its task, and what the main
    chain decodes at the log. *)
Inductive NoncedEvent := EUpdate (e : StakingInfoStakeUpdate) | EExit (e : StakingInfoUnstakeInit) | ESigner (e : StakingInfoSignerChange).
Definition stake_task (event : NoncedEvent) : outcome TaskResult :=
  match event with
  | EUpdate e => sendStakeUpdateToHeimdall n vLog (Some e)
  | EExit e => sendUnstakeInitToHeimdall n vLog (Some e)
  | ESigner e => sendSignerChangeToHeimdall n vLog (Some e)
  end.
Definition decoded (event : NoncedEvent) : Prop :=
  match event with
  | EUpdate e => DecodeValidatorStakeUpdateEvent (StakingInfoAddress params) receipt (vl_Index vLog) = Some e
  | EExit e => DecodeValidatorExitEvent (StakingInfoAddress params) receipt (vl_Index vLog) = Some e
  | ESigner e => DecodeSignerUpdateEvent (StakingInfoAddress params) receipt (vl_Index vLog) = Some e
  end.
Definition event_validator (event : NoncedEvent) : Z :=
  match event with EUpdate e => u64 (sue_ValidatorId e) | EExit e => u64 (ui_ValidatorId e) | ESigner e => u64 (sc_ValidatorId e) end.
Definition event_nonce (event : NoncedEvent) : Z :=
  match event with EUpdate e => u64 (sue_Nonce e) | EExit e => u64 (ui_Nonce e) | ESigner e => u64 (sc_Nonce e) end.
(** What else the validators ask of the event, for the validator [v]: the amount makes a
    power; the validator has not exited; the new key is an uncompressed one, of the new
    signer, who is not the old one. *)
Definition admissible (event : NoncedEvent) (v : Validator) : Prop :=
  match event with
  | EUpdate e => ValidateVotingPower (sue_NewAmount e) = true
  | EExit _ => EndEpoch v = 0
  | ESigner e => length (sc_SignerPubkey e) = 64%nat /\ exists addr b,
      PubKeyAddress (AppendPrefix (sc_SignerPubkey e)) = Some addr /\ AppendPrefix (sc_SignerPubkey e) <> EmptyPubKey /\
      StringToBytes (AddressString addr) = Ok b /\ StringToBytes (sc_NewSigner e) = Ok b /\
      AddressString addr <> FormatAddress (Signer v)
  end.
Definition msg_nonce (msg : StakeMsg) : Z :=
  match msg with MValidatorJoin m => vj_Nonce m | MStakeUpdate m => su_Nonce m | MSignerUpdate m => sg_Nonce m | MValidatorExit m => ve_Nonce m end.

Lemma sender_valid address : confirmed_log -> BytesToString (bn_own n) = Ok address -> valid_from (FormatAddress address) = Ok tt.
Proof.
  intros H Ha. unfold valid_from. rewrite (codec_parse _ _ Ha). by rewrite bool_decide_false by apply (cl_own H).
Qed.
Lemma hash_length : confirmed_log -> (length (vl_TxHash vLog) =? HashLength)%nat = true.
Proof. intros H. apply Nat.eqb_eq, (cl_hash H). Qed.

Ltac sent H := match goal with
  | Hlog : confirmed_log |- _ =>
      let Hold := fresh "Hold" in rewrite (is_old_exact Hlog) in H; cbn [is_old mbind outcome_bind] in H;
      destruct (HasStakingSequence _ _) eqn:Hold; [done|]; apply in_order_sent in H as (v & address & Hv & Hn & Ha & ->)
  end.

Lemma votable_positive amount : ValidateVotingPower amount = true -> (amount <=? 0) = false.
Proof.
  unfold ValidateVotingPower, GetPowerFromAmount. destruct (Z.ltb_spec amount decimals18); [done|]. intros _.
  apply Z.leb_gt. unfold decimals18 in *. lia.
Qed.

Definition accepted_event (event : NoncedEvent) (m : StakeMsg) : Prop :=
  exists v, GetValidatorFromValID ss (event_validator event) = Ok v /\ msg_nonce m = u64 (Nonce v + 1) /\
    (admissible event v -> event_validator event <> 0 -> StakeHandlers.SideTxHandler ss (Some params) m = Ok VOTE_YES).

Lemma update_accepted e m : confirmed_log -> decoded (EUpdate e) -> stake_task (EUpdate e) = Ok (Send (BStake m)) ->
  accepted_event (EUpdate e) m.
Proof.
  intros Hlog Hd H. cbn in H, Hd. unfold sendStakeUpdateToHeimdall in H. sent H.
  exists v. split; [done|]. split; [done|]. cbn. intros Hadm Hid.
  unfold SideHandleMsgStakeUpdate, ValidateBasic_StakeUpdate. cbn.
  rewrite (proj2 (Z.eqb_neq _ 0)) by done. cbn. rewrite (sender_valid _ Hlog Ha). cbn.
  rewrite (votable_positive _ Hadm). cbn. rewrite (hash_length Hlog). cbn. rewrite Hv. cbn. rewrite Hold, Hadm. cbn.
  rewrite (receipt_validated Hlog). cbn. rewrite Hd. cbn. by rewrite !Z.eqb_refl.
Qed.
Lemma exit_accepted e m : confirmed_log -> decoded (EExit e) -> stake_task (EExit e) = Ok (Send (BStake m)) ->
  accepted_event (EExit e) m.
Proof.
  intros Hlog Hd H. cbn in H, Hd. unfold sendUnstakeInitToHeimdall in H. sent H.
  exists v. split; [done|]. split; [done|]. cbn. intros Hadm Hid.
  unfold SideHandleMsgValidatorExit, ValidateBasic_ValidatorExit. cbn.
  rewrite (proj2 (Z.eqb_neq _ 0)) by done. cbn. rewrite (sender_valid _ Hlog Ha). cbn.
  rewrite (hash_length Hlog). cbn. rewrite Hv. cbn. rewrite Hadm, Hold. cbn.
  rewrite (receipt_validated Hlog). cbn. rewrite Hd. cbn. by rewrite !Z.eqb_refl.
Qed.
Lemma signer_accepted e m : confirmed_log -> decoded (ESigner e) -> stake_task (ESigner e) = Ok (Send (BStake m)) ->
  accepted_event (ESigner e) m.
Proof.
  intros Hlog Hd H. cbn in H, Hd. unfold sendSignerChangeToHeimdall in H. apply fail_if_ok in H as [_ H]. sent H.
  exists v. split; [done|]. split; [done|]. cbn. intros (Hlen & addr & b & Hpk & Hkey & Hs1 & Hs2 & Hnew) Hid.
  assert (with_prefix (sc_SignerPubkey e) = AppendPrefix (sc_SignerPubkey e)) as Hpre by (unfold with_prefix; by rewrite Hlen).
  unfold SideHandleMsgSignerUpdate, ValidateBasic_SignerUpdate. cbn -[AppendPrefix EmptyPubKey]. rewrite Hpre.
  rewrite (proj2 (Z.eqb_neq _ 0)) by done. cbn -[AppendPrefix EmptyPubKey]. rewrite (sender_valid _ Hlog Ha). cbn -[AppendPrefix EmptyPubKey].
  rewrite (bool_decide_false (Some (AppendPrefix (sc_SignerPubkey e)) = Some EmptyPubKey)) by (intros E; apply (inj Some) in E; done). cbn -[AppendPrefix].
  rewrite (hash_length Hlog). cbn -[AppendPrefix]. rewrite Hv. cbn -[AppendPrefix]. rewrite Hold. cbn -[AppendPrefix].
  rewrite (receipt_validated Hlog). cbn -[AppendPrefix]. rewrite Hd. cbn -[AppendPrefix]. rewrite Z.eqb_refl. cbn -[AppendPrefix].
  change (length (AppendPrefix (sc_SignerPubkey e))) with (S (length (sc_SignerPubkey e))). rewrite Hlen. cbn -[AppendPrefix].
  change (drop 1 (AppendPrefix (sc_SignerPubkey e))) with (sc_SignerPubkey e). rewrite bool_decide_true by done. cbn -[AppendPrefix].
  rewrite Hpk. cbn. rewrite Hs1. cbn. rewrite (proj2 (String.eqb_neq _ _) Hnew). cbn. rewrite Hs2. cbn.
  rewrite bool_decide_true by done. cbn. by rewrite Z.eqb_refl.
Qed.
End stake.

(** A staking message of the bridge is the one its validators wait for.  For the log
    of a confirmed transaction whose event the main chain decodes, the update, exit or
    signer change that a bridge sends has the next nonce of the validator, which the
    post-handler requires, and when the event is admissible every validator votes for
    it; nothing is sent for an event that is recorded, or ahead of its turn. *)
Theorem stake_event_is_accepted {AC : AddressCodec} {AL : AddressCodecLaws} {RS : ReceiptSource} {SE : StakeEvents} {TI : TxIndex}
    n params vLog receipt event :
  confirmed_log n params vLog receipt -> decoded params vLog receipt event ->
  (forall m, stake_task n vLog event = Ok (Send (BStake m)) -> accepted_event n params event m) /\
  (HasStakingSequence (bn_stake n) (CalculateSequence (vl_BlockNumber vLog) (vl_Index vLog)) = true ->
   forall m, stake_task n vLog event <> Ok (Send m)) /\
  (forall v m, GetValidatorFromValID (bn_stake n) (event_validator event) = Ok v -> event_nonce event <> u64 (Nonce v + 1) ->
   stake_task n vLog event <> Ok (Send (BStake m))).
Proof.
  intros Hlog Hd. split; [|split].
  - intros m Hm. destruct event; [by apply (update_accepted n params vLog receipt)|by apply (exit_accepted n params vLog receipt)|by apply (signer_accepted n params vLog receipt)].
  - intros Hold m Hm. destruct event; cbn in Hm; unfold sendStakeUpdateToHeimdall, sendUnstakeInitToHeimdall, sendSignerChangeToHeimdall in Hm;
      [| |apply fail_if_ok in Hm as [_ Hm]]; rewrite (is_old_exact _ _ _ _ Hlog), Hold in Hm; done.
  - intros v m Hv Hne Hm.
    assert (exists v, GetValidatorFromValID (bn_stake n) (event_validator event) = Ok v /\ event_nonce event = u64 (Nonce v + 1)) as (v' & Hv' & Hn').
    { destruct event; cbn in Hm; unfold sendStakeUpdateToHeimdall, sendUnstakeInitToHeimdall, sendSignerChangeToHeimdall in Hm;
        [| |apply fail_if_ok in Hm as [_ Hm]]; rewrite (is_old_exact _ _ _ _ Hlog) in Hm; cbn [is_old mbind outcome_bind] in Hm;
        destruct (HasStakingSequence _ _); try done; apply in_order_sent in Hm as (v' & ? & ? & ? & ? & _); by exists v'. }
    rewrite Hv in Hv'. injection Hv' as <-. done.
Qed.

(** ** No-acks *)

Lemma round_has_proposer vs o vs' : incrementProposerPriority vs = Ok (o, vs') -> IsNilOrEmpty vs = false -> is_Some o.
Proof.
  unfold incrementProposerPriority. intros H Hne. rewrite Hne in H. unfold IsNilOrEmpty in Hne.
  destruct (Validators vs) as [|w l]; [done|]. cbn [map getValWithMostPriority] in H.
  destruct (most_priority _ _ _) as [[i v]|e|]; cbn in H; [|done..].
  destruct (GetTotalVotingPower _) as [[t w']|e|]; cbn in H; [|done..]. injection H as <- <-. by eexists.
Qed.
Lemma increment_has_proposer vs vs' : IncrementProposerPriority vs 1 = Ok vs' -> is_Some (Proposer vs').
Proof.
  unfold IncrementProposerPriority. intros H. ok_inv H. subst. unfold shiftByAvgProposerPriority in Ha1. ok_inv Ha1. subst.
  change (Z.to_nat 1) with 1%nat in Ha2. cbn [increment_rounds] in Ha2. ok_inv Ha2. subst.
  cbn. eapply round_has_proposer; [done|]. unfold IsNilOrEmpty in *. cbn. by destruct (Validators a0).
Qed.

(** The message server looks for the sender among the proposers the query answers. *)
Lemma coming_exact k : forall vs l from, is_Some (Proposer vs) -> next_proposers k vs = Ok l ->
  is_coming_proposer k vs from = Ok (existsb (fun p => String.eqb (FormatAddress (Signer p)) (FormatAddress from)) l).
Proof.
  induction k as [|k IH]; intros vs l from [p Hp] H; cbn [next_proposers is_coming_proposer] in *; [by injection H as <-|].
  unfold GetProposer in H. destruct (IsNilOrEmpty vs); [done|]. rewrite Hp in H |- *. cbn in H |- *.
  destruct (IncrementProposerPriority vs 1) as [vs'|e|] eqn:Ei; cbn in H; [|done..].
  destruct (next_proposers k vs') as [rest|e|] eqn:En; cbn in H; [|done..]. injection H as <-. cbn [existsb].
  destruct (String.eqb _ _); [done|]. cbn. by rewrite (IH _ _ _ (increment_has_proposer _ _ Ei) En).
Qed.
Lemma find_own_exact {AC : AddressCodec} {AL : AddressCodecLaws} n address l : BytesToString (bn_own n) = Ok address ->
  Forall (fun p => is_ok (StringToBytes (Signer p)) = true) l ->
  find_own n l = Ok (existsb (fun p => String.eqb (FormatAddress (Signer p)) (FormatAddress (FormatAddress address))) l).
Proof.
  intros Ha. induction 1 as [|p l Hp HF IH]; [done|]. cbn [find_own existsb].
  destruct (StringToBytes (Signer p)) as [b|e|] eqn:E; [|done..]. cbn. rewrite format_address_idem in *.
  destruct (String.eqb_spec (FormatAddress (Signer p)) (FormatAddress address)) as [Hf|Hf].
  - rewrite bool_decide_true; [done|]. apply codec_formatted in E. rewrite Hf, (codec_parse _ _ Ha) in E. by injection E.
  - rewrite bool_decide_false; [done|]. intros ->. by rewrite (codec_format _ _ _ E Ha) in Hf.
Qed.

(** The bridge and the message server agree on who may send a no-ack.  While the
    turns do not exceed the validators, the bridge finds its node among the proposers of
    the next [count] turns if and only if the message server, which rotates the stored
    set itself, finds the sender of its no-ack there. *)
Theorem no_ack_senders_agree {AC : AddressCodec} {AL : AddressCodecLaws} n vs vs1 count address l :
  (forall url, bn_up n url = true) -> validatorSet (bn_stake n) = Some vs -> is_Some (Proposer vs) ->
  0 <= count < MaxInt64 - 1 -> count + 1 <= Z.of_nat (length (Validators vs)) ->
  IncrementProposerPriority vs 1 = Ok vs1 -> BytesToString (bn_own n) = Ok address ->
  GetProposersByTimes (bn_stake n) (Some (count + 1)) = Ok l -> Forall (fun p => is_ok (StringToBytes (Signer p)) = true) l ->
  IsInProposerList n count = is_coming_proposer (Z.to_nat count) vs1 (FormatAddress address).
Proof.
  intros Hup Hvs [p Hp] Hc Hlen Hi Ha Hl HF. unfold IsInProposerList, MaxInt64 in *.
  rewrite u64_id by (unfold in_u64, MaxUint64; lia). rewrite (fetch_up n _ _ l) by done. cbn [mbind outcome_bind].
  rewrite i64_id by (unfold in_i64, MinInt64, MaxInt64; lia).
  unfold GetProposersByTimes, GetValidatorSet in Hl. rewrite Hvs in Hl. cbn [of_option mbind outcome_bind] in Hl.
  apply fail_if_ok in Hl as [_ Hl]. apply fail_if_ok in Hl as [_ Hl]. cbn [or_err mbind outcome_bind of_option] in Hl.
  rewrite Nat.min_l in Hl by lia. replace (Z.to_nat (count + 1)) with (S (Z.to_nat count)) in Hl by lia.
  cbn [next_proposers] in Hl. unfold GetProposer in Hl. destruct (IsNilOrEmpty vs); [done|]. rewrite Hp in Hl. cbn in Hl.
  rewrite Hi in Hl. cbn in Hl. destruct (next_proposers (Z.to_nat count) vs1) as [rest|e|] eqn:En; cbn in Hl; [|done..].
  injection Hl as <-. cbn [drop]. apply Forall_cons in HF as [_ HF].
  assert (length rest = Z.to_nat count) as Hr by by eapply next_proposers_length.
  rewrite drop_0, firstn_all2, (find_own_exact _ _ _ Ha HF) by lia.
  by rewrite (coming_exact _ _ _ _ (increment_has_proposer _ _ Hi) En).
Qed.

(** The order in which the messages are counted does not matter for whether there are any. *)
Lemma queryTxCount_none {TI : TxIndex} id :
  queryTxCount id = Ok 0 <-> Forall (fun a => QueryTxsByEvents a.1 a.2 id = Ok 0) stakingTxnMsgMap.
Proof.
  rewrite <- iterated_all. unfold queryTxCount. induction iterated as [|[m a] l IH]; cbn; [by split; [constructor|]|].
  rewrite Forall_cons, <- IH. destruct (QueryTxsByEvents m a id) as [c|e|] eqn:E; cbn; rewrite E; cbn; [|naive_solver..].
  destruct (Z.eqb_spec c 0); naive_solver.
Qed.

(** ** The broadcaster *)

(** A node whose account has the sequence [committed] and whose mempool accepts the
    sequence [expected] next. *)
Definition node_view (committed expected : Z) : BroadcastView :=
  {| bw_ready := true; bw_sequence := Ok committed; bw_answer sequence := Ok (if sequence =? expected then 0 else 32);
     bw_sequence_after := Ok committed |}.

(** A broadcaster that is in step stays so, without waiting for blocks. *)
Lemma broadcast_in_step tb committed expected : in_u64 (expected + 1) -> committed <= expected -> lastSeqNo tb = expected ->
  BroadcastToHeimdall tb (node_view committed expected) = (with_sequence tb (expected + 1), Some expected, Ok tt).
Proof.
  intros Hu Hle Hs. unfold BroadcastToHeimdall. cbn. rewrite (proj2 (Z.ltb_ge _ _)) by lia. rewrite Hs, Z.eqb_refl. cbn.
  by rewrite u64_id.
Qed.
(** Once the mempool is empty, one attempt at most fails: it finds the sequence. *)
Lemma broadcast_recovers tb sequence : in_u64 (sequence + 1) ->
  exists r sent, BroadcastToHeimdall tb (node_view sequence sequence) =
    (with_sequence tb (if is_ok r then sequence + 1 else sequence), Some sent, r) /\ (is_ok r = true -> sent = sequence) /\ r <> Panic.
Proof.
  intros Hu. unfold BroadcastToHeimdall. cbn. destruct (Z.ltb_spec (lastSeqNo tb) sequence); cbn.
  - rewrite Z.eqb_refl. cbn. rewrite u64_id by done. by exists (Ok tt), sequence.
  - destruct (Z.eqb_spec (lastSeqNo tb) sequence) as [Heq|Hne]; cbn.
    + rewrite Heq, u64_id by done. by exists (Ok tt), sequence.
    + by eexists (Err _), _.
Qed.

(** ** A node of the proposer *)

Module ProcessorDemo.

#[export] Instance demo_codec : AddressCodec := {|
  PubKeyAddress pk := Some (take 2 pk); AddressString bs := FormatAddress (string_of_list_byte bs);
  BytesToString bs := let t := string_of_list_byte bs in if String.eqb (FormatAddress t) t then Ok t else Err ErrInvalidMsg;
  StringToBytes s := Ok (list_byte_of_string (FormatAddress s));
|}.
#[export] Instance demo_laws : AddressCodecLaws.
Proof.
  split; cbn.
  - intros s b t [= <-]. rewrite string_of_list_byte_of_string. rewrite format_address_idem, String.eqb_refl. intros [= <-].
    apply format_address_idem.
  - intros b t. destruct (String.eqb_spec (FormatAddress (string_of_list_byte b)) (string_of_list_byte b)) as [E|]; [|done].
    intros [= <-]. by rewrite !E, list_byte_of_string_of_list_byte.
  - intros s b. by rewrite format_address_idem.
Qed.
#[export] Instance demo_hash : HashFunction := {| Keccak256 bs := take 32 bs |}.
#[export] Instance demo_merkle : MerkleLibrary := {| merkle_root l := head l |}.
Definition demo_root : bytes := repeat Byte.x01 32.
#[export] Instance demo_bor : BorNode := {|
  HeaderByNumber n := Ok (Some {| Number := n; HeaderHash := []; HeaderParentHash := [] |});
  RootHashOf start end_ := Ok (Bytes2Hex demo_root);
|}.
#[export] Instance demo_root_chain : RootChain := {|
  GetRootChainInstance a := true;
  HeaderBlocks a id := Some (demo_root, 0, if id =? 0 then 0 else 767, "0xaa"%string);
|}.
#[export] Instance demo_head : RootChainHead := {|
  CurrentHeaderBlockOf a := Ok 0; LastChildBlockOf a := Ok 0; CreatedAtOf a id := 0;
|}.
Definition to_zero (f : SpecFloat.spec_float) : Z := 0.
Definition demo_params : ChainManagerParams :=
  {| MainChainTxConfirmations := 6; BorChainTxConfirmations := 10; BorChainId := "137";
     StakingInfoAddress := "0x51"; StateSenderAddress := "0x52"; RootChainAddress := "0x53" |}.
Definition demo_cp_params : CheckpointParams :=
  {| CheckpointBufferTime := 1000 * Second; AvgCheckpointLength := 256; MaxCheckpointLength := 1024; ChildChainBlockInterval := 10000 |}.
Definition demo_validator : Validator := NewValidator 1 0 0 4 10 [] "0xaa".
Definition demo_set : ValidatorSet :=
  {| Validators := [demo_validator; NewValidator 2 0 0 0 10 [] "0xbb"]; Proposer := Some demo_validator; TotalVotingPower := 20 |}.
Definition demo_stake : StakeState :=
  {| validators := {[ "0xaa" := demo_validator ]}; signer := {[ 1 := "0xaa" ]}; sequences := ∅; validatorSet := Some demo_set;
     previousSet := None; penultimateSet := None; lastBlockTxs := None |}.
Definition demo_state (buffered : option Checkpoint) : CheckpointState :=
  {| checkpoints := ∅; bufferedCheckpoint := buffered; checkpoint_params := Some demo_cp_params; lastNoAck := None;
     ackCount := None; checkpointSignatures := None; checkpointSignaturesTxHash := None |}.
Definition demo_node (buffered : option Checkpoint) : BridgeNode :=
  {| bn_own := list_byte_of_string "0xaa"; bn_pubKey := []; bn_producers := []; bn_params := Some demo_params;
     bn_stake := demo_stake; bn_checkpoint := demo_state buffered;
     bn_topup := {| topup_sequences := ∅; dividendAccounts := {[ "0xaa" := {| User := "0xaa"; FeeAmount := "5" |} ]} |};
     bn_clerk := empty_clerk;
     bn_bor := {| BorKeeper.spans := ∅; BorKeeper.latestSpan := None; BorKeeper.seedLastProducer := ∅; BorKeeper.bor_Params := None;
                  BorKeeper.ProducerVotes := ∅; BorKeeper.PerformanceScore := ∅; BorKeeper.LatestActiveProducer := ∅;
                  BorKeeper.LatestFailedProducer := ∅; BorKeeper.LastSpanBlock := None; BorKeeper.ProducerPlannedDowntime := ∅ |};
     bn_up _ := true; bn_account _ := true |}.

Lemma demo_in_step : in_step (demo_node None) demo_params demo_cp_params demo_set demo_validator 0 1000.
Proof.
  split; try reflexivity; cbn; try (unfold MaxInt64; lia).
  - by apply stored_none.
  - exists 0, demo_root, 0, "0xaa"%string. by split.
  - intros m Hm. eexists. split; [reflexivity|]. cbn. apply u64_id. unfold in_u64, MaxUint64. lia.
Qed.
Lemma demo_able now : able to_zero (demo_node None) demo_params demo_cp_params demo_set demo_validator 1000 now.
Proof.
  split; try reflexivity.
  - split; [reflexivity|]. by split.
  - by split.
  - eexists. split; [vm_compute; reflexivity|done].
  - intros a b Hab Hb Hlen. unfold GetRootHash. cbn [RootHashOf demo_bor]. cbn in Hb, Hlen.
    rewrite u64_add_l, u64_id by (unfold in_u64, MaxUint64; lia). rewrite (proj2 (Z.ltb_ge b a)) by lia.
    rewrite (proj2 (Z.ltb_ge (MaxCheckpointLength demo_cp_params) _)) by (cbn; lia). cbn -[FromHex Bytes2Hex].
    by rewrite FromHex_Bytes2Hex.
Qed.

Lemma due_checkpoint_is_accepted_witness : exists msg,
  sendCheckpointToHeimdall to_zero (demo_node None) (time_Unix 5000 0) 1000 = Ok (Send (BCheckpoint msg)) /\
  mc_StartBlock msg = 0 /\ mc_EndBlock msg = 767.
Proof.
  destruct (due_checkpoint_is_accepted to_zero (demo_node None) demo_params demo_cp_params demo_set demo_validator 0 1000
    (time_Unix 5000 0) {| BlockHeight := 5; BlockTime := 5010 |} demo_in_step (demo_able _)) as (msg & Hs & Hstart & Hrange & _);
    [vm_compute; discriminate|vm_compute; discriminate|vm_compute; discriminate|vm_compute; discriminate|].
  exists msg. split; [exact Hs|]. split; [exact Hstart|]. vm_compute in Hs. by injection Hs as <-.
Defined.

Definition demo_buffered : Checkpoint :=
  {| cp_Id := 1; cp_Proposer := "0xaa"; cp_StartBlock := 0; cp_EndBlock := 767; cp_RootHash := demo_root; cp_BorChainId := "137";
     cp_Timestamp := 5010 |}.
Definition demo_event : RootchainNewHeaderBlock :=
  {| nh_HeaderBlockId := 10000; nh_Start := 0; nh_End := 767; nh_Proposer := "0xaa"; nh_Root := demo_root |}.
Lemma demo_next_header : next_header (demo_node (Some demo_buffered)) demo_params demo_cp_params demo_event 1 demo_buffered.
Proof.
  split.
  - reflexivity.
  - reflexivity.
  - reflexivity.
  - cbn. lia.
  - reflexivity.
  - exists "0xaa"%string. by split.
  - cbn. unfold in_u64, MaxUint64. lia.
  - by split.
  - eexists. split; [reflexivity|discriminate].
  - split; [unfold MaxUint64; lia|]. repeat split; reflexivity.
  - intros last Hl. discriminate Hl.
  - repeat split; reflexivity.
Qed.
Lemma demo_turn : exists ss vs r, IncrementAccum demo_stake 1 = Ok ss /\ GetValidatorSet ss = Ok vs /\ GetProposer vs = Ok r.
Proof. eexists _, _, _. split; [vm_compute; reflexivity|]. split; vm_compute; reflexivity. Qed.
Lemma header_event_is_acknowledged_witness : exists msg,
  sendCheckpointAckToHeimdall (demo_node (Some demo_buffered)) (Some demo_event) = Ok (Send (BCpAck msg)) /\
  SideHandleMsgCheckpointAck (Some demo_params) (demo_state (Some demo_buffered)) msg = Ok VOTE_YES.
Proof.
  destruct demo_turn as (ss & vs & r & E1 & E2 & E3).
  destruct (header_event_is_acknowledged (demo_node (Some demo_buffered)) demo_params demo_cp_params demo_event 1 demo_buffered "0xaa"
    demo_stake ss vs r demo_next_header (fun _ => eq_refl) eq_refl ltac:(discriminate) E1 E2 E3) as (msg & Hs & _ & _ & Hside & _).
  exists msg. split; [exact Hs|exact Hside].
Defined.

#[export] Instance demo_receipts : ReceiptSource := {|
  Receipt := Z; ReceiptBlockNumber r := r; GetConfirmedTxReceipt h _ := Some 100;
|}.
#[export] Instance demo_index : TxIndex := {| QueryTxsByEvents m a id := Ok 0; iterated := stakingTxnMsgMap; iterated_all := Permutation_refl _ |}.
Definition demo_update : StakingInfoStakeUpdate := {| sue_ValidatorId := 1; sue_NewAmount := 3 * decimals18; sue_Nonce := 5 |}.
#[export] Instance demo_events : StakeEvents := {|
  DecodeValidatorJoinEvent _ _ _ := None; DecodeValidatorStakeUpdateEvent _ _ _ := Some demo_update;
  DecodeSignerUpdateEvent _ _ _ := None; DecodeValidatorExitEvent _ _ _ := None;
|}.
Definition demo_log : VLog := {| vl_TxHash := demo_root; vl_Index := 7; vl_BlockNumber := 100 |}.
Lemma stake_event_is_accepted_witness : exists m,
  sendStakeUpdateToHeimdall (demo_node None) demo_log (Some demo_update) = Ok (Send (BStake (MStakeUpdate m))) /\ su_Nonce m = 5 /\
  StakeHandlers.SideTxHandler demo_stake (Some demo_params) (MStakeUpdate m) = Ok VOTE_YES.
Proof.
  destruct (stake_event_is_accepted (RS := demo_receipts) (demo_node None) demo_params demo_log 100 (EUpdate demo_update)) as (Hacc & _).
  - split; try reflexivity; cbn; try done; try (unfold in_u64, MaxUint64, MaxInt64; lia).
  - reflexivity.
  - eexists. split; [vm_compute; reflexivity|]. split; [reflexivity|].
    destruct (Hacc (MStakeUpdate _) ltac:(vm_compute; reflexivity)) as (v & Hv & _ & Hside).
    apply Hside; [reflexivity|discriminate].
Defined.

Lemma demo_round : exists vs1 l, IncrementProposerPriority demo_set 1 = Ok vs1 /\ GetProposersByTimes demo_stake (Some 2) = Ok l /\
  Forall (fun p => is_ok (StringToBytes (Signer p)) = true) l.
Proof. eexists _, _. split; [vm_compute; reflexivity|]. split; [vm_compute; reflexivity|]. repeat constructor. Qed.
Lemma no_ack_senders_agree_witness : exists vs1, IncrementProposerPriority demo_set 1 = Ok vs1 /\
  IsInProposerList (demo_node None) 1 = is_coming_proposer 1 vs1 (FormatAddress "0xaa").
Proof.
  destruct demo_round as (vs1 & l & Hi & Hl & HF). exists vs1. split; [exact Hi|].
  apply (no_ack_senders_agree (demo_node None) demo_set vs1 1 "0xaa" l (fun _ => eq_refl) eq_refl).
  - by eexists.
  - unfold MaxInt64. lia.
  - cbn. lia.
  - exact Hi.
  - reflexivity.
  - exact Hl.
  - exact HF.
Defined.
End ProcessorDemo.
