(* ===== verification/RootTx.v ===== *)
(** * Transactions to the main chain

    Models [helper/tx.go]: the fees a transaction offers (EIP-1559) and what its signer asks the
    node for, the transactions the bridge and the operator send (a checkpoint, a stake, an
    approval), and the settings of a node that are checked or parsed
    ([helper/config.go]: gas caps, producer votes, blocks to retain).  The answers of the node,
    the packing of the ABI library and the contracts are parameters. *)
From S2P Require Import Prelude Helpers External VoteTypes Numerals.
#[local] Open Scope Z_scope.

(** ** The configured caps *)

Definition DefaultMainChainGasFeeCap : Z := 500000000000.
Definition DefaultMainChainGasTipCap : Z := 10000000000.

(** int64 both. *)
Record GasConfig := { MainChainGasFeeCap : Z; MainChainGasTipCap : Z }.
Definition configuredGasCaps (cfg : GasConfig) : Z * Z :=
  let configGasFeeCap := if MainChainGasFeeCap cfg <=? 0 then DefaultMainChainGasFeeCap else MainChainGasFeeCap cfg in
  let configGasTipCap := if MainChainGasTipCap cfg <=? 0 then DefaultMainChainGasTipCap else MainChainGasTipCap cfg in
  (configGasFeeCap, configGasTipCap).

(** The fee cap and the tip cap, big integers. *)
Definition calculateEIP1559Caps (cfg : GasConfig) (baseFee suggestedTipCap : option Z) : outcome (Z * Z) :=
  baseFee ← of_option (ErrText "baseFee is nil, EIP-1559 not supported") baseFee;
  suggestedTipCap ← of_option (ErrText "suggested gas tip cap is nil") suggestedTipCap;
  let '(configGasFeeCap, configGasTipCap) := configuredGasCaps cfg in
  let gasTipCap := if configGasTipCap <? suggestedTipCap then configGasTipCap else suggestedTipCap in
  let gasFeeCap := baseFee * 2 + gasTipCap in
  let gasFeeCap := if configGasFeeCap <? gasFeeCap then configGasFeeCap else gasFeeCap in
  let gasTipCap := if gasFeeCap <? gasTipCap then gasFeeCap else gasTipCap in
  Ok (gasFeeCap, gasTipCap).

(** ** Signing *)

(** What the node answers for a transaction. *)
Class EthClient := {
  BlockByNumber : outcome (option (option Z));       (* the latest block, its base fee *)
  SuggestGasTipCap : outcome (option Z);
  PendingNonceAt : bytes -> outcome Z;               (* uint64 *)
  EstimateGas : bytes -> bytes -> bytes -> outcome Z;  (* from, to, data *)
  EthChainID : outcome (option Z);
}.

Record AuthRPCData := { latest_base_fee : Z; suggestedTipCap : option Z; rpc_nonce : Z; rpc_gasLimit : Z; rpc_chainID : Z }.
Record TransactOpts := { to_From : bytes; to_Nonce : Z; to_GasLimit : Z; GasFeeCap : Z; GasTipCap : Z; to_ChainID : Z }.

Section signing.
Context {EC : EthClient}.

Definition fetchAuthLatestBlock : outcome Z :=
  latestBlock ← BlockByNumber;
  baseFee ← of_option (ErrText "latest block is nil") latestBlock;
  of_option (ErrText "baseFee is nil, EIP-1559 not supported") baseFee.
Definition fetchAuthRPCData (fromAddress address data : bytes) : outcome AuthRPCData :=
  latestBlock ← fetchAuthLatestBlock;
  tip ← SuggestGasTipCap;
  nonce ← PendingNonceAt fromAddress;
  gasLimit ← EstimateGas fromAddress address data;
  chainID ← EthChainID;
  chainID ← of_option (ErrText "chain ID is nil") chainID;
  Ok {| latest_base_fee := latestBlock; suggestedTipCap := tip; rpc_nonce := nonce; rpc_gasLimit := gasLimit; rpc_chainID := chainID |}.

(** [fromAddress]: of the node's key; [None]: the key is not one of the curve. *)
Definition generateAuthObjWithClient (cfg : GasConfig) (fromAddress : option bytes) (address data : bytes) : outcome TransactOpts :=
  fromAddress ← of_option (ErrText "invalid private key") fromAddress;
  rpcData ← fetchAuthRPCData fromAddress address data;
  '(gasFeeCap, gasTipCap) ← calculateEIP1559Caps cfg (Some (latest_base_fee rpcData)) (suggestedTipCap rpcData);
  Ok {| to_From := fromAddress; to_Nonce := i64 (rpc_nonce rpcData); to_GasLimit := rpc_gasLimit rpcData;
        GasFeeCap := gasFeeCap; GasTipCap := gasTipCap; to_ChainID := rpc_chainID rpcData |}.
End signing.

(** ** The transactions *)

(** The ABI's packing of the three calls. *)
Class ContractABIs := {
  pack_submitCheckpoint : bytes -> list (Z * Z * Z) -> outcome bytes;
  pack_stakeFor : bytes -> Z -> Z -> bool -> bytes -> outcome bytes;
  pack_approve : bytes -> Z -> outcome bytes;
}.

Section transactions.
Context {EC : EthClient} {AB : ContractABIs} (cfg : GasConfig) (fromAddress : option bytes).

(** A transaction handed to the contract's binding: the options, the contract and the call. *)
Record RootChainTx := { tx_auth : TransactOpts; tx_contract : bytes; tx_data : bytes }.
Definition transact (contract data : bytes) : outcome RootChainTx :=
  auth ← generateAuthObjWithClient cfg fromAddress contract data;
  Ok {| tx_auth := auth; tx_contract := contract; tx_data := data |}.

Definition SendCheckpoint (signedData : bytes) (sigs : list (Z * Z * Z)) (rootChainAddress : bytes) : outcome RootChainTx :=
  pack_submitCheckpoint signedData sigs ≫= transact rootChainAddress.
Definition StakeFor (signerPubKey val : bytes) (stakeAmount feeAmount : Z) (acceptDelegation : bool) (stakeManagerAddress : bytes)
    : outcome RootChainTx :=
  panic_when (length signerPubKey =? 0)%nat ;;
  return_if negb (bool_decide (take 1 signerPubKey = [Byte.x04])) with ErrText "public key first byte mismatch" ;;
  pack_stakeFor val stakeAmount feeAmount acceptDelegation signerPubKey ≫= transact stakeManagerAddress.
Definition ApproveTokens (amount : Z) (stakeManager tokenAddress : bytes) : outcome RootChainTx :=
  pack_approve stakeManager amount ≫= transact tokenAddress.
End transactions.

(** ** Settings of a node *)

Definition DefaultMainnetProducers : string := "91,92,93,94".
Definition DefaultAmoyTestnetProducers : string := "4,5".
Definition DefaultMumbaiTestnetProducers : string := "1,2,3".
Definition DefaultLocalTestnetProducers : string := "1,2,3,4".

(** [strings.Split(s, ",")] *)
Fixpoint split_comma (s : string) : list string :=
  match s with
  | EmptyString => [EmptyString]
  | String c s =>
      if Ascii.eqb c "," then EmptyString :: split_comma s
      else match split_comma s with w :: ws => String c w :: ws | [] => [String c EmptyString] end
  end.
Fixpoint parse_producers (l : list string) : outcome (list Z) :=
  match l with
  | [] => Ok []
  | p :: l =>
      let pTrimmed := string_of_list_ascii (trim_space (list_ascii_of_string p)) in
      panic_when String.eqb pTrimmed "" ;;
      match ParseUint pTrimmed with
      | (vote, true) => votes ← parse_producers l; Ok (vote :: votes)
      | (_, false) => Panic
      end
  end.
(** [Panic]: the process exits ([log.Fatalf]). *)
Definition parseProducerVotes (producerVotesStr : string) : outcome (list Z) :=
  if String.eqb producerVotesStr "" then Ok []
  else match split_comma producerVotesStr with
       | p :: l => if String.eqb p "" then Ok [] else parse_producers (p :: l)
       | [] => Ok []
       end.
Inductive Chain := MainChain | AmoyChain | MumbaiChain | OtherChain.
Definition GetFallbackProducerVotes (chain : Chain) : outcome (list Z) :=
  match chain with
  | MainChain => parseProducerVotes DefaultMainnetProducers
  | AmoyChain => parseProducerVotes DefaultAmoyTestnetProducers
  | MumbaiChain => parseProducerVotes DefaultMumbaiTestnetProducers
  | OtherChain => parseProducerVotes DefaultLocalTestnetProducers
  end.

Definition EnforcedMinRetainBlocks : Z := 2000000.
(** [Sanitize] of the blocks to retain, and whether they were adjusted. *)
Definition Sanitize (minRetainBlocks : Z) : Z * bool :=
  if negb (minRetainBlocks =? 0) && (minRetainBlocks <? EnforcedMinRetainBlocks) then (EnforcedMinRetainBlocks, true)
  else (minRetainBlocks, false).
