(* ===== verification/RootTxCorrect.v ===== *)
(** * Transactions to the main chain: correctness

    The fees offered stay under the configured caps and, under them, pay for a base fee that
    doubles; the lists of producers are read back as they were written. *)
From Stdlib Require Import DecimalString.
From S2P Require Import Prelude Helpers External VoteTypes Numerals RootTx.
#[local] Open Scope Z_scope.

(** ** Fees *)

Lemma configured_positive cfg : 0 < (configuredGasCaps cfg).1 /\ 0 < (configuredGasCaps cfg).2.
Proof.
  unfold configuredGasCaps, DefaultMainChainGasFeeCap, DefaultMainChainGasTipCap. cbn.
  destruct (Z.leb_spec (MainChainGasFeeCap cfg) 0); destruct (Z.leb_spec (MainChainGasTipCap cfg) 0); lia.
Qed.

(** What the caps promise for a base fee and a suggested tip. *)
Record fees_ok (cfg : GasConfig) (baseFee tip feeCap tipCap : Z) : Prop := {
  fo_tip : 0 <= tipCap <= feeCap;
  fo_fee_configured : feeCap <= (configuredGasCaps cfg).1;
  fo_tip_configured : tipCap <= (configuredGasCaps cfg).2 /\ tipCap <= tip;
  (** Unless the configured cap is reached, the tip is paid in full for any base fee up to the
      double. *)
  fo_includable : feeCap < (configuredGasCaps cfg).1 ->
    tipCap = Z.min tip (configuredGasCaps cfg).2 /\ forall baseFee', baseFee' <= 2 * baseFee -> baseFee' + tipCap <= feeCap;
}.
Lemma caps_ok cfg baseFee tip feeCap tipCap : 0 <= baseFee -> 0 <= tip ->
  calculateEIP1559Caps cfg (Some baseFee) (Some tip) = Ok (feeCap, tipCap) -> fees_ok cfg baseFee tip feeCap tipCap.
Proof.
  intros Hb Ht. unfold calculateEIP1559Caps. cbn [of_option mbind outcome_bind].
  destruct (configured_positive cfg) as [Hf Hc]. destruct (configuredGasCaps cfg) as [fee c] eqn:E. cbn [fst snd] in *.
  intros [= <- <-]. split; rewrite ?E; cbn [fst snd];
    destruct (Z.ltb_spec c tip); repeat match goal with |- context[?a <? ?b] => destruct (Z.ltb_spec a b) end;
    intros; split_and?; intros; lia.
Qed.

Section transactions.
Context {EC : EthClient} {AB : ContractABIs} (cfg : GasConfig) (fromAddress : option bytes).

(** The answers of the node behind a transaction, and its fees. *)
Definition signed_as (tx : RootChainTx) : Prop :=
  exists from baseFee tip nonce chainID,
    fromAddress = Some from /\ BlockByNumber = Ok (Some (Some baseFee)) /\ SuggestGasTipCap = Ok (Some tip) /\
    PendingNonceAt from = Ok nonce /\ EthChainID = Ok (Some chainID) /\
    to_From (tx_auth tx) = from /\ to_Nonce (tx_auth tx) = i64 nonce /\ to_ChainID (tx_auth tx) = chainID /\
    EstimateGas from (tx_contract tx) (tx_data tx) = Ok (to_GasLimit (tx_auth tx)) /\
    (0 <= baseFee -> 0 <= tip -> fees_ok cfg baseFee tip (GasFeeCap (tx_auth tx)) (GasTipCap (tx_auth tx))).

Lemma fetched from contract data d : fetchAuthRPCData from contract data = Ok d ->
  BlockByNumber = Ok (Some (Some (latest_base_fee d))) /\ SuggestGasTipCap = Ok (suggestedTipCap d) /\
  PendingNonceAt from = Ok (rpc_nonce d) /\ EstimateGas from contract data = Ok (rpc_gasLimit d) /\
  EthChainID = Ok (Some (rpc_chainID d)).
Proof.
  unfold fetchAuthRPCData, fetchAuthLatestBlock. destruct BlockByNumber as [[[baseFee|]|]|e|]; [|done..].
  cbn [of_option mbind outcome_bind]. intros H. ok_inv H.
  subst. cbn [latest_base_fee suggestedTipCap rpc_nonce rpc_gasLimit rpc_chainID].
  apply of_option_ok in Ha3. by subst.
Qed.
Lemma transact_signed contract data tx : transact cfg fromAddress contract data = Ok tx ->
  tx_contract tx = contract /\ tx_data tx = data /\ signed_as tx.
Proof.
  unfold transact, generateAuthObjWithClient. destruct fromAddress as [from|] eqn:Ef; [|done]. cbn [of_option mbind outcome_bind].
  destruct (fetchAuthRPCData from contract data) as [d|e|] eqn:Ed; [|done..]. cbn [mbind outcome_bind].
  apply fetched in Ed as (Eb & Et & En & Eg & Ec). destruct (suggestedTipCap d) as [tip|]; [|done].
  destruct (calculateEIP1559Caps cfg (Some (latest_base_fee d)) (Some tip)) as [[feeCap tipCap]|e|] eqn:Ecap; [|done..].
  cbn [mbind outcome_bind]. intros [= <-]. split; [done|]. split; [done|].
  exists from, (latest_base_fee d), tip, (rpc_nonce d), (rpc_chainID d). split_and!; try done.
  intros Hb Ht. by apply caps_ok.
Qed.

(** C36: whatever a node sends to the main chain - a checkpoint, a stake, an approval - is signed
    with what the node was told and offers bounded fees: the tip is neither more than the
    configured cap nor than the suggestion, nor than the fee cap, which stays under its
    configured cap; and unless the fee cap reaches that, the tip is the suggestion under
    its cap and is paid in full for any base fee up to twice the present one. *)
Theorem root_chain_fees_are_bounded (signedData : bytes) (sigs : list (Z * Z * Z)) (key val : bytes)
    (stakeAmount feeAmount amount : Z) (acceptDelegation : bool) (contract other : bytes) (tx : RootChainTx) :
  SendCheckpoint cfg fromAddress signedData sigs contract = Ok tx \/
  StakeFor cfg fromAddress key val stakeAmount feeAmount acceptDelegation contract = Ok tx \/
  ApproveTokens cfg fromAddress amount other contract = Ok tx ->
  tx_contract tx = contract /\ signed_as tx.
Proof.
  assert (forall data, data ≫= transact cfg fromAddress contract = Ok tx -> tx_contract tx = contract /\ signed_as tx) as Ht.
  { intros data H. ok_inv H. apply transact_signed in H as (? & ? & ?). done. }
  intros [H|[H|H]]; [by eapply Ht| |by eapply Ht].
  unfold StakeFor in H. destruct (length key =? 0)%nat; [done|]. destruct (negb _); [done|]. by eapply Ht.
Qed.
End transactions.

(** ** Lists of producers *)

Definition is_digit (c : ascii) : bool := negb (Ascii.eqb c ",") && negb (ascii_is_space c).

Lemma uint_digits d : Forall is_digit (list_ascii_of_string (NilEmpty.string_of_uint d)).
Proof. induction d; cbn; repeat constructor; done. Qed.
Lemma FormatUint_digits n : Forall is_digit (list_ascii_of_string (FormatUint n)) /\ FormatUint n <> EmptyString.
Proof.
  unfold FormatUint, NilZero.string_of_uint. destruct (N.to_uint (Z.to_N n)) eqn:E; rewrite <- ?E; split; try done.
  all: try apply uint_digits. by repeat constructor. all: by rewrite E.
Qed.

Lemma drop_spaces_digits l : Forall is_digit l -> drop_spaces l = l.
Proof.
  destruct 1 as [|c l Hc _]; [done|]. cbn. unfold is_digit in Hc. by destruct (ascii_is_space c); [rewrite andb_false_r in Hc|].
Qed.
Lemma trim_digits s : Forall is_digit (list_ascii_of_string s) -> string_of_list_ascii (trim_space (list_ascii_of_string s)) = s.
Proof.
  intros H. unfold trim_space. rewrite (drop_spaces_digits _ H), drop_spaces_digits by by apply Forall_rev.
  by rewrite rev_involutive, string_of_list_ascii_of_string.
Qed.

(** The list as an operator writes it. *)
Fixpoint written (votes : list Z) : string :=
  match votes with
  | [] => EmptyString
  | [vote] => FormatUint vote
  | vote :: votes => (FormatUint vote ++ "," ++ written votes)%string
  end.
Lemma split_comma_app w s : Forall is_digit (list_ascii_of_string w) ->
  split_comma (w ++ String "," s)%string = w :: split_comma s.
Proof.
  induction w as [|c w IH]; [done|]. intros [Hc Hw]%Forall_cons. unfold is_digit in Hc.
  change (String c w ++ String "," s)%string with (String c (w ++ String "," s)). cbn [split_comma].
  destruct (Ascii.eqb c ","); [done|]. by rewrite IH.
Qed.
Lemma split_comma_digits w : Forall is_digit (list_ascii_of_string w) -> split_comma w = [w].
Proof.
  induction w as [|c w IH]; cbn; [done|]. intros [Hc Hw]%Forall_cons. unfold is_digit in Hc.
  destruct (Ascii.eqb c ","); [done|]. by rewrite IH.
Qed.
Lemma split_written vote votes : split_comma (written (vote :: votes)) = map FormatUint (vote :: votes).
Proof.
  revert vote. induction votes as [|v votes IH]; intros vote.
  - apply split_comma_digits, FormatUint_digits.
  - change (written (vote :: v :: votes)) with (FormatUint vote ++ String "," (written (v :: votes)))%string.
    rewrite split_comma_app by apply FormatUint_digits. by rewrite IH.
Qed.
Lemma parse_formatted votes : Forall in_u64 votes -> parse_producers (map FormatUint votes) = Ok votes.
Proof.
  induction 1 as [|vote votes Hv _ IH]; [done|]. cbn [map parse_producers].
  destruct (FormatUint_digits vote) as [Hd Hne]. rewrite (trim_digits _ Hd), ParseUint_FormatUint by done.
  destruct (String.eqb_spec (FormatUint vote) ""); [done|]. cbn [panic_if]. by rewrite IH.
Qed.

(** A list of producers is read back as it was written. *)
Theorem producer_votes_round_trip (votes : list Z) : Forall in_u64 votes -> parseProducerVotes (written votes) = Ok votes.
Proof.
  destruct votes as [|vote votes]; [done|]. intros H. unfold parseProducerVotes. rewrite split_written. cbn [map].
  destruct (FormatUint_digits vote) as [_ Hne].
  destruct (String.eqb_spec (FormatUint vote) ""); [done|].
  destruct (String.eqb_spec (written (vote :: votes)) "") as [E|]; [|by apply (parse_formatted (vote :: votes))].
  destruct votes; cbn [written] in E; [done|]. by destruct (FormatUint vote).
Qed.

(** ** Witness *)

Module RootTxDemo.
#[export] Instance node : EthClient := {|
  BlockByNumber := Ok (Some (Some 30000000000)); SuggestGasTipCap := Ok (Some 20000000000); PendingNonceAt _ := Ok 7;
  EstimateGas _ _ _ := Ok 90000; EthChainID := Ok (Some 1) |}.
#[export] Instance abis : ContractABIs := {|
  pack_submitCheckpoint d _ := Ok d; pack_stakeFor _ _ _ _ k := Ok k; pack_approve s _ := Ok s |}.
Definition defaults : GasConfig := {| MainChainGasFeeCap := 0; MainChainGasTipCap := -1 |}.
Definition demo_tx : RootChainTx :=
  {| tx_auth := {| to_From := [Byte.x0a]; to_Nonce := 7; to_GasLimit := 90000; GasFeeCap := 70000000000;
                   GasTipCap := 10000000000; to_ChainID := 1 |};
     tx_contract := [Byte.x0c]; tx_data := [Byte.x0d] |}.
Lemma root_chain_fees_are_bounded_witness :
  SendCheckpoint defaults (Some [Byte.x0a]) [Byte.x0d] [] [Byte.x0c] = Ok demo_tx /\
  tx_contract demo_tx = [Byte.x0c] /\ signed_as defaults (Some [Byte.x0a]) demo_tx.
Proof.
  assert (SendCheckpoint defaults (Some [Byte.x0a]) [Byte.x0d] [] [Byte.x0c] = Ok demo_tx) as H by (vm_compute; reflexivity).
  split; [exact H|].
  exact (root_chain_fees_are_bounded defaults (Some [Byte.x0a]) [Byte.x0d] [] [] [] 0 0 0 false [Byte.x0c] [] demo_tx (or_introl H)).
Defined.
Example default_producers :
  map GetFallbackProducerVotes [MainChain; AmoyChain; MumbaiChain; OtherChain]
  = [Ok [91; 92; 93; 94]; Ok [4; 5]; Ok [1; 2; 3]; Ok [1; 2; 3; 4]].
Proof. vm_compute. reflexivity. Qed.
End RootTxDemo.
