(* ===== verification/Block.v ===== *)
(** * A block

    What happens to a transaction and to a block besides the pre-blocker: [CheckTx], the
    ante handler and the message servers, and the end of the block with the fees
    ([app/app.go], [app/ante.go], [x/checkpoint/ante]); the guard of the Bor endpoints
    ([app/bor_failover_guard.go]).  The SDK runs them: it delivers transactions one after
    the other, keeps what the ante handler did when a message fails, and recovers from
    panics of handlers. *)
From S2P Require Import Prelude SortedList Helpers External VoteTypes ValidatorSet StakeKeeper StakeHandlers Milestone MilestoneVotes VoteExt Numerals Dividend Topup Clerk Checkpoint CheckpointHandlers NonRp BorTypes Selection BorKeeper BorHandlers Rotation ChainManager App PreBlock Failover.
#[local] Open Scope Z_scope.

(** The modules of the SDK, as far as they move coins: the decorators of the SDK on a
    transaction, a message of one of its modules, the balance of the fee collector, and
    the deposits governance returns or burns at the end of a block. *)
Class SdkModules (B : Type) := {
  sdk_ante : B -> bytes -> outcome B;
  sdk_msg : B -> bytes -> outcome B;
  collector_balance : B -> Z;
  gov_deposits : B -> B;
}.

Section stores.
Context {B : Type}.
Implicit Types s : AppState B.
Definition with_bank s (bank : B) : AppState B := with_stake s (app_stake s) bank.
Definition with_params s (p : option ChainManagerParams) : AppState B :=
  {| app_milestone := app_milestone s; app_bor := app_bor s; app_stake := app_stake s; app_checkpoint := app_checkpoint s;
     app_clerk := app_clerk s; app_topup := app_topup s; app_bank := app_bank s;
     app_chain_params := p; app_block_proposer := app_block_proposer s |}.
Definition RemoveBlockProposer s : AppState B :=
  {| app_milestone := app_milestone s; app_bor := app_bor s; app_stake := app_stake s; app_checkpoint := app_checkpoint s;
     app_clerk := app_clerk s; app_topup := app_topup s; app_bank := app_bank s;
     app_chain_params := app_chain_params s; app_block_proposer := None |}.
End stores.

(** ** Transactions *)

Section transactions.
Context {AC : AddressCodec} {SA : SdkAddress} {EA : EthAddress} {HF : HashFunction} {ML : MerkleLibrary} {HA : HexAddresses}.
Context {TL : TxLibrary} {B : Type} {FB : FeeBank B} {SM : SdkModules B}.
Context (out_of_range : SpecFloat.spec_float -> Z) (cfg : Config) (authority : string) (ctx : Ctx) (env : Env).
Implicit Types s : AppState B.

(** New parameters of a module. *)
Definition update_params s (m : ParamsMsg) : outcome (AppState B) :=
  match m with
  | PBor from p => bs ← UpdateParams authority (app_bor s) from p; Ok (with_spans s (app_milestone s) bs)
  | PCheckpoint from p => cs ← UpdateCheckpointParams authority (app_checkpoint s) from p; Ok (with_checkpoint s cs (app_stake s))
  | PMilestone from p => ms ← UpdateMilestoneParams authority (app_milestone s) from p; Ok (with_spans s ms (app_bor s))
  | PChainManager from p => p ← UpdateChainParams authority from p; Ok (with_params s (Some (used p)))
  end.
Definition stake_server (ss : StakeState) (m : StakeMsg) : outcome unit :=
  match m with
  | MValidatorJoin m => ValidatorJoin ss m
  | MStakeUpdate m => StakeUpdate ss m
  | MSignerUpdate m => SignerUpdate ss m
  | MValidatorExit m => ValidatorExit ss m
  end.
Definition bor_server s (m : BorMsg) : outcome unit :=
  match m with
  | MProposeSpan m => ProposeSpan (app_chain_params s) (app_bor s) m
  | MBackfillSpans m => BackfillSpans (app_chain_params s) (last_milestone_end s) (app_bor s) m
  | MSetProducerDowntime m => SetProducerDowntime cfg ctx (stake_of s) (app_bor s) m
  end.
(** The message servers; those of side transactions only check, but for the checkpoint,
    which may drop an expired one from the buffer. *)
Definition msg_server (raw : bytes) s (m : AppMsg) : outcome (AppState B) :=
  match m with
  | AStake m => stake_server (app_stake s) m ≫= fun _ => Ok s
  | ACheckpoint (MCheckpoint m) =>
      cs ← MsgServer_Checkpoint out_of_range ctx (GetAllDividendAccounts (app_topup s)) (app_stake s) (app_checkpoint s) m;
      Ok (with_checkpoint s cs (app_stake s))
  | ACheckpoint (MCpAck m) => MsgServer_CheckpointAck (app_checkpoint s) m ≫= fun _ => Ok s
  | ACpNoAck m =>
      '(cs, ss) ← MsgServer_CheckpointNoAck out_of_range ctx (env_nanos env) (app_stake s) (app_checkpoint s) m;
      Ok (with_checkpoint s cs ss)
  | ABor m => bor_server s m ≫= fun _ => Ok s
  | AVoteProducers m => bs ← VoteProducers cfg ctx (stake_of s) (app_bor s) m; Ok (with_spans s (app_milestone s) bs)
  | AClerk m => HandleMsgEventRecord (app_chain_params s) (app_clerk s) m ≫= fun _ => Ok s
  | ATopup m => HandleTopupTx (app_bank s) (app_topup s) m ≫= fun _ => Ok s
  | AWithdrawFee m =>
      '(ts, bank) ← WithdrawFeeTx cfg ctx (app_stake s) (GetAckCount (app_checkpoint s)) (app_bank s) (app_topup s) m;
      Ok (with_topup s ts bank)
  | AParams m => update_params s m
  | AOther => bank ← sdk_msg (app_bank s) raw; Ok (with_bank s bank)
  end.
Fixpoint run_msgs (raw : bytes) s (msgs : list AppMsg) : outcome (AppState B) :=
  match msgs with [] => Ok s | m :: rest => s ← msg_server raw s m; run_msgs raw s rest end.

(** The decorator of the checkpoint module: from Zurich on an account root is a hash. *)
Definition AccountRootHashLen (msgs : list AppMsg) : outcome unit :=
  if negb (IsZurichHardfork cfg (BlockHeight ctx)) then Ok tt
  else return_if existsb (fun m => match m with
                           | ACheckpoint (MCheckpoint c) => negb (length (mc_AccountRootHash c) =? HashLength)%nat
                           | _ => false
                           end) msgs with ErrInvalidMsg ;; Ok tt.
(** The chain of decorators; a failure discards what the earlier ones did. *)
Definition NewAnteHandler (raw : bytes) s (msgs : list AppMsg) : outcome (AppState B) :=
  AccountRootHashLen msgs ≫= fun _ =>
  bank ← sdk_ante (app_bank s) raw;
  AnteHandle msgs ≫= fun _ => Ok (with_bank s bank).
Definition deliver_tx s (raw : bytes) : AppState B :=
  match TxDecode raw with
  | None => s
  | Some msgs =>
      match NewAnteHandler raw s msgs with
      | Ok s1 => match run_msgs raw s1 msgs with Ok s2 => s2 | _ => s1 end
      | _ => s
      end
  end.

(** [CheckTx] of a new transaction, before the SDK checks it. *)
Definition maxMsgsPerTx : nat := 16.
Definition CheckTx (isNew : bool) (lastBlockHeight : Z) (bs : BorState) (tx : bytes) : outcome unit :=
  if negb isNew then Ok tt
  else
    msgs ← of_option (ErrText "failed to decode transaction") (TxDecode tx);
    return_if (maxMsgsPerTx <? length msgs)%nat with ErrText "tx exceeds per-tx limit" ;;
    can_propose_all cfg {| BlockHeight := i64 (lastBlockHeight + 1); BlockTime := 0 |} bs msgs.

(** ** The end of a block *)

(** The fees go to the proposer of the block; an error is logged. *)
Definition transfer_fees s : outcome (AppState B) :=
  match app_block_proposer s with
  | None => Ok s
  | Some proposer =>
      let coin := collector_balance (app_bank s) in
      bank ← (if coin =? 0 then Ok (app_bank s)
              else match SendCoinsFromModuleToAccount (app_bank s) "fee_collector" proposer [(FeeToken, coin)] with
                   | Ok bank => Ok bank | Err _ => Ok (app_bank s) | Panic => Panic
                   end);
      Ok (RemoveBlockProposer (with_bank s bank))
  end.
(** A proposal governance passed: its messages, all or none. *)
Definition run_proposal s (msgs : list AppMsg) : AppState B :=
  match run_msgs [] s msgs with Ok s => s | _ => s end.
(** The end blockers of governance and of stake follow, in this order. *)
Definition EndBlocker {PK : Type} (cmt_pub_key : bytes -> option PK) s (passed : list (list AppMsg))
    : outcome (list (Z * PK) * AppState B) :=
  s ← transfer_fees s;
  let s := fold_left run_proposal passed (with_bank s (gov_deposits (app_bank s))) in
  '(updates, ss) ← ApplyAndReturnValidatorSetUpdates cmt_pub_key cfg ctx (GetAckCount (app_checkpoint s)) (app_stake s);
  Ok (updates, with_stake s ss (app_bank s)).
End transactions.

(** ** The whole block

    [delivered]: the transactions the SDK delivers; [passed]: the proposals that pass. *)
Section block.
Context {AC : AddressCodec} {VC : VoteCodec} {HF : HashFunction} {ML : MerkleLibrary} {HA : HexAddresses} {TL : TxLibrary}.
Context {SA : SdkAddress} {AH : AddressHexifier} {EA : EthAddress} {RSrc : RandSource}.
Context {B : Type} {BK : BankKeeper B} {FB : FeeBank B} {SM : SdkModules B} {PK : Type}.
Context (out_of_range : SpecFloat.spec_float -> Z) (cfg : Config) (authority : string) (cmt_pub_key : bytes -> option PK).

Definition finalize_block (mig : MilestoneMigration) (iteration_order : nat -> gset string -> list string) (ctx : Ctx)
    (ch : ChainInfo) (env : Env) (s : AppState B) (req : FinalizeRequest) (delivered : list bytes) (passed : list (list AppMsg))
    : outcome (list (Z * PK) * AppState B) :=
  s ← PreBlocker cfg mig iteration_order ctx ch env s req;
  EndBlocker out_of_range cfg authority ctx env cmt_pub_key
    (fold_left (deliver_tx out_of_range cfg authority ctx env) delivered s) passed.
End block.

(** ** The guard of the Bor endpoints *)

Section guard.
Context {AC : AddressCodec} {B : Type} (cfg : Config) (ctx : Ctx).
Implicit Types s : AppState B.

Definition validatorIDForSigner s (signer : string) : outcome (option Z) :=
  match GetValidatorInfo (app_stake s) signer with
  | Ok v => Ok (Some (ValId v))
  | Err e => if bool_decide (e = ErrNotFound) then Ok None else Err e
  | Panic => Panic
  end.
(** [producerVotes]: the producers the node votes for, by its configuration. *)
Definition borFailoverProtectedProducerIDs (producerVotes : list Z) s : outcome (gset Z) :=
  lastSpan ← GetLastSpan (app_bor s);
  candidates ← CalculateProducerSet cfg ctx (stake_of s) (app_bor s) (GetProducerSetLimit cfg (BlockHeight ctx));
  let candidates := match candidates with [] => fallbackProducerVotes cfg | _ => candidates end in
  Ok (list_to_set (producerVotes ++ fallbackProducerVotes cfg ++ map ValId (SelectedProducers lastSpan) ++ candidates)).
Definition validateBorFailoverBPGuard (producerVotes : list Z) s (signer : string) : outcome unit :=
  localValidator ← validatorIDForSigner s signer;
  match localValidator with
  | None => Ok tt
  | Some localValidatorID =>
      protectedProducerIDs ← borFailoverProtectedProducerIDs producerVotes s;
      return_if bool_decide (localValidatorID ∈ protectedProducerIDs)
        with ErrText "bor endpoint failover is not allowed for block producer validators" ;;
      Ok tt
  end.
Definition enforceBorFailoverBPGuard (c : CustomConfig) (own : bytes) (producerVotes : list Z) s : outcome unit :=
  if negb (BorFailoverConfigured c) then Ok tt
  else signer ← BytesToString own; validateBorFailoverBPGuard producerVotes s signer.
End guard.
