(* ===== verification/BlockCorrect.v ===== *)
(** * The chain of blocks is sound

    Every state the application reaches, block after block, satisfies the invariants of
    its modules together: the parts below show that the operations of a block keep the
    validator sets, the spans and the checkpoints; the theorems compose them.  Over a run
    of blocks: each event of the main chain is applied once, and validators that left stay
    without power. *)
From S2P Require Import Prelude SortedList Helpers External ValidatorSet ValidatorSetFacts ValidatorSetCorrect VoteTypes StakeKeeper StakeHandlers StakeCorrect Milestone MilestoneVotes MilestoneCollect MilestoneCorrect MilestoneFinality VoteExt VoteExtCorrect Numerals Dividend Topup TopupCorrect Clerk ClerkCorrect Checkpoint CheckpointHandlers CheckpointCorrect NonRp BorTypes Selection BorKeeper BorHandlers BorCorrect Rotation ChainManager App AppDemo PreBlock PreBlockCorrect Failover Block.
#[local] Open Scope Z_scope.

(** ** The validator sets of the last blocks *)

(** The current set is well-formed and its members are stored; the sets of the two
    previous blocks are well-formed. *)
Definition sets_ok (s : StakeState) : Prop :=
  (exists vs, end_block_ready s vs) /\
  (forall vs, previousSet s = Some vs -> wf vs) /\ (forall vs, penultimateSet s = Some vs -> wf vs).

Lemma increment_wf vs vs' : wf vs -> IncrementProposerPriority vs 1 = Ok vs' ->
  wf vs' /\ same_but_prio (Validators vs) (Validators vs').
Proof.
  intros Hwf H. destruct (decide (Validators vs = [])) as [E|Hne].
  { unfold IncrementProposerPriority, IsNilOrEmpty in H. by rewrite E in H. }
  destruct (increment_ok vs Hwf Hne) as (v & Hv & Hs). rewrite H in Hv. injection Hv as <-. by destruct Hs.
Qed.
Lemma increment_sets_ok s s' : sets_ok s -> IncrementAccum s 1 = Ok s' -> sets_ok s'.
Proof.
  intros ((vs & [HS Hset Hwf Hmem]) & Hp & Hpp) H. unfold IncrementAccum, GetValidatorSet in H. rewrite Hset in H.
  cbn [of_option mbind outcome_bind] in H. ok_step H. injection H as <-.
  destruct (increment_wf _ _ Hwf Ha) as [Hwf' Hsame]. split; [|by split]. exists a. split; [by destruct HS|done|done|].
  apply Forall_forall. apply (same_but_prio_Forall (fun v => is_Some (validators s !! vaddr v)) _ _ (fun _ _ H => H) Hsame).
  by apply Forall_forall.
Qed.
Lemma SetLastBlockTxs_sets_ok s txs : sets_ok s -> sets_ok (SetLastBlockTxs s txs).
Proof. intros ((vs & [HS Hset Hwf Hmem]) & Hp & Hpp). split; [|by split]. exists vs. split; [by destruct HS|done|done|done]. Qed.

Section stake.
Context {AC : AddressCodec} {B : Type} {BK : BankKeeper B} (cfg : Config) (ackCount : Z).

(** Post-handlers leave the sets alone and only add validators. *)
Lemma post_keeps_sets ctx (st st' : StakeState * B) m v : StakeHandlers.PostTxHandler cfg ctx ackCount st m v = Ok st' ->
  validatorSet st'.1 = validatorSet st.1 /\ previousSet st'.1 = previousSet st.1 /\ penultimateSet st'.1 = penultimateSet st.1 /\ (forall a, is_Some (validators st.1 !! a) -> is_Some (validators st'.1 !! a)).
Proof.
  destruct st as [s bank]. destruct m as [m|m|m|m]; cbn [StakeHandlers.PostTxHandler]; intros H; try ok_step H;
    [unfold PostHandleMsgValidatorJoin in Ha; ok_inv Ha
    |unfold PostHandleMsgStakeUpdate in Ha; ok_inv Ha
    |unfold PostHandleMsgSignerUpdate in H; ok_inv H
    |unfold PostHandleMsgValidatorExit in Ha; ok_inv Ha]; ok_inv H; subst; cbn;
    (split_and!; [done..|]); intros b Hb; repeat (apply lookup_insert_is_Some'; right); done.
Qed.
Lemma post_sets_ok ctx (st st' : StakeState * B) m v : sets_ok st.1 ->
  StakeHandlers.PostTxHandler cfg ctx ackCount st m v = Ok st' -> sets_ok st'.1.
Proof.
  intros ((vs & [HS Hset Hwf Hmem]) & Hp & Hpp) H. pose proof (post_store_ok cfg ackCount ctx st st' m v HS H) as HS'.
  apply post_keeps_sets in H as (E1 & E2 & E3 & Hin). split; [|by rewrite E2, E3].
  exists vs. split; [done|by rewrite E1|done|]. auto.
Qed.
Lemma end_block_sets_ok {PK} (pk : bytes -> option PK) ctx s ups s' : sets_ok s ->
  ApplyAndReturnValidatorSetUpdates pk cfg ctx ackCount s = Ok (ups, s') -> sets_ok s'.
Proof.
  intros ((vs & HR) & Hp & Hpp) H.
  destruct (end_block_ok cfg ackCount pk ctx s vs ups s' HR H) as (vs' & Hset & Hprev & Hwf & Hv & _ & Hpow).
  assert (signer s' = signer s /\ (penultimateSet s' = penultimateSet s \/ penultimateSet s' = previousSet s)) as [Hsig Hpen].
  { unfold ApplyAndReturnValidatorSetUpdates, GetValidatorSet in H. rewrite (eb_set _ _ HR) in H.
    cbn [of_option mbind outcome_bind] in H. ok_step H.
    assert (signer a = signer s /\ (penultimateSet a = penultimateSet s \/ penultimateSet a = previousSet s)) as [E1 E2].
    { destruct (_ <=? _) in Ha; [|injection Ha as <-; auto]. ok_step Ha. unfold GetPreviousBlockValidatorSet in Ha0.
      apply of_option_ok in Ha0. injection Ha as <-. cbn. auto. }
    destruct (GetUpdatedValidators _ _ _); [injection H as _ <-; cbn; auto|]. ok_step H. ok_step H. injection H as _ <-. cbn. auto. }
  split; [|split].
  - exists vs'. split; [|done|done|].
    + destruct (eb_store _ _ HR) as [A C]. split; intros *; rewrite Hv, ?Hsig; [apply A|apply C].
    + intros v Hin. rewrite Hv. assert (0 < power_at (vaddr v) (Validators vs')) as Hpos.
      { unfold power_at. rewrite find_by_elem; [|by apply ssorted_NoDup, wf_sorted|done]. cbn.
        pose proof (wf_power _ Hwf) as HF. rewrite Forall_forall in HF. by apply HF. }
      rewrite Hpow in Hpos. unfold stored_power in Hpos. destruct (validators s !! vaddr v); [eauto|lia].
  - intros x Hx. rewrite Hprev in Hx. injection Hx as <-. apply (eb_wf _ _ HR).
  - intros x Hx. destruct Hpen as [E|E]; rewrite E in Hx; auto.
Qed.
End stake.

(** ** The spans *)

(** The chain of spans grew by at most [k]. *)
Definition spans_grow (k : nat) (s s' : BorState) : Prop :=
  forall n, span_chain s n -> Z.of_nat n + Z.of_nat k <= MaxUint64 ->
  exists n', span_chain s' n' /\ (n <= n' <= n + k)%nat.

Lemma grow_same k s s' : spans s' = spans s -> latestSpan s' = latestSpan s -> spans_grow k s s'.
Proof. intros E1 E2 n Hc _. exists n. split; [by eapply span_chain_ext|lia]. Qed.
Lemma grow_trans j k s s1 s' : spans_grow j s s1 -> spans_grow k s1 s' -> spans_grow (j + k) s s'.
Proof.
  intros H1 H2 n Hc Hb. destruct (H1 n Hc) as (n1 & Hc1 & Hn1); [lia|]. destruct (H2 n1 Hc1) as (n2 & Hc2 & Hn2); [lia|].
  exists n2. split; [done|lia].
Qed.
Lemma grow_more j k s s' : (j <= k)%nat -> spans_grow j s s' -> spans_grow k s s'.
Proof. intros Hle H n Hc Hb. destruct (H n Hc) as (n' & ? & ?); [lia|]. exists n'. split; [done|lia]. Qed.

Section spans.
Context {K : Type} {SK : StakeKeeperI K} (cfg : Config).

Lemma grow_elected ctx (sk : K) s s1 current a b chain active hb target excluded fallback s' :
  AddNewVeBlopSpan cfg ctx sk s current a b chain active hb target excluded fallback = Ok s1 ->
  spans s' = spans s1 -> latestSpan s' = latestSpan s1 -> spans_grow 1 s s'.
Proof.
  intros H E1 E2 n Hc Hb. apply (AddNewVeBlopSpan_adds cfg _ _ _ n) in H as (p & v & _ & _ & Hadd & _); [|done|lia].
  exists (S n). split; [|lia]. eapply span_chain_ext; [done|done|]. by destruct Hadd.
Qed.
Lemma grow_rotate_current ctx (sk : K) ms bs m ms' bs' : rotate_current_span cfg ctx sk ms bs m = Ok (ms', bs') -> spans_grow 1 bs bs'.
Proof.
  unfold rotate_current_span. intros H. do 4 ok_step H.
  destruct (AddNewVeBlopSpan _ _ _ _ _ _ _ _ _ _ _ _ _) as [bs1| |] eqn:E; [|injection H as _ <-; by apply grow_same|done].
  injection H as _ <-. by eapply grow_elected.
Qed.
Lemma grow_rotate ctx (sk : K) ms bs ms' bs' : checkAndRotateCurrentSpan cfg ctx sk ms bs = Ok (ms', bs') -> spans_grow 1 bs bs'.
Proof.
  unfold checkAndRotateCurrentSpan. intros E. ok_step E. destruct a as [m|]; [|injection E as _ <-; by apply grow_same].
  destruct (_ && _); [by eapply grow_rotate_current|injection E as _ <-; by apply grow_same].
Qed.
Lemma grow_rotate_pending ctx (sk : K) ms bs h hid ms' bs' : rotateSpanFromPendingHead cfg ctx sk ms bs h hid = Ok (ms', bs') -> spans_grow 1 bs bs'.
Proof.
  unfold rotateSpanFromPendingHead. intros H. ok_step H.
  destruct (_ <? h); [injection H as _ <-; by apply grow_same|]. destruct (h =? MaxUint64); [injection H as _ <-; by apply grow_same|].
  do 2 ok_step H. destruct a1 as [e|]; [|injection H as _ <-; by apply grow_same]. ok_step H.
  destruct (AddNewVeBlopSpan _ _ _ _ _ _ _ _ _ _ _ _ _) as [bs1| |] eqn:E; [|injection H as _ <-; by apply grow_same|done].
  injection H as _ <-. by eapply grow_elected.
Qed.
Lemma grow_pending {AC : AddressCodec} {VC : VoteCodec} ctx (sk : K) ms bs vs votes m ms' bs' :
  handlePendingMilestone cfg ctx sk ms bs vs votes m = Ok (ms', bs') -> spans_grow 1 bs bs'.
Proof.
  assert (forall a b, Ok (a, bs) = Ok (ms', b) -> b = bs' -> spans_grow 1 bs bs') as Hsame.
  { intros a b [= _ <-] <-. by apply grow_same. }
  unfold handlePendingMilestone. destruct (IsIthaca _ _); [|intros H; by eapply Hsame]. intros E. ok_step E. ok_step E.
  destruct a0 as [[h hh] found]. destruct (negb found); [by eapply Hsame|]. revert E. unfold checkAndRotateOnPendingStall.
  cbn. destruct (_ || _); [intros H; by eapply Hsame|]. destruct (_ <=? _); [intros H; by eapply Hsame|]. apply grow_rotate_pending.
Qed.
Lemma grow_future ctx (sk : K) bs prop last ids bs' : checkAndAddFutureSpan cfg ctx sk bs prop last ids = Ok bs' -> spans_grow 1 bs bs'.
Proof.
  unfold checkAndAddFutureSpan. destruct (_ && _); [|intros [= <-]; by apply grow_same]. intros H. do 3 ok_step H.
  injection H as <-. by eapply grow_elected.
Qed.
Lemma grow_downtime ctx (sk : K) s msg s' : PostHandleSetProducerDowntime cfg ctx sk s msg VOTE_YES = Ok s' -> spans_grow 1 s s'.
Proof.
  intros H. unfold PostHandleSetProducerDowntime in H. do 8 ok_step H. ok_step H; [injection H as <-; by apply grow_same|].
  intros n Hc Hb. edestruct (grow_elected ctx sk) as (n' & Hc' & Hn); [exact H|done|done|..|by exists n']; [|exact Hb].
  by eapply span_chain_ext; [..|exact Hc].
Qed.
(** The span of a message is the next one, or is there already. *)
Lemma grow_span {EA : EthAddress} {RSrc : RandSource} fuel (sk : K) s msg v s' n : span_chain s n -> Z.of_nat n < MaxUint64 ->
  0 <= ps_SpanId msg <= Z.of_nat n + 1 -> PostHandleMsgSpan cfg fuel sk s msg v = Ok s' ->
  exists n', span_chain s' n' /\ (n <= n' <= S n)%nat.
Proof.
  intros Hc Hb Hid H. unfold PostHandleMsgSpan in H. destruct (IsRio _ _); [injection H as <-; exists n; split; [done|lia]|].
  do 4 ok_step H. unfold StoreSeedProducer in Ha. ok_step Ha. injection Ha as <-. unfold FreezeSet in H. do 3 ok_step H. injection H as <-.
  apply bool_decide_eq_false in Hg0.
  assert (ps_SpanId msg = Z.of_nat (S n)) as En.
  { destruct (Z.le_gt_cases (ps_SpanId msg) (Z.of_nat n)) as [Hle|]; [|lia]. exfalso. apply Hg0.
    destruct (sc_dense _ _ Hc (Z.to_nat (ps_SpanId msg))) as (sp & E & _); [lia|]. rewrite Z2Nat.id in E by lia. eauto. }
  match goal with |- context [AddNewSpan ?st ?sp] => set (s1 := st); set (new := sp) end.
  exists (S n). split; [|lia]. by eapply (AddNewSpan_chain s1 n new); [eapply span_chain_ext; [..|exact Hc]|].
Qed.
End spans.

(** ** What a state of the chain satisfies *)

Section chain.
Context {AC : AddressCodec} {VC : VoteCodec} {HF : HashFunction} {ML : MerkleLibrary} {HA : HexAddresses} {TL : TxLibrary}.
Context {SA : SdkAddress} {AH : AddressHexifier} {EA : EthAddress} {RSrc : RandSource}.
Context {RS : ReceiptSource} {SE : StakeEvents} {CE : ClerkEvents} {TE : TopupEvents} {BC : BorChain} {BN : BorNode} {RC : RootChain}.
Context {B : Type} {BK : BankKeeper B} {FB : FeeBank B} {SM : SdkModules B}.
Context (out_of_range : SpecFloat.spec_float -> Z) (cfg : Config) (authority : string).
Implicit Types (s : AppState B) (past : list (AppState B)).

(** The root chain has a header block with the number, the range and the root of the
    checkpoint, at the address and the interval a state of the past had. *)
Definition confirmed past (c : Checkpoint) : Prop :=
  exists s params p proposer, s ∈ past /\ app_chain_params s = Some params /\ checkpoint_params (app_checkpoint s) = Some p /\
    GetHeaderInfo (RootChainAddress params) (cp_Id c) (ChildChainBlockInterval p)
    = Ok (cp_RootHash c, cp_StartBlock c, cp_EndBlock c, proposer).
(** A validator with a state of the past voted yes on the message. *)
Definition side_checked past (m : AppMsg) : Prop :=
  exists ctx env s, s ∈ past /\ side_handler cfg ctx env s m = Some (Ok VOTE_YES).

(** The states of the past have no more spans and checkpoints than the present one. *)
Record past_ok past s : Prop := {
  po_checkpoints s0 : s0 ∈ past -> chain_ok (fun _ => True) (app_checkpoint s0) /\ GetAckCount (app_checkpoint s0) <= GetAckCount (app_checkpoint s);
  po_spans s0 : s0 ∈ past -> exists n0 n, span_chain (app_bor s0) n0 /\ span_chain (app_bor s) n /\ (n0 <= n)%nat;
}.
(** A state, with room for [k] more spans and checkpoints. *)
Record state_ok past (k : nat) s : Prop := {
  st_milestones : milestones_ok (app_milestone s);
  st_sets : sets_ok (app_stake s);
  st_spans : exists n, span_chain (app_bor s) n /\ Z.of_nat n + Z.of_nat k <= MaxUint64;
  st_checkpoints : chain_ok (confirmed past) (app_checkpoint s) /\ GetAckCount (app_checkpoint s) + Z.of_nat k <= MaxUint64;
  st_accounts : accounts_ok (app_topup s);
  st_past : past_ok past s;
}.

Lemma span_chain_unique bs n n' : span_chain bs n -> span_chain bs n' -> n = n'.
Proof. intros H H'. pose proof (sc_last _ _ H). pose proof (sc_last _ _ H'). assert (Z.of_nat n = Z.of_nat n') by congruence. lia. Qed.

(** A change that adds at most [j] spans and checkpoints keeps a state good. *)
Lemma state_ok_step past j k s s' : (j <= k)%nat -> state_ok past k s ->
  milestones_ok (app_milestone s') -> sets_ok (app_stake s') -> spans_grow j (app_bor s) (app_bor s') ->
  chain_ok (confirmed past) (app_checkpoint s') ->
  GetAckCount (app_checkpoint s) <= GetAckCount (app_checkpoint s') <= GetAckCount (app_checkpoint s) + Z.of_nat j ->
  accounts_ok (app_topup s') -> state_ok past (k - j) s'.
Proof.
  intros Hjk [HM HS (n & Hn & Hb) [HC Hc] HA' [P1 P2]] HM' HS' Hg HC' Hc' HT'.
  destruct (Hg n Hn) as (n' & Hn' & Hle); [lia|]. split; [done|done| | |done|].
  - exists n'. split; [done|lia].
  - split; [done|lia].
  - split.
    + intros s0 Hs0. destruct (P1 _ Hs0). split; [done|lia].
    + intros s0 Hs0. destruct (P2 _ Hs0) as (n0 & n1 & H0 & H1 & Hle0). exists n0, n'. split; [done|]. split; [done|].
      rewrite <- (span_chain_unique _ _ _ Hn H1) in Hle0. lia.
Qed.

(** The spans and the checkpoints stay. *)
Lemma state_ok_frame past k s s' : state_ok past k s ->
  milestones_ok (app_milestone s') -> sets_ok (app_stake s') ->
  spans (app_bor s') = spans (app_bor s) -> latestSpan (app_bor s') = latestSpan (app_bor s) ->
  checkpoints (app_checkpoint s') = checkpoints (app_checkpoint s) -> ackCount (app_checkpoint s') = ackCount (app_checkpoint s) ->
  (bufferedCheckpoint (app_checkpoint s') = bufferedCheckpoint (app_checkpoint s) \/ bufferedCheckpoint (app_checkpoint s') = None) ->
  accounts_ok (app_topup s') -> state_ok past k s'.
Proof.
  intros H HM HS E1 E2 E3 E4 E5 HT. rewrite <- (Nat.sub_0_r k).
  apply (state_ok_step past 0 k s s'); [lia|done|done|done|by apply grow_same| | |done].
  - eapply chain_ok_same; [..|apply (st_checkpoints _ _ _ H)]; done.
  - unfold GetAckCount. rewrite E4. lia.
Qed.

Ltac st_same H := match goal with
  | |- milestones_ok _ => apply (st_milestones _ _ _ H)
  | |- sets_ok _ => apply (st_sets _ _ _ H)
  | |- accounts_ok _ => apply (st_accounts _ _ _ H)
  | |- chain_ok _ _ => apply (st_checkpoints _ _ _ H)
  | |- spans_grow _ ?x ?x => by apply grow_same
  end.

(** ** The post-handlers *)

Lemma checkpoint_post past ctx s m cs ss : state_ok past 1 s -> side_checked past (ACheckpoint m) ->
  CheckpointHandlers.PostTxHandler ctx (app_checkpoint s, app_stake s) m VOTE_YES = Ok (cs, ss) ->
  chain_ok (confirmed past) cs /\ GetAckCount (app_checkpoint s) <= GetAckCount cs <= GetAckCount (app_checkpoint s) + 1 /\
  sets_ok ss.
Proof.
  intros H (ctx0 & env0 & s0 & Hin & Hside) E. destruct (st_checkpoints _ _ _ H) as [HC Hc].
  destruct m as [m|m]; cbn [CheckpointHandlers.PostTxHandler] in E.
  - ok_step E. injection E as <- <-. destruct (post_checkpoint_chain _ _ _ _ _ HC Ha) as [HC' ->].
    split; [done|]. split; [lia|]. st_same H.
  - cbn [side_handler CheckpointHandlers.SideTxHandler] in Hside. injection Hside as Hside.
    destruct (app_chain_params s0) as [params|] eqn:Ep; [|unfold SideHandleMsgCheckpointAck in Hside; do 5 yes_step Hside; discriminate].
    apply side_ack_yes in Hside as (Hlt & Hexp & p & proposer & Hp & Hinfo).
    destruct (po_checkpoints _ _ (st_past _ _ _ H) _ Hin) as [HC0 Hle].
    apply (expected_number_ok _ _ _ HC0) in Hexp; [|lia]. pose proof (co_count _ _ HC0).
    assert (exists ss1, IncrementAccum (app_stake s) 1 = Ok ss1 /\ ss1 = ss) as (ss1 & Hi & ->).
    { clear -E. unfold PostHandleMsgCheckpointAck in E. ok_inv E. subst. eauto. }
    apply (post_ack_chain (confirmed past)) in E as [HC' ->]; [|done|lia|lia|done|].
    + split; [done|]. split; [lia|]. eapply increment_sets_ok; [st_same H|exact Hi].
    + intros c E1 E2 E3 E4. exists s0, params, p, proposer. by rewrite E1, E2, E3, E4.
Qed.
Lemma bor_post past ctx fuel milestone sk s m bs : state_ok past 1 s -> side_checked past (ABor m) ->
  BorHandlers.PostTxHandler cfg fuel ctx milestone (SK := stake_keeper_impl) sk (app_bor s) m VOTE_YES = Ok bs ->
  spans_grow 1 (app_bor s) bs.
Proof.
  intros H (ctx0 & env0 & s0 & Hin & Hside) E. cbn [side_handler] in Hside. injection Hside as Hside.
  destruct m as [m|m|m]; cbn [BorHandlers.SideTxHandler BorHandlers.PostTxHandler] in *; [|done|by eapply grow_downtime].
  intros n Hn Hb. destruct (po_spans _ _ (st_past _ _ _ H) _ Hin) as (n0 & n1 & Hn0 & Hn1 & Hle).
  rewrite <- (span_chain_unique _ _ _ Hn Hn1) in Hle.
  apply side_span_yes in Hside as (_ & last & p & Hck). destruct (GetLastSpan_chain _ _ Hn0) as (sp & El & Hid & _).
  assert (last = sp) as -> by (pose proof (sk_last _ _ _ _ Hck); congruence).
  destruct (grow_span cfg fuel sk (app_bor s) m VOTE_YES bs n Hn) as (n' & Hn' & Hle'); [lia| |exact E|].
  - rewrite (sk_id _ _ _ _ Hck), Hid, u64_id by (unfold in_u64; lia). lia.
  - exists n'. split; [done|lia].
Qed.

Lemma state_ok_less past j k s : (j <= k)%nat -> state_ok past k s -> state_ok past j s.
Proof.
  intros Hle [H1 H2 (n & Hn & Hb) [HC Hc] H5 H6]. split; [done|done| | |done|done].
  - exists n. split; [done|lia].
  - split; [done|lia].
Qed.

Lemma post_handler_ok past k ctx env s m s' : state_ok past (S k) s -> side_checked past m ->
  post_handler cfg ctx env s m VOTE_YES = Some (Ok s') -> state_ok past k s'.
Proof.
  intros H Hs E. replace k with (S k - 1)%nat by lia. assert (state_ok past 1 s) as H1 by (apply (state_ok_less past 1 (S k)); [lia|done]).
  destruct m as [m|m|m|m|m|m| | | |]; cbn [post_handler] in E; try done; injection E as E; ok_step E.
  - destruct a as [ss bank]. injection E as <-. apply (post_sets_ok cfg _ ctx (app_stake s, app_bank s)) in Ha; [|st_same H].
    eapply state_ok_step; [lia|exact H|..]; cbn; try st_same H; [done|lia].
  - destruct a as [cs ss]. injection E as <-. destruct (checkpoint_post past ctx s m cs ss H1 Hs Ha) as (HC & Hc & HS).
    eapply state_ok_step; [lia|exact H|..]; cbn; try st_same H; [done|done|lia].
  - injection E as <-. apply (bor_post past ctx _ _ _ _ _ _ H1 Hs) in Ha.
    eapply state_ok_step; [lia|exact H|..]; cbn; try st_same H; [done|lia].
  - injection E as <-. eapply state_ok_step; [lia|exact H|..]; cbn; try st_same H; lia.
  - destruct a as [ts bank]. injection E as <-. unfold PostHandleTopupTx in Ha. ok_inv Ha. subst ts.
    eapply state_ok_step; [lia|exact H|..]; cbn; try st_same H; lia.
Qed.
Lemma post_handler_clerk ctx env s m s' : in_time ctx -> visibility_ok ctx (app_clerk s) ->
  post_handler cfg ctx env s m VOTE_YES = Some (Ok s') -> visibility_ok ctx (app_clerk s').
Proof.
  intros Ht Hv E. destruct m; cbn [post_handler] in E; try done; injection E as E; ok_step E;
    repeat match goal with x : _ * _ |- _ => destruct x end; injection E as <-; try done.
  cbn [app_clerk with_clerk]. by apply (step_visibility_ok cfg (ctx, app_clerk s) (ctx, a) (step_event cfg _ _ _ _ _ Ha)).
Qed.

Lemma executes_ok past ctx env l log : forall s s', executes cfg ctx env s l log s' ->
  state_ok past (length l) s -> Forall (fun tm => side_checked past tm.2) l ->
  in_time ctx -> visibility_ok ctx (app_clerk s) -> state_ok past 0 s' /\ visibility_ok ctx (app_clerk s').
Proof.
  intros s s' HE. induction HE as [s|s s1 s2 tx m l log Hp HE IH|s e s2 tx m l log Hp HE IH]; intros H Hl Ht Hv; [done|..].
  - apply Forall_cons in Hl as [Hm Hl]. apply IH; [by eapply post_handler_ok|done|done|by eapply post_handler_clerk].
  - apply Forall_cons in Hl as [Hm Hl]. apply IH; [|done..]. eapply state_ok_less; [|exact H]. cbn; lia.
Qed.

(** ** The pre-blocker *)

Lemma milestone_step_frame order ctx s vs votes s' : milestone_step cfg order ctx s vs votes = Ok s' ->
  spans_grow 1 (app_bor s) (app_bor s') /\ app_stake s' = app_stake s /\ app_checkpoint s' = app_checkpoint s /\
  app_clerk s' = app_clerk s /\ app_topup s' = app_topup s.
Proof.
  unfold milestone_step. intros E. ok_step E. destruct a as [lastEnd lastHash]. ok_step E. destruct a as [t vs']. ok_step E.
  ok_step E. rename a into r.
  assert (forall v votes t, without_milestone cfg (order 1%nat) ctx s v votes t lastEnd lastHash = Ok s' ->
    spans_grow 1 (app_bor s) (app_bor s') /\ app_stake s' = app_stake s /\ app_checkpoint s' = app_checkpoint s /\
    app_clerk s' = app_clerk s /\ app_topup s' = app_topup s) as Hwithout.
  { intros v vts tot. unfold without_milestone. intros Ew. ok_step Ew. ok_step Ew. destruct a1 as [ms bs]. injection Ew as <-.
    split; [|done]. cbn [app_bor with_spans]. destruct a; [by eapply grow_pending|by eapply grow_rotate]. }
  destruct r as [r|]; [|by eapply Hwithout]. destruct a0; [|by eapply Hwithout]. clear Hwithout.
  destruct r as [[[prop agg] proposer] ids]. unfold finalise_milestone in E. do 4 ok_step E. injection E as <-.
  split; [|done]. cbn [app_bor with_spans]. intros n Hn Hb. edestruct (grow_future cfg) as (n' & Hn' & Hle); [exact Ha6| |exact Hb|by exists n'].
  by destruct (IsRio _ _); [eapply span_chain_ext; [..|exact Hn]|].
Qed.

Lemma omap_length_le {X Y} (f : X -> option Y) l : (length (omap f l) <= length l)%nat.
Proof.
  induction l as [|x l IH]; [done|]. unfold omap in *. cbn [list_omap length] in *. destruct (f x); cbn [length]; lia.
Qed.

(** What the votes approve. *)
Definition approved s (req : FinalizeRequest) (tx : bytes) : Prop :=
  exists bz txs votes round vs a r k, fb_Txs req = bz :: txs /\ unmarshal_commit bz = Some (votes, round) /\
    getValidatorSetForHeight cfg (app_stake s) (fb_Height req) = Ok vs /\
    tallyVotes cfg votes vs (fb_Height req) = Ok (a, r, k) /\ Bytes2Hex (tx_hash tx) ∈ map Bytes2Hex a.
(** Every message that is approved was checked. *)
Definition honest past s (req : FinalizeRequest) : Prop :=
  forall lastTxs tx msgs m, GetLastBlockTxs (app_stake s) = Ok lastTxs -> tx ∈ lastTxs -> approved s req tx ->
    TxDecode tx = Some msgs -> m ∈ msgs -> has_side_handler m = true -> side_checked past m.

Lemma due_checked past s req bz txs votes round vs a r k cp lastTxs : honest past s req ->
  fb_Txs req = bz :: txs -> unmarshal_commit bz = Some (votes, round) ->
  getValidatorSetForHeight cfg (app_stake s) (fb_Height req) = Ok vs -> tallyVotes cfg votes vs (fb_Height req) = Ok (a, r, k) ->
  GetLastBlockTxs (app_stake s) = Ok lastTxs ->
  Forall (fun tm => side_checked past tm.2) (due (list_to_set (map Bytes2Hex a)) cp lastTxs) /\
  (length (due (list_to_set (map Bytes2Hex a)) cp lastTxs) <= length lastTxs)%nat.
Proof.
  intros Hh Et Eu Hvs Ha Hl. split.
  - apply Forall_forall. intros [tx m] Hin. unfold due in Hin. apply list_elem_of_omap in Hin as (rawTx & Hraw & E).
    case_bool_decide as Hap; [|done]. destruct (due_msg cp rawTx) as [m'|] eqn:Ed; [|done]. cbn in E. injection E as <- <-. cbn [snd].
    unfold due_msg in Ed. destruct (TxDecode rawTx) as [msgs|] eqn:Etx; [|done]. cbn in Ed. apply find_some in Ed as [Hm Hs].
    apply andb_true_iff in Hs as [Hs _]. apply (Hh lastTxs rawTx msgs m' Hl Hraw); [|done|by apply list_elem_of_In|done].
    exists bz, txs, votes, round, vs, a, r, k. split_and!; try done. by apply elem_of_list_to_set in Hap.
  - apply omap_length_le.
Qed.

(** ** Delivered transactions *)

Lemma update_params_ok past k s m s' : state_ok past k s -> update_params authority s m = Ok s' ->
  state_ok past k s' /\ app_clerk s' = app_clerk s.
Proof.
  intros H E. destruct m; cbn [update_params] in E; ok_step E; injection E as <-; (split; [|done]).
  - unfold UpdateParams in Ha. ok_inv Ha. subst a. eapply state_ok_frame; [exact H|..]; cbn; try st_same H; auto.
  - unfold UpdateCheckpointParams in Ha. ok_inv Ha. subst a. eapply state_ok_frame; [exact H|..]; cbn; try st_same H; auto.
  - unfold UpdateMilestoneParams, SetMilestoneParams in Ha. ok_inv Ha. subst a.
    eapply state_ok_frame; [exact H|..]; cbn; try st_same H; auto. eapply milestones_ok_same; [|st_same H]. done.
  - eapply state_ok_frame; [exact H|..]; cbn; try st_same H; auto.
Qed.
Lemma msg_server_ok past k ctx env raw s m s' : state_ok past k s ->
  msg_server out_of_range cfg authority ctx env raw s m = Ok s' -> state_ok past k s' /\ app_clerk s' = app_clerk s.
Proof.
  intros H E. destruct m as [m|[m|m]|m|m|m|m|m|m|m|]; cbn [msg_server] in E; [| | | | | | | | |by eapply update_params_ok|];
    ok_step E; try (injection E as <-; by split).
  - injection E as <-. apply propose_same in Ha as ->. split; [|done].
    eapply state_ok_frame; [exact H|..]; cbn; try st_same H; auto.
  - injection E as <-. unfold VoteProducers in Ha. ok_inv Ha. subst a. split; [|done].
    eapply state_ok_frame; [exact H|..]; cbn; try st_same H; auto.
  - destruct a as [cs ss]. injection E as <-. split; [|done].
    assert (IncrementAccum (app_stake s) 1 = Ok ss) as Hi by (clear -Ha; unfold MsgServer_CheckpointNoAck in Ha; ok_inv Ha; by subst).
    apply no_ack_same in Ha as ->. eapply state_ok_frame; [exact H|..]; cbn; try st_same H; auto.
    eapply increment_sets_ok; [st_same H|exact Hi].
  - destruct a as [ts bank]. injection E as <-. split; [|done]. unfold WithdrawFeeTx in Ha. ok_inv Ha. subst.
    eapply state_ok_frame; [exact H|..]; cbn; try st_same H; auto.
    match goal with Hf : or_err (AddFeeToDividendAccount _ _ _) _ = Ok _ |- _ => apply or_err_ok, AddFee_ok in Hf; [apply Hf|st_same H] end.
  - injection E as <-. split; [|done]. eapply state_ok_frame; [exact H|..]; cbn; try st_same H; auto.
Qed.
Lemma run_msgs_ok past k ctx env raw msgs : forall s s', state_ok past k s ->
  run_msgs out_of_range cfg authority ctx env raw s msgs = Ok s' -> state_ok past k s' /\ app_clerk s' = app_clerk s.
Proof.
  induction msgs as [|m msgs IH]; intros s s' H E; cbn [run_msgs] in E; [by injection E as <-|].
  ok_step E. apply (msg_server_ok past k) in Ha as [H1 E1]; [|done]. apply (IH a) in E as [H2 E2]; [|done]. by rewrite E2.
Qed.
Lemma with_bank_ok past k s bank : state_ok past k s -> state_ok past k (with_bank s bank).
Proof. intros H. eapply state_ok_frame; [exact H|..]; cbn; try st_same H; auto. Qed.
Lemma deliver_tx_ok past k ctx env s raw : state_ok past k s ->
  state_ok past k (deliver_tx out_of_range cfg authority ctx env s raw) /\
  app_clerk (deliver_tx out_of_range cfg authority ctx env s raw) = app_clerk s.
Proof.
  intros H. unfold deliver_tx. destruct (TxDecode raw) as [msgs|]; [|done].
  destruct (NewAnteHandler cfg ctx raw s msgs) as [s1|e|] eqn:E1; [|done..].
  assert (state_ok past k s1 /\ app_clerk s1 = app_clerk s) as [H1 Ec].
  { unfold NewAnteHandler in E1. ok_inv E1. subst s1. split; [by apply with_bank_ok|done]. }
  destruct (run_msgs _ _ _ _ _ _ _ _) as [s2|e|] eqn:E2; [|done..].
  apply (run_msgs_ok past k) in E2 as [H2 Ec2]; [|done]. by rewrite Ec2.
Qed.
Lemma run_proposal_ok past k ctx env s msgs : state_ok past k s ->
  state_ok past k (run_proposal out_of_range cfg authority ctx env s msgs) /\
  app_clerk (run_proposal out_of_range cfg authority ctx env s msgs) = app_clerk s.
Proof.
  intros H. unfold run_proposal. destruct (run_msgs _ _ _ _ _ _ _ _) as [s2|e|] eqn:E2; [|done..]. by apply (run_msgs_ok past k) in E2.
Qed.
(** A fold of steps that keep the state. *)
Lemma fold_ok {X} past k (f : AppState B -> X -> AppState B) l :
  (forall s x, state_ok past k s -> state_ok past k (f s x) /\ app_clerk (f s x) = app_clerk s) ->
  forall s, state_ok past k s -> state_ok past k (fold_left f l s) /\ app_clerk (fold_left f l s) = app_clerk s.
Proof.
  intros Hf. induction l as [|x l IH]; intros s H; cbn [fold_left]; [done|].
  destruct (Hf s x H) as [H1 E1]. destruct (IH _ H1) as [H2 E2]. by rewrite E2.
Qed.
Lemma end_blocker_ok {PK} (pk : bytes -> option PK) past k ctx env s passed ups s' : state_ok past k s ->
  EndBlocker out_of_range cfg authority ctx env pk s passed = Ok (ups, s') -> state_ok past k s' /\ app_clerk s' = app_clerk s.
Proof.
  intros H E. unfold EndBlocker in E. ok_step E. rename a into s1. ok_step E. destruct a as [u ss]. injection E as <- <-.
  assert (state_ok past k s1 /\ app_clerk s1 = app_clerk s) as [H1 E1].
  { unfold transfer_fees in Ha. destruct (app_block_proposer s); [|by injection Ha as <-]. ok_step Ha. injection Ha as <-.
    split; [|done]. eapply state_ok_frame; [exact H|..]; cbn; try st_same H; auto. }
  set (s2 := fold_left _ _ _) in *.
  destruct (fold_ok past k (run_proposal out_of_range cfg authority ctx env) passed (fun s x => run_proposal_ok past k ctx env s x)
    (with_bank s1 (gov_deposits (app_bank s1)))) as [H2 E2]; [by apply with_bank_ok|]. fold s2 in H2, E2.
  split; [|etrans; [exact E2|exact E1]]. eapply state_ok_frame; [exact H2|..]; cbn; try st_same H2; auto.
  eapply end_block_sets_ok; [st_same H2|exact Ha0].
Qed.

(** ** The pre-blocker and the block *)

(** The next block. *)
Record next_block (ctx ctx' : Ctx) : Prop := {
  nb_height : BlockHeight ctx' = BlockHeight ctx + 1; nb_time : BlockTime ctx <= BlockTime ctx'; nb_in_time : in_time ctx';
}.

Lemma clerk_next ctx ctx' ks : in_time ctx -> next_block ctx ctx' -> visibility_ok ctx ks ->
  visibility_ok ctx' (if IsZurichHardfork cfg (BlockHeight ctx') then StoreBlockTime ctx' (ProcessPendingVisibilityEvents ctx' ks) else ks).
Proof.
  intros Ht [Eh Et Ht'] Hv. destruct (IsZurichHardfork cfg (BlockHeight ctx')) eqn:Hz.
  - by apply (step_visibility_ok cfg (ctx, ks) (ctx', _) (step_block cfg ctx ctx' ks Eh Et Ht' Hz)).
  - destruct Hv as [H1 H2 H3 H4]. split; [done|done| |].
    + intros id h Hh. destruct (H3 _ _ Hh). split; [done|lia].
    + intros t h x Hx. destruct (H4 _ _ _ Hx) as (? & ? & ?). split_and!; [done|lia..].
Qed.
Lemma set_for_height_wf ss height vs : sets_ok ss -> getValidatorSetForHeight cfg ss height = Ok vs -> wf vs.
Proof.
  intros (_ & Hp & Hpp) E. unfold getValidatorSetForHeight, getPenultimateBlockValidatorSet, getPreviousBlockValidatorSet, nonempty_set,
    GetPenultimateBlockValidatorSet, GetPreviousBlockValidatorSet in E.
  destruct (_ && _); ok_inv E; subst; match goal with H : of_option _ _ = Ok _ |- _ => apply of_option_ok in H; auto end.
Qed.

Lemma preblock_ok past k mig order ctx ctx' ch env s s' req : codec_ok -> in_time ctx -> next_block ctx ctx' ->
  fb_Height req = BlockHeight ctx' -> fb_Height req <> milestoneDeletionHeight mig ->
  state_ok past k s -> visibility_ok ctx (app_clerk s) -> honest past s req ->
  (forall l, GetLastBlockTxs (app_stake s) = Ok l -> (length l < k)%nat) ->
  PreBlocker cfg mig order ctx' ch env s req = Ok s' -> state_ok past 0 s' /\ visibility_ok ctx' (app_clerk s').
Proof.
  intros HC Ht Hnext Eh Hdel H Hv Hh Hroom E. apply preblock_inv in E as (bz & txs & votes & round & ms & ks & Et & Eu & Hd & Ek & E).
  assert (ms = app_milestone s) as ->.
  { unfold delete_faulty_milestone in Hd. rewrite (proj2 (Z.eqb_neq _ _)) in Hd by done. by injection Hd as <-. }
  assert (visibility_ok ctx' ks) as Hv' by (rewrite Ek, Eh; by apply (clerk_next ctx)).
  cbn zeta in E. set (s0 := with_clerk (with_spans s (app_milestone s) (app_bor s)) ks) in *.
  assert (state_ok past k s0) as H0 by (eapply state_ok_frame; [exact H|..]; cbn; try st_same H; auto).
  destruct (fb_Height req <=? VoteExtensionsEnableHeight ch).
  { subst s'. split; [by apply (state_ok_less past 0 k); [lia|]|done]. }
  apply process_votes_inv in E as (lastTxs & vs & s1 & a & r & kk & cs & cp & s2 & account & Hl & Hvs & Hm & Ha & Hcs & Hx & _ & ->).
  pose proof (set_for_height_wf _ _ _ (st_sets _ _ _ H0) Hvs) as Hwf. specialize (Hroom _ Hl).
  pose proof (milestone_step_frame _ _ _ _ _ _ Hm) as (Hg & Es & Ec & Eck & Etp).
  destruct (milestone_step_ok cfg order ctx' (with_stake s0 (SetLastBlockTxs (app_stake s0) txs) (app_bank s0)) vs votes s1 HC Hwf
    (st_milestones _ _ _ H0) Hm) as [Hms _].
  cbn [app_stake app_checkpoint app_clerk app_topup app_bor with_stake] in *.
  assert (state_ok past (k - 1) s1) as H1.
  { eapply state_ok_step; [lia|exact H0|..]; rewrite ?Es, ?Ec, ?Etp; try st_same H0; try done; [|lia].
    apply SetLastBlockTxs_sets_ok. st_same H0. }
  destruct (store_signatures_frame cfg _ _ _ _ _ _ _ _ _ Hcs) as (E1 & E2 & E3).
  destruct (due_checked past s req bz txs votes round vs a r kk cp lastTxs Hh Et Eu Hvs Ha Hl) as [Hdue Hlen].
  apply execute_txs_executes in Hx as [log Hx].
  destruct (executes_ok past ctx' env _ _ _ _ Hx) as [H2 Hv2]; [|exact Hdue|apply Hnext|cbn; by rewrite Eck|].
  - eapply (state_ok_less past _ (k - 1)); [lia|]. eapply state_ok_frame; [exact H1|..]; cbn; try st_same H1; auto.
  - split; [|exact Hv2]. eapply state_ok_frame; [exact H2|..]; cbn; try st_same H2; auto.
Qed.

(** The numbers have room for what a block may add: one span by a rotation, and a span or
    a checkpoint for each transaction of the last block. *)
Definition roomy s : Prop := forall l n, GetLastBlockTxs (app_stake s) = Ok l -> latestSpan (app_bor s) = Some n ->
  n + Z.of_nat (length l) + 1 <= MaxUint64 /\ GetAckCount (app_checkpoint s) + Z.of_nat (length l) + 1 <= MaxUint64.

Lemma state_ok_room past s l : state_ok past 0 s -> roomy s -> GetLastBlockTxs (app_stake s) = Ok l ->
  state_ok past (S (length l)) s.
Proof.
  intros [H1 H2 (n & Hn & Hb) [H4 H4'] H5 H6] Hr Hl. destruct (Hr l _ Hl (sc_last _ _ Hn)). split; [done|done| |split; [done|lia]|done|done].
  exists n. split; [done|lia].
Qed.

Lemma block_ok {PK} (pk : bytes -> option PK) past mig order ctx ctx' ch env s req delivered passed ups s' :
  codec_ok -> in_time ctx -> next_block ctx ctx' ->
  fb_Height req = BlockHeight ctx' -> fb_Height req <> milestoneDeletionHeight mig ->
  state_ok past 0 s -> roomy s -> visibility_ok ctx (app_clerk s) -> honest past s req ->
  finalize_block out_of_range cfg authority pk mig order ctx' ch env s req delivered passed = Ok (ups, s') ->
  state_ok past 0 s' /\ visibility_ok ctx' (app_clerk s').
Proof.
  intros HC Ht Hn Eh Hdel H Hr Hv Hh E. unfold finalize_block in E. ok_step E. rename a into s1.
  assert (state_ok past 0 s1 /\ visibility_ok ctx' (app_clerk s1)) as [H1 Hv1].
  { destruct (GetLastBlockTxs (app_stake s)) as [l|e|] eqn:El.
    - eapply (preblock_ok past (S (length l))); try done; [by apply state_ok_room|]. intros l' Hl'. assert (l' = l) as -> by congruence. lia.
    - eapply (preblock_ok past 0); try done. intros l' Hl'. congruence.
    - eapply (preblock_ok past 0); try done. intros l' Hl'. congruence. }
  set (s2 := fold_left _ _ _) in E.
  destruct (fold_ok past 0 (deliver_tx out_of_range cfg authority ctx' env) delivered
    (fun s x => deliver_tx_ok past 0 ctx' env s x) s1 H1) as [H2 E2]. fold s2 in H2, E2.
  apply (end_blocker_ok pk past 0) in E as [H3 E3]; [|exact H2]. split; [done|]. rewrite E3. rewrite E2. done.
Qed.

(** The state joins the past. *)
Lemma state_ok_past past s : state_ok past 0 s -> state_ok (s :: past) 0 s.
Proof.
  intros [H1 H2 (n & Hn & Hb) [H4 H4'] H5 [P1 P2]]. split; [done|done|by exists n| |done|split].
  - split; [|done]. apply (chain_ok_weaken (confirmed past)); [|done].
    intros c (s0 & params & p & proposer & Hin & Hrest). exists s0, params, p, proposer. split; [by apply elem_of_cons; right|done].
  - intros s0 [->|Hs0]%elem_of_cons; [|by apply P1]. split; [|lia]. by apply (chain_ok_weaken (confirmed past)).
  - intros s0 [->|Hs0]%elem_of_cons; [|by apply P2]. by exists n, n.
Qed.

(** The chain: the blocks applied one after the other, with the states so far, where the
    validators whose votes approve a message checked it against one of those states; [past0]
    are states of before the start. *)
Inductive chain {PK} (pk : bytes -> option PK) (mig : MilestoneMigration) (past0 : list (AppState B)) (ctx0 : Ctx)
    (s0 : AppState B) : list (AppState B) -> Ctx -> AppState B -> Prop :=
| chain_start : chain pk mig past0 ctx0 s0 past0 ctx0 s0
| chain_block past ctx s ctx' order ch env req delivered passed ups s' : chain pk mig past0 ctx0 s0 past ctx s ->
    next_block ctx ctx' -> fb_Height req = BlockHeight ctx' -> fb_Height req <> milestoneDeletionHeight mig ->
    roomy s -> honest past s req ->
    finalize_block out_of_range cfg authority pk mig order ctx' ch env s req delivered passed = Ok (ups, s') ->
    chain pk mig past0 ctx0 s0 (s' :: past) ctx' s'.

(** C1: From a good state on, the application only reaches good states: whatever
    transactions are delivered and proposals pass, as long as approved side transactions
    were checked by a validator, after every block the milestones are consecutive, the
    validator sets are well-formed with stored members, the spans have no gaps, the
    checkpoints are consecutive and each one is a header block of the root chain, the
    dividend accounts hold amounts, and the visibility index of the clerk is sound. *)
Theorem reachable_states_are_sound {PK} (pk : bytes -> option PK) mig past0 ctx0 s0 past ctx s :
  codec_ok -> in_time ctx0 -> state_ok past0 0 s0 -> visibility_ok ctx0 (app_clerk s0) -> chain pk mig past0 ctx0 s0 past ctx s ->
  milestones_ok (app_milestone s) /\ sets_ok (app_stake s) /\ (exists n, span_chain (app_bor s) n) /\
  chain_ok (confirmed past) (app_checkpoint s) /\ accounts_ok (app_topup s) /\ visibility_ok ctx (app_clerk s).
Proof.
  intros HC Ht H0 Hv0 HR. assert (in_time ctx /\ state_ok past 0 s /\ visibility_ok ctx (app_clerk s)) as (_ & [H1 H2 (n & Hn & _) [H4 _] H5 _] & Hv).
  { induction HR as [|past ctx s ctx' order ch env req delivered passed ups s' HR (IHt & IH & IHv) Hn Eh Hdel Hr Hh E]; [done|].
    split; [apply Hn|]. destruct (block_ok pk past mig order ctx ctx' ch env s req delivered passed ups s') as [H Hv]; try done.
    split; [by apply state_ok_past|done]. }
  split_and!; try done. by exists n.
Qed.
End chain.

(** ** The events of the main chain

    What a block executes of the transactions of the block before it, and that nothing else
    in a block touches the records of the events. *)

(** An event of the main chain that a message applies, as the modules record it. *)
Inductive MainEvent := StakeEvent (sequence : string) | TopupEvent (sequence : string) | StateSync (id : Z).
Definition main_event (m : AppMsg) : option MainEvent :=
  match m with
  | AStake m => Some (StakeEvent (msg_sequence m))
  | ATopup m => Some (TopupEvent (sequence_of m))
  | AClerk m => Some (StateSync (me_Id m))
  | _ => None
  end.
Definition main_events (log : list (bytes * AppMsg)) : list MainEvent := omap (fun tm => main_event tm.2) log.

Section events.
Context {AC : AddressCodec} {VC : VoteCodec} {HF : HashFunction} {ML : MerkleLibrary} {HA : HexAddresses} {TL : TxLibrary}.
Context {SA : SdkAddress} {AH : AddressHexifier} {EA : EthAddress} {RSrc : RandSource}.
Context {B : Type} {BK : BankKeeper B} {FB : FeeBank B} {SM : SdkModules B}.
Context (out_of_range : SpecFloat.spec_float -> Z) (cfg : Config) (authority : string).
Implicit Types s : AppState B.

Definition recorded s (e : MainEvent) : Prop :=
  match e with
  | StakeEvent q => q ∈ sequences (app_stake s)
  | TopupEvent q => q ∈ topup_sequences (app_topup s)
  | StateSync id => is_Some (RecordsWithID (app_clerk s) !! id)
  end.

(** Transactions, proposals and fees rotate the proposer at most. *)
Definition rotation (ss ss' : StakeState) : Prop := IncrementAccum ss 1 = Ok ss'.
Record quiet s s' : Prop := {
  qt_stake : rtc rotation (app_stake s) (app_stake s');
  qt_topup : topup_sequences (app_topup s') = topup_sequences (app_topup s);
  qt_clerk : RecordsWithID (app_clerk s') = RecordsWithID (app_clerk s);
}.
#[export] Instance quiet_preorder : PreOrder quiet.
Proof. split; [by intros s|]. intros s1 s2 s3 [A1 A2 A3] [C1 C2 C3]. split; [by etrans|congruence..]. Qed.
Lemma quiet_same s s' : app_stake s' = app_stake s -> app_topup s' = app_topup s -> app_clerk s' = app_clerk s -> quiet s s'.
Proof. intros E1 E2 E3. split; by rewrite ?E1, ?E2, ?E3. Qed.
#[local] Hint Resolve quiet_same : core.

Lemma rotation_same ss ss' : rtc rotation ss ss' -> validators ss' = validators ss /\ sequences ss' = sequences ss.
Proof.
  induction 1 as [|a b c H _ [IH1 IH2]]; [done|]. unfold rotation, IncrementAccum in H. ok_step H. ok_step H. injection H as <-. done.
Qed.
Lemma quiet_recorded s s' e : quiet s s' -> recorded s' e <-> recorded s e.
Proof.
  intros [[_ E1]%rotation_same E2 E3]. destruct e; cbn [recorded]; by rewrite ?E1, ?E2, ?E3.
Qed.

Lemma msg_server_quiet ctx env raw s m s' : msg_server out_of_range cfg authority ctx env raw s m = Ok s' -> quiet s s'.
Proof.
  destruct m as [m|[m|m]|m|m|m|m|m|m|m|]; cbn [msg_server]; intros E; try (ok_step E; injection E as <-; auto; fail).
  - ok_step E. destruct a as [cs ss]. injection E as <-. split; [|done..]. apply rtc_once.
    unfold MsgServer_CheckpointNoAck in Ha. unfold rotation. ok_inv Ha. by subst.
  - ok_step E. destruct a as [ts bank]. injection E as <-. split; [done| |done]. unfold WithdrawFeeTx in Ha. ok_inv Ha. subst.
    match goal with H : or_err (AddFeeToDividendAccount _ _ _) _ = Ok _ |- _ => apply or_err_ok in H; unfold AddFeeToDividendAccount in H; ok_inv H end.
    by subst.
  - destruct m; cbn [update_params] in E; ok_step E; injection E as <-; auto.
Qed.
Lemma run_msgs_quiet ctx env raw msgs : forall s s', run_msgs out_of_range cfg authority ctx env raw s msgs = Ok s' -> quiet s s'.
Proof.
  induction msgs as [|m msgs IH]; intros s s' E; cbn [run_msgs] in E; [by injection E as <-|].
  ok_step E. apply msg_server_quiet in Ha. etrans; [exact Ha|by apply IH].
Qed.
Lemma deliver_txs_quiet ctx env l : forall s, quiet s (fold_left (deliver_tx out_of_range cfg authority ctx env) l s).
Proof.
  induction l as [|raw l IH]; intros s; cbn [fold_left]; [done|]. etrans; [|apply IH]. unfold deliver_tx.
  destruct (TxDecode raw) as [msgs|]; [|done]. destruct (NewAnteHandler cfg ctx raw s msgs) as [s1|e|] eqn:E1; [|done..].
  assert (quiet s s1) as H1 by (unfold NewAnteHandler in E1; ok_inv E1; subst s1; auto).
  destruct (run_msgs _ _ _ _ _ _ _ _) as [s2|e|] eqn:E2; [|done..]. apply run_msgs_quiet in E2. by etrans.
Qed.
Lemma run_proposals_quiet ctx env l : forall s, quiet s (fold_left (run_proposal out_of_range cfg authority ctx env) l s).
Proof.
  induction l as [|msgs l IH]; intros s; cbn [fold_left]; [done|]. etrans; [|apply IH]. unfold run_proposal.
  destruct (run_msgs _ _ _ _ _ _ _ _) as [s2|e|] eqn:E2; [|done..]. by apply run_msgs_quiet in E2.
Qed.

(** A block after its pre-blocker: quiet up to the updates of the validator set. *)
Lemma block_tail {PK} (pk : bytes -> option PK) mig order ctx ch env s req delivered passed ups s' :
  finalize_block out_of_range cfg authority pk mig order ctx ch env s req delivered passed = Ok (ups, s') ->
  exists s1 s4, PreBlocker cfg mig order ctx ch env s req = Ok s1 /\ quiet s1 s4 /\
    ApplyAndReturnValidatorSetUpdates pk cfg ctx (GetAckCount (app_checkpoint s4)) (app_stake s4) = Ok (ups, app_stake s') /\
    s' = with_stake s4 (app_stake s') (app_bank s4).
Proof.
  unfold finalize_block. intros E. ok_step E. rename a into s1. unfold EndBlocker in E. ok_step E. rename a into s3.
  ok_step E. destruct a as [u ss]. injection E as <- <-. eexists s1, _. split; [done|]. split; [|split; [exact Ha1|done]].
  etrans; [apply deliver_txs_quiet|]. etrans; [|apply run_proposals_quiet].
  unfold transfer_fees in Ha0. destruct (app_block_proposer _); [|injection Ha0 as <-; auto]. ok_step Ha0. injection Ha0 as <-. auto.
Qed.
Lemma end_block_records {PK} (pk : bytes -> option PK) ctx n ss ups ss' :
  ApplyAndReturnValidatorSetUpdates pk cfg ctx n ss = Ok (ups, ss') -> validators ss' = validators ss /\ sequences ss' = sequences ss.
Proof.
  intros H. unfold ApplyAndReturnValidatorSetUpdates in H. ok_step H. ok_step H.
  assert (validators a0 = validators ss /\ sequences a0 = sequences ss) as [E1 E2].
  { destruct (_ <=? _) in Ha0; [|by injection Ha0 as <-]. ok_step Ha0. by injection Ha0 as <-. }
  destruct (GetUpdatedValidators _ _ _); [by injection H as _ <-|]. ok_step H. ok_step H. by injection H as _ <-.
Qed.

(** ** What a block executes *)

(** [log]: the messages of the approved transactions whose post-handlers succeeded in the
    block, from [s0], where they start, to [s2]. *)
Record execution (mig : MilestoneMigration) (order : nat -> gset string -> list string) (ctx : Ctx) (env : Env) s
    (req : FinalizeRequest) (log : list (bytes * AppMsg)) (s1 s2 : AppState B) : Prop := {
  ex_run : exists bz txs lastTxs vs votes round ms a r k cp,
    fb_Txs req = bz :: txs /\ unmarshal_commit bz = Some (votes, round) /\ GetLastBlockTxs (app_stake s) = Ok lastTxs /\
    getValidatorSetForHeight cfg (app_stake s) (fb_Height req) = Ok vs /\
    delete_faulty_milestone mig (fb_Height req) (app_milestone s) = Ok ms /\
    tallyVotes cfg votes vs (fb_Height req) = Ok (a, r, k) /\
    execution_start cfg order ctx (voting_state cfg ctx s (fb_Height req) ms) (fb_Height req) txs lastTxs vs votes
      (list_to_set (map Bytes2Hex a)) cp s1 /\
    executes cfg ctx env s1 (due (list_to_set (map Bytes2Hex a)) cp lastTxs) log s2;
  ex_stake : validators (app_stake s1) = validators (app_stake s) /\ sequences (app_stake s1) = sequences (app_stake s);
  ex_topup : app_topup s1 = app_topup s;
  ex_clerk : RecordsWithID (app_clerk s1) = RecordsWithID (app_clerk s);
}.
(** Nothing is executed before the votes are enabled. *)
Definition executed (mig : MilestoneMigration) (order : nat -> gset string -> list string) (ctx : Ctx) (ch : ChainInfo) (env : Env)
    s (req : FinalizeRequest) (log : list (bytes * AppMsg)) : Prop :=
  if fb_Height req <=? VoteExtensionsEnableHeight ch then log = [] else exists s1 s2, execution mig order ctx env s req log s1 s2.

Lemma voting_state_records ctx s height ms : RecordsWithID (app_clerk (voting_state cfg ctx s height ms)) = RecordsWithID (app_clerk s).
Proof.
  unfold voting_state. cbn [app_clerk with_clerk]. destruct (IsZurichHardfork _ _); [|done]. cbn [StoreBlockTime RecordsWithID].
  unfold ProcessPendingVisibilityEvents. apply assign_visibility_fold.
Qed.
Lemma preblock_executes mig order ctx ch env s req s' : PreBlocker cfg mig order ctx ch env s req = Ok s' ->
  if fb_Height req <=? VoteExtensionsEnableHeight ch
  then quiet s s' /\ app_stake s' = app_stake s
  else exists log s1 s2 account, execution mig order ctx env s req log s1 s2 /\ s' = SetBlockProposer s2 account.
Proof.
  intros E. apply preblock_inv in E as (bz & txs & votes & round & ms & ks & Et & Eu & Hd & -> & E). cbn zeta in E.
  pose proof (voting_state_records ctx s (fb_Height req) ms) as Hrec. unfold voting_state in Hrec.
  destruct (fb_Height req <=? _); [subst s'; by split|].
  apply process_votes_inv in E as (lastTxs & vs & m & a & r & k & cs & cp & s2 & account & Hl & Hvs & Hm & Ht & Hs & Hx & _ & ->).
  apply execute_txs_executes in Hx as [log Hx]. exists log, (with_checkpoint m cs (app_stake m)), s2, account. split; [|done].
  assert (execution_start cfg order ctx (voting_state cfg ctx s (fb_Height req) ms) (fb_Height req) txs lastTxs vs votes
    (list_to_set (map Bytes2Hex a)) cp (with_checkpoint m cs (app_stake m))) as HS by (by eapply execution_starts).
  split.
  - by exists bz, txs, lastTxs, vs, votes, round, ms, a, r, k, cp.
  - rewrite (es_stake _ _ _ _ _ _ _ _ _ _ _ _ HS). done.
  - rewrite (es_topup _ _ _ _ _ _ _ _ _ _ _ _ HS). done.
  - rewrite (es_clerk _ _ _ _ _ _ _ _ _ _ _ _ HS). apply voting_state_records.
Qed.
(** ** Each event once *)

Lemma checkpoint_post_rotation ctx cs ss m v cs' ss' : CheckpointHandlers.PostTxHandler ctx (cs, ss) m v = Ok (cs', ss') -> rtc rotation ss ss'.
Proof.
  destruct m as [m|m]; cbn [CheckpointHandlers.PostTxHandler]; intros E; [ok_step E; by injection E as _ <-|].
  unfold PostHandleMsgCheckpointAck in E. ok_inv E. subst. by apply rtc_once.
Qed.
(** A post-handler that succeeds applies an event that was not recorded, and records it. *)
Lemma post_handler_records ctx env s m s' : post_handler cfg ctx env s m VOTE_YES = Some (Ok s') ->
  (forall e, main_event m = Some e -> ~ recorded s e) /\ forall e, recorded s' e <-> recorded s e \/ main_event m = Some e.
Proof.
  assert (quiet s s' -> (forall e, recorded s' e <-> recorded s e \/ None = Some e)) as Hq.
  { intros H e. rewrite (quiet_recorded _ _ _ H). naive_solver. }
  destruct m as [m|m|m|m|m|m| | | |]; cbn [post_handler main_event]; try done; intros [= E]; ok_step E.
  - destruct a as [ss bank]. injection E as <-. apply (post_sequence cfg _ ctx (app_stake s, app_bank s)) in Ha as (_ & Hn & Hs). cbn [fst] in *.
    split; [by intros e [= <-]|]. intros [q|q|id]; cbn [recorded app_stake app_topup app_clerk with_stake]; [rewrite Hs; set_solver|naive_solver..].
  - destruct a as [cs ss]. injection E as <-. split; [done|]. apply Hq. split; [by eapply checkpoint_post_rotation|done..].
  - injection E as <-. split; [done|]. by apply Hq.
  - injection E as <-. apply post_event_ok in Ha as (Hn & Hr & _). split; [intros e [= <-]; cbn; rewrite Hn; by intros [? ?]|].
    intros [q|q|id]; cbn [recorded app_stake app_topup app_clerk with_clerk]; [naive_solver..|]. rewrite Hr, lookup_insert_is_Some'. naive_solver.
  - destruct a as [ts bank]. injection E as <-. unfold PostHandleTopupTx in Ha. ok_inv Ha. subst ts. bool_hyps.
    split; [intros e [= <-] Hin; unfold HasTopupSequence in *; by bool_hyps|].
    intros [q|q|id]; cbn [recorded app_stake app_topup app_clerk with_topup SetTopupSequence topup_sequences]; [naive_solver|set_solver|naive_solver].
Qed.
Lemma executes_records ctx env s l log s' : executes cfg ctx env s l log s' ->
  NoDup (main_events log) /\ (forall e, e ∈ main_events log -> ~ recorded s e) /\
  forall e, recorded s' e <-> recorded s e \/ e ∈ main_events log.
Proof.
  induction 1 as [s|s s1 s2 tx m l log Hp HE (IH1 & IH2 & IH3)|s err s2 tx m l log Hp HE IH]; [|clear HE|done].
  - split; [constructor|]. split; [by intros e He%elem_of_nil|]. intros e. cbn. rewrite elem_of_nil. naive_solver.
  - apply post_handler_records in Hp as [Hnew Hrec]. unfold main_events in *. cbn [omap list_omap snd].
    destruct (main_event m) as [e0|]; [|split_and!; [done|intros e He Hr; apply (IH2 e He), Hrec; by left|intros e; rewrite IH3, Hrec; naive_solver]].
    split; [constructor; [intros Hin; apply (IH2 _ Hin), Hrec; by right|done]|]. split.
    + intros e [->|He]%elem_of_cons; [by apply Hnew|]. intros Hr. apply (IH2 e He), Hrec. by left.
    + intros e. rewrite IH3, Hrec, elem_of_cons. naive_solver.
Qed.
Lemma execution_records mig order ctx env s req log s1 s2 : execution mig order ctx env s req log s1 s2 ->
  NoDup (main_events log) /\ (forall e, e ∈ main_events log -> ~ recorded s e) /\
  forall e, recorded s2 e <-> recorded s e \/ e ∈ main_events log.
Proof.
  intros [(bz & txs & lastTxs & vs & votes & round & ms & a & r & k & cp & _ & _ & _ & _ & _ & _ & _ & HX) [_ E1] E2 E3].
  assert (forall e, recorded s1 e <-> recorded s e) as Hsame by (intros [q|q|id]; cbn [recorded]; by rewrite ?E1, ?E2, ?E3).
  apply executes_records in HX as (H1 & H2 & H3). split; [done|]. split; [intros e He; rewrite <- Hsame; by apply H2|].
  intros e. by rewrite H3, Hsame.
Qed.
Lemma block_records {PK} (pk : bytes -> option PK) mig order ctx ch env s req delivered passed ups s' :
  finalize_block out_of_range cfg authority pk mig order ctx ch env s req delivered passed = Ok (ups, s') ->
  exists log, executed mig order ctx ch env s req log /\ NoDup (main_events log) /\
    (forall e, e ∈ main_events log -> ~ recorded s e) /\ forall e, recorded s' e <-> recorded s e \/ e ∈ main_events log.
Proof.
  intros E. apply block_tail in E as (s1 & s4 & Hpre & Hq & Hap & ->). apply end_block_records in Hap as [_ Es].
  assert (forall e, recorded (with_stake s4 (app_stake s') (app_bank s4)) e <-> recorded s1 e) as Htail.
  { intros e. rewrite <- (quiet_recorded _ _ e Hq). destruct e; cbn [recorded app_stake app_topup app_clerk with_stake]; by rewrite ?Es. }
  apply preblock_executes in Hpre. unfold executed. destruct (fb_Height req <=? _).
  - destruct Hpre as [H _]. exists []. cbn. split; [done|]. split; [constructor|]. split; [by intros e He%elem_of_nil|].
    intros e. rewrite Htail, (quiet_recorded _ _ _ H), elem_of_nil. naive_solver.
  - destruct Hpre as (log & sa & sb & account & HX & ->). exists log. split; [by exists sa, sb|].
    apply execution_records in HX as (H1 & H2 & H3). split; [done|]. split; [done|]. intros e. by rewrite Htail, <- H3.
Qed.

(** A run of blocks, each at a height and time for which [Q] holds, with what each
    executed. *)
Inductive blocks {PK} (pk : bytes -> option PK) (Q : Ctx -> Prop) (s0 : AppState B) : list (list (bytes * AppMsg)) -> AppState B -> Prop :=
| blocks_start : blocks pk Q s0 [] s0
| blocks_block logs s mig order ctx ch env req delivered passed ups log s' : blocks pk Q s0 logs s -> Q ctx ->
    finalize_block out_of_range cfg authority pk mig order ctx ch env s req delivered passed = Ok (ups, s') ->
    executed mig order ctx ch env s req log -> blocks pk Q s0 (logs ++ [log]) s'.

(** What a block executed is determined. *)
Lemma executes_fun ctx env s l log s' : executes cfg ctx env s l log s' ->
  forall log2 s2, executes cfg ctx env s l log2 s2 -> log2 = log /\ s2 = s'.
Proof.
  induction 1 as [s|s s1 s' tx m l log Hp _ IH|s e s' tx m l log Hp _ IH]; intros log2 s2 H2.
  - by inversion H2.
  - inversion H2 as [|? ? ? ? ? ? ? Hp2 HE2|? ? ? ? ? ? ? Hp2 HE2]; subst; [|congruence].
    assert (s3 = s1) as -> by congruence. by destruct (IH _ _ HE2) as [-> ->].
  - inversion H2 as [|? ? ? ? ? ? ? Hp2 HE2|? ? ? ? ? ? ? Hp2 HE2]; subst; [congruence|]. by destruct (IH _ _ HE2) as [-> ->].
Qed.
Lemma executed_fun mig order ctx ch env s req log log' :
  executed mig order ctx ch env s req log -> executed mig order ctx ch env s req log' -> log' = log.
Proof.
  unfold executed. destruct (_ <=? _); [congruence|].
  intros (s1 & s2 & [(bz & txs & lastTxs & vs & votes & round & ms & a & r & k & cp & E1 & E2 & E3 & E4 & E5 & E6 & HS & HX) _ _ _])
    (s1' & s2' & [(bz' & txs' & lastTxs' & vs' & votes' & round' & ms' & a' & r' & k' & cp' & E1' & E2' & E3' & E4' & E5' & E6' & HS' & HX') _ _ _]).
  rewrite E1 in E1'. injection E1' as <- <-. rewrite E2 in E2'. injection E2' as <- <-. rewrite E3 in E3'. injection E3' as <-. rewrite E4 in E4'. injection E4' as <-.
  rewrite E5 in E5'. injection E5' as <-. rewrite E6 in E6'. injection E6' as <- <- <-.
  destruct (es_computed _ _ _ _ _ _ _ _ _ _ _ _ HS) as (m & cs & Hm & Hcs & ->).
  destruct (es_computed _ _ _ _ _ _ _ _ _ _ _ _ HS') as (m' & cs' & Hm' & Hcs' & ->).
  rewrite Hm in Hm'. injection Hm' as <-. rewrite Hcs in Hcs'. injection Hcs' as <- <-.
  by destruct (executes_fun _ _ _ _ _ _ HX _ _ HX').
Qed.

Lemma blocks_record {PK} (pk : bytes -> option PK) Q s logs s' : blocks pk Q s logs s' ->
  NoDup (main_events (concat logs)) /\ (forall e, e ∈ main_events (concat logs) -> ~ recorded s e) /\
  forall e, recorded s' e <-> recorded s e \/ e ∈ main_events (concat logs).
Proof.
  intros HR. induction HR as [|logs s1 mig order ctx ch env req delivered passed ups log s' HR (IH1 & IH2 & IH3) _ E HX].
  - split; [constructor|]. split; [by intros e He%elem_of_nil|]. intros e. cbn. rewrite elem_of_nil. naive_solver.
  - destruct (block_records pk _ _ _ _ _ _ _ _ _ _ _ E) as (log' & HX' & H1 & H2 & H3). rewrite (executed_fun _ _ _ _ _ _ _ _ _ HX HX') in *. clear HX'.
    assert (main_events (concat (logs ++ [log])) = main_events (concat logs) ++ main_events log) as ->.
    { rewrite concat_app. cbn. rewrite app_nil_r. apply omap_app. }
    split; [apply NoDup_app; split; [done|]; split; [|done]; intros e He Hl; apply (H2 e Hl), IH3; by right|]. split.
    + intros e [He|He]%elem_of_app; [by apply IH2|]. intros Hr. apply (H2 e He), IH3. by left.
    + intros e. rewrite H3, IH3, elem_of_app. naive_solver.
Qed.

(** C14: Each event of the main chain is applied at most once, in all blocks together: the
    stake changes, topups and state syncs that the pre-blockers of a run of blocks apply
    are pairwise different, none of them was recorded before the run, and afterwards the
    modules have recorded exactly these in addition; every block extends the run, by what
    it executes. *)
Theorem main_chain_events_applied_once {PK} (pk : bytes -> option PK) s logs s' :
  blocks pk (fun _ => True) s logs s' ->
  NoDup (main_events (concat logs)) /\
  (forall e, e ∈ main_events (concat logs) -> ~ recorded s e) /\
  (forall e, recorded s' e <-> recorded s e \/ e ∈ main_events (concat logs)) /\
  (forall mig order ctx ch env req delivered passed ups s'',
     finalize_block out_of_range cfg authority pk mig order ctx ch env s' req delivered passed = Ok (ups, s'') ->
     exists log, executed mig order ctx ch env s' req log /\ blocks pk (fun _ => True) s (logs ++ [log]) s'').
Proof.
  intros HR. destruct (blocks_record pk _ _ _ _ HR) as (H1 & H2 & H3). split_and!; [done..|]. intros * E.
  destruct (block_records pk _ _ _ _ _ _ _ _ _ _ _ E) as (log & HX & _). exists log. split; [done|by eapply blocks_block].
Qed.

(** ** Validators that left *)

(** The validator left, and it has power all the same. *)
Definition left_with_power (ss : StakeState) (id : Z) : Prop :=
  exists a v, validators ss !! a = Some v /\ ValId v = id /\ EndEpoch v <> 0 /\ VotingPower v <> 0.
Lemma left_same ss ss' id : validators ss' = validators ss -> left_with_power ss' id -> left_with_power ss id.
Proof. intros E (a & v & H). rewrite E in H. by exists a, v. Qed.
Lemma left_added ss v id : left_with_power (AddValidator ss v) id ->
  ValId v = id /\ EndEpoch v <> 0 /\ VotingPower v <> 0 \/ left_with_power ss id.
Proof.
  intros (a & w & H & Hw). cbn in H. apply lookup_insert_Some in H as [[_ <-]|[_ H]]; [by left|right; by exists a, w].
Qed.

Lemma post_left ctx n (st st' : StakeState * B) m id : IsZurichHardfork cfg (BlockHeight ctx) = true ->
  StakeHandlers.PostTxHandler cfg ctx n st m VOTE_YES = Ok st' -> left_with_power st'.1 id -> left_with_power st.1 id.
Proof.
  destruct st as [s bank]. intros HZ. destruct m as [m|m|m|m]; cbn [StakeHandlers.PostTxHandler]; intros H; try ok_step H;
    [unfold PostHandleMsgValidatorJoin in Ha; ok_inv Ha
    |unfold PostHandleMsgStakeUpdate in Ha; ok_inv Ha
    |unfold PostHandleMsgSignerUpdate in H; ok_inv H
    |unfold PostHandleMsgValidatorExit in Ha; ok_inv Ha]; ok_inv H; subst; cbn [fst]; intros Hl;
    (match goal with Hl : left_with_power (SetStakingSequence ?s' _) _ |- _ => change (left_with_power s' id) in Hl end);
    apply left_added in Hl; cbn [ValId EndEpoch VotingPower] in Hl.
  - naive_solver.
  - destruct Hl as [(_ & Hne & Hp)|Hl]; [|done]. apply Z.eqb_neq in Hne. rewrite HZ, Hne in Ha2. by injection Ha2 as <-.
  - destruct Hl as [(<- & Hne & Hp)|Hl]; [|apply left_added in Hl; cbn in Hl; naive_solver].
    destruct (GetValidatorFromValID_stored _ _ _ Ha1) as [x Hx]. by exists x, a1.
  - naive_solver.
Qed.
Lemma rotation_left ss ss' id : rtc rotation ss ss' -> left_with_power ss' id -> left_with_power ss id.
Proof. intros [E _]%rotation_same. by apply left_same. Qed.
Lemma executes_left ctx env s l log s' id : IsZurichHardfork cfg (BlockHeight ctx) = true -> executes cfg ctx env s l log s' ->
  left_with_power (app_stake s') id -> left_with_power (app_stake s) id.
Proof.
  intros HZ. induction 1 as [s|s s1 s2 tx m l log Hp _ IH|s err s2 tx m l log Hp _ IH]; [done| |done]. intros Hl%IH. clear IH. revert Hl.
  destruct m as [m|m|m|m|m|m| | | |]; cbn [post_handler] in Hp; try done; injection Hp as Hp; ok_step Hp.
  - destruct a as [ss bank]. injection Hp as <-. by apply (post_left _ _ (app_stake s, app_bank s) (ss, bank) _ id HZ Ha).
  - destruct a as [cs ss]. injection Hp as <-. cbn. by apply rotation_left, (checkpoint_post_rotation _ _ _ _ _ _ _ Ha).
  - by injection Hp as <-.
  - by injection Hp as <-.
  - destruct a. by injection Hp as <-.
Qed.
Lemma block_left {PK} (pk : bytes -> option PK) mig order ctx ch env s req delivered passed ups s' id :
  IsZurichHardfork cfg (BlockHeight ctx) = true ->
  finalize_block out_of_range cfg authority pk mig order ctx ch env s req delivered passed = Ok (ups, s') ->
  left_with_power (app_stake s') id -> left_with_power (app_stake s) id.
Proof.
  intros HZ E. apply block_tail in E as (s1 & s4 & Hpre & [Hq _ _] & [Ev _]%end_block_records & _).
  intros Hl%(left_same _ _ _ Ev). apply (rotation_left _ _ _ Hq) in Hl. apply preblock_executes in Hpre.
  destruct (fb_Height req <=? _); [destruct Hpre as [_ <-]; exact Hl|].
  destruct Hpre as (log & sa & sb & account & [(? & ? & ? & ? & ? & ? & ? & ? & ? & ? & ? & _ & _ & _ & _ & _ & _ & _ & HX) [E1 _] _ _] & ->).
  cbn [app_stake SetBlockProposer] in Hl. apply (executes_left _ _ _ _ _ _ _ HZ HX) in Hl. by apply (left_same _ _ _ E1).
Qed.

(** The sets stay well-formed in every block. *)
Lemma rotation_sets_ok ss ss' : rtc rotation ss ss' -> sets_ok ss -> sets_ok ss'.
Proof. induction 1 as [|a b c H _ IH]; [done|]. intros Hok. by apply IH, (increment_sets_ok a b). Qed.
Lemma executes_sets_ok ctx env s l log s' : executes cfg ctx env s l log s' -> sets_ok (app_stake s) -> sets_ok (app_stake s').
Proof.
  induction 1 as [s|s s1 s2 tx m l log Hp _ IH|s err s2 tx m l log Hp _ IH]; [done| |done]. intros Hok. apply IH. clear IH.
  destruct m as [m|m|m|m|m|m| | | |]; cbn [post_handler] in Hp; try done; injection Hp as Hp; ok_step Hp.
  - destruct a as [ss bank]. injection Hp as <-. by apply (post_sets_ok cfg (GetAckCount (app_checkpoint s)) ctx (app_stake s, app_bank s) (ss, bank) m VOTE_YES).
  - destruct a as [cs ss]. injection Hp as <-. cbn. by eapply rotation_sets_ok, Hok; eapply checkpoint_post_rotation.
  - by injection Hp as <-.
  - by injection Hp as <-.
  - destruct a. by injection Hp as <-.
Qed.
Lemma block_sets_ok {PK} (pk : bytes -> option PK) mig order ctx ch env s req delivered passed ups s' :
  finalize_block out_of_range cfg authority pk mig order ctx ch env s req delivered passed = Ok (ups, s') ->
  sets_ok (app_stake s) -> sets_ok (app_stake s') /\
  exists n vs, validatorSet (app_stake s') = Some vs /\ forall k, power_at k (Validators vs) = stored_power n (app_stake s') k.
Proof.
  intros E Hok. apply block_tail in E as (s1 & s4 & Hpre & [Hq _ _] & Hap & _). apply preblock_executes in Hpre.
  assert (sets_ok (app_stake s1)) as H1.
  { destruct (fb_Height req <=? _); [destruct Hpre as [_ ->]; exact Hok|].
    destruct Hpre as (log & sa & sb & account & [(? & ? & ? & ? & ? & ? & ? & ? & ? & ? & ? & _ & _ & _ & _ & _ & _ & HS & HX) _ _ _] & ->).
    apply (executes_sets_ok _ _ _ _ _ _ HX). rewrite (es_stake _ _ _ _ _ _ _ _ _ _ _ _ HS). by apply SetLastBlockTxs_sets_ok. }
  apply (rotation_sets_ok _ _ Hq) in H1. split; [by eapply end_block_sets_ok|].
  destruct H1 as ((vs & HR) & _). destruct (end_block_ok cfg _ pk ctx _ _ _ _ HR Hap) as (vs' & Hset & _ & _ & Hv & _ & Hpow).
  eexists _, vs'. split; [done|]. intros k. rewrite Hpow. unfold stored_power. by rewrite Hv.
Qed.

(** C17: Validators that left have no power, from Zurich on.  In every run of blocks at
    heights of the Zurich fork, whatever they execute and deliver, a stored validator with
    an end epoch has no power, unless it had left with power before the first of these
    blocks: a validator that leaves loses its power, and no message gives power back to one
    that left.  And what has no power in the store has none in the validator set. *)
Theorem exited_validators_stay_powerless {PK} (pk : bytes -> option PK) s logs s' :
  blocks pk (fun ctx => IsZurichHardfork cfg (BlockHeight ctx) = true) s logs s' ->
  (forall a v, validators (app_stake s') !! a = Some v -> EndEpoch v <> 0 ->
     VotingPower v = 0 \/ left_with_power (app_stake s) (ValId v)) /\
  (sets_ok (app_stake s) -> logs <> [] -> forall vs a v, validatorSet (app_stake s') = Some vs ->
     validators (app_stake s') !! a = Some v -> VotingPower v = 0 -> power_at a (Validators vs) = 0).
Proof.
  intros HR. split.
  - intros a v Hv He. destruct (decide (VotingPower v = 0)) as [|Hp]; [by left|]. right.
    assert (left_with_power (app_stake s') (ValId v)) as Hl by (by exists a, v).
    clear a Hv. induction HR as [|logs s1 mig order ctx ch env req delivered passed ups log s' HR IH HZ E HX]; [done|].
    apply IH. by eapply block_left.
  - intros Hok Hne. assert (sets_ok (app_stake s') /\ (logs <> [] -> exists n vs, validatorSet (app_stake s') = Some vs /\
      forall k, power_at k (Validators vs) = stored_power n (app_stake s') k)) as [_ Hset].
    { clear Hne. induction HR as [|logs s1 mig order ctx ch env req delivered passed ups log s' HR IH HZ E HX]; [done|].
      destruct IH as [IH _]. destruct (block_sets_ok pk _ _ _ _ _ _ _ _ _ _ _ E IH) as [H1 H2]. done. }
    destruct (Hset Hne) as (n & vs0 & Evs & Hpow). intros vs a v Evs' Ha Hp. assert (vs0 = vs) as -> by congruence.
    rewrite Hpow. unfold stored_power. rewrite Ha, Hp. by destruct (IsCurrentValidator _ _).
Qed.
End events.

(** ** The fees of a block *)

Section fees.
Context {AC : AddressCodec} {VC : VoteCodec} {HF : HashFunction} {ML : MerkleLibrary} {HA : HexAddresses} {TL : TxLibrary}.
Context {SA : SdkAddress} {AH : AddressHexifier} {EA : EthAddress} {RSrc : RandSource}.
Context {B : Type} {BK : BankKeeper B} {FB : FeeBank B} {SM : SdkModules B}.
Context (out_of_range : SpecFloat.spec_float -> Z) (cfg : Config) (authority : string).
Implicit Types s : AppState B.

Lemma msg_server_proposer ctx env raw s m s' : msg_server out_of_range cfg authority ctx env raw s m = Ok s' ->
  app_block_proposer s' = app_block_proposer s.
Proof.
  destruct m as [m|[m|m]|m|m|m|m|m|m|m|]; cbn [msg_server]; intros E; try (ok_step E; by injection E as <-).
  - ok_step E. destruct a. by injection E as <-.
  - ok_step E. destruct a. by injection E as <-.
  - destruct m; cbn [update_params] in E; ok_step E; by injection E as <-.
Qed.
Lemma run_msgs_proposer ctx env raw msgs : forall s s', run_msgs out_of_range cfg authority ctx env raw s msgs = Ok s' ->
  app_block_proposer s' = app_block_proposer s.
Proof.
  induction msgs as [|m msgs IH]; intros s s' E; cbn [run_msgs] in E; [by injection E as <-|].
  ok_step E. apply msg_server_proposer in Ha as <-. by apply IH.
Qed.
Lemma deliver_txs_proposer ctx env l : forall s,
  app_block_proposer (fold_left (deliver_tx out_of_range cfg authority ctx env) l s) = app_block_proposer s.
Proof.
  induction l as [|raw l IH]; intros s; [done|]. cbn [fold_left]. rewrite IH. unfold deliver_tx.
  destruct (TxDecode raw) as [msgs|]; [|done]. destruct (NewAnteHandler cfg ctx raw s msgs) as [s1|e|] eqn:E1; [|done..].
  assert (app_block_proposer s1 = app_block_proposer s) as <- by (unfold NewAnteHandler in E1; ok_inv E1; by subst s1).
  destruct (run_msgs _ _ _ _ _ _ _ _) as [s2|e|] eqn:E2; [|done..]. by apply run_msgs_proposer in E2.
Qed.
Lemma run_proposals_proposer ctx env l : forall s,
  app_block_proposer (fold_left (run_proposal out_of_range cfg authority ctx env) l s) = app_block_proposer s.
Proof.
  induction l as [|msgs l IH]; intros s; [done|]. cbn [fold_left]. rewrite IH. unfold run_proposal.
  destruct (run_msgs _ _ _ _ _ _ _ _) as [s2|e|] eqn:E2; [|done..]. by apply run_msgs_proposer in E2.
Qed.

(** What the end of a block pays: the balance of the fee collector after the transactions;
    it stays there when the bank refuses. *)
Definition pays (bank : B) (account : bytes) (bank' : B) : Prop :=
  let coin := collector_balance bank in
  let sent := SendCoinsFromModuleToAccount bank "fee_collector" account [(FeeToken, coin)] in
  if coin =? 0 then bank' = bank else sent = Ok bank' \/ (exists e, sent = Err e) /\ bank' = bank.

Lemma transfer_fees_spec s s' : transfer_fees s = Ok s' -> app_block_proposer s' = None /\
  forall account, app_block_proposer s = Some account -> exists bank, pays (app_bank s) account bank /\ s' = RemoveBlockProposer (with_bank s bank).
Proof.
  unfold transfer_fees. intros E. destruct (app_block_proposer s) as [account|] eqn:Ep; [|by injection E as <-].
  ok_step E. injection E as <-. split; [done|]. intros ? [= <-]. exists a. split; [|done]. unfold pays.
  destruct (collector_balance (app_bank s) =? 0); [by injection Ha as <-|].
  destruct (SendCoinsFromModuleToAccount _ _ _ _) as [b|e|] eqn:Es; [left; by injection Ha as <-| |done].
  right. split; [by exists e|by injection Ha as <-].
Qed.

(** C5: The fees of a block go to the validator that proposed it: after the transactions,
    whatever they do, the balance of the fee collector is sent to the account of the
    block's proposer address, once; the proposals that passed run on the bank this
    leaves, and the block ends with what they and the validator updates leave, with no
    proposer for the next block to pay. *)
Theorem block_pays_its_proposer {PK} (pk : bytes -> option PK) mig order ctx ch env s req delivered passed ups s' :
  VoteExtensionsEnableHeight ch < fb_Height req ->
  finalize_block out_of_range cfg authority pk mig order ctx ch env s req delivered passed = Ok (ups, s') ->
  exists addr account s1 bank, HexifyAddressBytes (fb_ProposerAddress req) = Ok addr /\ AccAddressFromHex addr = Ok account /\
    PreBlocker cfg mig order ctx ch env s req = Ok s1 /\
    let s2 := fold_left (deliver_tx out_of_range cfg authority ctx env) delivered s1 in
    let s4 := fold_left (run_proposal out_of_range cfg authority ctx env) passed
                (RemoveBlockProposer (with_bank s2 (gov_deposits bank))) in
    app_block_proposer s2 = Some account /\ pays (app_bank s2) account bank /\
    app_bank s' = app_bank s4 /\ s' = with_stake s4 (app_stake s') (app_bank s4) /\
    ApplyAndReturnValidatorSetUpdates pk cfg ctx (GetAckCount (app_checkpoint s4)) (app_stake s4) = Ok (ups, app_stake s') /\
    app_block_proposer s' = None.
Proof.
  intros Hve E. unfold finalize_block in E. ok_step E. rename a into s1, Ha into Hpre. unfold EndBlocker in E. ok_step E. rename a into s3.
  ok_step E. destruct a as [u ss]. injection E as <- <-. destruct (transfer_fees_spec _ _ Ha) as [Hnone Hpays].
  pose proof Hpre as E. unfold PreBlocker in E. ok_step E. ok_step E. destruct (fb_Txs req) as [|bz txs]; [done|]. ok_step E.
  destruct a1 as [votes round]. rewrite (proj2 (Z.leb_gt _ _)) in E by lia. unfold process_votes in E. ok_inv E. subst.
  match goal with H1 : HexifyAddressBytes _ = Ok ?a, H2 : AccAddressFromHex ?a = Ok ?b |- _ => exists a, b; destruct (Hpays b) as (bank & Hb & ->) end.
  { by rewrite deliver_txs_proposer. }
  eexists _, bank. split_and!; [done..|]. cbn zeta. split_and!; try done; [by rewrite deliver_txs_proposer|].
  cbn. by rewrite run_proposals_proposer.
Qed.
End fees.

Module BlockDemo.
Export PreBlockDemo.
#[export] Existing Instance AppDemo.receipts.
#[export] Existing Instance AppDemo.stake_events.
#[export] Existing Instance AppDemo.clerk_events.
#[export] Existing Instance AppDemo.topup_events.
#[export] Existing Instance AppDemo.no_bor.
#[export] Existing Instance CheckpointDemo.demo_merkle.
#[export] Instance hex_addresses : HexAddresses := {| IsHexAddress s := String.prefix "0x" s |}.
#[export] Existing Instance CheckpointDemo.demo_root_chain.
#[export] Instance sdk_modules : SdkModules TopupDemo.DemoBank := {|
  sdk_ante b raw := Ok (TopupDemo.add_balance b "fee_collector" 1); sdk_msg b raw := Ok b;
  collector_balance b := TopupDemo.balance_of b "fee_collector"; gov_deposits b := b |}.
Definition genesis : AppState TopupDemo.DemoBank :=
  with_stake before
    {| validators := list_to_map (map (fun v => (vaddr v, v)) (Validators VoteDemo.demo_set)); signer := ∅; sequences := ∅;
       validatorSet := Some VoteDemo.demo_set; previousSet := Some VoteDemo.demo_set; penultimateSet := Some VoteDemo.demo_set;
       lastBlockTxs := Some [topup_tx; [Byte.x01]; again_tx] |} (app_bank before).
Definition at_99 : Ctx := {| BlockHeight := 99; BlockTime := 4000 |}.
Definition block_100 : outcome (list (Z * bytes) * AppState TopupDemo.DemoBank) :=
  finalize_block (fun _ => 0) VoteDemo.demo_config "gov" Some migration (fun _ => elements) VoteDemo.demo_ctx VoteDemo.demo_chain
    (AppDemo.env 0) genesis block [topup_tx; [Byte.x01]] [].

Lemma empty_chain (P : Checkpoint -> Prop) : chain_ok P (app_checkpoint genesis).
Proof.
  split; try done; intros i; cbn; try (intros c; by rewrite lookup_empty).
  split; [rewrite lookup_empty; by intros [? ?]|]. unfold GetAckCount. cbn. lia.
Qed.
Lemma genesis_spans : span_chain (app_bor genesis) 0.
Proof.
  split; [done| |].
  - intros i Hi. assert (i = 0%nat) as -> by lia. exists first_span. by split.
  - intros i. change (is_Some (({[0 := first_span]} : gmap Z Span) !! i) -> 0 <= i <= 0). destruct (decide (i = 0)) as [->|Hi]; [done|].
    rewrite lookup_singleton_ne by done. by intros [? ?].
Qed.
Lemma genesis_ok : state_ok [genesis] 0 genesis.
Proof.
  assert (span_chain (app_bor genesis) 0) as Hspan by exact genesis_spans. split.
  - split; cbn; [|lia|done|done]. intros n. rewrite lookup_empty. split; [by intros [? ?]|lia].
  - split; [|by split; intros vs [= <-]; exact VoteDemo.vote_set_wf]. exists VoteDemo.demo_set. split.
    + split; [|by intros i a]. apply (bool_decide_unpack (map_Forall (fun a v => vaddr v = a) _)). vm_compute. exact I.
    + done.
    + exact VoteDemo.vote_set_wf.
    + intros v Hv. revert v Hv. apply Forall_forall. repeat constructor; vm_compute; eauto.
  - exists 0%nat. split; [exact Hspan|]. vm_compute. discriminate.
  - split; [apply empty_chain|]. vm_compute. discriminate.
  - by intros k da.
  - split; intros s0 ->%list_elem_of_singleton; [split; [apply empty_chain|lia]|by exists 0%nat, 0%nat].
Qed.
Lemma genesis_honest : honest VoteDemo.demo_config [genesis] genesis block.
Proof.
  intros lastTxs tx msgs m [= <-] Htx _ Hd Hm Hs. exists VoteDemo.demo_ctx, (AppDemo.env 0), genesis. split; [apply list_elem_of_here|].
  assert (m = ATopup AppDemo.topup_msg) as ->; [|vm_compute; reflexivity].
  repeat (apply elem_of_cons in Htx as [->|Htx]); [..|by apply elem_of_nil in Htx]; vm_compute in Hd; injection Hd as <-;
    repeat (apply elem_of_cons in Hm as [->|Hm]); try done; by apply elem_of_nil in Hm.
Qed.
Lemma genesis_roomy : roomy genesis.
Proof. intros l n [= <-] [= <-]. vm_compute. by split. Qed.

Lemma reachable_states_are_sound_witness : exists ups s', block_100 = Ok (ups, s') /\
  milestones_ok (app_milestone s') /\ sets_ok (app_stake s') /\ accounts_ok (app_topup s').
Proof.
  destruct block_100 as [[ups s']|e|] eqn:E; [|vm_compute in E; discriminate E..]. exists ups, s'. split; [reflexivity|].
  destruct (reachable_states_are_sound (fun _ => 0) VoteDemo.demo_config "gov" (@Some bytes) migration [genesis] at_99 genesis [s'; genesis]
    VoteDemo.demo_ctx s') as (H1 & H2 & _ & _ & H3 & _).
  - exact codec.
  - split; cbn; lia.
  - exact genesis_ok.
  - split; try done; intros; by rewrite ?lookup_empty in *.
  - eapply chain_block with (req := block); [apply chain_start| |reflexivity|discriminate|exact genesis_roomy|exact genesis_honest|exact E].
    split; [reflexivity|cbn; lia|split; cbn; lia].
  - split; [exact H1|split; [exact H2|exact H3]].
Defined.

Lemma block_pays_its_proposer_witness : exists ups s', block_100 = Ok (ups, s') /\ app_block_proposer s' = None /\
  TopupDemo.balance_of (app_bank s') "a" = 2.
Proof.
  destruct block_100 as [[ups s']|e|] eqn:E; [|vm_compute in E; discriminate E..]. exists ups, s'. split; [reflexivity|].
  destruct (block_pays_its_proposer (fun _ => 0) VoteDemo.demo_config "gov" (@Some bytes) migration (fun _ => elements) VoteDemo.demo_ctx
    VoteDemo.demo_chain (AppDemo.env 0) genesis block [topup_tx; [Byte.x01]] [] ups s') as (addr & account & s1 & bank & _ & _ & _ & _ & _ & _ & _ & _ & H).
  - reflexivity.
  - exact E.
  - split; [exact H|]. vm_compute in E. injection E as _ <-. vm_compute. reflexivity.
Defined.

Lemma main_chain_events_applied_once_witness : exists ups s' log, block_100 = Ok (ups, s') /\
  blocks (fun _ => 0) VoteDemo.demo_config "gov" (@Some bytes) (fun _ => True) genesis [log] s' /\
  TopupEvent (sequence_of AppDemo.topup_msg) ∈ main_events log /\ NoDup (main_events log).
Proof.
  destruct block_100 as [[ups s']|e|] eqn:E; [|vm_compute in E; discriminate E..].
  destruct (main_chain_events_applied_once (fun _ => 0) VoteDemo.demo_config "gov" (@Some bytes) genesis [] genesis (blocks_start _ _ _ _ _ _))
    as (_ & _ & _ & Hext).
  destruct (Hext _ _ _ _ _ _ _ _ _ _ E) as (log & _ & HR). exists ups, s', log. split; [reflexivity|]. split; [exact HR|].
  destruct (main_chain_events_applied_once (fun _ => 0) VoteDemo.demo_config "gov" (@Some bytes) genesis [log] s' HR) as (ND & _ & Hrec & _).
  cbn [concat app] in ND, Hrec. rewrite app_nil_r in ND, Hrec. split; [|exact ND].
  assert (recorded s' (TopupEvent (sequence_of AppDemo.topup_msg))) as Hr.
  { change (sequence_of AppDemo.topup_msg ∈ topup_sequences (app_topup s')). clear HR ND Hrec Hext.
    vm_compute in E. injection E as _ <-. apply (bool_decide_unpack _). vm_compute. exact I. }
  apply Hrec in Hr as [Hr|Hr]; [|exact Hr]. exfalso. exact (proj1 (elem_of_empty (C := gset string) _) Hr).
Defined.
End BlockDemo.

(** A restake of a validator that left, approved: it changes the nonce, not the power. *)
Module ExitDemo.
Export BlockDemo.
Definition late_restake : MsgStakeUpdate :=
  {| su_From := "0x1"; su_ValId := 9; su_NewAmount := 8 * 10 ^ 18; su_TxHash := repeat Byte.x01 32;
     su_LogIndex := 4; su_BlockNumber := 102; su_Nonce := 3 |}.
#[export] Instance restake_transactions : TxLibrary := {|
  TxDecode tx := if decide (tx = topup_tx) then Some [AStake (MStakeUpdate late_restake)] else Some [AOther];
  tx_hash := hash_of; proto_size tx := Z.of_nat (length tx); marshal_commit _ := None;
  unmarshal_commit bz := if decide (bz = [Byte.xff]) then Some (VoteDemo.kept_votes, 0) else None |}.
Definition gone : Validator := NewValidator 9 0 5 2 0 [] "0xdd".
Definition with_gone : AppState TopupDemo.DemoBank := with_stake genesis (AddValidator (app_stake genesis) gone) (app_bank genesis).
Definition block_after : outcome (list (Z * bytes) * AppState TopupDemo.DemoBank) :=
  finalize_block (fun _ => 0) VoteDemo.demo_config "gov" Some migration (fun _ => elements) VoteDemo.demo_ctx VoteDemo.demo_chain
    (AppDemo.env 0) with_gone block [] [].

Lemma gone_after : match block_after with
  | Ok (_, s') => option_map (fun v => (Nonce v, EndEpoch v)) (validators (app_stake s') !! "0xdd"%string)
  | _ => None
  end = Some (3, 5).
Proof. vm_compute. reflexivity. Qed.
Lemma none_left_with_power id : ~ left_with_power (app_stake with_gone) id.
Proof.
  assert (map_Forall (fun _ v => EndEpoch v = 0 \/ VotingPower v = 0) (validators (app_stake with_gone))) as H
    by (apply (bool_decide_unpack _); vm_compute; exact I).
  intros (a & v & Hv & _ & He & Hp). by destruct (H a v Hv).
Qed.

Lemma exited_validators_stay_powerless_witness : exists ups s' v, block_after = Ok (ups, s') /\
  validators (app_stake s') !! "0xdd"%string = Some v /\ Nonce v = 3 /\ VotingPower v = 0.
Proof.
  pose proof gone_after as G. destruct block_after as [[ups s']|e|] eqn:E; [|discriminate G..].
  destruct (validators (app_stake s') !! "0xdd"%string) as [v|] eqn:Ev; [|discriminate G]. cbn in G. injection G as Gn Ge.
  exists ups, s', v. split; [reflexivity|]. split; [exact Ev|]. split; [exact Gn|].
  destruct (block_records (fun _ => 0) VoteDemo.demo_config "gov" (@Some bytes) _ _ _ _ _ _ _ _ _ _ _ E) as (log & HX & _).
  destruct (exited_validators_stay_powerless (fun _ => 0) VoteDemo.demo_config "gov" (@Some bytes) with_gone [log] s') as [H _].
  - exact (blocks_block _ _ _ _ _ _ [] with_gone _ _ _ _ _ _ _ _ _ _ _ (blocks_start _ _ _ _ _ _) eq_refl E HX).
  - destruct (H _ _ Ev) as [Hp|Hl]; [rewrite Ge; discriminate|exact Hp|]. exfalso. exact (none_left_with_power _ Hl).
Defined.
End ExitDemo.
