(* ===== verification/Genesis.v ===== *)
(** * Genesis

    The state a chain starts from and the state a node exports: [InitGenesis],
    [ExportGenesis] and [Validate] of the stake, checkpoint, milestone and bor modules
    (those of clerk, topup and chainmanager are with their keepers), the start of the
    chain ([InitChainer] of [app/app.go]) and the export ([app/export.go],
    [x/stake/genesis.go]).  JSON is the codec's; the modules of the SDK, and Go's unstable
    [sort.Slice] by time, are parameters. *)
From S2P Require Import Prelude SortedList Helpers External VoteTypes ValidatorSet StakeKeeper StakeHandlers Milestone MilestoneVotes VoteExt Numerals Dividend Topup Clerk Checkpoint CheckpointHandlers NonRp BorTypes Selection BorKeeper BorHandlers Rotation ChainManager App PreBlock Failover Block.
#[local] Open Scope Z_scope.

(** An error is a panic. *)
Definition or_panic {A} (o : outcome A) : outcome A := match o with Err _ => Panic | o => o end.

(** ** Stake *)

Record StakeGenesis := {
  sg_Validators : list Validator; sg_CurrentValidatorSet : ValidatorSet; sg_StakingSequences : list string;
  sg_PreviousBlockValidatorSet : ValidatorSet; sg_LastBlockTxs : list bytes; sg_PenultimateBlockValidatorSet : ValidatorSet;
}.
Definition Validate_stake (pub_key_address : bytes -> string) (data : StakeGenesis) : outcome unit :=
  return_if existsb (fun v => negb (is_ok (ValidateBasic pub_key_address v))) (sg_Validators data)
    with ErrText "invalid validator" ;;
  return_if existsb (fun sq => String.eqb sq "") (sg_StakingSequences data) with ErrText "invalid sequence" ;;
  Ok tt.

(** The loop of [InitGenesis]: the set is stored again for each validator. *)
Fixpoint add_genesis_validators (fresh : bool) (resultValSet : ValidatorSet) (s : StakeState) (l : list Validator)
    : outcome StakeState :=
  match l with
  | [] => Ok s
  | validator :: rest =>
      let s := UpdateValidatorSetInStore (AddValidator s validator) resultValSet in
      s ← (if fresh then IncrementAccum s 1 else Ok s);
      add_genesis_validators fresh resultValSet s rest
  end.
Section stake.
Context {PK : Type} (cmt_pub_key : bytes -> option PK).

Fixpoint comet_updates (l : list Validator) : outcome (list (Z * PK)) :=
  match l with
  | [] => Ok []
  | v :: rest =>
      cmtPk ← of_option (ErrText "public key") (cmt_pub_key (PubKey v));
      rest ← comet_updates rest;
      Ok ((VotingPower v, cmtPk) :: rest)
  end.
Definition InitGenesis_stake (s : StakeState) (data : StakeGenesis) : outcome (list (Z * PK) * StakeState) :=
  let current := Validators (sg_CurrentValidatorSet data) in
  let vals := match current with [] => sg_Validators data | _ => current end in
  s ← (match vals with
       | [] => Ok s
       | _ =>
           resultValSet ← NewValidatorSet vals;
           let s := UpdatePreviousBlockValidatorSetInStore s resultValSet in
           or_panic (add_genesis_validators (length current =? 0)%nat resultValSet s (Validators resultValSet))
       end);
  let s := fold_left SetStakingSequence (sg_StakingSequences data) s in
  let s := SetLastBlockTxs s (sg_LastBlockTxs data) in   (* none given: an empty list *)
  cometVals ← or_panic (comet_updates (GetAllValidators s));
  Ok (cometVals, s).
(** Nothing is exported when something is missing. *)
Definition ExportGenesis_stake (s : StakeState) : option StakeGenesis :=
  match GetValidatorSet s, GetPreviousBlockValidatorSet s, GetLastBlockTxs s, GetPenultimateBlockValidatorSet s with
  | Ok validatorSet, Ok previousValidatorSet, Ok lastBlockTxs, Ok penultimateValidatorSet =>
      Some {| sg_Validators := GetAllValidators s; sg_CurrentValidatorSet := validatorSet;
              sg_StakingSequences := GetStakingSequences s; sg_PreviousBlockValidatorSet := previousValidatorSet;
              sg_LastBlockTxs := lastBlockTxs; sg_PenultimateBlockValidatorSet := penultimateValidatorSet |}
  | _, _, _, _ => None
  end.
(** [WriteValidators]: the validators of the genesis file, with the keys the SDK makes. *)
Fixpoint write_validators {GV : Type} (genesis_validator : bytes -> Z -> string -> option GV) (l : list Validator)
    : list GV * outcome unit :=
  match l with
  | [] => ([], Ok tt)
  | v :: rest =>
      match genesis_validator (PubKey v) (VotingPower v) (Signer v) with
      | None => ([], Err (ErrText "invalid public key"))
      | Some val => let '(vals, returnErr) := write_validators genesis_validator rest in (val :: vals, returnErr)
      end
  end.
End stake.

(** ** Checkpoint and milestone *)

Section times.
Context {AC : AddressCodec} (VerifyAddressFormat : bytes -> bool).
Context (sort_slice : forall A : Type, (A -> Z) -> list A -> list A).

Record CheckpointGenesis := {
  cg_Params : CheckpointParams; cg_BufferedCheckpoint : option Checkpoint; cg_LastNoAck : Z; cg_AckCount : Z;
  cg_Checkpoints : list Checkpoint; cg_CheckpointSignatures : list CheckpointSignature; cg_CheckpointSignaturesTxhash : string;
}.
Definition SortCheckpoints (l : list Checkpoint) : list Checkpoint := sort_slice _ cp_Timestamp l.
Definition checkpoint_block (c : Checkpoint) : MsgCheckpoint :=
  {| mc_Proposer := cp_Proposer c; mc_StartBlock := cp_StartBlock c; mc_EndBlock := cp_EndBlock c;
     mc_RootHash := cp_RootHash c; mc_AccountRootHash := []; mc_BorChainId := cp_BorChainId c |}.
Fixpoint valid_checkpoints (i : Z) (l : list Checkpoint) : outcome unit :=
  match l with
  | [] => Ok tt
  | checkpoint :: rest =>
      ValidateBasic_Checkpoint (checkpoint_block checkpoint) ≫= fun _ =>
      return_if negb (cp_Id checkpoint =? u64 (i + 1)) with ErrText "checkpoint id mismatch" ;;
      valid_checkpoints (i + 1) rest
  end.
Definition signature_ok (s : CheckpointSignature) : bool :=
  VerifyAddressFormat (sig_ValidatorAddress s) && negb (length (sig_Signature s) =? 0)%nat.
Definition Validate_checkpoint (gs : CheckpointGenesis) : outcome unit :=
  ValidateBasic_CheckpointParams (cg_Params gs) ≫= fun _ =>
  (if (length (cg_Checkpoints gs) =? 0)%nat then Ok tt
   else
     return_if negb (i64 (cg_AckCount gs) =? Z.of_nat (length (cg_Checkpoints gs))) with ErrText "incorrect state" ;;
     valid_checkpoints 0 (cg_Checkpoints gs)) ≫= fun _ =>
  return_if negb (forallb signature_ok (cg_CheckpointSignatures gs)) with ErrText "checkpoint signature" ;;
  return_if negb (String.eqb (cg_CheckpointSignaturesTxhash gs) "") with ErrText "checkpoint signatures tx hash is not valid" ;;
  Ok tt.

(** The checkpoints are numbered in the order of their times; one that exists is logged. *)
Fixpoint load_checkpoints (i : Z) (s : CheckpointState) (l : list Checkpoint) : outcome CheckpointState :=
  match l with
  | [] => Ok s
  | checkpoint :: rest =>
      or_panic (ValidateBasic_Checkpoint (checkpoint_block checkpoint)) ≫= fun _ =>
      let s := match AddCheckpoint s (with_cp_id checkpoint (u64 (i + 1))) with Ok s' => s' | _ => s end in
      load_checkpoints (i + 1) s rest
  end.
Definition InitGenesis_checkpoint (s : CheckpointState) (data : CheckpointGenesis) : outcome CheckpointState :=
  let s := SetCheckpointParams s (cg_Params data) in
  let s := if 0 <? cg_LastNoAck data then SetLastNoAck s (cg_LastNoAck data) else s in
  s ← (if (length (cg_Checkpoints data) =? 0)%nat then Ok s
       else
         panic_when negb (i64 (cg_AckCount data) =? Z.of_nat (length (cg_Checkpoints data))) ;;
         load_checkpoints 0 s (SortCheckpoints (cg_Checkpoints data)));
  let s := match cg_BufferedCheckpoint data with
           | Some c => match SetCheckpointBuffer s c with Ok s' => s' | _ => s end
           | None => s
           end in
  let s := UpdateAckCountWithValue s (cg_AckCount data) in
  panic_when negb (forallb signature_ok (cg_CheckpointSignatures data)) ;;
  let s := SetCheckpointSignatures s (cg_CheckpointSignatures data) in
  Ok (SetCheckpointSignaturesTxHash s (cg_CheckpointSignaturesTxhash data)).
(** The buffer is exported also when it is empty, as a checkpoint of zeros. *)
Definition ExportGenesis_checkpoint (s : CheckpointState) : option CheckpointGenesis :=
  match GetCheckpointParams s, GetCheckpointSignatures s, GetCheckpointSignaturesTxHash s with
  | Ok params, Ok checkpointSignatures, Ok checkpointSignaturesTxHash =>
      Some {| cg_Params := params; cg_BufferedCheckpoint := Some (GetCheckpointFromBuffer s);
              cg_LastNoAck := GetLastNoAck s; cg_AckCount := GetAckCount s;
              cg_Checkpoints := SortCheckpoints (GetCheckpoints s); cg_CheckpointSignatures := checkpointSignatures;
              cg_CheckpointSignaturesTxhash := checkpointSignaturesTxHash |}
  | _, _, _ => None
  end.

Record MilestoneGenesis := { mg_Params : MilestoneParams; mg_Milestones : list MilestoneRecord }.
Definition zero_milestone_params : MilestoneParams :=
  {| MaxMilestonePropositionLength := 0; FfMilestoneThreshold := 0; FfMilestoneBlockInterval := 0 |}.
Definition SortMilestones (l : list MilestoneRecord) : list MilestoneRecord := sort_slice _ mi_Timestamp l.
Definition Validate_milestone (gs : MilestoneGenesis) : outcome unit := ValidateBasic_MilestoneParams (mg_Params gs).
Definition InitGenesis_milestone (s : MilestoneState) (data : MilestoneGenesis) : outcome MilestoneState :=
  s ← or_panic (SetMilestoneParams s (mg_Params data));
  Ok (fold_left AddMilestone (SortMilestones (mg_Milestones data)) s).
Definition ExportGenesis_milestone (s : MilestoneState) : MilestoneGenesis :=
  {| mg_Params := match GetMilestoneParams s with Ok p => p | _ => zero_milestone_params end;
     mg_Milestones := GetMilestones s |}.
End times.

(** ** Bor *)

Record BorGenesis := { bg_Params : BorParams; bg_Spans : list Span }.
Definition Validate_bor (gs : BorGenesis) : outcome unit := ValidateBasic_BorParams (bg_Params gs).
Definition InitGenesis_bor (s : BorState) (data : BorGenesis) : BorState :=
  let s := SetParams s (bg_Params data) in
  let sorted := SortSpansById (bg_Spans data) in
  let s := fold_left AddNewRawSpan sorted s in
  match last sorted with Some span => UpdateLastSpan s (span_Id span) | None => s end.
Definition ExportGenesis_bor (s : BorState) : outcome BorGenesis :=
  params ← or_panic (FetchParams s);
  Ok {| bg_Params := params; bg_Spans := SortSpansById (GetAllSpans s) |}.

(** The first span of a new chain: the first producers of the set. *)
Definition genFirstSpan (valSet : ValidatorSet) (chainId : string) : list Span :=
  let vals := Validators valSet in
  let selectedProducers := if DefaultProducerCount <? Z.of_nat (length vals) then take (Z.to_nat DefaultProducerCount) vals else vals in
  [{| span_Id := 0; span_StartBlock := 0; span_EndBlock := DefaultFirstSpanDuration - 1; span_ValidatorSet := valSet;
      SelectedProducers := selectedProducers; span_BorChainId := chainId |}].

(** ** The application

    [G] is the genesis of the modules of the SDK. *)
Class GenesisModules (B G : Type) := {
  sdk_ValidateGenesis : G -> bool;
  sdk_InitGenesis : G -> outcome B;
  sdk_ExportGenesis : B -> G;
}.
Record GenesisState (G : Type) := {
  gen_sdk : G; gen_chainmanager : CMParams; gen_stake : StakeGenesis; gen_checkpoint : CheckpointGenesis;
  gen_milestone : MilestoneGenesis; gen_bor : BorGenesis; gen_clerk : ClerkGenesis; gen_topup : TopupGenesis;
}.
Arguments gen_sdk {G}. Arguments gen_chainmanager {G}. Arguments gen_stake {G}. Arguments gen_checkpoint {G}.
Arguments gen_milestone {G}. Arguments gen_bor {G}. Arguments gen_clerk {G}. Arguments gen_topup {G}.

(** The stores before genesis. *)
Definition empty_stake : StakeState :=
  {| validators := ∅; signer := ∅; sequences := ∅; validatorSet := None; previousSet := None; penultimateSet := None;
     lastBlockTxs := None |}.
Definition empty_checkpoint : CheckpointState :=
  {| checkpoints := ∅; bufferedCheckpoint := None; checkpoint_params := None; lastNoAck := None; ackCount := None;
     checkpointSignatures := None; checkpointSignaturesTxHash := None |}.
Definition empty_milestone : MilestoneState :=
  {| milestone := ∅; milestone_params := None; milestone_count := None; lastMilestoneBlock := None;
     lastPendingBorBlock := None; lastPendingBorBlockId := None; lastPendingBorBlockHeight := None |}.
Definition empty_bor : BorState :=
  {| spans := ∅; latestSpan := None; seedLastProducer := ∅; bor_Params := None; ProducerVotes := ∅; PerformanceScore := ∅;
     LatestActiveProducer := ∅; LatestFailedProducer := ∅; LastSpanBlock := None; ProducerPlannedDowntime := ∅ |}.
Definition empty_topup : TopupState := {| topup_sequences := ∅; dividendAccounts := ∅ |}.

Definition with_chain_id (p : CMParams) (chainId : string) : CMParams :=
  let c := ChainParams_of p in
  {| ChainParams_of :=
       {| cn_BorChainId := cn_BorChainId c; HeimdallChainId := chainId; PolTokenAddress := PolTokenAddress c;
          StakingManagerAddress := StakingManagerAddress c; SlashManagerAddress := SlashManagerAddress c;
          cn_RootChainAddress := cn_RootChainAddress c; cn_StakingInfoAddress := cn_StakingInfoAddress c;
          cn_StateSenderAddress := cn_StateSenderAddress c; StateReceiverAddress := StateReceiverAddress c;
          ValidatorSetAddress := ValidatorSetAddress c |};
     cm_MainChainTxConfirmations := cm_MainChainTxConfirmations p; cm_BorChainTxConfirmations := cm_BorChainTxConfirmations p |}.

Section application.
Context {AC : AddressCodec} {B G : Type} {GM : GenesisModules B G} {PK : Type}.
Context (pub_key_address : bytes -> string) (VerifyAddressFormat : bytes -> bool) (cmt_pub_key : bytes -> option PK).
Context (sort_slice : forall A : Type, (A -> Z) -> list A -> list A) (cfg : Config).
Implicit Types s : AppState B.

Definition ValidateGenesis (g : GenesisState G) : outcome unit :=
  return_if negb (sdk_ValidateGenesis (gen_sdk g)) with ErrText "genesis of the SDK" ;;
  Validate_stake pub_key_address (gen_stake g) ≫= fun _ =>
  Validate_checkpoint VerifyAddressFormat (gen_checkpoint g) ≫= fun _ =>
  Validate_milestone (gen_milestone g) ≫= fun _ =>
  Validate_bor (gen_bor g) ≫= fun _ =>
  Validate (gen_clerk g) ≫= fun _ =>
  Validate_topup (gen_topup g).

(** The modules in their order; the parameters of chainmanager with all their fields
    are kept beside the state. *)
Definition init_modules (chainId : string) (g : GenesisState G) : outcome (list (Z * PK) * CMParams * AppState B) :=
  bank ← sdk_InitGenesis (gen_sdk g);
  let params := with_chain_id (gen_chainmanager g) chainId in
  '(cometVals, ss) ← InitGenesis_stake cmt_pub_key empty_stake (gen_stake g);
  cs ← InitGenesis_checkpoint VerifyAddressFormat sort_slice empty_checkpoint (gen_checkpoint g);
  ms ← InitGenesis_milestone sort_slice empty_milestone (gen_milestone g);
  Ok (cometVals, params,
      {| app_milestone := ms; app_bor := InitGenesis_bor empty_bor (gen_bor g); app_stake := ss; app_checkpoint := cs;
         app_clerk := InitGenesis empty_clerk (gen_clerk g); app_topup := InitGenesis_topup empty_topup (gen_topup g);
         app_bank := bank; app_chain_params := Some (used params); app_block_proposer := None |}).
(** The answer: the listed validators that are current. *)
Definition InitChainer (ctx : Ctx) (c : CustomConfig) (own : bytes) (producerVotes : list Z) (chainId : string)
    (g : GenesisState G) : outcome (list (Z * PK) * CMParams * AppState B) :=
  or_panic (ValidateGenesis g) ≫= fun _ =>
  '(_, params, s) ← init_modules chainId g;
  enforceBorFailoverBPGuard cfg ctx c own producerVotes s ≫= fun _ =>
  let current := List.filter (fun v => IsCurrentValidator v (cg_AckCount (gen_checkpoint g))) (sg_Validators (gen_stake g)) in
  valUpdates ← or_panic (comet_updates cmt_pub_key current);
  Ok (valUpdates, params, s).

(** What the modules export; [None] stands for the null that stake and checkpoint leave. *)
Definition export_modules (params : CMParams) s : outcome (option (GenesisState G)) :=
  bor ← ExportGenesis_bor (app_bor s);
  Ok (match ExportGenesis_stake (app_stake s), ExportGenesis_checkpoint sort_slice (app_checkpoint s) with
      | Some stake, Some checkpoint =>
          Some {| gen_sdk := sdk_ExportGenesis (app_bank s); gen_chainmanager := params; gen_stake := stake;
                  gen_checkpoint := checkpoint; gen_milestone := ExportGenesis_milestone (app_milestone s); gen_bor := bor;
                  gen_clerk := ExportGenesis (app_clerk s); gen_topup := ExportGenesis_topup (app_topup s) |}
      | _, _ => None
      end).
Definition ExportAppStateAndValidators {GV : Type} (genesis_validator : bytes -> Z -> string -> option GV) (lastBlockHeight : Z)
    (params : CMParams) s : outcome (option (GenesisState G) * Z * (list GV * outcome unit)) :=
  let height := i64 (lastBlockHeight + 1) in
  genState ← export_modules params s;
  Ok (genState, height, write_validators genesis_validator (GetAllValidators (app_stake s))).
End application.
