(* ===== verification/GenesisCorrect.v ===== *)
(** * Restarting a chain from its export

    What of the state it was exported from a genesis initialises, and what it forgets:
    module by module, and then for the application, whose new state is as sound as the old
    one. *)
From S2P Require Import Prelude SortedList Helpers External ValidatorSet ValidatorSetFacts ValidatorSetCorrect VoteTypes StakeKeeper StakeHandlers StakeCorrect Milestone MilestoneVotes MilestoneCollect MilestoneCorrect MilestoneFinality VoteExt VoteExtCorrect Numerals Dividend Topup TopupCorrect Clerk ClerkCorrect Checkpoint CheckpointHandlers CheckpointCorrect NonRp BorTypes Selection BorKeeper BorHandlers StakePromise BorCorrect Rotation ChainManager App AppDemo PreBlock PreBlockCorrect Failover Block BlockCorrect Genesis.
#[local] Open Scope Z_scope.

(** ** Rebuilding a store *)

Section rebuild.
Context {K V : Type} `{Countable K} {KO : KeyOrder K}.

(** A component of a state that every step of a fold writes at a key. *)
Lemma fold_reads {S X} (f : S -> X -> S) (get : S -> gmap K V) (k : X -> K) (v : X -> V) :
  (forall s x, get (f s x) = <[k x := v x]> (get s)) ->
  forall l s, get (fold_left f l s) = fold_left (fun m x => <[k x := v x]> m) l (get s).
Proof. intros Hf. induction l as [|x l IH]; intros s; [done|]. cbn [fold_left]. by rewrite IH, Hf. Qed.
Lemma fold_keeps {S X A} (f : S -> X -> S) (get : S -> A) : (forall s x, get (f s x) = get s) ->
  forall l s, get (fold_left f l s) = get s.
Proof. intros Hf. induction l as [|x l IH]; intros s; [done|]. cbn [fold_left]. by rewrite IH, Hf. Qed.

Lemma rebuild {X} (k : X -> K) (v : X -> V) (m : gmap K V) l : map (fun x => (k x, v x)) l ≡ₚ map_to_list m ->
  fold_left (fun m x => <[k x := v x]> m) l ∅ = m.
Proof.
  intros Hp. assert (NoDup (map k l)) as ND.
  { replace (map k l) with (map fst (map (fun x => (k x, v x)) l)) by (rewrite map_map; done).
    assert (NoDup (map fst (map_to_list m))) as Hm by apply NoDup_fst_map_to_list.
    by rewrite (Permutation_map fst Hp). }
  rewrite fold_insert_map by done. rewrite map_union_empty. rewrite <- (list_to_map_to_list m). apply list_to_map_proper; [|done].
  change (NoDup (map fst (map (fun x => (k x, v x)) l))). by rewrite map_map.
Qed.
(** The values of the store, in any order, when they know their key. *)
Lemma rebuild_values (k : V -> K) (v : V -> V) (m : gmap K V) l :
  (forall i a, m !! i = Some a -> k a = i /\ v a = a) -> l ≡ₚ map snd (entries m) ->
  fold_left (fun m x => <[k x := v x]> m) l ∅ = m.
Proof.
  intros Hm Hl. apply rebuild. rewrite Hl, map_map. rewrite <- (entries_perm m). apply Permutation_refl'.
  etransitivity; [|apply map_id]. apply map_ext_in. intros [i a] Hin%list_elem_of_In%elem_of_entries.
  destruct (Hm _ _ Hin) as [E1 E2]. cbn. by rewrite E1, E2.
Qed.
Lemma rebuild_entries (m : gmap K V) l : l ≡ₚ entries m -> fold_left (fun m e => <[e.1 := e.2]> m) l ∅ = m.
Proof. intros Hl. apply rebuild. rewrite <- (entries_perm m), <- Hl. apply Permutation_refl'.
  etransitivity; [|apply map_id]. apply map_ext. by intros [].
Qed.
End rebuild.

Lemma fold_adds {S X} `{Countable X} (f : S -> X -> S) (get : S -> gset X) :
  (forall s x, get (f s x) = {[x]} ∪ get s) -> forall l s, get (fold_left f l s) = list_to_set l ∪ get s.
Proof.
  intros Hf. induction l as [|x l IH]; intros s; cbn [fold_left list_to_set]; [set_solver|]. rewrite IH, Hf. cbn. set_solver.
Qed.
Lemma rebuild_set {X} `{Countable X} {KO : KeyOrder X} (m : gset X) : list_to_set (sort_by id (elements m)) = m.
Proof. apply set_eq. intros x. rewrite elem_of_list_to_set, (sort_by_perm id), elem_of_elements. done. Qed.

(** ** Topup, bor *)

Lemma topup_restarts s : accounts_ok s -> InitGenesis_topup empty_topup (ExportGenesis_topup s) = s.
Proof.
  intros Ha. unfold InitGenesis_topup, ExportGenesis_topup. cbn [TopupSequences DividendAccounts].
  set (s1 := fold_left SetTopupSequence _ _). set (s2 := fold_left SetDividendAccount _ _).
  assert (topup_sequences s2 = topup_sequences s) as E1.
  { unfold s2. rewrite (fold_keeps SetDividendAccount topup_sequences) by done. unfold s1.
    rewrite (fold_adds SetTopupSequence topup_sequences) by done. unfold GetAllTopupSequences. rewrite rebuild_set. cbn. set_solver. }
  assert (dividendAccounts s2 = dividendAccounts s) as E2.
  { unfold s2. rewrite (fold_reads SetDividendAccount dividendAccounts (fun da => FormatAddress (User da))
      (fun da => {| User := FormatAddress (User da); FeeAmount := FeeAmount da |})) by done.
    unfold s1. rewrite (fold_keeps SetTopupSequence dividendAccounts) by done. apply rebuild_values; [|done].
    intros i a Hi. destruct (Ha _ _ Hi) as [Eu Ef]. rewrite Eu, Ef. split; [done|]. destruct a. cbn in *. by rewrite Eu. }
  destruct s2, s. cbn in *. by subst.
Qed.

Lemma bor_restarts s n : span_chain s n -> forall g, ExportGenesis_bor s = Ok g ->
  spans (InitGenesis_bor empty_bor g) = spans s /\ latestSpan (InitGenesis_bor empty_bor g) = latestSpan s /\
  bor_Params (InitGenesis_bor empty_bor g) = bor_Params s.
Proof.
  intros Hc g E. unfold ExportGenesis_bor in E. ok_step E. injection E as <-.
  assert (bor_Params s = Some a) as Hp by (unfold FetchParams in Ha; by destruct (bor_Params s); [injection Ha as ->|]).
  assert (forall i sp, spans s !! i = Some sp -> span_Id sp = i) as Hid.
  { intros i sp Hi. destruct (sc_above _ _ Hc i) as [H0 Hn]; [by eexists|]. destruct (sc_dense _ _ Hc (Z.to_nat i)) as (sp' & Hsp & E'); [lia|].
    rewrite Z2Nat.id in * by lia. congruence. }
  unfold InitGenesis_bor. cbn [bg_Params bg_Spans]. set (l := SortSpansById _).
  assert (l ≡ₚ map snd (entries (spans s))) as Hl.
  { unfold l, SortSpansById, GetAllSpans. by rewrite !(sort_by_perm span_Id). }
  set (s1 := fold_left AddNewRawSpan l _).
  assert (spans s1 = spans s) as E1.
  { unfold s1. rewrite (fold_reads AddNewRawSpan spans span_Id id) by done. apply rebuild_values; [|done]. intros i sp Hi. by rewrite (Hid _ _ Hi). }
  assert (bor_Params s1 = Some a) as E2 by (unfold s1; by rewrite (fold_keeps AddNewRawSpan bor_Params)).
  destruct (sc_dense _ _ Hc n ltac:(lia)) as (sp & Hsp & Esp).
  assert (sp ∈ l) as Hin.
  { rewrite Hl. apply list_elem_of_fmap. exists (Z.of_nat n, sp). split; [done|]. by apply elem_of_entries. }
  destruct (last l) as [sp'|] eqn:El; [|apply last_None in El; rewrite El in Hin; by apply elem_of_nil in Hin].
  cbn [spans latestSpan bor_Params UpdateLastSpan set_spans]. split; [exact E1|]. split; [|by rewrite E2, Hp].
  rewrite (sc_last _ _ Hc). f_equal.
  assert (sp' ∈ l) as Hin' by (apply last_Some in El as [l' ->]; set_solver).
  assert (span_Id sp' <= Z.of_nat n) as Hle.
  { rewrite Hl in Hin'. apply list_elem_of_fmap in Hin' as ([i x] & -> & Hi%elem_of_entries). cbn. rewrite (Hid _ _ Hi).
    apply (sc_above _ _ Hc). by eexists. }
  assert (span_Id sp <= span_Id sp') as Hge; [|lia].
  apply last_Some in El as [l' El].
  assert (StronglySorted (key_le span_Id) l) as HS' by apply sort_by_sorted. rewrite El in HS', Hin.
  apply elem_of_app in Hin as [Hin|Hin%list_elem_of_singleton]; [|by subst; lia].
  apply StronglySorted_app_1_elem_of with (x1 := sp) (x2 := sp') in HS'; [|done|set_solver].
  unfold key_le in HS'. cbn in HS'. apply Z.ltb_ge in HS'. lia.
Qed.

(** ** Consecutive numbers *)

Lemma sorted_weaken {A} (R R' : A -> A -> Prop) l : (forall x y, R x y -> R' x y) -> StronglySorted R l -> StronglySorted R' l.
Proof. intros HR HS. induction HS as [|x l HS IH HF]; constructor; [done|]. eapply Forall_impl; [exact HF|auto]. Qed.
Lemma dense_keys {V} (m : gmap Z V) n : (forall i, is_Some (m !! i) <-> 1 <= i <= n) -> 0 <= n -> map fst (entries m) = seqZ 1 n.
Proof.
  intros Hd Hn. assert (ssorted id (map fst (entries m))) as HS.
  { pose proof (entries_ssorted m) as HS. induction HS as [|[i a] l HS IH HF]; cbn [map]; [constructor|].
    constructor; [done|]. apply Forall_map. eapply Forall_impl; [exact HF|]. intros [j b]. done. }
  apply (ssorted_unique id); [done| |].
  - apply seqZ_sorted.
  - apply NoDup_Permutation; [rewrite <- map_id; by apply ssorted_NoDup|apply NoDup_seqZ|].
    intros i. rewrite elem_of_seqZ. assert (1 <= i < 1 + n <-> is_Some (m !! i)) as -> by (rewrite Hd; lia). split.
    + intros ([j a] & -> & Hj%elem_of_entries)%list_elem_of_fmap. by eexists.
    + intros [a Ha]. apply list_elem_of_fmap. exists (i, a). split; [done|]. by apply elem_of_entries.
Qed.

(** The sort of Go: some order of the elements, by the key. *)
Record slice_sort (sort_slice : forall A : Type, (A -> Z) -> list A -> list A) : Prop := {
  ss_perm A f l : sort_slice A f l ≡ₚ l;
  ss_sorted A f l : StronglySorted (fun x y => f x <= f y) (sort_slice A f l);
}.
Definition in_time_order {A} (time : A -> Z) (l : list A) : Prop := StronglySorted (fun x y => time x < time y) l.
Lemma sort_slice_id sort_slice A (f : A -> Z) l : slice_sort sort_slice -> in_time_order f l -> sort_slice A f l = l.
Proof.
  intros [HP HS] Hl. assert (ssorted f l) as Hl' by (eapply sorted_weaken; [|exact Hl]; intros x y; apply Z.ltb_lt).
  apply (ssorted_unique f); [|done|apply HP]. specialize (HP A f l). specialize (HS A f l).
  assert (NoDup (map f (sort_slice A f l))) as ND by (rewrite HP; by apply ssorted_NoDup). clear HP.
  induction HS as [|x k HS IH HF]; [constructor|]. cbn [map] in ND. apply NoDup_cons in ND as [Hx ND]. constructor; [by apply IH|].
  apply Forall_forall. intros y Hy. rewrite Forall_forall in HF. specialize (HF _ Hy). unfold key_lt. cbn. apply Z.ltb_lt.
  assert (f x <> f y); [|lia]. intros E. apply Hx. rewrite E. apply list_elem_of_fmap. by exists y.
Qed.

(** ** Milestones *)

Definition formatted_proposers (s : MilestoneState) : Prop :=
  forall i m, milestone s !! i = Some m -> FormatAddress (mi_Proposer m) = mi_Proposer m.

Lemma fold_AddMilestone es : forall s c, GetMilestoneCount s = c -> 0 <= c -> c + Z.of_nat (length es) <= MaxUint64 ->
  map fst es = seqZ (c + 1) (Z.of_nat (length es)) -> (forall e, e ∈ es -> FormatAddress (mi_Proposer e.2) = mi_Proposer e.2) ->
  let s' := fold_left AddMilestone (map snd es) s in
  milestone s' = fold_left (fun m e => <[e.1 := e.2]> m) es (milestone s) /\ GetMilestoneCount s' = c + Z.of_nat (length es) /\
  milestone_params s' = milestone_params s.
Proof.
  induction es as [|[i m] es IH]; intros s c Hc H0 Hmax Hk Hf; cbn [map fold_left length snd fst] in *.
  { split_and!; [done|lia|done]. }
  rewrite seqZ_cons in Hk by lia. injection Hk as -> Hk.
  assert (with_mi_proposer m (FormatAddress (mi_Proposer m)) = m) as Em.
  { pose proof (Hf (c + 1, m) ltac:(left)) as E. cbn in E. rewrite E. by destruct m. }
  assert (u64 (GetMilestoneCount s + 1) = c + 1) as Eu by (rewrite Hc; apply u64_id; unfold in_u64; lia).
  destruct (IH (AddMilestone s m) (c + 1)) as (E1 & E2 & E3).
  - unfold AddMilestone. rewrite Eu. done.
  - lia.
  - lia.
  - rewrite Hk. f_equal; lia.
  - intros e He. apply Hf. by right.
  - rewrite E1, E2, E3. unfold AddMilestone. cbn. rewrite Em, Eu. split_and!; [done|lia|done].
Qed.

Lemma milestones_restart sort_slice s g : slice_sort sort_slice -> milestones_ok s -> formatted_proposers s ->
  GetMilestoneCount s <= MaxUint64 -> in_time_order mi_Timestamp (GetMilestones s) -> g = ExportGenesis_milestone s ->
  Validate_milestone g = Ok tt ->
  exists s', InitGenesis_milestone sort_slice empty_milestone g = Ok s' /\ milestone s' = milestone s /\
    GetMilestoneCount s' = GetMilestoneCount s /\ (milestone_params s = Some (mg_Params g) -> milestone_params s' = milestone_params s).
Proof.
  intros Hsort [Hn H0 _ _] Hf Hmax Ht -> Hv. unfold InitGenesis_milestone, SetMilestoneParams. unfold Validate_milestone in Hv.
  rewrite Hv. cbn [mbind outcome_bind or_panic]. eexists. split; [done|]. cbn [mg_Milestones ExportGenesis_milestone].
  unfold SortMilestones. rewrite sort_slice_id by done.
  pose proof (dense_keys (milestone s) _ Hn H0) as Hk. fold (entries (milestone s)) in *.
  assert (Z.of_nat (length (entries (milestone s))) = GetMilestoneCount s) as Hlen.
  { rewrite <- (length_map fst), Hk, length_seqZ. lia. }
  unfold GetMilestones. fold (entries (milestone s)).
  destruct (fold_AddMilestone (entries (milestone s))
    {| milestone := milestone empty_milestone; milestone_params := Some (mg_Params (ExportGenesis_milestone s));
       milestone_count := milestone_count empty_milestone; lastMilestoneBlock := lastMilestoneBlock empty_milestone;
       lastPendingBorBlock := lastPendingBorBlock empty_milestone; lastPendingBorBlockId := lastPendingBorBlockId empty_milestone;
       lastPendingBorBlockHeight := lastPendingBorBlockHeight empty_milestone |} 0) as (E1 & E2 & E3).
  - done.
  - lia.
  - rewrite Hlen. lia.
  - by rewrite Hlen.
  - intros [i m] He%elem_of_entries. by eapply Hf.
  - split_and!; [|by rewrite E2, Hlen|by rewrite E3].
    rewrite E1. cbn [milestone empty_milestone]. by apply rebuild_entries.
Qed.

(** ** Checkpoints *)

Section checkpoints.
Context {AC : AddressCodec} (VerifyAddressFormat : bytes -> bool) (sort_slice : forall A : Type, (A -> Z) -> list A -> list A).

Lemma load_checkpoints_ok es : forall s i, 0 <= i -> i + Z.of_nat (length es) <= MaxUint64 ->
  map fst es = seqZ (i + 1) (Z.of_nat (length es)) ->
  (forall e, e ∈ es -> cp_Id e.2 = e.1 /\ FormatAddress (cp_Proposer e.2) = cp_Proposer e.2) ->
  valid_checkpoints i (map snd es) = Ok tt -> (forall j, i < j -> checkpoints s !! j = None) ->
  load_checkpoints i s (map snd es) =
    Ok (set_chain s (fold_left (fun m e => <[e.1 := e.2]> m) es (checkpoints s)) (bufferedCheckpoint s) (ackCount s)).
Proof.
  induction es as [|[k c] es IH]; intros s i H0 Hmax Hk He Hv Hnone; cbn [map fold_left load_checkpoints length snd fst] in *.
  { by destruct s. }
  rewrite seqZ_cons in Hk by lia. injection Hk as -> Hk. destruct (He (i + 1, c) ltac:(left)) as [Ei Ef]. cbn [fst snd] in Ei, Ef.
  assert (u64 (i + 1) = i + 1) as Eu by (apply u64_id; unfold in_u64; lia).
  cbn [valid_checkpoints] in Hv. ok_step Hv. ok_step Hv. rewrite Ha. cbn [mbind outcome_bind or_panic].
  assert (with_cp_id c (u64 (i + 1)) = c) as -> by (rewrite Eu, <- Ei; by destruct c).
  assert (with_cp_proposer c (FormatAddress (cp_Proposer c)) = c) as Ec by (rewrite Ef; by destruct c).
  unfold AddCheckpoint. rewrite Ei, Hnone by lia. rewrite bool_decide_false by (by intros [? ?]).
  cbn [fail_if]. rewrite Ec, Ei, IH; [done|lia|lia| | |done|].
  - rewrite Hk. f_equal; lia.
  - intros e Hin. apply He. by right.
  - intros j Hj. cbn. rewrite lookup_insert_ne by lia. apply Hnone. lia.
Qed.

Definition exportable_buffer (s : CheckpointState) : Prop :=
  forall b, bufferedCheckpoint s = Some b -> cp_Id b <> 0 /\ FormatAddress (cp_Proposer b) = cp_Proposer b.

Lemma checkpoints_restart P s g : slice_sort sort_slice -> chain_ok P s -> GetAckCount s <= MaxUint64 ->
  (forall i c, checkpoints s !! i = Some c -> FormatAddress (cp_Proposer c) = cp_Proposer c) ->
  exportable_buffer s -> in_time_order cp_Timestamp (GetCheckpoints s) ->
  ExportGenesis_checkpoint sort_slice s = Some g -> Validate_checkpoint VerifyAddressFormat g = Ok tt ->
  exists s', InitGenesis_checkpoint VerifyAddressFormat sort_slice empty_checkpoint g = Ok s' /\
    checkpoints s' = checkpoints s /\ GetAckCount s' = GetAckCount s /\ bufferedCheckpoint s' = bufferedCheckpoint s /\
    checkpoint_params s' = checkpoint_params s /\ checkpointSignatures s' = checkpointSignatures s.
Proof.
  intros Hsort HC Hmax Hf Hb Ht E Hv. unfold ExportGenesis_checkpoint in E.
  destruct (GetCheckpointParams s) as [p| |] eqn:Ep; [|done..]. destruct (GetCheckpointSignatures s) as [sigs| |] eqn:Es; [|done..].
  destruct (GetCheckpointSignaturesTxHash s) as [th| |]; [|done..]. injection E as <-.
  apply of_option_ok in Ep, Es. unfold Validate_checkpoint in Hv. cbn [cg_Params cg_Checkpoints cg_AckCount cg_CheckpointSignatures] in Hv.
  unfold SortCheckpoints in *. rewrite sort_slice_id in Hv |- * by done.
  pose proof (dense_keys _ _ (co_numbers _ _ HC) (co_count _ _ HC)) as Hk.
  assert (Z.of_nat (length (entries (checkpoints s))) = GetAckCount s) as Hlen.
  { pose proof (co_count _ _ HC). rewrite <- (length_map fst), Hk, length_seqZ. lia. }
  ok_step Hv. ok_step Hv. ok_step Hv. clear Ha Hv. unfold InitGenesis_checkpoint.
  cbn [cg_Params cg_Checkpoints cg_AckCount cg_CheckpointSignatures cg_BufferedCheckpoint cg_LastNoAck cg_CheckpointSignaturesTxhash].
  set (s0 := if 0 <? GetLastNoAck s then _ else _).
  assert (checkpoints s0 = ∅ /\ bufferedCheckpoint s0 = None /\ ackCount s0 = None /\ checkpoint_params s0 = Some p) as (Z1 & Z2 & Z3 & Z4)
    by (unfold s0; destruct (0 <? GetLastNoAck s); done).
  unfold GetCheckpoints in *. fold (entries (checkpoints s)) in *. rewrite length_map in *.
  match goal with |- exists s', (?x ≫= _) = _ /\ _ => set (loaded := x) end.
  assert (loaded = Ok (set_chain s0 (checkpoints s) None None)) as ->.
  { unfold loaded. destruct (entries (checkpoints s)) as [|e es] eqn:Ee.
    - cbn [length Nat.eqb]. assert (checkpoints s = ∅) as ->.
      { apply map_eq. intros i. rewrite lookup_empty. destruct (checkpoints s !! i) as [c|] eqn:Ec; [|done].
        apply elem_of_entries in Ec. rewrite Ee in Ec. by apply elem_of_nil in Ec. }
      f_equal. clear -Z1 Z2 Z3. clearbody s0. destruct s0. cbn in *. by subst.
    - destruct (Nat.eqb_spec (length (e :: es)) 0) as [|Hne]; [done|]. ok_step Ha0. rewrite Hg0. cbn [panic_if].
      rewrite <- Ee in *. unfold SortCheckpoints. rewrite sort_slice_id by done. rewrite load_checkpoints_ok; [|lia|rewrite Hlen; lia|by rewrite Hlen| |by destruct a0|intros j _; by rewrite Z1, lookup_empty].
      + rewrite Z1, Z2, Z3. f_equal. f_equal. by apply rebuild_entries.
      + intros [i c] Hin%elem_of_entries. destruct (co_stored _ _ HC _ _ Hin) as (Ei & _). split; [done|by eapply Hf]. }
  cbn [mbind outcome_bind]. rewrite Hg. cbn [panic_if]. eexists. split; [done|]. cbn.
  assert (exists b, (match SetCheckpointBuffer (set_chain s0 (checkpoints s) None None) (GetCheckpointFromBuffer s) with
             | Ok s' => s' | _ => set_chain s0 (checkpoints s) None None end) = set_chain s0 (checkpoints s) b None /\ b = bufferedCheckpoint s) as (b & -> & ->).
  { unfold SetCheckpointBuffer, GetCheckpointFromBuffer. destruct (bufferedCheckpoint s) as [b|] eqn:Eb.
    - destruct (Hb b Eb) as [Hid Hfmt]. exists (Some b). rewrite Hfmt. cbn [cp_Id with_cp_proposer].
      destruct (Z.eqb_spec (cp_Id b) 0); [done|]. cbn. split; [|done]. f_equal. by destruct b.
    - exists None. split; done. }
  cbn. rewrite Z4. split_and!; done.
Qed.
End checkpoints.

(** ** State-sync records *)

(** The index by time lists exactly the records. *)
Definition time_index_ok (s : ClerkState) : Prop := forall t i j,
  RecordsWithTime s !! (t, i) = Some j <-> j = i /\ exists r, RecordsWithID s !! i = Some r /\ er_RecordTime r = t.
Record records_ok (s : ClerkState) : Prop := {
  ro_ids id r : RecordsWithID s !! id = Some r -> er_Id r = id;
  ro_times : time_index_ok s;
  ro_sequences : ""%string ∉ RecordSequences s;
  ro_index t h x : BlockTimeReverseIndex s !! (t, h) = Some x -> x = h;
}.

Definition set_records (s : ClerkState) m t : ClerkState :=
  {| RecordsWithID := m; RecordsWithTime := t; RecordSequences := RecordSequences s;
     PendingVisibilityEvents := PendingVisibilityEvents s; BlockTimeReverseIndex := BlockTimeReverseIndex s;
     VisibilityHeightByID := VisibilityHeightByID s |}.
Lemma fold_SetEventRecord l : forall s, NoDup (map er_Id l) ->
  (forall r t, r ∈ l -> RecordsWithID s !! er_Id r = None /\ RecordsWithTime s !! (t, er_Id r) = None) ->
  fold_left (fun s record => (SetEventRecord s record).1) l s =
    set_records s (fold_left (fun m r => <[er_Id r := r]> m) l (RecordsWithID s))
      (fold_left (fun m r => <[(er_RecordTime r, er_Id r) := er_Id r]> m) l (RecordsWithTime s)).
Proof.
  induction l as [|r l IH]; intros s ND Hn; cbn [fold_left map] in *; [by destruct s|]. apply NoDup_cons in ND as [Hr ND].
  destruct (Hn r (er_RecordTime r) ltac:(left)) as [N1 N2].
  assert ((SetEventRecord s r).1 = set_records s (<[er_Id r := r]> (RecordsWithID s)) (<[(er_RecordTime r, er_Id r) := er_Id r]> (RecordsWithTime s))) as ->.
  { unfold SetEventRecord, SetEventRecordWithID, SetEventRecordWithTime, HasEventRecord. rewrite N1, bool_decide_false by (by intros [? ?]).
    cbn. rewrite N2. done. }
  rewrite IH; [done|done|]. intros r' t Hr'. destruct (Hn r' t ltac:(by right)) as [M1 M2].
  assert (er_Id r <> er_Id r') as Hne by (intros E; apply Hr; rewrite E; apply list_elem_of_fmap; by exists r').
  cbn. rewrite !lookup_insert_ne by congruence. done.
Qed.
Lemma fold_SetRecordSequence l : forall s, ""%string ∉ l ->
  fold_left SetRecordSequence l s =
    {| RecordsWithID := RecordsWithID s; RecordsWithTime := RecordsWithTime s; RecordSequences := list_to_set l ∪ RecordSequences s;
       PendingVisibilityEvents := PendingVisibilityEvents s; BlockTimeReverseIndex := BlockTimeReverseIndex s;
       VisibilityHeightByID := VisibilityHeightByID s |}.
Proof.
  induction l as [|x l IH]; intros s Hl; cbn [fold_left list_to_set].
  { destruct s as [? ? q ? ? ?]. cbn. f_equal. set_solver. }
  rewrite IH by set_solver. unfold SetRecordSequence. destruct (String.eqb_spec x "") as [->|_]; [set_solver|]. cbn. f_equal. set_solver.
Qed.

(** The exported records are the stored ones, each once; so are their times. *)
Lemma event_records_listed s : (forall i r, RecordsWithID s !! i = Some r -> er_Id r = i) ->
  NoDup (map er_Id (GetAllEventRecords s)) /\
  forall r, r ∈ GetAllEventRecords s <-> RecordsWithID s !! er_Id r = Some r.
Proof.
  intros H1. unfold GetAllEventRecords, IterateRecords. split.
  - rewrite map_map. rewrite (map_ext_in _ fst); [apply ssorted_NoDup, entries_ssorted|].
    intros [i r] Hin%list_elem_of_In%elem_of_entries. by apply H1.
  - intros r. rewrite list_elem_of_fmap. split.
    + intros ([i x] & -> & Hx%elem_of_entries). cbn. by rewrite (H1 _ _ Hx).
    + intros Hr. exists (er_Id r, r). split; [done|]. by apply elem_of_entries.
Qed.
Lemma event_times_listed s : records_ok s ->
  map (fun r => (er_RecordTime r, er_Id r, er_Id r)) (GetAllEventRecords s) ≡ₚ map_to_list (RecordsWithTime s).
Proof.
  intros [H1 H2 _ _]. destruct (event_records_listed s H1) as [ND Hall].
  apply NoDup_Permutation; [|apply NoDup_map_to_list|].
  - apply (NoDup_fmap_1 snd). change (NoDup (map snd (map (fun x => (er_RecordTime x, er_Id x, er_Id x)) (GetAllEventRecords s)))).
    by rewrite map_map.
  - intros [[t i] j]. rewrite elem_of_map_to_list, (H2 t i j). rewrite list_elem_of_fmap. split.
    + intros (r & [= -> -> ->] & Hr). split; [done|]. exists r. split; [by apply Hall|done].
    + intros (-> & r & Hr & <-). exists r. rewrite (H1 _ _ Hr). split; [done|]. apply Hall. by rewrite (H1 _ _ Hr).
Qed.

Lemma clerk_restarts s : records_ok s -> InitGenesis empty_clerk (ExportGenesis s) = s.
Proof.
  intros HR. pose proof HR as [H1 H2 H3 H4]. unfold InitGenesis, ExportGenesis.
  cbn [g_EventRecords g_RecordSequences PendingVisibilityEventIds VisibilityHeightsById BlockTimeEntries].
  destruct (event_records_listed s H1) as [ND Hall].
  rewrite fold_SetEventRecord by done. cbn [RecordsWithID RecordsWithTime empty_clerk].
  rewrite (rebuild_values er_Id id (RecordsWithID s)) by (first [done|intros i r Hr; split; [by apply H1|done]]).
  rewrite (rebuild (fun r => (er_RecordTime r, er_Id r)) er_Id (RecordsWithTime s)).
  2: { by apply event_times_listed. }
  rewrite fold_SetRecordSequence.
  2: { unfold GetRecordSequences. rewrite (sort_by_perm id), elem_of_elements. done. }
  set (s1 := {| RecordsWithID := _ |}).
  match goal with |- fold_left ?f3 _ (fold_left ?f2 _ (fold_left ?f1 _ _)) = _ => set (s2 := fold_left f1 _ s1); set (s3 := fold_left f2 _ s2); set (s4 := fold_left f3 _ s3) end.
  assert (PendingVisibilityEvents s2 = PendingVisibilityEvents s) as P2.
  { unfold s2. rewrite (fold_adds AddPendingVisibilityEvent PendingVisibilityEvents) by done. rewrite rebuild_set. cbn. set_solver. }
  assert (VisibilityHeightByID s3 = VisibilityHeightByID s) as P3.
  { unfold s3. rewrite (fold_reads _ VisibilityHeightByID (fun e : Z * Z => e.1) (fun e => e.2)) by done. unfold s2.
    rewrite (fold_keeps AddPendingVisibilityEvent VisibilityHeightByID) by done. by apply rebuild_entries. }
  assert (BlockTimeReverseIndex s4 = BlockTimeReverseIndex s) as P4.
  { unfold s4. rewrite (fold_reads _ BlockTimeReverseIndex (fun e : Z * Z => (e.1, e.2)) (fun e => e.2)) by done. unfold s3.
    rewrite (fold_keeps _ BlockTimeReverseIndex) by done. unfold s2. rewrite (fold_keeps AddPendingVisibilityEvent BlockTimeReverseIndex) by done.
    apply rebuild. rewrite map_map. match goal with |- map _ ?E ≡ₚ _ => transitivity E; [|apply entries_perm] end. apply Permutation_refl'.
    match goal with |- _ = ?E => transitivity (map (fun x => x) E); [|apply map_id] end. apply map_ext_in. intros [[t h] x] Hin%list_elem_of_In%elem_of_entries. cbn. by rewrite (H4 _ _ _ Hin). }
  assert (RecordsWithID s4 = RecordsWithID s /\ RecordsWithTime s4 = RecordsWithTime s /\ RecordSequences s4 = RecordSequences s /\
    PendingVisibilityEvents s4 = PendingVisibilityEvents s /\ VisibilityHeightByID s4 = VisibilityHeightByID s) as (Q1 & Q2 & Q3 & Q4 & Q5).
  { unfold s4. rewrite !(fold_keeps _ RecordsWithID), !(fold_keeps _ RecordsWithTime), !(fold_keeps _ RecordSequences),
      !(fold_keeps _ PendingVisibilityEvents), !(fold_keeps _ VisibilityHeightByID) by done. unfold s3.
    rewrite !(fold_keeps _ RecordsWithID), !(fold_keeps _ RecordsWithTime), !(fold_keeps _ RecordSequences) by done. fold s3. rewrite P3.
    unfold s3. rewrite (fold_keeps _ PendingVisibilityEvents) by done. rewrite P2. unfold s2.
    rewrite (fold_keeps _ RecordsWithID), (fold_keeps _ RecordsWithTime), (fold_keeps _ RecordSequences) by done. cbn.
    split_and!; try done. unfold GetRecordSequences. rewrite rebuild_set. set_solver. }
  clear -P4 Q1 Q2 Q3 Q4 Q5. clearbody s4. destruct s4, s. cbn in *. by subst.
Qed.

(** ** The validator set *)

Definition no_validators : ValidatorSet := {| Validators := []; Proposer := None; TotalVotingPower := 0 |}.

(** A set that a genesis can list: somebody in it, and nobody with the empty address. *)
Record listed (vs : ValidatorSet) : Prop := {
  li_wf : wf vs;
  li_nonempty : Validators vs <> [];
  li_signers : Forall (fun v => vaddr v <> FormatAddress "") (Validators vs);
}.

Lemma NewValidatorSet_ok (P : Validator -> Prop) vs : (forall v p, P v -> P (with_priority v p)) -> listed vs -> Forall P (Validators vs) ->
  exists vs', NewValidatorSet (Validators vs) = Ok vs' /\ wf vs' /\ Validators vs' <> [] /\ Forall P (Validators vs') /\
    forall k, power_at k (Validators vs') = power_at k (Validators vs).
Proof.
  intros HPp [Hwf Hne Hs] HP. assert (wf no_validators) as Hw0 by (apply wf_check_sound; reflexivity).
  assert (Forall (fun v => 0 < VotingPower v) (Validators vs)) as Hpos by apply (wf_power _ Hwf).
  assert (applicable no_validators (Validators vs)) as Hap.
  { split.
    - apply ssorted_NoDup, Hwf.
    - done.
    - eapply Forall_impl; [exact Hpos|]. cbn. lia.
    - cbn. apply (wf_sum _ Hwf).
    - intros c Hc E0. rewrite Forall_forall in Hpos. specialize (Hpos _ Hc). lia.
    - destruct (Validators vs) as [|v l] eqn:E; [done|]. exists (vaddr v). unfold updated_power. cbn. rewrite decide_True by done.
      by apply Forall_cons in Hpos as [? _]. }
  destruct (update_succeeds no_validators (Validators vs) Hw0 Hne Hap) as [v1 H1].
  assert (updateWithChangeSet no_validators (Validators vs) false = Ok v1) as H2.
  { destruct (applicable_processChanges _ _ Hw0 Hap) as (u & d & Hpc). unfold UpdateWithChangeSet in H1.
    rewrite (updateWithChangeSet_unfold _ _ true u d) in H1 by done. rewrite (updateWithChangeSet_unfold _ _ false u d) by done.
    destruct (processChanges_ok _ _ _ Hpc) as (_ & Ed & _). assert (d = []) as ->; [|exact H1].
    destruct d as [|y d']; [done|]. assert (y ∈ y :: d') as Hy by left. rewrite Ed in Hy.
    apply list_elem_of_In, filter_In in Hy as [Hy Hz]. apply list_elem_of_In in Hy. rewrite (sort_by_perm vaddr) in Hy.
    rewrite Forall_forall in Hpos. specialize (Hpos _ Hy). unfold is_update in Hz. bool_hyps. lia. }
  pose proof (update_Forall P HPp _ _ _ Hw0 H1 ltac:(constructor) HP) as HP1.
  destruct (update_cases no_validators (Validators vs) true Hw0 Hne) as [[e E]|(v1' & E & HU)]; unfold UpdateWithChangeSet in H1; [congruence|].
  rewrite H1 in E. injection E as <-. destruct HU as [W1 N1 Hpow _ _ _ _ _ _].
  destruct (increment_ok v1 W1 N1) as (v2 & E2 & [W2 Sm _ _]).
  exists v2. unfold NewValidatorSet. fold no_validators. rewrite H2. destruct (Validators vs) as [|v l] eqn:Ev; [done|]. rewrite <- Ev in *.
  split; [done|]. split; [done|]. split; [intros E; rewrite E in Sm; by apply Forall2_nil_inv_r in Sm|]. split.
  - apply (same_but_prio_Forall P _ _ HPp Sm HP1).
  - intros k. rewrite (same_but_prio_power_at k _ _ Sm), Hpow. unfold updated_power, power_at. cbn. by destruct (find_by _ _ _).
Qed.

Lemma add_genesis_ok r l : forall s, store_ok s -> exists s', add_genesis_validators false r s l = Ok s' /\ store_ok s' /\
  previousSet s' = previousSet s /\ penultimateSet s' = penultimateSet s /\ sequences s' = sequences s /\
  validatorSet s' = (if (length l =? 0)%nat then validatorSet s else Some r) /\
  validators s' = fold_left (fun m v => <[vaddr v := v]> m) l (validators s).
Proof.
  induction l as [|v l IH]; intros s HS; cbn [add_genesis_validators]; [by exists s|]. cbn [mbind outcome_bind].
  assert (store_ok (UpdateValidatorSetInStore (AddValidator s v) r)) as HS1 by (destruct (AddValidator_store_ok s v HS) as [A1 A2]; by split).
  destruct (IH _ HS1) as (s' & E & H1 & H2 & H3 & H4 & H5 & H6). exists s'.
  split; [exact E|]. split_and!; [done|by rewrite H2|by rewrite H3|by rewrite H4| |by rewrite H6]. rewrite H5. by destruct l.
Qed.
Lemma comet_updates_ok {PK} (pk : bytes -> option PK) l : Forall (fun v => is_Some (pk (PubKey v))) l -> exists ups, comet_updates pk l = Ok ups.
Proof.
  induction 1 as [|v l [k Hk] _ [ups IH]]; cbn [comet_updates]; [by eexists|]. rewrite Hk, IH. cbn. by eexists.
Qed.

(** The validators of the set are stored, with the powers of the exported set; the set of
    the last block becomes the same set. *)
Lemma stake_restarts {PK} (pk : bytes -> option PK) s vs g : validatorSet s = Some vs -> listed vs ->
  Forall (fun v => is_Some (pk (PubKey v))) (Validators vs) -> ExportGenesis_stake s = Some g ->
  exists ups s' vs', InitGenesis_stake pk empty_stake g = Ok (ups, s') /\ end_block_ready s' vs' /\
    (forall k, power_at k (Validators vs') = power_at k (Validators vs)) /\ previousSet s' = Some vs' /\ penultimateSet s' = None /\
    sequences s' = sequences s /\ lastBlockTxs s' = lastBlockTxs s /\
    forall a v, validators s' !! a = Some v -> v ∈ Validators vs'.
Proof.
  intros Hset Hl Hpk E. unfold ExportGenesis_stake, GetValidatorSet in E. rewrite Hset in E. cbn [of_option] in E.
  destruct (GetPreviousBlockValidatorSet s) as [pv| |]; [|done..]. destruct (GetLastBlockTxs s) as [txs| |] eqn:Etx; [|done..].
  destruct (GetPenultimateBlockValidatorSet s) as [ppv| |]; [|done..]. injection E as <-. apply of_option_ok in Etx.
  unfold InitGenesis_stake. cbn [sg_CurrentValidatorSet sg_Validators sg_StakingSequences sg_LastBlockTxs].
  destruct (NewValidatorSet_ok (fun v => is_Some (pk (PubKey v))) vs ltac:(done) Hl Hpk) as (vs' & E1 & W & N & K & Hpow).
  destruct (Validators vs) as [|v0 l0] eqn:Evs; [by destruct Hl|]. cbn [length Nat.eqb]. rewrite E1. cbn [mbind outcome_bind].
  set (s0 := UpdatePreviousBlockValidatorSetInStore empty_stake vs').
  assert (store_ok s0) as HS0 by (split; [intros a v|intros i a]; cbn; by rewrite lookup_empty).
  destruct (add_genesis_ok vs' (Validators vs') s0 HS0) as (s1 & E2 & HS1 & P1 & P2 & P3 & P4 & P5). rewrite E2. cbn [or_panic mbind outcome_bind].
  set (s2 := fold_left SetStakingSequence _ s1).
  assert (validators s2 = validators s1 /\ signer s2 = signer s1 /\ validatorSet s2 = validatorSet s1 /\ previousSet s2 = previousSet s1 /\
    penultimateSet s2 = penultimateSet s1) as (Q1 & Q2 & Q3 & Q4 & Q5).
  { unfold s2. by rewrite (fold_keeps SetStakingSequence validators), (fold_keeps SetStakingSequence signer), (fold_keeps SetStakingSequence validatorSet),
      (fold_keeps SetStakingSequence previousSet), (fold_keeps SetStakingSequence penultimateSet). }
  assert (sequences s2 = sequences s) as Q6.
  { unfold s2. rewrite (fold_adds SetStakingSequence sequences) by done. unfold GetStakingSequences. rewrite rebuild_set, P3. cbn. set_solver. }
  assert (validators s1 = list_to_map (map (fun v => (vaddr v, v)) (Validators vs'))) as Hv.
  { rewrite P5. cbn [validators s0 UpdatePreviousBlockValidatorSetInStore empty_stake set_sets]. rewrite (fold_insert_map vaddr id) by apply ssorted_NoDup, W.
    by rewrite map_union_empty. }
  assert (NoDup (map fst (map (fun v => (vaddr v, v)) (Validators vs')))) as ND by (rewrite map_map; apply ssorted_NoDup, W).
  assert (forall a v, validators s1 !! a = Some v -> v ∈ Validators vs') as Hin.
  { intros a v Ha. rewrite Hv in Ha. apply elem_of_list_to_map in Ha; [|exact ND]. apply list_elem_of_fmap in Ha as (w & [= _ <-] & Hw). done. }
  destruct (comet_updates_ok pk (GetAllValidators (SetLastBlockTxs s2 txs))) as [ups ->].
  { apply Forall_forall. intros v ([a x] & -> & Hx%elem_of_entries)%list_elem_of_fmap. cbn in Hx. rewrite Q1 in Hx.
    rewrite Forall_forall in K. by apply K, (Hin a). }
  exists ups, (SetLastBlockTxs s2 txs), vs'. split; [done|]. split; [|split_and!; [done|..]].
  - split.
    + destruct HS1 as [A1 A2]. split; cbn; rewrite ?Q1, ?Q2; done.
    + cbn. rewrite Q3, P4. by destruct (Validators vs').
    + done.
    + intros v Hvin. cbn. rewrite Q1, Hv. exists v. apply elem_of_list_to_map; [exact ND|]. apply list_elem_of_fmap. by exists v.
  - cbn. by rewrite Q4, P1.
  - cbn. by rewrite Q5, P2.
  - done.
  - cbn. done.
  - intros a v. cbn. rewrite Q1. apply Hin.
Qed.

(** ** The application *)

Section restart.
Context {AC : AddressCodec} {B G : Type} {GM : GenesisModules B G} {RC : RootChain} {PK : Type}.
Context (pub_key_address : bytes -> string) (VerifyAddressFormat : bytes -> bool) (pk : bytes -> option PK).
Context (sort_slice : forall A : Type, (A -> Z) -> list A -> list A) (cfg : Config).
Implicit Types s : AppState B.

(** What the export relies on: times that order the milestones and the checkpoints, as
    blocks do that are seconds apart; keys the consensus library knows; and modules of the
    SDK that restore what they export. *)
Record exportable (params : CMParams) s : Prop := {
  ex_set vs : validatorSet (app_stake s) = Some vs -> listed vs /\ Forall (fun v => is_Some (pk (PubKey v))) (Validators vs);
  ex_keys : Forall (fun v => is_Some (pk (PubKey v))) (GetAllValidators (app_stake s));
  ex_milestone_proposers : formatted_proposers (app_milestone s);
  ex_milestone_times : in_time_order mi_Timestamp (GetMilestones (app_milestone s));
  ex_milestone_count : GetMilestoneCount (app_milestone s) <= MaxUint64;
  ex_checkpoint_proposers i c : checkpoints (app_checkpoint s) !! i = Some c -> FormatAddress (cp_Proposer c) = cp_Proposer c;
  ex_checkpoint_times : in_time_order cp_Timestamp (GetCheckpoints (app_checkpoint s));
  ex_buffer : exportable_buffer (app_checkpoint s);
  ex_records : records_ok (app_clerk s);
  ex_bank : sdk_InitGenesis (sdk_ExportGenesis (app_bank s)) = Ok (app_bank s);
  ex_params : app_chain_params s = Some (used params);
}.

(** What a restart keeps: everything the chain of blocks is sound by, but for the
    priorities of the validators; of the stored validators, the members of the set. *)
Record restarted s s' : Prop := {
  rs_milestones : milestone (app_milestone s') = milestone (app_milestone s) /\
    GetMilestoneCount (app_milestone s') = GetMilestoneCount (app_milestone s);
  rs_spans : spans (app_bor s') = spans (app_bor s) /\ latestSpan (app_bor s') = latestSpan (app_bor s) /\
    bor_Params (app_bor s') = bor_Params (app_bor s);
  rs_checkpoints : checkpoints (app_checkpoint s') = checkpoints (app_checkpoint s) /\
    GetAckCount (app_checkpoint s') = GetAckCount (app_checkpoint s) /\
    bufferedCheckpoint (app_checkpoint s') = bufferedCheckpoint (app_checkpoint s) /\
    checkpoint_params (app_checkpoint s') = checkpoint_params (app_checkpoint s);
  rs_validators : exists vs vs', validatorSet (app_stake s) = Some vs /\ end_block_ready (app_stake s') vs' /\
    previousSet (app_stake s') = Some vs' /\ penultimateSet (app_stake s') = None /\
    (forall k, power_at k (Validators vs') = power_at k (Validators vs)) /\
    forall a v, validators (app_stake s') !! a = Some v -> v ∈ Validators vs';
  rs_events : sequences (app_stake s') = sequences (app_stake s) /\ lastBlockTxs (app_stake s') = lastBlockTxs (app_stake s);
  rs_clerk : app_clerk s' = app_clerk s;
  rs_topup : app_topup s' = app_topup s;
  rs_bank : app_bank s' = app_bank s;
  rs_params : app_chain_params s' = app_chain_params s;
}.

(** What a restart forgets, because the genesis does not carry it: the votes for producers,
    their scores, downtimes and statuses, and what the pre-blocker noted of milestones,
    pending heads and spans. *)
Record forgetful s' : Prop := {
  fg_votes : ProducerVotes (app_bor s') = ∅ /\ PerformanceScore (app_bor s') = ∅ /\ ProducerPlannedDowntime (app_bor s') = ∅;
  fg_status : LatestActiveProducer (app_bor s') = ∅ /\ LatestFailedProducer (app_bor s') = ∅ /\
    LastSpanBlock (app_bor s') = None /\ seedLastProducer (app_bor s') = ∅;
  fg_milestones : lastMilestoneBlock (app_milestone s') = None /\ lastPendingBorBlock (app_milestone s') = None /\
    lastPendingBorBlockId (app_milestone s') = None /\ lastPendingBorBlockHeight (app_milestone s') = None;
  fg_proposer : app_block_proposer s' = None;
}.
Lemma bor_forgets g : let b := InitGenesis_bor empty_bor g in
  ProducerVotes b = ∅ /\ PerformanceScore b = ∅ /\ ProducerPlannedDowntime b = ∅ /\ LatestActiveProducer b = ∅ /\
  LatestFailedProducer b = ∅ /\ LastSpanBlock b = None /\ seedLastProducer b = ∅.
Proof.
  unfold InitGenesis_bor. cbn zeta. set (s1 := fold_left AddNewRawSpan _ _).
  assert (ProducerVotes s1 = ∅ /\ PerformanceScore s1 = ∅ /\ ProducerPlannedDowntime s1 = ∅ /\ LatestActiveProducer s1 = ∅ /\
    LatestFailedProducer s1 = ∅ /\ LastSpanBlock s1 = None /\ seedLastProducer s1 = ∅) as H.
  { unfold s1. by rewrite (fold_keeps AddNewRawSpan ProducerVotes), (fold_keeps AddNewRawSpan PerformanceScore),
      (fold_keeps AddNewRawSpan ProducerPlannedDowntime), (fold_keeps AddNewRawSpan LatestActiveProducer),
      (fold_keeps AddNewRawSpan LatestFailedProducer), (fold_keeps AddNewRawSpan LastSpanBlock), (fold_keeps AddNewRawSpan seedLastProducer). }
  by destruct (last _).
Qed.
Lemma milestones_forget g ms : InitGenesis_milestone sort_slice empty_milestone g = Ok ms ->
  lastMilestoneBlock ms = None /\ lastPendingBorBlock ms = None /\ lastPendingBorBlockId ms = None /\ lastPendingBorBlockHeight ms = None.
Proof.
  unfold InitGenesis_milestone. intros E. ok_step E. injection E as <-.
  assert (lastMilestoneBlock a = None /\ lastPendingBorBlock a = None /\ lastPendingBorBlockId a = None /\ lastPendingBorBlockHeight a = None) as H.
  { unfold SetMilestoneParams in Ha. destruct (ValidateBasic_MilestoneParams _); [|done..]. by injection Ha as <-. }
  by rewrite (fold_keeps AddMilestone lastMilestoneBlock), (fold_keeps AddMilestone lastPendingBorBlock),
    (fold_keeps AddMilestone lastPendingBorBlockId), (fold_keeps AddMilestone lastPendingBorBlockHeight).
Qed.
Lemma init_modules_forget params id g ups s' : init_modules VerifyAddressFormat pk sort_slice id g = Ok (ups, params, s') -> forgetful s'.
Proof.
  unfold init_modules. intros E. ok_step E. ok_step E. destruct a0 as [u ss]. ok_step E. ok_step E. injection E as _ _ <-.
  destruct (bor_forgets (gen_bor g)) as (B1 & B2 & B3 & B4 & B5 & B6 & B7). split; cbn; try done. by eapply milestones_forget.
Qed.

Lemma chain_ok_restarted P c c' : checkpoints c' = checkpoints c -> GetAckCount c' = GetAckCount c -> bufferedCheckpoint c' = bufferedCheckpoint c ->
  chain_ok P c -> chain_ok P c'.
Proof.
  intros E1 E2 E3 [H0 H1 H2 H3 H4 H5]. split; rewrite ?E2, ?E1; try assumption. intros b Hb. rewrite E3 in Hb.
  unfold next_start. rewrite E2, E1. by apply H5.
Qed.
Lemma restarted_ok past s s' : restarted s s' -> state_ok past 0 s -> state_ok past 0 s'.
Proof.
  intros [[M1 M2] (S1 & S2 & _) (C1 & C2 & C3 & _) (vs & vs' & _ & Hr & Hp & Hpp & _ & _) _ _ HT _ _] H.
  apply (state_ok_step past 0 0 s s'); [lia|done|..].
  - destruct (st_milestones _ _ _ H) as [H1 H2 H3 H4]. split; rewrite ?M1, ?M2; done.
  - split; [by exists vs'|]. pose proof (eb_wf _ _ Hr). split; intros v Hv; congruence.
  - by apply grow_same.
  - eapply chain_ok_restarted; [..|apply (st_checkpoints _ _ _ H)]; done.
  - lia.
  - rewrite HT. apply (st_accounts _ _ _ H).
Qed.

Lemma init_modules_restart past params s g : slice_sort sort_slice -> state_ok past 0 s -> exportable params s ->
  export_modules sort_slice params s = Ok (Some g) -> ValidateGenesis pub_key_address VerifyAddressFormat g = Ok tt ->
  exists ups s', init_modules VerifyAddressFormat pk sort_slice (HeimdallChainId (ChainParams_of params)) g = Ok (ups, params, s') /\ restarted s s'.
Proof.
  intros Hsort [HM ((vs & Hready) & _) (n & Hspan & _) [HC HCm] HA _] [X1 X2 X3 X4 X5 X6 X7 X8 X9 X10 X11] E Hv.
  unfold export_modules in E. ok_step E. rename a into bor. destruct (ExportGenesis_stake (app_stake s)) as [sg|] eqn:Es; [|done].
  destruct (ExportGenesis_checkpoint sort_slice (app_checkpoint s)) as [cg|] eqn:Ec; [|done]. injection E as <-.
  unfold ValidateGenesis in Hv. cbn [gen_sdk gen_stake gen_checkpoint gen_milestone gen_bor gen_clerk gen_topup] in Hv.
  ok_inv Hv. repeat match goal with a : unit |- _ => destruct a end. destruct (X1 vs (eb_set _ _ Hready)) as [Hl Hpk].
  destruct (stake_restarts pk (app_stake s) vs sg (eb_set _ _ Hready) Hl Hpk Es) as (ups & ss & vs' & E1 & R1 & R2 & R3 & R4 & R5 & R6 & R7).
  destruct (checkpoints_restart VerifyAddressFormat sort_slice _ (app_checkpoint s) cg Hsort HC ltac:(lia) X6 X8 X7 Ec) as (cs & E2 & C1 & C2 & C3 & C4 & _);
    [assumption|].
  destruct (milestones_restart sort_slice (app_milestone s) _ Hsort HM X3 X5 X4 eq_refl) as (ms & E3 & M1 & M2 & _); [assumption|].
  destruct (bor_restarts _ _ Hspan _ Ha) as (S1 & S2 & S3).
  unfold init_modules. cbn [gen_sdk gen_chainmanager gen_stake gen_checkpoint gen_milestone gen_bor gen_clerk gen_topup].
  rewrite X10, E1, E2, E3. cbn [mbind outcome_bind].
  assert (with_chain_id params (HeimdallChainId (ChainParams_of params)) = params) as -> by (destruct params as [[] ? ?]; done).
  eexists ups, _. split; [done|]. split; cbn; try done.
  - exists vs, vs'. split_and!; [by apply eb_set|done..].
  - by apply clerk_restarts.
  - by apply topup_restarts.
Qed.

(** C6: A chain restarts from its export: when the exported genesis passes the validation,
    a node starts with it.  Its state has the same milestones, spans, checkpoints, recorded
    events, records, accounts, bank and validator powers, and is as sound as the old one, so
    the blocks that follow keep it so; of the stored validators only the members of the
    set are left, and what the genesis does not carry - votes, scores, downtimes and
    statuses of producers, the pending head - is forgotten. *)
Theorem exported_chain_restarts past ctx own producerVotes c params s g : slice_sort sort_slice ->
  state_ok past 0 s -> exportable params s -> export_modules sort_slice params s = Ok (Some g) ->
  ValidateGenesis pub_key_address VerifyAddressFormat g = Ok tt -> BorFailoverConfigured c = false ->
  exists ups s', InitChainer pub_key_address VerifyAddressFormat pk sort_slice cfg ctx c own producerVotes
    (HeimdallChainId (ChainParams_of params)) g = Ok (ups, params, s') /\ restarted s s' /\ forgetful s' /\ state_ok past 0 s'.
Proof.
  intros Hsort Hs Hx E Hv Hc. destruct (init_modules_restart past params s g Hsort Hs Hx E Hv) as (ups & s' & E1 & HR).
  unfold InitChainer. rewrite Hv. cbn [or_panic mbind outcome_bind]. rewrite E1. cbn [mbind outcome_bind].
  unfold enforceBorFailoverBPGuard. rewrite Hc. cbn [negb mbind outcome_bind].
  unfold export_modules in E. ok_step E. destruct (ExportGenesis_stake (app_stake s)) as [sg|] eqn:Es; [|done].
  destruct (ExportGenesis_checkpoint sort_slice (app_checkpoint s)) as [cg|]; [|done]. injection E as <-. cbn [gen_stake gen_checkpoint].
  assert (sg_Validators sg = GetAllValidators (app_stake s)) as ->.
  { unfold ExportGenesis_stake in Es.
    repeat match type of Es with match ?x with _ => _ end = _ => destruct x; try done end. by injection Es as <-. }
  destruct (comet_updates_ok pk (List.filter (fun v => IsCurrentValidator v (cg_AckCount cg)) (GetAllValidators (app_stake s)))) as [cur ->].
  { apply Forall_filter. apply (ex_keys _ _ Hx). }
  cbn [or_panic mbind outcome_bind]. exists cur, s'. split; [done|]. split; [done|].
  split; [by eapply init_modules_forget|by eapply restarted_ok].
Qed.
End restart.

Module RestartDemo.
Export BlockDemo.
Definition member (b : Byte.byte) (i : Z) (a : string) (power : Z) : Validator := NewValidator i 0 0 0 power [b] a.
Definition members : ValidatorSet :=
  {| Validators := [member Byte.xaa 1 "0xaa" 10; member Byte.xbb 2 "0xbb" 20]; Proposer := None; TotalVotingPower := 30 |}.
Definition address_of (k : bytes) : string := if decide (k = [Byte.xaa]) then "0xaa" else if decide (k = [Byte.xbb]) then "0xbb" else "".
Definition slices (A : Type) (f : A -> Z) (l : list A) : list A := sort_by f l.
#[export] Instance modules : GenesisModules TopupDemo.DemoBank TopupDemo.DemoBank := {|
  sdk_ValidateGenesis _ := true; sdk_InitGenesis b := Ok b; sdk_ExportGenesis b := b |}.
Definition chain_params : CMParams :=
  {| ChainParams_of :=
       {| cn_BorChainId := "137"; HeimdallChainId := "heimdall-137"; PolTokenAddress := "0x50"; StakingManagerAddress := "0x54";
          SlashManagerAddress := "0x55"; cn_RootChainAddress := "0x53"; cn_StakingInfoAddress := "0x51"; cn_StateSenderAddress := "0x52";
          StateReceiverAddress := "0x56"; ValidatorSetAddress := "0x57" |};
     cm_MainChainTxConfirmations := 6; cm_BorChainTxConfirmations := 10 |}.
Definition kept_checkpoint : Checkpoint :=
  {| cp_Id := 1; cp_Proposer := "0xaa"; cp_StartBlock := 0; cp_EndBlock := 99; cp_RootHash := repeat Byte.x01 32;
     cp_BorChainId := "137"; cp_Timestamp := 3000 |}.
Definition finalised (i start end_ time : Z) : MilestoneRecord :=
  {| mi_Proposer := "0xaa"; mi_StartBlock := start; mi_EndBlock := end_; mi_Hash := repeat Byte.x02 32; mi_BorChainId := "137";
     mi_MilestoneId := "id"; mi_Timestamp := time; mi_TotalDifficulty := 7 |}.
Definition running : AppState TopupDemo.DemoBank :=
  {| app_milestone :=
       {| milestone := {[ 1 := finalised 1 0 5 100; 2 := finalised 2 6 9 101 ]};
          milestone_params := Some {| MaxMilestonePropositionLength := 10; FfMilestoneThreshold := 1000; FfMilestoneBlockInterval := 250 |};
          milestone_count := Some 2; lastMilestoneBlock := Some 98; lastPendingBorBlock := None; lastPendingBorBlockId := None;
          lastPendingBorBlockHeight := None |};
     app_bor := set_seeds (set_spans AppDemo.no_spans {[ 0 := first_span ]} (Some 0)) ∅ (Some DefaultParams);
     app_stake := {| validators := list_to_map (map (fun v => (vaddr v, v)) (Validators members)); signer := {[ 1 := "0xaa"%string; 2 := "0xbb"%string ]};
                     sequences := {[ "7"%string ]}; validatorSet := Some members; previousSet := Some members; penultimateSet := Some members;
                     lastBlockTxs := Some [topup_tx] |};
     app_checkpoint := {| checkpoints := {[ 1 := kept_checkpoint ]}; bufferedCheckpoint := None; checkpoint_params := Some CheckpointDemo.demo_cp_params;
                          lastNoAck := Some 50; ackCount := Some 1; checkpointSignatures := Some []; checkpointSignaturesTxHash := Some ""%string |};
     app_clerk := AppDemo.empty_records;
     app_topup := {| topup_sequences := {[ "5"%string ]}; dividendAccounts := {[ "0xaa"%string := {| User := "0xaa"; FeeAmount := "5" |} ]} |};
     app_bank := {| TopupDemo.balances := ∅; TopupDemo.supply := 0 |};
     app_chain_params := Some (used chain_params); app_block_proposer := None |}.

Definition exported : outcome (option (GenesisState TopupDemo.DemoBank)) := export_modules slices chain_params running.

Lemma slices_sort : slice_sort slices.
Proof.
  split; [intros A f l; apply sort_by_perm|]. intros A f l. eapply sorted_weaken; [|apply (sort_by_sorted f)].
  intros x y H. unfold key_le in H. cbn in H. by apply Z.ltb_ge in H.
Qed.
Lemma members_listed : listed members.
Proof. split; [apply wf_check_sound; reflexivity|done|]. repeat constructor; by apply (bool_decide_unpack _); vm_compute. Qed.
Lemma milestone_cases i m : milestone (app_milestone running) !! i = Some m ->
  (i = 1 /\ m = finalised 1 0 5 100) \/ (i = 2 /\ m = finalised 2 6 9 101).
Proof.
  change (milestone (app_milestone running)) with (<[1 := finalised 1 0 5 100]> {[2 := finalised 2 6 9 101]} : gmap Z MilestoneRecord).
  rewrite lookup_insert_Some, lookup_singleton_Some. intros [[<- <-]|[_ [<- <-]]]; auto.
Qed.
Lemma checkpoint_cases i c : checkpoints (app_checkpoint running) !! i = Some c -> i = 1 /\ c = kept_checkpoint.
Proof. change (checkpoints (app_checkpoint running)) with ({[1 := kept_checkpoint]} : gmap Z Checkpoint). rewrite lookup_singleton_Some. by intros [<- <-]. Qed.

Lemma running_checkpoints : chain_ok (confirmed [running]) (app_checkpoint running).
Proof.
  split.
  - vm_compute. discriminate.
  - intros i. change (is_Some (({[1 := kept_checkpoint]} : gmap Z Checkpoint) !! i) <-> 1 <= i <= 1). split.
    + intros [c Hc]. apply lookup_singleton_Some in Hc as [<- _]. lia.
    + intros Hi. assert (i = 1) as -> by lia. by exists kept_checkpoint.
  - intros i c [-> ->]%checkpoint_cases. split; [done|]. split; [done|].
    exists running, (used chain_params), CheckpointDemo.demo_cp_params, "0x1234567890"%string.
    split; [apply list_elem_of_here|]. split; [done|]. split; [done|]. vm_compute. reflexivity.
  - intros c [_ ->]%checkpoint_cases. done.
  - intros i c d [-> ->]%checkpoint_cases [E _]%checkpoint_cases. lia.
  - done.
Qed.
Lemma running_ok : state_ok [running] 0 running.
Proof.
  assert (span_chain (app_bor running) 0) as Hspan.
  { destruct genesis_spans as [H1 H2 H3]. split; [done|exact H2|exact H3]. }
  assert (chain_ok (fun _ => True) (app_checkpoint running)) as HC by (eapply chain_ok_weaken; [|exact running_checkpoints]; done).
  split.
  - split.
    + intros n. change (GetMilestoneCount (app_milestone running)) with 2. split.
      * intros [m [[-> _]|[-> _]]%milestone_cases]; lia.
      * intros Hn. assert (n = 1 \/ n = 2) as [->| ->] by lia; by eexists.
    + vm_compute. discriminate.
    + intros n m [[-> ->]|[-> ->]]%milestone_cases; cbn; unfold MaxUint64; lia.
    + intros i j m m' Hij [[-> ->]|[-> ->]]%milestone_cases [[-> ->]|[-> ->]]%milestone_cases; cbn; lia.
  - split; [|split; intros vs [= <-]; apply members_listed]. exists members. split.
    + split.
      * apply (bool_decide_unpack (map_Forall (fun a v => vaddr v = a) _)). vm_compute. exact I.
      * apply (bool_decide_unpack (map_Forall (fun (i : Z) a => is_Some (validators (app_stake running) !! a) /\ FormatAddress a = a) _)). vm_compute. exact I.
    + done.
    + apply members_listed.
    + intros v Hv. revert v Hv. apply Forall_forall. repeat constructor; vm_compute; eauto.
  - exists 0%nat. split; [exact Hspan|]. vm_compute. discriminate.
  - split; [exact running_checkpoints|]. vm_compute. discriminate.
  - intros k da. change (dividendAccounts (app_topup running)) with ({["0xaa"%string := {| User := "0xaa"; FeeAmount := "5" |}]} : gmap string DividendAccount).
    intros [<- <-]%lookup_singleton_Some. split; [done|by vm_compute].
  - split; intros s0 ->%list_elem_of_singleton; [split; [exact HC|lia]|by exists 0%nat, 0%nat].
Qed.
Lemma running_exportable : exportable (@Some bytes) chain_params running.
Proof.
  split.
  - intros vs [= <-]. split; [exact members_listed|]. repeat constructor; eauto.
  - apply Forall_forall. intros v _. eauto.
  - intros i m [[-> ->]|[-> ->]]%milestone_cases; by vm_compute.
  - vm_compute. repeat constructor.
  - vm_compute. discriminate.
  - intros i c [-> ->]%checkpoint_cases. by vm_compute.
  - vm_compute. repeat constructor.
  - intros b. done.
  - split; [by intros id r|intros t i j; split; [done|by intros (_ & r & Hr & _)]|by vm_compute|by intros t h x].
  - done.
  - done.
Qed.
Definition no_failover : CustomConfig := {| BorRPCUrl := "http://bor"; BorGRPCUrl := ""; BorGRPCFlag := false; BorRPCTimeout := 1 |}.

Lemma exported_chain_restarts_witness : exists g ups s', exported = Ok (Some g) /\
  InitChainer address_of (fun _ => true) (@Some bytes) slices VoteDemo.demo_config at_99 no_failover [] [] "heimdall-137" g
    = Ok (ups, chain_params, s') /\ app_topup s' = app_topup running /\ state_ok [running] 0 s'.
Proof.
  destruct exported as [[g|]|e|] eqn:E; [|vm_compute in E; discriminate E..].
  destruct (exported_chain_restarts address_of (fun _ => true) (@Some bytes) slices VoteDemo.demo_config [running] at_99 [] [] no_failover
    chain_params running g) as (ups & s' & E1 & HR & _ & Hok).
  - exact slices_sort.
  - exact running_ok.
  - exact running_exportable.
  - exact E.
  - vm_compute in E. injection E as <-. vm_compute. reflexivity.
  - vm_compute. reflexivity.
  - exists g, ups, s'. split; [reflexivity|]. split; [exact E1|]. split; [by destruct HR|exact Hok].
Defined.

(** A validator that joined and waits for its epoch is exported, and not restored. *)
Definition waiting : Validator := NewValidator 3 5 0 1 7 [Byte.xcc] "0xcc".
Definition with_waiting : StakeState := AddValidator (app_stake running) waiting.
Example waiting_validator_is_lost : exists g ups s', ExportGenesis_stake with_waiting = Some g /\ waiting ∈ sg_Validators g /\
  InitGenesis_stake (@Some bytes) empty_stake g = Ok (ups, s') /\ validators s' !! "0xcc"%string = None /\ signer s' !! 3 = None.
Proof.
  destruct (ExportGenesis_stake with_waiting) as [g|] eqn:E; [|vm_compute in E; discriminate E].
  destruct (InitGenesis_stake (@Some bytes) empty_stake g) as [[ups s']|e|] eqn:E1.
  - exists g, ups, s'. split; [done|]. vm_compute in E. injection E as <-. vm_compute in E1. injection E1 as <- <-.
    split; [|split; [done|split; vm_compute; reflexivity]]. apply list_elem_of_In. cbn. auto 10.
  - vm_compute in E. injection E as <-. vm_compute in E1. discriminate E1.
  - vm_compute in E. injection E as <-. vm_compute in E1. discriminate E1.
Qed.
End RestartDemo.
